(* ===== verification/_CoqProject ===== *)
-Q . S2P
Prelude.v
Bytes.v
Base64.v
Sha256.v
Unicode.v
Strings.v
ArrowTypes.v
ArrowData.v
Strconv.v
Arguments.v
ArgConstraints.v
Envelope.v
SplitToken.v
AttachTicket.v
Capabilities.v
CatalogContents.v
CatalogRoute.v
Overload.v
Storage.v
Sqlite.v
SqliteStorage.v
ExecutionStorage.v
FlushDrain.v
Aggregate.v
AggregateWindow.v
AggregateStreaming.v
SqlTokens.v
SqlParser.v
SqlGrammar.v
Json.v
Columns.v
SqlChecks.v
ConstraintRecords.v
CreateTable.v
MemoryCatalog.v
ConstraintTables.v
ServedColumns.v
ColumnMetadata.v
GeneratedColumns.v
Unnulled.v
TableInfo.v
TableMetadata.v
BindResult.v
CatalogTables.v
WritableStore.v
WritableRows.v
WritableBatch.v
WritableCatalog.v
WritableInvariant.v
WritableExamples.v
Bind.v
Projection.v
FilterV2.v
FilterView.v
FilterHelpers.v
FilterDelta.v
FilterEval.v
Emit.v
Init.v
Exchange.v
Reply.v
StreamExamples.v
