(* ===== verification/Prelude.v ===== *)
(** * vgi-go: verification of the worker's core logic

    vgi-go is the Go SDK and worker of the VGI protocol: DuckDB attaches
    catalogs, binds functions and scans tables that a worker process serves over
    a pipe or HTTP. This library models the parts of the worker that decide
    something and proves what makes each of them correct. Names follow the
    source (src/vgi); a definition's doc comment says what it leaves out.

    ** The program's parts and where they are

    - What a client holds. [Envelope] (crypto.go): the AEAD envelopes around
      attach and transaction values, and how a request is unwrapped before its
      handler and its answer sealed after it. [SplitToken] (split_token.go,
      splits.go): the tokens of a scan plan, minted at plan time and redeemed by
      other workers. [AttachTicket] (attach_ticket.go): tickets that carry an
      attach's options between processes. All three are built on the sealing of
      vgirpc and the hashes of [Sha256]; the AEAD is a parameter with the laws a
      caller relies on (opening what was sealed, and nothing else).
    - What a catalog is. [Capabilities] (attach_profiles.go,
      constraint_records.go): the profiles an ATTACH selects. [CatalogContents]
      (schema_path.go, catalog_contents.go, catalog_collection.go): snapshots,
      their streams and their etags. [MemoryCatalog] (memory_catalog.go): the
      DDL-capable catalog, a state per attach value. [CatalogRoute]
      (catalog_route.go, shardkey.go): one worker serving several catalogs.
    - What a call resolves to. [ArrowTypes] (scalar_numeric.go, overload.go):
      type families and scores. [Overload] (overload.go, worker.go): the
      registry, its origins, the import of a sub-catalog and the resolution of a
      name to one implementation.
    - What a scan filters by. [ArrowData] (arrays and batches as the filters
      read them), [Json] (encoding/json as decodeStrict uses it), [FilterV2]
      (filter_v2.go: decoding and typing a filter document), [FilterView]
      (filter_v2.go, filter_pushdown.go: the filters functions see),
      [FilterHelpers] (filter_helpers.go: bounds, discrete values and SQL), and
      [FilterDelta] (filter_v2.go, filter_delta_history.go: filters that change
      during a scan, and their compacted history). [FilterEval] (filter_v2.go,
      filter_pushdown.go, expression_filter.go): the SQL of a predicate, the
      masks of a batch and the rows they keep.
    - What a stream is. [Emit] (batch_emit.go, cache_control.go,
      continuation.go): what a function sends with a batch, and the tracker of a
      turn's reply. [Init] (protocol.go, table_buffering_rpc.go, rehydrate.go):
      opening a stream, its recipe and the parameters rebuilt from it.
      [Exchange] (protocol.go, filter_delta_history.go, state_serialize.go,
      rehydrate.go): the turns of table-in-out streams and table scans, filter
      updates, and streams kept in a token. [Reply]: the rules of continued
      output and parent rows as the client sees them, over the class [Collector].
      [StreamExamples]: one worker, one function, one exchange.
    - What a call is given. [Strconv] (the strconv functions the code uses),
      [Arguments] (arguments.go, schema_utils.go: the arguments batch, lookup by
      position and name, remapping to declared positions, type bounds) and
      [ArgConstraints] (argument_constraints.go, protocol.go's bind: choices,
      ranges, patterns and declared defaults).
    - What an aggregate is. [Aggregate] (aggregate.go, aggregate_storage.go,
      aggregate_protocol.go: bind, update, combine, finalize and the destructor
      over the storage that the workers share), [AggregateWindow]
      (aggregate_helpers.go, aggregate_protocol.go: window_init, window,
      window_batch) and [AggregateStreaming] (aggregate_streaming.go: sessions
      and partition keys).
    - What a declaration's SQL means. [SqlTokens], [SqlParser] and [SqlGrammar]
      (scalar_sql.go: the tokenizer, the parser, and the grammar they are
      proved to read), [SqlChecks] (scalar_sql.go: the checks of CHECK
      constraints and generated columns), over the columns of [Columns].
    - How a table is declared and published. [ConstraintRecords]
      (constraint_records.go: the records, their rows and the check of one
      after another), [ConstraintTables] (the same check as a condition on the
      set of records), [ServedColumns] (the nullability served from them),
      [ColumnMetadata] (column_metadata.go), [GeneratedColumns]
      (column_expressions.go, with the Base64 of [Base64]), [Unnulled] (the
      checks do not see the nullability they serve), [TableInfo]
      (catalog_table_info.go: the published row), [TableMetadata]
      (catalog_table.go, catalog.go: defaults, comments, required filters),
      [BindResult] (bind.go, projection.go: the wire form of a bind result) and
      [CatalogTables] (catalog_table.go, catalog.go: from the declaration to the
      row, with its scan function and foreign keys).
    - What a writable catalog is. [CreateTable] (the checks of CREATE TABLE that
      the catalogs share, and the NOT NULL records), [WritableStore]
      (writable_storage.go: the three SQLite tables and the methods on them),
      [WritableRows] (what the row methods compute), [WritableBatch] (the batches
      written and emitted), [WritableCatalog] (writable_handlers.go,
      writable_constraints.go, writable_functions.go: DDL, migration, DML and
      scans), [WritableInvariant] (triples and NOT NULL across interleaved
      requests) and [WritableExamples] (concrete runs).
    - What a bind is. [Bind] (protocol.go, envelope.go, settings.go: the bind
      request on the wire, the guards of its envelope, the route, the resolved
      function, its arguments and what it may read of settings and secrets) and
      [Projection] (projection.go: the bind result after an accepted projection).
    - What workers share. [Sqlite] (statements that may fail, and transactions),
      [Storage] (function_storage.go: the calls of the
      FunctionStorage interface, the abstract store they promise, and the class
      [StorageContract] between a backend and its clients), [SqliteStorage]
      (function_storage_sqlite.go: the SQLite backend, an instance of the
      contract), [ExecutionStorage] (storage.go: the view of one stream,
      verified against the contract) and [FlushDrain] (table_buffering_rpc.go,
      state_serialize.go, rehydrate.go: the finalize stream of a buffered
      function, its cursor over the flush log and its passage between workers).
    - Shared files. This one (error results and their notations, byte strings,
      machine integers, tactics), [Bytes] (little and big endian, hex, base64),
      [Unicode] (strings and unicode/utf8), [Strings] (byte order, sorting,
      joining).

    The parts meet where the code's do: [Envelope] unwraps the attach value
    that [MemoryCatalog] keys its states by, [CatalogRoute] routes by and
    [SplitToken] binds to; [Overload] imports the registry of a catalog
    [CatalogRoute] serves; [FilterDelta] applies documents that [FilterV2]
    decodes and [FilterView] projects for [FilterHelpers]; [ExecutionStorage]
    calls any backend that meets the contract of [Storage], and so do the
    aggregates of [Aggregate], which look their functions up in the registry of
    [Overload], check their bind by [ArgConstraints] and open their attach by
    [Envelope]. [CatalogTables] decorates columns by [TableMetadata], checks and
    serves them by [SqlChecks], [ConstraintRecords] and [ServedColumns], binds by
    [Arguments] and [Overload], and publishes by [TableInfo] and [BindResult].
    [Bind] opens its request by [Envelope], routes by [CatalogRoute], resolves by
    [Overload] and checks by [Arguments] and [ArgConstraints]; [Projection] starts
    from the response it gives. [FlushDrain] reads and writes a backend through
    [ExecutionStorage]. The writable catalog and [SqliteStorage] keep their
    tables through the same statements and transactions of [Sqlite];
    [MemoryCatalog] and [WritableCatalog] check a CREATE by [CreateTable], whose
    records are those of [ConstraintRecords].

    ** State, errors and integers

    A Go function that returns an error is a function into [result]; one that
    changes state takes and returns it, and when the state outlives an error
    (the storage) the monad [Storage.M] returns both. Maps are [gmap], slices
    lists, byte strings [list byte], Go strings Rocq strings of bytes. Integers
    are [Z] with their width written out where it can be left: the expiry of a
    ticket, revisions, row IDs, counters, int64 keys. Doubles are
    [ArrowData.float64], integers of 53 bits times a power of two.

    ** What the theorems show

    - Safety of what a client holds: an attach, transaction, ticket or token
      opens only for the identity and the state it was made for, whatever else
      is presented is refused, and what reaches a handler was sealed by the
      worker.
    - Round trips: tickets, split plans, routed attach values, catalog streams.
    - Invariants by induction over requests: the memory catalog stays a tree with
      valid snapshots, its version counts the changes; the filters of a scan stay
      well-typed, bounded and faithful to their snapshot.
    - Typing and meaning of filters: what decodes is well-typed; the public view
      of an expression means what the expression means in three-valued logic;
      derived bounds and value sets never exclude a row the filters accept.
    - Refinement: replaying a compacted delta history rebuilds the state it was
      recorded from; the SQLite backend behaves as the abstract store, failing
      statements included, and exactly so when none fails.
    - Optimised against plain: overload resolution returns the first best
      candidate; the queue is first in, first out, exactly once.
    - Arguments: what the engine sends is what the function looks up, and what
      it reads of a checked constant satisfies the declared constraints.
    - Aggregates: however updates and merges of an execution are spread over
      processes, every group's state stands for exactly the rows it was given;
      a window call computes on the partition its init kept; a batch of window
      rows is its rows one by one; a streaming session answers as if alone.

    - SQL: a written expression parses to its tree and nothing else; the checks
      accept exactly their documented grammar; a string default is one literal.
    - Binds: what runs was resolved in the catalog of the attach it was opened
      under; an accepted projection keeps what the bind promised.
    - Streams: applying filters keeps exactly the rows that the snapshot's
      required predicates accept; a later turn is given the parameters of init; a
      stream served from its token answers like the one in memory; ticks and
      inputs alternate as the replies say; parent rows stay with their rows.
    - Writable tables: the row methods compute functions on tables, what an INSERT
      stored a scan emits, and NOT NULL holds however DDL and DML interleave, unless
      a definition changes under a statement that is writing.
    - Finalize streams: however turns move between workers, the batches sent are
      those the function flushed, each once, in order.
    - Tables: the check of constraint records, one after another, accepts exactly
      the sets of records that fit the table; the nullability served is the one
      they prove; publishing is idempotent, does not depend on the order of the
      declaration's maps, and an inlined bind result has the published schema.

    Lemmas named in PROJECT.json's findings show where the code does not do what
    it says; each is a concrete run.

    ** Bounds and fuel

    [Json.parse] runs on 2 * length + 1 steps of fuel, which [Json.parse_total]
    proves enough: more fuel never changes its answer. [FilterV2.parseV2Expr]
    runs on the code's own limit of 64 levels, so running out of fuel is the
    code's refusal. [SqlTokens.tokens] runs on the bytes of the text and the
    loops of [SqlParser] on the number of tokens, enough by [tokens_total] and
    [parseTokens_total]; the nesting limit of 64 is the code's own.
    Hex, base64 and UTF-8 decoding recurse on their input.
    Nothing else takes fuel.

    ** Not modelled, and why

    - Third-party code is a parameter: the AEAD of vgirpc, Arrow IPC and its
      compute kernels, gob and regexp with the states and patterns of user code, the expression evaluation of DuckDB. Each theorem that
      relies on it names what it relies on.
    - SQL statements are modelled by what they do to the tables they name; the
      driver, locks and files of SQLite by statements that may fail.
    - What a function does with its storage inside a turn, scalar exchanges, and
      the process and combine calls of buffering functions.
    - The RPC layer (vgi_service_gen.go, generated/, protocol_builders.go), server wiring (worker.go, hosting.go, landing.go), the examples and the
      commands: generated code, I/O and glue.
    - Column statistics, the typed reflection over argument structs, the assembly
      of the static catalog's rows and the Cloudflare backend: data carriers,
      reflection and network I/O.

    Mutexes are taken to make a method atomic, as they do; the interleaving of
    methods is explicit where a theorem speaks of several clients. *)

From stdpp Require Export base tactics list strings gmap fin_maps sorting.
From Stdlib Require Export ZArith Lia.
From Stdlib Require Strings.String.
From Stdlib Require Export Strings.Ascii Strings.Byte.

#[export] Set Default Proof Using "Type".

(** ** Error results

    A Go function that returns [(T, error)] is a function into [result E T];
    [E] keeps the part of the error the callers and the wire can tell apart. *)

Inductive result (E A : Type) : Type :=
| Ok (a : A)
| Err (e : E).
Arguments Ok {E A} a.
Arguments Err {E A} e.

Declare Scope vgi_scope.
Delimit Scope vgi_scope with vgi.
#[global] Open Scope vgi_scope.

Notation "'let?' x := m 'in' k" :=
  (match m with Ok x => k | Err e => Err e end)
  (at level 10, x pattern, m at level 100, k at level 200) : vgi_scope.
Notation "'check!' c 'else' e 'in' k" :=
  (if c then k else Err e)
  (at level 10, c at level 100, e at level 100, k at level 200) : vgi_scope.

Definition is_ok {E A} (r : result E A) : bool :=
  match r with Ok _ => true | Err _ => false end.

Lemma ok_inj {E A} (a b : A) : Ok (E := E) a = Ok b -> a = b.
Proof. congruence. Qed.

#[global] Instance result_eq_dec {E A} `{!EqDecision E, !EqDecision A} :
  EqDecision (result E A).
Proof. solve_decision. Defined.

(** [mapM] over [result], the loop that stops at the first error. *)
Fixpoint map_result {E A B} (f : A -> result E B) (l : list A) : result E (list B) :=
  match l with
  | [] => Ok []
  | x :: l => let? y := f x in let? ys := map_result f l in Ok (y :: ys)
  end.

Lemma map_result_ok {E A B} (f : A -> result E B) (g : A -> B) (l : list A) :
  (forall x, x ∈ l -> f x = Ok (g x)) -> map_result f l = Ok (map g l).
Proof.
  induction l as [|x l IH]; intros H; cbn; [done|].
  rewrite H by set_solver. rewrite IH; [done|]. intros y Hy. apply H. set_solver.
Qed.

Lemma map_result_inv {E A B} (f : A -> result E B) l k :
  map_result f l = Ok k -> Forall2 (fun x y => f x = Ok y) l k.
Proof.
  revert k. induction l as [|x l IH]; cbn; intros k E1; [apply ok_inj in E1 as <-; constructor|].
  destruct (f x) as [y|] eqn:Ey; [|done]. destruct (map_result f l) as [ys|]; [|done].
  apply ok_inj in E1 as <-. constructor; [done|auto].
Qed.

(** The same loop over [option]. *)
Fixpoint map_opt {A B} (f : A -> option B) (l : list A) : option (list B) :=
  match l with
  | [] => Some []
  | x :: l =>
      match f x, map_opt f l with
      | Some y, Some ys => Some (y :: ys)
      | _, _ => None
      end
  end.

(** ** Bytes and strings

    A Go [[]byte] is a [list byte]; a Go [string] is a [string] (both are byte
    sequences); [sb] is the conversion [[]byte(s)], [bstr] is [string(b)]. *)

Abbreviation bytes := (list byte).

Definition sb (s : string) : bytes := String.list_byte_of_string s.
Definition bstr (b : bytes) : string := String.string_of_list_byte b.

Lemma bstr_sb s : bstr (sb s) = s.
Proof. apply String.string_of_list_byte_of_string. Qed.
Lemma sb_bstr b : sb (bstr b) = b.
Proof. apply String.list_byte_of_string_of_list_byte. Qed.
Lemma sb_inj s t : sb s = sb t -> s = t.
Proof. intros H. by rewrite <- (bstr_sb s), <- (bstr_sb t), H. Qed.
Lemma bstr_inj a b : bstr a = bstr b -> a = b.
Proof. intros H. by rewrite <- (sb_bstr a), <- (sb_bstr b), H. Qed.

#[global] Instance byte_eq_dec : EqDecision byte.
Proof. exact Byte.byte_eq_dec. Defined.

#[global] Instance byte_countable : Countable byte.
Proof.
  refine (inj_countable' (fun b => Byte.to_N b)
            (fun n => default x00 (Byte.of_N n)) _).
  intros b. by rewrite Byte.of_to_N.
Defined.

(** [s[a:b]] on a slice whose bounds were checked. *)
Definition slice {A} (l : list A) (a b : nat) : list A := take (b - a) (drop a l).

(** ** Machine integers

    Go's [int64] and [uint64] are integers in range, with the wrap-around of
    the conversions and of the arithmetic written out. *)

Definition u64 (z : Z) : Z := (z mod 2 ^ 64)%Z.
Definition s64 (z : Z) : Z := ((z + 2 ^ 63) mod 2 ^ 64 - 2 ^ 63)%Z.
Definition int64_range (z : Z) : Prop := (- 2 ^ 63 <= z < 2 ^ 63)%Z.

#[global] Instance int64_range_dec z : Decision (int64_range z).
Proof. unfold int64_range. apply _. Defined.

Lemma s64_small z : int64_range z -> s64 z = z.
Proof. unfold int64_range, s64. intros H. rewrite Z.mod_small by lia. lia. Qed.

Lemma s64_range z : int64_range (s64 z).
Proof.
  unfold int64_range, s64.
  pose proof (Z.mod_pos_bound (z + 2 ^ 63) (2 ^ 64) ltac:(lia)). lia.
Qed.

Lemma s64_u64 z : s64 (u64 z) = s64 z.
Proof. unfold s64, u64. by rewrite Zplus_mod_idemp_l. Qed.

(** ** Tactics *)

(** Splits the conditions of a [result]-valued body one test at a time. *)
Ltac break_if :=
  match goal with
  | |- context [if ?c then _ else _] => let E := fresh "E" in destruct c eqn:E
  | H : context [if ?c then _ else _] |- _ => let E := fresh "E" in destruct c eqn:E
  end.
Ltac break_match :=
  match goal with
  | |- context [match ?c with _ => _ end] => let E := fresh "E" in destruct c eqn:E
  | H : context [match ?c with _ => _ end] |- _ => let E := fresh "E" in destruct c eqn:E
  end.
(** Follows a computation that returned, closing the branches that did not. *)
Ltac inv_ok :=
  repeat (match goal with
    | H : Ok _ = Ok _ |- _ => injection H as H; subst
    | H : Err _ = Err _ |- _ => injection H as H; subst
    | H : Ok _ = Err _ |- _ => discriminate H
    | H : Err _ = Ok _ |- _ => discriminate H
    | H : context [match ?c with _ => _ end] |- _ =>
        let E := fresh "E" in destruct c eqn:E; try discriminate H
    end; cbn in *).
(** Undoes one [let?], [check!] or pair of a computation that returned. *)
Ltac inv_let :=
  match goal with
  | H : Ok _ = Ok _ |- _ => injection H as H; subst
  | H : (if ?c then _ else Err _) = Ok _ |- _ =>
      let E := fresh "E" in destruct c eqn:E; [|discriminate H]
  | H : match ?m with Ok _ => _ | Err _ => Err _ end = Ok _ |- _ =>
      let E := fresh "E" in destruct m eqn:E; [|discriminate H]
  | H : match ?p with (_, _) => _ end = Ok _ |- _ => destruct p
  | u : () |- _ => destruct u
  end.
Ltac bool_hyps :=
  repeat match goal with
    | H : (_ && _)%bool = true |- _ => apply andb_true_iff in H; destruct H
    | H : (_ || _)%bool = false |- _ => apply orb_false_iff in H; destruct H
    | H : bool_decide _ = true |- _ => apply bool_decide_eq_true in H
    | H : bool_decide _ = false |- _ => apply bool_decide_eq_false in H
    | H : negb _ = true |- _ => apply negb_true_iff in H
    | H : negb _ = false |- _ => apply negb_false_iff in H
    | H : (_ <? _)%Z = true |- _ => apply Z.ltb_lt in H
    | H : (_ <? _)%Z = false |- _ => apply Z.ltb_ge in H
    | H : (_ <=? _)%Z = true |- _ => apply Z.leb_le in H
    | H : (_ <=? _)%Z = false |- _ => apply Z.leb_gt in H
    | H : (_ =? _)%Z = true |- _ => apply Z.eqb_eq in H
    | H : (_ =? _)%Z = false |- _ => apply Z.eqb_neq in H
    | H : (_ <? _)%nat = true |- _ => apply Nat.ltb_lt in H
    | H : (_ <? _)%nat = false |- _ => apply Nat.ltb_ge in H
    | H : (_ <=? _)%nat = true |- _ => apply Nat.leb_le in H
    | H : (_ <=? _)%nat = false |- _ => apply Nat.leb_gt in H
    | H : (_ =? _)%nat = true |- _ => apply Nat.eqb_eq in H
    | H : (_ =? _)%nat = false |- _ => apply Nat.eqb_neq in H
    end.

(** ** List facts the components share *)

Lemma take_app_exact {A} (l k : list A) n : n = length l -> take n (l ++ k) = l.
Proof. intros ->. by rewrite take_app_length. Qed.
Lemma drop_app_exact {A} (l k : list A) n : n = length l -> drop n (l ++ k) = k.
Proof. intros ->. by rewrite drop_app_length. Qed.

Lemma app_inj_len {A} (a b c d : list A) :
  length a = length c -> a ++ b = c ++ d -> a = c /\ b = d.
Proof. intros Hl H. by apply app_inj_1 in H. Qed.

Lemma list_filter_all {A} (P : A -> Prop) `{forall x, Decision (P x)} (l : list A) :
  (forall x, x ∈ l -> P x) -> filter P l = l.
Proof.
  induction l as [|x l IH]; intros Hl; [done|]. rewrite filter_cons_True by (apply Hl, list_elem_of_here).
  f_equal. apply IH. intros y Hy. apply Hl. by apply list_elem_of_further.
Qed.

Create HintDb vgi.
Create Rewrite HintDb vgi.
#[export] Hint Rewrite @length_app @length_take @length_drop @length_map
  @bstr_sb @sb_bstr : vgi.
#[export] Hint Resolve s64_range sb_inj bstr_inj : vgi.
