(* ===== verification/Bytes.v ===== *)
(** * Byte-level encodings of the Go standard library used by the worker

    [encoding/binary] (little and big endian), [encoding/hex],
    [encoding/base64] (RawURLEncoding), [bytes.HasPrefix], [bytes.IndexByte],
    each with the round trip or search lemma its clients rely on. *)

From S2P Require Import Prelude.

(** ** Bytes as numbers *)

Definition byte_Z (b : byte) : Z := Z.of_N (Byte.to_N b).
Definition Z_byte (z : Z) : byte := default x00 (Byte.of_N (Z.to_N (z mod 256))).

Lemma byte_Z_range b : (0 <= byte_Z b < 256)%Z.
Proof. unfold byte_Z. pose proof (Byte.to_N_bounded b). lia. Qed.

Lemma byte_Z_byte z : byte_Z (Z_byte z) = (z mod 256)%Z.
Proof.
  unfold byte_Z, Z_byte. pose proof (Z.mod_pos_bound z 256 ltac:(lia)) as Hb.
  destruct (Byte.of_N (Z.to_N (z mod 256))) as [b|] eqn:E; cbn.
  - apply Byte.to_of_N in E. lia.
  - apply Byte.of_N_None_iff in E. lia.
Qed.

Lemma byte_Z_inj a b : byte_Z a = byte_Z b -> a = b.
Proof.
  unfold byte_Z. intros H. apply N2Z.inj in H.
  pose proof (Byte.of_to_N a) as Ha. pose proof (Byte.of_to_N b). congruence.
Qed.

Lemma Z_byte_Z b : Z_byte (byte_Z b) = b.
Proof.
  apply byte_Z_inj. rewrite byte_Z_byte. apply Z.mod_small, byte_Z_range.
Qed.

(** Equality of a computed byte reduces to equality of numbers. *)
Lemma Z_byte_eq z b : (z mod 256)%Z = byte_Z b -> Z_byte z = b.
Proof. intros H. apply byte_Z_inj. by rewrite byte_Z_byte. Qed.

(** ** encoding/binary *)

Fixpoint le_enc (n : nat) (z : Z) : bytes :=
  match n with
  | O => []
  | S n => Z_byte z :: le_enc n (z / 256)
  end.

Fixpoint le_dec (l : bytes) : Z :=
  match l with
  | [] => 0
  | b :: l => byte_Z b + 256 * le_dec l
  end.

Definition be_enc (n : nat) (z : Z) : bytes := rev (le_enc n z).
Definition be_dec (l : bytes) : Z := le_dec (rev l).

Lemma length_le_enc n z : length (le_enc n z) = n.
Proof. revert z. induction n; intros z; cbn; auto. Qed.

Lemma length_be_enc n z : length (be_enc n z) = n.
Proof. unfold be_enc. rewrite length_rev. apply length_le_enc. Qed.

Lemma le_dec_enc n z : le_dec (le_enc n z) = (z mod 256 ^ Z.of_nat n)%Z.
Proof.
  revert z. induction n as [|n IH]; intros z; cbn [le_enc le_dec].
  - by rewrite Z.mod_1_r.
  - rewrite IH, byte_Z_byte, Nat2Z.inj_succ, Z.pow_succ_r by lia.
    rewrite Z.rem_mul_r; lia.
Qed.

Lemma le_dec_bound l : (0 <= le_dec l < 256 ^ Z.of_nat (length l))%Z.
Proof.
  induction l as [|b l IH]; cbn [le_dec length]; [lia|].
  rewrite Nat2Z.inj_succ, Z.pow_succ_r by lia.
  pose proof (byte_Z_range b). lia.
Qed.

Lemma le_enc_dec l : le_enc (length l) (le_dec l) = l.
Proof.
  induction l as [|b l IH]; cbn [le_enc le_dec length]; [done|].
  pose proof (byte_Z_range b). f_equal.
  - apply Z_byte_eq. rewrite (Z.mul_comm 256), Z.mod_add by lia.
    by apply Z.mod_small.
  - rewrite (Z.mul_comm 256), Z.div_add, Z.div_small by lia. exact IH.
Qed.

Lemma le_enc_dec_len l n : length l = n -> le_enc n (le_dec l) = l.
Proof. intros <-. apply le_enc_dec. Qed.

Lemma le_dec_enc_small n z :
  (0 <= z < 256 ^ Z.of_nat n)%Z -> le_dec (le_enc n z) = z.
Proof. intros H. rewrite le_dec_enc. by apply Z.mod_small. Qed.

Lemma le_enc_mod n z : le_enc n (z mod 256 ^ Z.of_nat n) = le_enc n z.
Proof. rewrite <- le_dec_enc. apply le_enc_dec_len, length_le_enc. Qed.

(** ** encoding/hex *)

Definition hex_digit (z : Z) : ascii :=
  ascii_of_nat (Z.to_nat (if (z <? 10)%Z then 48 + z else 87 + z)).

Fixpoint hex_encode (l : bytes) : string :=
  match l with
  | [] => EmptyString
  | b :: l => String (hex_digit (byte_Z b / 16))
                (String (hex_digit (byte_Z b mod 16)) (hex_encode l))
  end.

Definition is_hex_lower (c : ascii) : bool :=
  let n := nat_of_ascii c in
  ((48 <=? n) && (n <=? 57) || (97 <=? n) && (n <=? 102))%nat.

Fixpoint all_chars (f : ascii -> bool) (s : string) : bool :=
  match s with
  | EmptyString => true
  | String c s => f c && all_chars f s
  end.

Definition hex_digit_inv (c : ascii) : Z :=
  let n := Z.of_nat (nat_of_ascii c) in
  if (n <? 58)%Z then n - 48 else n - 87.

Lemma hex_digit_table :
  forallb (fun n => is_hex_lower (hex_digit (Z.of_nat n))
                    && (hex_digit_inv (hex_digit (Z.of_nat n)) =? Z.of_nat n)%Z)
          (seq 0 16) = true.
Proof. vm_compute. reflexivity. Qed.

Lemma hex_digit_spec z : (0 <= z < 16)%Z ->
  is_hex_lower (hex_digit z) = true /\ hex_digit_inv (hex_digit z) = z.
Proof.
  intros H. pose proof hex_digit_table as T. rewrite forallb_forall in T.
  specialize (T (Z.to_nat z)). rewrite Z2Nat.id in T by lia.
  apply andb_true_iff in T as [T1 T2]; [|apply in_seq; lia].
  split; [done|]. by apply Z.eqb_eq.
Qed.

Lemma hex_digit_invK z : (0 <= z < 16)%Z -> hex_digit_inv (hex_digit z) = z.
Proof. intros H. by apply hex_digit_spec. Qed.

Lemma hex_encode_chars l : all_chars is_hex_lower (hex_encode l) = true.
Proof.
  induction l as [|b l IH]; cbn; [done|]. pose proof (byte_Z_range b).
  destruct (hex_digit_spec (byte_Z b / 16)) as [-> _].
  { split; [apply Z.div_pos; lia | apply Z.div_lt_upper_bound; lia]. }
  destruct (hex_digit_spec (byte_Z b mod 16)) as [-> _].
  { apply Z.mod_pos_bound; lia. }
  by rewrite IH.
Qed.

Lemma hex_encode_length l : String.length (hex_encode l) = (2 * length l)%nat.
Proof. induction l as [|b l IH]; cbn; [done|]. rewrite IH. lia. Qed.

Lemma hex_encode_inj l k : hex_encode l = hex_encode k -> l = k.
Proof.
  revert k. induction l as [|a l IH]; intros [|b k] H; cbn in H; try done.
  pose proof (byte_Z_range a). pose proof (byte_Z_range b).
  injection H as E1 E2 E3. f_equal; [|by apply IH].
  apply (f_equal hex_digit_inv) in E1, E2.
  rewrite !hex_digit_invK in E1 by (Z.div_mod_to_equations; lia).
  rewrite !hex_digit_invK in E2 by (Z.div_mod_to_equations; lia).
  apply byte_Z_inj.
  rewrite (Z.div_mod (byte_Z a) 16), (Z.div_mod (byte_Z b) 16) by lia. lia.
Qed.

(** ** encoding/base64, RawURLEncoding *)

Definition b64_alphabet : bytes :=
  sb "ABCDEFGHIJKLMNOPQRSTUVWXYZabcdefghijklmnopqrstuvwxyz0123456789-_".

Definition b64_char (z : Z) : byte := default x00 (b64_alphabet !! Z.to_nat z).

Definition b64_index (c : byte) : option Z :=
  (fun p => Z.of_nat (fst p)) <$> list_find (fun x => x = c) b64_alphabet.

Fixpoint b64_encode_list (l : bytes) : bytes :=
  match l with
  | [] => []
  | [a] =>
      let a := byte_Z a in
      [b64_char (a / 4); b64_char (a mod 4 * 16)]
  | [a; b] =>
      let a := byte_Z a in let b := byte_Z b in
      [b64_char (a / 4); b64_char (a mod 4 * 16 + b / 16);
       b64_char (b mod 16 * 4)]
  | a :: b :: c :: l =>
      let a := byte_Z a in let b := byte_Z b in let c := byte_Z c in
      b64_char (a / 4) :: b64_char (a mod 4 * 16 + b / 16)
      :: b64_char (b mod 16 * 4 + c / 64) :: b64_char (c mod 64)
      :: b64_encode_list l
  end.

(** Go's decoder outside strict mode: the unused low bits of the last group
    are ignored, which is why its callers re-encode to test canonicity. *)
Fixpoint b64_decode_sextets (l : list Z) : option bytes :=
  match l with
  | [] => Some []
  | [_] => None
  | [a; b] => Some [Z_byte (a * 4 + b / 16)]
  | [a; b; c] => Some [Z_byte (a * 4 + b / 16); Z_byte (b mod 16 * 16 + c / 4)]
  | a :: b :: c :: d :: l =>
      r ← b64_decode_sextets l;
      Some (Z_byte (a * 4 + b / 16) :: Z_byte (b mod 16 * 16 + c / 4)
            :: Z_byte (c mod 4 * 64 + d) :: r)
  end.

(** Carriage returns and line feeds are skipped, as in [encoding/base64]. *)
Definition b64_decode_list (l : bytes) : option bytes :=
  s ← map_opt b64_index (filter (fun c => c ≠ x0a /\ c ≠ x0d) l);
  b64_decode_sextets s.

Definition b64_encode (l : bytes) : string := bstr (b64_encode_list l).
Definition b64_decode (s : string) : option bytes := b64_decode_list (sb s).

(** The text is the base64url of its decoding and of nothing else. *)

Definition is_b64_char (c : byte) : bool :=
  match b64_index c with Some _ => true | None => false end.

Lemma b64_table :
  forallb (fun n =>
    let c := b64_char (Z.of_nat n) in
    bool_decide (b64_index c = Some (Z.of_nat n))
    && bool_decide (c ≠ x0a /\ c ≠ x0d)) (seq 0 64) = true.
Proof. vm_compute. reflexivity. Qed.

Lemma b64_char_spec z : (0 <= z < 64)%Z ->
  b64_index (b64_char z) = Some z /\ b64_char z ≠ x0a /\ b64_char z ≠ x0d.
Proof.
  intros H. pose proof b64_table as T. rewrite forallb_forall in T.
  specialize (T (Z.to_nat z)). cbv zeta in T. rewrite Z2Nat.id in T by lia.
  apply andb_true_iff in T as [T1 T2]; [|apply in_seq; lia].
  bool_hyps. by destruct T2.
Qed.

(** The sextets the encoder emits, before they are mapped to characters. *)
Fixpoint b64_sextets (l : bytes) : list Z :=
  match l with
  | [] => []
  | [a] => [byte_Z a / 4; byte_Z a mod 4 * 16]%Z
  | [a; b] => [byte_Z a / 4; byte_Z a mod 4 * 16 + byte_Z b / 16;
               byte_Z b mod 16 * 4]%Z
  | a :: b :: c :: l =>
      (byte_Z a / 4)%Z :: (byte_Z a mod 4 * 16 + byte_Z b / 16)%Z
      :: (byte_Z b mod 16 * 4 + byte_Z c / 64)%Z :: (byte_Z c mod 64)%Z
      :: b64_sextets l
  end.

(** Induction by groups of three bytes. *)
Lemma bytes_ind3 (P : bytes -> Prop) :
  P [] -> (forall a, P [a]) -> (forall a b, P [a; b]) ->
  (forall a b c l, P l -> P (a :: b :: c :: l)) -> forall l, P l.
Proof.
  intros H0 H1 H2 H3 l.
  assert (P l /\ (forall a, P (a :: l)) /\ (forall a b, P (a :: b :: l))) as H.
  { induction l as [|x l (IH1 & IH2 & IH3)]; repeat split; auto. }
  apply H.
Qed.

Ltac byte_bounds :=
  repeat match goal with
  | x : byte |- _ =>
      lazymatch goal with
      | _ : (0 <= byte_Z x < 256)%Z |- _ => fail
      | _ => pose proof (byte_Z_range x)
      end
  end.

Lemma b64_encode_sextets l : b64_encode_list l = map b64_char (b64_sextets l).
Proof. induction l using bytes_ind3; cbn; try done. by rewrite IHl. Qed.

Lemma b64_sextets_range l : Forall (fun z => (0 <= z < 64)%Z) (b64_sextets l).
Proof.
  induction l using bytes_ind3; cbn; byte_bounds;
    repeat constructor; try done; Z.div_mod_to_equations; lia.
Qed.

Lemma b64_decode_sextets_ok l : b64_decode_sextets (b64_sextets l) = Some l.
Proof.
  induction l using bytes_ind3; cbn; byte_bounds; try done.
  - do 2 f_equal. apply Z_byte_eq. Z.div_mod_to_equations; lia.
  - repeat f_equal; apply Z_byte_eq; Z.div_mod_to_equations; lia.
  - rewrite IHl; cbn. repeat f_equal; apply Z_byte_eq; Z.div_mod_to_equations; lia.
Qed.

Lemma b64_index_map l : Forall (fun z => (0 <= z < 64)%Z) l ->
  map_opt b64_index (map b64_char l) = Some l
  /\ filter (fun c => c ≠ x0a /\ c ≠ x0d) (map b64_char l) = map b64_char l.
Proof.
  induction 1 as [|z l Hz _ [IH1 IH2]]; [done|]. cbn [map map_opt].
  destruct (b64_char_spec z Hz) as [-> Hne]. rewrite IH1. split; [done|].
  rewrite filter_cons_True by done. by f_equal.
Qed.

Lemma b64_decode_encode_list l : b64_decode_list (b64_encode_list l) = Some l.
Proof.
  unfold b64_decode_list. rewrite b64_encode_sextets.
  destruct (b64_index_map _ (b64_sextets_range l)) as [H1 H2].
  rewrite H2, H1. cbn. apply b64_decode_sextets_ok.
Qed.

Lemma b64_decode_encode l : b64_decode (b64_encode l) = Some l.
Proof. unfold b64_decode, b64_encode. rewrite sb_bstr. apply b64_decode_encode_list. Qed.

Lemma b64_encode_inj l k : b64_encode l = b64_encode k -> l = k.
Proof.
  intros H. apply (f_equal b64_decode) in H. rewrite !b64_decode_encode in H.
  by injection H.
Qed.

Lemma b64_encode_alphabet l : forallb is_b64_char (b64_encode_list l) = true.
Proof.
  rewrite b64_encode_sextets. apply forallb_forall. intros c Hc.
  apply in_map_iff in Hc as (z & <- & Hz). unfold is_b64_char.
  pose proof (b64_sextets_range l) as R. rewrite List.Forall_forall in R.
  by destruct (b64_char_spec z (R z Hz)) as [-> _].
Qed.

Lemma b64_encode_length4 l : length (b64_encode_list l) mod 4 <> 1.
Proof.
  induction l using bytes_ind3; cbn [b64_encode_list length]; try done.
  replace (S (S (S (S (length (b64_encode_list l))))))
    with (length (b64_encode_list l) + 1 * 4) by lia.
  by rewrite Nat.Div0.mod_add.
Qed.

Lemma b64_encode_nil l : b64_encode_list l = [] -> l = [].
Proof. by destruct l as [|a [|b [|c l]]]. Qed.

(** ** bytes.HasPrefix, bytes.IndexByte *)

Fixpoint has_prefix (s p : bytes) : bool :=
  match p, s with
  | [], _ => true
  | b :: p, a :: s => bool_decide (a = b) && has_prefix s p
  | _ :: _, [] => false
  end.

Lemma has_prefix_spec s p : has_prefix s p = true <-> exists t, s = p ++ t.
Proof.
  revert s. induction p as [|b p IH]; intros [|a s]; cbn.
  - by split; eauto.
  - by split; eauto.
  - split; [done|]. by intros [t ?].
  - rewrite andb_true_iff, bool_decide_eq_true, IH. split.
    + intros [-> [t ->]]. by exists t.
    + intros [t H]. injection H as -> ->. eauto.
Qed.

Lemma has_prefix_app p t : has_prefix (p ++ t) p = true.
Proof. apply has_prefix_spec. eauto. Qed.

(** [bytes.IndexByte]: the position of the first [b], or nothing (-1). *)
Fixpoint index_byte (l : bytes) (b : byte) : option nat :=
  match l with
  | [] => None
  | a :: l => if bool_decide (a = b) then Some 0 else S <$> index_byte l b
  end.

Lemma index_byte_app l b r : b ∉ l -> index_byte (l ++ b :: r) b = Some (length l).
Proof.
  induction l as [|a l IH]; intros H; cbn.
  - by rewrite bool_decide_true.
  - rewrite bool_decide_false by set_solver. rewrite IH by set_solver. done.
Qed.

Lemma index_byte_Some l b i : index_byte l b = Some i ->
  l = take i l ++ b :: drop (S i) l /\ b ∉ take i l.
Proof.
  revert i. induction l as [|a l IH]; intros i H; cbn in H; [done|].
  case_bool_decide as E.
  - injection H as <-. subst. cbn. rewrite drop_0. by split; [|set_solver].
  - destruct (index_byte l b) as [j|] eqn:Ej; cbn in H; [|done].
    injection H as <-. destruct (IH j eq_refl) as [H1 H2]. cbn.
    split; [by rewrite <- H1|]. set_solver.
Qed.

(** Fields separated by a NUL that the first one does not contain. *)
Lemma nul_split (d1 d2 p1 p2 : bytes) (c : byte) :
  c ∉ d1 -> c ∉ d2 -> d1 ++ c :: p1 = d2 ++ c :: p2 -> d1 = d2 /\ p1 = p2.
Proof.
  intros H1 H2 H. assert (length d1 = length d2) as Hl.
  { pose proof (index_byte_app d1 c p1 H1) as E1.
    rewrite H, (index_byte_app d2 c p2 H2) in E1. by injection E1. }
  apply app_inj_len in H as [-> H]; [|done]. by injection H.
Qed.

(** A number as its bits, one byte each: how a countable value is written. *)
Fixpoint bits (p : positive) : bytes :=
  match p with xH => [] | xO p => x00 :: bits p | xI p => x01 :: bits p end.
Fixpoint unbits (b : bytes) : positive :=
  match b with [] => xH | x00 :: b => xO (unbits b) | _ :: b => xI (unbits b) end.
Lemma unbits_bits p : unbits (bits p) = p.
Proof. induction p as [p IH|p IH|]; cbn; by rewrite ?IH. Qed.
