(* ===== verification/Base64.v ===== *)
(** * Base64: encoding/base64, StdEncoding

    The sextets are those of the URL encoding ([Bytes]); the alphabet has + and
    / for - and _, and the text is padded to groups of four. *)

From S2P Require Import Prelude Bytes.

Definition std_byte (b : byte) : byte := match b with x2d => x2b | x5f => x2f | b => b end.
Definition std_char (z : Z) : byte := std_byte (b64_char z).
Definition std_index (c : byte) : option Z :=
  match c with x2b => b64_index x2d | x2f => b64_index x5f | x2d | x5f => None | c => b64_index c end.

Definition padding (n : nat) : bytes := match n mod 4 with 2 => [x3d; x3d] | 3 => [x3d] | _ => [] end.
Definition StdEncodeToString (l : bytes) : string :=
  let s := map std_char (b64_sextets l) in bstr (s ++ padding (length s)).

(** The characters of a text and the padding behind them. *)
Fixpoint unpadded (l : bytes) : bytes * bytes :=
  match l with
  | [] => ([], [])
  | c :: l => if bool_decide (c = x3d) then ([], c :: l) else let '(a, p) := unpadded l in (c :: a, p)
  end.
(** Outside strict mode the unused low bits of the last group are ignored. *)
Definition StdDecodeString (s : string) : option bytes :=
  let '(a, p) := unpadded (filter (fun c => c ≠ x0a /\ c ≠ x0d) (sb s)) in
  if bool_decide (length a mod 4 <> 1) && bool_decide (p = padding (length a))
  then z ← map_opt std_index a; b64_decode_sextets z
  else None.

Lemma std_table : forallb (fun n => let c := std_char (Z.of_nat n) in
  bool_decide (std_index c = Some (Z.of_nat n)) && bool_decide (c <> x0a /\ c <> x0d /\ c <> x3d)) (seq 0 64) = true.
Proof. vm_compute. reflexivity. Qed.
Lemma std_char_spec z : (0 <= z < 64)%Z -> std_index (std_char z) = Some z /\ std_char z <> x0a /\ std_char z <> x0d /\ std_char z <> x3d.
Proof.
  intros H. pose proof std_table as T. rewrite forallb_forall in T. specialize (T (Z.to_nat z)). cbv zeta in T.
  rewrite Z2Nat.id in T by lia. apply andb_true_iff in T as [T1 T2]; [|apply in_seq; lia]. bool_hyps. by destruct_and!.
Qed.

Lemma sextets_length l : length (b64_sextets l) mod 4 <> 1.
Proof. pose proof (b64_encode_length4 l) as Hl. by rewrite b64_encode_sextets, length_map in Hl. Qed.

Lemma unpadded_chars s p : Forall (fun z => (0 <= z < 64)%Z) s -> (forall c, c ∈ p -> c = x3d) ->
  unpadded (map std_char s ++ p) = (map std_char s, p).
Proof.
  intros Hs Hp. induction Hs as [|z s Hz _ IH]; cbn [map app unpadded].
  - destruct p as [|c p]; [done|]. cbn. by rewrite bool_decide_true by (apply Hp; left).
  - destruct (std_char_spec z Hz) as (_ & _ & _ & Hne). by rewrite bool_decide_false, IH by done.
Qed.

Lemma std_map s : Forall (fun z => (0 <= z < 64)%Z) s -> map_opt std_index (map std_char s) = Some s.
Proof. induction 1 as [|z s Hz _ IH]; [done|]. cbn [map map_opt]. destruct (std_char_spec z Hz) as [-> _]. by rewrite IH. Qed.

Lemma StdDecode_Encode l : StdDecodeString (StdEncodeToString l) = Some l.
Proof.
  unfold StdDecodeString, StdEncodeToString. rewrite sb_bstr. pose proof (b64_sextets_range l) as Hr.
  rewrite list_filter_all.
  - assert (forall c n, c ∈ padding n -> c = x3d) as Hp by (intros c n; unfold padding; repeat case_match; set_solver).
    rewrite unpadded_chars; [|done|intros c; apply Hp]. rewrite length_map. rewrite !bool_decide_true by (done || apply sextets_length).
    cbn [andb]. rewrite std_map by done. cbn. apply b64_decode_sextets_ok.
  - intros c [Hc|Hc]%elem_of_app.
    + apply list_elem_of_fmap in Hc as (z & -> & Hz). rewrite Forall_forall in Hr. destruct (std_char_spec z (Hr z Hz)) as (_ & ? & ? & _). done.
    + unfold padding in Hc. assert (c = x3d) as -> by (repeat case_match; set_solver). done.
Qed.
Lemma StdEncode_inj a b : StdEncodeToString a = StdEncodeToString b -> a = b.
Proof. intros E. apply (f_equal StdDecodeString) in E. rewrite !StdDecode_Encode in E. by injection E. Qed.
