(* ===== verification/Sha256.v ===== *)
(** * SHA-256 ([crypto/sha256]), on 32-bit words kept in range by reduction

    The standard library's digest, written out so that fingerprints and
    normalised keys evaluate. Only its output length is used by proofs. *)

From S2P Require Import Prelude Bytes.

Module Sha256.
Section words.
Local Open Scope Z_scope.

Definition w32 (z : Z) : Z := z mod 2 ^ 32.
Definition rotr (x : Z) (n : Z) : Z :=
  w32 (Z.lor (Z.shiftr x n) (Z.shiftl x (32 - n))).
Definition ch (x y z : Z) : Z := Z.lxor (Z.land x y) (Z.land (Z.lxor x (2 ^ 32 - 1)) z).
Definition maj (x y z : Z) : Z :=
  Z.lxor (Z.land x y) (Z.lxor (Z.land x z) (Z.land y z)).
Definition bsig0 x := Z.lxor (rotr x 2) (Z.lxor (rotr x 13) (rotr x 22)).
Definition bsig1 x := Z.lxor (rotr x 6) (Z.lxor (rotr x 11) (rotr x 25)).
Definition ssig0 x := Z.lxor (rotr x 7) (Z.lxor (rotr x 18) (Z.shiftr x 3)).
Definition ssig1 x := Z.lxor (rotr x 17) (Z.lxor (rotr x 19) (Z.shiftr x 10)).

(** The constants: the first 32 bits of the fractional parts of the cube roots
    (round constants) and square roots (initial state) of the first primes. *)
Definition primes64 : list Z :=
  map Z.of_nat (filter (fun n => forallb (fun d => negb (n mod d =? 0)%nat) (seq 2 (n - 2)) = true)
                  (seq 2 310)).

Fixpoint cube_root (bits : nat) (acc n : Z) : Z :=
  match bits with
  | O => acc
  | S bits =>
      let try := acc + 2 ^ Z.of_nat bits in
      cube_root bits (if try * try * try <=? n then try else acc) n
  end.

Definition k256 : list Z :=
  Eval vm_compute in map (fun p => w32 (cube_root 36 0 (p * 2 ^ 96))) primes64.

Record hash := Hash { ha : Z; hb : Z; hc : Z; hd : Z; he : Z; hf : Z; hg : Z; hh : Z }.

Definition h256 : hash :=
  Eval vm_compute in
  match map (fun p => w32 (Z.sqrt (p * 2 ^ 64))) (take 8 primes64) with
  | [a; b; c; d; e; f; g; h] => Hash a b c d e f g h
  | _ => Hash 0 0 0 0 0 0 0 0
  end.

Definition round (h : hash) (k w : Z) : hash :=
  let t1 := w32 (hh h + bsig1 (he h) + ch (he h) (hf h) (hg h) + k + w) in
  let t2 := w32 (bsig0 (ha h) + maj (ha h) (hb h) (hc h)) in
  Hash (w32 (t1 + t2)) (ha h) (hb h) (hc h) (w32 (hd h + t1)) (he h) (hf h) (hg h).

(** The message schedule is carried as a window of the last 16 words. *)
Fixpoint rounds (ks : list Z) (win : list Z) (h : hash) : hash :=
  match ks, win with
  | k :: ks, w0 :: rest =>
      let w16 := w32 (ssig1 (nth 13 rest 0) + nth 8 rest 0 + ssig0 (nth 0 rest 0) + w0) in
      rounds ks (rest ++ [w16]) (round h k w0)
  | _, _ => h
  end.

Definition add_hash (a b : hash) : hash :=
  Hash (w32 (ha a + ha b)) (w32 (hb a + hb b)) (w32 (hc a + hc b)) (w32 (hd a + hd b))
       (w32 (he a + he b)) (w32 (hf a + hf b)) (w32 (hg a + hg b)) (w32 (hh a + hh b)).

Fixpoint words (l : bytes) : list Z :=
  match l with
  | a :: b :: c :: d :: l => be_dec [a; b; c; d] :: words l
  | _ => []
  end.

Definition pad (l : bytes) : bytes :=
  let n := length l in
  l ++ Z_byte 128 :: repeat x00 ((119 - n mod 64) mod 64)%nat
    ++ be_enc 8 (8 * Z.of_nat n).

Fixpoint blocks (fuel : nat) (l : list Z) (h : hash) : hash :=
  match fuel, l with
  | S fuel, _ :: _ => blocks fuel (drop 16 l) (add_hash h (rounds k256 (take 16 l) h))
  | _, _ => h
  end.

Definition digest (h : hash) : bytes :=
  be_enc 4 (ha h) ++ be_enc 4 (hb h) ++ be_enc 4 (hc h) ++ be_enc 4 (hd h)
  ++ be_enc 4 (he h) ++ be_enc 4 (hf h) ++ be_enc 4 (hg h) ++ be_enc 4 (hh h).

End words.

(** [sha256.Sum256]; the number of words bounds the number of blocks. *)
Definition Sum256 (l : bytes) : bytes :=
  let ws := words (pad l) in digest (blocks (length ws) ws h256).

Lemma length_Sum256 l : length (Sum256 l) = 32.
Proof.
  unfold Sum256, digest. rewrite !length_app, !length_be_enc. done.
Qed.

Example sum256_abc : hex_encode (Sum256 (sb "abc"))
  = "ba7816bf8f01cfea414140de5dae2223b00361a396177a9cb410ff61f20015ad".
Proof. vm_compute. reflexivity. Qed.

Example sum256_empty : hex_encode (Sum256 [])
  = "e3b0c44298fc1c149afbf4c8996fb92427ae41e4649b934ca495991b7852b855".
Proof. vm_compute. reflexivity. Qed.

(** A message of more than one block. *)
Example sum256_two_blocks :
  hex_encode (Sum256 (sb "abcdbcdecdefdefgefghfghighijhijkijkljklmklmnlmnomnopnopq"))
  = "248d6a61d20638b8e5c026930c3e6039a33ce45964ff2167f6ecedd419db06c1".
Proof. vm_compute. reflexivity. Qed.

End Sha256.
#[export] Hint Rewrite Sha256.length_Sum256 : vgi.
