(* ===== verification/Unicode.v ===== *)
(** * Text functions of the Go standard library ([strings], [unicode/utf8])

    [utf8.Valid] and the ASCII case mappings are written out. The full Unicode
    case tables are not: [ToLower] and [ToUpper] are the operations of a class
    whose laws are what the worker's code relies on, with an instance for
    ASCII text. [EqualFold] is defined for the comparisons the worker makes,
    whose second argument is an ASCII constant. *)

From S2P Require Import Prelude Bytes.

(** ** ASCII case mapping *)

Definition lower_byte (b : byte) : byte :=
  if ((65 <=? byte_Z b) && (byte_Z b <=? 90))%Z then Z_byte (byte_Z b + 32) else b.
Definition upper_byte (b : byte) : byte :=
  if ((97 <=? byte_Z b) && (byte_Z b <=? 122))%Z then Z_byte (byte_Z b - 32) else b.

Definition ascii_lower (s : string) : string := bstr (map lower_byte (sb s)).
Definition ascii_upper (s : string) : string := bstr (map upper_byte (sb s)).
Definition is_ascii (s : string) : bool := forallb (fun b => byte_Z b <? 128)%Z (sb s).

Lemma lower_byte_idemp b : lower_byte (lower_byte b) = lower_byte b.
Proof. by destruct b. Qed.

Lemma ascii_lower_idemp s : ascii_lower (ascii_lower s) = ascii_lower s.
Proof.
  unfold ascii_lower. rewrite sb_bstr, map_map. f_equal.
  apply map_ext, lower_byte_idemp.
Qed.

Lemma lower_byte_nul b : lower_byte b = x00 <-> b = x00.
Proof. by destruct b. Qed.

(** ** [strings.ToLower], [strings.ToUpper] *)

(** [ToLower_nul]: lower-casing neither adds nor removes a NUL. *)
Class Unicode := {
  ToLower : string -> string;
  ToUpper : string -> string;
  ToLower_ascii : forall s, is_ascii s = true -> ToLower s = ascii_lower s;
  ToUpper_ascii : forall s, is_ascii s = true -> ToUpper s = ascii_upper s;
  ToLower_idemp : forall s, ToLower (ToLower s) = ToLower s;
  ToLower_nul : forall s, x00 ∈ sb (ToLower s) <-> x00 ∈ sb s
}.

Module AsciiText.
Lemma lower_nul s : x00 ∈ sb (ascii_lower s) <-> x00 ∈ sb s.
Proof.
  unfold ascii_lower. rewrite sb_bstr. split; intros H.
  - apply list_elem_of_fmap in H as (b & E & Hb). symmetry in E.
    by apply lower_byte_nul in E as ->.
  - apply list_elem_of_fmap. by exists x00.
Qed.

#[export] Instance ascii_text : Unicode :=
  {| ToLower := ascii_lower; ToUpper := ascii_upper;
     ToLower_ascii := fun s _ => eq_refl; ToUpper_ascii := fun s _ => eq_refl;
     ToLower_idemp := ascii_lower_idemp; ToLower_nul := lower_nul |}.
End AsciiText.

(** ** [strings.EqualFold] against an ASCII constant

    The runes that fold to an ASCII letter are its two cases and, for k and
    s, U+212A (Kelvin) and U+017F (long s). *)
Fixpoint fold_ascii (l : bytes) : bytes :=
  match l with
  | xe2 :: ((x84 :: xaa :: l3) as l1) => x6b :: fold_ascii l3
  | xc5 :: ((xbf :: l2) as l1) => x73 :: fold_ascii l2
  | b :: l => lower_byte b :: fold_ascii l
  | [] => []
  end.

Definition EqualFold (s constant : string) : bool :=
  bool_decide (fold_ascii (sb s) = fold_ascii (sb constant)).

Lemma EqualFold_refl s : EqualFold s s = true.
Proof. by apply bool_decide_eq_true. Qed.

(** ** [utf8.Valid] *)

Definition in_range (lo hi : Z) (b : byte) : bool := ((lo <=? byte_Z b) && (byte_Z b <=? hi))%Z.

Fixpoint utf8_valid (l : bytes) : bool :=
  match l with
  | [] => true
  | a :: l1 =>
      if in_range 0 127 a then utf8_valid l1 else
      match l1 with
      | [] => false
      | b :: l2 =>
          if in_range 0xC2 0xDF a then in_range 0x80 0xBF b && utf8_valid l2 else
          match l2 with
          | [] => false
          | c :: l3 =>
              if in_range 0xE0 0xEF a then
                let lo := if (byte_Z a =? 0xE0)%Z then 0xA0%Z else 0x80%Z in
                let hi := if (byte_Z a =? 0xED)%Z then 0x9F%Z else 0xBF%Z in
                in_range lo hi b && in_range 0x80 0xBF c && utf8_valid l3
              else
              match l3 with
              | [] => false
              | d :: l4 =>
                  let lo := if (byte_Z a =? 0xF0)%Z then 0x90%Z else 0x80%Z in
                  let hi := if (byte_Z a =? 0xF4)%Z then 0x8F%Z else 0xBF%Z in
                  in_range 0xF0 0xF4 a && in_range lo hi b && in_range 0x80 0xBF c
                  && in_range 0x80 0xBF d && utf8_valid l4
              end
          end
      end
  end.

Lemma hex_valid s : all_chars is_hex_lower s = true -> utf8_valid (sb s) = true.
Proof.
  induction s as [|c s IH]; cbn [all_chars]; [done|]. intros H.
  apply andb_true_iff in H as [Hc Hs].
  change (sb (String c s)) with (byte_of_ascii c :: sb s). cbn [utf8_valid].
  replace (in_range 0 127 (byte_of_ascii c)) with true; [by apply IH|].
  destruct c as [[] [] [] [] [] [] [] []]; vm_compute in Hc |- *; congruence.
Qed.

Example utf8_kelvin : utf8_valid [xe2; x84; xaa] = true.
Proof. reflexivity. Qed.
Example utf8_surrogate : utf8_valid [xed; xa0; x80] = false.
Proof. reflexivity. Qed.
