(* ===== verification/Strings.v ===== *)
(** * Strings: the order of Go strings, joining, sorting and de-duplication

    What [strings.Join], [strings.Compare], [slices.Sort] and
    [slices.Compact] give on strings, and the facts the components use. *)

From S2P Require Import Prelude.
From S2P Require Import Bytes.

(** ** strings.Join *)

Fixpoint Join (parts : list string) (sep : string) : string :=
  match parts with
  | [] => ""
  | [p] => p
  | p :: ps => p +:+ sep +:+ Join ps sep
  end.

Definition NUL : string := bstr [x00].

Lemma sb_app s t : sb (s +:+ t) = sb s ++ sb t.
Proof. induction s as [|c s IH]; [done|]. change (byte_of_ascii c :: sb (s +:+ t) = byte_of_ascii c :: sb s ++ sb t). by rewrite IH. Qed.

Lemma sb_NUL : sb NUL = [x00].
Proof. reflexivity. Qed.

Definition nul_free (s : string) : Prop := x00 ∉ sb s.
#[global] Instance nul_free_dec s : Decision (nul_free s).
Proof. unfold nul_free. apply _. Defined.

Lemma Join_cons p ps : ps <> [] -> Join (p :: ps) NUL = p +:+ NUL +:+ Join ps NUL.
Proof. by destruct ps. Qed.

Lemma sb_Join_cons p ps :
  ps <> [] -> sb (Join (p :: ps) NUL) = sb p ++ x00 :: sb (Join ps NUL).
Proof. intros H. by rewrite Join_cons, !sb_app, sb_NUL. Qed.

(** Joining NUL-free components with NUL loses nothing, but for the empty
    list and the list of one empty component. *)
Lemma Join_inj ps qs :
  Forall nul_free ps -> Forall nul_free qs -> ps <> [] -> qs <> [] ->
  Join ps NUL = Join qs NUL -> ps = qs.
Proof.
  revert qs. induction ps as [|p ps IH]; intros [|q qs] Hp Hq Np Nq E; try done.
  inversion_clear Hp as [|?? Hp1 Hp2]. inversion_clear Hq as [|?? Hq1 Hq2].
  apply (f_equal sb) in E.
  destruct ps as [|p' ps], qs as [|q' qs].
  - cbn in E. by apply sb_inj in E as ->.
  - rewrite (sb_Join_cons q) in E by done. cbn [Join] in E. exfalso. apply Hp1.
    rewrite E. set_solver.
  - rewrite (sb_Join_cons p) in E by done. cbn [Join] in E. exfalso. apply Hq1.
    rewrite <- E. set_solver.
  - rewrite (sb_Join_cons p), (sb_Join_cons q) in E by done. apply nul_split in E as [E1 E2]; [|done..].
    apply sb_inj in E1 as ->, E2. f_equal. by apply IH.
Qed.

(** ** The byte-wise order *)

Fixpoint bytes_leb (a b : bytes) : bool :=
  match a, b with
  | [], _ => true
  | _ :: _, [] => false
  | x :: a, y :: b =>
      (byte_Z x <? byte_Z y)%Z || (bool_decide (x = y) && bytes_leb a b)
  end.

Definition str_le (s t : string) : Prop := bytes_leb (sb s) (sb t) = true.
#[global] Instance str_le_dec : RelDecision str_le.
Proof. intros s t. unfold str_le. apply _. Defined.

Lemma bytes_leb_total a b : bytes_leb a b = true \/ bytes_leb b a = true.
Proof.
  revert b. induction a as [|x a IH]; intros [|y b]; cbn; auto.
  destruct (Z.lt_trichotomy (byte_Z x) (byte_Z y)) as [H|[H|H]].
  - left. by rewrite (proj2 (Z.ltb_lt _ _) H).
  - apply byte_Z_inj in H as ->. rewrite !(bool_decide_true (y = y)) by done. cbn.
    destruct (IH b) as [-> | ->]; rewrite orb_true_r; auto.
  - right. by rewrite (proj2 (Z.ltb_lt _ _) H).
Qed.

Lemma bytes_leb_trans a b c :
  bytes_leb a b = true -> bytes_leb b c = true -> bytes_leb a c = true.
Proof.
  revert b c. induction a as [|x a IH]; intros [|y b] [|z c]; cbn; try done.
  rewrite !orb_true_iff, !andb_true_iff, !Z.ltb_lt, !bool_decide_eq_true.
  intros [H1|[-> H1]] [H2|[-> H2]]; [left; lia..|right; eauto].
Qed.

Lemma bytes_leb_antisym a b : bytes_leb a b = true -> bytes_leb b a = true -> a = b.
Proof.
  revert b. induction a as [|x a IH]; intros [|y b]; cbn; try done.
  rewrite !orb_true_iff, !andb_true_iff, !Z.ltb_lt, !bool_decide_eq_true.
  intros [H1|[-> H1]] [H2|[E H2]]; try lia; subst; try lia. f_equal. auto.
Qed.

#[global] Instance str_le_total : Total str_le.
Proof. intros s t. apply bytes_leb_total. Qed.
#[global] Instance str_le_trans : Transitive str_le.
Proof. intros s t u. apply bytes_leb_trans. Qed.
#[global] Instance str_le_antisym : AntiSymm (=) str_le.
Proof. intros s t H1 H2. apply sb_inj. by apply bytes_leb_antisym. Qed.

(** [slices.Sort] on strings: any sort gives the same list, since equal
    strings cannot be told apart. *)
Definition Sort (l : list string) : list string := merge_sort str_le l.

Lemma elem_of_Sort x l : x ∈ Sort l <-> x ∈ l.
Proof. unfold Sort. by rewrite merge_sort_Permutation. Qed.
Lemma Sort_Permutation l : Sort l ≡ₚ l.
Proof. apply merge_sort_Permutation. Qed.
Lemma Sort_sorted l : StronglySorted str_le (Sort l).
Proof. apply StronglySorted_merge_sort; apply _. Qed.
Lemma Sort_ext l k : l ≡ₚ k -> Sort l = Sort k.
Proof.
  intros E. apply (StronglySorted_unique str_le); [apply Sort_sorted..|].
  by rewrite !Sort_Permutation.
Qed.

(** [slices.Compact]: of a run of equal elements, the first. *)
Fixpoint Compact {A} `{EqDecision A} (l : list A) : list A :=
  match l with
  | x :: (y :: _) as l' => if decide (x = y) then Compact l' else x :: Compact l'
  | _ => l
  end.

Lemma elem_of_Compact {A} `{EqDecision A} (x : A) l : x ∈ Compact l <-> x ∈ l.
Proof.
  induction l as [|a [|b l] IH]; [done..|]. cbn [Compact].
  case_decide as E; [subst|]; rewrite ?IH, ?elem_of_cons in *; set_solver.
Qed.

(** [sortedUnique] of the source. *)
Definition sortedUnique (l : list string) : list string := Compact (Sort l).

Lemma elem_of_sortedUnique x l : x ∈ sortedUnique l <-> x ∈ l.
Proof. unfold sortedUnique. by rewrite elem_of_Compact, elem_of_Sort. Qed.

Lemma Compact_sorted l :
  StronglySorted str_le l -> StronglySorted str_le (Compact l) /\ NoDup (Compact l).
Proof.
  induction l as [|a [|b l] IH]; intros Hs.
  - split; constructor.
  - split; [done|apply NoDup_singleton].
  - inversion_clear Hs as [|?? Hs1 Hs2]. destruct (IH Hs1) as [I1 I2].
    cbn [Compact]. case_decide as E; [done|].
    assert (Forall (str_le a) (Compact (b :: l))) as Hf.
    { apply Forall_forall. intros x Hx. apply (proj1 (elem_of_Compact x (b :: l))) in Hx.
      by apply (proj1 (Forall_forall _ _) Hs2). }
    split; [by constructor|]. apply NoDup_cons. split; [|done].
    intros Ha. apply (proj1 (elem_of_Compact a (b :: l))) in Ha. apply E. apply (anti_symm str_le).
    + apply (proj1 (Forall_forall _ _) Hs2). set_solver.
    + inversion_clear Hs1 as [|?? _ Hb]. apply elem_of_cons in Ha as [->|Ha].
      * destruct (total str_le b b); done.
      * by apply (proj1 (Forall_forall _ _) Hb).
Qed.

Lemma sortedUnique_NoDup l : NoDup (sortedUnique l).
Proof. apply Compact_sorted, Sort_sorted. Qed.
Lemma sortedUnique_sorted l : StronglySorted str_le (sortedUnique l).
Proof. apply Compact_sorted, Sort_sorted. Qed.

(** Strings in canonical form are determined by their elements. *)
Lemma canonical_ext l k :
  StronglySorted str_le l -> StronglySorted str_le k -> NoDup l -> NoDup k ->
  (forall x, x ∈ l <-> x ∈ k) -> l = k.
Proof.
  intros Hl Hk Nl Nk E. apply (StronglySorted_unique str_le); [done..|].
  by apply NoDup_Permutation.
Qed.

Lemma sortedUnique_ext l k : (forall x, x ∈ l <-> x ∈ k) -> sortedUnique l = sortedUnique k.
Proof.
  intros E. apply canonical_ext;
    auto using sortedUnique_sorted, sortedUnique_NoDup.
  intros x. by rewrite !elem_of_sortedUnique.
Qed.

(** [slices.Contains] *)
Definition Contains (l : list string) (x : string) : bool := bool_decide (x ∈ l).

(** ** Stable sorting by a number

    [slices.SortStableFunc] with a difference of two numbers as comparison. *)
Section stable.
Context {A : Type} (key : A -> nat).

Fixpoint stable_insert (x : A) (l : list A) : list A :=
  match l with
  | [] => [x]
  | y :: l' => if (key x <=? key y)%nat then x :: l else y :: stable_insert x l'
  end.
Definition SortStable (l : list A) : list A := foldr stable_insert [] l.

Definition key_le (x y : A) : Prop := key x <= key y.

Lemma stable_insert_Permutation x l : stable_insert x l ≡ₚ x :: l.
Proof.
  induction l as [|y l IH]; cbn; [done|]. destruct (_ <=? _)%nat; [done|].
  rewrite IH. constructor.
Qed.

Lemma SortStable_Permutation l : SortStable l ≡ₚ l.
Proof. induction l as [|x l IH]; cbn; [done|]. by rewrite stable_insert_Permutation, IH. Qed.

Lemma stable_insert_sorted x l :
  StronglySorted key_le l -> StronglySorted key_le (stable_insert x l).
Proof.
  induction 1 as [|y l Hl IH Hy]; cbn; [repeat constructor|].
  destruct (key x <=? key y)%nat eqn:E; bool_hyps.
  - constructor; [by constructor|]. constructor; [done|].
    eapply Forall_impl; [exact Hy|]. unfold key_le. intros; lia.
  - constructor; [done|]. rewrite stable_insert_Permutation.
    constructor; [unfold key_le; lia|done].
Qed.

Lemma SortStable_sorted l : StronglySorted key_le (SortStable l).
Proof. induction l; cbn; [constructor|]. by apply stable_insert_sorted. Qed.

(** Elements of one key keep their order. *)
Lemma SortStable_stable n l :
  filter (fun x => key x = n) (SortStable l) = filter (fun x => key x = n) l.
Proof.
  induction l as [|x l IH]; [done|]. rewrite filter_cons, <- IH. clear IH.
  change (SortStable (x :: l)) with (stable_insert x (SortStable l)).
  pose proof (SortStable_sorted l) as Hs.
  induction Hs as [|y k Hk IH Hy]; cbn [stable_insert]; [by rewrite filter_cons|].
  destruct (key x <=? key y)%nat eqn:E; bool_hyps; [by rewrite (filter_cons _ x)|].
  rewrite !(filter_cons _ y), IH.
  destruct (decide (key x = n)), (decide (key y = n)); (lia || done).
Qed.
End stable.

Lemma StronglySorted_lookup {A} (R : A -> A -> Prop) l i j x y :
  StronglySorted R l -> i < j -> l !! i = Some x -> l !! j = Some y -> R x y.
Proof.
  intros Hs. revert i j. induction Hs as [|a l Hl IH Ha]; intros i j Hij Hi Hj; [done|].
  destruct j as [|j]; [lia|]. cbn in Hj. destruct i as [|i]; cbn in Hi.
  - injection Hi as ->. apply (proj1 (Forall_forall _ _) Ha). apply list_elem_of_lookup. eauto.
  - apply (IH i j); [lia|done..].
Qed.
