(* ===== verification/ArrowTypes.v ===== *)
(** * ArrowTypes: Arrow data types as the worker inspects them
    (vgi/scalar_numeric.go, vgi/schema_utils.go, vgi/typed_args.go,
    vgi/overload.go)

    The types the code tells apart are constructors; the others (unions,
    maps, extensions, ...) are one constructor with their fingerprint. A list
    keeps its element's type and nullability, a struct the name, type and
    nullability of its fields, a dictionary its index and value types: what
    [arrow.TypeEqual] compares, so that it is equality of types. *)

From S2P Require Import Prelude.

Inductive TimeUnit := Second | Millisecond | Microsecond | Nanosecond.

Inductive DataType :=
| NULL | BOOL
| INT8 | INT16 | INT32 | INT64 | UINT8 | UINT16 | UINT32 | UINT64
| FLOAT16 | FLOAT32 | FLOAT64
| STRING | LARGE_STRING | STRING_VIEW | BINARY | LARGE_BINARY
| DATE32 | DATE64 | TIME32 (u : TimeUnit) | TIME64 (u : TimeUnit)
| TIMESTAMP (u : TimeUnit) (tz : string) | DURATION (u : TimeUnit) | MONTH_DAY_NANO
| DECIMAL32 (p s : Z) | DECIMAL64 (p s : Z) | DECIMAL128 (p s : Z) | DECIMAL256 (p s : Z)
| LIST (elem : DataType) (elemNullable : bool)
| STRUCT (fields : list (string * (DataType * bool)))
| DICTIONARY (index value : DataType) (ordered : bool)
| OTHER (fingerprint : string).

#[global] Instance TimeUnit_dec : EqDecision TimeUnit.
Proof. solve_decision. Defined.
#[global] Instance DataType_dec : EqDecision DataType.
Proof.
  unfold EqDecision, RelDecision. fix go 1. intros x y.
  destruct x as [| | | | | | | | | | | | | | | | | | | |u|u|u tz|u| |p s|p s|p s|p s|e n|fs|i v o|f],
    y as [| | | | | | | | | | | | | | | | | | | |u'|u'|u' tz'|u'| |p' s'|p' s'|p' s'|p' s'|e' n'|fs'|i' v' o'|f'];
    try (left; reflexivity); try (right; discriminate);
    try (destruct (decide (u = u')); [subst|right; congruence]);
    try (destruct (decide (tz = tz')); [subst|right; congruence]);
    try (destruct (decide (p = p')); [subst|right; congruence]);
    try (destruct (decide (s = s')); [subst|right; congruence]);
    try (left; reflexivity).
  - destruct (go e e'); [|right; congruence]. destruct (decide (n = n')); [left|right]; congruence.
  - destruct (@list_eq_dec _ (@prod_eq_dec _ _ _ (@prod_eq_dec _ go _ _)) fs fs');
      [left|right]; congruence.
  - destruct (go i i'); [|right; congruence]. destruct (go v v'); [|right; congruence].
    destruct (decide (o = o')); [left|right]; congruence.
  - destruct (decide (f = f')); [left|right]; congruence.
Defined.

Definition TypeEqual (a b : DataType) : bool := bool_decide (a = b).

(** ** Families *)

Definition IsIntegerType (dt : DataType) : bool :=
  match dt with
  | INT8 | INT16 | INT32 | INT64 | UINT8 | UINT16 | UINT32 | UINT64 => true
  | _ => false
  end.

Definition IsFloatingType (dt : DataType) : bool :=
  match dt with FLOAT16 | FLOAT32 | FLOAT64 => true | _ => false end.

Definition IsDecimalType (dt : DataType) : bool :=
  match dt with
  | DECIMAL32 _ _ | DECIMAL64 _ _ | DECIMAL128 _ _ | DECIMAL256 _ _ => true
  | _ => false
  end.

Definition isStringFamily (dt : DataType) : bool :=
  match dt with STRING | LARGE_STRING => true | _ => false end.

Definition isBinaryFamily (dt : DataType) : bool :=
  match dt with BINARY | LARGE_BINARY => true | _ => false end.

Definition typesInSameFamily (a b : DataType) : bool :=
  if IsIntegerType a && IsIntegerType b then true else
  if (IsFloatingType a || IsDecimalType a) && (IsFloatingType b || IsDecimalType b) then true else
  if isStringFamily a && isStringFamily b then true else
  if isBinaryFamily a && isBinaryFamily b then true else false.

(** ** Type names *)

Definition typeOverrides (t : string) : option DataType :=
  snd <$> List.find (fun kv : string * DataType => bool_decide (fst kv = t))
    [("duration_s", DURATION Second); ("duration_ms", DURATION Millisecond);
     ("duration_us", DURATION Microsecond); ("duration_ns", DURATION Nanosecond);
     ("duration", DURATION Nanosecond);
     ("timestamp_s", TIMESTAMP Second ""); ("timestamp_ms", TIMESTAMP Millisecond "");
     ("timestamp_us", TIMESTAMP Microsecond ""); ("timestamp_ns", TIMESTAMP Nanosecond "");
     ("timestamp_s_utc", TIMESTAMP Second "UTC"); ("timestamp_ms_utc", TIMESTAMP Millisecond "UTC");
     ("timestamp_us_utc", TIMESTAMP Microsecond "UTC");
     ("timestamp_ns_utc", TIMESTAMP Nanosecond "UTC");
     ("date32", DATE32); ("date64", DATE64);
     ("time32_s", TIME32 Second); ("time32_ms", TIME32 Millisecond);
     ("time64_us", TIME64 Microsecond); ("time64_ns", TIME64 Nanosecond)].

(** The type a name means, and whether the name is known. *)
Definition resolveArgType (t : string) : DataType * bool :=
  match typeOverrides t with
  | Some dt => (dt, true)
  | None =>
      match List.find (fun kv : list string * DataType => bool_decide (t ∈ fst kv))
        [(["int8"], INT8); (["int16"], INT16); (["int32"], INT32); (["int64"], INT64);
         (["uint8"], UINT8); (["uint16"], UINT16); (["uint32"], UINT32); (["uint64"], UINT64);
         (["float"; "float32"], FLOAT32); (["double"; "float64"], FLOAT64);
         (["varchar"; "string"], STRING); (["bool"; "boolean"], BOOL);
         (["blob"; "binary"], BINARY); (["any"; ""; "struct"], NULL); (["table"], NULL)] with
      | Some (_, dt) => (dt, true)
      | None => (STRING, false)
      end
  end.

Definition argTypeToArrowType (t : string) : DataType := fst (resolveArgType t).
