(* ===== verification/ArrowData.v ===== *)
(** * ArrowData: schemas, arrays and record batches as the filters read them

    An array is its type and its cells; a dictionary array has the cells its
    indices select, so that a cell is null when its index or its dictionary
    entry is. A scalar is a cell with its type. [float64] is exact: a dyadic
    number, an infinity or a NaN, with the rounding of [float64(v)] on an
    integer written out. *)

From S2P Require Import Prelude ArrowTypes.

(** ** Numbers *)

(** [Finite m e] is m * 2^e. *)
Inductive float64 := Finite (m e : Z) | Inf (negative : bool) | NaN.

#[global] Instance float64_dec : EqDecision float64.
Proof. solve_decision. Defined.

(** The integer nearest to [z] with 53 significant bits, ties to even. *)
Definition round53 (z : Z) : Z :=
  let shift := Z.max 0 (Z.log2 (Z.abs z) + 1 - 53) in
  let unit := (2 ^ shift)%Z in
  let q := (Z.abs z / unit)%Z in
  let r := (Z.abs z mod unit)%Z in
  let up := (unit <? 2 * r)%Z || ((unit =? 2 * r)%Z && Z.odd q) in
  (Z.sgn z * (unit * (q + if up then 1 else 0)))%Z.

Definition float64_of_int (z : Z) : float64 := Finite (round53 z) 0.

Lemma round53_small z : (Z.abs z <= 2 ^ 53)%Z -> round53 z = z.
Proof.
  intros H. unfold round53. destruct (Z.eq_dec (Z.abs z) (2 ^ 53)) as [E|E].
  - assert (z = 2 ^ 53 \/ z = - 2 ^ 53)%Z as [-> | ->] by lia; reflexivity.
  - assert (Z.max 0 (Z.log2 (Z.abs z) + 1 - 53) = 0)%Z as ->.
    { destruct (Z.eq_dec (Z.abs z) 0) as [->|]; [done|].
      assert (Z.log2 (Z.abs z) < 53)%Z by (apply Z.log2_lt_pow2; lia). lia. }
    rewrite Z.pow_0_r, Z.div_1_r, Z.mod_1_r. cbn [Z.mul Z.ltb Z.eqb Z.compare orb andb].
    rewrite Z.add_0_r, Z.mul_1_l. rewrite Z.mul_comm. apply Z.abs_sgn.
Qed.

(** [a < b] on floats; false when one of them is a NaN. *)
Definition float_lt (a b : float64) : bool :=
  match a, b with
  | NaN, _ | _, NaN => false
  | Inf true, Inf true => false
  | Inf true, _ => true
  | _, Inf false => match a with Inf false => false | _ => true end
  | Finite m e, Finite n f =>
      let d := Z.min e f in (m * 2 ^ (e - d) <? n * 2 ^ (f - d))%Z
  | _, _ => false
  end.
Definition float_eq (a b : float64) : bool :=
  match a, b with
  | Inf s, Inf t => Bool.eqb s t
  | Finite m e, Finite n f =>
      let d := Z.min e f in (m * 2 ^ (e - d) =? n * 2 ^ (f - d))%Z
  | _, _ => false
  end.
Definition float_le (a b : float64) : bool := float_lt a b || float_eq a b.

Lemma float_lt_int a b : float_lt (Finite a 0) (Finite b 0) = (a <? b)%Z.
Proof. cbn. by rewrite !Z.mul_1_r. Qed.

Example float64_loses : float64_of_int (2 ^ 53 + 1) = float64_of_int (2 ^ 53).
Proof. reflexivity. Qed.

(** ** Cells, arrays, scalars *)

(** [COther] is a value of another kind, by its text. *)
Inductive cell :=
| CNull
| CBool (b : bool)
| CInt (z : Z)
| CFloat (f : float64)
| CStr (s : string)
| CBin (b : bytes)
| CList (l : list cell)
| COther (text : string).

#[global] Instance cell_dec : EqDecision cell.
Proof.
  unfold EqDecision, RelDecision. fix go 1. intros x y.
  destruct x as [|b|z|f|s|b|l|t], y as [|b'|z'|f'|s'|b'|l'|t'];
    try (left; reflexivity); try (right; discriminate).
  - destruct (decide (b = b')); [left|right]; congruence.
  - destruct (decide (z = z')); [left|right]; congruence.
  - destruct (decide (f = f')); [left|right]; congruence.
  - destruct (decide (s = s')); [left|right]; congruence.
  - destruct (decide (b = b')); [left|right]; congruence.
  - destruct (@list_eq_dec _ go l l'); [left|right]; congruence.
  - destruct (decide (t = t')); [left|right]; congruence.
Defined.

Record Array := { ArrType : DataType; Cells : list cell }.
Record Scalar := { ScalarType : DataType; ScalarCell : cell }.

#[global] Instance Array_dec : EqDecision Array.
Proof. solve_decision. Defined.
#[global] Instance Scalar_dec : EqDecision Scalar.
Proof. solve_decision. Defined.

Definition is_null (c : cell) : bool := match c with CNull => true | _ => false end.
(** [arr.IsNull(i)], for an index within the array. *)
Definition IsNull (arr : Array) (i : nat) : bool :=
  match Cells arr !! i with Some c => is_null c | None => false end.
Definition Len (arr : Array) : Z := Z.of_nat (length (Cells arr)).
(** [scalar.GetScalar], for an index within the array. *)
Definition GetScalar (arr : Array) (c : cell) : Scalar :=
  {| ScalarType := ArrType arr; ScalarCell := c |}.

(** ** Schemas and record batches *)

Record Field := {
  FieldName : string;
  FieldType : DataType;
  Nullable : bool;
  Metadata : list (string * string)
}.

#[global] Instance Field_dec : EqDecision Field.
Proof. solve_decision. Defined.

Definition isWKBField (f : Field) : bool :=
  existsb (fun kv => bool_decide (kv = ("ARROW:extension:name", "geoarrow.wkb"))) (Metadata f).

(** The columns of a record batch are its fields with their arrays. *)
Record RecordBatch := {
  SchemaMetadata : list (string * string);
  Columns : list (Field * Array);
  NumRows : Z
}.

#[global] Instance RecordBatch_dec : EqDecision RecordBatch.
Proof. solve_decision. Defined.

Definition NumCols (b : RecordBatch) : Z := Z.of_nat (length (Columns b)).

(** The value of a metadata key, "" when it has none. *)
Definition metadata_get (md : list (string * string)) (key : string) : string :=
  match List.find (fun kv => bool_decide (fst kv = key)) md with
  | Some (_, v) => v
  | None => ""
  end.

(** The columns of a name, as [Schema.FieldIndices] selects them. *)
Definition columns_named (b : RecordBatch) (name : string) : list (Field * Array) :=
  filter (fun fa : Field * Array => FieldName (fst fa) = name) (Columns b).

(** A non-negative Go index into a list. *)
Definition at_index {A} (l : list A) (i : Z) : option A := l !! Z.to_nat i.

(** [flattenJoinKeyBatches]: of several columns of one name, the last. *)
Definition flattenJoinKeyBatches (batches : list RecordBatch) : gmap string Array :=
  foldl (fun out b =>
           foldl (fun out fa => <[FieldName (fst fa) := snd fa]> out) out (Columns b))
    ∅ batches.
