(* ===== verification/Strconv.v ===== *)
(** * Strconv: numbers and booleans as text (strconv)

    What the worker uses of Go's strconv package: integers in base ten and the
    spellings of a boolean. The other bases, and underscores, are not used. *)

From S2P Require Import Prelude Bytes.

Definition is_digit (b : byte) : bool := ((48 <=? byte_Z b) && (byte_Z b <=? 57))%Z.
Definition push_digit (n : Z) (b : byte) : Z := (n * 10 + (byte_Z b - 48))%Z.

(** A non-empty string of digits; leading zeros are allowed. *)
Definition digits (l : bytes) : option Z :=
  match l with
  | [] => None
  | _ => if forallb is_digit l then Some (foldl push_digit 0 l)%Z else None
  end.

(** [strconv.ParseUint(s, 10, 64)]; an error is a syntax or a range error. *)
Definition ParseUint (s : string) : option Z :=
  match digits (sb s) with
  | Some z => if (z <? 2 ^ 64)%Z then Some z else None
  | None => None
  end.

(** [strconv.ParseInt(s, 10, 64)], which is [strconv.Atoi] on 64 bits. *)
Definition ParseInt (s : string) : option Z :=
  let signed :=
    match sb s with
    | b :: l =>
        if bool_decide (b = x2d) then Z.opp <$> digits l
        else if bool_decide (b = x2b) then digits l else digits (b :: l)
    | [] => None
    end in
  match signed with
  | Some z => if bool_decide (int64_range z) then Some z else None
  | None => None
  end.
Definition Atoi : string -> option Z := ParseInt.

Definition ParseBool (s : string) : option bool :=
  if bool_decide (s ∈ ["1"; "t"; "T"; "TRUE"; "true"; "True"]) then Some true
  else if bool_decide (s ∈ ["0"; "f"; "F"; "FALSE"; "false"; "False"]) then Some false
  else None.

(** The digits of a number below 10^20, the longest 64 bits can hold. *)
Fixpoint udigits (fuel : nat) (z : Z) (acc : bytes) : bytes :=
  match fuel with
  | O => acc
  | S fuel =>
      let acc := Z_byte (48 + z mod 10) :: acc in
      if (z <? 10)%Z then acc else udigits fuel (z / 10) acc
  end.

(** [strconv.FormatInt(z, 10)] and [strconv.Itoa]. *)
Definition Itoa (z : Z) : string :=
  bstr (if (z <? 0)%Z then x2d :: udigits 20 (- z) [] else udigits 20 z []).

Lemma digit_byte d : (0 <= d < 10)%Z ->
  is_digit (Z_byte (48 + d)) = true /\ (byte_Z (Z_byte (48 + d)) - 48 = d)%Z.
Proof.
  intros H. unfold is_digit. rewrite byte_Z_byte, Z.mod_small by lia.
  split; [|lia]. apply andb_true_iff. split; apply Z.leb_le; lia.
Qed.

Lemma udigits_spec fuel z acc : (0 <= z < 10 ^ Z.of_nat fuel)%Z ->
  foldl push_digit 0%Z (udigits fuel z acc) = foldl push_digit z acc.
Proof.
  revert z acc. induction fuel as [|fuel IH]; intros z acc H.
  { change (0 <= z < 1)%Z in H. by assert (z = 0%Z) as -> by lia. }
  rewrite Nat2Z.inj_succ, Z.pow_succ_r in H by lia. cbn [udigits].
  pose proof (Z.mod_pos_bound z 10 ltac:(lia)).
  destruct (z <? 10)%Z eqn:E; bool_hyps.
  - cbn [foldl]. f_equal. unfold push_digit. rewrite (proj2 (digit_byte (z mod 10) ltac:(lia))).
    rewrite Z.mod_small by lia. lia.
  - rewrite IH by (split; [apply Z.div_pos; lia|apply Z.div_lt_upper_bound; lia]).
    cbn [foldl]. f_equal. unfold push_digit. rewrite (proj2 (digit_byte (z mod 10) ltac:(lia))).
    pose proof (Z.div_mod z 10). lia.
Qed.

Lemma udigits_digits fuel z acc : (0 <= z)%Z -> forallb is_digit acc = true ->
  forallb is_digit (udigits fuel z acc) = true.
Proof.
  revert z acc. induction fuel as [|fuel IH]; intros z acc H Ha; cbn [udigits]; [done|].
  pose proof (Z.mod_pos_bound z 10 ltac:(lia)).
  assert (forallb is_digit (Z_byte (48 + z mod 10) :: acc) = true) as Hb.
  { cbn [forallb]. by rewrite (proj1 (digit_byte (z mod 10) ltac:(lia))). }
  destruct (z <? 10)%Z; [done|]. apply IH; [apply Z.div_pos; lia|done].
Qed.

Lemma udigits_nonempty fuel z acc : fuel <> 0%nat -> udigits fuel z acc <> [].
Proof.
  destruct fuel as [|fuel]; [done|]. intros _. cbn [udigits].
  assert (forall fuel z acc, acc <> [] -> udigits fuel z acc <> []) as Hne.
  { clear. induction fuel as [|fuel IH]; intros z acc H; cbn [udigits]; [done|].
    destruct (z <? 10)%Z; [done|]. by apply IH. }
  destruct (z <? 10)%Z; [done|]. by apply Hne.
Qed.

Lemma digits_udigits z : (0 <= z < 10 ^ 20)%Z -> digits (udigits 20 z []) = Some z.
Proof.
  intros H. unfold digits. pose proof (udigits_nonempty 20 z [] ltac:(lia)) as Hne.
  pose proof (udigits_spec 20 z [] H) as Hs. pose proof (udigits_digits 20 z [] ltac:(lia) eq_refl) as Hd.
  destruct (udigits 20 z []) as [|b l]; [done|]. rewrite Hd, Hs. done.
Qed.

Lemma digits_head z : (0 <= z)%Z -> exists b l, udigits 20 z [] = b :: l /\ is_digit b = true.
Proof.
  intros H. pose proof (udigits_nonempty 20 z [] ltac:(lia)) as Hne.
  pose proof (udigits_digits 20 z [] H eq_refl) as Hd.
  destruct (udigits 20 z []) as [|b l]; [done|]. exists b, l. split; [done|].
  cbn [forallb] in Hd. apply andb_true_iff in Hd. tauto.
Qed.

Lemma ParseInt_Itoa z : int64_range z -> ParseInt (Itoa z) = Some z.
Proof.
  unfold int64_range. intros H. unfold ParseInt, Itoa. rewrite sb_bstr.
  destruct (z <? 0)%Z eqn:E; bool_hyps.
  - rewrite (bool_decide_true (x2d = x2d)) by done. rewrite digits_udigits by lia. cbn [fmap option_fmap option_map].
    rewrite Z.opp_involutive. by rewrite bool_decide_true by (unfold int64_range; lia).
  - destruct (digits_head z ltac:(lia)) as (b & l & Eb & Hb).
    pose proof (digits_udigits z ltac:(lia)) as Hd. rewrite Eb in *.
    rewrite (bool_decide_false (b = x2d)) by (intros ->; done).
    rewrite (bool_decide_false (b = x2b)) by (intros ->; done).
    rewrite Hd. by rewrite bool_decide_true by (unfold int64_range; lia).
Qed.

Lemma Itoa_inj a b : int64_range a -> int64_range b -> Itoa a = Itoa b -> a = b.
Proof.
  intros Ha Hb E. apply ParseInt_Itoa in Ha, Hb. rewrite E in Ha. congruence.
Qed.

Lemma ParseInt_range s z : ParseInt s = Some z -> int64_range z.
Proof. unfold ParseInt. intros H. repeat case_match; simplify_eq; by bool_hyps. Qed.
#[export] Hint Resolve ParseInt_range : vgi.
