(* ===== verification/Arguments.v ===== *)
(** * Arguments: the arguments of a call (vgi/arguments.go, and the argument
    declarations of vgi/function.go and vgi/schema_utils.go)

    A call sends its arguments as one Arrow IPC stream: a struct column "args"
    whose fields are named "positional_N" and "named_X", or plain columns. Here
    they are parsed, looked up by position or name, and moved from the engine's
    numbering, which counts only the constants, to the declared positions. *)

From S2P Require Import Prelude Bytes Strings Strconv ArrowTypes ArrowData.

(** ** Declarations *)

(** A Go value of type [any]; [AOther] is a value of another type, by its text. *)
Inductive any :=
| AInt (z : Z) | AInt64 (z : Z) | AInt32 (z : Z) | AUint64 (z : Z)
| AFloat32 (f : float64) | AFloat64 (f : float64)
| AString (s : string) | ABool (b : bool) | ABytes (b : bytes) | AOther (text : string).
#[global] Instance any_dec : EqDecision any.
Proof. solve_decision. Defined.

(** The declaration of an argument, its documentation left out;
    [ArrowDataType] and the bounds are nil when absent. *)
Record ArgSpec := {
  ArgName : string;
  Position : Z;
  ArrowType : string;
  IsConst : bool;
  IsVarargs : bool;
  HasDefault : bool;
  DefaultValue : string;
  ArrowDataType : option DataType;
  TypeBound : list (DataType -> bool);
  Choices : list any;
  Ge : option float64;
  Le : option float64;
  Gt : option float64;
  Lt : option float64;
  Pattern : string
}.

(** ** Faults

    Besides returning an error, this code can panic. *)

Inductive fault := Failed (message : string) | Panicked (what : string).

(** ** Columns *)

(** A column of the arguments batch; a struct array comes with its children. The
    entries of a dictionary are not null. *)
Inductive column := PlainColumn (a : Array) | StructColumn (a : Array) (children : list (string * Array)).
Definition column_array (c : column) : Array :=
  match c with PlainColumn a => a | StructColumn a _ => a end.

(** [Schema] and [Batch] are nil when the payload had none; a nil array of
    [Positional] is a position nothing was sent for. *)
Record Arguments := {
  Positional : list (option Array);
  Named : gmap string Array;
  Schema : option (list Field);
  Batch : option (list column)
}.

(** ** Parsing *)

Section parse.
(** The Arrow IPC reader: the schema of a stream, and its first batch if the
    reader finds one. *)
Context (read_ipc : bytes -> result string (list Field * option (list column))).

Definition positional_prefix : bytes := sb "positional_".
Definition named_prefix : bytes := sb "named_".

(** What is collected from the struct's fields so far. *)
Definition collected := (list (Z * Array) * gmap string Array)%type.

Definition add_field (c : collected) (f : string * Array) : result fault collected :=
  let '(positionals, named) := c in
  let '(fieldName, fieldArr) := f in
  let name := sb fieldName in
  if (11 <? length name)%nat && has_prefix name positional_prefix then
    match Atoi (bstr (drop 11 name)) with
    | Some idx => Ok (positionals ++ [(idx, fieldArr)], <[fieldName := fieldArr]> named)
    | None => Err (Failed "invalid positional argument index")
    end
  else if (6 <? length name)%nat && has_prefix name named_prefix then
    Ok (positionals, <[fieldName := fieldArr]> (<[bstr (drop 6 name) := fieldArr]> named))
  else Ok (positionals, <[fieldName := fieldArr]> named).

Fixpoint add_fields (c : collected) (fs : list (string * Array)) : result fault collected :=
  match fs with
  | [] => Ok c
  | f :: fs => let? c := add_field c f in add_fields c fs
  end.

(** [make] of a slice of interfaces panics beyond 2^48 bytes. *)
Definition make_limit : Z := 2 ^ 44.

Fixpoint place (slots : list (option Array)) (ps : list (Z * Array)) : result fault (list (option Array)) :=
  match ps with
  | [] => Ok slots
  | (idx, arr) :: ps =>
      check! (0 <=? idx)%Z && (idx <? Z.of_nat (length slots))%Z
      else Panicked "index out of range" in
      place (<[Z.to_nat idx := Some arr]> slots) ps
  end.
Definition fillPositional (ps : list (Z * Array)) : result fault (list (option Array)) :=
  match ps with
  | [] => Ok []
  | _ =>
      let maxIdx := foldl (fun m p => if (m <? fst p)%Z then fst p else m) 0%Z ps in
      check! (maxIdx + 1 <=? make_limit)%Z else Panicked "makeslice: len out of range" in
      place (replicate (Z.to_nat (maxIdx + 1)) None) ps
  end.

(** The struct column the engine wraps the arguments in. *)
Definition args_struct (schema : list Field) (batch : list column) : option (list (string * Array)) :=
  match schema, batch with
  | [f], [StructColumn _ children] => if bool_decide (FieldName f = "args") then Some children else None
  | _, _ => None
  end.

Definition ParseArguments (data : bytes) : result fault Arguments :=
  match data with
  | [] => Ok {| Positional := []; Named := ∅; Schema := None; Batch := None |}
  | _ =>
      match read_ipc data with
      | Err e => Err (Failed ("reading arguments IPC: " +:+ e))
      | Ok (schema, None) => Ok {| Positional := []; Named := ∅; Schema := Some schema; Batch := None |}
      | Ok (schema, Some batch) =>
          match args_struct schema batch with
          | Some children =>
              let? c := add_fields ([], ∅) children in
              let? slots := fillPositional (fst c) in
              Ok {| Positional := slots; Named := snd c; Schema := Some schema; Batch := Some batch |}
          | None =>
              let cols := zip (map FieldName schema) (map column_array batch) in
              Ok {| Positional := map (fun c => Some (snd c)) cols;
                    Named := foldl (fun m c => <[fst c := snd c]> m) ∅ cols;
                    Schema := Some schema; Batch := Some batch |}
          end
      end
  end.
End parse.

Definition NumArgs (a : Arguments) : Z := Z.of_nat (length (Positional a)).

(** ** Lookup *)

(** A key of type [interface{}]; [KOther] is of neither type. *)
Inductive key := KInt (i : Z) | KString (s : string) | KOther.

Definition getColumn (a : Arguments) (k : key) : result fault (option Array) :=
  match k with
  | KInt i =>
      check! (0 <=? i)%Z && (i <? NumArgs a)%Z else Failed "argument index out of range" in
      Ok (default None (Positional a !! Z.to_nat i))
  | KString s =>
      match Named a !! s with
      | Some c => Ok (Some c)
      | None => Err (Failed "argument not found")
      end
  | KOther => Err (Failed "argument key must be int or string")
  end.

(** The steps the GetScalar methods share: find the column, refuse a null, then
    read the first value of the types the method takes. A nil column, and a
    column without a row, panic. *)
Definition get_scalar {A} (convert : DataType -> option (cell -> option A)) (refusal : string)
    (a : Arguments) (k : key) : result fault A :=
  let? col := getColumn a k in
  match col with
  | None => Err (Panicked "nil pointer dereference")
  | Some arr =>
      if IsNull arr 0 then Err (Failed "argument is null") else
      match convert (ArrType arr) with
      | None => Err (Failed refusal)
      | Some value =>
          match Cells arr !! 0%nat with
          | Some c => match value c with Some v => Ok v | None => Err (Panicked "malformed array") end
          | None => Err (Panicked "index out of range")
          end
      end
  end.

Definition int_cell (c : cell) : option Z := match c with CInt z => Some z | _ => None end.
Definition float_cell (c : cell) : option float64 := match c with CFloat f => Some f | _ => None end.
Definition string_cell (c : cell) : option string := match c with CStr s => Some s | _ => None end.
Definition bool_cell (c : cell) : option bool := match c with CBool b => Some b | _ => None end.
Definition bytes_cell (c : cell) : option bytes := match c with CBin b => Some b | _ => None end.

(** [int64(v)] of an integer column's value: an unsigned value may wrap. *)
Definition to_int64 (dt : DataType) : option (cell -> option Z) :=
  match dt with
  | INT64 | INT32 | INT16 | INT8 => Some int_cell
  | UINT64 | UINT32 | UINT16 | UINT8 => Some (fun c => s64 <$> int_cell c)
  | _ => None
  end.
Definition GetScalarInt64 := get_scalar to_int64 "cannot convert to int64".

Definition to_float64 (dt : DataType) : option (cell -> option float64) :=
  match dt with
  | FLOAT64 | FLOAT32 => Some float_cell
  | INT64 | INT32 => Some (fun c => float64_of_int <$> int_cell c)
  | _ => None
  end.
Definition GetScalarFloat64 := get_scalar to_float64 "cannot convert to float64".

(** A dictionary of other values fails its type assertion. *)
Definition to_string (dt : DataType) : option (cell -> option string) :=
  match dt with
  | STRING => Some string_cell
  | DICTIONARY _ STRING _ => Some string_cell
  | DICTIONARY _ _ _ => Some (fun _ => None)
  | _ => None
  end.
Definition GetScalarString := get_scalar to_string "cannot convert to string".

Definition to_bool (dt : DataType) : option (cell -> option bool) :=
  match dt with BOOL => Some bool_cell | _ => None end.
Definition GetScalarBool := get_scalar to_bool "cannot convert to bool".

Definition to_bytes (dt : DataType) : option (cell -> option bytes) :=
  match dt with BINARY => Some bytes_cell | _ => None end.
Definition GetScalarBytes := get_scalar to_bytes "cannot convert to bytes".

(** A duration in nanoseconds, wrapping at 64 bits. An interval is the list of
    its months, days and nanoseconds: months count as 30 days, days as 24 hours. *)
Definition nanoseconds (u : TimeUnit) : Z :=
  match u with Second => 1000000000 | Millisecond => 1000000 | Microsecond => 1000 | Nanosecond => 1 end.
Definition day : Z := 24 * 3600 * 1000000000.
Definition to_duration (dt : DataType) : option (cell -> option Z) :=
  match dt with
  | DURATION u => Some (fun c => (fun v => s64 (v * nanoseconds u)) <$> int_cell c)
  | MONTH_DAY_NANO =>
      Some (fun c =>
              match c with
              | CList [CInt months; CInt days; CInt nanos] =>
                  Some (s64 (s64 (nanos + s64 (days * day)) + s64 (months * (30 * day))))
              | _ => None
              end)
  | _ => None
  end.
Definition GetScalarDuration := get_scalar to_duration "cannot convert to time.Duration".

(** [IsNull] and [GetColumn] of the arguments. *)
Definition argIsNull (a : Arguments) (k : key) : result fault bool :=
  match getColumn a k with
  | Err _ => Ok true
  | Ok None => Err (Panicked "nil pointer dereference")
  | Ok (Some arr) => Ok (IsNull arr 0)
  end.
Definition GetColumn : Arguments -> key -> result fault (option Array) := getColumn.

(** ** Positions *)

Definition constPositions (specs : list ArgSpec) : list Z :=
  map Position (filter (fun s => (0 <= Position s)%Z /\ IsConst s = true) specs).
Definition maxPos (specs : list ArgSpec) : Z :=
  foldl (fun m s => if (m <? Position s)%Z then Position s else m) 0%Z specs.

(** Each constant sent goes to the declared position of the constant it is. *)
Definition expand (slots : nat) (positions : list Z) (sent : list (option Array)) : list (option Array) :=
  foldl (fun out pa => <[Z.to_nat (fst pa) := snd pa]> out) (replicate slots None) (zip positions sent).

Definition RemapPositionalArgs (a : Arguments) (specs : list ArgSpec) : Arguments :=
  if bool_decide (length (Positional a) = 0%nat) || bool_decide (length specs = 0%nat) then a else
  let consts := constPositions specs in
  let max := maxPos specs in
  if bool_decide (length consts = length specs) then a else
  if (max <? NumArgs a)%Z then a else
  {| Positional := expand (Z.to_nat (max + 1)) consts (Positional a);
     Named := Named a; Schema := Schema a; Batch := Batch a |}.

(** ** Type bounds of the input columns *)

Record TypeBoundError := { BoundArg : string; BoundPosition : Z; BoundType : DataType }.

Definition matchesAnyBound (dt : DataType) (bounds : list (DataType -> bool)) : bool :=
  existsb (fun pred => pred dt) bounds.

(** The columns from position [i] on. *)
Fixpoint check_columns (spec : ArgSpec) (i : Z) (cols : list DataType) : result TypeBoundError () :=
  match cols with
  | [] => Ok ()
  | dt :: cols =>
      check! matchesAnyBound dt (TypeBound spec)
      else {| BoundArg := ArgName spec; BoundPosition := i; BoundType := dt |} in
      check_columns spec (i + 1) cols
  end.

Fixpoint validateBounds (specs : list ArgSpec) (cols : list DataType) : result TypeBoundError () :=
  match specs with
  | [] => Ok ()
  | spec :: specs =>
      if IsConst spec || bool_decide (length (TypeBound spec) = 0%nat)
         || negb (bool_decide (ArrowType spec = "any")) then validateBounds specs cols else
      if (Position spec <? 0)%Z then validateBounds specs cols else
      let rest := drop (Z.to_nat (Position spec)) cols in
      let? _ := check_columns spec (Position spec) (if IsVarargs spec then rest else take 1 rest) in
      validateBounds specs cols
  end.
(** [inputSchema] is nil when the call has no input. *)
Definition ValidateTypeBounds (specs : list ArgSpec) (inputSchema : option (list DataType))
  : result TypeBoundError () :=
  match inputSchema with
  | None => Ok ()
  | Some cols => validateBounds specs cols
  end.

(** ** How the engine sends arguments *)

Definition positional_field (p : Z * Array) : string * Array := ("positional_" +:+ Itoa (fst p), snd p).
Definition named_field (n : string * Array) : string * Array := ("named_" +:+ fst n, snd n).
Fixpoint number (n : nat) (l : list Array) : list (Z * Array) :=
  match l with
  | [] => []
  | a :: l => (Z.of_nat n, a) :: number (S n) l
  end.
Definition engine_args (pos : list Array) (named : list (string * Array)) : list (string * Array) :=
  map positional_field (number 0 pos) ++ map named_field named.

(** A name the parser cannot take for another argument's field. *)
Definition plain_name (n : string) : Prop := n <> "" /\ has_prefix (sb n) named_prefix = false.

Lemma Itoa_nonempty z : sb (Itoa z) <> [].
Proof.
  unfold Itoa. rewrite sb_bstr. destruct (z <? 0)%Z eqn:E; [done|].
  by apply udigits_nonempty.
Qed.

Lemma nonempty_length {A} (l : list A) : l <> [] -> (0 < length l)%nat.
Proof. destruct l; [done|cbn; lia]. Qed.

Lemma add_positional ps m p : int64_range (fst p) ->
  add_field (ps, m) (positional_field p) =
  Ok (ps ++ [p], <[fst (positional_field p) := snd p]> m).
Proof.
  intros Hr. destruct p as [i a]. unfold add_field, positional_field. cbn [fst snd].
  rewrite sb_app. change (sb "positional_") with positional_prefix.
  rewrite has_prefix_app, length_app. pose proof (nonempty_length _ (Itoa_nonempty i)) as Hl.
  change (length positional_prefix) with 11%nat.
  rewrite (proj2 (Nat.ltb_lt _ _)) by lia. cbn [andb].
  rewrite (drop_app_exact _ _ 11) by reflexivity. rewrite bstr_sb.
  unfold Atoi. rewrite ParseInt_Itoa by done. done.
Qed.

Lemma add_named ps m n : fst n <> "" ->
  add_field (ps, m) (named_field n) =
  Ok (ps, <[fst (named_field n) := snd n]> (<[fst n := snd n]> m)).
Proof.
  intros Hn. destruct n as [n a]. unfold add_field, named_field. cbn [fst snd] in *.
  rewrite sb_app. change (sb "named_") with named_prefix.
  assert (has_prefix (named_prefix ++ sb n) positional_prefix = false) as -> by reflexivity.
  rewrite andb_false_r, has_prefix_app, length_app. change (length named_prefix) with 6%nat.
  assert (sb n <> []) as Hb by (intros E; apply Hn, sb_inj; by rewrite E).
  apply nonempty_length in Hb. rewrite (proj2 (Nat.ltb_lt _ _)) by lia. cbn [andb].
  rewrite (drop_app_exact _ _ 6) by reflexivity. by rewrite bstr_sb.
Qed.

Lemma add_fields_app c l k :
  add_fields c (l ++ k) = match add_fields c l with Ok c => add_fields c k | Err e => Err e end.
Proof.
  revert c. induction l as [|f l IH]; intros c; cbn; [done|].
  destruct (add_field c f); [apply IH|done].
Qed.

Lemma add_positionals qs : forall ps m, Forall (fun p : Z * Array => int64_range (fst p)) qs ->
  exists m', add_fields (ps, m) (map positional_field qs) = Ok (ps ++ qs, m').
Proof.
  induction qs as [|q qs IH]; intros ps m Hq; cbn [map add_fields].
  { exists m. by rewrite app_nil_r. }
  inversion_clear Hq. rewrite add_positional by done. destruct (IH (ps ++ [q]) (<[fst (positional_field q) := snd q]> m)) as [m' E]; [done|].
  exists m'. by rewrite E, <- app_assoc.
Qed.

Definition record_named (m : gmap string Array) (n : string * Array) : gmap string Array :=
  <[fst (named_field n) := snd n]> (<[fst n := snd n]> m).

Lemma add_nameds ns : forall ps m, Forall (fun n => fst n <> "") ns ->
  add_fields (ps, m) (map named_field ns) = Ok (ps, foldl record_named m ns).
Proof.
  induction ns as [|n ns IH]; intros ps m Hn; cbn [map add_fields]; [done|].
  inversion_clear Hn. rewrite add_named by done. cbn. by apply IH.
Qed.

Lemma named_prefix_neq x y : has_prefix (sb x) named_prefix = false -> "named_" +:+ y <> x.
Proof. intros H <-. rewrite sb_app, has_prefix_app in H. done. Qed.

Lemma record_named_other ns : forall m x, x ∉ map fst ns -> has_prefix (sb x) named_prefix = false ->
  foldl record_named m ns !! x = m !! x.
Proof.
  induction ns as [|n ns IH]; intros m x Hx Hp; cbn; [done|].
  cbn in Hx. rewrite not_elem_of_cons in Hx. destruct Hx as [Hx1 Hx2]. rewrite IH by done.
  unfold record_named. rewrite !lookup_insert_ne; [done| |]; [congruence|].
  cbn [named_field fst]. by apply named_prefix_neq.
Qed.

Lemma record_named_lookup ns m x a : NoDup (map fst ns) -> Forall (fun n => plain_name (fst n)) ns ->
  (x, a) ∈ ns -> foldl record_named m ns !! x = Some a.
Proof.
  revert m. induction ns as [|n ns IH]; intros m Hd Hp Hin; [by apply not_elem_of_nil in Hin|].
  cbn in Hd. inversion_clear Hd as [|? ? Hnot Hd']. inversion_clear Hp as [|? ? Hn Hp'].
  cbn [foldl]. apply elem_of_cons in Hin as [<-|Hin]; [|by apply IH].
  destruct Hn as [_ Hn]. cbn [fst] in *. rewrite record_named_other by done.
  unfold record_named. cbn [named_field fst snd]. rewrite lookup_insert_ne by (by apply named_prefix_neq).
  by rewrite lookup_insert_eq.
Qed.

(** *** Positions are filled in order *)

Lemma number_range n l : (Z.of_nat n + Z.of_nat (length l) <= make_limit)%Z ->
  Forall (fun p : Z * Array => int64_range (fst p)) (number n l).
Proof.
  revert n. induction l as [|a l IH]; intros n H; cbn in *; constructor.
  - unfold int64_range, make_limit in *. cbn [fst]. lia.
  - apply IH. lia.
Qed.

Lemma number_max l : forall n m, (m <= Z.of_nat n)%Z ->
  foldl (fun m p => if (m <? fst p)%Z then fst p else m) m (number n l) =
  match l with [] => m | _ => (Z.of_nat n + Z.of_nat (length l) - 1)%Z end.
Proof.
  induction l as [|a l IH]; intros n m H; cbn [number foldl fst]; [done|].
  assert ((if m <? Z.of_nat n then Z.of_nat n else m) = Z.of_nat n)%Z as ->.
  { destruct (m <? Z.of_nat n)%Z eqn:E; bool_hyps; lia. }
  rewrite IH by lia. destruct l; cbn [length]; lia.
Qed.

Lemma place_number l : forall pre,
  place (map Some pre ++ replicate (length l) None) (number (length pre) l) = Ok (map Some (pre ++ l)).
Proof.
  induction l as [|a l IH]; intros pre; cbn [number place length replicate].
  { by rewrite !app_nil_r. }
  rewrite length_app, length_map. cbn [length].
  rewrite (proj2 (Z.leb_le _ _)) by lia. rewrite (proj2 (Z.ltb_lt _ _)) by lia. cbn [andb].
  rewrite Nat2Z.id, insert_app_r_alt by (rewrite length_map; lia). rewrite length_map, Nat.sub_diag. cbn [list_insert].
  specialize (IH (pre ++ [a])). rewrite length_app, map_app, <- !app_assoc in IH. cbn in IH.
  rewrite Nat.add_comm in IH. exact IH.
Qed.

Lemma fill_number l : (Z.of_nat (length l) <= make_limit)%Z -> fillPositional (number 0 l) = Ok (map Some l).
Proof.
  intros H. unfold fillPositional. rewrite number_max by lia. destruct l as [|a l]; [done|].
  cbn [number]. rewrite (proj2 (Z.leb_le _ _)) by lia.
  replace (Z.to_nat _) with (length (a :: l)) by lia. exact (place_number (a :: l) []).
Qed.

(** What the engine sends is what the function looks up: when the arguments
    arrive as the struct column "args" of positional and named fields, parsing
    succeeds, the arguments are as many as the positional ones, the i-th is at
    position i, and each named one is found by its name. The names are distinct
    and none is empty or starts with "named_". *)
Theorem parsed_arguments (read_ipc : bytes -> result string (list Field * option (list column)))
    (data : bytes) (f : Field) (whole : Array) (pos : list Array) (named : list (string * Array)) :
  data <> [] -> FieldName f = "args" ->
  read_ipc data = Ok ([f], Some [StructColumn whole (engine_args pos named)]) ->
  (Z.of_nat (length pos) <= make_limit)%Z ->
  NoDup (map fst named) -> Forall (fun n => plain_name (fst n)) named ->
  exists args, ParseArguments read_ipc data = Ok args /\
    NumArgs args = Z.of_nat (length pos) /\
    (forall i, (i < length pos)%nat -> getColumn args (KInt (Z.of_nat i)) = Ok (pos !! i)) /\
    (forall n a, (n, a) ∈ named -> getColumn args (KString n) = Ok (Some a)).
Proof.
  intros Hd Hf Er Hl Hnd Hn. unfold ParseArguments. destruct data as [|b data]; [done|].
  rewrite Er. unfold args_struct. rewrite bool_decide_true by done. unfold engine_args.
  rewrite add_fields_app. destruct (add_positionals (number 0 pos) [] ∅) as [m E]; [by apply number_range|].
  rewrite E. cbn [app]. rewrite add_nameds by (eapply Forall_impl; [exact Hn|]; by intros ? []).
  cbn [fst snd]. rewrite fill_number by done. eexists. split; [done|].
  unfold getColumn, NumArgs. cbn [Positional Named]. rewrite length_map. split; [done|]. split.
  - intros i Hi. rewrite (proj2 (Z.leb_le _ _)), (proj2 (Z.ltb_lt _ _)) by lia. cbn [andb].
    rewrite Nat2Z.id, list_lookup_fmap. destruct (lookup_lt_is_Some_2 pos i Hi) as [x Ex]. by rewrite Ex.
  - intros n a Hin. by rewrite (record_named_lookup named m n a Hnd Hn Hin).
Qed.

(** Two positional arguments and a named one. *)
Definition ints (z : Z) : Array := {| ArrType := INT64; Cells := [CInt z] |}.
Definition args_field : Field :=
  {| FieldName := "args"; FieldType := STRUCT []; Nullable := false; Metadata := [] |}.
Definition sends (children : list (string * Array)) (data : bytes)
  : result string (list Field * option (list column)) :=
  Ok ([args_field], Some [StructColumn {| ArrType := STRUCT []; Cells := [COther ""] |} children]).

Lemma parsed_arguments_witness :
  exists args, ParseArguments (sends (engine_args [ints 7; ints 8] [("step", ints 2)])) [x00] = Ok args /\
    NumArgs args = 2%Z /\
    (forall i, (i < 2)%nat -> getColumn args (KInt (Z.of_nat i)) = Ok ([ints 7; ints 8] !! i)) /\
    (forall n a, (n, a) ∈ [("step", ints 2)] -> getColumn args (KString n) = Ok (Some a)).
Proof.
  apply (parsed_arguments (sends (engine_args [ints 7; ints 8] [("step", ints 2)])) [x00] args_field
           {| ArrType := STRUCT []; Cells := [COther ""] |} [ints 7; ints 8] [("step", ints 2)]);
    [done|done|done| |apply NoDup_singleton|].
  - unfold make_limit. cbn. lia.
  - constructor; [|constructor]. by split.
Defined.

(** A negative index, and a huge one, panic instead of failing; a remapped
    position that was not sent is a nil column. *)
Example negative_position_panics :
  ParseArguments (sends [("positional_-1", ints 7)]) [x00] = Err (Panicked "index out of range").
Proof. vm_compute. reflexivity. Qed.
Example huge_position_panics :
  ParseArguments (sends [("positional_9223372036854775807", ints 7)]) [x00] =
  Err (Panicked "makeslice: len out of range").
Proof. vm_compute. reflexivity. Qed.

(** ** Remapping *)

Lemma maxPos_spec specs : forall m, let r := foldl (fun m s => if (m <? Position s)%Z then Position s else m) m specs in
  (m <= r)%Z /\ Forall (fun s => (Position s <= r)%Z) specs.
Proof.
  induction specs as [|s specs IH]; intros m; cbn [foldl]; [split; [lia|constructor]|].
  destruct (IH (if (m <? Position s)%Z then Position s else m)) as [H1 H2].
  set (r := foldl _ _ specs) in *. destruct (m <? Position s)%Z eqn:E; bool_hyps.
  all: split; [lia|]; constructor; [lia|done].
Qed.

Lemma elem_of_constPositions specs p : p ∈ constPositions specs ->
  (0 <= p <= maxPos specs)%Z /\ exists s, s ∈ specs /\ Position s = p /\ IsConst s = true.
Proof.
  unfold constPositions. intros H. apply list_elem_of_fmap in H as (s & -> & H).
  apply list_elem_of_filter in H as [[H0 H1] Hs]. split; [|by exists s].
  destruct (maxPos_spec specs 0) as [_ Hf]. rewrite Forall_forall in Hf. split; [done|by apply Hf].
Qed.

Definition expand_from (out : list (option Array)) (pairs : list (Z * option Array)) : list (option Array) :=
  foldl (fun out pa => <[Z.to_nat (fst pa) := snd pa]> out) out pairs.

Lemma expand_from_length pairs : forall out, length (expand_from out pairs) = length out.
Proof. induction pairs as [|p pairs IH]; intros out; cbn; [done|]. rewrite IH. apply length_insert. Qed.

Lemma expand_from_other pairs q : (0 <= q)%Z -> Forall (fun p => (0 <= fst p)%Z) pairs -> q ∉ map fst pairs ->
  forall out, expand_from out pairs !! Z.to_nat q = out !! Z.to_nat q.
Proof.
  intros Hq0. induction pairs as [|p pairs IH]; intros Hf Hq out; cbn; [done|].
  inversion_clear Hf. cbn in Hq. rewrite not_elem_of_cons in Hq. destruct Hq as [Hq1 Hq2].
  unfold expand_from in IH. rewrite IH by done. apply list_lookup_insert_ne. lia.
Qed.

Lemma expand_from_lookup pairs i p a : NoDup (map fst pairs) -> Forall (fun p => (0 <= fst p)%Z) pairs ->
  pairs !! i = Some (p, a) -> forall out, (p < Z.of_nat (length out))%Z ->
  expand_from out pairs !! Z.to_nat p = Some a.
Proof.
  revert i. induction pairs as [|[p' a'] pairs IH]; intros i Hd Hf Hi out Hl; [done|].
  cbn in Hd. inversion_clear Hd as [|? ? Hn Hd']. inversion_clear Hf as [|? ? Hp Hf'].
  destruct i as [|i]; cbn in *.
  - injection Hi as -> ->. fold (expand_from (<[Z.to_nat p := a]> out) pairs). rewrite expand_from_other by done.
    apply list_lookup_insert_eq. lia.
  - apply (IH i); [done|done|done|]. by rewrite length_insert.
Qed.

Lemma zip_fst (ps : list Z) (sent : list (option Array)) :
  map fst (zip ps sent) = take (length sent) ps.
Proof. revert sent. induction ps as [|p ps IH]; intros [|a sent]; cbn; [done..|]. by rewrite IH. Qed.

Lemma zip_lookup (ps : list Z) (sent : list (option Array)) i p a :
  ps !! i = Some p -> sent !! i = Some a -> zip ps sent !! i = Some (p, a).
Proof.
  revert ps sent. induction i as [|i IH]; intros [|q ps] [|b sent] Hp Ha; cbn in *; try done.
  - by simplify_eq.
  - by apply IH.
Qed.

(** The slot of the i-th constant, and of any other position. *)
Lemma expand_lookup slots ps sent i p : NoDup ps ->
  Forall (fun p => (0 <= p < Z.of_nat slots)%Z) ps -> ps !! i = Some p ->
  expand slots ps sent !! Z.to_nat p = Some (default None (sent !! i)).
Proof.
  intros Hd Hr Hp. unfold expand. fold (expand_from (replicate slots None) (zip ps sent)).
  assert (Hd' : NoDup (map fst (zip ps sent))).
  { rewrite zip_fst. apply (sublist_NoDup _ _ Hd (sublist_take ps (length sent))). }
  assert (Hf : Forall (fun q : Z * option Array => (0 <= fst q)%Z) (zip ps sent)).
  { apply Forall_forall. intros q Hq. assert (fst q ∈ map fst (zip ps sent)) as Hin by (apply list_elem_of_fmap; by exists q).
    rewrite zip_fst in Hin. apply (subseteq_take (length sent)) in Hin. rewrite Forall_forall in Hr.
    destruct (Hr _ Hin). done. }
  pose proof Hr as Hr'. rewrite Forall_forall in Hr'.
  assert (0 <= p < Z.of_nat slots)%Z as Hrange by (apply Hr'; by eapply list_elem_of_lookup_2).
  destruct (sent !! i) as [a|] eqn:Ea; cbn [default].
  - eapply expand_from_lookup; [done|done|by apply (zip_lookup ps sent i)|]. rewrite length_replicate. lia.
  - rewrite expand_from_other; [apply lookup_replicate_2; lia|lia|done|].
    rewrite zip_fst. apply lookup_ge_None_1 in Ea. intros Hin.
    apply list_elem_of_lookup_1 in Hin as [j Hj]. apply lookup_take_Some in Hj as [Hj Hlt].
    assert (i = j) by (exact (NoDup_lookup _ _ _ _ Hd Hp Hj)). lia.
Qed.

Lemma expand_lookup_other slots ps sent q : Forall (fun p => (0 <= p)%Z) ps ->
  (0 <= q < Z.of_nat slots)%Z -> q ∉ ps -> expand slots ps sent !! Z.to_nat q = Some None.
Proof.
  intros Hr Hq Hn. unfold expand. fold (expand_from (replicate slots None) (zip ps sent)).
  assert (forall x, x ∈ map fst (zip ps sent) -> x ∈ ps) as Hsub.
  { intros x. rewrite zip_fst. apply subseteq_take. }
  rewrite expand_from_other; [apply lookup_replicate_2; lia|lia| |].
  - apply Forall_forall. intros p Hp. rewrite Forall_forall in Hr. apply Hr, Hsub, list_elem_of_fmap. by exists p.
  - intros H. by apply Hn, Hsub.
Qed.

Lemma expand_length slots ps sent : length (expand slots ps sent) = slots.
Proof. unfold expand. rewrite (expand_from_length (zip ps sent)). apply length_replicate. Qed.

Lemma getColumn_in args p a : (0 <= p)%Z -> Positional args !! Z.to_nat p = Some a ->
  getColumn args (KInt p) = Ok a.
Proof.
  intros H0 Hp. unfold getColumn, NumArgs. pose proof (lookup_lt_Some _ _ _ Hp).
  rewrite (proj2 (Z.leb_le _ _)), (proj2 (Z.ltb_lt _ _)) by lia. cbn [andb]. by rewrite Hp.
Qed.

Lemma remap_idempotent args specs :
  RemapPositionalArgs (RemapPositionalArgs args specs) specs = RemapPositionalArgs args specs.
Proof.
  assert (forall b, RemapPositionalArgs args specs = b -> (b = args \/ NumArgs b = maxPos specs + 1)%Z) as H.
  { intros b <-. unfold RemapPositionalArgs. repeat case_match; auto. right. unfold NumArgs. cbn [Positional].
    rewrite expand_length. destruct (maxPos_spec specs 0). unfold maxPos. lia. }
  destruct (H _ eq_refl) as [Ea|E]; [by rewrite !Ea|]. unfold RemapPositionalArgs at 1. rewrite E.
  repeat case_match; try done. bool_hyps. lia.
Qed.

(** Constants are found at their declared positions: the engine numbers the
    constants it sends 0, 1, ... and sends fewer than the last declared
    position; after remapping, the i-th positional constant of the declaration
    is at its declared position (nil if the engine sent fewer), every other
    declared position holds nothing, and remapping again changes nothing. *)
Theorem remapped_arguments (args : Arguments) (specs : list ArgSpec) :
  NoDup (constPositions specs) -> length (constPositions specs) <> length specs ->
  (0 < NumArgs args <= maxPos specs)%Z ->
  let args' := RemapPositionalArgs args specs in
  NumArgs args' = (maxPos specs + 1)%Z /\
  (forall i p, constPositions specs !! i = Some p ->
     getColumn args' (KInt p) = Ok (default None (Positional args !! i))) /\
  (forall spec, spec ∈ specs -> (0 <= Position spec)%Z -> Position spec ∉ constPositions specs ->
     getColumn args' (KInt (Position spec)) = Ok None) /\
  RemapPositionalArgs args' specs = args'.
Proof.
  intros Hd Hlen [Hn Hmax] args'. assert (args' = {| Positional := expand (Z.to_nat (maxPos specs + 1)) (constPositions specs) (Positional args);
     Named := Named args; Schema := Schema args; Batch := Batch args |}) as E.
  { subst args'. unfold RemapPositionalArgs, NumArgs in *.
    rewrite (bool_decide_false (length (Positional args) = 0%nat)) by lia.
    rewrite (bool_decide_false (length specs = 0%nat)).
    2: { intros H0. destruct specs; [|done]. by apply Hlen. }
    cbn [orb]. rewrite bool_decide_false by done. by rewrite (proj2 (Z.ltb_ge _ _)) by lia. }
  assert (Hr : Forall (fun p => (0 <= p < Z.of_nat (Z.to_nat (maxPos specs + 1)))%Z) (constPositions specs)).
  { apply Forall_forall. intros p Hp. apply elem_of_constPositions in Hp as [? _]. lia. }
  split; [|split; [|split]].
  - rewrite E. unfold NumArgs. cbn [Positional]. rewrite expand_length. lia.
  - intros i p Hp. rewrite Forall_forall in Hr. pose proof (Hr p ltac:(by eapply list_elem_of_lookup_2)) as Hp0.
    apply getColumn_in; [lia|]. rewrite E. cbn [Positional]. apply expand_lookup; [done| |done]. by apply Forall_forall.
  - intros spec Hs H0 Hnot. destruct (maxPos_spec specs 0) as [_ Hf]. fold (maxPos specs) in Hf.
    rewrite Forall_forall in Hf. specialize (Hf _ Hs). apply getColumn_in; [done|]. rewrite E. cbn [Positional].
    apply expand_lookup_other; [|lia|done]. eapply Forall_impl; [exact Hr|]. cbn. lia.
  - apply remap_idempotent.
Qed.

(** The header and the config of the source's example are sent, the payload
    between them is a column. *)
Definition declared (name : string) (p : Z) (type : string) (const : bool) : ArgSpec :=
  {| ArgName := name; Position := p; ArrowType := type; IsConst := const; IsVarargs := false;
     HasDefault := false; DefaultValue := ""; ArrowDataType := None; TypeBound := []; Choices := [];
     Ge := None; Le := None; Gt := None; Lt := None; Pattern := "" |}.
Definition example_specs : list ArgSpec :=
  [declared "header" 0 "int64" true; declared "payload" 1 "any" false; declared "config" 2 "int64" true].
Definition sent (arrays : list Array) : Arguments :=
  {| Positional := map Some arrays; Named := ∅; Schema := None; Batch := None |}.

Lemma remapped_arguments_witness :
  let args' := RemapPositionalArgs (sent [ints 7; ints 8]) example_specs in
  NumArgs args' = 3%Z /\ getColumn args' (KInt 0) = Ok (Some (ints 7)) /\
  getColumn args' (KInt 2) = Ok (Some (ints 8)) /\ getColumn args' (KInt 1) = Ok None.
Proof.
  pose (H := remapped_arguments (sent [ints 7; ints 8]) example_specs).
  destruct H as (H1 & H2 & H3 & _); [|done|done|].
  - apply NoDup_cons_2; [|apply NoDup_singleton]. intros E. by apply list_elem_of_singleton in E.
  - split; [exact H1|]. split; [exact (H2 0%nat 0%Z eq_refl)|]. split; [exact (H2 1%nat 2%Z eq_refl)|].
    apply (H3 (declared "payload" 1 "any" false)); [|done|].
    + apply list_elem_of_further, list_elem_of_here.
    + intros E. cbn in E. apply elem_of_cons in E as [E|E]; [done|]. by apply list_elem_of_singleton in E.
Defined.

(** A column the engine did not send is nil, and reading a scalar from it
    panics. *)
Example unsent_constant_panics :
  GetScalarInt64 (RemapPositionalArgs (sent [ints 7]) example_specs) (KInt 2) =
  Err (Panicked "nil pointer dereference").
Proof. reflexivity. Qed.

(** ** Type bounds *)

Definition bounded (spec : ArgSpec) : Prop :=
  IsConst spec = false /\ TypeBound spec <> [] /\ ArrowType spec = "any" /\ (0 <= Position spec)%Z.
(** The input columns a declaration is about. *)
Definition covers (spec : ArgSpec) (i : nat) : Prop :=
  Z.of_nat i = Position spec \/ IsVarargs spec = true /\ (Position spec <= Z.of_nat i)%Z.

Lemma check_columns_ok spec cols : forall i,
  check_columns spec i cols = Ok () <-> Forall (fun dt => matchesAnyBound dt (TypeBound spec) = true) cols.
Proof.
  induction cols as [|dt cols IH]; intros i; cbn [check_columns]; [by split; [constructor|]|].
  destruct (matchesAnyBound dt _) eqn:E.
  - rewrite IH. split; [by constructor|]. intros H. by inversion H.
  - split; [done|]. intros H. inversion H. congruence.
Qed.

Lemma validateBounds_ok specs cols :
  validateBounds specs cols = Ok () <->
  Forall (fun spec => bounded spec -> forall i dt, cols !! i = Some dt -> covers spec i ->
            matchesAnyBound dt (TypeBound spec) = true) specs.
Proof.
  induction specs as [|spec specs IH]; cbn [validateBounds]; [by split; [constructor|]|].
  rewrite Forall_cons, <- IH. clear IH. unfold bounded.
  destruct (IsConst spec); cbn [orb]; [naive_solver|].
  destruct (bool_decide (length (TypeBound spec) = 0%nat)) eqn:E1; cbn [orb]; bool_hyps.
  { apply nil_length_inv in E1. rewrite E1. naive_solver. }
  destruct (bool_decide (ArrowType spec = "any")) eqn:E2; cbn [negb]; bool_hyps; [|naive_solver].
  destruct (Position spec <? 0)%Z eqn:E3; bool_hyps; [naive_solver lia|].
  set (n := Z.to_nat (Position spec)).
  assert (Hc : check_columns spec (Position spec) (if IsVarargs spec then drop n cols else take 1 (drop n cols)) = Ok () <->
    (forall i dt, cols !! i = Some dt -> covers spec i -> matchesAnyBound dt (TypeBound spec) = true)).
  { rewrite check_columns_ok, Forall_lookup. unfold covers. split.
    - intros H i dt Hi Hcov. apply (H (i - n)%nat). destruct (IsVarargs spec).
      + rewrite lookup_drop. replace (n + (i - n))%nat with i by lia. done.
      + assert (i = n) as -> by (destruct Hcov as [?|[? ?]]; [lia|done]).
        rewrite Nat.sub_diag, lookup_take_lt, lookup_drop, Nat.add_0_r by lia. done.
    - intros H j dt Hj. destruct (IsVarargs spec).
      + rewrite lookup_drop in Hj. apply (H _ _ Hj). right. split; [done|lia].
      + apply lookup_take_Some in Hj as [Hj Hlt]. rewrite lookup_drop in Hj. apply (H _ _ Hj). left. lia. }
  destruct (check_columns _ _ _) as [[]|e]; [naive_solver|]. split; [done|].
  intros [H _]. exfalso. assert (@Err TypeBoundError () e = Ok ()) by (apply Hc, H; split_and!; [done|by destruct (TypeBound spec)|done|done]). done.
Qed.

(** Type bounds are enforced exactly: a call is accepted when every input
    column that a bounded argument covers (its position, or for a variadic
    argument every position from there on) has a type one of the argument's
    predicates accepts, and refused otherwise; constants, arguments without
    bounds or of a concrete type, and calls without an input are not checked. *)
Theorem type_bounds_exact (specs : list ArgSpec) (inputSchema : option (list DataType)) :
  ValidateTypeBounds specs inputSchema = Ok () <->
  forall cols, inputSchema = Some cols ->
  forall spec i dt, spec ∈ specs -> bounded spec -> cols !! i = Some dt -> covers spec i ->
    exists pred, pred ∈ TypeBound spec /\ pred dt = true.
Proof.
  assert (Hm : forall dt l, matchesAnyBound dt l = true <-> exists pred, pred ∈ l /\ pred dt = true).
  { intros dt l. unfold matchesAnyBound. rewrite existsb_exists. split; intros (x & Hx & E); exists x; split; try done.
    - by apply list_elem_of_In.
    - by apply list_elem_of_In. }
  destruct inputSchema as [cols|]; cbn; [|split; [intros _ ? ?; done|done]].
  rewrite validateBounds_ok, Forall_forall. split.
  - intros H ? [= <-] spec i dt Hs Hb Hi Hc. by apply Hm, (H spec Hs Hb i).
  - intros H spec Hs Hb i dt Hi Hc. apply Hm. by apply (H cols eq_refl spec i dt).
Qed.
