(* ===== verification/ArgConstraints.v ===== *)
(** * ArgConstraints: constraints on constant arguments
    (vgi/argument_constraints.go)

    A declaration may restrict a constant argument to a set of choices, a
    numeric range or a pattern. The constraints are checked once, at bind,
    against the values the call sends, or the declared default of a named
    argument it omits. *)

From S2P Require Import Prelude Bytes Strings Strconv ArrowTypes ArrowData Arguments.

(** What is wrong with a value; the bounds and choices are the declared ones. *)
Inductive Detail :=
| MustBeGe (b : float64) | MustBeLe (b : float64) | MustBeGt (b : float64) | MustBeLt (b : float64)
| MustBeOneOf (choices : list any)
| MustMatch (pattern : string)
| DeclaredDefault (value : string) (d : Detail).
Record ArgumentError := { ErrName : string; ErrPosition : Z; ErrDetail : Detail }.

Definition present {A} (o : option A) : bool := match o with Some _ => true | None => false end.

Section constraints.
(** [regexp.Compile] and [MatchString]: [None] when the pattern does not compile. *)
Context (MatchString : string -> string -> option bool).
(** [strconv.ParseFloat(s, 64)]. *)
Context (ParseFloat : string -> option float64).

Definition specHasValueConstraints (spec : ArgSpec) : bool :=
  negb (bool_decide (Choices spec = [])) || present (Ge spec) || present (Le spec)
  || present (Gt spec) || present (Lt spec) || negb (bool_decide (Pattern spec = "")).

(** The constant's value as an int64, a float64, a string or a bool; [None] for
    the other types, and for a column without a value to read. *)
Definition constScalarValue (col : Array) : option any :=
  match Cells col !! 0%nat with
  | None => None
  | Some c =>
      match ArrType col with
      | INT64 | INT32 | INT16 | INT8 => AInt64 <$> int_cell c
      | UINT64 | UINT32 | UINT16 | UINT8 => (fun z => AInt64 (s64 z)) <$> int_cell c
      | FLOAT64 | FLOAT32 => AFloat64 <$> float_cell c
      | STRING => AString <$> string_cell c
      | BOOL => ABool <$> bool_cell c
      | DICTIONARY _ STRING _ => AString <$> string_cell c
      | _ => None
      end
  end.

Definition toFloat (v : any) : option float64 :=
  match v with
  | AInt64 n | AInt n => Some (float64_of_int n)
  | AFloat64 f | AFloat32 f => Some f
  | _ => None
  end.

(** [c == value] is equality of Go interfaces: same type, same value. *)
Fixpoint choicesContain (choices : list any) (value : any) : bool :=
  match choices with
  | [] => false
  | c :: choices =>
      match toFloat c with
      | Some af =>
          match toFloat value with
          | Some bf => float_eq af bf || choicesContain choices value
          | None => choicesContain choices value
          end
      | None => bool_decide (c = value) || choicesContain choices value
      end
  end.

(** The first bound a number violates. *)
Definition range_violation (spec : ArgSpec) (f : float64) : option Detail :=
  let violated (bound : option float64) (bad : float64 -> bool) (d : float64 -> Detail) (next : option Detail) :=
    match bound with
    | Some b => if bad b then Some (d b) else next
    | None => next
    end in
  violated (Ge spec) (fun b => float_lt f b) MustBeGe
    (violated (Le spec) (fun b => float_lt b f) MustBeLe
      (violated (Gt spec) (fun b => float_le f b) MustBeGt
        (violated (Lt spec) (fun b => float_le b f) MustBeLt None))).

Definition validateConstValue (spec : ArgSpec) (value : any) : result ArgumentError () :=
  let argErr d := {| ErrName := ArgName spec; ErrPosition := Position spec; ErrDetail := d |} in
  match (f ← toFloat value; range_violation spec f) with
  | Some d => Err (argErr d)
  | None =>
      check! bool_decide (Choices spec = []) || choicesContain (Choices spec) value
      else argErr (MustBeOneOf (Choices spec)) in
      match value with
      | AString s =>
          check! bool_decide (Pattern spec = "") || default true (MatchString (Pattern spec) s)
          else argErr (MustMatch (Pattern spec)) in Ok ()
      | _ => Ok ()
      end
  end.

(** The typed value of a textual default. *)
Definition parseDefaultTyped (arrowType raw : string) : option any :=
  if bool_decide (arrowType ∈ ["int8"; "int16"; "int32"; "int64"]) then AInt64 <$> ParseInt raw else
  if bool_decide (arrowType ∈ ["uint8"; "uint16"; "uint32"; "uint64"]) then AUint64 <$> ParseUint raw else
  if bool_decide (arrowType ∈ ["float"; "float32"; "double"; "float64"]) then AFloat64 <$> ParseFloat raw else
  if bool_decide (arrowType ∈ ["bool"; "boolean"]) then ABool <$> ParseBool raw else
  if bool_decide (arrowType ∈ ["varchar"; "string"]) then Some (AString raw) else None.

Definition parseChoiceValue (arrowType raw : string) : any :=
  default (AString raw) (parseDefaultTyped arrowType raw).

Definition validateDeclaredDefault (spec : ArgSpec) : result ArgumentError () :=
  if negb (HasDefault spec) then Ok () else
  match parseDefaultTyped (ArrowType spec) (DefaultValue spec) with
  | None => Ok ()
  | Some value =>
      let value := match value with AUint64 u => AFloat64 (float64_of_int u) | _ => value end in
      match validateConstValue spec value with
      | Ok () => Ok ()
      | Err e => Err {| ErrName := ErrName e; ErrPosition := ErrPosition e;
                        ErrDetail := DeclaredDefault (DefaultValue spec) (ErrDetail e) |}
      end
  end.

(** A named argument, nil when the caller did not pass it. *)
Definition namedConstArg (args : Arguments) (name : string) : option Array :=
  match Named args !! name with
  | Some col => Some col
  | None => Named args !! ("named_" +:+ name)
  end.

(** A column with a value: not nil, not empty, not null. *)
Definition check_column (spec : ArgSpec) (col : option Array) : result ArgumentError () :=
  match col with
  | None => Ok ()
  | Some col =>
      if bool_decide (Len col = 0%Z) || IsNull col 0 then Ok () else
      match constScalarValue col with
      | Some value => validateConstValue spec value
      | None => Ok ()
      end
  end.

Definition checkSpec (args : Arguments) (spec : ArgSpec) : result ArgumentError () :=
  if negb (IsConst spec) || negb (specHasValueConstraints spec) then Ok () else
  if (0 <=? Position spec)%Z then
    if (NumArgs args <=? Position spec)%Z then Ok ()
    else check_column spec (default None (Positional args !! Z.to_nat (Position spec)))
  else
    match namedConstArg args (ArgName spec) with
    | None => validateDeclaredDefault spec
    | Some col => check_column spec (Some col)
    end.

Fixpoint checkSpecs (check : ArgSpec -> result ArgumentError ()) (specs : list ArgSpec)
  : result ArgumentError () :=
  match specs with
  | [] => Ok ()
  | spec :: specs => let? _ := check spec in checkSpecs check specs
  end.

(** [args] is nil when the call has none. *)
Definition ValidateArgConstraints (specs : list ArgSpec) (args : option Arguments) : result ArgumentError () :=
  match args with
  | None => Ok ()
  | Some args => checkSpecs (checkSpec args) specs
  end.

(** ** Aggregates: the constants keep the engine's numbering *)

Definition aggregateConstArg (args : Arguments) (i : nat) : option Array :=
  match Named args !! ("positional_" +:+ Itoa (Z.of_nat i)) with
  | Some a => Some a
  | None => default None (Positional args !! i)
  end.

Fixpoint validateAggregate (args : Arguments) (constIdx : nat) (specs : list ArgSpec)
  : result ArgumentError () :=
  match specs with
  | [] => Ok ()
  | spec :: specs =>
      if negb (IsConst spec) then validateAggregate args constIdx specs else
      let? _ := if specHasValueConstraints spec
                then check_column spec (aggregateConstArg args constIdx) else Ok () in
      validateAggregate args (S constIdx) specs
  end.
Definition ValidateAggregateConstConstraints (specs : list ArgSpec) (args : option Arguments)
  : result ArgumentError () :=
  match args with
  | None => Ok ()
  | Some args => validateAggregate args 0 specs
  end.

(** ** The checks of a bind *)

Inductive bind_error := BindTypeBound (e : TypeBoundError) | BindArgument (e : ArgumentError).

(** What handleBind does to the parsed arguments before OnBind sees them. *)
Definition bindChecks (specs : list ArgSpec) (args : Arguments) (inputSchema : option (list DataType))
  : result bind_error Arguments :=
  let args := RemapPositionalArgs args specs in
  match ValidateTypeBounds specs inputSchema with
  | Err e => Err (BindTypeBound e)
  | Ok _ =>
      match ValidateArgConstraints specs (Some args) with
      | Err e => Err (BindArgument e)
      | Ok _ => Ok args
      end
  end.

(** ** What the constraints say *)

Definition at_least (b f : float64) : Prop := b = NaN \/ f = NaN \/ float_le b f = true.
Definition beyond (b f : float64) : Prop := b = NaN \/ f = NaN \/ float_lt b f = true.

Record satisfies (spec : ArgSpec) (v : any) : Prop := {
  sat_ge b f : Ge spec = Some b -> toFloat v = Some f -> at_least b f;
  sat_le b f : Le spec = Some b -> toFloat v = Some f -> at_least f b;
  sat_gt b f : Gt spec = Some b -> toFloat v = Some f -> beyond b f;
  sat_lt b f : Lt spec = Some b -> toFloat v = Some f -> beyond f b;
  sat_choice : Choices spec = [] \/
    exists c, c ∈ Choices spec /\
      (c = v /\ toFloat c = None \/
       exists f g, toFloat c = Some f /\ toFloat v = Some g /\ float_eq f g = true);
  sat_pattern s : v = AString s -> Pattern spec <> "" -> MatchString (Pattern spec) s <> Some false
}.

Lemma float_lt_le a b : float_lt a b = false <-> at_least b a.
Proof.
  unfold at_least, float_le. destruct a as [m e|[]|], b as [n f|[]|]; cbn; try (clear; intuition congruence).
  rewrite (Z.min_comm f e). set (x := (m * _)%Z). set (y := (n * _)%Z).
  rewrite Z.ltb_ge, orb_true_iff, Z.ltb_lt, Z.eqb_eq. split; [intros; right; right; lia|].
  intros [?|[?|?]]; [done|done|lia].
Qed.
Lemma float_le_lt a b : float_le a b = false <-> beyond b a.
Proof.
  unfold beyond, float_le. destruct a as [m e|[]|], b as [n f|[]|]; cbn; try (clear; intuition congruence).
  rewrite (Z.min_comm f e). set (x := (m * _)%Z). set (y := (n * _)%Z).
  rewrite orb_false_iff, Z.ltb_ge, Z.ltb_lt, Z.eqb_neq. split; [intros; right; right; lia|].
  intros [?|[?|?]]; [done|done|lia].
Qed.

Lemma choicesContain_spec choices v : choicesContain choices v = true <->
  exists c, c ∈ choices /\
    (c = v /\ toFloat c = None \/ exists f g, toFloat c = Some f /\ toFloat v = Some g /\ float_eq f g = true).
Proof.
  induction choices as [|c choices IH]; cbn [choicesContain].
  { split; [done|]. intros (c & Hc & _). by apply not_elem_of_nil in Hc. }
  assert (Hcons : forall P : any -> Prop, (exists x, x ∈ c :: choices /\ P x) <-> P c \/ exists x, x ∈ choices /\ P x).
  { intros P. split.
    - intros (x & Hx & HP). apply elem_of_cons in Hx as [->|Hx]; [by left|right; by exists x].
    - intros [HP|(x & Hx & HP)]; [exists c|exists x]; (split; [|done]); [apply list_elem_of_here|by apply list_elem_of_further]. }
  rewrite Hcons, <- IH. clear Hcons IH. destruct (toFloat c) as [f|] eqn:Ec.
  - destruct (toFloat v) as [g|]; [rewrite orb_true_iff|]; naive_solver.
  - rewrite orb_true_iff, bool_decide_eq_true. naive_solver.
Qed.

(** The bounds a number meets, when no violation is found. *)
Lemma range_violation_none spec f : range_violation spec f = None <->
  (forall b, Ge spec = Some b -> at_least b f) /\ (forall b, Le spec = Some b -> at_least f b) /\
  (forall b, Gt spec = Some b -> beyond b f) /\ (forall b, Lt spec = Some b -> beyond f b).
Proof.
  unfold range_violation. setoid_rewrite <- float_lt_le. setoid_rewrite <- float_le_lt.
  split.
  - intros H. split_and!; intros b Eb; rewrite Eb in H; repeat case_match; try done; by apply not_true_is_false.
  - intros (H1 & H2 & H3 & H4).
    destruct (Ge spec) as [ge|]; [rewrite (H1 _ eq_refl)|];
    (destruct (Le spec) as [le|]; [rewrite (H2 _ eq_refl)|]);
    (destruct (Gt spec) as [gt|]; [rewrite (H3 _ eq_refl)|]);
    (destruct (Lt spec) as [lt|]; [rewrite (H4 _ eq_refl)|]); done.
Qed.

Lemma validateConstValue_ok spec v : validateConstValue spec v = Ok () <-> satisfies spec v.
Proof.
  unfold validateConstValue. split.
  - intros H. destruct (toFloat v ≫= _) as [d|] eqn:Er; [done|].
    destruct (bool_decide (Choices spec = []) || choicesContain (Choices spec) v) eqn:Ec; [|done].
    assert (forall f, toFloat v = Some f -> range_violation spec f = None) as Hr.
    { intros f Ef. rewrite Ef in Er. exact Er. }
    split.
    1-4: intros b f Hb Ef; specialize (Hr f Ef); apply range_violation_none in Hr; naive_solver.
    + apply orb_true_iff in Ec as [Ec|Ec]; [left; by apply bool_decide_eq_true in Ec|right].
      by apply choicesContain_spec.
    + intros s -> Hp Em. rewrite bool_decide_false in H by done. rewrite Em in H. done.
  - intros Hs. assert ((f ← toFloat v; range_violation spec f) = None) as ->.
    { destruct (toFloat v) as [f|] eqn:Ef; [|done]. cbn. apply range_violation_none.
      split_and!; intros b Hb; [eapply sat_ge|eapply sat_le|eapply sat_gt|eapply sat_lt]; eauto. }
    assert (bool_decide (Choices spec = []) || choicesContain (Choices spec) v = true) as ->.
    { apply orb_true_iff. destruct (sat_choice _ _ Hs) as [->|Hc]; [by left|right]. by apply choicesContain_spec. }
    destruct v as [| | | | | |s| | |]; try done.
    destruct (decide (Pattern spec = "")) as [Hp|Hp]; [by rewrite bool_decide_true|].
    rewrite bool_decide_false by done. pose proof (sat_pattern _ _ Hs s eq_refl Hp) as Hm.
    by destruct (MatchString (Pattern spec) s) as [[]|].
Qed.

Lemma validateConstValue_err spec v e : validateConstValue spec v = Err e ->
  ErrName e = ArgName spec /\ ErrPosition e = Position spec /\ ~ satisfies spec v.
Proof.
  intros H. split_and!.
  - unfold validateConstValue in H. repeat case_match; by simplify_eq.
  - unfold validateConstValue in H. repeat case_match; by simplify_eq.
  - intros Hs. apply validateConstValue_ok in Hs. congruence.
Qed.

Lemma unconstrained_satisfied spec v : specHasValueConstraints spec = false -> satisfies spec v.
Proof.
  unfold specHasValueConstraints. intros H. bool_hyps.
  destruct (Ge spec) eqn:E1, (Le spec) eqn:E2, (Gt spec) eqn:E3, (Lt spec) eqn:E4; try done.
  split; try congruence; auto.
Qed.

(** ** The values a bind looks at *)

(** The value of a column: there is one, it is not null, and it is comparable. *)
Definition column_value (col : option Array) : option any :=
  col ← col; if bool_decide (Len col = 0%Z) || IsNull col 0 then None else constScalarValue col.

(** The default an omitted argument takes, an unsigned one as a float. *)
Definition default_value (spec : ArgSpec) : option any :=
  if HasDefault spec then
    v ← parseDefaultTyped (ArrowType spec) (DefaultValue spec);
    Some (match v with AUint64 u => AFloat64 (float64_of_int u) | v => v end)
  else None.

Definition checked_value (args : Arguments) (spec : ArgSpec) : option any :=
  if (0 <=? Position spec)%Z then column_value (default None (Positional args !! Z.to_nat (Position spec)))
  else match namedConstArg args (ArgName spec) with
       | Some col => column_value (Some col)
       | None => default_value spec
       end.

(** A check against the value, whatever its error. *)
Definition checks (r : result ArgumentError ()) (spec : ArgSpec) (v : option any) : Prop :=
  match r with
  | Ok _ => forall x, v = Some x -> satisfies spec x
  | Err e => exists x, v = Some x /\ ~ satisfies spec x /\ ErrName e = ArgName spec
  end.

Lemma validate_checks spec v : checks (validateConstValue spec v) spec (Some v).
Proof.
  destruct (validateConstValue spec v) as [[]|e] eqn:E; cbn.
  - intros x [= <-]. by apply validateConstValue_ok.
  - apply validateConstValue_err in E as (? & _ & ?). by exists v.
Qed.

Lemma check_column_checks spec col : checks (check_column spec col) spec (column_value col).
Proof.
  destruct col as [col|]; [|done]. cbn. destruct (_ || _); [done|].
  destruct (constScalarValue col); [apply validate_checks|done].
Qed.

Lemma default_checks spec : checks (validateDeclaredDefault spec) spec (default_value spec).
Proof.
  unfold validateDeclaredDefault, default_value. destruct (HasDefault spec); [|done]. cbn.
  destruct (parseDefaultTyped _ _) as [v|]; [|done]. cbn.
  set (w := match v with AUint64 u => _ | _ => _ end). pose proof (validate_checks spec w) as H.
  destruct (validateConstValue spec w) as [[]|e]; [exact H|].
  destruct H as (x & Hx & Hs & Hn). exists x. by split_and!.
Qed.

Lemma checkSpec_checks args spec : IsConst spec = true ->
  checks (checkSpec args spec) spec (checked_value args spec).
Proof.
  intros Hc. unfold checkSpec, checked_value. rewrite Hc. cbn [negb orb].
  destruct (specHasValueConstraints spec) eqn:Ev; cbn [negb].
  - destruct (0 <=? Position spec)%Z.
    + destruct (NumArgs args <=? Position spec)%Z eqn:En; [|apply check_column_checks].
      bool_hyps. unfold NumArgs in En. rewrite lookup_ge_None_2 by lia. done.
    + destruct (namedConstArg _ _); [apply check_column_checks|apply default_checks].
  - intros x _. by apply unconstrained_satisfied.
Qed.

(** Constraints are enforced exactly: a bind's check accepts the arguments
    only if every constant's value (the one sent at its position or under its
    name, or the declared default of an omitted named argument) lies within its
    declared range, is one of its choices and matches its pattern; and when it
    refuses them, the argument it names is a constant whose value violates what
    it declares. Nulls and values that cannot be compared are not checked. *)
Theorem constraints_enforced (specs : list ArgSpec) (args : Arguments) :
  match ValidateArgConstraints specs (Some args) with
  | Ok _ => forall spec v, spec ∈ specs -> IsConst spec = true ->
              checked_value args spec = Some v -> satisfies spec v
  | Err e => exists spec v, spec ∈ specs /\ IsConst spec = true /\ ErrName e = ArgName spec /\
               checked_value args spec = Some v /\ ~ satisfies spec v
  end.
Proof.
  cbn. induction specs as [|spec specs IH]; cbn [checkSpecs].
  { intros ? ? H. by apply not_elem_of_nil in H. }
  assert (Hh : match checkSpec args spec with
    | Ok _ => IsConst spec = true -> forall v, checked_value args spec = Some v -> satisfies spec v
    | Err e => IsConst spec = true /\ exists v, checked_value args spec = Some v /\ ~ satisfies spec v /\ ErrName e = ArgName spec
    end).
  { destruct (IsConst spec) eqn:Hc.
    - pose proof (checkSpec_checks args spec Hc) as H. by destruct (checkSpec args spec).
    - unfold checkSpec. by rewrite Hc. }
  destruct (checkSpec args spec) as [[]|e].
  - destruct (checkSpecs _ specs) as [[]|e].
    + intros s v Hs Hc Hv. apply elem_of_cons in Hs as [->|Hs]; [by eapply Hh|by eapply IH].
    + destruct IH as (s & v & Hs & H). exists s, v. split; [by apply list_elem_of_further|done].
  - destruct Hh as (Hc & v & Hv & Hs & Hn). exists spec, v. split; [apply list_elem_of_here|done].
Qed.

(** ** What the function reads *)

(** How a function reads a constant: by declared position, or by name. *)
Definition const_key (spec : ArgSpec) : key :=
  if (0 <=? Position spec)%Z then KInt (Position spec) else KString (ArgName spec).

Lemma scalar_read {A} (convert : DataType -> option (cell -> option A)) refusal args k x :
  get_scalar convert refusal args k = Ok x ->
  exists arr value c, getColumn args k = Ok (Some arr) /\ IsNull arr 0 = false /\
    convert (ArrType arr) = Some value /\ Cells arr !! 0%nat = Some c /\ value c = Some x.
Proof.
  unfold get_scalar. intros H. destruct (getColumn args k) as [[arr|]|] eqn:Ec; [|done..].
  destruct (IsNull arr 0) eqn:En; [done|]. destruct (convert _) as [value|] eqn:Ev; [|done].
  destruct (Cells arr !! 0%nat) as [c|] eqn:Ecell; [|done]. destruct (value c) as [y|] eqn:Ey; [|done].
  injection H as <-. by exists arr, value, c.
Qed.

Lemma read_column_checked args spec arr c : getColumn args (const_key spec) = Ok (Some arr) ->
  IsNull arr 0 = false -> Cells arr !! 0%nat = Some c ->
  checked_value args spec = constScalarValue arr.
Proof.
  intros Hg Hn Hc. assert (column_value (Some arr) = constScalarValue arr) as Hv.
  { cbn. rewrite Hn. rewrite bool_decide_false; [done|]. apply lookup_lt_Some in Hc. unfold Len. lia. }
  unfold checked_value, const_key in *. destruct (0 <=? Position spec)%Z eqn:Ep.
  - unfold getColumn in Hg. destruct (_ && _); [|done]. injection Hg as Hg. by rewrite Hg.
  - unfold getColumn in Hg. unfold namedConstArg. destruct (Named args !! ArgName spec); [|done].
    by simplify_eq.
Qed.

Lemma int_satisfies_float spec n : satisfies spec (AInt64 n) -> satisfies spec (AFloat64 (float64_of_int n)).
Proof.
  intros [H1 H2 H3 H4 H5 _]. split; try done.
  destruct H5 as [H5|(c & Hc & H5)]; [by left|right]. exists c. split; [done|].
  destruct H5 as [[-> H5]|H5]; [done|by right].
Qed.

Lemma checkSpecs_in check specs spec : checkSpecs check specs = Ok () -> spec ∈ specs -> check spec = Ok ().
Proof.
  induction specs as [|s specs IH]; cbn; intros H Hs; [by apply not_elem_of_nil in Hs|].
  destruct (check s) as [[]|] eqn:E; [|done]. apply elem_of_cons in Hs as [->|Hs]; auto.
Qed.

(** Every scalar read of a declared constant has the declared property. *)
Definition reads_satisfy (args : Arguments) (spec : ArgSpec) : Prop :=
  (forall v, GetScalarInt64 args (const_key spec) = Ok v -> satisfies spec (AInt64 v)) /\
  (forall f, GetScalarFloat64 args (const_key spec) = Ok f -> satisfies spec (AFloat64 f)) /\
  (forall s, GetScalarString args (const_key spec) = Ok s -> satisfies spec (AString s)) /\
  (forall b, GetScalarBool args (const_key spec) = Ok b -> satisfies spec (ABool b)).
Lemma bindChecks_reads specs args args' inputSchema spec :
  bindChecks specs args inputSchema = Ok args' -> spec ∈ specs -> IsConst spec = true -> reads_satisfy args' spec.
Proof.
  unfold bindChecks. intros H Hs Hc. destruct (ValidateTypeBounds _ _); [|done].
  pose proof (checkSpec_checks (RemapPositionalArgs args specs) spec Hc) as Hk.
  destruct (ValidateArgConstraints specs (Some (RemapPositionalArgs args specs))) as [[]|] eqn:Ev; [|done].
  injection H as <-. cbn in Ev. rewrite (checkSpecs_in _ _ _ Ev Hs) in Hk. cbn in Hk.
  split_and!; intros x Hx;
    apply scalar_read in Hx as (arr & value & c & Hg & Hn & Hv & Hcell & Hx);
    rewrite (read_column_checked _ _ _ _ Hg Hn Hcell) in Hk;
    unfold constScalarValue in Hk; rewrite Hcell in Hk.
  - apply Hk. destruct (ArrType arr); try done; cbn in Hv; injection Hv as <-; by rewrite ?Hx;
      destruct (int_cell c); simplify_option_eq.
  - destruct (ArrType arr); try done; cbn in Hv; injection Hv as <-; destruct c; cbn in *; simplify_eq;
      try apply int_satisfies_float; by apply Hk.
  - apply Hk. destruct (ArrType arr) as [| | | | | | | | | | | | | | | | | | | | | | | | | | | | | | |i d o|]; try done; cbn in Hv; [injection Hv as <-; by rewrite Hx|].
    destruct d; injection Hv as <-; try done. by rewrite Hx.
  - apply Hk. destruct (ArrType arr); try done; cbn in Hv; injection Hv as <-; by rewrite Hx.
Qed.

(** What a function reads satisfies what it declares: when the checks of a
    bind pass, then for every constant the declaration names, by position
    (after remapping) or by name, an integer, float, string or boolean read of
    it returns a value within its range, among its choices and matching its
    pattern. *)
Theorem bound_reads_satisfy (specs : list ArgSpec) (args args' : Arguments)
    (inputSchema : option (list DataType)) (spec : ArgSpec) :
  bindChecks specs args inputSchema = Ok args' -> spec ∈ specs -> IsConst spec = true ->
  (forall v, GetScalarInt64 args' (const_key spec) = Ok v -> satisfies spec (AInt64 v)) /\
  (forall f, GetScalarFloat64 args' (const_key spec) = Ok f -> satisfies spec (AFloat64 f)) /\
  (forall s, GetScalarString args' (const_key spec) = Ok s -> satisfies spec (AString s)) /\
  (forall b, GetScalarBool args' (const_key spec) = Ok b -> satisfies spec (ABool b)).
Proof. apply bindChecks_reads. Qed.
End constraints.

(** ** Integer bounds *)

Lemma round53_big z : (2 ^ 53 <= z)%Z -> (2 ^ 53 <= round53 z)%Z.
Proof.
  intros H. unfold round53. rewrite Z.abs_eq, Z.sgn_pos by lia.
  pose proof (Z.log2_le_pow2 z 53 ltac:(lia)) as Hl. assert (53 <= Z.log2 z)%Z as Hk by tauto.
  rewrite Z.max_r by lia. set (k := Z.log2 z) in *. set (u := (2 ^ (k + 1 - 53))%Z).
  assert (0 < u)%Z as Hu by (unfold u; apply Z.pow_pos_nonneg; lia).
  assert (2 ^ k <= z)%Z as Hz by (apply Z.log2_spec; lia).
  assert (2 ^ k = 2 ^ 52 * u)%Z as Ek by (unfold u; rewrite <- Z.pow_add_r by lia; f_equal; lia).
  assert (2 ^ 52 <= z / u)%Z as Hq by (apply Z.div_le_lower_bound; lia).
  assert (2 ^ 53 <= 2 ^ k)%Z as H53 by (apply Z.pow_le_mono_r; lia).
  set (q := (z / u)%Z) in *. set (up := if _ : bool then 1%Z else 0%Z).
  assert (0 <= up)%Z by (unfold up; destruct (_ || _); lia).
  nia.
Qed.
Lemma round53_opp z : round53 (- z) = (- round53 z)%Z.
Proof. unfold round53. rewrite Z.abs_opp, Z.sgn_opp. lia. Qed.

(** Rounding does not move an integer across a bound of less than 54 bits. *)
Lemma round53_order z b : (Z.abs b < 2 ^ 53)%Z ->
  ((round53 z < b <-> z < b) /\ (b < round53 z <-> b < z))%Z.
Proof.
  intros Hb. destruct (Z_le_gt_dec (Z.abs z) (2 ^ 53)) as [Hz|Hz]; [by rewrite round53_small|].
  destruct (Z_lt_le_dec 0 z) as [Hs|Hs].
  - pose proof (round53_big z ltac:(lia)). lia.
  - pose proof (round53_big (- z) ltac:(lia)) as H. rewrite round53_opp in H. lia.
Qed.

Lemma float_int_order z b : (Z.abs b < 2 ^ 53)%Z ->
  float_lt (Finite (round53 z) 0) (Finite b 0) = (z <? b)%Z /\
  float_lt (Finite b 0) (Finite (round53 z) 0) = (b <? z)%Z /\
  float_le (Finite (round53 z) 0) (Finite b 0) = (z <=? b)%Z /\
  float_le (Finite b 0) (Finite (round53 z) 0) = (b <=? z)%Z.
Proof.
  intros Hb. pose proof (round53_order z b Hb). unfold float_le. cbn. rewrite !Z.mul_1_r. lia.
Qed.

(** A bound that is an integer, or absent. *)
Definition integer_bound (b : option float64) (n : option Z) : Prop :=
  b = (fun n => Finite n 0) <$> n /\ forall x, n = Some x -> (Z.abs x < 2 ^ 53)%Z.
Definition violates (n : option Z) (bad : Z -> bool) : bool :=
  match n with Some n => bad n | None => false end.

(** Integer arguments are compared exactly with integer bounds of at most 53
    bits, although the comparison goes through floats: for any int64 value, the
    check accepts it if and only if it is within the bounds as an integer, and
    a refusal names the first bound it violates in the order ge, le, gt, lt. *)
Theorem integer_bounds_exact MatchString (spec : ArgSpec) (ge le gt lt : option Z) (v : Z) :
  integer_bound (Ge spec) ge -> integer_bound (Le spec) le ->
  integer_bound (Gt spec) gt -> integer_bound (Lt spec) lt -> Choices spec = [] ->
  let refuse (d : float64 -> Detail) (n : option Z) :=
    Err {| ErrName := ArgName spec; ErrPosition := Position spec;
           ErrDetail := d (Finite (default 0%Z n) 0) |} in
  validateConstValue MatchString spec (AInt64 v) =
  if violates ge (fun n => v <? n)%Z then refuse MustBeGe ge else
  if violates le (fun n => n <? v)%Z then refuse MustBeLe le else
  if violates gt (fun n => v <=? n)%Z then refuse MustBeGt gt else
  if violates lt (fun n => n <=? v)%Z then refuse MustBeLt lt else Ok ().
Proof.
  intros [Ege Hge] [Ele Hle] [Egt Hgt] [Elt Hlt] Hc refuse.
  unfold validateConstValue, range_violation. cbn [toFloat mbind option_bind].
  unfold float64_of_int. rewrite Ege, Ele, Egt, Elt, Hc.
  destruct ge as [ge|]; cbn [fmap option_fmap option_map violates];
    [destruct (float_int_order v ge (Hge _ eq_refl)) as (-> & _); destruct (v <? ge)%Z; [done|]|];
  (destruct le as [le|]; cbn [fmap option_fmap option_map violates];
    [destruct (float_int_order v le (Hle _ eq_refl)) as (_ & -> & _); destruct (le <? v)%Z; [done|]|]);
  (destruct gt as [gt|]; cbn [fmap option_fmap option_map violates];
    [destruct (float_int_order v gt (Hgt _ eq_refl)) as (_ & _ & -> & _); destruct (v <=? gt)%Z; [done|]|]);
  (destruct lt as [lt|]; cbn [fmap option_fmap option_map violates];
    [destruct (float_int_order v lt (Hlt _ eq_refl)) as (_ & _ & _ & ->); destruct (lt <=? v)%Z; done|done]).
Qed.

(** ** Examples and witnesses *)

Definition no_regexp (pattern s : string) : option bool := None.
Definition no_floats (s : string) : option float64 := None.

(** A constant of a type with a range and choices. *)
Definition ranged (p : Z) (type : string) (ge le : option float64) (choices : list any) : ArgSpec :=
  {| ArgName := "n"; Position := p; ArrowType := type; IsConst := true; IsVarargs := false;
     HasDefault := false; DefaultValue := ""; ArrowDataType := None; TypeBound := []; Choices := choices;
     Ge := ge; Le := le; Gt := None; Lt := None; Pattern := "" |}.
Definition percent : ArgSpec := ranged 1 "int64" (Some (Finite 0 0)) (Some (Finite 100 0)) [].

(** The checked constant follows a column argument. *)
Lemma bound_reads_satisfy_witness :
  let specs := [declared "payload" 0 "any" false; percent] in
  let args' := RemapPositionalArgs (sent [ints 42]) specs in
  bindChecks no_regexp no_floats specs (sent [ints 42]) None = Ok args' /\
  satisfies no_regexp percent (AInt64 42) /\
  bindChecks no_regexp no_floats specs (sent [ints 101]) None =
    Err (BindArgument {| ErrName := "n"; ErrPosition := 1; ErrDetail := MustBeLe (Finite 100 0) |}).
Proof.
  intros specs args'. split; [reflexivity|]. split; [|reflexivity].
  destruct (bound_reads_satisfy no_regexp no_floats specs (sent [ints 42]) args' None percent) as (H & _).
  - reflexivity.
  - apply list_elem_of_further, list_elem_of_here.
  - reflexivity.
  - apply H. reflexivity.
Defined.

Lemma integer_bounds_exact_witness :
  validateConstValue no_regexp percent (AInt64 101) =
    Err {| ErrName := "n"; ErrPosition := 1; ErrDetail := MustBeLe (Finite 100 0) |} /\
  validateConstValue no_regexp percent (AInt64 100) = Ok ().
Proof.
  assert (H : forall n, integer_bound (Some (Finite n 0)) (Some n) \/ ~ (Z.abs n < 2 ^ 53)%Z).
  { intros n. destruct (Z_lt_dec (Z.abs n) (2 ^ 53)) as [Hn|Hn]; [left|by right].
    split; [reflexivity|]. intros x E. injection E as <-. exact Hn. }
  assert (integer_bound (Some (Finite 0 0)) (Some 0%Z)) as H0 by (destruct (H 0%Z); [assumption|lia]).
  assert (integer_bound (Some (Finite 100 0)) (Some 100%Z)) as H1 by (destruct (H 100%Z); [assumption|lia]).
  assert (integer_bound None None) as H2 by (split; [reflexivity|discriminate]).
  split.
  - exact (integer_bounds_exact no_regexp percent (Some 0%Z) (Some 100%Z) None None 101 H0 H1 H2 H2 eq_refl).
  - exact (integer_bounds_exact no_regexp percent (Some 0%Z) (Some 100%Z) None None 100 H0 H1 H2 H2 eq_refl).
Defined.

(** Beyond 53 bits a value is accepted above its bound. *)
Example rounded_bound :
  validateConstValue no_regexp (ranged 0 "int64" None (Some (Finite (2 ^ 53) 0)) []) (AInt64 (2 ^ 53 + 1)) = Ok ().
Proof. reflexivity. Qed.

(** The choices of an unsigned argument are parsed as uint64 and its value is
    read as int64: no value is ever one of the choices. *)
Example unsigned_choice_refused :
  let spec := ranged 0 "uint32" None None [parseChoiceValue no_floats "uint32" "3"] in
  checkSpec no_regexp no_floats (sent [{| ArrType := UINT32; Cells := [CInt 3] |}]) spec =
  Err {| ErrName := "n"; ErrPosition := 0; ErrDetail := MustBeOneOf [AUint64 3] |}.
Proof. vm_compute. reflexivity. Qed.

(** An unsigned value of 64 bits is compared as the negative number it wraps to. *)
Example unsigned_range_wraps :
  checkSpec no_regexp no_floats (sent [{| ArrType := UINT64; Cells := [CInt (2 ^ 63)] |}])
    (ranged 0 "uint64" (Some (Finite 0 0)) None []) =
  Err {| ErrName := "n"; ErrPosition := 0; ErrDetail := MustBeGe (Finite 0 0) |}.
Proof. vm_compute. reflexivity. Qed.
