(* ===== verification/Envelope.v ===== *)
(** * Opaque-data AEAD envelopes ([vgi/crypto.go])

    The XChaCha20-Poly1305 cipher is third-party code, a parameter [Aead] of
    the model with the laws of a deterministic AEAD; everything the worker
    builds around it (key normalisation, additional data, envelope layout,
    seal and open helpers of the worker) is defined here. *)

From S2P Require Import Prelude Bytes Sha256.

(** ** The cipher, [golang.org/x/crypto/chacha20poly1305]

    [aead_open_seal]: for a key, nonce and additional data, opening succeeds
    exactly on the sealings of the plaintext it returns: the tag and the
    keystream are functions of (key, nonce, additional data, plaintext). *)
Class Aead := {
  aead_seal : forall (key nonce aad plaintext : bytes), bytes;
  aead_open : forall (key nonce aad ciphertext : bytes), option bytes;
  aead_open_seal : forall key nonce aad p c,
    aead_open key nonce aad c = Some p <-> c = aead_seal key nonce aad p;
  aead_seal_length : forall key nonce aad p,
    length (aead_seal key nonce aad p) = length p + 16
}.

Section aead_laws.
Context `{Aead}.

Lemma aead_open_sealed key nonce aad p :
  aead_open key nonce aad (aead_seal key nonce aad p) = Some p.
Proof. by apply aead_open_seal. Qed.

Lemma aead_seal_inj key nonce aad p q :
  aead_seal key nonce aad p = aead_seal key nonce aad q -> p = q.
Proof.
  intros E. pose proof (aead_open_sealed key nonce aad p) as O.
  rewrite E, aead_open_sealed in O. by injection O.
Qed.

(** No sealing under one additional data of [A] is a sealing under another:
    what the authentication tag is for, restricted to the data in use. *)
Definition aead_separates (key : bytes) (A : list bytes) : Prop :=
  forall nonce a1 a2 p1 p2, a1 ∈ A -> a2 ∈ A ->
    aead_seal key nonce a1 p1 = aead_seal key nonce a2 p2 -> a1 = a2.
End aead_laws.

(** A concrete cipher for witnesses: the plaintext followed by 16 bytes of
    the digest of the additional data. *)
Module DigestAead.
Definition tag (aad : bytes) : bytes := take 16 (Sha256.Sum256 aad).
Definition seal (key nonce aad p : bytes) : bytes := p ++ tag aad.
Definition open (key nonce aad c : bytes) : option bytes :=
  let n := length c - 16 in
  if decide (c = take n c ++ tag aad) then Some (take n c) else None.

Lemma length_tag aad : length (tag aad) = 16.
Proof. unfold tag. by rewrite length_take, Sha256.length_Sum256. Qed.

Lemma open_seal key nonce aad p c :
  open key nonce aad c = Some p <-> c = seal key nonce aad p.
Proof.
  unfold open, seal. split.
  - case_decide as E; [|done]. intros [= <-]. done.
  - intros ->. rewrite length_app, length_tag.
    replace (length p + 16 - 16) with (length p) by lia.
    rewrite take_app_length. by rewrite decide_True.
Qed.

Lemma seal_length key nonce aad p : length (seal key nonce aad p) = length p + 16.
Proof. unfold seal. by rewrite length_app, length_tag. Qed.

#[export] Instance digest_aead : Aead :=
  {| aead_seal := seal; aead_open := open;
     aead_open_seal := open_seal; aead_seal_length := seal_length |}.

Lemma separates key (A : list bytes) :
  (forall a1 a2, a1 ∈ A -> a2 ∈ A -> tag a1 = tag a2 -> a1 = a2) ->
  @aead_separates digest_aead key A.
Proof.
  intros HA nonce a1 a2 p1 p2 H1 H2 E. apply HA; [done..|].
  cbn in E. unfold seal in E.
  apply app_inj_2 in E; [tauto|]. by rewrite !length_tag.
Qed.
End DigestAead.

(** ** Constants *)

Definition attachEnvelopeVersion : byte := x02.
Definition transactionEnvelopeVersion : byte := x02.
Definition attachUUIDLen : nat := 16.
Definition cryptoNonceLen : nat := 24.
Definition cryptoTagLen : nat := 16.
Definition cryptoMinLen : nat := 1 + cryptoNonceLen + cryptoTagLen.

Definition attachAADPrefix : bytes := sb "vgi.attach_opaque_data.v1" ++ [x00].
Definition transactionAADPrefix : bytes := sb "vgi.transaction_opaque_data.v1" ++ [x00].

(** ** Errors *)

Inductive envelope_error :=
| errOpaqueDataRejected
| NonceLength        (* "opaque-data nonce must be 24 bytes" *)
| NonceRand          (* crypto/rand failed *)
| CipherKey.         (* chacha20poly1305.NewX refused the key *)

#[global] Instance envelope_error_dec : EqDecision envelope_error.
Proof. solve_decision. Defined.

(** ** Identity and additional data *)

Record AuthContext := {
  Authenticated : bool;
  Domain : string;
  Principal : string
}.
#[global] Instance AuthContext_dec : EqDecision AuthContext.
Proof. solve_decision. Defined.

Definition normalizeCryptoKey (key : bytes) : bytes :=
  if decide (length key = 32) then key else Sha256.Sum256 key.

Definition anonymousTail : bytes := x00 :: sb "anonymous".

Definition identityTail (auth : option AuthContext) : bytes :=
  match auth with
  | None => anonymousTail
  | Some a =>
      if Authenticated a then
        x01 :: sb (Domain a) ++ x00 :: sb (Principal a)
      else anonymousTail
  end.

Definition attachAAD (auth : option AuthContext) : bytes :=
  attachAADPrefix ++ identityTail auth.

Definition transactionAAD (auth : option AuthContext) (attachEnvelope : bytes) : bytes :=
  transactionAADPrefix ++ identityTail auth ++ x00 :: attachEnvelope.

Arguments attachAAD : simpl never.
Arguments transactionAAD : simpl never.
Arguments normalizeCryptoKey : simpl never.

(** ** Sealing and opening *)

Section envelope.
Context `{Aead}.

Definition sealBytesWithNonce (payload key aad : bytes) (version : byte)
    (nonce : bytes) : result envelope_error bytes :=
  check! bool_decide (length nonce = cryptoNonceLen) else NonceLength in
  check! bool_decide (length (normalizeCryptoKey key) = 32) else CipherKey in
  let ciphertext := aead_seal (normalizeCryptoKey key) nonce aad payload in
  Ok (version :: nonce ++ ciphertext).

(** [rand] is what [crypto/rand] gives for the nonce, or its failure. *)
Definition sealBytes (payload key aad : bytes) (version : byte)
    (rand : option bytes) : result envelope_error bytes :=
  match rand with
  | None => Err NonceRand
  | Some nonce => sealBytesWithNonce payload key aad version nonce
  end.

Definition openBytes (token key aad : bytes) (version : byte)
    : result envelope_error bytes :=
  if bool_decide (length token < cryptoMinLen)
     || negb (bool_decide (token !! 0 = Some version))
  then Err errOpaqueDataRejected else
  check! bool_decide (length (normalizeCryptoKey key) = 32) else CipherKey in
  let nonce := slice token 1 (1 + cryptoNonceLen) in
  let ciphertext := drop (1 + cryptoNonceLen) token in
  match aead_open (normalizeCryptoKey key) nonce aad ciphertext with
  | None => Err errOpaqueDataRejected
  | Some plaintext => Ok plaintext
  end.

End envelope.

(** ** Key normalisation and the shape of envelopes *)

Lemma normalizeCryptoKey_length key : length (normalizeCryptoKey key) = 32.
Proof.
  unfold normalizeCryptoKey. case_decide; [done|]. apply Sha256.length_Sum256.
Qed.

Section envelope_lemmas.
Context `{Aead}.

Lemma sealBytesWithNonce_ok payload key aad version nonce :
  length nonce = 24 ->
  sealBytesWithNonce payload key aad version nonce =
    Ok (version :: nonce ++ aead_seal (normalizeCryptoKey key) nonce aad payload).
Proof.
  intros Hn. unfold sealBytesWithNonce.
  rewrite !bool_decide_true by auto using normalizeCryptoKey_length. done.
Qed.

Lemma sealBytesWithNonce_inv payload key aad version nonce env :
  sealBytesWithNonce payload key aad version nonce = Ok env ->
  length nonce = 24 /\
  env = version :: nonce ++ aead_seal (normalizeCryptoKey key) nonce aad payload.
Proof. unfold sealBytesWithNonce. intros E. inv_ok. by bool_hyps. Qed.

Lemma openBytes_iff token key aad version p :
  openBytes token key aad version = Ok p <->
  exists nonce, length nonce = 24 /\
    token = version :: nonce ++ aead_seal (normalizeCryptoKey key) nonce aad p.
Proof.
  unfold openBytes. split.
  - intros E. destruct token as [|v rest]; [done|].
    break_if; [done|]. bool_hyps. cbn [length lookup list_lookup] in *.
    match goal with H : Some _ = Some _ |- _ => injection H as -> end.
    unfold cryptoMinLen, cryptoNonceLen, cryptoTagLen in *.
    rewrite bool_decide_true in E by apply normalizeCryptoKey_length.
    destruct (aead_open _ _ _ _) as [q|] eqn:O; [|done]. injection E as ->.
    apply aead_open_seal in O. unfold slice in O. cbn in O.
    exists (take 24 rest). rewrite length_take. split; [lia|].
    rewrite drop_0 in O. rewrite <- O. by rewrite take_drop.
  - intros (nonce & Hn & ->). cbn [length lookup list_lookup].
    rewrite length_app, aead_seal_length, Hn.
    rewrite bool_decide_false
      by (unfold cryptoMinLen, cryptoNonceLen, cryptoTagLen; lia).
    rewrite !bool_decide_true by auto using normalizeCryptoKey_length. cbn.
    unfold slice. cbn. rewrite drop_0, take_app_exact, drop_app_exact by done.
    by rewrite aead_open_sealed.
Qed.

Lemma openBytes_err token key aad version e :
  openBytes token key aad version = Err e -> e = errOpaqueDataRejected.
Proof.
  unfold openBytes. rewrite (bool_decide_true (length _ = 32))
    by apply normalizeCryptoKey_length.
  intros E. repeat break_match; by inv_ok.
Qed.

Lemma openBytes_seal payload key aad version nonce env :
  sealBytesWithNonce payload key aad version nonce = Ok env ->
  openBytes env key aad version = Ok payload.
Proof.
  intros E. apply sealBytesWithNonce_inv in E as [Hn ->].
  apply openBytes_iff. eauto.
Qed.

(** An envelope opened under other additional data of [A] is rejected. *)
Lemma openBytes_wrong_aad payload key a1 a2 version nonce env (A : list bytes) :
  aead_separates (normalizeCryptoKey key) A ->
  a1 ∈ A -> a2 ∈ A -> a1 ≠ a2 ->
  sealBytesWithNonce payload key a1 version nonce = Ok env ->
  openBytes env key a2 version = Err errOpaqueDataRejected.
Proof.
  intros Hs H1 H2 Hne E. apply sealBytesWithNonce_inv in E as [Hn ->].
  destruct (openBytes _ _ _ _) as [p|e] eqn:O; [|by apply openBytes_err in O as ->].
  apply openBytes_iff in O as (nonce' & Hn' & E). injection E as E.
  apply app_inj_len in E as [<- E]; [|congruence].
  exfalso. eauto.
Qed.

End envelope_lemmas.

(** ** Identities, and what the additional data tells apart *)

(** The identity an envelope is bound to. *)
Definition identity (auth : option AuthContext) : option (string * string) :=
  match auth with
  | Some a => if Authenticated a then Some (Domain a, Principal a) else None
  | None => None
  end.

(** The domain of an authenticated caller holds no NUL. *)
Definition domain_ok (auth : option AuthContext) : Prop :=
  match identity auth with Some (d, _) => x00 ∉ sb d | None => True end.
(** Nor does its principal. *)
Definition principal_ok (auth : option AuthContext) : Prop :=
  match identity auth with Some (_, p) => x00 ∉ sb p | None => True end.

#[global] Instance domain_ok_dec a : Decision (domain_ok a).
Proof. unfold domain_ok. destruct (identity a) as [[? ?]|]; apply _. Defined.
#[global] Instance principal_ok_dec a : Decision (principal_ok a).
Proof. unfold principal_ok. destruct (identity a) as [[? ?]|]; apply _. Defined.

Lemma identityTail_identity a b :
  identity a = identity b -> identityTail a = identityTail b.
Proof.
  destruct a as [[[] ? ?]|], b as [[[] ? ?]|]; cbn; intros E; try done; by simplify_eq.
Qed.

Lemma identityTail_inj a b :
  domain_ok a -> domain_ok b -> identityTail a = identityTail b ->
  identity a = identity b.
Proof.
  unfold domain_ok.
  destruct a as [[[] d p]|], b as [[[] d' p']|]; cbn; intros Ha Hb E; try done.
  injection E as E. apply nul_split in E as [E1 E2]; [|done..].
  by apply sb_inj in E1 as ->; apply sb_inj in E2 as ->.
Qed.

Lemma attachAAD_inj a b :
  domain_ok a -> domain_ok b -> attachAAD a = attachAAD b ->
  identity a = identity b.
Proof.
  intros Ha Hb E. unfold attachAAD in E. simplify_list_eq.
  by apply identityTail_inj.
Qed.

Lemma transactionAAD_inj a b ea eb :
  domain_ok a -> domain_ok b -> principal_ok a -> principal_ok b ->
  transactionAAD a ea = transactionAAD b eb ->
  identity a = identity b /\ ea = eb.
Proof.
  unfold transactionAAD, domain_ok, principal_ok. intros Da Db Pa Pb E.
  apply app_inj_1 in E as [_ E]; [|done].
  destruct a as [[[] d p]|], b as [[[] d' p']|]; cbn in *; try done;
    try (by simplify_eq/=).
  injection E as E. rewrite <- !app_assoc in E. cbn in E.
  apply nul_split in E as [E1 E]; [|done..].
  apply nul_split in E as [E2 ->]; [|done..].
  by apply sb_inj in E1 as ->; apply sb_inj in E2 as ->.
Qed.

(** Attach and transaction envelopes are never bound to the same data. *)
Lemma attach_transaction_disjoint a b e : attachAAD a ≠ transactionAAD b e.
Proof. unfold attachAAD, transactionAAD. cbn. congruence. Qed.

(** ** The worker's seal and open helpers *)

(** The fields of [Worker] the opaque-data helpers read. *)
Record SealState := {
  sealOpaqueData : bool;
  httpSigningKey : bytes;
  signingKeyConfigured : bool
}.

(** The call context: the caller, and the attachment scope
    [unwrapReqOpaque] records in it. *)
Record CallContext := {
  cc_Auth : option AuthContext;
  cc_attachmentScope : option string
}.

Inductive opaque_field := FieldAttach | FieldTransaction.
#[global] Instance opaque_field_dec : EqDecision opaque_field.
Proof. solve_decision. Defined.

(** What a helper can fail with: the uniform rejection of a field
    ([attachRejected], [transactionRejected]), a sealing failure, or the nil
    dereference of [cc.Auth] in [sealAttach]. *)
Inductive opaque_error :=
| Rejected (f : opaque_field)
| SealFailed (e : envelope_error)
| UuidRand
| NilContext.
#[global] Instance opaque_error_dec : EqDecision opaque_error.
Proof. solve_decision. Defined.

Definition attachRejected : opaque_error := Rejected FieldAttach.
Definition transactionRejected : opaque_error := Rejected FieldTransaction.

Definition lift_env {A} (r : result envelope_error A) : result opaque_error A :=
  match r with Ok a => Ok a | Err e => Err (SealFailed e) end.

Section worker.
Context `{Aead}.

Definition callAuth (cc : option CallContext) : option AuthContext :=
  match cc with None => None | Some cc => cc_Auth cc end.

Definition sealAttach (w : SealState) (plaintext : bytes) (cc : option CallContext)
    (rand : option bytes) : result opaque_error bytes :=
  if negb (sealOpaqueData w) then Ok plaintext else
  match cc with
  | None => Err NilContext
  | Some c =>
      lift_env (sealBytes plaintext (httpSigningKey w) (attachAAD (cc_Auth c))
                  attachEnvelopeVersion rand)
  end.

Definition openAttachFull (w : SealState) (envelope : bytes) (cc : option CallContext)
    : result opaque_error bytes :=
  if negb (sealOpaqueData w) then Ok envelope else
  match openBytes envelope (httpSigningKey w) (attachAAD (callAuth cc))
          attachEnvelopeVersion with
  | Err _ => Err attachRejected
  | Ok plain => Ok plain
  end.

(** [uuid] is what [uuid.NewRandom] gives. *)
Definition mintAttach (w : SealState) (catalogBytes : bytes) (cc : option CallContext)
    (uuid rand : option bytes) : result opaque_error bytes :=
  match uuid with
  | None => Err UuidRand
  | Some u => sealAttach w (u ++ catalogBytes) cc rand
  end.

Definition sealTransaction (w : SealState) (plaintext attachEnvelope : bytes)
    (cc : option CallContext) (rand : option bytes) : result opaque_error bytes :=
  if negb (sealOpaqueData w) then Ok plaintext else
  lift_env (sealBytes plaintext (httpSigningKey w)
              (transactionAAD (callAuth cc) attachEnvelope)
              transactionEnvelopeVersion rand).

Definition openAttach (w : SealState) (envelope : bytes) (cc : option CallContext)
    : result opaque_error bytes :=
  let? full := openAttachFull w envelope cc in
  if bool_decide (length full < attachUUIDLen) then Ok full
  else Ok (drop attachUUIDLen full).

Definition openTransaction (w : SealState) (envelope attachEnvelope : bytes)
    (cc : option CallContext) : result opaque_error bytes :=
  if negb (sealOpaqueData w) then Ok envelope else
  match openBytes envelope (httpSigningKey w)
          (transactionAAD (callAuth cc) attachEnvelope)
          transactionEnvelopeVersion with
  | Err _ => Err transactionRejected
  | Ok plain => Ok plain
  end.

(** The opaque fields of a catalog request, as reflection finds them: [None]
    when the request type has no such field, or its pointer is nil. *)
Record OpaqueReq := {
  AttachOpaqueData : option bytes;
  TransactionOpaqueData : option bytes
}.

Definition attachmentScope (sealedAttach : bytes) : string :=
  "attachment:" +:+ hex_encode (Sha256.Sum256 sealedAttach).

Definition sealedAttachOf (req : OpaqueReq) : bytes :=
  default [] (AttachOpaqueData req).

Definition unwrapReqOpaque (w : SealState) (req : OpaqueReq) (cc : option CallContext)
    : result opaque_error (OpaqueReq * option CallContext) :=
  let sealedAttach := sealedAttachOf req in
  let? (req1, cc1) :=
    (match sealedAttach with
     | [] => Ok (req, cc)
     | _ :: _ =>
         let? plain := openAttach w sealedAttach cc in
         Ok ({| AttachOpaqueData := Some plain;
                TransactionOpaqueData := TransactionOpaqueData req |},
             (fun c => {| cc_Auth := cc_Auth c;
                          cc_attachmentScope := Some (attachmentScope sealedAttach) |})
               <$> cc)
     end) in
  if negb (sealOpaqueData w) then Ok (req1, cc1) else
  match TransactionOpaqueData req1 with
  | None => Ok (req1, cc1)
  | Some tx =>
      let? plain := openTransaction w tx sealedAttach cc1 in
      Ok ({| AttachOpaqueData := AttachOpaqueData req1;
             TransactionOpaqueData := Some plain |}, cc1)
  end.

(** [sealTransactionResult] on a [TransactionBeginResponseWire], whose value
    may be nil; every other result type passes through. *)
Definition sealTransactionResult (w : SealState) (tb : option bytes)
    (sealedAttach : bytes) (cc : option CallContext) (rand : option bytes)
    : result opaque_error (option bytes) :=
  match tb with
  | None => Ok None
  | Some v => let? sealed := sealTransaction w v sealedAttach cc rand in Ok (Some sealed)
  end.

(** [unaryCatalog]'s recorded method: open the fields, then run the handler. *)
Definition recordedMethod {R E} (inj : opaque_error -> E) (w : SealState)
    (handler : option CallContext -> OpaqueReq -> result E R)
    (cc : option CallContext) (req : OpaqueReq) : result E R :=
  match unwrapReqOpaque w req cc with
  | Err e => Err (inj e)
  | Ok (req', cc') => handler cc' req'
  end.

End worker.

Section worker_lemmas.
Context `{Aead}.

Lemma mintAttach_inv w cat cc u rand env :
  mintAttach w cat cc (Some u) rand = Ok env ->
  if sealOpaqueData w then
    exists c nonce, cc = Some c /\ rand = Some nonce /\ length nonce = 24 /\
      env = attachEnvelopeVersion :: nonce ++
        aead_seal (normalizeCryptoKey (httpSigningKey w)) nonce
          (attachAAD (cc_Auth c)) (u ++ cat)
  else env = u ++ cat.
Proof.
  unfold mintAttach, sealAttach. destruct (sealOpaqueData w); cbn; [|by intros [= <-]].
  destruct cc as [c|]; [|done]. destruct rand as [nonce|]; cbn; [|done].
  intros E. destruct (sealBytesWithNonce _ _ _ _ _) eqn:Es; [|done].
  apply sealBytesWithNonce_inv in Es as [Hn ->]. cbn in E. injection E as <-.
  by exists c, nonce.
Qed.

(** Opening what was minted for the same caller gives back uuid and bytes. *)
Lemma openAttachFull_mint w cat cc u rand env :
  mintAttach w cat cc (Some u) rand = Ok env ->
  openAttachFull w env cc = Ok (u ++ cat).
Proof.
  intros E. apply mintAttach_inv in E. unfold openAttachFull.
  destruct (sealOpaqueData w); cbn; [|congruence].
  destruct E as (c & nonce & -> & -> & Hn & ->).
  by rewrite (proj2 (openBytes_iff _ _ _ _ (u ++ cat))) by eauto.
Qed.

Lemma openAttach_mint w cat cc u rand env :
  length u = 16 -> mintAttach w cat cc (Some u) rand = Ok env ->
  openAttach w env cc = Ok cat.
Proof.
  intros Hu E. unfold openAttach. rewrite (openAttachFull_mint _ _ _ _ _ _ E).
  rewrite length_app, bool_decide_false by (unfold attachUUIDLen; lia).
  by rewrite drop_app_exact.
Qed.

Lemma mintAttach_nonempty w cat cc u rand env :
  length u = 16 -> mintAttach w cat cc (Some u) rand = Ok env ->
  exists b env', env = b :: env'.
Proof.
  intros Hu E. apply mintAttach_inv in E. destruct (sealOpaqueData w).
  - destruct E as (? & ? & ? & ? & ? & ->). eauto.
  - subst env. destruct u; [done|]. cbn. eauto.
Qed.

Lemma openTransaction_seal w v att cc rand env :
  sealTransaction w v att cc rand = Ok env -> openTransaction w env att cc = Ok v.
Proof.
  unfold sealTransaction, openTransaction.
  destruct (sealOpaqueData w); cbn; [|by intros [= <-]].
  destruct rand as [nonce|]; cbn; [|done]. intros E.
  destruct (sealBytesWithNonce _ _ _ _ _) eqn:Es; [|done]. cbn in E.
  injection E as <-. by rewrite (openBytes_seal _ _ _ _ _ _ Es).
Qed.

Lemma openAttachFull_rejects w env cc e :
  openAttachFull w env cc = Err e -> e = attachRejected.
Proof. unfold openAttachFull. intros E. repeat break_match; by inv_ok. Qed.

End worker_lemmas.

(** ** Properties *)

Section properties.
Context `{Aead}.

(** [openBytes] returns a plaintext exactly for the envelopes
    [version || nonce(24) || sealing of that plaintext] under the normalised
    key and the given additional data, and every other token fails with the
    one uniform error, so no failure can be told from another. *)
Theorem openBytes_exact token key aad version :
  (forall p, openBytes token key aad version = Ok p <->
     exists nonce, length nonce = 24 /\
       token = version :: nonce ++ aead_seal (normalizeCryptoKey key) nonce aad p) /\
  ((forall p, openBytes token key aad version <> Ok p) <->
     openBytes token key aad version = Err errOpaqueDataRejected).
Proof.
  split; [intros p; apply openBytes_iff|]. split.
  - intros Hn. destruct (openBytes _ _ _ _) as [p|e] eqn:E.
    + by destruct (Hn p).
    + by apply openBytes_err in E as ->.
  - intros ->. done.
Qed.

Lemma openAttach_identity w cat c cc' u nonce env :
  sealOpaqueData w = true -> length u = 16 ->
  domain_ok (cc_Auth c) -> domain_ok (callAuth cc') ->
  aead_separates (normalizeCryptoKey (httpSigningKey w))
    [attachAAD (cc_Auth c); attachAAD (callAuth cc')] ->
  mintAttach w cat (Some c) (Some u) (Some nonce) = Ok env ->
  openAttach w env cc' =
    if decide (identity (cc_Auth c) = identity (callAuth cc')) then Ok cat
    else Err attachRejected.
Proof.
  intros Hs Hu Hd Hd' Hsep E. pose proof E as E0. case_decide as Hi.
  - apply (openAttach_mint w cat (Some c) u (Some nonce) env Hu) in E0.
    unfold openAttach, openAttachFull in *. cbn in E0.
    unfold attachAAD in *. by rewrite <- (identityTail_identity _ _ Hi).
  - apply mintAttach_inv in E. rewrite Hs in E.
    destruct E as (? & ? & [= <-] & [= <-] & Hn & ->).
    unfold openAttach, openAttachFull. rewrite Hs; cbn [negb].
    rewrite (openBytes_wrong_aad (u ++ cat) _ (attachAAD (cc_Auth c)) _ _ nonce _ _ Hsep);
      [done|set_solver|set_solver| |by apply sealBytesWithNonce_ok].
    intros Heq. by apply Hi, attachAAD_inj.
Qed.

(** C7: on a sealing transport an attach value opens for the identity
    (authenticated domain and principal, or anonymous) it was minted for and
    is rejected for every other one, whatever catalog bytes it carries. *)
Theorem attach_bound_to_identity w cat c cc' u nonce env :
  sealOpaqueData w = true -> length u = 16 ->
  domain_ok (cc_Auth c) -> domain_ok (callAuth cc') ->
  aead_separates (normalizeCryptoKey (httpSigningKey w))
    [attachAAD (cc_Auth c); attachAAD (callAuth cc')] ->
  mintAttach w cat (Some c) (Some u) (Some nonce) = Ok env ->
  openAttach w env cc' =
    if decide (identity (cc_Auth c) = identity (callAuth cc')) then Ok cat
    else Err attachRejected.
Proof. apply openAttach_identity. Qed.

(** C32: a transaction value opens only for the identity it was sealed for and
    only under the very attach envelope its request carried; any other caller
    or attach is rejected. *)
Theorem transaction_bound_to_attach w v att att' cc cc' nonce env :
  sealOpaqueData w = true ->
  domain_ok (callAuth cc) -> domain_ok (callAuth cc') ->
  principal_ok (callAuth cc) -> principal_ok (callAuth cc') ->
  aead_separates (normalizeCryptoKey (httpSigningKey w))
    [transactionAAD (callAuth cc) att; transactionAAD (callAuth cc') att'] ->
  sealTransaction w v att cc (Some nonce) = Ok env ->
  openTransaction w env att' cc' =
    if decide (identity (callAuth cc) = identity (callAuth cc') /\ att = att')
    then Ok v else Err transactionRejected.
Proof.
  intros Hs D D' P P' Hsep E. unfold sealTransaction in E.
  unfold openTransaction. rewrite Hs in *; cbn in E |- *.
  destruct (sealBytesWithNonce _ _ _ _ _) as [e|] eqn:Es; [|done].
  cbn in E; injection E as <-. case_decide as Hi.
  - destruct Hi as [Hi <-]. unfold transactionAAD in *.
    rewrite <- (identityTail_identity _ _ Hi).
    by rewrite (openBytes_seal _ _ _ _ _ _ Es).
  - rewrite (openBytes_wrong_aad v _ (transactionAAD (callAuth cc) att) _ _ nonce _ _ Hsep);
      [done|set_solver..| |done].
    intros Heq. by apply Hi, transactionAAD_inj.
Qed.

(** on any transport, a request that carries the attach value minted for
    its caller and the transaction value sealed under it reaches the handler
    with the catalog's own bytes and the transaction's plaintext. *)
Theorem request_round_trip {R E} (inj : opaque_error -> E) w
    (handler : option CallContext -> OpaqueReq -> result E R) cc u cat v
    r1 r2 att tx :
  length u = 16 ->
  mintAttach w cat cc (Some u) r1 = Ok att ->
  sealTransactionResult w (Some v) att cc r2 = Ok (Some tx) ->
  recordedMethod inj w handler cc
    {| AttachOpaqueData := Some att; TransactionOpaqueData := Some tx |} =
  handler
    ((fun c => {| cc_Auth := cc_Auth c;
                  cc_attachmentScope := Some (attachmentScope att) |}) <$> cc)
    {| AttachOpaqueData := Some cat; TransactionOpaqueData := Some v |}.
Proof.
  intros Hu Em Es. unfold sealTransactionResult in Es.
  destruct (sealTransaction _ _ _ _ _) as [tx'|] eqn:Et; [|done].
  injection Es as ->.
  destruct (mintAttach_nonempty _ _ _ _ _ _ Hu Em) as (b & e & He).
  pose proof (openAttach_mint _ _ _ _ _ _ Hu Em) as Ho.
  apply openTransaction_seal in Et.
  unfold recordedMethod, unwrapReqOpaque, sealedAttachOf. cbn.
  rewrite He in Ho, Et |- *. cbn. rewrite Ho. cbn.
  destruct (sealOpaqueData w) eqn:Hw; cbn.
  - unfold openTransaction in *. rewrite Hw in *. cbn in *.
    replace (callAuth (_ <$> cc)) with (callAuth cc) by by destruct cc.
    by rewrite Et.
  - unfold openTransaction in Et. rewrite Hw in Et. cbn in Et. by injection Et as ->.
Qed.

(** on a sealing transport there is no plaintext fallback: a nonempty
    attach value that is not an envelope of this worker for this caller is
    rejected before the handler, whatever the handler is and whatever shape
    the value has. *)
Theorem no_plaintext_fallback {R E} (inj : opaque_error -> E) w
    (handler : option CallContext -> OpaqueReq -> result E R) cc req :
  sealOpaqueData w = true ->
  sealedAttachOf req <> [] ->
  (forall nonce full, length nonce = 24 -> sealedAttachOf req <>
     attachEnvelopeVersion :: nonce ++
       aead_seal (normalizeCryptoKey (httpSigningKey w)) nonce
         (attachAAD (callAuth cc)) full) ->
  recordedMethod inj w handler cc req = Err (inj attachRejected).
Proof.
  intros Hs Hne Hno. unfold recordedMethod, unwrapReqOpaque.
  destruct (sealedAttachOf req) as [|b rest]; [done|].
  unfold openAttach, openAttachFull. rewrite Hs; cbn [negb].
  destruct (openBytes _ _ _ _) as [p|e] eqn:O; [|done].
  apply openBytes_iff in O as (n & Hn & E1). by destruct (Hno n p Hn E1).
Qed.

End properties.

(** ** Witnesses, on the concrete cipher *)

#[local] Existing Instance DigestAead.digest_aead.

Module EnvelopeExamples.
Definition alice := {| Authenticated := true; Domain := "jwt"; Principal := "alice" |}.
Definition bob := {| Authenticated := true; Domain := "jwt"; Principal := "bob" |}.
Definition ctx a := {| cc_Auth := a; cc_attachmentScope := None |}.
Definition worker := {| sealOpaqueData := true; httpSigningKey := sb "k";
                        signingKeyConfigured := true |}.
Definition nonce : bytes := repeat x07 24.
Definition uuid : bytes := repeat x01 16.
Definition minted : bytes :=
  match mintAttach worker (sb "cat") (Some (ctx (Some alice))) (Some uuid) (Some nonce)
  with Ok e => e | Err _ => [] end.
Definition sealedTx : bytes :=
  match sealTransaction worker (sb "t1") minted (Some (ctx (Some alice))) (Some nonce)
  with Ok e => e | Err _ => [] end.
End EnvelopeExamples.

(** Decides the separation of two concrete additional data. *)
Ltac solve_separates :=
  apply DigestAead.separates;
  let Ha := fresh in let Hb := fresh in
  intros ? ? Ha Hb;
  repeat (apply elem_of_cons in Ha as [->|Ha] || (apply elem_of_nil in Ha; contradiction Ha));
  repeat (apply elem_of_cons in Hb as [->|Hb] || (apply elem_of_nil in Hb; contradiction Hb));
  vm_compute; first [reflexivity | discriminate | intros; reflexivity].
Ltac solve_nul_free := apply (bool_decide_unpack _); vm_compute; exact I.

Import EnvelopeExamples.

Lemma attach_bound_to_identity_witness :
  openAttach worker minted (Some (ctx (Some bob))) = Err attachRejected.
Proof.
  exact (attach_bound_to_identity (H := DigestAead.digest_aead) worker (sb "cat") (ctx (Some alice))
    (Some (ctx (Some bob))) uuid nonce minted eq_refl eq_refl
    ltac:(solve_nul_free) ltac:(solve_nul_free) ltac:(solve_separates)
    ltac:(vm_compute; reflexivity)).
Defined.

Lemma transaction_bound_to_attach_witness :
  openTransaction worker sealedTx (sb "other") (Some (ctx (Some alice)))
  = Err transactionRejected.
Proof.
  exact (transaction_bound_to_attach (H := DigestAead.digest_aead) worker (sb "t1") minted (sb "other")
    (Some (ctx (Some alice))) (Some (ctx (Some alice))) nonce sealedTx eq_refl
    ltac:(solve_nul_free) ltac:(solve_nul_free) ltac:(solve_nul_free)
    ltac:(solve_nul_free) ltac:(solve_separates) ltac:(vm_compute; reflexivity)).
Defined.

Lemma request_round_trip_witness :
  exists r, recordedMethod (E := opaque_error) (fun e => e) worker
    (fun _ q => Ok (AttachOpaqueData q, TransactionOpaqueData q))
    (Some (ctx (Some alice)))
    {| AttachOpaqueData := Some minted; TransactionOpaqueData := Some sealedTx |} = r /\
    r = Ok (Some (sb "cat"), Some (sb "t1")).
Proof.
  eexists; split;
    [exact (request_round_trip (H := DigestAead.digest_aead) (fun e => e) worker
      (fun _ q => Ok (AttachOpaqueData q, TransactionOpaqueData q))
      (Some (ctx (Some alice))) uuid (sb "cat") (sb "t1") (Some nonce) (Some nonce)
      minted sealedTx eq_refl ltac:(vm_compute; reflexivity)
      ltac:(vm_compute; reflexivity))
    | reflexivity].
Defined.

Lemma no_plaintext_fallback_witness :
  recordedMethod (R := unit) (fun e => e) worker (fun _ _ => Ok tt) None
    {| AttachOpaqueData := Some (sb "plain catalog bytes");
       TransactionOpaqueData := None |} = Err attachRejected.
Proof.
  apply (no_plaintext_fallback (fun e => e) worker (fun _ _ => Ok tt) None
    {| AttachOpaqueData := Some (sb "plain catalog bytes");
       TransactionOpaqueData := None |} eq_refl).
  - discriminate.
  - intros n full _ E. cbn in E. discriminate E.
Defined.
