(* ===== verification/SplitToken.v ===== *)
(** * Split tokens ([vgi/split_token.go], the stamping step of [vgi/protocol.go])

    The envelope around a worker's split payload: header layout, fingerprint,
    minting, verification in its order of checks, and the worker's stamping
    and redemption of a whole plan. *)

From S2P Require Import Prelude Bytes Sha256 Envelope.

(** ** Constants *)

Definition SplitTokenFormatVersion : byte := x01.
Definition splitFlagPayloadSealed : byte := x01.
Definition splitReservedFlagsMask : Z := 0xFE.
Definition splitFingerprintLen : nat := 16.
Definition splitHeaderLen : nat := 4 + splitFingerprintLen.
Definition splitSealVersion : byte := x01.
Definition splitAADPrefix : bytes := sb "vgi.split_token.v1" ++ [x00].

(** ** Errors: the stable kind, and the message's case *)

Inductive split_kind := SPLIT_TOKEN_INVALID | SPLIT_SNAPSHOT_EXPIRED.

Inductive split_message :=
| TooShort | BadVersion (v : byte) | ReservedFlags (f : byte)
| UnsealedButKeyed | SealedButKeyless | Truncated | OtherBind
| SnapshotExpired | AuthenticationFailed.

Record SplitTokenError := { Kind : split_kind; Message : split_message }.

Definition splitInvalid (m : split_message) : SplitTokenError :=
  {| Kind := SPLIT_TOKEN_INVALID; Message := m |}.
Definition splitExpired (m : split_message) : SplitTokenError :=
  {| Kind := SPLIT_SNAPSHOT_EXPIRED; Message := m |}.

Inductive build_error :=
| FingerprintLength (n : nat)
| AnchorTooLong (n : nat)
| SplitSeal (e : envelope_error).

(** ** The bind fingerprint *)

Definition SchemaPath := list string.

(** [feed label value]. *)
Definition feed (label : string) (value : bytes) : bytes :=
  sb label ++ [x00] ++ value ++ [x00].

Definition fingerprintPreimage (schemaPath : SchemaPath) (functionName : string)
    (argsRepr settingsRepr projectionRepr : bytes) : bytes :=
  splitAADPrefix
  ++ concat (map (fun c => feed "schema_path_component" (sb c)) schemaPath)
  ++ feed "function_name" (sb functionName)
  ++ feed "arguments" argsRepr
  ++ feed "settings" settingsRepr
  ++ feed "projection_ids" projectionRepr.

Definition BindFingerprint (schemaPath : SchemaPath) (functionName : string)
    (argsRepr settingsRepr projectionRepr : bytes) : bytes :=
  take splitFingerprintLen
    (Sha256.Sum256 (fingerprintPreimage schemaPath functionName
       argsRepr settingsRepr projectionRepr)).

Definition splitTokenAAD (header : bytes) (auth : option AuthContext) : bytes :=
  header ++ identityTail auth.

(** ** Minting and verifying *)

Section token.
Context `{Aead}.

(** A nil signing key is [None]. *)
Definition BuildSplitToken (payload fingerprint anchor : bytes)
    (signingKey : option bytes) (auth : option AuthContext) (rand : option bytes)
    : result build_error bytes :=
  check! bool_decide (length fingerprint = splitFingerprintLen)
    else FingerprintLength (length fingerprint) in
  check! negb (0xFFFF <? Z.of_nat (length anchor))%Z
    else AnchorTooLong (length anchor) in
  let flags := match signingKey with Some _ => splitFlagPayloadSealed | None => x00 end in
  let body := SplitTokenFormatVersion :: flags
              :: le_enc 2 (Z.of_nat (length anchor)) ++ fingerprint ++ anchor in
  match signingKey with
  | None => Ok (body ++ payload)
  | Some key =>
      match sealBytes payload key (splitTokenAAD body auth) splitSealVersion rand with
      | Err e => Err (SplitSeal e)
      | Ok sealed => Ok (body ++ sealed)
      end
  end.

Definition OpenSplitToken (token : bytes) (signingKey : option bytes)
    (auth : option AuthContext) (expectedFingerprint currentAnchor : option bytes)
    : result SplitTokenError bytes :=
  check! negb (length token <? splitHeaderLen) else splitInvalid TooShort in
  let version := default x00 (token !! 0) in
  let flags := default x00 (token !! 1) in
  let anchorLen := Z.to_nat (le_dec (slice token 2 4)) in
  check! bool_decide (version = SplitTokenFormatVersion)
    else splitInvalid (BadVersion version) in
  check! (Z.land (byte_Z flags) splitReservedFlagsMask =? 0)%Z
    else splitInvalid (ReservedFlags flags) in
  let sealed := negb (Z.land (byte_Z flags) (byte_Z splitFlagPayloadSealed) =? 0)%Z in
  match signingKey, sealed with
  | Some _, false => Err (splitInvalid UnsealedButKeyed)
  | None, true => Err (splitInvalid SealedButKeyless)
  | _, _ =>
      let endOfAnchor := splitHeaderLen + anchorLen in
      check! negb (length token <? endOfAnchor) else splitInvalid Truncated in
      let fingerprint := slice token 4 splitHeaderLen in
      let anchor := slice token splitHeaderLen endOfAnchor in
      let body := take endOfAnchor token in
      let rest := drop endOfAnchor token in
      check! (match expectedFingerprint with
              | None => true | Some e => bool_decide (fingerprint = e) end)
        else splitInvalid OtherBind in
      check! (match currentAnchor with
              | None => true | Some a => bool_decide (anchor = a) end)
        else splitExpired SnapshotExpired in
      match signingKey with
      | None => Ok rest
      | Some key =>
          match openBytes rest key (splitTokenAAD body auth) splitSealVersion with
          | Err _ => Err (splitInvalid AuthenticationFailed)
          | Ok payload => Ok payload
          end
      end
  end.

End token.

(** ** The worker's side: stamping a plan, redeeming its tokens *)

(** The fields of [BindRequestWire] the fingerprint reads. *)
Record BindRequestWire := {
  FunctionName : string;
  bindSchemaPath : option SchemaPath;
  Arguments_ : bytes;
  Settings : option bytes
}.

Record PlanRequestWire := { BindCall : BindRequestWire }.

Record ScanSplit := {
  Payload : bytes;
  Token : bytes;
  EstimatedRows : option Z;
  RowsExact : bool;
  EstimatedBytes : option Z;
  KeyValue : option bytes;
  RangeIndex : option Z;
  ColumnBounds : option bytes;
  PartitionBounds : option bytes;
  ColumnStatistics : option bytes;
  LocationIDs : option (list Z);
  StartPosition : option bytes;
  EndPosition : option bytes
}.

(** [splits[i].Token = token; splits[i].Payload = nil]. *)
Definition withToken (s : ScanSplit) (token : bytes) : ScanSplit :=
  {| Payload := []; Token := token; EstimatedRows := EstimatedRows s;
     RowsExact := RowsExact s; EstimatedBytes := EstimatedBytes s;
     KeyValue := KeyValue s; RangeIndex := RangeIndex s;
     ColumnBounds := ColumnBounds s; PartitionBounds := PartitionBounds s;
     ColumnStatistics := ColumnStatistics s; LocationIDs := LocationIDs s;
     StartPosition := StartPosition s; EndPosition := EndPosition s |}.

Definition bindFingerprintFor (req : BindRequestWire) : bytes :=
  BindFingerprint (default [] (bindSchemaPath req)) (FunctionName req)
    (Arguments_ req) (default [] (Settings req)) [].

Definition splitAnchor (catalogVersion : Z) : bytes := le_enc 8 (u64 catalogVersion).

(** The worker: its signing key and its catalog's version ([w.catalog] may
    be nil). *)
Record SplitWorker := {
  sw_httpSigningKey : bytes;
  sw_catalog : option Z
}.

Definition splitLiveCatalogVersion (w : SplitWorker) : Z := default 1%Z (sw_catalog w).
Definition splitLiveAnchor (w : SplitWorker) : bytes :=
  splitAnchor (splitLiveCatalogVersion w).
Definition splitSigningKey (w : SplitWorker) : option bytes :=
  if bool_decide (length (sw_httpSigningKey w) = 0) then None
  else Some (sw_httpSigningKey w).

Section worker.
Context `{Aead}.

(** The loop stamps in place: on an error the splits before it stay stamped.
    The result is the splits as the loop leaves them and the error, if any;
    each split draws its own nonce. *)
Fixpoint stampSplitTokens (w : SplitWorker) (splits : list ScanSplit)
    (fingerprint anchor : bytes) (auth : option AuthContext)
    (rands : list (option bytes)) : list ScanSplit * option build_error :=
  match splits with
  | [] => ([], None)
  | s :: rest =>
      match BuildSplitToken (Payload s) fingerprint anchor (splitSigningKey w) auth
              (mjoin (head rands)) with
      | Err e => (splits, Some e)
      | Ok token =>
          let '(rest', e) :=
            stampSplitTokens w rest fingerprint anchor auth (tail rands) in
          (withToken s token :: rest', e)
      end
  end.

(** The stamping of a plan: a planner that named no version gets the live one. *)
Definition stampPlan (w : SplitWorker) (splits : list ScanSplit)
    (req : PlanRequestWire) (resultCatalogVersion : Z) (auth : option AuthContext)
    (rands : list (option bytes)) : list ScanSplit * option build_error :=
  let planVersion := if (resultCatalogVersion =? 0)%Z
                     then splitLiveCatalogVersion w else resultCatalogVersion in
  stampSplitTokens w splits (bindFingerprintFor (BindCall req))
    (splitAnchor planVersion) auth rands.

Definition openSplitTokens (w : SplitWorker) (tokens : list bytes)
    (bindReq : BindRequestWire) (callCtx : option CallContext)
    : result SplitTokenError (list bytes) :=
  let expected := bindFingerprintFor bindReq in
  let auth := callAuth callCtx in
  map_result (fun token =>
    OpenSplitToken token (splitSigningKey w) auth (Some expected)
      (Some (splitLiveAnchor w))) tokens.

End worker.

(** ** The layout *)

(** The plaintext header a token starts with. *)
Definition splitHeader (version flags : byte) (fingerprint anchor : bytes) : bytes :=
  version :: flags :: le_enc 2 (Z.of_nat (length anchor)) ++ fingerprint ++ anchor.

Definition keyFlags (signingKey : option bytes) : byte :=
  match signingKey with Some _ => splitFlagPayloadSealed | None => x00 end.

Lemma splitHeader_length v f fp a :
  length fp = 16 -> length (splitHeader v f fp a) = 20 + length a.
Proof. intros Hf. unfold splitHeader. cbn [length]. rewrite !length_app, length_le_enc. lia. Qed.

Lemma header_fields v f fp a rest :
  length fp = 16 -> (Z.of_nat (length a) <= 0xFFFF)%Z ->
  let token := splitHeader v f fp a ++ rest in
  token !! 0 = Some v /\ token !! 1 = Some f /\
  Z.to_nat (le_dec (slice token 2 4)) = length a /\
  slice token 4 20 = fp /\
  slice token 20 (20 + length a) = a /\
  take (20 + length a) token = splitHeader v f fp a /\
  drop (20 + length a) token = rest.
Proof.
  intros Hf Ha token.
  assert (length (le_enc 2 (Z.of_nat (length a))) = 2) as Hl by apply length_le_enc.
  unfold token. repeat split.
  - unfold slice. change (4 - 2) with 2. unfold splitHeader. cbn [app drop].
    rewrite drop_0, <- !app_assoc, take_app_exact by done.
    rewrite le_dec_enc_small by lia. lia.
  - unfold slice. change (20 - 4) with 16. unfold splitHeader.
    cbn [app drop]. rewrite <- !app_assoc.
    rewrite (drop_app_exact (le_enc _ _)) by done. by apply take_app_exact.
  - unfold slice. replace (20 + length a - 20) with (length a) by lia.
    unfold splitHeader. cbn [app drop]. rewrite <- !app_assoc.
    rewrite (app_assoc (le_enc _ _)), drop_app_exact by (rewrite length_app; lia).
    by apply take_app_exact.
  - apply take_app_exact. by rewrite splitHeader_length.
  - apply drop_app_exact. by rewrite splitHeader_length.
Qed.

(** Every token long enough for its anchor is a header and a rest. *)
Lemma token_header token :
  20 <= length token ->
  20 + Z.to_nat (le_dec (slice token 2 4)) <= length token ->
  exists v f fp a rest, token = splitHeader v f fp a ++ rest /\
    length fp = 16 /\ (Z.of_nat (length a) <= 0xFFFF)%Z.
Proof.
  intros Hl Ha. destruct token as [|v [|f token]]; [cbn in Hl; lia..|].
  unfold slice in Ha. cbn [drop Nat.sub] in Ha. rewrite drop_0 in Ha. cbn [length] in *.
  set (n := Z.to_nat (le_dec (take 2 token))) in *.
  pose proof (le_dec_bound (take 2 token)) as Hb.
  rewrite length_take_le in Hb by lia. change (256 ^ Z.of_nat 2)%Z with 65536%Z in Hb.
  assert (Z.of_nat n <= 0xFFFF)%Z by (unfold n; lia).
  exists v, f, (take 16 (drop 2 token)), (take n (drop 18 token)), (drop (18 + n) token).
  rewrite !length_take_le by (rewrite length_drop; lia).
  split; [|lia]. unfold splitHeader. cbn [app]. do 2 f_equal.
  unfold n. rewrite length_take_le by (rewrite length_drop; unfold n in *; lia).
  rewrite Z2Nat.id by lia. rewrite le_enc_dec_len by (rewrite length_take_le; lia).
  rewrite <- !app_assoc. rewrite <- (take_drop 2 token) at 1. f_equal.
  rewrite <- (take_drop 16 (drop 2 token)) at 1. f_equal.
  rewrite drop_drop, Nat.add_comm. cbn [Nat.add].
  rewrite <- (take_drop n (drop 18 token)) at 1. f_equal.
  by rewrite drop_drop.
Qed.

Section token_lemmas.
Context `{Aead}.

Lemma BuildSplitToken_inv payload fp a key auth rand tok :
  BuildSplitToken payload fp a key auth rand = Ok tok ->
  length fp = 16 /\ (Z.of_nat (length a) <= 0xFFFF)%Z /\
  exists rest, tok = splitHeader x01 (keyFlags key) fp a ++ rest /\
    match key with
    | None => rest = payload
    | Some k => exists nonce, rand = Some nonce /\
        sealBytesWithNonce payload k
          (splitTokenAAD (splitHeader x01 (keyFlags key) fp a) auth)
          splitSealVersion nonce = Ok rest
    end.
Proof.
  unfold BuildSplitToken. intros E. break_if; [|done]. break_if; [|done]. bool_hyps.
  split; [done|]. split; [lia|]. destruct key as [k|].
  - destruct rand as [nonce|]; cbn [sealBytes] in E; [|done].
    destruct (sealBytesWithNonce _ _ _ _ _) as [s|] eqn:Es; [|done].
    injection E as <-. exists s. split; [done|]. by exists nonce.
  - injection E as <-. by exists payload.
Qed.

Lemma BuildSplitToken_ok payload fp a key auth nonce :
  length fp = 16 -> (Z.of_nat (length a) <= 0xFFFF)%Z -> length nonce = 24 ->
  BuildSplitToken payload fp a key auth (Some nonce) =
    Ok (splitHeader x01 (keyFlags key) fp a ++
        match key with
        | None => payload
        | Some k => splitSealVersion :: nonce ++
            aead_seal (normalizeCryptoKey k) nonce
              (splitTokenAAD (splitHeader x01 (keyFlags key) fp a) auth) payload
        end).
Proof.
  intros Hf Ha Hn. unfold BuildSplitToken.
  rewrite (bool_decide_true (length fp = _)) by done.
  rewrite (proj2 (Z.ltb_ge _ _)) by lia. cbn [negb].
  destruct key as [k|]; [|done]. cbn [sealBytes].
  by rewrite sealBytesWithNonce_ok.
Qed.

(** What [OpenSplitToken] does after the header is split off. *)
Definition openBody (payloadBytes fp a header : bytes) (key : option bytes)
    (auth : option AuthContext) (efp ca : option bytes)
    : result SplitTokenError bytes :=
  check! (match efp with None => true | Some e => bool_decide (fp = e) end)
    else splitInvalid OtherBind in
  check! (match ca with None => true | Some x => bool_decide (a = x) end)
    else splitExpired SnapshotExpired in
  match key with
  | None => Ok payloadBytes
  | Some k =>
      match openBytes payloadBytes k (splitTokenAAD header auth) splitSealVersion with
      | Err _ => Err (splitInvalid AuthenticationFailed)
      | Ok payload => Ok payload
      end
  end.

(** A well-formed header whose flag agrees with the key state gets to the body. *)
Lemma OpenSplitToken_layout fp a rest key auth efp ca :
  length fp = 16 -> (Z.of_nat (length a) <= 0xFFFF)%Z ->
  OpenSplitToken (splitHeader x01 (keyFlags key) fp a ++ rest) key auth efp ca =
  openBody rest fp a (splitHeader x01 (keyFlags key) fp a) key auth efp ca.
Proof.
  intros Hf Ha.
  destruct (header_fields x01 (keyFlags key) fp a rest Hf Ha)
    as (F0 & F1 & F2 & F3 & F4 & F5 & F6).
  pose proof (splitHeader_length x01 (keyFlags key) fp a Hf) as Hh.
  remember (splitHeader x01 (keyFlags key) fp a) as hd eqn:Ehd. clear Ehd.
  unfold OpenSplitToken, openBody, splitHeaderLen, splitFingerprintLen.
  change (4 + 16) with 20.
  assert (length (hd ++ rest) = 20 + length a + length rest) as Hl
    by (rewrite length_app; lia).
  rewrite (proj2 (Nat.ltb_ge _ 20)) by lia. cbn [negb].
  rewrite F0, F1, F2, F3, F4, F5, F6. cbn [default from_option id].
  rewrite (proj2 (Nat.ltb_ge _ (20 + length a))) by lia.
  by destruct key as [k|].
Qed.

End token_lemmas.

Lemma flags_cases f :
  (Z.land (byte_Z f) splitReservedFlagsMask =? 0)%Z = true -> f = x00 \/ f = x01.
Proof. destruct f; vm_compute; intros; try discriminate; auto. Qed.

Section token_specs.
Context `{Aead}.

(** Accepting a token means its header agrees with the key state. *)
Lemma OpenSplitToken_inv tok key auth efp ca p :
  OpenSplitToken tok key auth efp ca = Ok p ->
  exists fp a rest, length fp = 16 /\ (Z.of_nat (length a) <= 0xFFFF)%Z /\
    tok = splitHeader x01 (keyFlags key) fp a ++ rest.
Proof.
  intros E. assert (exists v f fp a rest, tok = splitHeader v f fp a ++ rest /\
    length fp = 16 /\ (Z.of_nat (length a) <= 0xFFFF)%Z /\
    v = x01 /\ f = keyFlags key) as (v & f & fp & a & rest & -> & Hf & Ha & -> & ->);
    [|by eauto 10].
  unfold OpenSplitToken in E. break_if; [|done]. bool_hyps. do 2 (break_if; [|done]).
  assert (splitHeaderLen + Z.to_nat (le_dec (slice tok 2 4)) <= length tok) as Hl.
  { destruct key, (negb _); try done;
      (break_if; [|done]); bool_hyps; lia. }
  unfold splitHeaderLen, splitFingerprintLen in *.
  destruct (token_header tok) as (v & f & fp & a & rest & Ht & Hf & Ha); [lia..|].
  exists v, f, fp, a, rest. do 3 (split; [done|]).
  destruct (header_fields v f fp a rest Hf Ha) as (F0 & F1 & _).
  rewrite <- Ht in F0, F1. rewrite F0, F1 in *. cbn [default from_option id] in *.
  bool_hyps. split; [done|].
  match goal with H : Z.land _ splitReservedFlagsMask = 0%Z |- _ =>
    apply Z.eqb_eq, flags_cases in H as [-> | ->] end;
    destruct key; try done; cbn in E; discriminate.
Qed.

(** ** Properties of the token *)

(** C18: a token is accepted, with payload [p], exactly when it was minted with
    payload [p] in the same key state, for the same caller and key, with a
    fingerprint and an anchor that the checks that are on accept. In
    particular every token [BuildSplitToken] mints opens to its payload. *)
Theorem open_exactly_minted tok key auth efp ca p :
  OpenSplitToken tok key auth efp ca = Ok p <->
  exists fp a rand, BuildSplitToken p fp a key auth rand = Ok tok /\
    (forall e, efp = Some e -> fp = e) /\ (forall c, ca = Some c -> a = c).
Proof.
  split.
  - intros E. destruct (OpenSplitToken_inv _ _ _ _ _ _ E) as (fp & a & rest & Hf & Ha & ->).
    rewrite OpenSplitToken_layout in E by done. unfold openBody in E.
    break_if; [|done]. break_if; [|done].
    assert (exists nonce, length nonce = 24 /\ rest = match key with
        | None => p
        | Some k => splitSealVersion :: nonce ++ aead_seal (normalizeCryptoKey k) nonce
            (splitTokenAAD (splitHeader x01 (keyFlags key) fp a) auth) p end)
      as (nonce & Hn & ->).
    { destruct key as [k|]; [|exists (repeat x00 24); by inv_ok].
      destruct (openBytes _ _ _ _) as [q|] eqn:O; [|done]. injection E as ->.
      by apply openBytes_iff in O. }
    exists fp, a, (Some nonce). rewrite BuildSplitToken_ok by done.
    split; [done|]. split; [intros e ->|intros c ->]; by bool_hyps.
  - intros (fp & a & rand & Hb & He & Hc).
    apply BuildSplitToken_inv in Hb as (Hf & Ha & rest & -> & Hr).
    rewrite OpenSplitToken_layout by done. unfold openBody.
    replace (match efp with None => true | Some e => bool_decide (fp = e) end) with true
      by (destruct efp; [by rewrite bool_decide_true by auto|done]).
    replace (match ca with None => true | Some x => bool_decide (a = x) end) with true
      by (destruct ca; [by rewrite bool_decide_true by auto|done]).
    destruct key as [k|]; [|congruence]. destruct Hr as (nonce & -> & Hs).
    by rewrite (openBytes_seal _ _ _ _ _ _ Hs).
Qed.

(** how a minted token is refused. Its fingerprint is compared first, then
    its anchor, and only then is the payload authenticated; a stale anchor is
    the only cause of SPLIT_SNAPSHOT_EXPIRED; and on a keyed worker a token
    opens only for the identity it was minted for. *)
Theorem open_minted_verdict payload fp a key auth auth' rand tok efp ca :
  BuildSplitToken payload fp a key auth rand = Ok tok ->
  domain_ok auth -> domain_ok auth' ->
  (forall k, key = Some k -> aead_separates (normalizeCryptoKey k)
     [splitTokenAAD (splitHeader x01 x01 fp a) auth;
      splitTokenAAD (splitHeader x01 x01 fp a) auth']) ->
  OpenSplitToken tok key auth' (Some efp) (Some ca) =
    if decide (fp = efp) then
      if decide (a = ca) then
        if decide (key = None \/ identity auth = identity auth') then Ok payload
        else Err (splitInvalid AuthenticationFailed)
      else Err (splitExpired SnapshotExpired)
    else Err (splitInvalid OtherBind).
Proof.
  intros Hb Hd Hd' Hsep. apply BuildSplitToken_inv in Hb as (Hf & Ha & rest & -> & Hr).
  rewrite OpenSplitToken_layout by done. unfold openBody.
  case_bool_decide; [rewrite decide_True by done|by rewrite decide_False by done].
  case_bool_decide; [rewrite decide_True by done|by rewrite decide_False by done].
  destruct key as [k|]; [|rewrite decide_True by auto; congruence].
  destruct Hr as (nonce & -> & Hs). specialize (Hsep k eq_refl). cbn [keyFlags] in *.
  case_decide as Hi.
  - destruct Hi as [|Hi]; [done|]. unfold splitTokenAAD in *.
    rewrite <- (identityTail_identity _ _ Hi). by rewrite (openBytes_seal _ _ _ _ _ _ Hs).
  - rewrite (openBytes_wrong_aad payload k
      (splitTokenAAD (splitHeader x01 x01 fp a) auth) _ _ nonce rest _ Hsep);
      [done|set_solver|set_solver| |exact Hs].
    intros Heq. unfold splitTokenAAD in Heq. simplify_list_eq.
    apply Hi. right. by apply identityTail_inj.
Qed.

(** the key state decides whether a token is opened, never the token: a
    keyed worker refuses every unsealed token (alg:none) and a keyless worker
    every sealed one, before any check of fingerprint, anchor or payload. *)
Theorem key_state_decides payload fp a key key' auth auth' rand tok efp ca :
  BuildSplitToken payload fp a key auth rand = Ok tok ->
  (key = None <-> key' <> None) ->
  OpenSplitToken tok key' auth' efp ca =
    Err (splitInvalid (match key' with Some _ => UnsealedButKeyed
                       | None => SealedButKeyless end)).
Proof.
  intros Hb Hk. apply BuildSplitToken_inv in Hb as (Hf & Ha & rest & -> & _).
  destruct (header_fields x01 (keyFlags key) fp a rest Hf Ha) as (F0 & F1 & _).
  unfold OpenSplitToken. rewrite F0, F1.
  rewrite length_app, splitHeader_length by done.
  rewrite (proj2 (Nat.ltb_ge _ _)) by (unfold splitHeaderLen, splitFingerprintLen; lia).
  destruct key as [k|], key' as [k'|]; try done; exfalso; intuition congruence.
Qed.

End token_specs.

(** ** Planning and redeeming *)

Lemma splitAnchor_inj v v' :
  int64_range v -> int64_range v' -> splitAnchor v = splitAnchor v' -> v = v'.
Proof.
  intros Hv Hv' E. apply (f_equal le_dec) in E. unfold splitAnchor in E.
  rewrite !le_dec_enc in E. change (256 ^ Z.of_nat 8)%Z with (2 ^ 64)%Z in E.
  fold (u64 (u64 v)) (u64 (u64 v')) in E. apply (f_equal s64) in E.
  by rewrite !s64_u64, !s64_small in E.
Qed.

Section plan.
Context `{Aead}.

(** What one pass of the loop did to a split. *)
Definition stampedAs (w : SplitWorker) fp anchor auth (s s' : ScanSplit) : Prop :=
  exists rand token,
    BuildSplitToken (Payload s) fp anchor (splitSigningKey w) auth rand = Ok token /\
    s' = withToken s token.

Lemma stampSplitTokens_ok w splits fp anchor auth rands out :
  stampSplitTokens w splits fp anchor auth rands = (out, None) ->
  Forall2 (stampedAs w fp anchor auth) splits out.
Proof.
  revert rands out. induction splits as [|s splits IH]; intros rands out E; cbn in E.
  { injection E as <-. constructor. }
  destruct (BuildSplitToken _ _ _ _ _ _) as [token|e] eqn:Eb; [|done].
  destruct (stampSplitTokens w splits fp anchor auth (tail rands)) as [rest e] eqn:Er.
  injection E as <- ->. constructor; [by eexists _, _|]. by eapply IH.
Qed.

(** A stamped split's token opens on a worker with the same key and version. *)
Lemma open_stamped w fp anchor auth s s' :
  stampedAs w fp anchor auth s s' ->
  OpenSplitToken (Token s') (splitSigningKey w) auth (Some fp) (Some anchor)
  = Ok (Payload s).
Proof.
  intros (rand & token & Hb & ->). cbn.
  apply BuildSplitToken_inv in Hb as (Hf & Ha & rest & -> & Hr).
  rewrite OpenSplitToken_layout by done. unfold openBody.
  rewrite !bool_decide_true by done.
  destruct (splitSigningKey w) as [k|]; [|congruence]. destruct Hr as (nonce & -> & Hs).
  by rewrite (openBytes_seal _ _ _ _ _ _ Hs).
Qed.

Lemma open_stamped_stale w w' fp anchor anchor' auth auth' s s' :
  splitSigningKey w' = splitSigningKey w -> anchor' <> anchor ->
  stampedAs w fp anchor auth s s' ->
  OpenSplitToken (Token s') (splitSigningKey w') auth' (Some fp) (Some anchor')
  = Err (splitExpired SnapshotExpired).
Proof.
  intros -> Hne (rand & token & Hb & ->). cbn.
  apply BuildSplitToken_inv in Hb as (Hf & Ha & rest & -> & _).
  rewrite OpenSplitToken_layout by done. unfold openBody.
  by rewrite bool_decide_true, bool_decide_false by done.
Qed.

(** C33: a plan redeems. After a plan is stamped (by a planner that named no
    version or the live one) no split carries its plaintext payload any more,
    and any init of the same bind, by the same caller, at the same catalog
    version, that presents any of the tokens, in any order and as often as it
    likes, is handed exactly the payloads of those splits. *)
Theorem plan_redeems w splits req v auth rands out cc picks :
  stampPlan w splits req v auth rands = (out, None) ->
  (v = 0 \/ v = splitLiveCatalogVersion w)%Z ->
  callAuth cc = auth ->
  Forall (fun i => i < length splits) picks ->
  Forall (fun s' => Payload s' = []) out /\
  openSplitTokens w (map (fun i => default [] (Token <$> out !! i)) picks)
    (BindCall req) cc =
  Ok (map (fun i => default [] (Payload <$> splits !! i)) picks).
Proof.
  intros E Hv Ha Hp.
  assert (stampSplitTokens w splits (bindFingerprintFor (BindCall req))
            (splitLiveAnchor w) auth rands = (out, None)) as Es.
  { unfold stampPlan in E. destruct Hv as [-> | ->]; [done|]. by destruct (_ =? 0)%Z. }
  clear E. apply stampSplitTokens_ok in Es. split.
  - rewrite List.Forall_forall. intros s' Hs'.
    apply list_elem_of_In, list_elem_of_lookup in Hs' as [i Hi].
    destruct (Forall2_lookup_r _ _ _ _ _ Es Hi) as (s & _ & r & t & _ & ->). done.
  - unfold openSplitTokens. rewrite Ha. induction Hp as [|i picks Hi _ IH]; [done|].
    cbn [map map_result]. rewrite IH.
    destruct (lookup_lt_is_Some_2 _ _ Hi) as [s Hs].
    destruct (Forall2_lookup_l _ _ _ _ _ Es Hs) as (s' & Hs' & Hst).
    rewrite Hs, Hs'. cbn [fmap option_fmap option_map default from_option id].
    by rewrite (open_stamped _ _ _ _ _ _ Hst).
Qed.

(** C34: once the catalog version has moved, the first token of the plan that
    an init presents fails it with SPLIT_SNAPSHOT_EXPIRED, for every caller,
    and no payload is handed over. *)
Theorem stale_plan_expires w w' splits req v auth rands out cc i rest :
  stampPlan w splits req v auth rands = (out, None) ->
  (v = 0 \/ v = splitLiveCatalogVersion w)%Z ->
  splitSigningKey w' = splitSigningKey w ->
  int64_range (splitLiveCatalogVersion w) -> int64_range (splitLiveCatalogVersion w') ->
  splitLiveCatalogVersion w' <> splitLiveCatalogVersion w ->
  i < length splits ->
  openSplitTokens w' (default [] (Token <$> out !! i) :: rest) (BindCall req) cc =
    Err {| Kind := SPLIT_SNAPSHOT_EXPIRED; Message := SnapshotExpired |}.
Proof.
  intros E Hv Hk R R' Hne Hi.
  assert (stampSplitTokens w splits (bindFingerprintFor (BindCall req))
            (splitLiveAnchor w) auth rands = (out, None)) as Es.
  { unfold stampPlan in E. destruct Hv as [-> | ->]; [done|]. by destruct (_ =? 0)%Z. }
  apply stampSplitTokens_ok in Es. destruct (lookup_lt_is_Some_2 _ _ Hi) as [s Hs].
  destruct (Forall2_lookup_l _ _ _ _ _ Es Hs) as (s' & Hs' & Hst).
  unfold openSplitTokens. cbn [map_result]. rewrite Hs'.
  cbn [fmap option_fmap option_map default from_option id].
  rewrite (open_stamped_stale w w' _ (splitLiveAnchor w) _ auth _ s s'); try done.
  intros Heq. by apply Hne, splitAnchor_inj.
Qed.

End plan.

(** The fingerprint's fields are only NUL-terminated, so two different binds
    can share one: here a settings blob moves into the arguments. *)
Lemma bind_fingerprint_ambiguous : exists r1 r2,
  r1 <> r2 /\ bindFingerprintFor r1 = bindFingerprintFor r2.
Proof.
  exists {| FunctionName := "f"; bindSchemaPath := None;
            Arguments_ := []; Settings := Some ([x00] ++ sb "settings" ++ [x00]) |},
         {| FunctionName := "f"; bindSchemaPath := None;
            Arguments_ := [x00] ++ sb "settings" ++ [x00]; Settings := None |}.
  split; [discriminate|]. vm_compute. reflexivity.
Qed.

(** ** The shared cross-SDK fixtures ([vgi/testdata/split_tokens])

    Each keyless or refused vector, byte for byte, with the verdict its
    manifest declares. *)

#[local] Existing Instance DigestAead.digest_aead.

Module Fixtures.
Definition hex1 (a b : ascii) : byte := Z_byte (hex_digit_inv a * 16 + hex_digit_inv b).
Fixpoint unhex (s : string) : bytes :=
  match s with
  | String a (String b s) => hex1 a b :: unhex s
  | _ => []
  end.
Definition key := unhex "000102030405060708090a0b0c0d0e0f101112131415161718191a1b1c1d1e1f".
Definition fingerprint := unhex "000102030405060708090a0b0c0d0e0f".
Definition anchor := unhex "2f00000000000000".
(** The verdict the shared test asserts: the payload, or the error kind. *)
Definition verdict (token : bytes) (keyed : bool) : result split_kind bytes :=
  match OpenSplitToken token (if keyed then Some key else None) None
          (Some fingerprint) (Some anchor) with
  | Ok p => Ok p
  | Err e => Err (Kind e)
  end.

Example valid_unsealed :
  verdict (unhex "01000800000102030405060708090a0b0c0d0e0f2f0000000000000066696c653d333b763d3437") false
  = Ok (sb "file=3;v=47").
Proof. vm_compute. reflexivity. Qed.

Example bad_flags_unsealed_but_key_present :
  verdict (unhex "01000800000102030405060708090a0b0c0d0e0f2f000000000000004f544845522054454e414e542044415441") true
  = Err SPLIT_TOKEN_INVALID.
Proof. vm_compute. reflexivity. Qed.

Example bad_fingerprint :
  verdict (unhex "01000800eeeeeeeeeeeeeeeeeeeeeeeeeeeeeeee2f0000000000000066696c653d333b763d3437") false
  = Err SPLIT_TOKEN_INVALID.
Proof. vm_compute. reflexivity. Qed.

Example stale_anchor :
  verdict (unhex "01000800000102030405060708090a0b0c0d0e0f010000000000000066696c653d333b763d3437") false
  = Err SPLIT_SNAPSHOT_EXPIRED.
Proof. vm_compute. reflexivity. Qed.

Example truncated :
  verdict (unhex "01000800000102030405") false
  = Err SPLIT_TOKEN_INVALID.
Proof. vm_compute. reflexivity. Qed.

Example reserved_flag_bit :
  verdict (unhex "01020800000102030405060708090a0b0c0d0e0f2f0000000000000066696c653d333b763d3437") false
  = Err SPLIT_TOKEN_INVALID.
Proof. vm_compute. reflexivity. Qed.

Example bad_version :
  verdict (unhex "09000800000102030405060708090a0b0c0d0e0f2f0000000000000066696c653d333b763d3437") false
  = Err SPLIT_TOKEN_INVALID.
Proof. vm_compute. reflexivity. Qed.

Example anchor_len_overrun :
  verdict (unhex "01000f27000102030405060708090a0b0c0d0e0f2f0000000000000066696c653d333b763d3437") false
  = Err SPLIT_TOKEN_INVALID.
Proof. vm_compute. reflexivity. Qed.

(** The reproducible valid token is what [BuildSplitToken] mints. *)
Example valid_unsealed_minted :
  BuildSplitToken (sb "file=3;v=47") fingerprint anchor None None None
  = Ok (unhex "01000800000102030405060708090a0b0c0d0e0f2f0000000000000066696c653d333b763d3437").
Proof. vm_compute. reflexivity. Qed.
End Fixtures.

(** ** Witnesses *)

Module SplitExamples.
Import EnvelopeExamples.
Definition w (version : Z) := {| sw_httpSigningKey := sb "k"; sw_catalog := Some version |}.
Definition split (p : string) : ScanSplit :=
  {| Payload := sb p; Token := []; EstimatedRows := Some 10%Z; RowsExact := true;
     EstimatedBytes := None; KeyValue := None; RangeIndex := None; ColumnBounds := None;
     PartitionBounds := None; ColumnStatistics := None; LocationIDs := None;
     StartPosition := None; EndPosition := None |}.
Definition bind := {| FunctionName := "scan"; bindSchemaPath := Some ["main"];
                      Arguments_ := sb "args"; Settings := None |}.
Definition splits := [split "a"; split "b"].
Definition fp := bindFingerprintFor bind.
Definition plan := stampPlan (w 7) splits {| BindCall := bind |} 0 (Some alice)
                     [Some nonce; Some nonce].
Definition tok := match BuildSplitToken (sb "a") fp (splitAnchor 7) (Some (sb "k"))
                    (Some alice) (Some nonce) with Ok t => t | Err _ => [] end.
Definition stamped := fst plan.
End SplitExamples.

Import EnvelopeExamples SplitExamples.

Lemma open_minted_verdict_witness :
  OpenSplitToken tok (Some (sb "k")) (Some bob) (Some fp) (Some (splitAnchor 7))
  = Err (splitInvalid AuthenticationFailed).
Proof.
  exact (open_minted_verdict (H := DigestAead.digest_aead) (sb "a") fp (splitAnchor 7)
    (Some (sb "k")) (Some alice) (Some bob) (Some nonce) tok fp (splitAnchor 7)
    ltac:(vm_compute; reflexivity) ltac:(solve_nul_free) ltac:(solve_nul_free)
    ltac:(intros k Hk; injection Hk as <-; solve_separates)).
Defined.

Lemma key_state_decides_witness :
  OpenSplitToken Fixtures.anchor None None None None = Err (splitInvalid TooShort) /\
  OpenSplitToken tok None (Some alice) None None = Err (splitInvalid SealedButKeyless).
Proof.
  split; [reflexivity|].
  exact (key_state_decides (H := DigestAead.digest_aead) (sb "a") fp (splitAnchor 7)
    (Some (sb "k")) None (Some alice) (Some alice) (Some nonce) tok None None
    ltac:(vm_compute; reflexivity) ltac:(split; [discriminate|congruence])).
Defined.

Lemma plan_redeems_witness :
  openSplitTokens (w 7) (map (fun i => default [] (Token <$> stamped !! i)) [1; 0; 1])
    bind (Some (ctx (Some alice))) = Ok [sb "b"; sb "a"; sb "b"].
Proof.
  exact (proj2 (plan_redeems (H := DigestAead.digest_aead) (w 7) splits
    {| BindCall := bind |} 0 (Some alice) [Some nonce; Some nonce] stamped
    (Some (ctx (Some alice))) [1; 0; 1] ltac:(vm_compute; reflexivity)
    (or_introl eq_refl) eq_refl ltac:(repeat constructor))).
Defined.

Lemma stale_plan_expires_witness :
  openSplitTokens (w 8) [default [] (Token <$> stamped !! 0)] bind None
  = Err {| Kind := SPLIT_SNAPSHOT_EXPIRED; Message := SnapshotExpired |}.
Proof.
  exact (stale_plan_expires (H := DigestAead.digest_aead) (w 7) (w 8) splits
    {| BindCall := bind |} 0 (Some alice) [Some nonce; Some nonce] stamped None 0 []
    ltac:(vm_compute; reflexivity) (or_introl eq_refl) eq_refl
    ltac:(by apply (bool_decide_unpack _)) ltac:(by apply (bool_decide_unpack _))
    ltac:(discriminate) ltac:(cbn; lia)).
Defined.
