(* ===== verification/AttachTicket.v ===== *)
(** * Attach tickets ([vgi/attach_ticket.go])

    The ticket format (payload codec, canonical base64url text, envelope), its
    minting and opening, the redemption [catalog_attach] starts with, and the
    [seal_attach] method. *)

From S2P Require Import Prelude Bytes Unicode Envelope.

(** ** Constants *)

Definition AttachTicketPrefix : string := "vgia1.".
Definition AttachTicketOption : string := "vgi_attach_ticket".
Definition attachTicketEnvelopeVersion : byte := x01.
Definition attachTicketMaxOptionsBytes : Z := 16 * 1024.
Definition attachTicketMaxChars : Z := 32 * 1024.
Definition attachTicketClockSkew : Z := 60.
Definition attachTicketMaxText : Z := 0xFFFF.
Definition attachTicketAADPrefix : bytes := sb "vgi.attach_ticket.v1" ++ [x00].

(** ** Errors *)

(** The description of a [BadRequest] violation. *)
Inductive violation_text :=
| Desc (s : string)
| NoCatalogNamed (s : string)   (* "no catalog named %q" *)
| OptionsTooLarge (n : Z)       (* "%d bytes; a ticket carries at most %d" *)
| MintError (s : string).

Inductive ticket_error :=
| TicketInvalid (detail : string)        (* AttachTicketInvalidError *)
| TicketExpired (detail : string)        (* AttachTicketExpiredError *)
| TicketInvalidRequest (message : string) (violations : list (string * violation_text))
| TicketActionDenied (message : string)
| ReadingOptions                          (* "reading attach options: ..." *)
| SpecDecode.                             (* DeserializeAttachOptionSpec *)

Definition ticketInvalid (detail : string) : ticket_error := TicketInvalid detail.
Definition ticketInvalidRequest (m : string) (v : list (string * violation_text))
  : ticket_error := TicketInvalidRequest m v.
Definition ticketActionDenied (m : string) : ticket_error := TicketActionDenied m.

(** ** Claims and their payload *)

Record AttachTicketClaims := {
  IssuedAt : Z;
  ExpiresAt : Z;
  TicketID : string;
  CatalogName : string;
  DataVersionSpec : string;
  ImplementationVersion : string;
  OptionsIPC : bytes
}.
#[global] Instance AttachTicketClaims_dec : EqDecision AttachTicketClaims.
Proof. solve_decision. Defined.

Definition attachTicketAAD (principal : string) : bytes :=
  attachTicketAADPrefix ++ sb principal.

Definition len (s : string) : Z := Z.of_nat (length (sb s)).

(** One length-prefixed text field. *)
Definition encodeText (name value : string) : result string bytes :=
  if (attachTicketMaxText <? len value)%Z
  then Err (name +:+ " is longer than 65535 bytes")
  else Ok (le_enc 2 (len value) ++ sb value).

Definition encodeTicketPayload (c : AttachTicketClaims) : result string bytes :=
  if (attachTicketMaxOptionsBytes <? Z.of_nat (length (OptionsIPC c)))%Z
  then Err "options are too large" else
  let? a := encodeText "ticket_id" (TicketID c) in
  let? b := encodeText "catalog_name" (CatalogName c) in
  let? d := encodeText "data_version_spec" (DataVersionSpec c) in
  let? i := encodeText "implementation_version" (ImplementationVersion c) in
  Ok (le_enc 8 (u64 (IssuedAt c)) ++ le_enc 8 (u64 (ExpiresAt c)) ++ a ++ b ++ d ++ i
      ++ le_enc 4 (Z.of_nat (length (OptionsIPC c))) ++ OptionsIPC c).

(** [take n]: the next [n] bytes and the rest of the payload. *)
Definition takeBytes (n : nat) (l : bytes) : result ticket_error (bytes * bytes) :=
  if length l <? n then Err (ticketInvalid "attach ticket payload is truncated")
  else Ok (take n l, drop n l).

Definition text (l : bytes) : result ticket_error (string * bytes) :=
  let? (raw, l) := takeBytes 2 l in
  let? (body, l) := takeBytes (Z.to_nat (le_dec raw)) l in
  check! utf8_valid body else ticketInvalid "attach ticket payload is not UTF-8" in
  Ok (bstr body, l).

(** [attachTicketIDPattern], [^[0-9a-f]{32}$]. *)
Definition ticketIDMatches (id : string) : bool :=
  (len id =? 32)%Z && all_chars is_hex_lower id.

Definition decodeTicketPayload (payload : bytes) : result ticket_error AttachTicketClaims :=
  let? (head, l) := takeBytes 16 payload in
  let? (id, l) := text l in
  let? (cat, l) := text l in
  let? (dvs, l) := text l in
  let? (iv, l) := text l in
  let? (raw, l) := takeBytes 4 l in
  let n := le_dec raw in
  check! negb (attachTicketMaxOptionsBytes <? n)%Z
    else ticketInvalid "attach ticket options exceed 16 KiB" in
  let? (opts, l) := takeBytes (Z.to_nat n) l in
  let c := {| IssuedAt := s64 (le_dec (take 8 head)); ExpiresAt := s64 (le_dec (drop 8 head));
              TicketID := id; CatalogName := cat; DataVersionSpec := dvs;
              ImplementationVersion := iv; OptionsIPC := opts |} in
  check! bool_decide (l = []) else ticketInvalid "attach ticket payload has trailing bytes" in
  check! ticketIDMatches id else ticketInvalid "attach ticket id is not 32 lowercase hex" in
  check! negb (bool_decide (cat = "")) else ticketInvalid "attach ticket names no catalog" in
  check! negb (negb (ExpiresAt c =? 0)%Z && (ExpiresAt c <=? IssuedAt c)%Z)
    else ticketInvalid "attach ticket lifetime is empty" in
  Ok c.

(** The regexp [^[A-Za-z0-9_-]+$], then the canonicity test. *)
Definition decodeTicketBase64URL (txt : string) : result ticket_error bytes :=
  check! negb (negb (negb (bool_decide (sb txt = [])) && forallb is_b64_char (sb txt))
               || (length (sb txt) mod 4 =? 1)%nat)
    else ticketInvalid "attach ticket is not unpadded base64url" in
  match b64_decode txt with
  | Some raw =>
      check! bool_decide (b64_encode raw = txt)
        else ticketInvalid "attach ticket is not canonical base64url" in
      Ok raw
  | None => Err (ticketInvalid "attach ticket is not canonical base64url")
  end.

(** ** Minting and opening *)

Section ticket.
Context `{Aead}.

(** [randID] is the 16 random bytes drawn for an empty ticket id. *)
Definition mintAttachTicket (signingKey : bytes) (principal : string)
    (claims : AttachTicketClaims) (nonce : bytes) (randID : option bytes)
    : result string (string * AttachTicketClaims) :=
  check! negb (bool_decide (principal = "")) else "a ticket needs a principal" in
  let? claims :=
    (if bool_decide (TicketID claims = "") then
       match randID with
       | None => Err "attach ticket id"
       | Some id => Ok {| IssuedAt := IssuedAt claims; ExpiresAt := ExpiresAt claims;
                          TicketID := hex_encode id; CatalogName := CatalogName claims;
                          DataVersionSpec := DataVersionSpec claims;
                          ImplementationVersion := ImplementationVersion claims;
                          OptionsIPC := OptionsIPC claims |}
       end
     else Ok claims) in
  check! negb (bool_decide (CatalogName claims = "")) else "a ticket needs a catalog name" in
  check! ticketIDMatches (TicketID claims) else "ticket_id must be 32 lowercase hex" in
  check! negb (negb (ExpiresAt claims =? 0)%Z && (ExpiresAt claims <=? IssuedAt claims)%Z)
    else "expires_at must be 0 or after issued_at" in
  let? payload := encodeTicketPayload claims in
  match sealBytesWithNonce payload signingKey (attachTicketAAD principal)
          attachTicketEnvelopeVersion nonce with
  | Err _ => Err "opaque-data"
  | Ok envelope =>
      let token := AttachTicketPrefix +:+ b64_encode envelope in
      if (attachTicketMaxChars <? len token)%Z then Err "the ticket would be too long"
      else Ok (token, claims)
  end.

(** [MintAttachTicket]: the same with a fresh nonce. *)
Definition MintAttachTicket (signingKey : bytes) (principal : string)
    (claims : AttachTicketClaims) (rand randID : option bytes)
    : result string (string * AttachTicketClaims) :=
  match rand with
  | None => Err "attach ticket nonce"
  | Some nonce => mintAttachTicket signingKey principal claims nonce randID
  end.

(** [now] is [now.Unix()]; the skew is added in int64 arithmetic. *)
Definition OpenAttachTicket (signingKey : bytes) (token principal : string) (now : Z)
    : result ticket_error AttachTicketClaims :=
  check! has_prefix (sb token) (sb AttachTicketPrefix) else ticketInvalid "not an attach ticket" in
  check! negb (attachTicketMaxChars <? len token)%Z
    else ticketInvalid "attach ticket is too long" in
  let? envelope :=
    decodeTicketBase64URL (bstr (drop (length (sb AttachTicketPrefix)) (sb token))) in
  check! negb (bool_decide (principal = ""))
    else ticketInvalid "an anonymous caller cannot redeem an attach ticket" in
  match openBytes envelope signingKey (attachTicketAAD principal)
          attachTicketEnvelopeVersion with
  | Err _ => Err (ticketInvalid "attach ticket failed verification")
  | Ok payload =>
      let? claims := decodeTicketPayload payload in
      check! negb (s64 (now + attachTicketClockSkew) <? IssuedAt claims)%Z
        else TicketExpired "attach ticket is not yet valid" in
      check! negb (negb (ExpiresAt claims =? 0)%Z
                   && (s64 (ExpiresAt claims + attachTicketClockSkew) <=? now)%Z)
        else TicketExpired "attach ticket has expired" in
      Ok claims
  end.

End ticket.

(** ** The payload codec *)

(** The claims a payload can carry: int64 times, UTF-8 texts, and the field
    rules [decodeTicketPayload] enforces. *)
Definition claims_ok (c : AttachTicketClaims) : Prop :=
  int64_range (IssuedAt c) /\ int64_range (ExpiresAt c) /\
  utf8_valid (sb (CatalogName c)) = true /\
  utf8_valid (sb (DataVersionSpec c)) = true /\
  utf8_valid (sb (ImplementationVersion c)) = true /\
  ticketIDMatches (TicketID c) = true /\ CatalogName c <> "" /\
  (ExpiresAt c = 0 \/ IssuedAt c < ExpiresAt c)%Z.

#[global] Instance claims_ok_dec c : Decision (claims_ok c).
Proof. unfold claims_ok. apply _. Defined.

Lemma takeBytes_app n a l : length a = n -> takeBytes n (a ++ l) = Ok (a, l).
Proof.
  intros <-. unfold takeBytes. rewrite length_app.
  rewrite (proj2 (Nat.ltb_ge _ _)) by lia. by rewrite take_app_length, drop_app_length.
Qed.

Lemma takeBytes_inv n l a r : takeBytes n l = Ok (a, r) -> l = a ++ r /\ length a = n.
Proof.
  unfold takeBytes. intros E. break_if; [done|]. bool_hyps. injection E as <- <-.
  rewrite take_drop, length_take. split; [done|lia].
Qed.

Lemma encodeText_inv name v b : encodeText name v = Ok b ->
  b = le_enc 2 (len v) ++ sb v /\ (0 <= len v <= 0xFFFF)%Z.
Proof.
  unfold encodeText, attachTicketMaxText. intros E. break_if; [done|]. bool_hyps.
  injection E as <-. split; [done|]. unfold len in *. lia.
Qed.

Lemma text_app v l : utf8_valid (sb v) = true -> (len v <= 0xFFFF)%Z ->
  text (le_enc 2 (len v) ++ sb v ++ l) = Ok (v, l).
Proof.
  intros Hu Hl. unfold text. rewrite takeBytes_app by apply length_le_enc.
  rewrite le_dec_enc_small by (unfold len in *; lia).
  rewrite takeBytes_app by (unfold len; lia). by rewrite Hu, bstr_sb.
Qed.

Lemma text_inv l v r : text l = Ok (v, r) ->
  l = le_enc 2 (len v) ++ sb v ++ r /\ utf8_valid (sb v) = true /\ (len v <= 0xFFFF)%Z.
Proof.
  unfold text. intros E.
  destruct (takeBytes 2 l) as [[raw l1]|] eqn:E1; [|done].
  destruct (takeBytes _ l1) as [[body l2]|] eqn:E2; [|done].
  destruct (utf8_valid body) eqn:Hu; [|done]. injection E as <- <-.
  apply takeBytes_inv in E1 as [-> H1], E2 as [-> H2].
  pose proof (le_dec_bound raw) as Hb. rewrite H1 in Hb.
  unfold len. rewrite sb_bstr, H2, Z2Nat.id by lia.
  rewrite le_enc_dec_len by done. split; [done|]. split; [done|].
  change (256 ^ Z.of_nat 2)%Z with 65536%Z in Hb. lia.
Qed.

Lemma u64_bound z : (0 <= u64 z < 256 ^ Z.of_nat 8)%Z.
Proof. unfold u64. apply Z.mod_pos_bound. lia. Qed.

Lemma le8_s64 z : int64_range z -> s64 (le_dec (le_enc 8 (u64 z))) = z.
Proof.
  intros Hz. rewrite le_dec_enc_small by apply u64_bound. by rewrite s64_u64, s64_small.
Qed.

Lemma le8_u64 l : length l = 8 -> le_enc 8 (u64 (s64 (le_dec l))) = l.
Proof.
  intros Hl. pose proof (le_dec_bound l) as Hb. rewrite Hl in Hb.
  replace (u64 (s64 (le_dec l))) with (le_dec l); [by apply le_enc_dec_len|].
  unfold u64, s64. change (256 ^ Z.of_nat 8)%Z with (2 ^ 64)%Z in Hb.
  rewrite Zminus_mod_idemp_l.
  replace (le_dec l + 2 ^ 63 - 2 ^ 63)%Z with (le_dec l) by lia.
  symmetry. by apply Z.mod_small.
Qed.

Lemma hex_id_valid id : ticketIDMatches id = true -> utf8_valid (sb id) = true.
Proof. unfold ticketIDMatches. intros H. bool_hyps. by apply hex_valid. Qed.

Lemma decode_encode_payload c p :
  claims_ok c -> encodeTicketPayload c = Ok p -> decodeTicketPayload p = Ok c.
Proof.
  intros (Hi & He & Uc & Ud & Uv & Hid & Hcat & Hlife) E. unfold encodeTicketPayload in E.
  break_if; [done|]. bool_hyps. unfold attachTicketMaxOptionsBytes in *.
  destruct (encodeText "ticket_id" _) as [a|] eqn:Ea; [|done].
  destruct (encodeText "catalog_name" _) as [b|] eqn:Eb; [|done].
  destruct (encodeText "data_version_spec" _) as [d|] eqn:Ed; [|done].
  destruct (encodeText "implementation_version" _) as [i|] eqn:Ei; [|done].
  apply ok_inj in E as <-.
  apply encodeText_inv in Ea as [-> ?], Eb as [-> ?], Ed as [-> ?], Ei as [-> ?].
  unfold decodeTicketPayload.
  rewrite (app_assoc (le_enc 8 _)), takeBytes_app
    by (rewrite length_app, !length_le_enc; done).
  rewrite <- !app_assoc, text_app by (lia || by apply hex_id_valid).
  rewrite text_app by (done || lia). rewrite text_app by (done || lia).
  rewrite text_app by (done || lia). rewrite takeBytes_app by apply length_le_enc.
  rewrite le_dec_enc_small by lia.
  rewrite (proj2 (Z.ltb_ge _ _)) by (unfold attachTicketMaxOptionsBytes; lia). cbn [negb].
  rewrite <- (app_nil_r (OptionsIPC c)), takeBytes_app by (rewrite app_nil_r; lia).
  rewrite bool_decide_true, Hid by done.
  rewrite (bool_decide_false (CatalogName c = "")) by done. cbn [negb].
  rewrite take_app_exact, drop_app_exact by by rewrite length_le_enc.
  rewrite !le8_s64 by done. cbn [IssuedAt ExpiresAt].
  replace (negb (ExpiresAt c =? 0)%Z && (ExpiresAt c <=? IssuedAt c)%Z) with false
    by (symmetry; apply andb_false_iff; rewrite negb_false_iff, Z.eqb_eq, Z.leb_gt; tauto).
  by destruct c.
Qed.

Lemma encode_decode_payload p c :
  decodeTicketPayload p = Ok c -> claims_ok c /\ encodeTicketPayload c = Ok p.
Proof.
  unfold decodeTicketPayload. intros E.
  destruct (takeBytes 16 p) as [[hd l0]|] eqn:Q0; [|done].
  destruct (text l0) as [[id l1]|] eqn:Q1; [|done].
  destruct (text l1) as [[cat l2]|] eqn:Q2; [|done].
  destruct (text l2) as [[dvs l3]|] eqn:Q3; [|done].
  destruct (text l3) as [[iv l4]|] eqn:Q4; [|done].
  destruct (takeBytes 4 l4) as [[raw l5]|] eqn:Q5; [|done].
  break_if; [|done]. destruct (takeBytes _ l5) as [[opts l6]|] eqn:Q6; [|done].
  repeat (break_if; [|done]). injection E as <-. bool_hyps. subst l6.
  apply takeBytes_inv in Q0 as [-> K0], Q5 as [-> K5], Q6 as [-> K6].
  apply text_inv in Q1 as (-> & U1 & L1), Q2 as (-> & U2 & L2),
    Q3 as (-> & U3 & L3), Q4 as (-> & U4 & L4).
  pose proof (le_dec_bound raw) as Hb. unfold attachTicketMaxOptionsBytes in *.
  cbn [IssuedAt ExpiresAt] in *. split.
  - unfold claims_ok. cbn. repeat split; try done; try apply s64_range.
    match goal with H : _ && _ = false |- _ => apply andb_false_iff in H as [H|H] end;
      bool_hyps; lia.
  - unfold encodeTicketPayload, encodeText, attachTicketMaxOptionsBytes, attachTicketMaxText.
    cbn [IssuedAt ExpiresAt TicketID CatalogName DataVersionSpec
         ImplementationVersion OptionsIPC].
    rewrite !(proj2 (Z.ltb_ge _ _)) by lia. f_equal.
    rewrite !le8_u64 by (rewrite ?length_take, ?length_drop; lia).
    rewrite K6, Z2Nat.id, le_enc_dec_len by (lia || done).
    rewrite <- (take_drop 8 hd) at 3. rewrite <- !app_assoc. by rewrite app_nil_r.
Qed.

(** ** Canonical text *)

Lemma decode_base64 t raw :
  decodeTicketBase64URL t = Ok raw <-> raw <> [] /\ t = b64_encode raw.
Proof.
  unfold decodeTicketBase64URL. split.
  - intros E. break_if; [|done]. destruct (b64_decode t) as [r|] eqn:Ed; [|done].
    break_if; [|done]. injection E as <-. bool_hyps. split; [|done].
    intros ->. subst t. match goal with H : sb _ <> [] |- _ => by apply H end.
  - intros [Hne ->]. rewrite b64_decode_encode, (bool_decide_true (b64_encode raw = _)) by done.
    unfold b64_encode. rewrite sb_bstr, b64_encode_alphabet.
    rewrite bool_decide_false by (intros Hn; by apply b64_encode_nil in Hn).
    by rewrite (proj2 (Nat.eqb_neq _ _)) by apply b64_encode_length4.
Qed.

Lemma decode_base64_encode raw :
  raw <> [] -> decodeTicketBase64URL (b64_encode raw) = Ok raw.
Proof. intros H. by apply decode_base64. Qed.

(** ** Minted tickets *)

(** The claims a mint works on: an empty id is replaced by a random one. *)
Definition withTicketID (c : AttachTicketClaims) (id : string) : AttachTicketClaims :=
  {| IssuedAt := IssuedAt c; ExpiresAt := ExpiresAt c; TicketID := id;
     CatalogName := CatalogName c; DataVersionSpec := DataVersionSpec c;
     ImplementationVersion := ImplementationVersion c; OptionsIPC := OptionsIPC c |}.

(** The values a caller must supply for the claims to survive the codec. *)
Definition claims_encodable (c : AttachTicketClaims) : Prop :=
  int64_range (IssuedAt c) /\ int64_range (ExpiresAt c) /\
  utf8_valid (sb (CatalogName c)) = true /\
  utf8_valid (sb (DataVersionSpec c)) = true /\
  utf8_valid (sb (ImplementationVersion c)) = true.
#[global] Instance claims_encodable_dec c : Decision (claims_encodable c).
Proof. unfold claims_encodable. apply _. Defined.

Lemma claims_ok_intro c :
  claims_encodable c -> ticketIDMatches (TicketID c) = true -> CatalogName c <> "" ->
  (ExpiresAt c = 0 \/ IssuedAt c < ExpiresAt c)%Z -> claims_ok c.
Proof. unfold claims_encodable, claims_ok. tauto. Qed.

Section minted.
Context `{Aead}.

(** The text of the ticket that carries [payload]. *)
Definition ticketText (key : bytes) (principal : string) (nonce payload : bytes) : string :=
  AttachTicketPrefix +:+ b64_encode
    (attachTicketEnvelopeVersion :: nonce ++
     aead_seal (normalizeCryptoKey key) nonce (attachTicketAAD principal) payload).

Lemma mint_inv key P c nonce rid tok c' :
  mintAttachTicket key P c nonce rid = Ok (tok, c') ->
  P <> "" /\ (exists id, c' = withTicketID c id) /\ (TicketID c <> "" -> c' = c) /\
  ticketIDMatches (TicketID c') = true /\ CatalogName c' <> "" /\
  (ExpiresAt c' = 0 \/ IssuedAt c' < ExpiresAt c')%Z /\ length nonce = 24 /\
  (len tok <= attachTicketMaxChars)%Z /\
  exists payload, encodeTicketPayload c' = Ok payload /\ tok = ticketText key P nonce payload.
Proof.
  unfold mintAttachTicket. intros E. break_if; [|done].
  match type of E with match ?m with _ => _ end = _ => destruct m as [c1|] eqn:E1; [|done] end.
  repeat (break_if; [|done]).
  destruct (encodeTicketPayload c1) as [payload|] eqn:Ep; [|done].
  destruct (sealBytesWithNonce _ _ _ _ _) as [env|] eqn:Es; [|done].
  break_if; [done|]. apply ok_inj in E. injection E as <- <-.
  apply sealBytesWithNonce_inv in Es as [Hn ->]. bool_hyps.
  assert ((exists id, c1 = withTicketID c id) /\ (TicketID c <> "" -> c1 = c)) as [Hc1 Hc2].
  { case_bool_decide; [destruct rid as [id|]; [|done]|]; apply ok_inj in E1 as <-.
    - split; [by exists (hex_encode id)|done].
    - split; [exists (TicketID c); by destruct c|done]. }
  repeat (split; [done|]). split.
  { match goal with H : _ && _ = false |- _ => apply andb_false_iff in H as [H|H] end;
      bool_hyps; lia. }
  split; [done|]. split; [done|]. by exists payload.
Qed.

Lemma mint_ok key P c nonce payload :
  P <> "" -> claims_ok c -> length nonce = 24 -> encodeTicketPayload c = Ok payload ->
  (len (ticketText key P nonce payload) <= attachTicketMaxChars)%Z ->
  mintAttachTicket key P c nonce None = Ok (ticketText key P nonce payload, c).
Proof.
  intros HP (_ & _ & _ & _ & _ & Hid & Hcat & Hlife) Hn Ep Hl. unfold mintAttachTicket.
  rewrite (bool_decide_false (P = "")) by done.
  rewrite (bool_decide_false (TicketID c = "")) by (intros Ht; by rewrite Ht in Hid).
  rewrite (bool_decide_false (CatalogName c = "")), Hid by done. cbn [negb].
  replace (negb (ExpiresAt c =? 0)%Z && (ExpiresAt c <=? IssuedAt c)%Z) with false
    by (symmetry; apply andb_false_iff; rewrite negb_false_iff, Z.eqb_eq, Z.leb_gt; tauto).
  cbn [negb]. rewrite Ep, sealBytesWithNonce_ok by done. fold (ticketText key P nonce payload).
  by rewrite (proj2 (Z.ltb_ge _ _)) by lia.
Qed.

Lemma ticketText_split key P nonce payload :
  has_prefix (sb (ticketText key P nonce payload)) (sb AttachTicketPrefix) = true /\
  bstr (drop (length (sb AttachTicketPrefix)) (sb (ticketText key P nonce payload))) =
  b64_encode (attachTicketEnvelopeVersion :: nonce ++
     aead_seal (normalizeCryptoKey key) nonce (attachTicketAAD P) payload).
Proof.
  unfold ticketText. split; [apply has_prefix_spec; eexists; reflexivity|].
  change (sb (AttachTicketPrefix +:+ ?s)) with (sb AttachTicketPrefix ++ sb s).
  rewrite drop_app_exact by done. apply bstr_sb.
Qed.

(** The lifetime test, last in [OpenAttachTicket]. *)
Definition lifetimeVerdict (c : AttachTicketClaims) (now : Z) : result ticket_error AttachTicketClaims :=
  check! negb (s64 (now + attachTicketClockSkew) <? IssuedAt c)%Z
    else TicketExpired "attach ticket is not yet valid" in
  check! negb (negb (ExpiresAt c =? 0)%Z
               && (s64 (ExpiresAt c + attachTicketClockSkew) <=? now)%Z)
    else TicketExpired "attach ticket has expired" in
  Ok c.

(** Opening a ticket text: the principal, the envelope, the payload, the time. *)
Lemma open_ticketText key P nonce payload P' now :
  (len (ticketText key P nonce payload) <= attachTicketMaxChars)%Z -> P' <> "" ->
  OpenAttachTicket key (ticketText key P nonce payload) P' now =
  match openBytes (attachTicketEnvelopeVersion :: nonce ++
          aead_seal (normalizeCryptoKey key) nonce (attachTicketAAD P) payload)
          key (attachTicketAAD P') attachTicketEnvelopeVersion with
  | Err _ => Err (ticketInvalid "attach ticket failed verification")
  | Ok payload => let? c := decodeTicketPayload payload in lifetimeVerdict c now
  end.
Proof.
  intros Hl HP. unfold OpenAttachTicket.
  destruct (ticketText_split key P nonce payload) as [-> ->].
  rewrite (proj2 (Z.ltb_ge _ _)) by lia. cbn [negb].
  rewrite decode_base64_encode by done.
  by rewrite bool_decide_false.
Qed.

Lemma open_inv key tok P now c :
  OpenAttachTicket key tok P now = Ok c ->
  P <> "" /\ claims_ok c /\ lifetimeVerdict c now = Ok c /\
  exists nonce payload, tok = ticketText key P nonce payload /\
    encodeTicketPayload c = Ok payload /\ length nonce = 24 /\
    (len tok <= attachTicketMaxChars)%Z.
Proof.
  unfold OpenAttachTicket. intros E. break_if; [|done]. break_if; [|done].
  destruct (decodeTicketBase64URL _) as [env|] eqn:Ed; [|done]. break_if; [|done].
  destruct (openBytes _ _ _ _) as [payload|] eqn:Eo; [|done].
  destruct (decodeTicketPayload payload) as [c1|] eqn:Ep; [|done].
  assert (lifetimeVerdict c1 now = Ok c) as Hv by exact E.
  assert (c1 = c) as ->.
  { clear -Hv. unfold lifetimeVerdict in Hv. repeat (break_if; [|done]). by apply ok_inj in Hv. }
  bool_hyps. apply openBytes_iff in Eo as (nonce & Hn & ->).
  apply decode_base64 in Ed as [_ Ht]. apply encode_decode_payload in Ep as [Hc Hp].
  assert (tok = ticketText key P nonce payload) as Htok.
  { apply sb_inj. unfold ticketText. rewrite <- Ht.
    change (sb (AttachTicketPrefix +:+ ?s)) with (sb AttachTicketPrefix ++ sb s).
    rewrite sb_bstr. match goal with H : has_prefix _ _ = true |- _ =>
      apply has_prefix_spec in H as [rest ->] end. by rewrite drop_app_length. }
  do 3 (split; [done|]). by exists nonce, payload.
Qed.

End minted.

(** ** Properties of tickets *)

(** the payload codec is exact. A payload decodes to claims exactly when
    the claims obey the field rules and encode to that very payload: every
    encoded ticket is read back unchanged, and there is one payload per claims,
    with no slack, no trailing bytes and no second spelling. *)
Theorem payload_codec_exact p c :
  decodeTicketPayload p = Ok c <-> claims_ok c /\ encodeTicketPayload c = Ok p.
Proof.
  split; [apply encode_decode_payload|].
  intros [Hc He]. by apply decode_encode_payload.
Qed.

Section ticket_properties.
Context `{Aead}.

(** C17: what becomes of a minted ticket. Presented with the signing key, it
    is refused as invalid for an anonymous caller or another principal;
    presented by its own principal it is an expired-ticket error outside its
    lifetime widened by the 60 s skew on both sides, and otherwise it gives
    back exactly the claims that were sealed. *)
Theorem minted_ticket_verdict key P c nonce rid tok c' P' now :
  mintAttachTicket key P c nonce rid = Ok (tok, c') ->
  claims_encodable c' -> int64_range (now + 60) -> int64_range (ExpiresAt c' + 60) ->
  aead_separates (normalizeCryptoKey key) [attachTicketAAD P; attachTicketAAD P'] ->
  OpenAttachTicket key tok P' now =
    if decide (P' = "") then
      Err (TicketInvalid "an anonymous caller cannot redeem an attach ticket")
    else if decide (P <> P') then Err (TicketInvalid "attach ticket failed verification")
    else if decide (now + 60 < IssuedAt c')%Z then
      Err (TicketExpired "attach ticket is not yet valid")
    else if decide (ExpiresAt c' <> 0 /\ ExpiresAt c' + 60 <= now)%Z then
      Err (TicketExpired "attach ticket has expired")
    else Ok c'.
Proof.
  intros Em Hc Hnow Hexp Hsep.
  apply mint_inv in Em as (HP & _ & _ & Hid & Hcat & Hlife & Hn & Hl & payload & Ep & ->).
  case_decide as D1.
  { subst P'. unfold OpenAttachTicket.
    destruct (ticketText_split key P nonce payload) as [-> ->].
    rewrite (proj2 (Z.ltb_ge _ _)) by lia. cbn [negb].
    by rewrite decode_base64_encode. }
  rewrite open_ticketText by done. case_decide as D2.
  - rewrite (openBytes_wrong_aad payload key (attachTicketAAD P) _ _ nonce _ _ Hsep);
      [done|set_solver|set_solver| |by apply sealBytesWithNonce_ok].
    intros E. apply D2, sb_inj. unfold attachTicketAAD in E. by simplify_list_eq.
  - subst P'.
    rewrite (openBytes_seal payload key _ _ nonce) by by apply sealBytesWithNonce_ok.
    rewrite (decode_encode_payload c' payload) by (unfold claims_ok, claims_encodable in *; tauto).
    unfold lifetimeVerdict, attachTicketClockSkew. rewrite !s64_small by done.
    case_decide as D3; [by rewrite (proj2 (Z.ltb_lt _ _))|].
    rewrite (proj2 (Z.ltb_ge _ _)) by lia. cbn [negb].
    case_decide as D4; (destruct (_ && _) eqn:B; [apply andb_true_iff in B|apply andb_false_iff in B]);
      rewrite ?negb_true_iff, ?negb_false_iff, ?Z.eqb_neq, ?Z.eqb_eq, ?Z.leb_le, ?Z.leb_gt in B;
      try done; exfalso; lia.
Qed.

(** nothing but a minted ticket opens. Whatever text opens for a
    principal is the text [mintAttachTicket] gives for that principal, those
    claims and some nonce under the same key, with a principal that is not
    anonymous and a time within the lifetime. *)
Theorem opened_ticket_was_minted key tok P now c :
  OpenAttachTicket key tok P now = Ok c ->
  P <> "" /\ claims_ok c /\ lifetimeVerdict c now = Ok c /\
  exists nonce, mintAttachTicket key P c nonce None = Ok (tok, c).
Proof.
  intros E. apply open_inv in E as (HP & Hc & Hv & nonce & payload & -> & Hp & Hn & Hl).
  do 3 (split; [done|]). exists nonce. by apply mint_ok.
Qed.

End ticket_properties.

(** An expiry within the skew of the largest int64 wraps around: such a ticket
    is refused as expired from the start. *)
Lemma expiry_wraps : exists c, claims_ok c /\
  lifetimeVerdict c 1000 = Err (TicketExpired "attach ticket has expired").
Proof.
  exists {| IssuedAt := 1000; ExpiresAt := 2 ^ 63 - 1;
            TicketID := "00112233445566778899aabbccddeeff"; CatalogName := "c";
            DataVersionSpec := ""; ImplementationVersion := ""; OptionsIPC := [] |}.
  split; [by apply (bool_decide_unpack _)|]. vm_compute. reflexivity.
Qed.

(** ** Redemption and sealing of an attach *)

Record AttachOptionSpec := { optName : string; optRequired : bool; optSecret : bool }.

(** A first-row value of an Arrow column, as far as the code looks at it:
    null, a string (utf8, large utf8 or string view), or anything else. *)
Inductive Cell := CellNull | CellString (s : string) | CellOther.

(** What [ipc.NewReader] and its first [Next] give for a byte string: no
    stream, a broken stream, a stream without a batch, or a batch with its
    row count and its columns in order (the name and the first-row cell, the
    latter meaningful when there is a row). *)
Inductive ipc_stream :=
| IpcNoStream | IpcBroken | IpcNoBatch
| IpcBatch (rows : nat) (cols : list (string * Cell)).

(** The Arrow IPC decoder is third-party code: a parameter, together with the
    decoding of a serialized attach option spec, which is such a record. *)
Class ArrowIPC := {
  ipc_read : bytes -> ipc_stream;
  DeserializeAttachOptionSpec : bytes -> option AttachOptionSpec
}.

Record CatalogAttachRequestWire := {
  reqName : string;
  reqOptions : option bytes;
  reqDataVersionSpec : option string;
  reqImplementationVersion : option string;
  reqClientCapabilities : option bytes
}.

Definition callerPrincipal (auth : option AuthContext) : string :=
  match auth with
  | None => ""
  | Some a => if Authenticated a then Principal a else ""
  end.

Section redeem.
Context `{Aead} `{ArrowIPC}.

Definition DeserializeRecordBatch (data : bytes) : option (nat * list (string * Cell)) :=
  match ipc_read data with IpcBatch rows cols => Some (rows, cols) | _ => None end.

Definition attachOptionsRow (optionsIPC : bytes)
    : result ticket_error (option (list (string * Cell))) :=
  match optionsIPC with
  | [] => Ok None
  | _ :: _ =>
      match ipc_read optionsIPC with
      | IpcNoStream | IpcBroken => Err ReadingOptions
      | IpcNoBatch => Ok None
      | IpcBatch rows cols => Ok (if bool_decide (rows = 0) then None else Some cols)
      end
  end.

Definition stringOption (c : Cell) : option string :=
  match c with CellString s => Some s | _ => None end.

(** The index of the first column named like the option, whatever its case. *)
Definition ticketColumn (cols : list (string * Cell)) : option (nat * (string * Cell)) :=
  list_find (fun nc => EqualFold (fst nc) AttachTicketOption = true) cols.

Definition otherOptions (cols : list (string * Cell)) (ticketCol : nat)
    : list (string * violation_text) :=
  map (fun nc : nat * (string * Cell) => ("options." +:+ fst (snd nc),
         Desc ("not allowed alongside " +:+ AttachTicketOption)))
    (filter (fun nc : nat * (string * Cell) => fst nc <> ticketCol) (imap pair cols)).

Definition nonEmpty (s : string) : option string := if bool_decide (s = "") then None else Some s.

(** [None] leaves the request alone. *)
Definition redeemAttachTicket (req : CatalogAttachRequestWire) (signingKey : bytes)
    (auth : option AuthContext) (now : Z)
    : result ticket_error (option CatalogAttachRequestWire) :=
  match reqOptions req with
  | None => Ok None
  | Some options =>
      let? row := attachOptionsRow options in
      match row with
      | None => Ok None
      | Some cols =>
          match ticketColumn cols with
          | None => Ok None
          | Some (ticketCol, (_, cell)) =>
              let violations := otherOptions cols ticketCol in
              if negb (bool_decide (length violations = 0))
              then Err (ticketInvalidRequest
                          (AttachTicketOption +:+ " must be the only attach option") violations)
              else
              match stringOption cell with
              | None => Err (ticketInvalid (AttachTicketOption +:+ " must be a string"))
              | Some token =>
                  if bool_decide (length signingKey = 0)
                  then Err (ticketInvalid "this worker does not redeem attach tickets")
                  else
                  let? claims := OpenAttachTicket signingKey token (callerPrincipal auth) now in
                  let? opts :=
                    (if bool_decide (length (OptionsIPC claims) = 0) then Ok None
                     else match DeserializeRecordBatch (OptionsIPC claims) with
                          | None => Err (ticketInvalid
                                           "attach ticket options are not an Arrow IPC record")
                          | Some _ => Ok (Some (OptionsIPC claims))
                          end) in
                  Ok (Some {| reqName := CatalogName claims;
                              reqOptions := opts;
                              reqDataVersionSpec := nonEmpty (DataVersionSpec claims);
                              reqImplementationVersion := nonEmpty (ImplementationVersion claims);
                              reqClientCapabilities := reqClientCapabilities req |})
              end
          end
      end
  end.

(** ** The worker's catalogs and their declared options *)

(** The parts of [Worker] that declare catalogs: its own catalog and options,
    the override of its catalog record, the aliases with their records and
    options, and the routed catalogs (a sub-catalog's worker, or [None] for a
    memory catalog). *)
Inductive TicketWorker := MkTicketWorker
  (catalogName : string)
  (catalogInfoOverride : option (string * option (list bytes)))
  (attachOptions : list AttachOptionSpec)
  (catalogAliasInfos : list (string * option (list bytes)))
  (catalogAttachOptions : list (string * list AttachOptionSpec))
  (routes : list (string * option TicketWorker)).

(** A Go map with string keys, as the list of its entries. *)
Definition assoc {A} (k : string) (l : list (string * A)) : option A :=
  snd <$> List.find (fun kv => bool_decide (fst kv = k)) l.

Definition fromSerialized (raw : list bytes) : result ticket_error (list AttachOptionSpec) :=
  map_result (fun b => match DeserializeAttachOptionSpec b with
                       | None => Err SpecDecode | Some s => Ok s end) raw.

(** The specs and whether the worker lists such a catalog at all. *)
Fixpoint declaredAttachOptions (w : TicketWorker) (catalogName : string)
    : result ticket_error (option (list AttachOptionSpec)) :=
  match w with
  | MkTicketWorker own override opts aliases aliasOpts routes =>
      let primary := match override with
                     | Some (n, _) => if bool_decide (n = "") then own else n
                     | None => own
                     end in
      if bool_decide (catalogName = primary) then
        match override with
        | Some (_, Some raw) => let? s := fromSerialized raw in Ok (Some s)
        | _ => Ok (Some opts)
        end
      else
      match assoc catalogName aliases with
      | Some (Some raw) => let? s := fromSerialized raw in Ok (Some s)
      | Some None => Ok (Some (default [] (assoc catalogName aliasOpts)))
      | None =>
          (fix find (l : list (string * option TicketWorker)) :=
             match l with
             | [] => Ok None
             | (n, r) :: l =>
                 if bool_decide (n = catalogName) then
                   match r with
                   | Some child => declaredAttachOptions child catalogName
                   | None => Ok (Some [])
                   end
                 else find l
             end) routes
      end
  end.

(** ** seal_attach *)

Record SealAttachRequestWire := {
  sealCatalogName : string;
  sealOptions : option bytes;
  sealDataVersionSpec : string;
  sealImplementationVersion : string;
  TTLSeconds : Z
}.

Record AttachTicketWire := { wireTicket : string; wireExpiresAt : option Z }.

(** The options step: the names, the record to seal, and its violations. *)
Definition sealOptionsStep (req : SealAttachRequestWire)
    : list string * bytes * list (string * violation_text) :=
  match sealOptions req with
  | Some ((_ :: _) as raw) =>
      match DeserializeRecordBatch raw with
      | None => ([], [], [("options", Desc "not an Arrow IPC record")])
      | Some (rows, cols) =>
          if (1 <? rows)%nat then ([], [], [("options", Desc "must be a one-row record")])
          else if (rows =? 1)%nat then
            let names := map fst cols in
            (names, if bool_decide (length names = 0) then [] else raw, [])
          else ([], [], [])
      end
  | _ => ([], [], [])
  end.

Context `{Unicode}.

Definition optionViolations (specs : list AttachOptionSpec) (names : list string)
    : list (string * violation_text) :=
  let declared := map (fun s => ToLower (optName s)) specs in
  let supplied := map ToLower names in
  concat (map (fun name =>
      if bool_decide (ToLower name = AttachTicketOption) then
        [("options." +:+ name, Desc "a ticket cannot seal another ticket")]
      else if bool_decide (ToLower name ∈ declared) then []
      else [("options." +:+ name, Desc "not an attach option this catalog declares")]) names)
  ++ concat (map (fun s =>
      if optRequired s && negb (bool_decide (ToLower (optName s) ∈ supplied))
      then [("options." +:+ optName s, Desc "required")] else []) specs).

(** [key] is [worker.ticketSigningKey()]: empty when nil. *)
Definition sealAttach (worker : TicketWorker) (key : bytes) (maxTTL now : Z)
    (cc : option CallContext) (req : SealAttachRequestWire) (rand randID : option bytes)
    : result ticket_error AttachTicketWire :=
  let principal := callerPrincipal (callAuth cc) in
  if bool_decide (principal = "")
  then Err (ticketActionDenied "an anonymous caller cannot seal an attach ticket") else
  if bool_decide (length key = 0)
  then Err (ticketActionDenied "this worker does not seal attach tickets") else
  let v1 := if (TTLSeconds req <? 0)%Z
            then [("ttl_seconds", Desc "must be 0 (as long as allowed) or positive")] else [] in
  let '(names, optionsIPC, v2) := sealOptionsStep req in
  let? known := declaredAttachOptions worker (sealCatalogName req) in
  let v3 := match known with
            | None => [("catalog_name", NoCatalogNamed (sealCatalogName req))]
            | Some specs => optionViolations specs names
            end in
  let v4 := if (attachTicketMaxOptionsBytes <? Z.of_nat (length optionsIPC))%Z
            then [("options", OptionsTooLarge (Z.of_nat (length optionsIPC)))] else [] in
  let violations := v1 ++ v2 ++ v3 ++ v4 in
  if negb (bool_decide (length violations = 0))
  then Err (ticketInvalidRequest "seal_attach request is invalid" violations) else
  let lifetime := if (0 <? TTLSeconds req)%Z && ((maxTTL =? 0)%Z || (TTLSeconds req <? maxTTL)%Z)
                  then TTLSeconds req else maxTTL in
  let expiresAt := if (0 <? lifetime)%Z then s64 (now + lifetime) else 0%Z in
  match MintAttachTicket key principal
          {| IssuedAt := now; ExpiresAt := expiresAt; TicketID := "";
             CatalogName := sealCatalogName req;
             DataVersionSpec := sealDataVersionSpec req;
             ImplementationVersion := sealImplementationVersion req;
             OptionsIPC := optionsIPC |} rand randID with
  | Err e => Err (ticketInvalidRequest "seal_attach request is invalid" [("request", MintError e)])
  | Ok (token, _) =>
      Ok {| wireTicket := token;
            wireExpiresAt := if (expiresAt =? 0)%Z then None else Some expiresAt |}
  end.

End redeem.

(** [w.ticketSigningKey], empty for nil. *)
Definition ticketSigningKey (w : SealState) : bytes :=
  if negb (signingKeyConfigured w) || bool_decide (length (httpSigningKey w) = 0)
  then [] else httpSigningKey w.

(** [redeemAttachTicketInPlace]: the request [catalog_attach] goes on with. *)
Definition redeemAttachTicketInPlace `{Aead} `{ArrowIPC} (w : SealState)
    (req : CatalogAttachRequestWire) (cc : option CallContext) (now : Z)
    : result ticket_error CatalogAttachRequestWire :=
  let? restored := redeemAttachTicket req (ticketSigningKey w) (callAuth cc) now in
  Ok (default req restored).

(** [checkReservedAttachOptions]: no catalog of the worker, or of a routed
    sub-catalog, declares an option with the reserved name. *)
Fixpoint checkReservedAttachOptions (w : TicketWorker) : bool :=
  match w with
  | MkTicketWorker _ _ opts _ aliasOpts routes =>
      let check := forallb (fun s => negb (EqualFold (optName s) AttachTicketOption)) in
      check opts && forallb (fun kv => check (snd kv)) aliasOpts
      && (fix all (l : list (string * option TicketWorker)) :=
            match l with
            | [] => true
            | (_, Some child) :: l => checkReservedAttachOptions child && all l
            | (_, None) :: l => all l
            end) routes
  end.

Section seal_lemmas.
Context `{Aead} `{ArrowIPC} `{Unicode}.

(** A redemption goes through [OpenAttachTicket] on the one option's text. *)
Lemma redeem_inv req key auth now r :
  redeemAttachTicket req key auth now = Ok (Some r) ->
  exists raw rows name token c,
    reqOptions req = Some raw /\ ipc_read raw = IpcBatch rows [(name, CellString token)] /\
    EqualFold name AttachTicketOption = true /\ key <> [] /\
    OpenAttachTicket key token (callerPrincipal auth) now = Ok c /\
    r = {| reqName := CatalogName c;
           reqOptions := if bool_decide (length (OptionsIPC c) = 0) then None
                         else Some (OptionsIPC c);
           reqDataVersionSpec := nonEmpty (DataVersionSpec c);
           reqImplementationVersion := nonEmpty (ImplementationVersion c);
           reqClientCapabilities := reqClientCapabilities req |}.
Proof.
  unfold redeemAttachTicket. intros E.
  destruct (reqOptions req) as [raw|]; [|done].
  destruct (attachOptionsRow raw) as [[cols|]|] eqn:Er; [|done..].
  destruct (ticketColumn cols) as [[i [name cell]]|] eqn:Et; [|done].
  break_if; [done|]. destruct (stringOption cell) as [token|] eqn:Es; [|done].
  break_if; [done|]. destruct (OpenAttachTicket _ _ _ _) as [c|] eqn:Eo; [|done].
  assert (exists rows, ipc_read raw = IpcBatch rows cols) as [rows Hr].
  { unfold attachOptionsRow in Er. destruct raw; [done|].
    destruct (ipc_read _) as [| | |rows cs]; try done. exists rows.
    destruct (bool_decide (rows = 0)); congruence. }
  apply list_find_Some in Et as (Hi & Hn & _). bool_hyps. destruct cell; try done.
  cbn in Es. injection Es as ->.
  assert (cols = [(name, CellString token)]) as ->.
  { match goal with H : length (otherOptions _ _) = 0 |- _ =>
      unfold otherOptions in H; rewrite length_map in H; apply nil_length_inv in H;
      rename H into Hf end.
    assert (forall j x, cols !! j = Some x -> j = i) as Hall.
    { intros j x Hj. destruct (decide (j = i)) as [|Hne]; [done|].
      assert ((j, x) ∈ filter (fun nc : nat * (string * Cell) => fst nc <> i) (imap pair cols))
        as Hin; [|rewrite Hf in Hin; by apply elem_of_nil in Hin].
      apply list_elem_of_filter. split; [done|]. apply list_elem_of_lookup. exists j.
      by rewrite list_lookup_imap, Hj. }
    destruct cols as [|a [|b cols]]; [done| |].
    - pose proof (Hall 0 a eq_refl). subst i. cbn in Hi. congruence.
    - pose proof (Hall 0 a eq_refl). pose proof (Hall 1 b eq_refl). lia. }
  exists raw, rows, name, token, c. do 2 (split; [done|]). split; [done|].
  split; [by intros ->|]. split; [done|].
  case_bool_decide; [congruence|]. destruct (DeserializeRecordBatch _); [|done].
  congruence.
Qed.

Lemma ticketColumn_single name cell :
  EqualFold name AttachTicketOption = true ->
  ticketColumn [(name, cell)] = Some (0, (name, cell)).
Proof. intros Hn. unfold ticketColumn, list_find. by rewrite decide_True. Qed.

Lemma otherOptions_single nc : otherOptions [nc] 0 = [].
Proof. reflexivity. Qed.

(** A redemption of a ticket alone, on a keyed worker. *)
Lemma redeem_ticket req key auth now raw rows name token c :
  reqOptions req = Some raw -> ipc_read raw = IpcBatch (S rows) [(name, CellString token)] ->
  raw <> [] -> EqualFold name AttachTicketOption = true -> key <> [] ->
  OpenAttachTicket key token (callerPrincipal auth) now = Ok c ->
  (OptionsIPC c <> [] -> is_Some (DeserializeRecordBatch (OptionsIPC c))) ->
  redeemAttachTicket req key auth now =
  Ok (Some {| reqName := CatalogName c;
              reqOptions := if bool_decide (length (OptionsIPC c) = 0) then None
                            else Some (OptionsIPC c);
              reqDataVersionSpec := nonEmpty (DataVersionSpec c);
              reqImplementationVersion := nonEmpty (ImplementationVersion c);
              reqClientCapabilities := reqClientCapabilities req |}).
Proof.
  intros Hq Hr Hne Hn Hk Ho Hd. unfold redeemAttachTicket, attachOptionsRow.
  rewrite Hq. destruct raw; [done|]. rewrite Hr, bool_decide_false by done.
  rewrite ticketColumn_single, otherOptions_single by done.
  cbn [length negb stringOption].
  rewrite (bool_decide_true (0 = 0)), (bool_decide_false (length key = 0))
    by by destruct key. cbn [negb]. rewrite Ho.
  destruct (bool_decide (length (OptionsIPC c) = 0)) eqn:Hz; [done|]. bool_hyps.
  destruct Hd as [x ->]; [intros Hnil; by rewrite Hnil in Hz|]. done.
Qed.

Lemma sealOptionsStep_ok req names raw :
  sealOptionsStep req = (names, raw, []) ->
  raw <> [] -> is_Some (DeserializeRecordBatch raw).
Proof.
  unfold sealOptionsStep. intros E Hne.
  repeat (break_match; simplify_eq; try done).
Qed.

Lemma concat_map_nil {A B} (f : A -> list B) l x : concat (map f l) = [] -> x ∈ l -> f x = [].
Proof.
  induction l as [|a l IH]; cbn; intros E Hx; [by apply elem_of_nil in Hx|].
  apply app_eq_nil in E as [E1 E2]. apply elem_of_cons in Hx as [->|Hx]; auto.
Qed.

Lemma optionViolations_nil specs names :
  optionViolations specs names = [] ->
  (forall n, n ∈ names -> ToLower n <> AttachTicketOption /\
     exists s, s ∈ specs /\ ToLower (optName s) = ToLower n) /\
  (forall s, s ∈ specs -> optRequired s = true ->
     exists n, n ∈ names /\ ToLower n = ToLower (optName s)).
Proof.
  unfold optionViolations. intros E. apply app_eq_nil in E as [E1 E2]. split.
  - intros n Hn. pose proof (concat_map_nil _ _ _ E1 Hn) as En. cbv beta in En.
    case_bool_decide; [done|]. split; [done|].
    case_bool_decide as Hd; [|done]. apply list_elem_of_fmap in Hd as (s & Hs & Hin). eauto.
  - intros s Hs Hreq. pose proof (concat_map_nil _ _ _ E2 Hs) as En. cbv beta in En.
    rewrite Hreq in En. cbn in En. case_bool_decide as Hd; [|done].
    apply list_elem_of_fmap in Hd as (n & Hn & Hin). eauto.
Qed.

(** What a successful [seal_attach] established. *)
Lemma sealAttach_inv worker key maxTTL now cc req rand rid out :
  sealAttach worker key maxTTL now cc req rand rid = Ok out ->
  callerPrincipal (callAuth cc) <> "" /\ key <> [] /\ (0 <= TTLSeconds req)%Z /\
  exists names raw specs nonce c,
    sealOptionsStep req = (names, raw, []) /\
    declaredAttachOptions worker (sealCatalogName req) = Ok (Some specs) /\
    optionViolations specs names = [] /\
    mintAttachTicket key (callerPrincipal (callAuth cc))
      {| IssuedAt := now; ExpiresAt := default 0%Z (wireExpiresAt out); TicketID := "";
         CatalogName := sealCatalogName req; DataVersionSpec := sealDataVersionSpec req;
         ImplementationVersion := sealImplementationVersion req; OptionsIPC := raw |}
      nonce rid = Ok (wireTicket out, c) /\
    (let lifetime := if (0 <? TTLSeconds req)%Z
                        && ((maxTTL =? 0)%Z || (TTLSeconds req <? maxTTL)%Z)
                     then TTLSeconds req else maxTTL in
     default 0%Z (wireExpiresAt out) =
       if (0 <? lifetime)%Z then s64 (now + lifetime) else 0%Z).
Proof.
  unfold sealAttach. intros E.
  destruct (bool_decide (callerPrincipal _ = "")) eqn:EP; [done|].
  destruct (bool_decide (length key = 0)) eqn:EK; [done|].
  destruct (sealOptionsStep req) as [[names raw] v2] eqn:Eo.
  destruct (declaredAttachOptions _ _) as [known|] eqn:Ed; [|done].
  match type of E with (if negb (bool_decide (length ?v = 0)) then _ else _) = _ =>
    destruct (bool_decide (length v = 0)) eqn:Hv end; cbn [negb] in E; [|done].
  apply bool_decide_eq_true, nil_length_inv in Hv.
  apply app_eq_nil in Hv as [V1 Hv]. apply app_eq_nil in Hv as [V2 Hv].
  apply app_eq_nil in Hv as [V3 _]. subst v2.
  destruct known as [specs|]; [|done].
  match type of E with context [Build_AttachTicketClaims _ ?x _ _ _ _ _] => set (ex := x) in * end.
  destruct rand as [nonce|]; cbn [MintAttachTicket] in E; [|done].
  destruct (mintAttachTicket _ _ _ _ _) as [[tok c]|] eqn:Em; [|done].
  apply ok_inj in E as <-. cbn [wireTicket wireExpiresAt].
  assert (default 0%Z (if (ex =? 0)%Z then None else Some ex) = ex) as Hex.
  { destruct (Z.eqb_spec ex 0); [by symmetry|done]. }
  split; [by apply bool_decide_eq_false in EP|]. split; [by intros ->|].
  split; [destruct (TTLSeconds req <? 0)%Z eqn:Et; [done|]; by bool_hyps|].
  exists names, raw, specs, nonce, c. rewrite Hex. repeat (split; [done|]). done.
Qed.

End seal_lemmas.

(** ** Properties of sealing and redeeming *)

Section attach_properties.
Context `{Aead} `{ArrowIPC} `{Unicode}.

(** an attach that [seal_attach] sealed is restored by redemption. A
    runner that presents the ticket as its only option, under the same
    principal (whatever its domain) on a worker with the same key, within the
    ticket's lifetime, is given the user's catalog, options record and version
    specs, with its own client capabilities. *)
Theorem sealed_attach_redeems worker key maxTTL now cc req rand rid out
    req' auth' now' raw rows name :
  sealAttach worker key maxTTL now cc req rand rid = Ok out ->
  claims_encodable
    {| IssuedAt := now; ExpiresAt := default 0%Z (wireExpiresAt out); TicketID := "";
       CatalogName := sealCatalogName req; DataVersionSpec := sealDataVersionSpec req;
       ImplementationVersion := sealImplementationVersion req; OptionsIPC := [] |} ->
  callerPrincipal auth' = callerPrincipal (callAuth cc) ->
  reqOptions req' = Some raw -> raw <> [] ->
  ipc_read raw = IpcBatch (S rows) [(name, CellString (wireTicket out))] ->
  EqualFold name AttachTicketOption = true ->
  int64_range (now' + 60) -> (now <= now' + 60)%Z ->
  (forall e, wireExpiresAt out = Some e -> int64_range (e + 60) /\ now' < e + 60)%Z ->
  redeemAttachTicket req' key auth' now' =
  Ok (Some {| reqName := sealCatalogName req;
              reqOptions := match snd (fst (sealOptionsStep req)) with
                            | [] => None | r => Some r end;
              reqDataVersionSpec := nonEmpty (sealDataVersionSpec req);
              reqImplementationVersion := nonEmpty (sealImplementationVersion req);
              reqClientCapabilities := reqClientCapabilities req' |}).
Proof.
  intros Es Hc Hp Hq Hne Hr Hn Hnow Hnb Hna.
  apply sealAttach_inv in Es
    as (_ & Hk & _ & names & o & specs & nonce & c & Eo & _ & _ & Em & _).
  apply mint_inv in Em as (HP & [id ->] & _ & Hid & Hcat & Hlife & Hl & Hlen & payload & Ep & Ht).
  rewrite Eo. cbn [fst snd]. rewrite Ht in Hlen, Hr. rewrite <- Hp in *.
  match type of Ep with encodeTicketPayload ?c' = _ =>
    erewrite (redeem_ticket req' key auth' now' raw rows name _ c' Hq Hr Hne Hn Hk) end.
  - cbn. by destruct o.
  - rewrite open_ticketText by done.
    rewrite (openBytes_seal payload key _ _ nonce) by by apply sealBytesWithNonce_ok.
    rewrite (fun Hok => decode_encode_payload _ payload Hok Ep) by by apply claims_ok_intro.
    unfold lifetimeVerdict, attachTicketClockSkew. cbn.
    rewrite (s64_small (now' + 60)), (proj2 (Z.ltb_ge _ _)) by done. cbn.
    destruct (wireExpiresAt out) as [e|]; cbn in *; [|done].
    destruct (Hna e eq_refl) as [He1 He2]. rewrite s64_small by done.
    by rewrite (proj2 (Z.leb_gt _ _)), andb_false_r by lia.
  - cbn. by apply (sealOptionsStep_ok req names).
Qed.

(** redemption cannot be bypassed or mixed. When [redeemAttachTicket]
    replaces a request, the request's options were one ticket and nothing
    else, the worker holds a signing key, the caller is authenticated, and the
    restored attach is what some ticket minted under that key for the caller's
    own principal seals, within its lifetime. *)
Theorem redeemed_only_from_own_ticket req key auth now r :
  redeemAttachTicket req key auth now = Ok (Some r) ->
  callerPrincipal auth <> "" /\ key <> [] /\
  exists raw rows name token c nonce payload,
    reqOptions req = Some raw /\ ipc_read raw = IpcBatch rows [(name, CellString token)] /\
    token = ticketText key (callerPrincipal auth) nonce payload /\
    encodeTicketPayload c = Ok payload /\ lifetimeVerdict c now = Ok c /\
    reqName r = CatalogName c /\
    (reqOptions r = if bool_decide (length (OptionsIPC c) = 0) then None
                    else Some (OptionsIPC c)) /\
    reqClientCapabilities r = reqClientCapabilities req.
Proof.
  intros E. apply redeem_inv in E as (raw & rows & name & token & c & Hq & Hr & _ & Hk & Ho & ->).
  apply open_inv in Ho as (HP & _ & Hv & nonce & payload & Et & Hp & _).
  do 2 (split; [done|]). by exists raw, rows, name, token, c, nonce, payload.
Qed.

(** what [seal_attach] agrees to seal. Every option of the record is one
    the catalog declares and none is a ticket, every required option is there,
    the requested lifetime is not negative, and on a worker with a maximum
    lifetime the ticket expires, no later than that maximum after now. *)
Theorem sealed_attach_is_declared worker key maxTTL now cc req rand rid out :
  sealAttach worker key maxTTL now cc req rand rid = Ok out ->
  (0 <= TTLSeconds req)%Z /\
  (forall names raw, sealOptionsStep req = (names, raw, []) ->
   exists specs, declaredAttachOptions worker (sealCatalogName req) = Ok (Some specs) /\
     (forall n, n ∈ names -> ToLower n <> AttachTicketOption /\
        exists s, s ∈ specs /\ ToLower (optName s) = ToLower n) /\
     (forall s, s ∈ specs -> optRequired s = true ->
        exists n, n ∈ names /\ ToLower n = ToLower (optName s))) /\
  ((0 < maxTTL)%Z -> int64_range (now + maxTTL) -> (0 <= now)%Z ->
   exists e, wireExpiresAt out = Some e /\ (now < e <= now + maxTTL)%Z).
Proof.
  intros E. apply sealAttach_inv in E
    as (_ & _ & Ht & names & raw & specs & nonce & c & Eo & Ed & Ev & _ & Hexp).
  split; [done|]. split.
  - intros names' raw' Eo'. rewrite Eo in Eo'. injection Eo' as <- <-.
    exists specs. split; [done|]. by apply optionViolations_nil.
  - intros Hm Hr Hn. cbv zeta in Hexp. unfold int64_range in *.
    assert (exists l, (0 < l <= maxTTL)%Z /\ default 0%Z (wireExpiresAt out) = s64 (now + l))
      as (l & Hl & He).
    { destruct ((0 <? TTLSeconds req)%Z && _) eqn:B.
      - apply andb_true_iff in B as [B1 B2]. apply orb_true_iff in B2 as [B2|B2]; bool_hyps; [lia|].
        rewrite (proj2 (Z.ltb_lt _ _)) in Hexp by lia. exists (TTLSeconds req). split; [lia|done].
      - rewrite (proj2 (Z.ltb_lt _ _)) in Hexp by lia. exists maxTTL. split; [lia|done]. }
    rewrite s64_small in He by (unfold int64_range; lia).
    destruct (wireExpiresAt out) as [e|]; cbn in He; [|lia]. exists e. split; [done|lia].
Qed.

End attach_properties.

(** ** Witnesses *)

#[local] Existing Instance DigestAead.digest_aead.
#[local] Existing Instance AsciiText.ascii_text.

(** A decoder for the witnesses: a stream is the column name, a colon and the
    string in it; a spec is the name of a required option. *)
#[local] Instance colon_ipc : ArrowIPC :=
  {| ipc_read := fun b =>
       match index_byte b x3a with
       | Some i => IpcBatch 1 [(bstr (take i b), CellString (bstr (drop (S i) b)))]
       | None => IpcBroken
       end;
     DeserializeAttachOptionSpec := fun b =>
       Some {| optName := bstr b; optRequired := true; optSecret := false |} |}.

Definition w_claims : AttachTicketClaims :=
  {| IssuedAt := 1000; ExpiresAt := 4600; TicketID := "00112233445566778899aabbccddeeff";
     CatalogName := "crm"; DataVersionSpec := "1.2"; ImplementationVersion := "";
     OptionsIPC := sb "token:secret" |}.
Definition w_nonce : bytes := repeat x07 24.
Definition w_key : bytes := sb "k".
Definition w_worker : TicketWorker :=
  MkTicketWorker "crm" None [{| optName := "Token"; optRequired := true; optSecret := true |}]
    [] [] [].
Definition w_caller : CallContext :=
  {| cc_Auth := Some {| Domain := "jwt"; Authenticated := true; Principal := "ann" |};
     cc_attachmentScope := None |}.
Definition w_runner : option AuthContext :=
  Some {| Domain := "grant"; Authenticated := true; Principal := "ann" |}.
Definition w_seal : SealAttachRequestWire :=
  {| sealCatalogName := "crm"; sealOptions := Some (sb "token:secret");
     sealDataVersionSpec := "1.2"; sealImplementationVersion := ""; TTLSeconds := 600 |}.

Definition w_tok : string :=
  match mintAttachTicket w_key "ann" w_claims w_nonce None with Ok (t, _) => t | Err _ => "" end.

Lemma minted_ticket_verdict_witness :
  OpenAttachTicket w_key w_tok "ann" 2000 = Ok w_claims.
Proof.
  exact (minted_ticket_verdict (H := DigestAead.digest_aead) w_key "ann" w_claims w_nonce None w_tok w_claims "ann" 2000
    ltac:(vm_compute; reflexivity) ltac:(apply (bool_decide_unpack _); vm_compute; exact I)
    ltac:(apply (bool_decide_unpack _); vm_compute; exact I)
    ltac:(apply (bool_decide_unpack _); vm_compute; exact I) ltac:(solve_separates)).
Defined.

Lemma opened_ticket_was_minted_witness :
  exists nonce, mintAttachTicket w_key "ann" w_claims nonce None = Ok (w_tok, w_claims).
Proof.
  exact (proj2 (proj2 (proj2 (opened_ticket_was_minted (H := DigestAead.digest_aead) w_key w_tok "ann" 2000 w_claims
    ltac:(vm_compute; reflexivity))))).
Defined.

Definition w_sealed : AttachTicketWire :=
  match sealAttach w_worker w_key 3600 1000 (Some w_caller) w_seal (Some w_nonce)
          (Some (repeat x01 16)) with
  | Ok out => out
  | Err _ => {| wireTicket := ""; wireExpiresAt := None |}
  end.
Definition w_raw : bytes := sb ("VGI_Attach_Ticket:" +:+ wireTicket w_sealed).
Definition w_req : CatalogAttachRequestWire :=
  {| reqName := "any"; reqOptions := Some w_raw; reqDataVersionSpec := None;
     reqImplementationVersion := None; reqClientCapabilities := Some [x01] |}.
Definition w_restored : CatalogAttachRequestWire :=
  {| reqName := "crm"; reqOptions := Some (sb "token:secret");
     reqDataVersionSpec := Some "1.2"; reqImplementationVersion := None;
     reqClientCapabilities := Some [x01] |}.

Lemma sealed_attach_redeems_witness :
  redeemAttachTicket w_req w_key w_runner 1500 = Ok (Some w_restored).
Proof.
  exact (sealed_attach_redeems (H := DigestAead.digest_aead) (H0 := colon_ipc) (H1 := AsciiText.ascii_text) w_worker w_key 3600 1000 (Some w_caller) w_seal (Some w_nonce)
    (Some (repeat x01 16)) w_sealed w_req w_runner 1500 w_raw 0 "VGI_Attach_Ticket"
    ltac:(vm_compute; reflexivity) ltac:(apply (bool_decide_unpack _); vm_compute; exact I)
    eq_refl eq_refl ltac:(vm_compute; discriminate) ltac:(vm_compute; reflexivity)
    ltac:(vm_compute; reflexivity) ltac:(apply (bool_decide_unpack _); vm_compute; exact I)
    ltac:(vm_compute; discriminate)
    ltac:(intros e He; assert (e = 1600%Z) as -> by (vm_compute in He; congruence);
          split; [apply (bool_decide_unpack _); vm_compute; exact I | lia])).
Defined.

Lemma redeemed_only_from_own_ticket_witness :
  callerPrincipal w_runner <> "".
Proof.
  exact (proj1 (redeemed_only_from_own_ticket (H := DigestAead.digest_aead) (H0 := colon_ipc) w_req w_key w_runner 1500 w_restored
    ltac:(vm_compute; reflexivity))).
Defined.

Lemma sealed_attach_is_declared_witness :
  exists e, wireExpiresAt w_sealed = Some e /\ (1000 < e <= 1000 + 3600)%Z.
Proof.
  exact (proj2 (proj2 (sealed_attach_is_declared (H := DigestAead.digest_aead) (H0 := colon_ipc) (H1 := AsciiText.ascii_text) w_worker w_key 3600 1000 (Some w_caller) w_seal
    (Some w_nonce) (Some (repeat x01 16)) w_sealed ltac:(vm_compute; reflexivity)))
    ltac:(lia) ltac:(apply (bool_decide_unpack _); vm_compute; exact I) ltac:(lia)).
Defined.
