(* ===== verification/Capabilities.v ===== *)
(** * Capabilities: the negotiation of catalog profiles at ATTACH
    (vgi/attach_profiles.go)

    A worker advertises profiles by category, a client offers the ones it
    speaks, and the attach result carries what was selected: the intersection,
    with the prerequisites between profiles applied. The Arrow rows the records
    travel in are a parameter. *)

From S2P Require Import Prelude.
From S2P Require Import Bytes.
From S2P Require Import Strings.

(** ** Profiles and records *)

Definition ConstraintRecordsReadProfile : string := "vgi.constraint.records.read.v1".
Definition ScalarExpressionReadProfile : string := "vgi.expression.duckdb.scalar.v1".
Definition ConstraintCreateProfile : string := "vgi.constraint.create.v1".
Definition ConstraintEnforceProfile : string := "vgi.constraint.enforce.v1".
Definition ConstraintMutateProfile : string := "vgi.constraint.mutate.v1".

Record CatalogCapabilities := {
  Read : list string;
  Ddl : list string;
  Write : list string;
  Transaction : list string
}.
#[global] Instance CatalogCapabilities_dec : EqDecision CatalogCapabilities.
Proof. solve_decision. Defined.

Definition noCapabilities : CatalogCapabilities :=
  {| Read := []; Ddl := []; Write := []; Transaction := [] |}.

Inductive capability_error :=
| BadAdvertised      (* "attach validator catalog_capabilities: ..." *)
| BadSelected        (* "attach validator selected_capabilities: ..." *)
| BadClient          (* "ClientCapabilities: ..." *)
| BadOffer           (* "CatalogCapabilities: ..." *)
| EncodeCapabilities. (* the row could not be written *)

(** The canonical rows of the protocol, written and read by the Arrow library.
    A [CatalogCapabilities] row reads back as it was written and is never the
    empty byte string, which stands for no profiles. *)
Class CapabilityRows := {
  write_capabilities : CatalogCapabilities -> option bytes;
  read_capabilities : bytes -> option CatalogCapabilities;
  client_catalog : bytes -> option (option bytes);
  read_write_capabilities : forall c b,
    write_capabilities c = Some b -> b <> [] /\ read_capabilities b = Some c
}.

Section capabilities.
Context `{CapabilityRows}.

Definition decodeCapabilities (data : option bytes) : option CatalogCapabilities :=
  match data with
  | None | Some [] => Some noCapabilities
  | Some b => read_capabilities b
  end.

Definition EncodeCatalogCapabilities (c : CatalogCapabilities)
    : result capability_error bytes :=
  match write_capabilities
          {| Read := sortedUnique (Read c); Ddl := sortedUnique (Ddl c);
             Write := sortedUnique (Write c);
             Transaction := sortedUnique (Transaction c) |} with
  | None => Err EncodeCapabilities
  | Some b => Ok b
  end.

Definition clientCatalogOffer (clientCapabilities : bytes)
    : result capability_error (option CatalogCapabilities) :=
  match client_catalog clientCapabilities with
  | None => Err BadClient
  | Some None => Ok None
  | Some (Some value) =>
      match decodeCapabilities (Some value) with
      | None => Err BadOffer
      | Some offer => Ok (Some offer)
      end
  end.

Definition finishReadSelection (selected : list string) : list string :=
  sortedUnique
    (if Contains selected ConstraintRecordsReadProfile then selected
     else filter (fun p => p <> ScalarExpressionReadProfile) selected).

Definition pick (available offered : list string) : list string :=
  sortedUnique (filter (fun p => p ∈ offered) available).

(** The DDL and write profiles that need [ConstraintRecordsReadProfile]. *)
Definition needsRecords (p : string) : Prop :=
  p = ConstraintCreateProfile \/ p = ConstraintEnforceProfile \/ p = ConstraintMutateProfile.
#[local] Instance needsRecords_dec p : Decision (needsRecords p).
Proof. unfold needsRecords. apply _. Defined.

Definition SelectCatalogCapabilities (available : CatalogCapabilities)
    (clientCapabilities : bytes) : result capability_error CatalogCapabilities :=
  match clientCapabilities with
  | [] => Ok noCapabilities
  | _ :: _ =>
      let? offer := clientCatalogOffer clientCapabilities in
      match offer with
      | None => Ok noCapabilities
      | Some offer =>
          let read := finishReadSelection (pick (Read available) (Read offer)) in
          let ddl := pick (Ddl available) (Ddl offer) in
          let write := pick (Write available) (Write offer) in
          let transaction := pick (Transaction available) (Transaction offer) in
          if Contains read ConstraintRecordsReadProfile then
            Ok {| Read := read; Ddl := ddl; Write := write; Transaction := transaction |}
          else
            Ok {| Read := read; Ddl := filter (fun p => ~ needsRecords p) ddl;
                  Write := filter (fun p => ~ needsRecords p) write;
                  Transaction := transaction |}
      end
  end.

Definition union (a b : list string) : list string := sortedUnique (a ++ b).

Definition mergeCapabilities (sdk : CatalogCapabilities)
    (available selected clientCapabilities : option bytes)
    : result capability_error (option bytes * option bytes) :=
  if bool_decide (length (Read sdk) + length (Ddl sdk) + length (Write sdk)
                  + length (Transaction sdk) = 0)
  then Ok (available, selected) else
  match decodeCapabilities available with
  | None => Err BadAdvertised
  | Some advertised =>
  match decodeCapabilities selected with
  | None => Err BadSelected
  | Some chosen =>
      let? picked := SelectCatalogCapabilities sdk (default [] clientCapabilities) in
      let? a := EncodeCatalogCapabilities
                  {| Read := union (Read advertised) (Read sdk);
                     Ddl := union (Ddl advertised) (Ddl sdk);
                     Write := union (Write advertised) (Write sdk);
                     Transaction := union (Transaction advertised) (Transaction sdk) |} in
      let? s := EncodeCatalogCapabilities
                  {| Read := finishReadSelection (union (Read chosen) (Read picked));
                     Ddl := union (Ddl chosen) (Ddl picked);
                     Write := union (Write chosen) (Write picked);
                     Transaction := union (Transaction chosen) (Transaction picked) |} in
      Ok (Some a, Some s)
  end
  end.

Definition mergeReadProfiles (sdk : list string)
    (available selected clientCapabilities : option bytes)
    : result capability_error (option bytes * option bytes) :=
  mergeCapabilities {| Read := sdk; Ddl := []; Write := []; Transaction := [] |}
    available selected clientCapabilities.

Definition ReadProfilesDecision (clientCapabilities : bytes) (profiles : list string)
    : result capability_error (bytes * bytes) :=
  let advertised := {| Read := profiles; Ddl := []; Write := []; Transaction := [] |} in
  let? chosen := SelectCatalogCapabilities advertised clientCapabilities in
  let? available := EncodeCatalogCapabilities advertised in
  let? selected := EncodeCatalogCapabilities chosen in
  Ok (available, selected).

End capabilities.

(** ** What is in a selection *)

Definition canonical (c : CatalogCapabilities) : Prop :=
  sortedUnique (Read c) = Read c /\ sortedUnique (Ddl c) = Ddl c /\
  sortedUnique (Write c) = Write c /\ sortedUnique (Transaction c) = Transaction c.

(** The offer a client makes: nothing when it sends no capabilities, or none
    for catalogs. *)
Definition offers `{CapabilityRows} (client : bytes) (offer : CatalogCapabilities) : Prop :=
  (client = [] /\ offer = noCapabilities) \/
  (clientCatalogOffer client = Ok None /\ offer = noCapabilities) \/
  (client <> [] /\ clientCatalogOffer client = Ok (Some offer)).

Lemma sortedUnique_idemp l : sortedUnique (sortedUnique l) = sortedUnique l.
Proof. apply sortedUnique_ext. intros x. by rewrite !elem_of_sortedUnique. Qed.

Lemma sortedUnique_filter (P : string -> Prop) `{!forall x, Decision (P x)} l :
  sortedUnique (filter P (sortedUnique l)) = filter P (sortedUnique l).
Proof.
  apply canonical_ext; auto using sortedUnique_sorted, sortedUnique_NoDup.
  - pose proof (sortedUnique_sorted l) as Hs. induction Hs as [|x k Hk IH Hf]; [constructor|].
    rewrite filter_cons. case_decide; [|done]. constructor; [done|].
    apply Forall_forall. intros y [_ Hy]%list_elem_of_filter.
    by apply (proj1 (Forall_forall _ _) Hf).
  - apply NoDup_filter, sortedUnique_NoDup.
  - intros x. by rewrite elem_of_sortedUnique.
Qed.

Lemma elem_of_pick p a o : p ∈ pick a o <-> p ∈ a /\ p ∈ o.
Proof. unfold pick. rewrite elem_of_sortedUnique, list_elem_of_filter. tauto. Qed.

Lemma elem_of_union p a b : p ∈ union a b <-> p ∈ a \/ p ∈ b.
Proof. unfold union. by rewrite elem_of_sortedUnique, elem_of_app. Qed.

Lemma elem_of_finish p l :
  p ∈ finishReadSelection l <->
  p ∈ l /\ (p = ScalarExpressionReadProfile -> ConstraintRecordsReadProfile ∈ l).
Proof.
  unfold finishReadSelection, Contains. rewrite elem_of_sortedUnique.
  case_bool_decide as Hc; [tauto|]. rewrite list_elem_of_filter. tauto.
Qed.

Section capability_lemmas.
Context `{CapabilityRows}.

Lemma decode_encode c b :
  EncodeCatalogCapabilities c = Ok b -> canonical c -> decodeCapabilities (Some b) = Some c.
Proof.
  unfold EncodeCatalogCapabilities. intros E (C1 & C2 & C3 & C4).
  rewrite C1, C2, C3, C4 in E.
  destruct (write_capabilities _) as [b'|] eqn:Ew; [|done]. apply ok_inj in E as <-.
  apply read_write_capabilities in Ew as [Hne Hr]. cbn. destruct b'; [done|].
  rewrite Hr. by destruct c.
Qed.

Lemma finish_canonical l : sortedUnique (finishReadSelection l) = finishReadSelection l.
Proof. unfold finishReadSelection. apply sortedUnique_idemp. Qed.

Lemma select_spec available client sel :
  SelectCatalogCapabilities available client = Ok sel ->
  exists offer, offers client offer /\ canonical sel /\
    (forall p, p ∈ Read sel <-> p ∈ Read available /\ p ∈ Read offer /\
       (p = ScalarExpressionReadProfile ->
          ConstraintRecordsReadProfile ∈ Read available /\
          ConstraintRecordsReadProfile ∈ Read offer)) /\
    (forall p, p ∈ Ddl sel <-> p ∈ Ddl available /\ p ∈ Ddl offer /\
       (needsRecords p -> ConstraintRecordsReadProfile ∈ Read sel)) /\
    (forall p, p ∈ Write sel <-> p ∈ Write available /\ p ∈ Write offer /\
       (needsRecords p -> ConstraintRecordsReadProfile ∈ Read sel)) /\
    (forall p, p ∈ Transaction sel <-> p ∈ Transaction available /\ p ∈ Transaction offer).
Proof.
  assert (canonical noCapabilities) as Hn by done.
  unfold SelectCatalogCapabilities. intros E. destruct client as [|b client].
  { apply ok_inj in E as <-. exists noCapabilities.
    split; [by left|]. split; [done|]. cbn. set_solver. }
  destruct (clientCatalogOffer _) as [[offer|]|] eqn:Eo; [| |done].
  2:{ apply ok_inj in E as <-. exists noCapabilities.
      split; [right; by left|]. split; [done|]. cbn. set_solver. }
  exists offer. split; [right; by right|].
  destruct (Contains _ _) eqn:Ec; apply ok_inj in E as <-; cbn [Read Ddl Write Transaction];
    unfold Contains in Ec; bool_hyps; rewrite elem_of_finish, elem_of_pick in Ec.
  - split; [by repeat split; rewrite ?finish_canonical; apply sortedUnique_idemp|].
    setoid_rewrite elem_of_finish. setoid_rewrite elem_of_pick. naive_solver.
  - split.
    { repeat split; rewrite ?finish_canonical; try apply sortedUnique_filter;
        apply sortedUnique_idemp. }
    setoid_rewrite elem_of_finish. setoid_rewrite list_elem_of_filter.
    setoid_rewrite elem_of_pick. naive_solver.
Qed.

End capability_lemmas.

(** ** Properties *)

Section capability_properties.
Context `{CapabilityRows}.

(** negotiation selects exactly the offered intersection. A profile is
    selected if and only if it is advertised and offered in its category and
    its prerequisite is met: the scalar-expression read needs the constraint
    records read to be selected too, and so do the constraint DDL and write
    profiles. A client that offers nothing gets nothing, and the selection is
    sorted without duplicates. *)
Theorem selection_exact available client sel :
  SelectCatalogCapabilities available client = Ok sel ->
  exists offer, offers client offer /\ canonical sel /\
    (forall p, p ∈ Read sel <-> p ∈ Read available /\ p ∈ Read offer /\
       (p = ScalarExpressionReadProfile -> ConstraintRecordsReadProfile ∈ Read sel)) /\
    (forall p, p ∈ Ddl sel <-> p ∈ Ddl available /\ p ∈ Ddl offer /\
       (needsRecords p -> ConstraintRecordsReadProfile ∈ Read sel)) /\
    (forall p, p ∈ Write sel <-> p ∈ Write available /\ p ∈ Write offer /\
       (needsRecords p -> ConstraintRecordsReadProfile ∈ Read sel)) /\
    (forall p, p ∈ Transaction sel <-> p ∈ Transaction available /\ p ∈ Transaction offer).
Proof.
  intros E. apply select_spec in E as (offer & Ho & Hc & Hr & Hd & Hw & Ht).
  exists offer. do 2 (split; [done|]). split; [|done]. intros p.
  rewrite (Hr ConstraintRecordsReadProfile), (Hr p).
  assert (ConstraintRecordsReadProfile <> ScalarExpressionReadProfile) by done. tauto.
Qed.

(** merging keeps what an attach validator decided. Whenever the SDK has
    profiles of its own, the attach result advertises exactly the validator's
    profiles and the SDK's, and selects exactly the validator's selection and
    the SDK's negotiated one, less a scalar-expression read that ends up
    without constraint records. *)
Theorem merge_keeps_validator sdk available selected client a s :
  mergeCapabilities sdk available selected client = Ok (a, s) ->
  Read sdk ++ Ddl sdk ++ Write sdk ++ Transaction sdk <> [] ->
  exists advertised chosen picked A S,
    decodeCapabilities available = Some advertised /\
    decodeCapabilities selected = Some chosen /\
    SelectCatalogCapabilities sdk (default [] client) = Ok picked /\
    decodeCapabilities a = Some A /\ decodeCapabilities s = Some S /\
    (forall p, p ∈ Read A <-> p ∈ Read advertised \/ p ∈ Read sdk) /\
    (forall p, p ∈ Ddl A <-> p ∈ Ddl advertised \/ p ∈ Ddl sdk) /\
    (forall p, p ∈ Write A <-> p ∈ Write advertised \/ p ∈ Write sdk) /\
    (forall p, p ∈ Transaction A <-> p ∈ Transaction advertised \/ p ∈ Transaction sdk) /\
    (forall p, p ∈ Read S <-> (p ∈ Read chosen \/ p ∈ Read picked) /\
       (p = ScalarExpressionReadProfile ->
        ConstraintRecordsReadProfile ∈ Read chosen \/
        ConstraintRecordsReadProfile ∈ Read picked)) /\
    (forall p, p ∈ Ddl S <-> p ∈ Ddl chosen \/ p ∈ Ddl picked) /\
    (forall p, p ∈ Write S <-> p ∈ Write chosen \/ p ∈ Write picked) /\
    (forall p, p ∈ Transaction S <-> p ∈ Transaction chosen \/ p ∈ Transaction picked).
Proof.
  unfold mergeCapabilities. intros E Hne. rewrite <- !length_app, <- !app_assoc in E.
  rewrite bool_decide_false in E by (intros Hz; by apply nil_length_inv in Hz).
  destruct (decodeCapabilities available) as [adv|]; [|done].
  destruct (decodeCapabilities selected) as [cho|]; [|done].
  destruct (SelectCatalogCapabilities _ _) as [pic|]; [|done].
  destruct (EncodeCatalogCapabilities _) as [a'|] eqn:Ea; [|done].
  destruct (EncodeCatalogCapabilities _) as [s'|] eqn:Es in E; [|done].
  apply ok_inj in E. injection E as <- <-.
  apply decode_encode in Ea;
    [|by repeat split; cbn; apply sortedUnique_idemp].
  apply decode_encode in Es;
    [|by repeat split; cbn; rewrite ?finish_canonical; try done; apply sortedUnique_idemp].
  eexists adv, cho, pic, _, _. do 3 (split; [done|]). split; [exact Ea|]. split; [exact Es|].
  cbn [Read Ddl Write Transaction]. setoid_rewrite elem_of_finish.
  setoid_rewrite elem_of_union. done.
Qed.

End capability_properties.

(** ** Witnesses *)

(** A row format for the witnesses: one line per profile, its category and a
    final NUL, behind a bracket. A record the reader would not give back is not
    written. Client capabilities are the catalog offer itself. *)
Module LineRows.
Definition write_line (tag : byte) (p : string) : bytes := tag :: sb p ++ [x00].
Definition raw (c : CatalogCapabilities) : bytes :=
  x5b :: concat (map (write_line x52) (Read c)) ++ concat (map (write_line x44) (Ddl c))
    ++ concat (map (write_line x57) (Write c)) ++ concat (map (write_line x54) (Transaction c)).
Fixpoint lines (fuel : nat) (b : bytes) : list (byte * string) :=
  match fuel, b with
  | S fuel, tag :: b =>
      match index_byte b x00 with
      | Some i => (tag, bstr (take i b)) :: lines fuel (drop (S i) b)
      | None => []
      end
  | _, _ => []
  end.
Definition read (b : bytes) : option CatalogCapabilities :=
  let ls := lines (length b) (drop 1 b) in
  let cat t := map snd (filter (fun l : byte * string => fst l = t) ls) in
  Some {| Read := cat x52; Ddl := cat x44; Write := cat x57; Transaction := cat x54 |}.
Definition write (c : CatalogCapabilities) : option bytes :=
  if decide (read (raw c) = Some c) then Some (raw c) else None.

Lemma read_write c b : write c = Some b -> b <> [] /\ read b = Some c.
Proof. unfold write. intros E. case_decide as Hr; [|done]. injection E as <-. by split. Qed.

#[export] Instance rows : CapabilityRows :=
  {| write_capabilities := write; read_capabilities := read;
     client_catalog := fun b => Some (Some b); read_write_capabilities := read_write |}.
End LineRows.

Module CapabilityExamples.
Definition sdk : CatalogCapabilities :=
  {| Read := [ConstraintRecordsReadProfile]; Ddl := [ConstraintCreateProfile];
     Write := [ConstraintEnforceProfile]; Transaction := [] |}.
Definition offer : bytes :=
  LineRows.raw {| Read := [ConstraintRecordsReadProfile; ScalarExpressionReadProfile];
                  Ddl := [ConstraintCreateProfile; "vgi.other.v1"]; Write := [];
                  Transaction := [] |}.
Definition chosen : CatalogCapabilities :=
  {| Read := [ConstraintRecordsReadProfile]; Ddl := [ConstraintCreateProfile];
     Write := []; Transaction := [] |}.
End CapabilityExamples.
Import CapabilityExamples.

Lemma selection_exact_witness :
  exists o, offers (H := LineRows.rows) offer o /\ canonical chosen.
Proof.
  destruct (selection_exact (H := LineRows.rows) sdk offer chosen
    ltac:(vm_compute; reflexivity)) as (o & Ho & Hc & _).
  exact (ex_intro _ o (conj Ho Hc)).
Defined.

Lemma merge_keeps_validator_witness :
  exists S, decodeCapabilities (H := LineRows.rows) (Some (LineRows.raw chosen)) = Some S /\
    ConstraintCreateProfile ∈ Ddl S.
Proof.
  destruct (merge_keeps_validator (H := LineRows.rows) sdk None None (Some offer)
    (Some (LineRows.raw sdk)) (Some (LineRows.raw chosen))
    ltac:(vm_compute; reflexivity) ltac:(discriminate))
    as (adv & cho & pic & A & S & _ & Hc & Hp & _ & HS & _ & _ & _ & _ & _ & Hd & _).
  exists S. split; [exact HS|]. apply Hd. right.
  assert (pic = chosen) as -> by (vm_compute in Hp; injection Hp as <-; reflexivity).
  apply (bool_decide_unpack _). vm_compute. exact I.
Defined.
