(* ===== verification/CatalogContents.v ===== *)
(** * CatalogContents: schema paths, catalog snapshots, their streams and their
    validators (vgi/schema_path.go, vgi/catalog_contents.go,
    vgi/catalog_collection.go)

    [answerCatalogContents] is the half of [catalog_contents] every catalog
    kind shares: it takes a snapshot from a handler or from the catalog, checks
    it, orders it parents first, encodes it as one stream per kind of object
    and answers "not modified" when the client's etag still holds. *)

From S2P Require Import Prelude.
From S2P Require Import Bytes.
From S2P Require Import Sha256.
From S2P Require Import Strings.
From S2P Require Import Unicode.

(** ** Errors of the catalog RPCs *)

(** [ValueError] is an [RpcError] of that type; [MethodNotImplemented] names
    the method; [PlainError] is any other Go error, with the part of its
    message this library writes. *)
Inductive rpc_error :=
| ValueError (message : string)
| MethodNotImplemented (method : string)
| PlainError (message : string).
#[global] Instance rpc_error_dec : EqDecision rpc_error.
Proof. solve_decision. Defined.

(** ** Schema paths *)

Abbreviation SchemaPath := (list string).

Definition singleSchemaPath (name : string) : SchemaPath :=
  if bool_decide (name = "") then [] else [name].

Definition schemaPathKey `{Unicode} (path : SchemaPath) : string :=
  Join (map ToLower path) NUL.

Definition schemaPathDisplay (path : SchemaPath) : string := Join path ".".

Definition schemaPathOrMain (path : SchemaPath) : SchemaPath :=
  match path with [] => ["main"] | _ => path end.

(** [path[:len(path)-1]] *)
Definition parentPath (path : SchemaPath) : SchemaPath := take (length path - 1) path.

(** ** Snapshots and responses *)

Record SchemaContents := {
  Path : SchemaPath;
  Schema : bytes;
  Tables : list bytes;
  Views : list bytes;
  ScalarFunctions : list bytes;
  AggregateFunctions : list bytes;
  TableFunctions : list bytes;
  ScalarMacros : list bytes;
  TableMacros : list bytes;
  Indexes : list bytes
}.
#[global] Instance SchemaContents_dec : EqDecision SchemaContents.
Proof. solve_decision. Defined.

(** The six streams are in the order of the response's fields: schemas,
    tables, views, functions, macros, indexes. *)
Record CatalogContentsResponse := {
  CatalogVersion : Z;
  Etag : option string;
  NotModified : bool;
  Streams : list (option bytes)
}.

Record CatalogContentsResult := {
  resSchemas : list SchemaContents;
  resEtag : option string;
  resNotModified : bool
}.

Inductive etag_mode := EtagNone | CatalogContentsEtagContentHash.

Definition notModifiedResponse (version : Z) (etag : string) : CatalogContentsResponse :=
  {| CatalogVersion := version; Etag := Some etag; NotModified := true;
     Streams := repeat None 6 |}.

(** ** Streams *)

(** A row of a metadata stream, as far as the code reads it: its schema path
    (a component may be null), its function or macro type, and its record on
    its own. *)
Record Row := {
  row_path : list (option string);
  row_type : string;
  row_item : bytes
}.
#[global] Instance Row_dec : EqDecision Row.
Proof. solve_decision. Defined.

(** The Arrow library: [CombineCatalogItems] of the items of one kind gives one
    stream, or none when they hold no rows; [stream_rows] reads a stream back,
    failing on a wrong schema and on null required fields. *)
Class CatalogStreams := {
  item_rows : nat -> bytes -> option (list Row);
  CombineCatalogItems : nat -> list bytes -> option (option bytes);
  stream_rows : nat -> bytes -> option (list Row);
  combine_rows : forall kind items rows,
    map_opt (item_rows kind) items = Some rows ->
    forall out, CombineCatalogItems kind items = Some out ->
    match out with
    | None => concat rows = []
    | Some b => stream_rows kind b = Some (concat rows)
    end
}.

Section streams.
Context `{CatalogStreams} `{Unicode}.

(** The items of each kind, schema by schema. *)
Definition kindItems (schemas : list SchemaContents) (kind : nat) : list bytes :=
  concat (map (fun s =>
    match kind with
    | 0 => [Schema s]
    | 1 => Tables s
    | 2 => Views s
    | 3 => ScalarFunctions s ++ AggregateFunctions s ++ TableFunctions s
    | 4 => ScalarMacros s ++ TableMacros s
    | _ => Indexes s
    end) schemas).

(** The JSON text of the lower-cased components keeps their boundaries; the
    list of them stands for it. *)
Definition catalogCollectionPathKey (path : SchemaPath) : list string := map ToLower path.

Definition blank (path : SchemaPath) (item : bytes) : SchemaContents :=
  {| Path := path; Schema := item; Tables := []; Views := []; ScalarFunctions := [];
     AggregateFunctions := []; TableFunctions := []; ScalarMacros := []; TableMacros := [];
     Indexes := [] |}.

(** The entry after one more item of its kind and type; [None] for a type the
    kind does not have. *)
Definition addItem (kind : nat) (type : string) (item : bytes) (e : SchemaContents)
    : option SchemaContents :=
  let '{| Path := p; Schema := s; Tables := t; Views := v; ScalarFunctions := sf;
          AggregateFunctions := af; TableFunctions := tf; ScalarMacros := sm;
          TableMacros := tm; Indexes := ix |} := e in
  let type := ToUpper type in
  match kind with
  | 0 => Some (Build_SchemaContents p item t v sf af tf sm tm ix)
  | 1 => Some (Build_SchemaContents p s (t ++ [item]) v sf af tf sm tm ix)
  | 2 => Some (Build_SchemaContents p s t (v ++ [item]) sf af tf sm tm ix)
  | 3 =>
      if bool_decide (type = "SCALAR") then
        Some (Build_SchemaContents p s t v (sf ++ [item]) af tf sm tm ix)
      else if bool_decide (type = "AGGREGATE") then
        Some (Build_SchemaContents p s t v sf (af ++ [item]) tf sm tm ix)
      else if bool_decide (type = "TABLE") || bool_decide (type = "TABLE_BUFFERING") then
        Some (Build_SchemaContents p s t v sf af (tf ++ [item]) sm tm ix)
      else None
  | 4 =>
      if bool_decide (type = "SCALAR") then
        Some (Build_SchemaContents p s t v sf af tf (sm ++ [item]) tm ix)
      else if bool_decide (type = "TABLE") then
        Some (Build_SchemaContents p s t v sf af tf sm (tm ++ [item]) ix)
      else None
  | _ => Some (Build_SchemaContents p s t v sf af tf sm tm (ix ++ [item]))
  end.

Abbreviation decode_state := (list SchemaContents * gmap (list string) nat)%type.

(** One row of the stream of [kind]; [materialize] keeps its record. *)
Definition decodeRow (materialize : bool) (kind : nat) (st : decode_state) (row : Row)
    : result string decode_state :=
  let '(out, index) := st in
  match map_opt id (row_path row) with
  | None => Err "null catalog schema path component"
  | Some path =>
      if bool_decide (length path = 0) then Err "empty catalog schema path" else
      let key := catalogCollectionPathKey path in
      let? st1 :=
        (if bool_decide (kind = 0) then
           match index !! key with
           | Some _ => Err "duplicate catalog schema"
           | None =>
               if bool_decide (1 < length path)
                  && negb (bool_decide (is_Some (index !! catalogCollectionPathKey (parentPath path))))
               then Err "catalog schema missing preceding parent"
               else Ok (out ++ [blank path []], <[key := length out]> index)
           end
         else Ok (out, index)) in
      let '(out1, index1) := st1 in
      match index1 !! key with
      | None => Err "catalog object has unknown schema"
      | Some pos =>
          match out1 !! pos with
          | None => Err "index out of range"
          | Some entry =>
              match addItem kind (row_type row) (if materialize then row_item row else []) entry with
              | None => Err "unknown catalog subtype"
              | Some entry' => Ok (<[pos := entry']> out1, index1)
              end
          end
      end
  end.

Fixpoint decodeRows (materialize : bool) (kind : nat) (st : decode_state) (rows : list Row)
    : result string decode_state :=
  match rows with
  | [] => Ok st
  | row :: rows => let? st' := decodeRow materialize kind st row in
                   decodeRows materialize kind st' rows
  end.

(** The streams from [kind] on. *)
Fixpoint decodeKinds (materialize : bool) (kind : nat) (st : decode_state)
    (streams : list (option bytes)) : result string decode_state :=
  match streams with
  | [] => Ok st
  | None :: streams => decodeKinds materialize (S kind) st streams
  | Some data :: streams =>
      match stream_rows kind data with
      | None => Err "catalog category has incompatible schema"
      | Some rows =>
          let? st' := decodeRows materialize kind st rows in
          decodeKinds materialize (S kind) st' streams
      end
  end.

Definition decodeCatalogStreams (response : CatalogContentsResponse) (materialize : bool)
    : result string (list SchemaContents) :=
  if NotModified response then
    match Etag response with
    | None => Err "not_modified requires an etag"
    | Some _ =>
        if forallb (fun s => negb (bool_decide (is_Some s))) (Streams response) then Ok []
        else Err "not_modified contains metadata"
    end
  else let? st := decodeKinds materialize 0 ([], ∅) (Streams response) in Ok (fst st).

Definition DecodeCatalogStreams (response : CatalogContentsResponse)
    : result string (list SchemaContents) := decodeCatalogStreams response true.

Definition encodeCatalogStreams (version : Z) (etag : option string)
    (schemas : list SchemaContents) : result string CatalogContentsResponse :=
  match map_opt (fun kind => CombineCatalogItems kind (kindItems schemas kind)) (seq 0 6) with
  | None => Err "catalog category"
  | Some streams =>
      let out := {| CatalogVersion := version; Etag := etag; NotModified := false;
                    Streams := streams |} in
      let? _ := decodeCatalogStreams out false in Ok out
  end.

(** [CatalogStreamsDigest] hashes this framing of a response. *)
Definition count (value : Z) : bytes := le_enc 8 value.
Definition chunk (value : bytes) : bytes := count (Z.of_nat (length value)) ++ value.
Definition digestInput (response : CatalogContentsResponse) : bytes :=
  chunk (sb "vgi.catalog-contents.2.2") ++ count (u64 (CatalogVersion response)) ++
  concat (map (fun value => match value with
                            | None => count 0
                            | Some v => count 1 ++ chunk v
                            end) (Streams response)).
Definition CatalogStreamsDigest (response : CatalogContentsResponse) : string :=
  hex_encode (Sha256.Sum256 (digestInput response)).

End streams.

(** ** Answering *)

Section answer.
Context `{CatalogStreams} `{Unicode}.

(** What reading the path of a serialized SchemaInfo gives; a null component
    reads as the empty string. *)
Definition schemaInfoItemPath (item : bytes) : option SchemaPath :=
  match item_rows 0 item with
  | Some (row :: _) => Some (map (default "") (row_path row))
  | _ => None
  end.

Fixpoint checkPaths (verifyItems : bool) (keys : gset string) (schemas : list SchemaContents)
    : result string (gset string) :=
  match schemas with
  | [] => Ok keys
  | s :: schemas =>
      if bool_decide (length (Path s) = 0)
      then Err "catalog_contents returned a schema with an empty path" else
      let key := schemaPathKey (Path s) in
      if bool_decide (key ∈ keys)
      then Err ("catalog_contents returned duplicate schema path " +:+ schemaPathDisplay (Path s))
      else
      let? _ :=
        (if negb verifyItems then Ok tt else
         match schemaInfoItemPath (Schema s) with
         | None => Err ("catalog_contents schema " +:+ schemaPathDisplay (Path s)
                        +:+ ": decoding its SchemaInfo item")
         | Some itemPath =>
             if bool_decide (itemPath = Path s) then Ok tt
             else Err ("catalog_contents schema path " +:+ schemaPathDisplay (Path s)
                       +:+ " differs from its SchemaInfo.path " +:+ schemaPathDisplay itemPath)
         end) in
      checkPaths verifyItems ({[key]} ∪ keys) schemas
  end.

Definition checkContentsPaths (schemas : list SchemaContents) (verifyItems : bool)
    : result string unit :=
  let? keys := checkPaths verifyItems ∅ schemas in
  match List.find (fun s => bool_decide (1 < length (Path s))
                   && negb (bool_decide (schemaPathKey (parentPath (Path s)) ∈ keys))) schemas with
  | Some s => Err ("catalog_contents returned schema path " +:+ schemaPathDisplay (Path s)
                   +:+ " without its parent")
  | None => Ok tt
  end.

(** [build] is the call's default composition, [handler] the catalog's own. *)
Definition answerCatalogContents
    (handler : option (result rpc_error CatalogContentsResult)) (etagMode : etag_mode)
    (IfNoneMatch : option string) (version : Z)
    (build : result rpc_error (list SchemaContents))
    : result rpc_error CatalogContentsResponse :=
  let? res :=
    (match handler with
     | Some h => h
     | None => let? schemas := build in
               Ok {| resSchemas := schemas; resEtag := None; resNotModified := false |}
     end) in
  if resNotModified res then
    match resEtag res with
    | Some etag =>
        if bool_decide (IfNoneMatch = Some etag) then
          if bool_decide (length (resSchemas res) = 0) then Ok (notModifiedResponse version etag)
          else Err (ValueError "catalog_contents returned not_modified with schemas; it must return none")
        else Err (ValueError "catalog_contents returned not_modified, but only a catalog whose etag equals if_none_match may (and it must return that etag)")
    | None => Err (ValueError "catalog_contents returned not_modified, but only a catalog whose etag equals if_none_match may (and it must return that etag)")
    end
  else
  match checkContentsPaths (resSchemas res) (bool_decide (is_Some handler)) with
  | Err m => Err (ValueError m)
  | Ok _ =>
      let schemas := SortStable (fun s => length (Path s)) (resSchemas res) in
      match encodeCatalogStreams version (resEtag res) schemas with
      | Err m => Err (PlainError m)
      | Ok response =>
          let etag :=
            match Etag response, etagMode with
            | None, CatalogContentsEtagContentHash => Some (CatalogStreamsDigest response)
            | e, _ => e
            end in
          match etag, IfNoneMatch with
          | Some e, Some m =>
              if bool_decide (e = m) then Ok (notModifiedResponse version e)
              else Ok {| CatalogVersion := CatalogVersion response; Etag := etag;
                         NotModified := NotModified response; Streams := Streams response |}
          | _, _ => Ok {| CatalogVersion := CatalogVersion response; Etag := etag;
                          NotModified := NotModified response; Streams := Streams response |}
          end
      end
  end.

End answer.

(** ** Lemmas *)

Lemma map_opt_id_Some {A} (l : list A) : map_opt id (map Some l) = Some l.
Proof. induction l as [|a l IH]; cbn; [done|]. by rewrite IH. Qed.

Lemma map_opt_Some {A B} (f : A -> option B) (g : A -> B) l :
  (forall x, x ∈ l -> f x = Some (g x)) -> map_opt f l = Some (map g l).
Proof.
  induction l as [|a l IH]; cbn; intros Hf; [done|].
  rewrite Hf by set_solver. rewrite IH by set_solver. done.
Qed.

Lemma concat_singletons {A} (l : list A) : concat (map (fun r => [r]) l) = l.
Proof. induction l as [|a l IH]; cbn; [done|]. by rewrite IH. Qed.

Lemma map_opt_app {A B} (f : A -> option B) l k x y :
  map_opt f l = Some x -> map_opt f k = Some y -> map_opt f (l ++ k) = Some (x ++ y).
Proof.
  revert x. induction l as [|a l IH]; cbn; intros x El Ek; [injection El as <-; done|].
  destruct (f a); [|done]. destruct (map_opt f l) as [z|]; [|done].
  injection El as <-. by rewrite (IH z eq_refl Ek).
Qed.

Section stream_lemmas.
Context `{CatalogStreams} `{Unicode}.

Abbreviation pkey s := (catalogCollectionPathKey (Path s)).

(** [index] is the index of the schemas decoded so far. *)
Definition indexes (index : gmap (list string) nat) (pre : list SchemaContents) : Prop :=
  forall k i, index !! k = Some i <-> exists s, pre !! i = Some s /\ pkey s = k.

Lemma indexes_app index pre s :
  indexes index pre -> index !! pkey s = None ->
  indexes (<[pkey s := length pre]> index) (pre ++ [s]).
Proof.
  intros Hi Hn k i. destruct (decide (k = pkey s)) as [->|Hk].
  - rewrite lookup_insert_eq. split.
    + intros [= <-]. exists s. by rewrite lookup_app_r, Nat.sub_diag.
    + intros (s' & Hs & E). destruct (decide (i < length pre)) as [Hlt|Hge].
      * rewrite lookup_app_l in Hs by done.
        rewrite (proj2 (Hi (pkey s) i)) in Hn by eauto. done.
      * apply lookup_app_Some in Hs as [Hs|[_ Hs]];
          [apply lookup_lt_Some in Hs; lia|].
        apply list_lookup_singleton_Some in Hs as [Hz _]. f_equal. lia.
  - rewrite lookup_insert_ne by done. rewrite (Hi k i). split.
    + intros (s' & Hs & E). exists s'. split; [by apply lookup_app_l_Some|done].
    + intros (s' & Hs & E). apply lookup_app_Some in Hs as [Hs|[_ Hs]]; [eauto|].
      apply list_lookup_singleton_Some in Hs as [_ <-]. by subst k.
Qed.

(** The kinds of entry of a schema. *)
Inductive category :=
| CTable | CView | CScalar | CAggregate | CTableFunction | CScalarMacro | CTableMacro | CIndex.

Definition cat_kind (c : category) : nat :=
  match c with
  | CTable => 1 | CView => 2 | CScalar | CAggregate | CTableFunction => 3
  | CScalarMacro | CTableMacro => 4 | CIndex => 5
  end.
(** The types of its rows; [] when the rows have none. *)
Definition cat_types (c : category) : list string :=
  match c with
  | CScalar | CScalarMacro => ["SCALAR"] | CAggregate => ["AGGREGATE"]
  | CTableFunction => ["TABLE"; "TABLE_BUFFERING"] | CTableMacro => ["TABLE"] | _ => []
  end.
Definition cat_items (c : category) : SchemaContents -> list bytes :=
  match c with
  | CTable => Tables | CView => Views | CScalar => ScalarFunctions
  | CAggregate => AggregateFunctions | CTableFunction => TableFunctions
  | CScalarMacro => ScalarMacros | CTableMacro => TableMacros | CIndex => Indexes
  end.
Definition put (c : category) (l : list bytes) (e : SchemaContents) : SchemaContents :=
  let '{| Path := p; Schema := s; Tables := t; Views := v; ScalarFunctions := sf;
          AggregateFunctions := af; TableFunctions := tf; ScalarMacros := sm;
          TableMacros := tm; Indexes := ix |} := e in
  match c with
  | CTable => Build_SchemaContents p s (t ++ l) v sf af tf sm tm ix
  | CView => Build_SchemaContents p s t (v ++ l) sf af tf sm tm ix
  | CScalar => Build_SchemaContents p s t v (sf ++ l) af tf sm tm ix
  | CAggregate => Build_SchemaContents p s t v sf (af ++ l) tf sm tm ix
  | CTableFunction => Build_SchemaContents p s t v sf af (tf ++ l) sm tm ix
  | CScalarMacro => Build_SchemaContents p s t v sf af tf (sm ++ l) tm ix
  | CTableMacro => Build_SchemaContents p s t v sf af tf sm (tm ++ l) ix
  | CIndex => Build_SchemaContents p s t v sf af tf sm tm (ix ++ l)
  end.

Lemma put_nil c e : put c [] e = e.
Proof. by destruct e, c; cbn; rewrite app_nil_r. Qed.
Lemma put_cons c x l e : put c (x :: l) e = put c l (put c [x] e).
Proof. by destruct e, c; cbn; rewrite <- app_assoc. Qed.

Lemma addItem_put c t item e :
  (cat_types c <> [] -> ToUpper t ∈ cat_types c) ->
  addItem (cat_kind c) t item e = Some (put c [item] e).
Proof.
  intros Ht. destruct e, c; cbn in *; try done;
    specialize (Ht ltac:(done)); rewrite !elem_of_cons in Ht;
    destruct Ht as [Ht|Ht]; try (by apply elem_of_nil in Ht); try rewrite Ht; try done.
  destruct Ht as [Ht|Ht]; [by rewrite Ht|by apply elem_of_nil in Ht].
Qed.

(** The record of an item of [s]: one row, of its schema and of its type. *)
Definition own_row (kind : nat) (s : SchemaContents) (types : list string) (item : bytes) : Prop :=
  exists t, (types <> [] -> ToUpper t ∈ types) /\
    item_rows kind item = Some [{| row_path := map Some (Path s); row_type := t; row_item := item |}].

Definition items_ok (s : SchemaContents) : Prop :=
  own_row 0 s [] (Schema s) /\
  forall c, Forall (own_row (cat_kind c) s (cat_types c)) (cat_items c s).

(** What the streams before [kind] hold of [s]. *)
Definition upto (kind : nat) (s : SchemaContents) : SchemaContents :=
  let opt k (l : list bytes) := if (k <? kind)%nat then l else [] in
  {| Path := Path s; Schema := if (0 <? kind)%nat then Schema s else [];
     Tables := opt 1 (Tables s); Views := opt 2 (Views s);
     ScalarFunctions := opt 3 (ScalarFunctions s);
     AggregateFunctions := opt 3 (AggregateFunctions s);
     TableFunctions := opt 3 (TableFunctions s);
     ScalarMacros := opt 4 (ScalarMacros s); TableMacros := opt 4 (TableMacros s);
     Indexes := opt 5 (Indexes s) |}.

Fixpoint addItems (kind : nat) (rows : list Row) (e : SchemaContents) : option SchemaContents :=
  match rows with
  | [] => Some e
  | r :: rows => addItem kind (row_type r) (row_item r) e ≫= addItems kind rows
  end.

Lemma addItems_app kind r1 r2 e :
  addItems kind (r1 ++ r2) e = addItems kind r1 e ≫= addItems kind r2.
Proof.
  revert e. induction r1 as [|r r1 IH]; intros e; cbn; [done|].
  destruct (addItem _ _ _ _); cbn; [apply IH|done].
Qed.

(** The rows of one schema's items go to its entry. *)
Lemma decodeRows_own kind s rows l1 e l2 index e' :
  kind <> 0 -> Path s <> [] -> Forall (fun r => row_path r = map Some (Path s)) rows ->
  index !! pkey s = Some (length l1) -> addItems kind rows e = Some e' ->
  decodeRows true kind (l1 ++ e :: l2, index) rows = Ok (l1 ++ e' :: l2, index).
Proof.
  intros Hk Hp Hf Hi. revert e. induction Hf as [|r rows Hr Hf IH]; cbn [addItems]; intros e E.
  { by injection E as ->. }
  destruct (addItem _ _ _ _) as [e1|] eqn:E1; cbn in E; [|done].
  cbn [decodeRows]. unfold decodeRow. rewrite Hr, map_opt_id_Some.
  rewrite (bool_decide_false (length (Path s) = 0)) by by destruct (Path s).
  rewrite (bool_decide_false (kind = 0)) by done. rewrite Hi, list_lookup_middle by done.
  rewrite E1, insert_app_r_alt, Nat.sub_diag by lia. cbn. by apply IH.
Qed.

(** The rows of the items of one category of [s], and what they add. *)
Lemma category_rows c s e :
  Forall (own_row (cat_kind c) s (cat_types c)) (cat_items c s) ->
  exists rows, map_opt (item_rows (cat_kind c)) (cat_items c s) = Some (map (fun r => [r]) rows) /\
    Forall (fun r => row_path r = map Some (Path s)) rows /\
    addItems (cat_kind c) rows e = Some (put c (cat_items c s) e).
Proof.
  intros Hf. revert e. induction Hf as [|item items (t & Ht & Hi) Hf IH]; intros e.
  { exists []. cbn. by rewrite put_nil. }
  destruct (IH (put c [item] e)) as (rows & Hm & Hp & Ha).
  exists ({| row_path := map Some (Path s); row_type := t; row_item := item |} :: rows).
  cbn [map_opt map]. rewrite Hi, Hm. split; [done|]. split; [by constructor|].
  cbn [addItems row_type row_item]. rewrite addItem_put by done. cbn. by rewrite Ha, <- put_cons.
Qed.

Definition kind_categories (kind : nat) : list category :=
  match kind with
  | 1 => [CTable] | 2 => [CView] | 3 => [CScalar; CAggregate; CTableFunction]
  | 4 => [CScalarMacro; CTableMacro] | 5 => [CIndex] | _ => []
  end.

Lemma categories_rows kind cs s e :
  Forall (fun c => cat_kind c = kind) cs ->
  (forall c, Forall (own_row (cat_kind c) s (cat_types c)) (cat_items c s)) ->
  exists rows, map_opt (item_rows kind) (concat (map (fun c => cat_items c s) cs))
      = Some (map (fun r => [r]) rows) /\
    Forall (fun r => row_path r = map Some (Path s)) rows /\
    addItems kind rows e = Some (foldl (fun e c => put c (cat_items c s) e) e cs).
Proof.
  intros Hk Hi. revert e. induction Hk as [|c cs Hc Hk IH]; intros e; [by exists []|].
  destruct (category_rows c s e (Hi c)) as (r1 & Hm1 & Hp1 & Ha1). rewrite Hc in *.
  destruct (IH (put c (cat_items c s) e)) as (r2 & Hm2 & Hp2 & Ha2).
  exists (r1 ++ r2). cbn [map concat]. rewrite (map_opt_app _ _ _ _ _ Hm1 Hm2), map_app.
  split; [done|]. split; [by apply Forall_app|]. rewrite addItems_app, Ha1. exact Ha2.
Qed.

Lemma schema_kind_rows kind s :
  1 <= kind <= 5 -> items_ok s ->
  exists rows, map_opt (item_rows kind) (kindItems [s] kind) = Some (map (fun r => [r]) rows) /\
    Forall (fun r => row_path r = map Some (Path s)) rows /\
    addItems kind rows (upto kind s) = Some (upto (S kind) s).
Proof.
  intros Hk [_ Hi].
  assert (kind = 1 \/ kind = 2 \/ kind = 3 \/ kind = 4 \/ kind = 5) as Hc by lia.
  destruct (categories_rows kind (kind_categories kind) s (upto kind s)) as (rows & Hm & Hp & Ha);
    [destruct Hc as [-> |[-> |[-> |[-> | ->]]]]; by repeat constructor|done|].
  exists rows. destruct Hc as [-> |[-> |[-> |[-> | ->]]]]; cbn in *;
    rewrite ?app_nil_r in *; by rewrite Hm, Ha.
Qed.

Lemma decodeRows_app m kind st r1 r2 :
  decodeRows m kind st (r1 ++ r2) =
  let? st' := decodeRows m kind st r1 in decodeRows m kind st' r2.
Proof.
  revert st. induction r1 as [|r r1 IH]; intros st; [done|].
  cbn [app decodeRows]. destruct (decodeRow _ _ _ _); [apply IH|done].
Qed.

Lemma kindItems_cons s schemas kind :
  kindItems (s :: schemas) kind = kindItems [s] kind ++ kindItems schemas kind.
Proof. unfold kindItems. cbn. by rewrite app_nil_r. Qed.

(** The stream of one kind fills that kind of every entry. *)
Lemma decode_kind kind pre schemas index :
  1 <= kind <= 5 -> Forall items_ok schemas -> Forall (fun s => Path s <> []) schemas ->
  indexes index (pre ++ schemas) ->
  exists rows, map_opt (item_rows kind) (kindItems schemas kind) = Some rows /\
    decodeRows true kind (map (upto (S kind)) pre ++ map (upto kind) schemas, index) (concat rows)
    = Ok (map (upto (S kind)) (pre ++ schemas), index).
Proof.
  intros Hk Hi. revert pre. induction Hi as [|s schemas Hs Hi IH]; intros pre Hp Hx.
  { exists []. unfold kindItems. cbn. by rewrite !app_nil_r. }
  inversion_clear Hp as [|?? Hps Hp'].
  destruct (schema_kind_rows kind s Hk Hs) as (rows & Hm & Hr & Ha).
  destruct (IH (pre ++ [s]) Hp') as (rows' & Hm' & Hd); [by rewrite <- app_assoc|].
  exists (map (fun r => [r]) rows ++ rows').
  rewrite kindItems_cons, (map_opt_app _ _ _ _ _ Hm Hm'). split; [done|].
  rewrite concat_app, concat_singletons.
  rewrite decodeRows_app. cbn [map].
  rewrite (decodeRows_own kind s rows _ (upto kind s) _ index (upto (S kind) s)); [|lia|done..| |done].
  - rewrite map_app in Hd. cbn in Hd. rewrite <- !app_assoc in Hd. exact Hd.
  - rewrite length_map. apply Hx. exists s. by rewrite list_lookup_middle.
Qed.

Definition schema_row (s : SchemaContents) (r : Row) : Prop :=
  row_path r = map Some (Path s) /\ row_item r = Schema s.

Lemma addItem_blank t p old new : addItem 0 t new (blank p old) = Some (blank p new).
Proof. reflexivity. Qed.

Lemma decode_schemas schemas rows pre index out st' :
  Forall2 schema_row schemas rows -> indexes index pre -> length out = length pre ->
  decodeRows false 0 (out, index) rows = Ok st' ->
  decodeRows true 0 (map (upto 1) pre, index) rows = Ok (map (upto 1) (pre ++ schemas), snd st') /\
  indexes (snd st') (pre ++ schemas) /\ Forall (fun s => Path s <> []) schemas.
Proof.
  intros Hf. revert pre index out. induction Hf as [|s r schemas rows [Hp Hr] Hf IH];
    intros pre index out Hx Hl E.
  { cbn in *. apply ok_inj in E as <-. by rewrite app_nil_r. }
  cbn [decodeRows] in *. unfold decodeRow in E |- *.
  rewrite Hp, map_opt_id_Some in E |- *. destruct (bool_decide (length (Path s) = 0)) eqn:Ez; [done|].
  rewrite (bool_decide_true (0 = 0)) in E |- * by done.
  destruct (index !! _) eqn:En in E; [done|]. rewrite En.
  destruct (_ && _) eqn:Ep in E; [done|]. rewrite Ep.
  rewrite lookup_insert_eq in E |- *. rewrite (length_map (upto 1)).
  rewrite list_lookup_middle in E by done.
  rewrite list_lookup_middle by by rewrite length_map.
  rewrite addItem_blank in E |- *.
  rewrite insert_app_r_alt, Nat.sub_diag in E by done.
  rewrite insert_app_r_alt, length_map, Nat.sub_diag by by rewrite length_map.
  cbn [list_insert insert] in E |- *. rewrite Hr, Hl in *.
  specialize (IH (pre ++ [s]) (<[pkey s := length pre]> index) (out ++ [blank (Path s) []])
    (indexes_app index pre s Hx En)).
  destruct IH as (Hd & Hx' & Hp'); [rewrite !length_app; cbn; lia|exact E|].
  rewrite map_app, <- !app_assoc in Hd. rewrite <- app_assoc in Hx'. split; [exact Hd|].
  split; [done|]. constructor; [|done]. intros Hz. by rewrite Hz in Ez.
Qed.

Lemma decodeKinds_step m kind st items rows out rest :
  map_opt (item_rows kind) items = Some rows -> CombineCatalogItems kind items = Some out ->
  decodeKinds m kind st (out :: rest) =
  let? st' := decodeRows m kind st (concat rows) in decodeKinds m (S kind) st' rest.
Proof.
  intros Hm Hc. pose proof (combine_rows _ _ _ Hm _ Hc) as Hr.
  destruct out as [b|]; cbn [decodeKinds]; [by rewrite Hr|by rewrite Hr].
Qed.

Lemma schemas_rows schemas :
  Forall items_ok schemas ->
  exists rows, map_opt (item_rows 0) (kindItems schemas 0) = Some (map (fun r => [r]) rows) /\
    Forall2 schema_row schemas rows.
Proof.
  induction 1 as [|s schemas [(t & _ & Hs) _] Hi (rows & Hm & Hf)]; [by exists []; split|].
  eexists (_ :: rows). rewrite kindItems_cons. unfold kindItems at 1. cbn. rewrite Hs, Hm.
  split; [done|]. by constructor.
Qed.

Lemma decode_encode_streams version etag schemas r :
  encodeCatalogStreams version etag schemas = Ok r -> Forall items_ok schemas ->
  DecodeCatalogStreams r = Ok schemas.
Proof.
  unfold encodeCatalogStreams, DecodeCatalogStreams, decodeCatalogStreams. intros E Hi.
  destruct (map_opt _ _) as [streams|] eqn:Es; [|done]. cbn [NotModified Streams] in E.
  destruct (decodeKinds false _ _ _) as [st|] eqn:Ed; [|done]. apply ok_inj in E as <-.
  cbn [NotModified Streams]. cbn [seq map_opt] in Es.
  do 6 (match type of Es with context [CombineCatalogItems ?k ?l] =>
          destruct (CombineCatalogItems k l) eqn:?; [|done] end).
  injection Es as <-.
  destruct (schemas_rows schemas Hi) as (rows & Hm & Hf).
  rewrite (decodeKinds_step false 0 _ _ _ _ _ Hm) in Ed by done.
  rewrite (decodeKinds_step true 0 _ _ _ _ _ Hm) by done.
  rewrite concat_singletons in Ed |- *.
  destruct (decodeRows false _ _ _) as [st0|] eqn:E0; [|done].
  assert (indexes ∅ []) as Hx0.
  { intros k i. rewrite lookup_empty. split; [done|]. by intros (s & Hs & _). }
  destruct (decode_schemas _ _ [] _ _ _ Hf Hx0 eq_refl E0) as (Hd & Hx & Hp).
  cbn [map app] in Hd, Hx. rewrite Hd. clear Ed E0.
  do 5 (match goal with |- context [decodeKinds true ?k _ _] =>
    let ri := fresh "ri" in let Hmi := fresh "Hmi" in let Hdi := fresh "Hdi" in
    destruct (decode_kind k [] schemas (snd st0) ltac:(lia) Hi Hp Hx) as (ri & Hmi & Hdi);
    rewrite (decodeKinds_step _ k _ _ _ _ _ Hmi) by done; cbn [map app] in Hdi; rewrite Hdi;
    clear Hmi Hdi ri
  end).
  cbn [decodeKinds fst]. f_equal. rewrite <- (map_id schemas) at 2. apply map_ext. by intros [].
Qed.

End stream_lemmas.

(** ** What a checked snapshot obeys *)

Section answer_lemmas.
Context `{CatalogStreams} `{Unicode}.

Abbreviation skey s := (schemaPathKey (Path s)).

Lemma checkPaths_ok verify keys schemas keys' :
  checkPaths verify keys schemas = Ok keys' ->
  keys' = list_to_set (map (fun s => skey s) schemas) ∪ keys /\
  NoDup (map (fun s => skey s) schemas) /\
  (forall s, s ∈ schemas -> skey s ∉ keys /\ Path s <> []).
Proof.
  revert keys. induction schemas as [|s schemas IH]; cbn [checkPaths]; intros keys E.
  { apply ok_inj in E as <-. split; [set_solver|]. split; [constructor|set_solver]. }
  destruct (bool_decide (length (Path s) = 0)) eqn:Ez; [done|].
  destruct (bool_decide (_ ∈ keys)) eqn:Ek; [done|].
  match type of E with match ?m with _ => _ end = _ => destruct m; [|done] end.
  apply IH in E as (-> & Hn & Hs). bool_hyps.
  split; [cbn; set_solver|]. split.
  - cbn. constructor; [|done]. intros (s' & E & Hs')%list_elem_of_fmap.
    destruct (Hs s' Hs') as [Hk _]. set_solver.
  - intros s' [->|Hs']%elem_of_cons; [|set_solver]. split; [done|].
    intros Hz. by rewrite Hz in Ez.
Qed.

Lemma checkContentsPaths_ok schemas verify :
  checkContentsPaths schemas verify = Ok tt ->
  NoDup (map (fun s => skey s) schemas) /\ (forall s, s ∈ schemas -> Path s <> []) /\
  (forall s, s ∈ schemas -> 1 < length (Path s) ->
     exists p, p ∈ schemas /\ skey p = schemaPathKey (parentPath (Path s))).
Proof.
  unfold checkContentsPaths. intros E. destruct (checkPaths _ _ _) as [keys|] eqn:Ec; [|done].
  apply checkPaths_ok in Ec as (-> & Hn & Hs).
  destruct (List.find _ _) eqn:Ef; [done|]. split; [done|]. split; [set_solver|].
  intros s Hin Hl. assert (In s schemas) as Hin' by by apply list_elem_of_In.
  pose proof (List.find_none _ _ Ef s Hin') as Hb. cbv beta in Hb.
  rewrite (bool_decide_true (1 < _)) in Hb by done. cbn in Hb. bool_hyps.
  apply elem_of_union in Hb as [Hb|Hb]; [|set_solver].
  rewrite elem_of_list_to_set in Hb. apply list_elem_of_fmap in Hb as (p & E1 & Hp). by exists p.
Qed.

Lemma checkPaths_intro keys schemas :
  NoDup (map (fun s => skey s) schemas) ->
  (forall s, s ∈ schemas -> skey s ∉ keys /\ Path s <> []) ->
  exists keys', checkPaths false keys schemas = Ok keys' /\
    forall s, s ∈ schemas -> skey s ∈ keys'.
Proof.
  revert keys. induction schemas as [|s schemas IH]; intros keys Hn Hs; cbn [checkPaths].
  { exists keys. split; [done|]. set_solver. }
  cbn [map] in Hn. apply NoDup_cons in Hn as [Hnin Hn]. destruct (Hs s ltac:(set_solver)) as [Hk Hp].
  rewrite (bool_decide_false (length (Path s) = 0)) by by destruct (Path s).
  rewrite (bool_decide_false (_ ∈ keys)) by done. cbn [negb].
  destruct (IH ({[skey s]} ∪ keys) Hn) as (keys' & E & Hin).
  { intros s' Hs'. destruct (Hs s' ltac:(set_solver)) as [Hk' Hp']. split; [|done].
    apply not_elem_of_union. split; [|done]. rewrite not_elem_of_singleton. intros Ek.
    apply Hnin. apply list_elem_of_fmap. by exists s'. }
  exists keys'. split; [done|]. intros s' [->|Hs']%elem_of_cons; [|auto].
  apply checkPaths_ok in E as (-> & _). set_solver.
Qed.

Lemma checkContentsPaths_intro schemas :
  NoDup (map (fun s => skey s) schemas) -> (forall s, s ∈ schemas -> Path s <> []) ->
  (forall s, s ∈ schemas -> 1 < length (Path s) ->
     exists p, p ∈ schemas /\ skey p = schemaPathKey (parentPath (Path s))) ->
  checkContentsPaths schemas false = Ok tt.
Proof.
  intros Hn Hs Hp. unfold checkContentsPaths.
  destruct (checkPaths_intro ∅ schemas Hn) as (keys & -> & Hk); [set_solver|].
  destruct (List.find _ _) as [s|] eqn:Ef; [|done]. exfalso.
  apply List.find_some in Ef as [Hin Hb]. apply list_elem_of_In in Hin. bool_hyps.
  destruct (Hp s Hin ltac:(done)) as (p & Hpin & Ekp).
  match goal with H : _ ∉ keys |- _ => apply H end. rewrite <- Ekp. auto.
Qed.

(** On NUL-free components a key determines the lower-cased path. *)
Lemma schemaPathKey_inj p q :
  Forall nul_free p -> Forall nul_free q -> p <> [] -> q <> [] ->
  schemaPathKey p = schemaPathKey q -> map ToLower p = map ToLower q.
Proof.
  assert (forall l, Forall nul_free l -> Forall nul_free (map ToLower l)) as Hl.
  { intros l Hl. apply Forall_map. eapply Forall_impl; [exact Hl|]. intros s Hs.
    unfold nul_free in *. cbn. by rewrite ToLower_nul. }
  intros Fp Fq Np Nq E. apply Join_inj in E; auto.
  - intros Hm. by apply map_eq_nil in Hm.
  - intros Hm. by apply map_eq_nil in Hm.
Qed.

End answer_lemmas.

(** ** The framing of the digest *)

Lemma le_enc_inj n a b :
  (0 <= a < 256 ^ Z.of_nat n)%Z -> (0 <= b < 256 ^ Z.of_nat n)%Z ->
  le_enc n a = le_enc n b -> a = b.
Proof.
  intros Ha Hb E. apply (f_equal le_dec) in E. by rewrite !le_dec_enc_small in E.
Qed.

(** A byte slice that fits in memory: its length is an int64. *)
Definition fits (l : bytes) : Prop := (Z.of_nat (length l) < 2 ^ 63)%Z.
#[global] Instance fits_dec l : Decision (fits l).
Proof. unfold fits. apply _. Defined.

Lemma count_inj a b l k :
  (0 <= a < 2 ^ 64)%Z -> (0 <= b < 2 ^ 64)%Z -> count a ++ l = count b ++ k -> a = b /\ l = k.
Proof.
  intros Ha Hb E. apply app_inj_len in E as [E ->].
  - split; [|done]. by apply le_enc_inj in E.
  - unfold count. by rewrite !length_le_enc.
Qed.

Lemma chunk_inj a b l k : fits a -> fits b -> chunk a ++ l = chunk b ++ k -> a = b /\ l = k.
Proof.
  unfold fits, chunk. intros Ha Hb E. rewrite <- !app_assoc in E.
  apply count_inj in E as [El E]; [|lia..]. apply Nat2Z.inj in El. by apply app_inj_len.
Qed.

Lemma frames_inj (a b : list (option bytes)) l k :
  length a = length b ->
  Forall (fun v => fits (default [] v)) a -> Forall (fun v => fits (default [] v)) b ->
  concat (map (fun v => match v with None => count 0 | Some v => count 1 ++ chunk v end) a) ++ l
  = concat (map (fun v => match v with None => count 0 | Some v => count 1 ++ chunk v end) b) ++ k ->
  a = b /\ l = k.
Proof.
  revert b. induction a as [|x a IH]; intros [|y b] Hl Ha Hb E; try done.
  inversion_clear Ha as [|?? Hx Ha']. inversion_clear Hb as [|?? Hy Hb'].
  cbn [map concat] in E. rewrite <- !app_assoc in E.
  assert (x = y /\ exists r r', concat (map (fun v => match v with None => count 0
            | Some v => count 1 ++ chunk v end) a) ++ l = r /\
          concat (map (fun v => match v with None => count 0
            | Some v => count 1 ++ chunk v end) b) ++ k = r' /\ r = r')
    as (-> & r & r' & Er & Er' & E').
  { destruct x as [x|], y as [y|]; cbn in Hx, Hy; rewrite <- ?app_assoc in E;
      apply count_inj in E as [E1 E]; try lia; try done.
    - apply chunk_inj in E as [-> E]; [|done..]. eauto 10.
    - eauto 10. }
  subst r r'. injection Hl as Hl. by apply (IH b Hl Ha' Hb') in E' as [-> ->].
Qed.

(** ** Properties *)

Section contents_properties.
Context `{CatalogStreams} `{Unicode}.


(** the etag protocol. Every answer carries the asked version; it is "not
    modified" exactly when its etag is the one the client sent, and then has no
    streams; and a handler's claim of "not modified" without that etag, or with
    schemas, is an error rather than an answer. *)
Theorem not_modified_exact handler mode ifNoneMatch version build r :
  answerCatalogContents handler mode ifNoneMatch version build = Ok r ->
  CatalogVersion r = version /\
  (NotModified r = true <-> exists e, Etag r = Some e /\ ifNoneMatch = Some e) /\
  (NotModified r = true -> Streams r = repeat None 6) /\
  (forall res, handler = Some (Ok res) -> resNotModified res = true ->
     NotModified r = true /\ resSchemas res = [] /\ resEtag res = Etag r).
Proof.
  unfold answerCatalogContents. intros E.
  match type of E with match ?m with _ => _ end = _ => destruct m as [res|] eqn:Er; [|done] end.
  destruct (resNotModified res) eqn:En.
  - destruct (resEtag res) as [e|] eqn:Ee; [|done].
    destruct (bool_decide (ifNoneMatch = Some e)) eqn:Em; [|done].
    destruct (bool_decide (length _ = 0)) eqn:El; [|done]. apply ok_inj in E as <-. bool_hyps.
    cbn. split; [done|]. split; [split; eauto|]. split; [done|].
    intros res' -> _. cbn in Er. apply ok_inj in Er as ->. by apply nil_length_inv in El.
  - destruct (checkContentsPaths _ _); [|done].
    destruct (encodeCatalogStreams _ _ _) as [resp|] eqn:Ex; [|done].
    assert (CatalogVersion resp = version /\ NotModified resp = false) as [Hv Hn].
    { unfold encodeCatalogStreams in Ex. destruct (map_opt _ _); [|done].
      destruct (decodeCatalogStreams _ _); [|done]. by apply ok_inj in Ex as <-. }
    assert (forall res', handler = Some (Ok res') -> resNotModified res' = true -> False) as Hh.
    { intros res' -> Hm. cbn in Er. apply ok_inj in Er as ->. congruence. }
    remember (match Etag resp with Some _ => _ | None => _ end) as et.
    destruct et as [e|], ifNoneMatch as [m|]; try destruct (bool_decide (e = m)) eqn:Eb;
      apply ok_inj in E as <-; bool_hyps; cbn; rewrite ?Hv, ?Hn;
      (split; [done|]); (split; [naive_solver|]); (split; [done|]); naive_solver.
Qed.

(** a full answer streams a complete, well-formed inventory. The schemas
    streamed are the snapshot's, no two with the same key; every nested schema
    comes after its parent. *)
Theorem contents_parents_first handler mode ifNoneMatch version build r :
  answerCatalogContents handler mode ifNoneMatch version build = Ok r ->
  NotModified r = false ->
  exists res ordered,
    (handler = Some (Ok res) \/ (handler = None /\ build = Ok (resSchemas res))) /\
    ordered ≡ₚ resSchemas res /\
    (exists r', encodeCatalogStreams version (resEtag res) ordered = Ok r' /\
                Streams r = Streams r') /\
    NoDup (map (fun s => schemaPathKey (Path s)) ordered) /\
    (forall i s, ordered !! i = Some s -> 1 < length (Path s) -> Forall nul_free (Path s) ->
       (forall s', s' ∈ ordered -> Forall nul_free (Path s')) ->
       exists j p, j < i /\ ordered !! j = Some p /\
         schemaPathKey (Path p) = schemaPathKey (parentPath (Path s))).
Proof.
  unfold answerCatalogContents. intros E Hm.
  match type of E with match ?m with _ => _ end = _ => destruct m as [res|] eqn:Er; [|done] end.
  exists res, (SortStable (fun s => length (Path s)) (resSchemas res)).
  split.
  { destruct handler as [h|]; [by left; f_equal|right].
    destruct build; [|done]. apply ok_inj in Er as <-. done. }
  pose proof (SortStable_Permutation (fun s => length (Path s)) (resSchemas res)) as Hperm.
  pose proof (SortStable_sorted (fun s => length (Path s)) (resSchemas res)) as Hsort.
  remember (SortStable (fun s => length (Path s)) (resSchemas res)) as ordered eqn:Ho. clear Ho.
  assert (forall x, x ∈ ordered <-> x ∈ resSchemas res) as Hel
    by (intros x; by apply elem_of_Permutation_proper).
  split; [done|].
  destruct (resNotModified res).
  { destruct (resEtag res); [|done]. do 2 (break_if; [|done]). by apply ok_inj in E as <-. }
  destruct (checkContentsPaths _ _) as [[]|] eqn:Ec; [|done].
  destruct (encodeCatalogStreams _ _ _) as [resp|] eqn:Ex; [|done].
  apply checkContentsPaths_ok in Ec as (Hn & Hne & Hpar).
  split.
  { exists resp. split; [done|].
    repeat (break_match; try done); apply ok_inj in E as <-; done. }
  split.
  { pose proof (Permutation_map (fun s => schemaPathKey (Path s)) Hperm) as Hpm.
    by apply (NoDup_Permutation_proper _ _ Hpm). }
  intros i s Hs Hl Hf Hall.
  assert (s ∈ resSchemas res) as Hin by (apply Hel, list_elem_of_lookup; eauto).
  destruct (Hpar s Hin Hl) as (p & Hp & Hk).
  apply Hel, list_elem_of_lookup in Hp as [j Hj].
  exists j, p. split; [|done].
  assert (length (Path p) < length (Path s)) as Hlt.
  { assert (Forall nul_free (Path p)) as Hfp by (apply Hall, list_elem_of_lookup; eauto).
    assert (Path p <> []) as Hnp by (apply Hne, Hel, list_elem_of_lookup; eauto).
    apply schemaPathKey_inj in Hk; [|done| |done|].
    - apply (f_equal length) in Hk. rewrite !length_map in Hk. unfold parentPath in Hk.
      rewrite length_take in Hk. lia.
    - by apply Forall_take.
    - unfold parentPath. clear -Hl. destruct (Path s) as [|a [|b l]]; cbn in Hl; [lia..|done]. }
  destruct (decide (j < i)) as [|Hge]; [done|]. exfalso.
  assert (j <> i) by (intros ->; rewrite Hs in Hj; injection Hj as ->; lia).
  pose proof (StronglySorted_lookup _ _ i j s p Hsort ltac:(lia) Hs Hj) as Hle.
  unfold key_le in Hle. lia.
Qed.

(** the content digest is of an unambiguous framing. Two full answers
    with the same digest input have the same catalog version and the same six
    streams, absent streams and empty ones told apart, so a content-hash etag
    can only repeat for different contents through a SHA-256 collision. *)
Theorem digest_framing r r' :
  digestInput r = digestInput r' ->
  int64_range (CatalogVersion r) -> int64_range (CatalogVersion r') ->
  length (Streams r) = 6 -> length (Streams r') = 6 ->
  Forall (fun v => fits (default [] v)) (Streams r) ->
  Forall (fun v => fits (default [] v)) (Streams r') ->
  CatalogVersion r = CatalogVersion r' /\ Streams r = Streams r'.
Proof.
  unfold digestInput. intros E Hv Hv' Hl Hl' Hf Hf'. apply app_inv_head in E.
  assert (forall z, 0 <= u64 z < 2 ^ 64)%Z as Hu by (intros z; apply Z.mod_pos_bound; lia).
  apply count_inj in E as [Ev E]; [|done..]. split.
  - apply (f_equal s64) in Ev. rewrite !s64_u64, !s64_small in Ev by done. done.
  - rewrite <- (app_nil_r (concat _)) in E. rewrite <- (app_nil_r (concat (map _ (Streams r')))) in E.
    apply frames_inj in E as [E _]; [done|congruence|done..].
Qed.

End contents_properties.

(** ** Witnesses *)

(** A record format for the witnesses: an item is its path's components, each
    with a NUL, then a newline and its type; a stream is its items, each with
    its length in front. A stream its reader would not give back is refused. *)
Module TextStreams.
Fixpoint components (fuel : nat) (b : bytes) : list (option string) * bytes :=
  match fuel, index_byte b x00 with
  | S fuel, Some i =>
      let '(cs, rest) := components fuel (drop (S i) b) in (Some (bstr (take i b)) :: cs, rest)
  | _, _ => ([], b)
  end.
Definition text_item_rows (kind : nat) (b : bytes) : option (list Row) :=
  let '(cs, rest) := components (length b) b in
  match rest with
  | x0a :: ty => Some [{| row_path := cs; row_type := bstr ty; row_item := b |}]
  | _ => None
  end.
Fixpoint rows_of (fuel : nat) (kind : nat) (b : bytes) : option (list Row) :=
  match fuel, b with
  | _, [] => Some []
  | S fuel, n :: b =>
      let len := Z.to_nat (byte_Z n) in
      match text_item_rows kind (take len b), rows_of fuel kind (drop len b) with
      | Some r, Some rs => Some (r ++ rs)
      | _, _ => None
      end
  | O, _ => None
  end.
Definition raw (items : list bytes) : bytes :=
  concat (map (fun i => Z_byte (Z.of_nat (length i)) :: i) items).
Definition text_stream_rows (kind : nat) (b : bytes) : option (list Row) := rows_of (length b) kind b.
Definition combine (kind : nat) (items : list bytes) : option (option bytes) :=
  match map_opt (text_item_rows kind) items with
  | None => None
  | Some rows =>
      if decide (concat rows = []) then Some None
      else if decide (text_stream_rows kind (raw items) = Some (concat rows)) then Some (Some (raw items))
      else None
  end.

Lemma text_combine_rows kind items rows :
  map_opt (text_item_rows kind) items = Some rows ->
  forall out, combine kind items = Some out ->
  match out with None => concat rows = [] | Some b => text_stream_rows kind b = Some (concat rows) end.
Proof.
  intros Hr out E. unfold combine in E. rewrite Hr in E.
  case_decide; [by injection E as <-|]. case_decide; [by injection E as <-|done].
Qed.

#[export] Instance streams : CatalogStreams :=
  {| item_rows := text_item_rows; CombineCatalogItems := combine; stream_rows := text_stream_rows;
     combine_rows := text_combine_rows |}.

Definition item (path : SchemaPath) (type : string) : bytes :=
  concat (map (fun c => sb c ++ [x00]) path) ++ x0a :: sb type.
End TextStreams.

Module ContentsExamples.
Import TextStreams.
Definition entry (path : SchemaPath) (tables : list bytes) (scalars : list bytes) : SchemaContents :=
  {| Path := path; Schema := item path ""; Tables := tables; Views := [];
     ScalarFunctions := scalars; AggregateFunctions := [item path "aggregate"];
     TableFunctions := [item path "table_buffering"]; ScalarMacros := [];
     TableMacros := [item path "TABLE"]; Indexes := [] |}.
Definition child : SchemaContents :=
  entry ["Main"; "Sub"] [item ["Main"; "Sub"] "t1"; item ["Main"; "Sub"] "t2"] [].
Definition main : SchemaContents := entry ["main"] [] [item ["main"] "scalar"].
Definition response : result string CatalogContentsResponse :=
  encodeCatalogStreams (H := streams) (H0 := AsciiText.ascii_text) 7 None [main; child].
Definition full : CatalogContentsResponse :=
  match response with
  | Ok r => r
  | Err _ => notModifiedResponse 0 ""
  end.
Definition handler_result : CatalogContentsResult :=
  {| resSchemas := [child; main]; resEtag := Some "g1"; resNotModified := false |}.
Definition answer (inm : option string) : result rpc_error CatalogContentsResponse :=
  answerCatalogContents (H := streams) (H0 := AsciiText.ascii_text)
    (Some (Ok handler_result)) EtagNone inm 7 (Ok []).
End ContentsExamples.
Import ContentsExamples.

Ltac own := eexists; split; cycle 1; [vm_compute; reflexivity|];
    intros Hn; first [exact (False_ind _ (Hn eq_refl)) | apply (bool_decide_unpack _); vm_compute; exact I].


Lemma not_modified_exact_witness :
  exists r, answer (Some "g1") = Ok r /\ NotModified r = true.
Proof.
  exists (notModifiedResponse 7 "g1").
  assert (answer (Some "g1") = Ok (notModifiedResponse 7 "g1")) as E by (vm_compute; reflexivity).
  split; [exact E|].
  apply (proj1 (proj2 (not_modified_exact (H := TextStreams.streams) (H0 := AsciiText.ascii_text)
    (Some (Ok handler_result)) EtagNone (Some "g1") 7 (Ok []) (notModifiedResponse 7 "g1") E))).
  exists "g1". split; reflexivity.
Defined.

Definition answered : CatalogContentsResponse :=
  match answer None with Ok r => r | Err _ => notModifiedResponse 0 "" end.

Lemma contents_parents_first_witness :
  exists ordered, ordered ≡ₚ [child; main] /\
    NoDup (map (fun s => schemaPathKey (H := AsciiText.ascii_text) (Path s)) ordered).
Proof.
  destruct (contents_parents_first (H := TextStreams.streams) (H0 := AsciiText.ascii_text)
    (Some (Ok handler_result)) EtagNone None 7 (Ok []) answered
    ltac:(vm_compute; reflexivity) ltac:(vm_compute; reflexivity))
    as (res & ordered & Hres & Hp & _ & Hn & _).
  exists ordered. split; [|exact Hn].
  destruct Hres as [E|[E _]]; [|discriminate E]. injection E as <-. exact Hp.
Defined.

Lemma digest_framing_witness : CatalogVersion full = 7%Z.
Proof.
  exact (proj1 (digest_framing full {| CatalogVersion := 7; Etag := None; NotModified := false;
      Streams := Streams full |} ltac:(vm_compute; reflexivity)
    ltac:(apply (bool_decide_unpack _); vm_compute; exact I)
    ltac:(apply (bool_decide_unpack _); vm_compute; exact I)
    ltac:(vm_compute; reflexivity) ltac:(vm_compute; reflexivity)
    ltac:(apply (bool_decide_unpack _); vm_compute; exact I)
    ltac:(apply (bool_decide_unpack _); vm_compute; exact I))).
Defined.
