(* ===== verification/CatalogRoute.v ===== *)
(** * CatalogRoute: one worker serving several catalogs
    (vgi/catalog_route.go, vgi/catalog.go, vgi/shardkey.go)

    A routed catalog answers every catalog RPC of its attaches. Routing rides
    the attach value: the value a routed catalog mints is wrapped with the
    catalog's name before it is sealed, and every later request is unwrapped
    and handed to the catalog it names. *)

From S2P Require Import Prelude.
From S2P Require Import Bytes.
From S2P Require Import Strings.
From S2P Require Import Unicode.
From S2P Require Import Envelope.

(** ** The routed attach value *)

Definition catalogRouteMarker : bytes := x00 :: sb "vgi.route" ++ [x00].

Definition encodeRoutedAttach (name : string) (inner : bytes) : bytes :=
  catalogRouteMarker ++ sb name ++ x00 :: inner.

Definition parseRoutedAttach (plain : bytes) : option (string * bytes) :=
  if negb (has_prefix plain catalogRouteMarker) then None else
  let rest := drop (length catalogRouteMarker) plain in
  match index_byte rest x00 with
  | None => None
  | Some i => Some (bstr (take i rest), drop (i + 1) rest)
  end.

(** ** The backends *)

Inductive route_error :=
| Opaque (e : opaque_error)
| NotSupported (catalog method : string)     (* NotImplementedError *)
| NoCatalogAttach (catalog : string)
| BadAttachResult (catalog : string)
| BackendError (message : string).

(** What a catalog handler answers: an attach result, of which routing rewrites
    the attach value and whether the client must keep sending it, or anything
    else. *)
Inductive routed_response (X : Type) :=
| RAttach (attach : bytes) (required : bool) (rest : X)
| ROther (rest : X).
Arguments RAttach {X} attach required rest.
Arguments ROther {X} rest.

Section routes.
Context {W P X : Type}.

(** A request: its opaque fields and the rest of it. *)
Record RoutedRequest := { opaque : OpaqueReq; payload : P }.

(** [routedMethod]: a handler over the state [W] of the catalogs. *)
Definition routedMethod : Type :=
  option CallContext -> RoutedRequest -> W -> result route_error (routed_response X) * W.

(** [catalogBackend]. *)
Record Backend := {
  method : string -> option routedMethod;
  catalogInfoItems : option CallContext -> W -> result route_error (list bytes)
}.

(** The parts of [Worker] that say which catalogs it serves. *)
Record RouteWorker := {
  seal : SealState;
  catalogName : string;
  catalogAliases : gset string;
  catalogAliasInfos : gset string;
  extraCatalogs : gset string;
  routes : gmap string Backend;
  routesPrepared : bool
}.

(** A panic at registration is an error. *)
Inductive route_panic := NeedsName | AlreadyServed (name : string) | AfterBuild (name : string)
| NeedsAnotherWorker | NestedRoutes (name : string).

Definition addRoute (w : RouteWorker) (name : string) (b : Backend) : result route_panic RouteWorker :=
  if bool_decide (name = "") then Err NeedsName else
  if bool_decide (name = catalogName w) || bool_decide (name ∈ catalogAliases w)
     || bool_decide (name ∈ catalogAliasInfos w) || bool_decide (name ∈ extraCatalogs w)
     || bool_decide (is_Some (routes w !! name))
  then Err (AlreadyServed name) else
  if routesPrepared w then Err (AfterBuild name) else
  Ok {| seal := seal w; catalogName := catalogName w; catalogAliases := catalogAliases w;
        catalogAliasInfos := catalogAliasInfos w; extraCatalogs := extraCatalogs w;
        routes := <[name := b]> (routes w); routesPrepared := routesPrepared w |}.

(** [child] is [None] for nil or the worker itself, else its catalog name,
    whether it has routes of its own, and the backend it makes. *)
Definition RegisterSubCatalog (w : RouteWorker) (child : option (string * bool * Backend))
    : result route_panic RouteWorker :=
  match child with
  | None => Err NeedsAnotherWorker
  | Some (name, hasRoutes, b) => if hasRoutes then Err (NestedRoutes name) else addRoute w name b
  end.

Definition RegisterMemoryCatalog (w : RouteWorker) (m : option (string * Backend))
    : result route_panic RouteWorker :=
  match m with
  | None => Err NeedsAnotherWorker
  | Some (name, b) => addRoute w name b
  end.

Definition routedCatalog (w : RouteWorker) (catalog : string) : bool :=
  bool_decide (is_Some (routes w !! catalog)).

Context `{Aead}.

(** [None] is routed=false: the regular path goes on with the request. *)
Definition dispatchRouted (w : RouteWorker) (cc : option CallContext) (meth : string)
    (req : RoutedRequest) (world : W) : option (result route_error (routed_response X)) * W :=
  if bool_decide (routes w = ∅) then (None, world) else
  match AttachOpaqueData (opaque req) with
  | None | Some [] => (None, world)
  | Some sealedAttach =>
      match openAttach (seal w) sealedAttach cc with
      | Err e => (Some (Err (Opaque e)), world)
      | Ok plain =>
          match parseRoutedAttach plain with
          | None => (None, world)
          | Some (name, inner) =>
              match routes w !! name with
              | None => (Some (Err (Opaque attachRejected)), world)
              | Some b =>
                  match method b meth with
                  | None => (Some (Err (NotSupported name meth)), world)
                  | Some m =>
                      let tx :=
                        match TransactionOpaqueData (opaque req) with
                        | Some t =>
                            if sealOpaqueData (seal w)
                            then let? p := openTransaction (seal w) t sealedAttach cc in Ok (Some p)
                            else Ok (Some t)
                        | None => Ok None
                        end in
                      match tx with
                      | Err e => (Some (Err (Opaque e)), world)
                      | Ok tx =>
                          let '(out, world') :=
                            m cc {| opaque := {| AttachOpaqueData := Some inner;
                                                 TransactionOpaqueData := tx |};
                                    payload := payload req |} world in
                          (Some out, world')
                      end
                  end
              end
          end
      end
  end.

(** [uuid] and [rand] are the randomness of [mintAttach]. *)
Definition attachRouted (w : RouteWorker) (cc : option CallContext) (name : string)
    (req : RoutedRequest) (b : Backend) (uuid rand : option bytes) (world : W)
    : result route_error (routed_response X) * W :=
  match method b "catalog_attach" with
  | None => (Err (NoCatalogAttach name), world)
  | Some m =>
      match m cc req world with
      | (Err e, world') => (Err e, world')
      | (Ok (ROther _), world') => (Err (BadAttachResult name), world')
      | (Ok (RAttach inner _ rest), world') =>
          match mintAttach (seal w) (encodeRoutedAttach name inner) cc uuid rand with
          | Err e => (Err (Opaque e), world')
          | Ok env => (Ok (RAttach env true rest), world')
          end
      end
  end.

Definition routedCatalogInfos (w : RouteWorker) (cc : option CallContext) (world : W)
    : result route_error (list bytes) :=
  let? items := map_result (fun name =>
      match routes w !! name with
      | Some b => catalogInfoItems b cc world
      | None => Ok []
      end) (Sort (map fst (map_to_list (routes w)))) in
  Ok (concat items).

(** ** The catalog of an attach *)

Definition catalogNameOf (attachOpaqueData : bytes) : string :=
  match index_byte attachOpaqueData x00 with
  | Some i => bstr (take i attachOpaqueData)
  | None => bstr attachOpaqueData
  end.

(** [writableByAttachOpaqueData]: the writable catalog's name. *)
Definition writableByAttachOpaqueData (w : RouteWorker) (attach : bytes) : option string :=
  if bool_decide (length attach = 0) then None else
  if negb (has_prefix attach (sb "writable:")) then None else
  let name := bstr (drop (length (sb "writable:")) attach) in
  if bool_decide (name ∈ extraCatalogs w) then Some name else None.

Definition catalogOfAttach (w : RouteWorker) (attach : bytes) : string :=
  match writableByAttachOpaqueData w attach with
  | Some name => name
  | None =>
      let fallback :=
        let name := catalogNameOf attach in
        if bool_decide (name = catalogName w) then name else
        if bool_decide (name ∈ catalogAliases w) then name else
        if bool_decide (name ∈ extraCatalogs w) then name else catalogName w in
      match parseRoutedAttach attach with
      | Some (name, _) => if routedCatalog w name then name else fallback
      | None => fallback
      end
  end.

Definition catalogOfAttachPtr (w : RouteWorker) (attach : option bytes) (cc : option CallContext)
    : string :=
  match attach with
  | None => catalogName w
  | Some a =>
      match openAttach (seal w) a cc with
      | Err _ => catalogName w
      | Ok plain => catalogOfAttach w plain
      end
  end.

(** ** Shard keys and attach scopes *)

Definition deriveShardKey (attachUUID : bytes) : result string string :=
  if negb (bool_decide (length attachUUID = attachUUIDLen))
  then Err "shard_key requires a 16-byte attach uuid"
  else Ok ("att-" +:+ hex_encode attachUUID).

Inductive shard_error := ShardOpaque (e : opaque_error) | ShardUUID (m : string).

Definition shardKeyForAttach (w : RouteWorker) (sealed : bytes) (cc : option CallContext)
    : result shard_error string :=
  match sealed with
  | [] => Ok ""
  | _ :: _ =>
      match openAttachFull (seal w) sealed cc with
      | Err e => Err (ShardOpaque e)
      | Ok full =>
          if bool_decide (length full < attachUUIDLen) then Ok "" else
          match deriveShardKey (take attachUUIDLen full) with
          | Err m => Err (ShardUUID m)
          | Ok k => Ok k
          end
      end
  end.

Definition shardKeyForAttachPtr (w : RouteWorker) (sealed : option bytes) (cc : option CallContext)
    : result shard_error string :=
  match sealed with None => Ok "" | Some s => shardKeyForAttach w s cc end.

Definition attachScopeForPtr (w : RouteWorker) (sealed : option bytes) (cc : option CallContext)
    (fallback : bytes) : bytes :=
  match sealed with
  | None | Some [] => fallback
  | Some s => match openAttach (seal w) s cc with Err _ => fallback | Ok plain => plain end
  end.

End routes.

Arguments RoutedRequest P : clear implicits.
Arguments Backend W P X : clear implicits.
Arguments RouteWorker W P X : clear implicits.

(** ** Lemmas *)

Lemma index_byte_split l b i :
  index_byte l b = Some i <-> exists p r, l = p ++ b :: r /\ length p = i /\ b ∉ p.
Proof.
  revert i. induction l as [|a l IH]; intros i; cbn [index_byte].
  { split; [done|]. by intros ([|] & ? & ? & _). }
  case_bool_decide as Hab; [subst|].
  - split.
    + intros [= <-]. exists [], l. split; [done|]. split; [done|]. set_solver.
    + intros ([|x p] & r & E & <- & Hn); [done|]. injection E as <- E. set_solver.
  - rewrite fmap_Some. setoid_rewrite IH. split.
    + intros (j & (p & r & -> & <- & Hn) & ->). exists (a :: p), r.
      split; [done|]. split; [done|]. set_solver.
    + intros ([|x p] & r & E & <- & Hn); injection E as E0 E; [by subst|]. subst.
      exists (length p). split; [|done]. exists p, r. split; [done|]. split; [done|]. set_solver.
Qed.

Lemma index_byte_none l b : index_byte l b = None <-> b ∉ l.
Proof.
  split.
  - intros E Hin. apply list_elem_of_split in Hin as (p & r & ->).
    destruct (index_byte _ b) eqn:E2; [done|]. clear E. induction p as [|a p IH]; cbn in E2.
    + by rewrite bool_decide_true in E2.
    + case_bool_decide; [done|]. destruct (index_byte (p ++ b :: r) b); [done|auto].
  - intros Hn. destruct (index_byte l b) as [i|] eqn:E; [|done].
    apply index_byte_split in E as (p & r & -> & _). set_solver.
Qed.

Lemma parseRoutedAttach_iff plain n inner :
  parseRoutedAttach plain = Some (n, inner) <-> nul_free n /\ plain = encodeRoutedAttach n inner.
Proof.
  unfold parseRoutedAttach, encodeRoutedAttach, nul_free. split.
  - intros E. destruct (has_prefix plain _) eqn:Ep; [|done].
    apply has_prefix_spec in Ep as [rest ->]. cbn [negb] in E.
    rewrite drop_app_exact in E by done.
    destruct (index_byte rest x00) as [i|] eqn:Ei; [|done]. injection E as <- <-.
    apply index_byte_split in Ei as (p & r & -> & <- & Hn).
    rewrite take_app_exact by done. rewrite sb_bstr. split; [done|]. f_equal. f_equal. f_equal.
    rewrite drop_app_ge by lia. replace (length p + 1 - length p) with 1 by lia. done.
  - intros [Hn ->].
    rewrite (proj2 (has_prefix_spec _ _)) by eauto. cbn [negb].
    rewrite drop_app_exact by done.
    rewrite (proj2 (index_byte_split (sb n ++ x00 :: inner) x00 (length (sb n)))) by eauto.
    rewrite take_app_exact by done. rewrite bstr_sb. f_equal. f_equal.
    rewrite drop_app_ge by lia. by replace (length (sb n) + 1 - length (sb n)) with 1 by lia.
Qed.

Section route_lemmas.
Context `{Aead} {W P X : Type}.

(** Opening depends on the caller only. *)
Lemma openAttach_auth w env cc cc' :
  callAuth cc' = callAuth cc -> openAttach w env cc' = openAttach w env cc.
Proof. intros E. unfold openAttach, openAttachFull. by rewrite E. Qed.
Lemma openTransaction_auth w env att cc cc' :
  callAuth cc' = callAuth cc -> openTransaction w env att cc' = openTransaction w env att cc.
Proof. intros E. unfold openTransaction. by rewrite E. Qed.

(** What a dispatch that reached a backend established. *)
Definition reached (w : RouteWorker W P X) cc meth (req : RoutedRequest P) world out : Prop :=
  exists sealed plain n inner b m tx,
    AttachOpaqueData (opaque req) = Some sealed /\ sealed <> [] /\
    openAttach (seal w) sealed cc = Ok plain /\ plain = encodeRoutedAttach n inner /\ nul_free n /\
    routes w !! n = Some b /\ method b meth = Some m /\
    (match TransactionOpaqueData (opaque req) with
     | None => tx = None
     | Some t => exists p, tx = Some p /\ openTransaction (seal w) t sealed cc = Ok p
     end) /\
    out = m cc {| opaque := {| AttachOpaqueData := Some inner; TransactionOpaqueData := tx |};
                  payload := payload req |} world.

Lemma dispatch_inv (w : RouteWorker W P X) cc meth req world o world' :
  dispatchRouted w cc meth req world = (o, world') ->
  (o = None /\ world' = world) \/
  (exists e, o = Some (Err e) /\ world' = world) \/
  exists r, o = Some r /\ reached w cc meth req world (r, world').
Proof.
  unfold dispatchRouted. intros E.
  destruct (bool_decide (routes w = ∅)); [left; by injection E as <- <-|].
  destruct (AttachOpaqueData (opaque req)) as [[|s0 sealed]|] eqn:Ea; [left; by injection E as <- <-| |left; by injection E as <- <-].
  destruct (openAttach _ _ _) as [plain|e] eqn:Eo; [|right; left; injection E as <- <-; eauto].
  destruct (parseRoutedAttach plain) as [[n inner]|] eqn:Ep; [|left; by injection E as <- <-].
  apply parseRoutedAttach_iff in Ep as [Hn ->].
  destruct (routes w !! n) as [b|] eqn:Eb; [|right; left; injection E as <- <-; eauto].
  destruct (method b meth) as [m|] eqn:Em; [|right; left; injection E as <- <-; eauto].
  match type of E with match ?t with _ => _ end = _ => destruct t as [tx|e] eqn:Et end;
    [|right; left; injection E as <- <-; eauto].
  destruct (m cc _ world) as [out w2] eqn:Er. injection E as <- <-.
  right; right. exists out. split; [done|].
  exists (s0 :: sealed), (encodeRoutedAttach n inner), n, inner, b, m, tx. split; [done|]. split; [done|]. split; [done|].
  split; [done|]. split; [done|]. split; [done|]. split; [done|]. split; [|done].
  destruct (TransactionOpaqueData (opaque req)) as [t|]; [|by apply ok_inj in Et].
  destruct (sealOpaqueData (seal w)) eqn:Es.
  - destruct (openTransaction _ t _ cc) as [p|]; [|done]. apply ok_inj in Et as <-. eauto.
  - apply ok_inj in Et as <-. exists t. split; [done|]. unfold openTransaction. by rewrite Es.
Qed.

Lemma dispatch_reached (w : RouteWorker W P X) cc meth req world out :
  reached w cc meth req world out ->
  dispatchRouted w cc meth req world = (Some (fst out), snd out).
Proof.
  intros (sealed & plain & n & inner & b & m & tx & Ha & Hne & Ho & -> & Hn & Hb & Hm & Ht & ->).
  unfold dispatchRouted. rewrite Ha.
  rewrite bool_decide_false by (intros Hz; by rewrite Hz, lookup_empty in Hb).
  destruct sealed as [|s0 sealed]; [done|]. rewrite Ho.
  rewrite (proj2 (parseRoutedAttach_iff _ n inner)) by done. rewrite Hb, Hm.
  assert ((match TransactionOpaqueData (opaque req) with
           | Some t => if sealOpaqueData (seal w)
                       then let? p := openTransaction (seal w) t (s0 :: sealed) cc in Ok (Some p)
                       else Ok (Some t)
           | None => Ok None end) = Ok tx) as Et.
  { destruct (TransactionOpaqueData (opaque req)) as [t|]; [|by rewrite Ht].
    destruct Ht as (p & -> & Hp). destruct (sealOpaqueData (seal w)) eqn:Es; [by rewrite Hp|].
    unfold openTransaction in Hp. rewrite Es in Hp. cbn in Hp. by apply ok_inj in Hp as ->. }
  rewrite Et. by destruct (m cc _ world).
Qed.

Lemma attachRouted_inv (w : RouteWorker W P X) cc n req b uuid rand world env required rest world' :
  attachRouted w cc n req b uuid rand world = (Ok (RAttach env required rest), world') ->
  required = true /\ exists m inner r0,
    method b "catalog_attach" = Some m /\ m cc req world = (Ok (RAttach inner r0 rest), world') /\
    mintAttach (seal w) (encodeRoutedAttach n inner) cc uuid rand = Ok env.
Proof.
  unfold attachRouted. intros E. destruct (method b _) as [m|] eqn:Em; [|done].
  destruct (m cc req world) as [[[inner r0 rest0|rest0]|e] w2] eqn:Er; [|done..].
  destruct (mintAttach _ _ _ _ _) as [env'|] eqn:Emi; [|done]. injection E as -> <- -> ->.
  split; [done|]. by exists m, inner, r0.
Qed.

End route_lemmas.

(** ** Properties *)

(** the routed attach value is unambiguous. A plaintext parses as a routed
    attach exactly when it is the encoding of a NUL-free catalog name and some
    inner value, and then gives back both. *)
Theorem routed_attach_exact plain n inner :
  parseRoutedAttach plain = Some (n, inner) <-> nul_free n /\ plain = encodeRoutedAttach n inner.
Proof. apply parseRoutedAttach_iff. Qed.

Section route_properties.
Context `{Aead} {W P X : Type}.

(** C37: an attach routes back to its catalog. When a routed catalog of the
    worker attaches and mints [inner], every later request of the same caller
    that carries the sealed value is handled by that catalog: its handler for
    the method runs on the request with [inner] for the attach value and the
    plaintext for the transaction, and its answer is the worker's. *)
Theorem attach_routes_back (w : RouteWorker W P X) cc n req b u rand world env required rest world1
    cc' meth req' v rand' world2 m :
  attachRouted w cc n req b (Some u) rand world = (Ok (RAttach env required rest), world1) ->
  routes w !! n = Some b -> nul_free n -> length u = 16 ->
  method b meth = Some m -> callAuth cc' = callAuth cc ->
  AttachOpaqueData (opaque req') = Some env ->
  sealTransactionResult (seal w) v env cc rand' = Ok (TransactionOpaqueData (opaque req')) ->
  exists attachMethod inner r0,
    method b "catalog_attach" = Some attachMethod /\
    attachMethod cc req world = (Ok (RAttach inner r0 rest), world1) /\
    let out := m cc' {| opaque := {| AttachOpaqueData := Some inner; TransactionOpaqueData := v |};
                        payload := payload req' |} world2 in
    dispatchRouted w cc' meth req' world2 = (Some (fst out), snd out).
Proof.
  intros E Hb Hn Hu Hm Hcc Ha Ht. apply attachRouted_inv in E as (_ & am & inner & r0 & Ham & Her & Hmi).
  exists am, inner, r0. split; [done|]. split; [done|]. cbv zeta. apply dispatch_reached.
  exists env, (encodeRoutedAttach n inner), n, inner, b, m, v.
  split; [done|]. split; [by destruct (mintAttach_nonempty _ _ _ _ _ _ Hu Hmi) as (? & ? & ->)|].
  split; [rewrite (openAttach_auth _ _ _ _ Hcc); by apply (openAttach_mint _ _ _ u rand)|].
  split; [done|]. split; [done|]. split; [done|]. split; [done|]. split; [|done].
  unfold sealTransactionResult in Ht. destruct v as [v|].
  - destruct (sealTransaction _ _ _ _ _) as [t|] eqn:Et; [|done]. apply ok_inj in Ht as <-.
    exists v. split; [done|]. rewrite (openTransaction_auth _ _ _ _ _ Hcc).
    by eapply openTransaction_seal.
  - by apply ok_inj in Ht as <-.
Qed.

(** routing is a check. A dispatch either leaves the catalogs untouched or
    runs exactly one handler: that of a catalog the worker routes to, named by
    an attach value that opened for this caller, on the opened values. An attach
    value that does not open, and one that names no routed catalog, are rejected
    alike. *)
Theorem routing_is_a_check (w : RouteWorker W P X) cc meth req world o world' :
  dispatchRouted w cc meth req world = (o, world') ->
  ((o = None \/ exists e, o = Some (Err e)) /\ world' = world \/
   exists r, o = Some r /\ reached w cc meth req world (r, world')) /\
  (forall sealed plain n inner, routes w <> ∅ ->
     AttachOpaqueData (opaque req) = Some sealed -> sealed <> [] ->
     openAttach (seal w) sealed cc = Err attachRejected \/
     (openAttach (seal w) sealed cc = Ok plain /\ parseRoutedAttach plain = Some (n, inner) /\
      routes w !! n = None) ->
     o = Some (Err (Opaque attachRejected))).
Proof.
  intros E. split.
  - apply dispatch_inv in E as [[-> ->]|[(e & -> & ->)|(r & -> & Hr)]]; [left|left|right]; eauto.
  - intros sealed plain n inner Hr Ha Hne Hcase. unfold dispatchRouted in E. rewrite Ha in E.
    rewrite bool_decide_false in E by done. destruct sealed as [|s0 sealed]; [done|].
    destruct Hcase as [Ho|(Ho & Hp & Hb)]; rewrite Ho in E; [congruence|].
    rewrite Hp, Hb in E. congruence.
Qed.

(** an attach belongs to one served catalog, and has one shard. The
    catalog of an attach value is always one the worker serves, the routed one
    it names if it names one; and the shard key of a minted attach is its
    UUID's, whoever seals it and however often, different for different
    attaches. *)
Theorem attach_catalog_and_shard (w : RouteWorker W P X) :
  (forall a, catalogOfAttach w a = catalogName w \/ catalogOfAttach w a ∈ catalogAliases w \/
     catalogOfAttach w a ∈ extraCatalogs w \/ is_Some (routes w !! catalogOfAttach w a)) /\
  (forall n inner, nul_free n -> is_Some (routes w !! n) ->
     catalogOfAttach w (encodeRoutedAttach n inner) = n) /\
  (forall cat cat' cc cc' u u' rand rand' env env', length u = 16 -> length u' = 16 ->
     mintAttach (seal w) cat cc (Some u) rand = Ok env ->
     mintAttach (seal w) cat' cc' (Some u') rand' = Ok env' ->
     exists k k', shardKeyForAttach w env cc = Ok k /\ shardKeyForAttach w env' cc' = Ok k' /\
       (k = k' <-> u = u')).
Proof.
  split; [|split].
  - intros a. unfold catalogOfAttach, writableByAttachOpaqueData, routedCatalog.
    repeat (case_match; bool_hyps; simplify_eq; auto 10); cbn in *; bool_hyps; auto 10.
  - intros n inner Hn Hr. unfold catalogOfAttach.
    assert (writableByAttachOpaqueData w (encodeRoutedAttach n inner) = None) as -> by reflexivity.
    rewrite (proj2 (parseRoutedAttach_iff _ n inner)) by done. unfold routedCatalog.
    by rewrite bool_decide_true.
  - assert (forall cat cc u rand env, length u = 16 -> mintAttach (seal w) cat cc (Some u) rand = Ok env ->
      shardKeyForAttach w env cc = Ok ("att-" +:+ hex_encode u)) as Hk.
    { intros cat cc u rand env Hu E. unfold shardKeyForAttach, deriveShardKey.
      destruct (mintAttach_nonempty _ _ _ _ _ _ Hu E) as (b & env' & ->).
      rewrite (openAttachFull_mint _ _ _ _ _ _ E).
      rewrite length_app, bool_decide_false by (unfold attachUUIDLen; lia).
      rewrite take_app_exact by done. by rewrite bool_decide_true. }
    intros cat cat' cc cc' u u' rand rand' env env' Hu Hu' E E'.
    eexists _, _. split; [exact (Hk _ _ _ _ _ Hu E)|].
    split; [exact (Hk _ _ _ _ _ Hu' E')|]. split; [|by intros ->].
    intros Ek. apply hex_encode_inj. by simplify_eq.
Qed.

End route_properties.

(** A name with a NUL in it is registered and attached but never routed to:
    its attach value parses as another name. *)
Lemma nul_name_misroutes :
  parseRoutedAttach (encodeRoutedAttach ("a" +:+ NUL +:+ "b") [x01]) = Some ("a", [x62; x00; x01]).
Proof. vm_compute. reflexivity. Qed.

(** ** Witnesses *)

#[local] Existing Instance DigestAead.digest_aead.

Module RouteExamples.
(** A catalog that counts its calls and mints the count as its attach value. *)
Definition counter : Backend nat string nat :=
  {| method := fun name =>
       if bool_decide (name = "catalog_attach")
       then Some (fun _ _ n => (Ok (RAttach [Z_byte (Z.of_nat n)] false n), S n))
       else if bool_decide (name = "catalog_version")
       then Some (fun _ req n =>
              (if bool_decide (AttachOpaqueData (opaque req) = Some [x05])
               then Ok (ROther n) else Err (BackendError "not attached"), S n))
       else None;
     catalogInfoItems := fun _ _ => Ok [[x01]] |}.
Definition w : RouteWorker nat string nat :=
  {| seal := EnvelopeExamples.worker; catalogName := "own"; catalogAliases := ∅;
     catalogAliasInfos := ∅; extraCatalogs := ∅; routes := {["mem" := counter]};
     routesPrepared := true |}.
Definition cc : option CallContext := Some (EnvelopeExamples.ctx (Some EnvelopeExamples.alice)).
Definition request (a : option bytes) : RoutedRequest string :=
  {| opaque := {| AttachOpaqueData := a; TransactionOpaqueData := None |}; payload := "p" |}.
Definition attached : result route_error (routed_response nat) * nat :=
  attachRouted w cc "mem" (request None) counter (Some EnvelopeExamples.uuid)
    (Some EnvelopeExamples.nonce) 5.
Definition env : bytes := match fst attached with Ok (RAttach e _ _) => e | _ => [] end.
End RouteExamples.
Import RouteExamples.

Lemma attach_routes_back_witness :
  dispatchRouted w cc "catalog_version" (request (Some env)) 6 = (Some (Ok (ROther 6)), 7).
Proof.
  destruct (attach_routes_back (H := DigestAead.digest_aead) w cc "mem" (request None) counter
    EnvelopeExamples.uuid (Some EnvelopeExamples.nonce) 5 env true 5 6 cc "catalog_version"
    (request (Some env)) None None 6
    (fun _ req n => (if bool_decide (AttachOpaqueData (opaque req) = Some [x05])
               then Ok (ROther n) else Err (BackendError "not attached"), S n))
    ltac:(vm_compute; reflexivity) ltac:(vm_compute; reflexivity)
    ltac:(apply (bool_decide_unpack _); vm_compute; exact I) ltac:(vm_compute; exact (eq_refl 16)) eq_refl eq_refl eq_refl eq_refl)
    as (am & inner & r0 & Ham & Har & Hd).
  assert (inner = [x05]) as ->; [|exact Hd].
  vm_compute in Ham. injection Ham as <-. vm_compute in Har. congruence.
Defined.

Lemma routing_is_a_check_witness :
  fst (dispatchRouted w cc "catalog_version" (request (Some [x01; x02])) 6)
  = Some (Err (Opaque attachRejected)).
Proof.
  assert (openAttach (seal w) [x01; x02] cc = Err attachRejected) as Ho by (vm_compute; reflexivity).
  exact (proj2 (routing_is_a_check (H := DigestAead.digest_aead) w cc "catalog_version"
    (request (Some [x01; x02])) 6 _ _ (surjective_pairing _)) [x01; x02] [] "" []
    ltac:(vm_compute; discriminate) eq_refl ltac:(discriminate) (or_introl Ho)).
Defined.
