(* ===== verification/Overload.v ===== *)
(** * Overload: the function registry and the resolution of a call
    (vgi/overload.go, and the registry of vgi/worker.go, vgi/catalog_route.go)

    A worker registers implementations by kind and name; a list of origins,
    index-aligned with the implementations, says where each one lives. A call
    is resolved by name and kind, then by home (catalog and schema), then, among
    what is left, by argument signature. *)

From S2P Require Import Prelude.
From S2P Require Import Bytes.
From S2P Require Import Strings.
From S2P Require Import Unicode.
From S2P Require Import CatalogContents.
From S2P Require Import ArrowTypes.
From S2P Require Import Arguments.

(** ** Scores *)

(** 2 for an exact match, 1 for one family, 0 for a spec of any type, -1 for
    an incompatible type. *)
Definition scoreType (actual : DataType) (spec : ArgSpec) : Z :=
  let expected := match ArrowDataType spec with
                  | Some dt => dt
                  | None => argTypeToArrowType (ArrowType spec)
                  end in
  if (bool_decide (ArrowType spec = "any") || bool_decide (ArrowType spec = ""))
     && bool_decide (expected = NULL) then 0 else
  if bool_decide (expected = NULL) then 0 else
  if TypeEqual actual expected then 2 else
  if typesInSameFamily actual expected then 1 else -1.

Lemma scoreType_range actual spec : (-1 <= scoreType actual spec <= 2)%Z.
Proof. unfold scoreType. repeat case_match; lia. Qed.

(** ** The registry *)

Inductive funcKind := kindScalar | kindTable | kindTableInOut | kindTableBuffering | kindAggregate.
#[global] Instance funcKind_dec : EqDecision funcKind.
Proof. solve_decision. Defined.

Record funcOrigin := { catalog : string; schema : string; unlisted : bool }.
#[global] Instance funcOrigin_dec : EqDecision funcOrigin.
Proof. solve_decision. Defined.

Definition defaultFunctionSchema : string := "main".

(** An implementation is a parameter; the resolver only reads its argument
    specs. *)
Section registry.
Context {F : Type} (ArgumentSpecs : F -> list ArgSpec) `{Unicode}.

(** [reg kind name] and [origins kind name] are the slices of the registry maps
    and of [funcOrigins], empty for an absent key. *)
Record Registry := {
  catalogName : string;
  reg : funcKind -> string -> list F;
  funcOrigins : funcKind -> string -> list funcOrigin
}.

Definition upd {A} (f : funcKind -> string -> A) (k : funcKind) (n : string) (v : A)
    : funcKind -> string -> A :=
  fun k' n' => if bool_decide (k' = k /\ n' = n) then v else f k' n'.

Definition recordOrigin (w : Registry) (kind : funcKind) (name : string) (o : funcOrigin)
    : Registry :=
  let cat := if bool_decide (catalog o = "") then catalogName w else catalog o in
  let sch := if bool_decide (schema o = "") then defaultFunctionSchema else schema o in
  let o := {| catalog := cat; schema := ToLower sch; unlisted := unlisted o |} in
  {| catalogName := catalogName w; reg := reg w;
     funcOrigins := upd (funcOrigins w) kind name (funcOrigins w kind name ++ [o]) |}.

Definition originOf (w : Registry) (kind : funcKind) (name : string) (idx : nat) : funcOrigin :=
  match funcOrigins w kind name !! idx with
  | Some o => o
  | None => {| catalog := catalogName w; schema := defaultFunctionSchema; unlisted := false |}
  end.

Definition appendFn (w : Registry) (kind : funcKind) (name : string) (f : F) : Registry :=
  {| catalogName := catalogName w; reg := upd (reg w) kind name (reg w kind name ++ [f]);
     funcOrigins := funcOrigins w |}.

(** The Register functions of the five kinds. *)
Definition registerInSchemaPath (kind : funcKind) (w : Registry) (schemaPath : SchemaPath)
    (name : string) (f : F) : Registry :=
  recordOrigin (appendFn w kind name f) kind name
    {| catalog := ""; schema := schemaPathKey schemaPath; unlisted := false |}.
Definition registerInSchema (kind : funcKind) (w : Registry) (schemaPath : string)
    (name : string) (f : F) : Registry :=
  registerInSchemaPath kind w (singleSchemaPath schemaPath) name f.
Definition register (kind : funcKind) (w : Registry) (name : string) (f : F) : Registry :=
  registerInSchema kind w defaultFunctionSchema name f.
Definition registerForCatalog (kind : funcKind) (w : Registry) (catalogName : string)
    (name : string) (f : F) : Registry :=
  recordOrigin (appendFn w kind name f) kind name
    {| catalog := catalogName; schema := ""; unlisted := false |}.
Definition RegisterTableUnlisted (w : Registry) (name : string) (f : F) : Registry :=
  recordOrigin (appendFn w kindTable name f) kindTable name
    {| catalog := ""; schema := ""; unlisted := true |}.

(** ** Importing a sub-catalog's functions *)

Fixpoint padOrigins (fuel : nat) (parent : Registry) (kind : funcKind) (name : string) : Registry :=
  match fuel with
  | O => parent
  | S fuel =>
      if (length (funcOrigins parent kind name) <? length (reg parent kind name))%nat
      then padOrigins fuel
             (recordOrigin parent kind name
                (originOf parent kind name (length (funcOrigins parent kind name)))) kind name
      else parent
  end.

Definition importOne (kind : funcKind) (home : string) (child : Registry) (name : string)
    (parent : Registry) (i : nat) (fn : F) : Registry :=
  let parent := padOrigins (length (reg parent kind name)) parent kind name in
  let o := originOf child kind name i in
  recordOrigin (appendFn parent kind name fn) kind name
    {| catalog := home; schema := schema o; unlisted := unlisted o |}.

Fixpoint importFns (kind : funcKind) (home : string) (child : Registry) (name : string)
    (parent : Registry) (i : nat) (fns : list F) : Registry :=
  match fns with
  | [] => parent
  | fn :: fns => importFns kind home child name (importOne kind home child name parent i fn) (S i) fns
  end.

(** [names] are the names of the kind's registry, sorted. *)
Definition importRegistry (parent child : Registry) (kind : funcKind) (names : list string)
    (home : string) : Registry :=
  foldl (fun parent name => importFns kind home child name parent 0 (reg child kind name))
    parent names.

(** ** Overloads *)

(** A slice of argument types; a nil element is an argument that was not sent. *)
Abbreviation arg_types := (list (option DataType)).

Definition constSpecs (specs : list ArgSpec) : list ArgSpec :=
  filter (fun s => (0 <= Position s)%Z /\ IsConst s = true) specs.
Definition nonConstSpecs (specs : list ArgSpec) : list ArgSpec :=
  filter (fun s => (0 <= Position s)%Z /\ IsConst s = false) specs.
(** The last variadic spec. *)
Definition varargsSpec (specs : list ArgSpec) : option ArgSpec :=
  last (filter (fun s => IsVarargs s = true) specs).

(** The count check; [inputSchema] is nil when there is no input. *)
Definition countMatches (specs : list ArgSpec) (positional : arg_types)
    (inputSchema : option (list DataType)) : bool :=
  let numPositionalArgs := length positional in
  let numConstSpecs := length (constSpecs specs) in
  match varargsSpec specs with
  | Some v =>
      if IsConst v then (Z.of_nat numConstSpecs - 1 <=? Z.of_nat numPositionalArgs)%Z
      else
        (numConstSpecs <=? numPositionalArgs)%nat &&
        match inputSchema with
        | None => true
        | Some fields => (Z.of_nat (length (nonConstSpecs specs)) - 1 <=? Z.of_nat (length fields))%Z
        end
  | None =>
      (numPositionalArgs =? numConstSpecs)%nat &&
      match inputSchema with
      | None => true
      | Some fields =>
          bool_decide (length (nonConstSpecs specs) = 0)
          || (length fields =? length (nonConstSpecs specs))%nat
      end
  end.

(** Every argument against one variadic spec. *)
Fixpoint scoreAll (spec : ArgSpec) (args : arg_types) : option Z :=
  match args with
  | [] => Some 0%Z
  | None :: args => scoreAll spec args
  | Some t :: args =>
      let s := scoreType t spec in
      if (s <? 0)%Z then None else r ← scoreAll spec args; Some (s + r)%Z
  end.

(** The arguments against the specs in order; a variadic spec takes the rest,
    specs beyond the arguments are not scored. *)
Fixpoint scoreArgs (specs : list ArgSpec) (args : arg_types) : option Z :=
  match specs with
  | [] => Some 0%Z
  | spec :: specs =>
      if IsVarargs spec then scoreAll spec args else
      match args with
      | [] => scoreArgs specs []
      | None :: args => scoreArgs specs args
      | Some t :: args =>
          let s := scoreType t spec in
          if (s <? 0)%Z then None else r ← scoreArgs specs args; Some (s + r)%Z
      end
  end.

(** The score of a candidate, [None] when it is skipped. *)
Definition scoreCandidate (specs : list ArgSpec) (positional : arg_types)
    (inputSchema : option (list DataType)) : option Z :=
  if countMatches specs positional inputSchema then
    s1 ← scoreArgs (constSpecs specs) positional;
    s2 ← match inputSchema with
         | None => Some 0%Z
         | Some fields => scoreArgs (nonConstSpecs specs) (map Some fields)
         end;
    Some (s1 + s2)%Z
  else None.

Definition better (best : F * Z) (m : F * Z) : F * Z :=
  if (snd best <? snd m)%Z then m else best.

Definition resolveOverload (candidates : list F) (positional : arg_types)
    (inputSchema : option (list DataType)) : option F :=
  match candidates with
  | [c] => Some c
  | _ =>
      match omap (fun fn => pair fn <$> scoreCandidate (ArgumentSpecs fn) positional inputSchema)
              candidates with
      | [] => None
      | m :: ms => Some (fst (foldl better m ms))
      end
  end.

(** ** Candidates and their homes *)

Abbreviation FunctionType := string.

Definition normalizeFunctionType (ft : FunctionType) : FunctionType :=
  if bool_decide (ft ∈ ["SCALAR"; "SCALAR_FUNCTION"; "scalar"]) then "SCALAR" else
  if bool_decide (ft ∈ ["TABLE"; "TABLE_FUNCTION"; "table"]) then "TABLE" else
  if bool_decide (ft ∈ ["AGGREGATE"; "AGGREGATE_FUNCTION"; "aggregate"]) then "AGGREGATE" else
  if bool_decide (ft ∈ ["TABLE_BUFFERING"; "table_buffering"]) then "TABLE_BUFFERING" else ft.

Record candidate := { fn : F; origin : funcOrigin }.

Definition collect (w : Registry) (kind : funcKind) (name : string) : list candidate :=
  imap (fun i f => {| fn := f; origin := originOf w kind name i |}) (reg w kind name).

(** The first non-empty registry of [kinds]. *)
Fixpoint firstNonEmpty (w : Registry) (name : string) (kinds : list funcKind) : list candidate :=
  match kinds with
  | [] => []
  | kind :: kinds =>
      match collect w kind name with
      | [] => firstNonEmpty w name kinds
      | out => out
      end
  end.

Definition preferredKinds (ft : FunctionType) : list funcKind :=
  let ft := normalizeFunctionType ft in
  if bool_decide (ft = "SCALAR") then [kindScalar] else
  if bool_decide (ft = "TABLE") then [kindTable; kindTableInOut; kindTableBuffering] else
  if bool_decide (ft = "AGGREGATE") then [kindTableInOut] else
  if bool_decide (ft = "TABLE_BUFFERING") then [kindTableBuffering] else [].

Definition fallbackKinds : list funcKind := [kindScalar; kindTable; kindTableInOut; kindTableBuffering].

Definition candidatesFor (w : Registry) (name : string) (ft : FunctionType) : list candidate :=
  firstNonEmpty w name (preferredKinds ft ++ fallbackKinds).

Inductive resolve_error :=
| UnknownFunction (name : string)
| NotRegisteredAggregate (name : string)
| NotInCatalog (name catalog : string)
| NotInSchema (name schema : string) (available : list string)
| Ambiguous (name : string) (schemas : list string)
| NoMatchingOverload (name : string).

Fixpoint dedup (seen : list string) (l : list string) : list string :=
  match l with
  | [] => []
  | x :: l => if bool_decide (x ∈ seen) then dedup seen l else x :: dedup (x :: seen) l
  end.
Definition schemasOf (cands : list candidate) : list string :=
  Sort (dedup [] (map (fun c => schema (origin c)) cands)).

Definition scopeToHome (cands : list candidate) (name sch cat : string)
    : result resolve_error (list candidate) :=
  let? cands :=
    (if bool_decide (cat = "") then Ok cands else
     match filter (fun c => catalog (origin c) = cat) cands with
     | [] => Err (NotInCatalog name cat)
     | inCatalog => Ok inCatalog
     end) in
  if bool_decide (ToLower sch = "") then Ok cands else
  match filter (fun c => schema (origin c) = ToLower sch) cands with
  | [] => Err (NotInSchema name sch (schemasOf cands))
  | inSchema => Ok inSchema
  end.

Definition crossSchemaAmbiguity (cands : list candidate) (name sch : string)
    : result resolve_error unit :=
  if negb (bool_decide (sch = "")) || (length cands <? 2)%nat then Ok tt else
  let schemas := schemasOf cands in
  if (length schemas <? 2)%nat then Ok tt else Err (Ambiguous name schemas).

Definition resolveAggregate (w : Registry) (name sch cat : string) : result resolve_error F :=
  match collect w kindAggregate name with
  | [] => Err (NotRegisteredAggregate name)
  | cands =>
      let? cands := scopeToHome cands name sch cat in
      let? _ := crossSchemaAmbiguity cands name sch in
      match cands with
      | [] => Err (NotRegisteredAggregate name)
      | c :: _ => Ok (fn c)
      end
  end.

Record functionLookup := {
  Name : string;
  Type_ : FunctionType;
  Schema_ : string;
  Catalog : string;
  Args : arg_types;
  InputSchema : option (list DataType)
}.

Definition resolveFunction (w : Registry) (lk : functionLookup) : result resolve_error F :=
  match candidatesFor w (Name lk) (Type_ lk) with
  | [] => Err (UnknownFunction (Name lk))
  | cands =>
      let? cands := scopeToHome cands (Name lk) (Schema_ lk) (Catalog lk) in
      match cands with
      | [c] => Ok (fn c)
      | _ =>
          let? _ := crossSchemaAmbiguity cands (Name lk) (Schema_ lk) in
          match resolveOverload (map fn cands) (Args lk) (InputSchema lk) with
          | None => Err (NoMatchingOverload (Name lk))
          | Some f => Ok f
          end
      end
  end.

(** [resolveFunctionSchema]: the schema to report for a scan. *)
Fixpoint splitNUL (fuel : nat) (b : bytes) : list string :=
  match fuel, index_byte b x00 with
  | S fuel, Some i => bstr (take i b) :: splitNUL fuel (drop (S i) b)
  | _, _ => [bstr b]
  end.
Definition resolveFunctionSchema (w : Registry) (kind : funcKind) (functionName : string)
    (tableSchema : SchemaPath) : option SchemaPath :=
  let origins := funcOrigins w kind functionName in
  let split s := splitNUL (length (sb s)) (sb s) in
  match List.find (fun o => bool_decide (schema o = schemaPathKey tableSchema)) origins with
  | Some o => Some (split (schema o))
  | None => match origins with [o] => Some (split (schema o)) | _ => None end
  end.

End registry.

Arguments Registry F : clear implicits.
Arguments candidate F : clear implicits.

(** ** Lemmas on overloads *)

Section overload_lemmas.
Context {F : Type} (ArgumentSpecs : F -> list ArgSpec) `{Unicode}.

(** The fold keeps the first of the highest scores. *)
Lemma better_fold (g : F -> option Z) l b :
  let r := foldl better b (omap (fun fn => pair fn <$> g fn) l) in
  (r = b /\ forall j y t, l !! j = Some y -> g y = Some t -> (t <= snd b)%Z) \/
  exists i s, l !! i = Some (fst r) /\ g (fst r) = Some s /\ snd r = s /\ (snd b < s)%Z /\
    forall j y t, l !! j = Some y -> g y = Some t -> (t <= s)%Z /\ (j < i -> (t < s)%Z).
Proof.
  cbv zeta. revert b. induction l as [|x l IH]; intros b.
  { left. split; [done|]. intros j y t Hj. by rewrite lookup_nil in Hj. }
  cbn [omap list_omap]. destruct (g x) as [sx|] eqn:Ex; cbn [fmap option_fmap option_map].
  - cbn [foldl]. destruct (IH (better b (x, sx))) as [[Hr Hle]|(i & s & Hi & Hg & Hs & Hb & Hle)].
    + rewrite Hr. unfold better in *. cbn [snd] in *. destruct (snd b <? sx)%Z eqn:Eb; bool_hyps; cbn [fst snd] in *.
      * right. exists 0, sx. repeat (split; [done|]). intros [|j] y t; cbn.
        -- intros [= <-] Et. rewrite Ex in Et. injection Et as <-. split; [done|lia].
        -- intros Hj Ht. split; [by eapply Hle|lia].
      * left. split; [done|]. intros [|j] y t; cbn; [|apply Hle].
        intros [= <-] Et. rewrite Ex in Et. injection Et as <-. done.
    + right. exists (S i), s. cbn. split; [done|]. split; [done|]. split; [done|].
      assert (snd b <= snd (better b (x, sx)) /\ sx <= snd (better b (x, sx)))%Z as [Hb1 Hb2].
      { unfold better. cbn. destruct (snd b <? sx)%Z eqn:E1; bool_hyps; cbn; lia. }
      split; [lia|]. intros [|j] y t; cbn.
      * intros [= <-] Et. rewrite Ex in Et. injection Et as <-. split; [lia|]. intros _. lia.
      * intros Hj Ht. destruct (Hle j y t Hj Ht). split; [done|]. intros. lia.
  - destruct (IH b) as [[Hr Hle]|(i & s & Hi & Hg & Hs & Hb & Hle)].
    + left. split; [done|]. intros [|j] y t; cbn; [|apply Hle].
      intros [= <-] Et. by rewrite Ex in Et.
    + right. exists (S i), s. cbn. repeat (split; [done|]). intros [|j] y t; cbn.
      * intros [= <-] Et. by rewrite Ex in Et.
      * intros Hj Ht. destruct (Hle j y t Hj Ht). split; [done|]. intros. lia.
Qed.

Lemma omap_scores_nil (g : F -> option Z) l :
  omap (fun fn => pair fn <$> g fn) l = [] -> forall f, f ∈ l -> g f = None.
Proof.
  induction l as [|x l IH]; [set_solver|]. cbn [omap list_omap]. intros E f Hf.
  destruct (g x) as [s|] eqn:Ex; [done|]. apply elem_of_cons in Hf as [->|Hf]; [done|]. auto.
Qed.

(** The best of a non-empty list of scored candidates. *)
Lemma best_of (g : F -> option Z) l m ms :
  omap (fun fn => pair fn <$> g fn) l = m :: ms ->
  let r := foldl better m ms in
  exists i, l !! i = Some (fst r) /\ g (fst r) = Some (snd r) /\
    forall j y t, l !! j = Some y -> g y = Some t -> (t <= snd r)%Z /\ (j < i -> (t < snd r)%Z).
Proof.
  cbv zeta. induction l as [|x l IH]; [done|]. cbn [omap list_omap]. intros E.
  destruct (g x) as [s|] eqn:Ex; cbn in E.
  - injection E as <- <-.
    destruct (better_fold g l (x, s)) as [[Hr Hle]|(i & t & Hi & Hg & Hs & Hb & Hle)].
    + rewrite Hr. cbn [fst snd] in *. exists 0. cbn. split; [done|]. split; [done|].
      intros [|j] y t; cbn.
      * intros [= <-] Et. rewrite Ex in Et. injection Et as <-. split; [done|lia].
      * intros Hj Ht. split; [by eapply Hle|lia].
    + exists (S i). cbn. split; [done|]. rewrite Hs. split; [done|]. cbn in Hb.
      intros [|j] y u; cbn.
      * intros [= <-] Et. rewrite Ex in Et. injection Et as <-. split; [lia|]. intros _. done.
      * intros Hj Hu. destruct (Hle j y u Hj Hu). split; [done|]. intros. lia.
  - destruct (IH E) as (i & Hi & Hg & Hle). exists (S i). cbn. split; [done|]. split; [done|].
    intros [|j] y t; cbn.
    + intros [= <-] Et. by rewrite Ex in Et.
    + intros Hj Ht. destruct (Hle j y t Hj Ht). split; [done|]. intros. lia.
Qed.

(** A resolved overload is one of the candidates. *)
Lemma resolveOverload_in l positional input f :
  resolveOverload ArgumentSpecs l positional input = Some f -> f ∈ l.
Proof.
  unfold resolveOverload. destruct l as [|a [|b l]]; [done| |].
  - intros [= ->]. set_solver.
  - destruct (omap _ _) as [|m ms] eqn:E; [done|]. intros [= <-].
    destruct (best_of _ _ _ _ E) as (i & Hi & _). apply list_elem_of_lookup. eauto.
Qed.

(** ** Lemmas on homes *)

(** A home the lookup may mean. *)
Definition home_ok (sch cat : string) (o : funcOrigin) : Prop :=
  (cat = "" \/ catalog o = cat) /\ (ToLower sch = "" \/ schema o = ToLower sch).

Lemma scopeToHome_ok (cands : list (candidate F)) name sch cat cs :
  scopeToHome cands name sch cat = Ok cs ->
  forall c, c ∈ cs <-> c ∈ cands /\ home_ok sch cat (origin c).
Proof.
  unfold scopeToHome, home_ok. intros E c.
  destruct (bool_decide (cat = "")) eqn:Ec; bool_hyps.
  - destruct (bool_decide (ToLower sch = "")) eqn:Es; bool_hyps.
    + apply ok_inj in E as <-. tauto.
    + destruct (filter _ cands) as [|x xs] eqn:Ef; [done|]. apply ok_inj in E as <-.
      rewrite <- Ef, list_elem_of_filter. tauto.
  - destruct (filter (fun c => catalog (origin c) = cat) cands) as [|x xs] eqn:Ef; [done|].
    destruct (bool_decide (ToLower sch = "")) eqn:Es; bool_hyps.
    + apply ok_inj in E as <-. rewrite <- Ef, list_elem_of_filter. tauto.
    + destruct (filter _ (x :: xs)) as [|y ys] eqn:Ef2; [done|]. apply ok_inj in E as <-.
      rewrite <- Ef2, list_elem_of_filter, <- Ef, list_elem_of_filter. tauto.
Qed.

Lemma scopeToHome_nonempty (cands : list (candidate F)) name sch cat cs :
  scopeToHome cands name sch cat = Ok cs -> cands <> [] -> cs <> [].
Proof.
  unfold scopeToHome. intros E Hne.
  destruct (bool_decide (cat = "")); [|destruct (filter _ cands); [done|]];
    (destruct (bool_decide (ToLower sch = "")); [by apply ok_inj in E as <-|]);
    match type of E with match ?x with _ => _ end = _ => destruct x end; try done;
    by apply ok_inj in E as <-.
Qed.

Lemma elem_of_dedup seen l x : x ∈ dedup seen l <-> x ∈ l /\ x ∉ seen.
Proof.
  revert seen. induction l as [|y l IH]; intros seen; cbn [dedup]; [set_solver|].
  case_bool_decide as Hy; rewrite ?elem_of_cons, IH; [set_solver|].
  destruct (decide (x = y)); set_solver.
Qed.

Lemma NoDup_dedup seen l : NoDup (dedup seen l).
Proof.
  revert seen. induction l as [|y l IH]; intros seen; cbn [dedup]; [constructor|].
  case_bool_decide; [done|]. constructor; [|done]. rewrite elem_of_dedup. set_solver.
Qed.

Lemma elem_of_schemasOf (cands : list (candidate F)) s :
  s ∈ schemasOf cands <-> exists c, c ∈ cands /\ schema (origin c) = s.
Proof.
  unfold schemasOf. rewrite elem_of_Sort, elem_of_dedup, list_elem_of_fmap. set_solver.
Qed.

(** No ambiguity was found: an unqualified call's candidates share a schema. *)
Lemma crossSchemaAmbiguity_ok (cands : list (candidate F)) name :
  crossSchemaAmbiguity cands name "" = Ok tt ->
  forall c d, c ∈ cands -> d ∈ cands -> schema (origin c) = schema (origin d).
Proof.
  unfold crossSchemaAmbiguity. intros E c d Hc Hd.
  rewrite (bool_decide_true ("" = "")) in E by done. cbn [negb orb] in E.
  destruct (length cands <? 2)%nat eqn:El; bool_hyps.
  - clear E. destruct cands as [|a [|b l]]; cbn in El; [set_solver| |lia].
    apply list_elem_of_singleton in Hc as ->. by apply list_elem_of_singleton in Hd as ->.
  - destruct (length (schemasOf cands) <? 2)%nat eqn:E2; [|done]. bool_hyps.
    assert (schema (origin c) ∈ schemasOf cands) as H1 by (apply elem_of_schemasOf; eauto).
    assert (schema (origin d) ∈ schemasOf cands) as H2 by (apply elem_of_schemasOf; eauto).
    destruct (schemasOf cands) as [|a [|b l]]; cbn in E2; [set_solver| |lia].
    apply list_elem_of_singleton in H1 as ->. by apply list_elem_of_singleton in H2 as ->.
Qed.

Lemma elem_of_collect (w : Registry F) kind name c :
  c ∈ collect w kind name <->
  exists i, reg w kind name !! i = Some (fn c) /\ origin c = originOf w kind name i.
Proof.
  unfold collect. rewrite list_elem_of_lookup. setoid_rewrite list_lookup_imap_Some. split.
  - intros (i & f & Hf & ->). by exists i.
  - intros (i & Hi & Ho). exists i, (fn c). split; [done|]. destruct c. cbn in *. by subst.
Qed.

Lemma collect_nil (w : Registry F) kind name : collect w kind name = [] <-> reg w kind name = [].
Proof. unfold collect. by destruct (reg w kind name). Qed.

(** The kind a call's candidates come from: the first of its kinds that
    registers the name. *)
Lemma firstNonEmpty_kind (w : Registry F) name kinds :
  firstNonEmpty w name kinds <> [] ->
  exists kind pre post, kinds = pre ++ kind :: post /\
    firstNonEmpty w name kinds = collect w kind name /\
    (forall k, k ∈ pre -> reg w k name = []).
Proof.
  induction kinds as [|k kinds IH]; cbn [firstNonEmpty]; [done|].
  destruct (collect w k name) as [|c cs] eqn:E; intros Hne.
  - destruct (IH Hne) as (kind & pre & post & -> & Ef & Hp).
    exists kind, (k :: pre), post. split; [done|]. split; [done|].
    intros k' [->|Hk]%elem_of_cons; [by apply collect_nil|auto].
  - exists k, [], kinds. split; [done|]. split; [done|]. set_solver.
Qed.

End overload_lemmas.

(** ** Lemmas on imports *)

Section import_lemmas.
Context {F : Type} `{Unicode}.

Lemma upd_same {A} (f : funcKind -> string -> A) k n v : upd f k n v k n = v.
Proof. unfold upd. by rewrite bool_decide_true. Qed.
Lemma upd_other {A} (f : funcKind -> string -> A) k n v k' n' :
  ~ (k' = k /\ n' = n) -> upd f k n v k' n' = f k' n'.
Proof. intros Hn. unfold upd. by rewrite bool_decide_false. Qed.

(** Recording an origin gives the next implementation a home and leaves the
    others theirs. *)
Lemma originOf_record (w : Registry F) kind name o k n i :
  originOf (recordOrigin w kind name o) k n i =
  if decide (k = kind /\ n = name /\ i = length (funcOrigins w kind name)) then
    {| catalog := if bool_decide (catalog o = "") then catalogName w else catalog o;
       schema := ToLower (if bool_decide (schema o = "") then defaultFunctionSchema else schema o);
       unlisted := unlisted o |}
  else originOf w k n i.
Proof.
  unfold originOf, recordOrigin. cbn [funcOrigins catalogName].
  destruct (decide (k = kind /\ n = name)) as [[-> ->]|Hne].
  - rewrite upd_same. destruct (decide (i = length (funcOrigins w kind name))) as [->|Hi].
    + rewrite decide_True by done. by rewrite lookup_app_r, Nat.sub_diag by done.
    + rewrite decide_False by tauto. destruct (decide (i < length (funcOrigins w kind name))).
      * by rewrite lookup_app_l.
      * rewrite !lookup_ge_None_2 by (rewrite ?length_app; cbn; lia). done.
  - rewrite upd_other by done. by rewrite decide_False by tauto.
Qed.

Lemma pad_spec fuel (w : Registry F) kind name :
  length (reg w kind name) - length (funcOrigins w kind name) <= fuel ->
  length (funcOrigins w kind name) <= length (reg w kind name) ->
  let w' := padOrigins fuel w kind name in
  reg w' = reg w /\ catalogName w' = catalogName w /\
  length (funcOrigins w' kind name) = length (reg w kind name) /\
  (forall k n i, originOf w' k n i = originOf w k n i) /\
  (forall k n, ~ (k = kind /\ n = name) -> funcOrigins w' k n = funcOrigins w k n).
Proof.
  cbv zeta. revert w. induction fuel as [|fuel IH]; intros w Hf Hl; cbn [padOrigins].
  { repeat split; lia. }
  destruct (_ <? _)%nat eqn:E; bool_hyps; [|repeat split; lia].
  set (o := originOf w kind name (length (funcOrigins w kind name))) in *.
  assert (o = {| catalog := catalogName w; schema := defaultFunctionSchema; unlisted := false |}) as Ho.
  { unfold o, originOf. by rewrite lookup_ge_None_2. }
  destruct (IH (recordOrigin w kind name o)) as (I1 & I2 & I3 & I4 & I5).
  - cbn. rewrite upd_same, length_app. cbn. lia.
  - cbn. rewrite upd_same, length_app. cbn. lia.
  - split; [done|]. split; [done|]. split; [done|]. split.
    + intros k n i. rewrite I4, originOf_record. case_decide as Hc; [|done].
      destruct Hc as (-> & -> & ->). fold o. rewrite Ho. cbn [catalog schema unlisted].
      f_equal; [by case_bool_decide|]. rewrite bool_decide_false by done.
      by rewrite ToLower_ascii.
    + intros k n Hne. rewrite I5 by done. cbn. by rewrite upd_other.
Qed.

(** Every kind and name has at most as many origins as implementations. *)
Definition aligned (w : Registry F) : Prop :=
  forall kind name, length (funcOrigins w kind name) <= length (reg w kind name).

(** What one import does: one more implementation, in the sub-catalog. *)
Lemma importOne_spec kind home (child : Registry F) name (w : Registry F) i f :
  aligned w -> home <> "" ->
  let w' := importOne kind home child name w i f in
  aligned w' /\ catalogName w' = catalogName w /\
  (forall k n, reg w' k n = if decide (k = kind /\ n = name) then reg w kind name ++ [f] else reg w k n) /\
  (forall k n j, j < length (reg w k n) -> originOf w' k n j = originOf w k n j) /\
  (forall k n j, (k, n) <> (kind, name) -> originOf w' k n j = originOf w k n j) /\
  catalog (originOf w' kind name (length (reg w kind name))) = home /\
  schema (originOf w' kind name (length (reg w kind name))) =
    ToLower (if bool_decide (schema (originOf child kind name i) = "") then defaultFunctionSchema
             else schema (originOf child kind name i)).
Proof.
  cbv zeta. intros Ha Hh. unfold importOne.
  destruct (pad_spec (length (reg w kind name)) w kind name) as (P1 & P2 & P3 & P4 & P5);
    [lia|apply Ha|].
  set (p := padOrigins _ w kind name) in *. cbn [reg appendFn recordOrigin catalogName].
  assert (forall k n, length (funcOrigins p k n) <= length (reg w k n)) as Hp.
  { intros k n. destruct (decide (k = kind /\ n = name)) as [[-> ->]|Hne]; [by rewrite P3|].
    rewrite P5 by done. apply Ha. }
  split; [|split; [done|split; [|split; [|split; [|split]]]]].
  - intros k n. cbn. rewrite P1. destruct (decide (k = kind /\ n = name)) as [[-> ->]|Hne].
    + rewrite !upd_same, !length_app, P3. done.
    + rewrite !upd_other by done. apply Hp.
  - intros k n. cbn. rewrite P1. case_decide as Hd; [destruct Hd as [-> ->]; by rewrite upd_same|].
    by rewrite upd_other.
  - intros k n j Hj. rewrite originOf_record. cbn [funcOrigins appendFn].
    rewrite decide_False; [by apply P4|]. intros (-> & -> & ->). rewrite P3 in Hj. lia.
  - intros k n j Hne. rewrite originOf_record. cbn [funcOrigins appendFn].
    rewrite decide_False; [by apply P4|]. intros (-> & -> & _). done.
  - rewrite originOf_record. cbn [funcOrigins appendFn]. rewrite P3, decide_True by done.
    cbn. by rewrite bool_decide_false.
  - rewrite originOf_record. cbn [funcOrigins appendFn]. rewrite P3, decide_True by done. done.
Qed.

(** The registry of a worker with a sub-catalog: what is homed in the
    sub-catalog is the child's, and everything else was there before. *)
Definition separated (home : string) (parent child w : Registry F) : Prop :=
  aligned w /\ catalogName w = catalogName parent /\
  forall kind name i f, reg w kind name !! i = Some f ->
    if decide (catalog (originOf w kind name i) = home)
    then f ∈ reg child kind name
    else reg parent kind name !! i = Some f /\
         originOf w kind name i = originOf parent kind name i.

Lemma importOne_separated home parent child w kind name i f :
  home <> "" -> separated home parent child w -> f ∈ reg child kind name ->
  separated home parent child (importOne kind home child name w i f).
Proof.
  intros Hh (Ha & Hc & Hs) Hf.
  destruct (importOne_spec kind home child name w i f Ha Hh) as (A & C & R & O1 & O2 & O3 & _).
  split; [done|]. split; [congruence|]. intros k n j g Hj. rewrite R in Hj.
  destruct (decide (k = kind /\ n = name)) as [[-> ->]|Hne].
  - apply lookup_app_Some in Hj as [Hj|[Hge Hj]].
    + rewrite O1 by by eapply lookup_lt_Some. by apply Hs.
    + apply list_lookup_singleton_Some in Hj as [Hz <-].
      assert (j = length (reg w kind name)) as -> by lia. by rewrite O3, decide_True.
  - rewrite O2 by naive_solver. by apply Hs.
Qed.

Lemma importFns_separated home parent child w kind name i fns :
  home <> "" -> separated home parent child w -> (forall f, f ∈ fns -> f ∈ reg child kind name) ->
  separated home parent child (importFns kind home child name w i fns).
Proof.
  intros Hh. revert w i. induction fns as [|f fns IH]; intros w i Hs Hf; [done|]. cbn.
  apply IH; [|set_solver]. apply importOne_separated; [done..|set_solver].
Qed.

Lemma importRegistry_separated home parent child w kind names :
  home <> "" -> separated home parent child w ->
  separated home parent child (importRegistry w child kind names home).
Proof.
  intros Hh. revert w. unfold importRegistry. induction names as [|n names IH]; intros w Hs; [done|].
  cbn. by apply IH, importFns_separated.
Qed.

(** The kinds and names are imported one after the other. *)
Lemma imports_separated home parent child (names : list (funcKind * list string)) w :
  home <> "" -> separated home parent child w ->
  separated home parent child
    (foldl (fun w kn => importRegistry w child (fst kn) (snd kn) home) w names).
Proof.
  intros Hh. revert w. induction names as [|kn names IH]; intros w Hs; [done|]. cbn.
  by apply IH, importRegistry_separated.
Qed.

End import_lemmas.

Section home_lemmas.
Context {F : Type} (ArgumentSpecs : F -> list ArgSpec) `{Unicode}.

Lemma resolveFunction_home (w : Registry F) lk f :
  resolveFunction ArgumentSpecs w lk = Ok f ->
  exists kind i, reg w kind (Name lk) !! i = Some f /\
    home_ok (Schema_ lk) (Catalog lk) (originOf w kind (Name lk) i) /\
    candidatesFor w (Name lk) (Type_ lk) = collect w kind (Name lk) /\
    (Schema_ lk = "" -> forall j g, reg w kind (Name lk) !! j = Some g ->
       home_ok "" (Catalog lk) (originOf w kind (Name lk) j) ->
       schema (originOf w kind (Name lk) j) = schema (originOf w kind (Name lk) i)).
Proof.
  unfold resolveFunction. intros E.
  assert (candidatesFor w (Name lk) (Type_ lk) <> []) as Hne by by destruct (candidatesFor _ _ _).
  assert (exists cs, scopeToHome (candidatesFor w (Name lk) (Type_ lk)) (Name lk) (Schema_ lk)
             (Catalog lk) = Ok cs /\ exists c, c ∈ cs /\ fn c = f /\
             (Schema_ lk = "" -> forall d, d ∈ cs -> schema (origin d) = schema (origin c)))
    as (cs & Hs & c & Hc & Hf & Hsch).
  { destruct (candidatesFor _ _ _) as [|c0 cands]; [done|].
    destruct (scopeToHome _ _ _ _) as [cs|] eqn:Es; [|done]. exists cs. split; [done|].
    destruct cs as [|c1 [|c2 cs]].
    - by apply scopeToHome_nonempty in Es.
    - apply ok_inj in E. exists c1. split; [set_solver|]. split; [done|].
      intros _ d Hd%list_elem_of_singleton. by subst.
    - destruct (crossSchemaAmbiguity _ _ _) as [[]|] eqn:Ea; [|done].
      destruct (resolveOverload _ _ _ _) as [g|] eqn:Eo; [|done]. apply ok_inj in E as ->.
      apply resolveOverload_in, list_elem_of_fmap in Eo as (c & -> & Hc). exists c.
      split; [done|]. split; [done|]. intros Hsch d Hd. rewrite Hsch in Ea.
      by eapply crossSchemaAmbiguity_ok. }
  destruct (firstNonEmpty_kind w _ _ Hne) as (kind & _ & _ & _ & Hk & _).
  fold (candidatesFor w (Name lk) (Type_ lk)) in Hk. rewrite Hk in Hs.
  pose proof (scopeToHome_ok _ _ _ _ _ Hs) as Hin.
  apply Hin in Hc as Hc'. destruct Hc' as [Hcol Hhome].
  apply elem_of_collect in Hcol as (i & Hi & Ho). exists kind, i. rewrite <- Ho, <- Hf.
  split; [done|]. split; [done|]. split; [done|]. intros Hz j g Hj Hg.
  apply (Hsch Hz {| fn := g; origin := originOf w kind (Name lk) j |}). apply Hin.
  split; [apply elem_of_collect; by exists j|]. by rewrite Hz.
Qed.

End home_lemmas.

(** ** Properties *)

Section overload_properties.
Context {F : Type} (ArgumentSpecs : F -> list ArgSpec) `{Unicode}.

(** C16: overload resolution picks the best match. Among two or more
    candidates the result is an admissible one of the highest score, the first
    of those in registration order; there is no result exactly when no candidate
    is admissible. *)
Theorem overload_best (candidates : list F) positional input :
  length candidates <> 1 ->
  match resolveOverload ArgumentSpecs candidates positional input with
  | Some f =>
      exists i s, candidates !! i = Some f /\
        scoreCandidate (ArgumentSpecs f) positional input = Some s /\
        forall j g t, candidates !! j = Some g ->
          scoreCandidate (ArgumentSpecs g) positional input = Some t ->
          (t <= s)%Z /\ (j < i -> (t < s)%Z)
  | None => forall g, g ∈ candidates -> scoreCandidate (ArgumentSpecs g) positional input = None
  end.
Proof.
  intros Hl. unfold resolveOverload. destruct candidates as [|a [|b l]]; [set_solver|done|].
  destruct (omap _ _) as [|m ms] eqn:E; [by apply omap_scores_nil|].
  destruct (best_of _ _ _ _ E) as (i & Hi & Hg & Hle). eauto.
Qed.

(** a call reaches only what its home allows. Whatever a lookup resolves
    to is registered under the name, in the catalog the call came through and
    in the schema it names; and an unqualified call never picks between
    schemas: every implementation it could mean is declared in the same one. *)
Theorem resolved_in_its_home (w : Registry F) lk f :
  resolveFunction ArgumentSpecs w lk = Ok f ->
  exists kind i, reg w kind (Name lk) !! i = Some f /\
    (Catalog lk <> "" -> catalog (originOf w kind (Name lk) i) = Catalog lk) /\
    (ToLower (Schema_ lk) <> "" -> schema (originOf w kind (Name lk) i) = ToLower (Schema_ lk)) /\
    (Schema_ lk = "" -> forall j g, reg w kind (Name lk) !! j = Some g ->
       (Catalog lk = "" \/ catalog (originOf w kind (Name lk) j) = Catalog lk) ->
       schema (originOf w kind (Name lk) j) = schema (originOf w kind (Name lk) i)).
Proof.
  intros E. apply resolveFunction_home in E as (kind & i & Hi & [Hc Hs] & _ & Hu).
  exists kind, i. split; [done|]. split; [tauto|]. split; [tauto|].
  intros Hz j g Hj Hcat. apply (Hu Hz j g Hj). split; [done|]. left. by rewrite ToLower_ascii.
Qed.

(** a sub-catalog is isolated. Once a worker has imported the functions
    of a sub-catalog, a call through the sub-catalog reaches only functions the
    sub-catalog's own worker registered under that name, and a call through any
    other catalog only functions the worker had before. *)
Theorem subcatalog_isolated (parent child : Registry F) home names lk f :
  home <> "" -> aligned parent ->
  (forall kind name i, catalog (originOf parent kind name i) <> home) ->
  let w := foldl (fun w kn => importRegistry w child (fst kn) (snd kn) home) parent names in
  resolveFunction ArgumentSpecs w lk = Ok f -> Catalog lk <> "" ->
  exists kind,
    if decide (Catalog lk = home) then f ∈ reg child kind (Name lk)
    else exists i, reg parent kind (Name lk) !! i = Some f /\
                   catalog (originOf parent kind (Name lk) i) = Catalog lk.
Proof.
  intros Hh Ha Hn. cbv zeta. intros E Hc.
  assert (separated home parent child parent) as Hs.
  { split; [done|]. split; [done|]. intros kind name i g Hi. rewrite decide_False by apply Hn. done. }
  apply (imports_separated home parent child names) in Hs as (_ & _ & Hs); [|done].
  apply resolveFunction_home in E as (kind & i & Hi & [Hcat _] & _). destruct Hcat as [|Hcat]; [done|].
  exists kind. pose proof (Hs kind (Name lk) i f Hi) as Hx. rewrite Hcat in Hx.
  destruct (decide (Catalog lk = home)); [done|]. exists i. destruct Hx as [Hx Ho].
  split; [done|]. by rewrite <- Ho.
Qed.

End overload_properties.

(** ** Examples and witnesses *)

Module OverloadExamples.
#[local] Existing Instance AsciiText.ascii_text.

Definition arg (p : Z) (t : string) (const var : bool) : ArgSpec :=
  {| ArgName := "a"; Position := p; ArrowType := t; IsConst := const; IsVarargs := var;
     HasDefault := false; DefaultValue := ""; ArrowDataType := None; TypeBound := []; Choices := [];
     Ge := None; Le := None; Gt := None; Lt := None; Pattern := "" |}.
Definition impl := (nat * list ArgSpec)%type.
Definition f_int : impl := (1, [arg 0 "int64" true false]).
Definition f_double : impl := (2, [arg 0 "double" true false]).
Definition f_any : impl := (3, [arg 0 "any" true true]).
Definition empty (cat : string) : Registry impl :=
  {| catalogName := cat; reg := fun _ _ => []; funcOrigins := fun _ _ => [] |}.

(** An exact type beats a family match, which beats a variadic "any"; the
    fallback takes what nothing else does. *)
Example exact_wins :
  resolveOverload snd [f_any; f_int; f_double] [Some INT64] None = Some f_int.
Proof. reflexivity. Qed.
Example family_wins :
  resolveOverload snd [f_any; f_int; f_double] [Some FLOAT32] None = Some f_double.
Proof. reflexivity. Qed.
Example any_takes_the_rest :
  resolveOverload snd [f_any; f_int; f_double] [Some STRING; Some DATE32] None = Some f_any.
Proof. reflexivity. Qed.
Example none_matches : resolveOverload snd [f_int; f_double] [Some STRING] None = None.
Proof. reflexivity. Qed.

Definition child : Registry impl := register kindScalar (empty "sub") "f" f_int.
Definition parent : Registry impl := register kindScalar (empty "own") "f" f_double.
Definition names : list (funcKind * list string) := [(kindScalar, ["f"])].
Definition merged : Registry impl :=
  foldl (fun w kn => importRegistry w child (fst kn) (snd kn) "sub") parent names.
Definition lookup_in (cat sch : string) : functionLookup :=
  {| Name := "f"; Type_ := "scalar"; Schema_ := sch; Catalog := cat; Args := [Some INT64];
     InputSchema := None |}.
Definition two_schemas : Registry impl :=
  registerInSchema kindScalar parent "Data" "f" f_int.

Example ambiguous :
  resolveFunction snd two_schemas (lookup_in "own" "") = Err (Ambiguous "f" ["data"; "main"]).
Proof. vm_compute. reflexivity. Qed.
Example qualified : resolveFunction snd two_schemas (lookup_in "own" "DATA") = Ok f_int.
Proof. vm_compute. reflexivity. Qed.

(** The kinds are chosen before the home: a table function of one schema hides
    a table-in-out function of the same name in another, and the call that
    names the other schema is told it is not registered there. *)
Definition two_kinds : Registry impl :=
  registerInSchema kindTableInOut (register kindTable (empty "own") "g" f_int) "data" "g" f_double.
Lemma kind_shadows_schema :
  resolveFunction snd two_kinds
    {| Name := "g"; Type_ := "TABLE"; Schema_ := "data"; Catalog := "own"; Args := [];
       InputSchema := None |} = Err (NotInSchema "g" "data" ["main"])
  /\ originOf two_kinds kindTableInOut "g" 0
     = {| catalog := "own"; schema := "data"; unlisted := false |}.
Proof. split; vm_compute; reflexivity. Qed.
End OverloadExamples.
Import OverloadExamples.

Lemma overload_best_witness :
  exists i s, [f_any; f_int; f_double] !! i = Some f_double /\
    scoreCandidate (snd f_double) [Some FLOAT32] None = Some s /\
    forall j g t, [f_any; f_int; f_double] !! j = Some g ->
      scoreCandidate (snd g) [Some FLOAT32] None = Some t ->
      (t <= s)%Z /\ (j < i -> (t < s)%Z).
Proof. exact (overload_best snd [f_any; f_int; f_double] [Some FLOAT32] None ltac:(discriminate)). Defined.

Lemma resolved_in_its_home_witness :
  exists kind i, reg two_schemas kind "f" !! i = Some f_int.
Proof.
  destruct (resolved_in_its_home (H := AsciiText.ascii_text) snd two_schemas (lookup_in "own" "DATA")
    f_int ltac:(vm_compute; reflexivity)) as (kind & i & Hi & _).
  exists kind, i. exact Hi.
Defined.

Lemma subcatalog_isolated_witness : exists kind, f_int ∈ reg child kind "f".
Proof.
  exact (subcatalog_isolated (H := AsciiText.ascii_text) snd parent child "sub" names
    (lookup_in "sub" "") f_int ltac:(discriminate)
    ltac:(intros [] n; vm_compute; try lia; case_match; lia)
    ltac:(intros k n i; unfold originOf, parent, register, registerInSchema, registerInSchemaPath,
            recordOrigin, appendFn; cbn [funcOrigins reg catalogName]; unfold upd;
          case_bool_decide; [destruct i as [|i]; cbn; [discriminate|];
            unfold lookup; cbn; destruct i; discriminate|destruct i; cbn; discriminate])
    ltac:(vm_compute; reflexivity) ltac:(discriminate)).
Defined.
