(* ===== verification/Storage.v ===== *)
(** * Storage: the shared state of a distributed execution (vgi/function_storage.go)

    Worker processes that run one query share state through a
    [FunctionStorage]. This file holds the interface as a class over a backend's
    world, the abstract store its comments promise (a separate collection per
    family of methods, FIFO queues, append-only logs), and the contract between
    the two: every method either does what the abstract store does or fails and
    leaves it as it was. Clients are verified against the contract. *)

From stdpp Require Import functions.
From S2P Require Import Prelude Bytes Strings.

(** ** Methods over a backend's world

    An error leaves a world too: what a failed call changed is visible. *)

Definition M (W A : Type) : Type := W -> result string A * W.

#[global] Instance M_ret W : MRet (M W) := fun A a w => (Ok a, w).
#[global] Instance M_bind W : MBind (M W) := fun A B k m w =>
  match m w with
  | (Ok a, w) => k a w
  | (Err e, w) => (Err e, w)
  end.
#[global] Instance M_fmap W : FMap (M W) := fun A B f m => m ≫= fun a => mret (f a).
Definition raise {W A} (e : string) : M W A := fun w => (Err e, w).

Fixpoint each {W A} (f : A -> M W ()) (l : list A) : M W () :=
  match l with
  | [] => mret ()
  | a :: l => _ ← f a; each f l
  end.
Fixpoint collect {W A B} (f : A -> M W B) (l : list A) : M W (list B) :=
  match l with
  | [] => mret []
  | a :: l => b ← f a; bs ← collect f l; mret (b :: bs)
  end.

(** ** Keys in byte order *)

Definition entry_le {V} (a b : bytes * V) : Prop := bytes_leb a.1 b.1 = true.
#[global] Instance entry_le_dec {V} : RelDecision (@entry_le V).
Proof. intros a b. unfold entry_le. apply _. Defined.
#[global] Instance entry_le_total {V} : Total (@entry_le V).
Proof. intros a b. apply bytes_leb_total. Qed.
#[global] Instance entry_le_trans {V} : Transitive (@entry_le V).
Proof. intros a b c. apply bytes_leb_trans. Qed.

(** The entries of a collection ordered by key. *)
Definition by_key {V} (m : gmap bytes V) : list (bytes * V) := merge_sort entry_le (map_to_list m).

(** ** Entries and options *)

Record WorkerStateEntry := { WorkerKey : bytes; State : bytes }.
Record ScanWorkerStateEntry := { StreamID : bytes; ScanState : bytes }.
Record AggregateStateEntry := { GroupID : Z; GroupState : bytes }.
Record TransactionStateItem := { ItemKey : bytes; ItemValue : bytes }.
Record StateLogEntry := { LogID : Z; LogValue : bytes }.
Record AttachStateKV := { Key : bytes; Value : bytes }.
Record AttachScanOptions := {
  Start : option bytes;
  End : option bytes;
  Reverse : bool;
  Limit : Z
}.

Definition in_key_range (start end_ : option bytes) (k : bytes) : bool :=
  match start with Some s => bytes_leb s k | None => true end
  && match end_ with Some e => negb (bytes_leb e k) | None => true end.

(** What a scan with these options returns of a collection. *)
Definition scan_range (opts : AttachScanOptions) (m : gmap bytes bytes) : list (bytes * bytes) :=
  let rows := List.filter (fun kv => in_key_range (Start opts) (End opts) kv.1) (by_key m) in
  let rows := if Reverse opts then rev rows else rows in
  if (0 <? Limit opts)%Z then take (Z.to_nat (Limit opts)) rows else rows.

(** A slot of [AggregateStateGet]'s answer: the zero entry when there is no
    state for the group. *)
Definition group_entry (g : Z) (v : option bytes) : option AggregateStateEntry :=
  (fun v => {| GroupID := g; GroupState := v |}) <$> v.

(** ** The calls *)

Inductive op : Type -> Type :=
| WorkerPut (executionID workerKey state : bytes) : op ()
| WorkerCollect (executionID : bytes) : op (list bytes)
| WorkerScan (executionID : bytes) : op (list WorkerStateEntry)
| ScanWorkerPut (executionID streamID state : bytes) : op ()
| ScanWorkerScan (executionID : bytes) : op (list ScanWorkerStateEntry)
| QueuePush (executionID : bytes) (items : list bytes) : op nat
| QueuePop (executionID : bytes) : op (option bytes)
| QueueClear (executionID : bytes) : op nat
| AggregateStateGet (executionID : bytes) (groupIDs : list Z) : op (list (option AggregateStateEntry))
| AggregateStatePut (executionID : bytes) (entries : list AggregateStateEntry) : op ()
| AggregateStateClear (executionID : bytes) : op ()
| AggregateConstArgsPut (executionID : bytes) (functionName : string) (args : bytes) : op ()
| AggregateConstArgsGet (executionID : bytes) (functionName : string) : op (option bytes)
| AggregateWindowPartitionPut (executionID : bytes) (partitionID : Z) (data : bytes) : op ()
| AggregateWindowPartitionGet (executionID : bytes) (partitionID : Z) : op (option bytes)
| AggregateWindowPartitionDelete (executionID : bytes) (partitionID : Z) : op ()
| AggregateWindowPartitionClear (executionID : bytes) : op ()
| TransactionStateGet (txn : bytes) (keys : list bytes) : op (list (option bytes))
| TransactionStatePut (txn : bytes) (items : list TransactionStateItem) : op ()
| TransactionStateClear (txn : bytes) : op ()
| StateAppend (executionID key value : bytes) : op Z
| StateLogScan (executionID key : bytes) (afterID limit : Z) : op (list StateLogEntry)
| StateLogClear (executionID : bytes) : op ()
| AttachStatePut (scope ns key value : bytes) : op ()
| AttachStateGet (scope ns key : bytes) : op (option bytes)
| AttachStateScan (scope ns : bytes) (opts : AttachScanOptions) : op (list AttachStateKV)
| AttachStateDeleteKey (scope ns key : bytes) : op ()
| AttachStateDeleteNS (scope ns : bytes) : op ()
| AttachStateDeleteRange (scope ns : bytes) (start end_ : option bytes) : op nat
| AttachStateDrain (scope ns : bytes) : op (list AttachStateKV)
| ExecutionClear (scope : bytes) : op ().

(** The interface: a backend answers every call in its world. [ExecutionClear]
    answers without its row count, and the counters of an attach are not calls
    of the interface: both are stated of the SQLite backend itself. *)
Class FunctionStorage (W : Type) := call : forall {A}, op A -> M W A.

(** ** The abstract store *)

Record store := {
  workers : bytes -> gmap bytes bytes;
  scanWorkers : bytes -> gmap bytes bytes;
  groups : bytes -> gmap Z bytes;
  constArgs : bytes -> gmap string bytes;
  partitions : bytes -> gmap Z bytes;
  transactions : bytes -> gmap bytes bytes;
  queue : bytes -> list bytes;
  attached : bytes -> bytes -> gmap bytes bytes;
  logs : bytes -> list (Z * (bytes * bytes));
  lastLog : Z
}.

Definition empty_store : store :=
  {| workers := fun _ => ∅; scanWorkers := fun _ => ∅; groups := fun _ => ∅;
     constArgs := fun _ => ∅; partitions := fun _ => ∅; transactions := fun _ => ∅;
     queue := fun _ => []; attached := fun _ _ => ∅; logs := fun _ => []; lastLog := 0 |}.

(** The store with one collection changed. *)
Definition with_workers (st : store) (v : bytes -> gmap bytes bytes) : store :=
  {| workers := v; scanWorkers := scanWorkers st; groups := groups st;
     constArgs := constArgs st; partitions := partitions st;
     transactions := transactions st; queue := queue st; attached := attached st;
     logs := logs st; lastLog := lastLog st |}.
Definition with_scanWorkers (st : store) (v : bytes -> gmap bytes bytes) : store :=
  {| workers := workers st; scanWorkers := v; groups := groups st;
     constArgs := constArgs st; partitions := partitions st;
     transactions := transactions st; queue := queue st; attached := attached st;
     logs := logs st; lastLog := lastLog st |}.
Definition with_groups (st : store) (v : bytes -> gmap Z bytes) : store :=
  {| workers := workers st; scanWorkers := scanWorkers st; groups := v;
     constArgs := constArgs st; partitions := partitions st;
     transactions := transactions st; queue := queue st; attached := attached st;
     logs := logs st; lastLog := lastLog st |}.
Definition with_constArgs (st : store) (v : bytes -> gmap string bytes) : store :=
  {| workers := workers st; scanWorkers := scanWorkers st; groups := groups st;
     constArgs := v; partitions := partitions st; transactions := transactions st;
     queue := queue st; attached := attached st; logs := logs st;
     lastLog := lastLog st |}.
Definition with_partitions (st : store) (v : bytes -> gmap Z bytes) : store :=
  {| workers := workers st; scanWorkers := scanWorkers st; groups := groups st;
     constArgs := constArgs st; partitions := v; transactions := transactions st;
     queue := queue st; attached := attached st; logs := logs st;
     lastLog := lastLog st |}.
Definition with_transactions (st : store) (v : bytes -> gmap bytes bytes) : store :=
  {| workers := workers st; scanWorkers := scanWorkers st; groups := groups st;
     constArgs := constArgs st; partitions := partitions st; transactions := v;
     queue := queue st; attached := attached st; logs := logs st;
     lastLog := lastLog st |}.
Definition with_queue (st : store) (v : bytes -> list bytes) : store :=
  {| workers := workers st; scanWorkers := scanWorkers st; groups := groups st;
     constArgs := constArgs st; partitions := partitions st;
     transactions := transactions st; queue := v; attached := attached st;
     logs := logs st; lastLog := lastLog st |}.
Definition with_attached (st : store) (v : bytes -> bytes -> gmap bytes bytes) : store :=
  {| workers := workers st; scanWorkers := scanWorkers st; groups := groups st;
     constArgs := constArgs st; partitions := partitions st;
     transactions := transactions st; queue := queue st; attached := v; logs := logs st;
     lastLog := lastLog st |}.
Definition with_logs (st : store) (v : bytes -> list (Z * (bytes * bytes))) (last : Z) : store :=
  {| workers := workers st; scanWorkers := scanWorkers st; groups := groups st;
     constArgs := constArgs st; partitions := partitions st;
     transactions := transactions st; queue := queue st; attached := attached st;
     logs := v; lastLog := last |}.

(** An entry stored or removed in the collection of a scope. *)
Definition put {K} `{Countable K} (f : bytes -> gmap K bytes) (e : bytes) (k : K) (v : bytes)
  : bytes -> gmap K bytes := <[e := <[k := v]> (f e)]> f.
Definition drop_all {A} `{Empty A} (f : bytes -> A) (e : bytes) : bytes -> A := <[e := ∅]> f.

(** What the interface promises of each call. *)
Definition spec {A} (o : op A) (st : store) : A * store :=
  match o with
  | WorkerPut e k v => ((), with_workers st (put (workers st) e k v))
  | WorkerCollect e =>
      ((by_key (workers st e)).*2, with_workers st (drop_all (workers st) e))
  | WorkerScan e =>
      (map (fun kv => {| WorkerKey := kv.1; State := kv.2 |}) (by_key (workers st e)), st)
  | ScanWorkerPut e k v => ((), with_scanWorkers st (put (scanWorkers st) e k v))
  | ScanWorkerScan e =>
      (map (fun kv => {| StreamID := kv.1; ScanState := kv.2 |}) (by_key (scanWorkers st e)), st)
  | QueuePush e items =>
      (length items, with_queue st (<[e := queue st e ++ items]> (queue st)))
  | QueuePop e => (head (queue st e), with_queue st (<[e := tail (queue st e)]> (queue st)))
  | QueueClear e => (length (queue st e), with_queue st (<[e := []]> (queue st)))
  | AggregateStateGet e gs => (map (fun g => group_entry g (groups st e !! g)) gs, st)
  | AggregateStatePut e entries =>
      ((), with_groups st
             (foldl (fun f en => put f e (GroupID en) (GroupState en)) (groups st) entries))
  | AggregateStateClear e => ((), with_groups st (drop_all (groups st) e))
  | AggregateConstArgsPut e f v => ((), with_constArgs st (put (constArgs st) e f v))
  | AggregateConstArgsGet e f => (constArgs st e !! f, st)
  | AggregateWindowPartitionPut e p v => ((), with_partitions st (put (partitions st) e p v))
  | AggregateWindowPartitionGet e p => (partitions st e !! p, st)
  | AggregateWindowPartitionDelete e p =>
      ((), with_partitions st (<[e := delete p (partitions st e)]> (partitions st)))
  | AggregateWindowPartitionClear e => ((), with_partitions st (drop_all (partitions st) e))
  | TransactionStateGet t ks => (map (fun k => transactions st t !! k) ks, st)
  | TransactionStatePut t items =>
      ((), with_transactions st
             (foldl (fun f it => put f t (ItemKey it) (ItemValue it)) (transactions st) items))
  | TransactionStateClear t => ((), with_transactions st (drop_all (transactions st) t))
  | StateAppend e k v =>
      let id := (lastLog st + 1)%Z in
      (id, with_logs st (<[e := logs st e ++ [(id, (k, v))]]> (logs st)) id)
  | StateLogScan e k after limit =>
      let rows := List.filter (fun r => bool_decide (r.2.1 = k) && (after <? r.1)%Z) (logs st e) in
      let rows := if (0 <? limit)%Z then take (Z.to_nat limit) rows else rows in
      (map (fun r => {| LogID := r.1; LogValue := r.2.2 |}) rows, st)
  | StateLogClear e => ((), with_logs st (<[e := []]> (logs st)) (lastLog st))
  | AttachStatePut s ns k v =>
      ((), with_attached st (<[s := put (attached st s) ns k v]> (attached st)))
  | AttachStateGet s ns k => (attached st s ns !! k, st)
  | AttachStateScan s ns opts =>
      (map (fun kv => {| Key := kv.1; Value := kv.2 |}) (scan_range opts (attached st s ns)), st)
  | AttachStateDeleteKey s ns k =>
      ((), with_attached st (<[s := <[ns := delete k (attached st s ns)]> (attached st s)]> (attached st)))
  | AttachStateDeleteNS s ns =>
      ((), with_attached st (<[s := drop_all (attached st s) ns]> (attached st)))
  | AttachStateDeleteRange s ns start end_ =>
      let m := attached st s ns in
      let kept := filter (fun kv => in_key_range start end_ kv.1 = false) m in
      (size m - size kept, with_attached st (<[s := <[ns := kept]> (attached st s)]> (attached st)))
  | AttachStateDrain s ns =>
      (map (fun kv => {| Key := kv.1; Value := kv.2 |}) (by_key (attached st s ns)),
       with_attached st (<[s := drop_all (attached st s) ns]> (attached st)))
  | ExecutionClear e =>
      ((), {| workers := drop_all (workers st) e; scanWorkers := drop_all (scanWorkers st) e;
              groups := drop_all (groups st) e; constArgs := drop_all (constArgs st) e;
              partitions := drop_all (partitions st) e; transactions := drop_all (transactions st) e;
              queue := queue st; attached := attached st; logs := <[e := []]> (logs st);
              lastLog := lastLog st |})
  end.

(** ** The contract

    Attach state is kept apart from the executions by its scope: the plaintext
    of an attach value, random per attach. [attach_scope] tells the two kinds of
    scope apart; group and partition numbers are Go int64s. *)

Definition admissible (attach_scope : bytes -> Prop) {A} (o : op A) : Prop :=
  match o with
  | WorkerPut e _ _ | WorkerCollect e | WorkerScan e | ScanWorkerPut e _ _ | ScanWorkerScan e
  | QueuePush e _ | QueuePop e | QueueClear e | AggregateStateClear e
  | AggregateConstArgsPut e _ _ | AggregateConstArgsGet e _ | AggregateWindowPartitionClear e
  | TransactionStateGet e _ | TransactionStatePut e _ | TransactionStateClear e
  | StateAppend e _ _ | StateLogScan e _ _ _ | StateLogClear e | ExecutionClear e => ~ attach_scope e
  | AggregateStateGet e gs => ~ attach_scope e /\ Forall int64_range gs
  | AggregateStatePut e entries =>
      ~ attach_scope e /\ Forall (fun en => int64_range (GroupID en)) entries
  | AggregateWindowPartitionPut e p _ | AggregateWindowPartitionGet e p
  | AggregateWindowPartitionDelete e p => ~ attach_scope e /\ int64_range p
  | AttachStatePut s _ _ _ | AttachStateGet s _ _ | AttachStateScan s _ _
  | AttachStateDeleteKey s _ _ | AttachStateDeleteNS s _ | AttachStateDeleteRange s _ _ _
  | AttachStateDrain s _ => attach_scope s
  end.

(** What a call may answer: what the abstract store answers, or an error that
    left the store as it was. *)
Definition serves {W A} (represents : W -> store -> Prop) (m : M W A) (o : op A) : Prop :=
  forall w st, represents w st ->
    match m w with
    | (Ok a, w') => a = (spec o st).1 /\ represents w' (spec o st).2
    | (Err _, w') => represents w' st
    end.

Class StorageContract (W : Type) `{FunctionStorage W} := {
  attach_scope : bytes -> Prop;
  represents : W -> store -> Prop;
  call_serves {A} (o : op A) : admissible attach_scope o -> serves represents (call o) o
}.

(** ** Clients

    A client makes calls one after the other, each depending on the answers
    before it. Calls are atomic, so this is also what a scheduler makes of
    several workers. *)

Inductive prog (R : Type) : Type :=
| Return (r : R)
| Call {A : Type} (o : op A) (k : result string A -> prog R).
Arguments Return {R} r.
Arguments Call {R A} o k.

Fixpoint run {R W} `{FunctionStorage W} (p : prog R) (w : W) : R * W :=
  match p with
  | Return r => (r, w)
  | Call o k => let '(a, w) := call o w in run (k a) w
  end.

Fixpoint permitted {R} (attach_scope : bytes -> Prop) (p : prog R) : Prop :=
  match p with
  | Return _ => True
  | Call o k => admissible attach_scope o /\ forall a, permitted attach_scope (k a)
  end.

(** What a client may see of the abstract store, whose calls may fail without
    effect. *)
Inductive behaves {R} : prog R -> store -> R -> store -> Prop :=
| behaves_return r st : behaves (Return r) st r st
| behaves_done {A} (o : op A) k st r st' :
    behaves (k (Ok (spec o st).1)) (spec o st).2 r st' -> behaves (Call o k) st r st'
| behaves_failed {A} (o : op A) k e st r st' :
    behaves (k (Err e)) st r st' -> behaves (Call o k) st r st'.

Lemma contract_run {W} `{StorageContract W} {R} (p : prog R) : forall w st,
  permitted attach_scope p -> represents w st ->
  exists st', behaves p st (run p w).1 st' /\ represents (run p w).2 st'.
Proof.
  induction p as [r|A o k IH]; intros w st Hp Hr; cbn.
  { exists st. split; [constructor|done]. }
  destruct Hp as [Ho Hk]. pose proof (call_serves o Ho w st Hr) as Hs.
  destruct (call o w) as [[a|e] w'].
  - destruct Hs as [-> Hs]. destruct (IH (Ok (spec o st).1) w' _ (Hk _) Hs) as (st' & Hb & Hr').
    exists st'. split; [by constructor|done].
  - destruct (IH (Err e) w' st (Hk (Err e)) Hs) as (st' & Hb & Hr').
    exists st'. split; [by eapply behaves_failed|done].
Qed.

(** What a client sees of the abstract store when no call fails. *)
Fixpoint ideal {R} (p : prog R) (st : store) : R * store :=
  match p with
  | Return r => (r, st)
  | Call o k => ideal (k (Ok (spec o st).1)) (spec o st).2
  end.

(** The rows a call inserts into a table that numbers them. *)
Definition inserted {A} (o : op A) : Z :=
  match o with
  | QueuePush _ items => Z.of_nat (length items)
  | StateAppend _ _ _ => 1
  | _ => 0
  end.
Fixpoint insertions {R} (p : prog R) (st : store) : Z :=
  match p with
  | Return _ => 0
  | Call o k => inserted o + insertions (k (Ok (spec o st).1)) (spec o st).2
  end.
Lemma insertions_nonneg {R} (p : prog R) : forall st, (0 <= insertions p st)%Z.
Proof.
  induction p as [r|A o k IH]; intros st; cbn; [done|].
  specialize (IH (Ok (spec o st).1) (spec o st).2). assert (0 <= inserted o)%Z by (destruct o; cbn; lia). lia.
Qed.

(** *** The queue, as its clients see it *)

(** What a call and its answer put into the queue of [e], and took out. *)
Definition queue_event (e : bytes) {A} (o : op A) : result string A -> list bytes * list bytes :=
  match o in op A return result string A -> list bytes * list bytes with
  | QueuePush e' items => fun a =>
      match a with Ok _ => (if decide (e' = e) then items else [], []) | Err _ => ([], []) end
  | QueuePop e' => fun a =>
      match a with
      | Ok (Some item) => ([], if decide (e' = e) then [item] else [])
      | _ => ([], [])
      end
  | _ => fun _ => ([], [])
  end.
Definition clears_queue (e : bytes) {A} (o : op A) : Prop :=
  match o with QueueClear e' => e' = e | _ => False end.
Fixpoint never_clears {R} (e : bytes) (p : prog R) : Prop :=
  match p with
  | Return _ => True
  | Call o k => ~ clears_queue e o /\ forall a, never_clears e (k a)
  end.

(** What a run puts into the queue of [e], and takes out, in order. *)
Fixpoint queue_traffic {R W} `{FunctionStorage W} (e : bytes) (p : prog R) (w : W)
  : list bytes * list bytes :=
  match p with
  | Return _ => ([], [])
  | Call o k =>
      let '(a, w) := call o w in
      let '(i, j) := queue_event e o a in
      let '(i', j') := queue_traffic e (k a) w in (i ++ i', j ++ j')
  end.

Lemma spec_queue e {A} (o : op A) st : ~ clears_queue e o ->
  queue st e ++ (queue_event e o (Ok (spec o st).1)).1 =
  (queue_event e o (Ok (spec o st).1)).2 ++ queue (spec o st).2 e.
Proof.
  intros Ho. destruct o; cbn in *; rewrite ?app_nil_r; try done.
  - destruct (decide (executionID = e)) as [->|He]; [by rewrite fn_lookup_insert|].
    by rewrite fn_lookup_insert_ne, app_nil_r.
  - destruct (decide (executionID = e)) as [->|He].
    + rewrite fn_lookup_insert. destruct (queue st e) as [|i l]; [done|]. cbn. by rewrite app_nil_r.
    + rewrite fn_lookup_insert_ne by done. destruct (head _); cbn; by rewrite app_nil_r.
  - by rewrite fn_lookup_insert_ne.
Qed.
Lemma failed_event e {A} (o : op A) err : queue_event e o (Err err) = ([], []).
Proof. by destruct o. Qed.

Lemma contract_queue {W} `{StorageContract W} {R} e (p : prog R) : forall w st,
  permitted attach_scope p -> never_clears e p -> represents w st ->
  exists st', represents (run p w).2 st' /\
    queue st e ++ (queue_traffic e p w).1 = (queue_traffic e p w).2 ++ queue st' e.
Proof.
  induction p as [r|A o k IH]; intros w st Hp Hc Hr; cbn.
  { exists st. split; [done|]. by rewrite app_nil_r. }
  destruct Hp as [Ho Hk], Hc as [Hno Hc]. pose proof (call_serves o Ho w st Hr) as Hs.
  destruct (call o w) as [[a|err] w'].
  - destruct Hs as [-> Hs]. pose proof (spec_queue e o st Hno) as Hq.
    destruct (IH (Ok (spec o st).1) w' _ (Hk _) (Hc _) Hs) as (st' & Hr' & E).
    exists st'. split; [done|]. destruct (queue_event e o _) as [i j], (queue_traffic e _ w') as [i' j'].
    cbn in *. by rewrite app_assoc, Hq, <- !app_assoc, E.
  - destruct (IH (Err err) w' st (Hk _) (Hc _) Hs) as (st' & Hr' & E).
    exists st'. split; [done|]. rewrite failed_event. by destruct (queue_traffic e _ w') as [i' j'].
Qed.
