(* ===== verification/Sqlite.v ===== *)
(** * Sqlite: statements and transactions on a SQLite database

    A database is what its tables hold; a SQL statement is what it does to them,
    as one atomic step that may also fail (a lock, a full disk), leaving the
    tables as they were: [faults] says which statements do. A transaction that
    fails restores the tables it began with. *)

From S2P Require Import Prelude Storage.

(** ** Statements and transactions *)

Record connection (D : Type) := { tables : D; faults : list (option string) }.
Arguments tables {D}.
Arguments faults {D}.

Section statements.
Context {D : Type}.
Abbreviation conn := (connection D).

Definition statement {A} (f : D -> result string (A * D)) : M conn A := fun c =>
  match faults c with
  | Some e :: fs => (Err e, {| tables := tables c; faults := fs |})
  | fs =>
      match f (tables c) with
      | Ok (a, d) => (Ok a, {| tables := d; faults := tail fs |})
      | Err e => (Err e, {| tables := tables c; faults := tail fs |})
      end
  end.

Definition query {A} (f : D -> A) : M conn A := statement (fun d => Ok (f d, d)).
Definition execute (f : D -> D) : M conn () := statement (fun d => Ok ((), f d)).

(** [Begin], the statements, and [Commit]; an error anywhere rolls back. *)
Definition transaction {A} (body : M conn A) : M conn A := fun c =>
  match query (fun _ => ()) c with
  | (Err e, c) => (Err e, c)
  | (Ok _, began) =>
      match (a ← body; _ ← query (fun _ => ()); mret a) began with
      | (Ok a, c) => (Ok a, c)
      | (Err e, c) => (Err e, {| tables := tables began; faults := faults c |})
      end
  end.

(** [tx.Prepare] compiles a statement. *)
Definition prepare : M conn () := query (fun _ => ()).

(** ** What the statements mean

    [means m f]: the call [m] does [f] to the tables, or fails and changes
    nothing; [does m f] says so of a call that returned only. *)

Definition means {A} (m : M conn A) (f : D -> A * D) : Prop :=
  forall c, match m c with
            | (Ok a, c') => (a, tables c') = f (tables c)
            | (Err _, c') => tables c' = tables c
            end.
Definition does {A} (m : M conn A) (f : D -> A * D) : Prop :=
  forall c a c', m c = (Ok a, c') -> (a, tables c') = f (tables c).

Lemma means_does {A} (m : M conn A) f : means m f -> does m f.
Proof. intros H c a c' E. specialize (H c). by rewrite E in H. Qed.

Lemma means_statement {A} (F : D -> result string (A * D)) f :
  (forall d a d', F d = Ok (a, d') -> (a, d') = f d) -> means (statement F) f.
Proof.
  intros H [d [|[e|] fs]]; unfold statement; cbn; [|done|].
  - destruct (F d) as [[a d']|] eqn:E; [by apply H|done].
  - destruct (F d) as [[a d']|] eqn:E; [by apply H|done].
Qed.

Lemma means_query {A} (f : D -> A) : means (query f) (fun d => (f d, d)).
Proof. apply means_statement. by intros d a d' [= <- <-]. Qed.
Lemma means_execute (f : D -> D) : means (execute f) (fun d => ((), f d)).
Proof. apply means_statement. by intros d a d' [= <- <-]. Qed.

Lemma means_ret {A} (a : A) : means (mret a) (fun d => (a, d)).
Proof. by intros c. Qed.

Lemma means_map {A B} (m : M conn A) (g : A -> B) f :
  means m f -> means (a ← m; mret (g a)) (fun d => (g (f d).1, (f d).2)).
Proof.
  intros H c. specialize (H c). cbn. unfold mbind, M_bind. destruct (m c) as [[a|e] c']; [|done].
  cbn. by rewrite <- H.
Qed.

(** Statements that only read. *)
Lemma means_collect {A B} (m : A -> M conn B) (f : A -> D -> B) l :
  (forall a, means (m a) (fun d => (f a d, d))) ->
  means (collect m l) (fun d => (map (fun a => f a d) l, d)).
Proof.
  intros H. induction l as [|x l IH]; intros c; [done|]. cbn. unfold mbind, M_bind.
  specialize (H x c). destruct (m x c) as [[b|e] c1]; [|done]. injection H as -> Ht.
  specialize (IH c1). rewrite Ht in IH. destruct (collect m l c1) as [[bs|e] c2]; [|congruence].
  cbn. injection IH as -> ->. done.
Qed.

Lemma does_bind {A B} (m : M conn A) (k : A -> M conn B) f g :
  does m f -> (forall a, does (k a) (g a)) -> does (m ≫= k) (fun d => g (f d).1 (f d).2).
Proof.
  intros Hm Hk c b c' E. unfold mbind, M_bind in E.
  destruct (m c) as [[a|e] c1] eqn:E1; [|done]. apply Hm in E1. apply Hk in E.
  by rewrite E, <- E1.
Qed.
Lemma does_each {A} (m : A -> M conn ()) (f : D -> A -> D) l :
  (forall a, does (m a) (fun d => ((), f d a))) -> does (each m l) (fun d => ((), foldl f d l)).
Proof.
  intros H. induction l as [|a l IH]; cbn [each foldl].
  { intros c [] c' [= <-]. done. }
  intros c [] c' E. apply (does_bind _ _ _ (fun _ d => ((), foldl f d l)) (H a)) in E; [done|].
  intros _. exact IH.
Qed.

Lemma means_transaction {A} (body : M conn A) f : does body f -> means (transaction body) f.
Proof.
  intros H c. unfold transaction. pose proof (means_query (fun _ => ()) c) as Hq.
  destruct (query (fun _ => ()) c) as [[u|e] c1]; [|done]. injection Hq as _ Hq.
  unfold mbind, M_bind. destruct (body c1) as [[a|e] c2] eqn:E; [|done].
  apply H in E. pose proof (means_query (fun _ => ()) c2) as Hq2.
  destruct (query (fun _ => ()) c2) as [[v|e] c3]; [|done]. injection Hq2 as _ Hq2.
  cbn. by rewrite Hq2, E, Hq.
Qed.

(** [Prepare], then the statements of a list. *)
Lemma means_prepared {A} (m : A -> M conn ()) (f : D -> A -> D) l :
  (forall a, means (m a) (fun d => ((), f d a))) ->
  means (transaction (_ ← prepare; each m l)) (fun d => ((), foldl f d l)).
Proof.
  intros H. apply means_transaction.
  apply (does_bind prepare _ (fun d => ((), d)) (fun _ d => ((), foldl f d l))).
  - apply means_does, means_query.
  - intros _. apply does_each. intros a. by apply means_does.
Qed.

Lemma means_ext {A} (m : M conn A) f g : means m f -> (forall d, f d = g d) -> means m g.
Proof. intros Hm E c. specialize (Hm c). destruct (m c) as [[a|e] c']; [by rewrite <- E|done]. Qed.
End statements.
