(* ===== verification/SqliteStorage.v ===== *)
(** * SqliteStorage: the SQLite backend (vgi/function_storage_sqlite.go)

    Every family of methods maps onto three tables keyed by a scope and a
    reserved namespace, and a work queue. A table is its rows, its statements
    and transactions are those of [Sqlite]. *)

From stdpp Require Import functions.
From S2P Require Import Prelude Bytes Strings ArrowData Storage Sqlite.

(** ** Tables *)

(** A table whose [id INTEGER PRIMARY KEY AUTOINCREMENT] counts up to the
    largest int64 and never comes back; rows are in the order of their IDs. *)
Record autotable (R : Type) := { rows : list (Z * R); seq : Z }.
Arguments rows {R}.
Arguments seq {R}.

(** A counter's column: an INTEGER, or the REAL (here always a whole number)
    that SQLite's addition turns into when it leaves the range of an int64. *)
Inductive number := Integer (n : Z) | Real (r : Z).

Definition key_columns : Type := bytes * bytes * bytes.

Record database := {
  function_state : gmap key_columns bytes;
  function_state_log : autotable (key_columns * bytes);
  function_counter : gmap key_columns number;
  work_queue : autotable (bytes * bytes)
}.

Definition empty_database : database :=
  {| function_state := ∅; function_state_log := {| rows := []; seq := 0 |};
     function_counter := ∅; work_queue := {| rows := []; seq := 0 |} |}.

Definition set_state (d : database) (m : gmap key_columns bytes) : database :=
  {| function_state := m; function_state_log := function_state_log d;
     function_counter := function_counter d; work_queue := work_queue d |}.
Definition set_log (d : database) (t : autotable (key_columns * bytes)) : database :=
  {| function_state := function_state d; function_state_log := t;
     function_counter := function_counter d; work_queue := work_queue d |}.
Definition set_counter (d : database) (m : gmap key_columns number) : database :=
  {| function_state := function_state d; function_state_log := function_state_log d;
     function_counter := m; work_queue := work_queue d |}.
Definition set_queue (d : database) (t : autotable (bytes * bytes)) : database :=
  {| function_state := function_state d; function_state_log := function_state_log d;
     function_counter := function_counter d; work_queue := t |}.

(** INSERT into a table with AUTOINCREMENT. *)
Definition maxRowID : Z := 2 ^ 63 - 1.
Definition insert_row {R} (t : autotable R) (r : R) : result string (Z * autotable R) :=
  check! (seq t <? maxRowID)%Z else "database or disk is full" in
  let id := (seq t + 1)%Z in
  Ok (id, {| rows := rows t ++ [(id, r)]; seq := id |}).

(** DELETE ... WHERE: the rows left, and how many went. *)
Definition delete_rows {R} (p : Z * R -> bool) (t : autotable R) : nat * autotable R :=
  let left := List.filter (fun r => negb (p r)) (rows t) in
  (length (rows t) - length left, {| rows := left; seq := seq t |}).
Definition delete_keys {V} (p : key_columns -> bool) (m : gmap key_columns V)
  : nat * gmap key_columns V :=
  let left := filter (fun kv => p kv.1 = false) m in
  (size m - size left, left).

(** The rows of (scope, ns), by key. *)
Definition section (m : gmap key_columns bytes) (scope ns : bytes) : gmap bytes bytes :=
  list_to_map (omap (fun '((s, n, k), v) =>
                 if bool_decide (s = scope /\ n = ns) then Some (k, v) else None) (map_to_list m)).

Definition in_section (scope ns : bytes) (k : key_columns) : bool :=
  bool_decide (k.1 = (scope, ns)).

Abbreviation conn := (connection database).

(** ** Namespaces and keys *)

Definition nsWorker : bytes := sb "worker".
Definition nsScanWorker : bytes := sb "scan_worker".
Definition nsAgg : bytes := sb "agg".
Definition nsAggConst : bytes := sb "agg_const".
Definition nsWin : bytes := sb "win".
Definition nsTxn : bytes := sb "txn".
Definition nsLog : bytes := sb "log".

Definition int64Key (v : Z) : bytes := be_enc 8 (u64 v).

(** ** Helpers over function_state *)

Definition statePut (scope ns key value : bytes) : M conn () :=
  execute (fun d => set_state d (<[(scope, ns, key) := value]> (function_state d))).

Definition stateGetOne (scope ns key : bytes) : M conn (option bytes) :=
  query (fun d => function_state d !! (scope, ns, key)).

(** One DELETE ... RETURNING; the rows come back in any order and are sorted. *)
Definition stateDrain (scope ns : bytes) : M conn (list (bytes * bytes)) :=
  statement (fun d =>
    Ok (merge_sort entry_le (map_to_list (section (function_state d) scope ns)),
        set_state d (delete_keys (in_section scope ns) (function_state d)).2)).

(** SELECT with the bounds in its WHERE, its order and its LIMIT. *)
Definition entry_ge (a b : bytes * bytes) : Prop := entry_le b a.
#[global] Instance entry_ge_dec : RelDecision entry_ge.
Proof. intros a b. unfold entry_ge. apply _. Defined.

Definition stateScanRange (scope ns : bytes) (opts : AttachScanOptions)
  : M conn (list (bytes * bytes)) :=
  query (fun d =>
    let matched := List.filter (fun kv => in_key_range (Start opts) (End opts) kv.1)
                     (map_to_list (section (function_state d) scope ns)) in
    let ordered := if Reverse opts then merge_sort entry_ge matched
                   else merge_sort entry_le matched in
    if (0 <? Limit opts)%Z then take (Z.to_nat (Limit opts)) ordered else ordered).

Definition no_options : AttachScanOptions :=
  {| Start := None; End := None; Reverse := false; Limit := 0 |}.
Definition stateScan (scope ns : bytes) : M conn (list (bytes * bytes)) :=
  stateScanRange scope ns no_options.

Definition stateDeleteNS (scope ns : bytes) : M conn () :=
  execute (fun d => set_state d (delete_keys (in_section scope ns) (function_state d)).2).

Definition stateDeleteRange (scope ns : bytes) (start end_ : option bytes) : M conn nat :=
  statement (fun d =>
    let '(n, m) := delete_keys (fun k => in_section scope ns k && in_key_range start end_ k.2)
                     (function_state d) in
    Ok (n, set_state d m)).

Definition stateDeleteKey (scope ns key : bytes) : M conn () :=
  execute (fun d => set_state d (delete (scope, ns, key) (function_state d))).

(** ** The methods *)

Definition sqliteWorkerPut (e k state : bytes) : M conn () := statePut e nsWorker k state.
Definition sqliteWorkerCollect (e : bytes) : M conn (list bytes) :=
  rows ← stateDrain e nsWorker; mret (map snd rows).
Definition sqliteWorkerScan (e : bytes) : M conn (list WorkerStateEntry) :=
  rows ← stateScan e nsWorker;
  mret (map (fun kv => {| WorkerKey := kv.1; State := kv.2 |}) rows).

Definition sqliteScanWorkerPut (e stream state : bytes) : M conn () :=
  statePut e nsScanWorker stream state.
Definition sqliteScanWorkerScan (e : bytes) : M conn (list ScanWorkerStateEntry) :=
  rows ← stateScan e nsScanWorker;
  mret (map (fun kv => {| StreamID := kv.1; ScanState := kv.2 |}) rows).

Definition insert_item (e item : bytes) : M conn () :=
  statement (fun d => let? (_, t) := insert_row (work_queue d) (e, item) in Ok ((), set_queue d t)).
Definition sqliteQueuePush (e : bytes) (items : list bytes) : M conn nat :=
  match items with
  | [] => mret 0
  | _ => transaction (_ ← prepare; _ ← each (insert_item e) items; mret (length items))
  end.

(** The row the DELETE's subquery selects: the lowest ID of the execution. *)
Definition next_item (d : database) (e : bytes) : option (Z * (bytes * bytes)) :=
  head (List.filter (fun r => bool_decide (r.2.1 = e)) (rows (work_queue d))).
Definition sqliteQueuePop (e : bytes) : M conn (option bytes) :=
  statement (fun d =>
    match next_item d e with
    | None => Ok (None, d)
    | Some (id, (_, item)) =>
        Ok (Some item,
            set_queue d (delete_rows (fun r => bool_decide (r.1 = id)) (work_queue d)).2)
    end).
Definition sqliteQueueClear (e : bytes) : M conn nat :=
  statement (fun d =>
    let '(n, t) := delete_rows (fun r => bool_decide (r.2.1 = e)) (work_queue d) in
    Ok (n, set_queue d t)).

Definition sqliteAggregateStateGet (e : bytes) (groupIDs : list Z)
  : M conn (list (option AggregateStateEntry)) :=
  collect (fun g => v ← stateGetOne e nsAgg (int64Key g); mret (group_entry g v)) groupIDs.
Definition sqliteAggregateStatePut (e : bytes) (entries : list AggregateStateEntry) : M conn () :=
  match entries with
  | [] => mret ()
  | _ => transaction (_ ← prepare;
           each (fun en => statePut e nsAgg (int64Key (GroupID en)) (GroupState en)) entries)
  end.
Definition sqliteAggregateStateClear (e : bytes) : M conn () := stateDeleteNS e nsAgg.

Definition sqliteAggregateConstArgsPut (e : bytes) (functionName : string) (args : bytes)
  : M conn () := statePut e nsAggConst (sb functionName) args.
Definition sqliteAggregateConstArgsGet (e : bytes) (functionName : string)
  : M conn (option bytes) := stateGetOne e nsAggConst (sb functionName).

Definition sqliteAggregateWindowPartitionPut (e : bytes) (partitionID : Z) (data : bytes)
  : M conn () := statePut e nsWin (int64Key partitionID) data.
Definition sqliteAggregateWindowPartitionGet (e : bytes) (partitionID : Z)
  : M conn (option bytes) := stateGetOne e nsWin (int64Key partitionID).
Definition sqliteAggregateWindowPartitionDelete (e : bytes) (partitionID : Z) : M conn () :=
  stateDeleteKey e nsWin (int64Key partitionID).
Definition sqliteAggregateWindowPartitionClear (e : bytes) : M conn () := stateDeleteNS e nsWin.

Definition sqliteTransactionStateGet (t : bytes) (keys : list bytes)
  : M conn (list (option bytes)) := collect (stateGetOne t nsTxn) keys.
Definition sqliteTransactionStatePut (t : bytes) (items : list TransactionStateItem) : M conn () :=
  match items with
  | [] => mret ()
  | _ => transaction (_ ← prepare;
           each (fun it => statePut t nsTxn (ItemKey it) (ItemValue it)) items)
  end.
Definition sqliteTransactionStateClear (t : bytes) : M conn () := stateDeleteNS t nsTxn.

Definition sqliteStateAppend (e key value : bytes) : M conn Z :=
  statement (fun d =>
    let? (id, t) := insert_row (function_state_log d) ((e, nsLog, key), value) in
    Ok (id, set_log d t)).
Definition sqliteStateLogScan (e key : bytes) (afterID limit : Z) : M conn (list StateLogEntry) :=
  matched ← query (fun d =>
    let matched := List.filter (fun r => bool_decide (r.2.1 = (e, nsLog, key)) && (afterID <? r.1)%Z)
                     (rows (function_state_log d)) in
    if (0 <? limit)%Z then take (Z.to_nat limit) matched else matched);
  mret (map (fun r => {| LogID := r.1; LogValue := r.2.2 |}) matched).
Definition sqliteStateLogClear (e : bytes) : M conn () :=
  execute (fun d => set_log d (delete_rows (fun r => in_section e nsLog r.2.1) (function_state_log d)).2).

Definition attach_entries (rows : list (bytes * bytes)) : list AttachStateKV :=
  map (fun kv => {| Key := kv.1; Value := kv.2 |}) rows.
Definition sqliteAttachStatePut (s ns key value : bytes) : M conn () := statePut s ns key value.
Definition sqliteAttachStateGet (s ns key : bytes) : M conn (option bytes) := stateGetOne s ns key.
Definition sqliteAttachStateScan (s ns : bytes) (opts : AttachScanOptions)
  : M conn (list AttachStateKV) :=
  rows ← stateScanRange s ns opts; mret (attach_entries rows).
Definition sqliteAttachStateDeleteKey (s ns key : bytes) : M conn () := stateDeleteKey s ns key.
Definition sqliteAttachStateDeleteNS (s ns : bytes) : M conn () := stateDeleteNS s ns.
Definition sqliteAttachStateDeleteRange (s ns : bytes) (start end_ : option bytes) : M conn nat :=
  stateDeleteRange s ns start end_.
Definition sqliteAttachStateDrain (s ns : bytes) : M conn (list AttachStateKV) :=
  rows ← stateDrain s ns; mret (attach_entries rows).

(** *** Counters *)

(** [rows.Scan] into an int64: a REAL beyond its range does not convert. *)
Definition scan_int64 (n : number) : M conn Z :=
  match n with
  | Integer n => mret n
  | Real _ => raise "converting driver.Value type float64 to a int64: invalid syntax"
  end.

Definition AttachCounterGet (s ns key : bytes) : M conn Z :=
  n ← query (fun d => function_counter d !! (s, ns, key));
  match n with None => mret 0%Z | Some n => scan_int64 n end.

(** SQLite's [n + excluded.n] stored in an INTEGER column: an integer sum that
    does not fit is computed on doubles, and a double that is an integer within
    the range is stored as one. *)
Definition integer_affinity (r : Z) : number :=
  if ((- 2 ^ 63 <? r) && (r <? 2 ^ 63 - 1))%Z then Integer r else Real r.
Definition sql_add (n : number) (delta : Z) : number :=
  match n with
  | Integer n =>
      if decide (int64_range (n + delta)) then Integer (n + delta)
      else integer_affinity (round53 (round53 n + round53 delta))
  | Real r => integer_affinity (round53 (r + round53 delta))
  end.
Definition AttachCounterAdd (s ns key : bytes) (delta : Z) : M conn Z :=
  n ← statement (fun d =>
    let n := match function_counter d !! (s, ns, key) with
             | None => Integer delta
             | Some n => sql_add n delta
             end in
    Ok (n, set_counter d (<[(s, ns, key) := n]> (function_counter d))));
  scan_int64 n.
Definition AttachCounterSet (s ns key : bytes) (value : Z) : M conn () :=
  execute (fun d => set_counter d (<[(s, ns, key) := Integer value]> (function_counter d))).
Definition AttachCounterDelete (s ns key : bytes) : M conn () :=
  execute (fun d => set_counter d (delete (s, ns, key) (function_counter d))).

(** *** Teardown *)

Definition in_scope (scope : bytes) (k : key_columns) : bool := bool_decide (k.1.1 = scope).
Definition sqliteExecutionClear (scope : bytes) : M conn nat :=
  transaction (
    a ← statement (fun d => let '(n, m) := delete_keys (in_scope scope) (function_state d) in
                             Ok (n, set_state d m));
    b ← statement (fun d => let '(n, t) := delete_rows (fun r => in_scope scope r.2.1)
                                             (function_state_log d) in
                             Ok (n, set_log d t));
    c ← statement (fun d => let '(n, m) := delete_keys (in_scope scope) (function_counter d) in
                             Ok (n, set_counter d m));
    mret (a + b + c)).

(** ** The backend *)

#[global] Instance sqliteStorage : FunctionStorage conn := fun A o =>
  match o with
  | WorkerPut e k v => sqliteWorkerPut e k v
  | WorkerCollect e => sqliteWorkerCollect e
  | WorkerScan e => sqliteWorkerScan e
  | ScanWorkerPut e k v => sqliteScanWorkerPut e k v
  | ScanWorkerScan e => sqliteScanWorkerScan e
  | QueuePush e items => sqliteQueuePush e items
  | QueuePop e => sqliteQueuePop e
  | QueueClear e => sqliteQueueClear e
  | AggregateStateGet e gs => sqliteAggregateStateGet e gs
  | AggregateStatePut e entries => sqliteAggregateStatePut e entries
  | AggregateStateClear e => sqliteAggregateStateClear e
  | AggregateConstArgsPut e f v => sqliteAggregateConstArgsPut e f v
  | AggregateConstArgsGet e f => sqliteAggregateConstArgsGet e f
  | AggregateWindowPartitionPut e p v => sqliteAggregateWindowPartitionPut e p v
  | AggregateWindowPartitionGet e p => sqliteAggregateWindowPartitionGet e p
  | AggregateWindowPartitionDelete e p => sqliteAggregateWindowPartitionDelete e p
  | AggregateWindowPartitionClear e => sqliteAggregateWindowPartitionClear e
  | TransactionStateGet t ks => sqliteTransactionStateGet t ks
  | TransactionStatePut t items => sqliteTransactionStatePut t items
  | TransactionStateClear t => sqliteTransactionStateClear t
  | StateAppend e k v => sqliteStateAppend e k v
  | StateLogScan e k after limit => sqliteStateLogScan e k after limit
  | StateLogClear e => sqliteStateLogClear e
  | AttachStatePut s ns k v => sqliteAttachStatePut s ns k v
  | AttachStateGet s ns k => sqliteAttachStateGet s ns k
  | AttachStateScan s ns opts => sqliteAttachStateScan s ns opts
  | AttachStateDeleteKey s ns k => sqliteAttachStateDeleteKey s ns k
  | AttachStateDeleteNS s ns => sqliteAttachStateDeleteNS s ns
  | AttachStateDeleteRange s ns start end_ => sqliteAttachStateDeleteRange s ns start end_
  | AttachStateDrain s ns => sqliteAttachStateDrain s ns
  | ExecutionClear s => _ ← sqliteExecutionClear s; mret ()
  end.

(** ** Tables and collections *)

Lemma section_lookup m s n k : section m s n !! k = m !! (s, n, k).
Proof.
  unfold section. apply option_eq. intros v. rewrite <- elem_of_list_to_map.
  - rewrite list_elem_of_omap. split.
    + intros ([[[s' n'] k'] v'] & Hin & E). case_bool_decide as Hsn; [|done].
      destruct Hsn as [-> ->]. injection E as -> ->. by apply elem_of_map_to_list.
    + intros Hv. exists ((s, n, k), v). split; [by apply elem_of_map_to_list|].
      by rewrite bool_decide_true.
  - pose proof (NoDup_fst_map_to_list m) as Hnd. revert Hnd.
    induction (map_to_list m) as [|[[[s' n'] k'] v'] l IH]; cbn; [constructor|].
    rewrite NoDup_cons. intros [Hn Hnd]. case_bool_decide as Hsn; [|auto].
    destruct Hsn as [-> ->]. cbn. constructor; [|auto]. contradict Hn.
    apply list_elem_of_fmap in Hn as ([k'' v''] & -> & Hin).
    apply list_elem_of_omap in Hin as ([[[s2 n2] k2] v2] & Hin & E).
    case_bool_decide as Hsn; [|done]. destruct Hsn as [-> ->]. injection E as -> ->.
    apply list_elem_of_fmap. by exists (s, n, k'', v'').
Qed.

Lemma filter_keys_lookup {K V} `{Countable K} (f : K -> bool) (m : gmap K V) k :
  filter (fun kv => f kv.1 = false) m !! k = if f k then None else m !! k.
Proof.
  rewrite map_lookup_filter. destruct (m !! k) as [v|]; cbn.
  - case_guard as E; cbn in *; [by rewrite E|]. by destruct (f k).
  - by destruct (f k).
Qed.
Lemma delete_keys_lookup {V} (p : key_columns -> bool) (m : gmap key_columns V) k :
  (delete_keys p m).2 !! k = if p k then None else m !! k.
Proof. apply filter_keys_lookup. Qed.

Lemma section_delete m s n : section (delete_keys (in_section s n) m).2 s n = ∅.
Proof.
  apply map_eq. intros k. rewrite section_lookup, delete_keys_lookup, lookup_empty.
  unfold in_section. by rewrite bool_decide_true.
Qed.

(** Two sorts of the same rows by distinct keys agree. *)
Lemma sorted_entries_unique (R : relation (bytes * bytes)) l k :
  (forall a b, R a b -> R b a -> a.1 = b.1) -> NoDup l.*1 ->
  StronglySorted R l -> StronglySorted R k -> l ≡ₚ k -> l = k.
Proof.
  intros Hr Hnd Hl Hk Hp. apply (StronglySorted_unique_strong R); [|done..].
  intros [k1 v1] [k2 v2] H1 H2 H3 H4. rewrite <- Hp in H2.
  pose proof (Hr _ _ H3 H4) as E. cbn in E. subst k2.
  apply list_elem_of_lookup in H1 as [i Hi], H2 as [j Hj].
  assert (i = j) as <-; [|congruence].
  eapply NoDup_lookup; [exact Hnd|..]; rewrite list_lookup_fmap; [by rewrite Hi|by rewrite Hj].
Qed.

Lemma StronglySorted_filter_bool {A} (R : relation A) f l :
  StronglySorted R l -> StronglySorted R (List.filter f l).
Proof.
  induction 1 as [|a l Hl IH Ha]; cbn; [constructor|]. destruct (f a); [|done].
  constructor; [done|]. rewrite Forall_forall in *. intros x Hx.
  apply list_elem_of_In, List.filter_In in Hx as [Hx _]. by apply Ha, list_elem_of_In.
Qed.
Lemma Permutation_filter_bool {A} (f : A -> bool) l k :
  l ≡ₚ k -> List.filter f l ≡ₚ List.filter f k.
Proof.
  induction 1 as [|x l k _ IH|x y l|l k h _ IH1 _ IH2]; cbn; [done|..].
  - by destruct (f x); rewrite IH.
  - destruct (f x), (f y); [constructor|done..].
  - by rewrite IH1.
Qed.
Lemma StronglySorted_rev {A} (R : relation A) l :
  StronglySorted R l -> StronglySorted (flip R) (rev l).
Proof.
  induction 1 as [|a l Hl IH Ha]; cbn; [constructor|]. clear Hl.
  assert (Forall (fun x => R a x) (rev l)) as Hr by (by rewrite <- Permutation_rev).
  clear Ha. induction IH as [|b k Hk IHk Hb]; cbn; [repeat constructor|].
  inversion_clear Hr. constructor; [by apply IHk|]. apply Forall_app. split; [done|by constructor].
Qed.

Lemma stateScanRange_scan m opts :
  (let matched := List.filter (fun kv => in_key_range (Start opts) (End opts) kv.1) (map_to_list m) in
   let ordered := if Reverse opts then merge_sort entry_ge matched else merge_sort entry_le matched in
   if (0 <? Limit opts)%Z then take (Z.to_nat (Limit opts)) ordered else ordered)
  = scan_range opts m.
Proof.
  cbn zeta. unfold scan_range. set (f := fun kv : bytes * bytes => _).
  set (l := List.filter f (map_to_list m)).
  assert (NoDup l.*1) as Hnd.
  { pose proof (NoDup_fst_map_to_list m) as H. unfold l. clear l. revert H.
    induction (map_to_list m) as [|kv l IH]; cbn; [constructor|]. rewrite NoDup_cons. intros [Hn H].
    destruct (f kv); [|auto]. cbn. constructor; [|auto]. contradict Hn.
    apply list_elem_of_fmap in Hn as (x & -> & Hx). apply list_elem_of_fmap. exists x.
    split; [done|]. apply list_elem_of_In, List.filter_In in Hx as [? _]. by apply list_elem_of_In. }
  assert (StronglySorted entry_le (List.filter f (by_key m))) as Hs
    by (apply StronglySorted_filter_bool, StronglySorted_merge_sort; apply _).
  assert (List.filter f (by_key m) ≡ₚ l) as Hp
    by (unfold by_key, l; apply Permutation_filter_bool, merge_sort_Permutation).
  assert (forall a b : bytes * bytes, entry_le a b -> entry_le b a -> a.1 = b.1) as Hle
    by (intros a b; apply bytes_leb_antisym).
  destruct (Reverse opts).
  - rewrite (sorted_entries_unique entry_ge (merge_sort entry_ge l) (rev (List.filter f (by_key m)))); [done|..].
    + intros a b H1 H2. by apply Hle.
    + by rewrite merge_sort_Permutation.
    + apply StronglySorted_merge_sort; [intros a b c H1 H2; by eapply entry_le_trans|].
      intros a b. apply entry_le_total.
    + by apply StronglySorted_rev in Hs.
    + by rewrite merge_sort_Permutation, <- Permutation_rev.
  - rewrite (sorted_entries_unique entry_le (merge_sort entry_le l) (List.filter f (by_key m))); [done|..].
    + done.
    + by rewrite merge_sort_Permutation.
    + apply StronglySorted_merge_sort; apply _.
    + done.
    + by rewrite merge_sort_Permutation.
Qed.

(** ** The tables represent the abstract store *)

Definition items_of (t : autotable (bytes * bytes)) (e : bytes) : list bytes :=
  map (fun r => r.2.2) (List.filter (fun r => bool_decide (r.2.1 = e)) (rows t)).
Definition log_of (t : autotable (key_columns * bytes)) (e : bytes) : list (Z * (bytes * bytes)) :=
  map (fun r => (r.1, (r.2.1.2, r.2.2))) (List.filter (fun r => in_section e nsLog r.2.1) (rows t)).

(** IDs ascend and stay below the counter. *)
Definition ids_ascend {R} (t : autotable R) : Prop :=
  StronglySorted Z.lt (map fst (rows t)) /\ Forall (fun id => (id <= seq t)%Z) (map fst (rows t)).

Record kv_rep (attach_scope : bytes -> Prop) (m : gmap key_columns bytes) (st : store) : Prop := {
  rep_workers e k : ~ attach_scope e -> workers st e !! k = m !! (e, nsWorker, k);
  rep_scanWorkers e k : ~ attach_scope e -> scanWorkers st e !! k = m !! (e, nsScanWorker, k);
  rep_groups e g : ~ attach_scope e -> int64_range g -> groups st e !! g = m !! (e, nsAgg, int64Key g);
  rep_constArgs e f : ~ attach_scope e -> constArgs st e !! f = m !! (e, nsAggConst, sb f);
  rep_partitions e p :
    ~ attach_scope e -> int64_range p -> partitions st e !! p = m !! (e, nsWin, int64Key p);
  rep_transactions e k : ~ attach_scope e -> transactions st e !! k = m !! (e, nsTxn, k);
  rep_attached s ns k : attach_scope s -> attached st s ns !! k = m !! (s, ns, k)
}.
Record queue_rep (t : autotable (bytes * bytes)) (st : store) : Prop := {
  rep_queue e : queue st e = items_of t e;
  rep_queue_ids : ids_ascend t
}.
Record log_rep (t : autotable (key_columns * bytes)) (st : store) : Prop := {
  rep_logs e : logs st e = log_of t e;
  rep_log_ns : Forall (fun r => r.2.1.1.2 = nsLog) (rows t);
  rep_last : lastLog st = seq t
}.
Definition rep (attach_scope : bytes -> Prop) (d : database) (st : store) : Prop :=
  kv_rep attach_scope (function_state d) st /\ queue_rep (work_queue d) st /\
  log_rep (function_state_log d) st.

Lemma int64Key_inj a b : int64_range a -> int64_range b -> int64Key a = int64Key b -> a = b.
Proof.
  unfold int64Key, be_enc. intros Ha Hb E. apply (f_equal (@rev byte)) in E. rewrite !rev_involutive in E.
  apply (f_equal le_dec) in E.
  rewrite !le_dec_enc in E. rewrite <- (s64_small a), <- (s64_small b) by done.
  rewrite <- (s64_u64 a), <- (s64_u64 b).
  f_equal. unfold u64 in *.
  change (2 ^ (8 * Z.of_nat 8))%Z with (2 ^ 64)%Z in E. rewrite !Zmod_mod in E. exact E.
Qed.

(** The reserved namespaces are different, by computation. *)
Ltac ns_clash :=
  match goal with
  | H : nsWorker = _ |- _ => discriminate H
  | H : nsScanWorker = _ |- _ => discriminate H
  | H : nsAgg = _ |- _ => discriminate H
  | H : nsAggConst = _ |- _ => discriminate H
  | H : nsWin = _ |- _ => discriminate H
  | H : nsTxn = _ |- _ => discriminate H
  end.

Lemma fn_insert_at {A T} `{EqDecision A} (f : A -> T) (a a' : A) (t : T) :
  <[a := t]> f a' = if decide (a = a') then t else f a'.
Proof. done. Qed.

Section contract.
Context (attach_scope : bytes -> Prop).

(** Looks a key up in the tables and the store after a change. *)
Ltac entries :=
  repeat first
    [ progress cbn [fst snd andb spec function_state set_state set_log set_counter set_queue work_queue
        function_state_log workers scanWorkers groups constArgs partitions transactions queue
        attached logs lastLog with_workers with_scanWorkers with_groups with_constArgs
        with_partitions with_transactions with_queue with_attached with_logs]
    | rewrite delete_keys_lookup
    | rewrite lookup_insert
    | rewrite lookup_delete
    | rewrite lookup_empty
    | progress unfold put, drop_all, in_section, in_scope
    | rewrite fn_insert_at
    | case_decide
    | case_bool_decide
    | match goal with
      | H : (_, _) = (_, _) |- _ => apply pair_equal_spec in H as [? ?]
      | H : int64Key _ = int64Key _ |- _ => apply int64Key_inj in H; [|done..]
      | H : sb _ = sb _ |- _ => apply sb_inj in H
      end
    | ns_clash
    | progress subst ].

Ltac kv :=
  intros [] ?; destruct_and?; split; intros; entries; try contradiction; try congruence; eauto.

Lemma kv_put_worker m st e k v : kv_rep attach_scope m st -> ~ attach_scope e ->
  kv_rep attach_scope (<[(e, nsWorker, k) := v]> m) (with_workers st (put (workers st) e k v)).
Proof. kv. Qed.
Lemma kv_put_scanWorker m st e k v : kv_rep attach_scope m st -> ~ attach_scope e ->
  kv_rep attach_scope (<[(e, nsScanWorker, k) := v]> m) (with_scanWorkers st (put (scanWorkers st) e k v)).
Proof. kv. Qed.
Lemma kv_put_group m st e g v : kv_rep attach_scope m st -> ~ attach_scope e /\ int64_range g ->
  kv_rep attach_scope (<[(e, nsAgg, int64Key g) := v]> m) (with_groups st (put (groups st) e g v)).
Proof. kv. Qed.
Lemma kv_put_constArgs m st e f v : kv_rep attach_scope m st -> ~ attach_scope e ->
  kv_rep attach_scope (<[(e, nsAggConst, sb f) := v]> m) (with_constArgs st (put (constArgs st) e f v)).
Proof. kv. Qed.
Lemma kv_put_partition m st e p v : kv_rep attach_scope m st -> ~ attach_scope e /\ int64_range p ->
  kv_rep attach_scope (<[(e, nsWin, int64Key p) := v]> m) (with_partitions st (put (partitions st) e p v)).
Proof. kv. Qed.
Lemma kv_put_transaction m st e k v : kv_rep attach_scope m st -> ~ attach_scope e ->
  kv_rep attach_scope (<[(e, nsTxn, k) := v]> m) (with_transactions st (put (transactions st) e k v)).
Proof. kv. Qed.
Lemma kv_put_attached m st s ns k v : kv_rep attach_scope m st -> attach_scope s ->
  kv_rep attach_scope (<[(s, ns, k) := v]> m)
    (with_attached st (<[s := put (attached st s) ns k v]> (attached st))).
Proof. kv. Qed.

Lemma kv_drop_worker m st e : kv_rep attach_scope m st -> ~ attach_scope e ->
  kv_rep attach_scope (delete_keys (in_section e nsWorker) m).2 (with_workers st (drop_all (workers st) e)).
Proof. kv. Qed.
Lemma kv_drop_groups m st e : kv_rep attach_scope m st -> ~ attach_scope e ->
  kv_rep attach_scope (delete_keys (in_section e nsAgg) m).2 (with_groups st (drop_all (groups st) e)).
Proof. kv. Qed.
Lemma kv_drop_partitions m st e : kv_rep attach_scope m st -> ~ attach_scope e ->
  kv_rep attach_scope (delete_keys (in_section e nsWin) m).2 (with_partitions st (drop_all (partitions st) e)).
Proof. kv. Qed.
Lemma kv_drop_transactions m st e : kv_rep attach_scope m st -> ~ attach_scope e ->
  kv_rep attach_scope (delete_keys (in_section e nsTxn) m).2
    (with_transactions st (drop_all (transactions st) e)).
Proof. kv. Qed.
Lemma kv_drop_attached m st s ns : kv_rep attach_scope m st -> attach_scope s ->
  kv_rep attach_scope (delete_keys (in_section s ns) m).2
    (with_attached st (<[s := drop_all (attached st s) ns]> (attached st))).
Proof. kv. Qed.
Lemma kv_delete_partition m st e p : kv_rep attach_scope m st -> ~ attach_scope e /\ int64_range p ->
  kv_rep attach_scope (delete (e, nsWin, int64Key p) m)
    (with_partitions st (<[e := delete p (partitions st e)]> (partitions st))).
Proof. kv. Qed.
Lemma kv_delete_attached m st s ns k : kv_rep attach_scope m st -> attach_scope s ->
  kv_rep attach_scope (delete (s, ns, k) m)
    (with_attached st (<[s := <[ns := delete k (attached st s ns)]> (attached st s)]> (attached st))).
Proof. kv. Qed.
Lemma kv_clear m st e : kv_rep attach_scope m st -> ~ attach_scope e ->
  kv_rep attach_scope (delete_keys (in_scope e) m).2 (spec (ExecutionClear e) st).2.
Proof. kv. Qed.

Lemma kv_delete_range m st s ns start end_ : kv_rep attach_scope m st -> attach_scope s ->
  kv_rep attach_scope (delete_keys (fun k => in_section s ns k && in_key_range start end_ k.2) m).2
    (spec (AttachStateDeleteRange s ns start end_) st).2.
Proof.
  kv. rewrite filter_keys_lookup. destruct (in_key_range _ _ _); eauto.
Qed.

Lemma kv_fold {X B : Type} (put_m : gmap key_columns bytes -> B -> gmap key_columns bytes) (put_x : X -> B -> X)
    (w : X -> store) (P : B -> Prop) l :
  (forall m x b, P b -> kv_rep attach_scope m (w x) -> kv_rep attach_scope (put_m m b) (w (put_x x b))) ->
  Forall P l -> forall m x,
  kv_rep attach_scope m (w x) -> kv_rep attach_scope (foldl put_m m l) (w (foldl put_x x l)).
Proof. intros H. induction 1 as [|b l Hb _ IH]; intros m x Hr; [done|]. by apply IH, H. Qed.

Lemma kv_put_groups m st e entries :
  kv_rep attach_scope m st -> ~ attach_scope e /\ Forall (fun en => int64_range (GroupID en)) entries ->
  kv_rep attach_scope
    (foldl (fun m en => <[(e, nsAgg, int64Key (GroupID en)) := GroupState en]> m) m entries)
    (spec (AggregateStatePut e entries) st).2.
Proof.
  intros Hr [He Hg]. cbn. eapply (kv_fold _ _ (with_groups st)); [|exact Hg|by destruct Hr; split].
  intros m' x en Hen Hr'. by apply (kv_put_group _ (with_groups st x)).
Qed.
Lemma kv_put_transactions m st t items : kv_rep attach_scope m st -> ~ attach_scope t ->
  kv_rep attach_scope (foldl (fun m it => <[(t, nsTxn, ItemKey it) := ItemValue it]> m) m items)
    (spec (TransactionStatePut t items) st).2.
Proof.
  intros Hr Ht. cbn. eapply (kv_fold _ _ (with_transactions st) (fun _ => True));
    [|by apply Forall_true|by destruct Hr; split].
  intros m' x it _ Hr'. by apply (kv_put_transaction _ (with_transactions st x)).
Qed.
End contract.

(** *** Collections read back *)

Lemma section_eq (m : gmap key_columns bytes) (s ns : bytes) (f : gmap bytes bytes) :
  (forall k, f !! k = m !! (s, ns, k)) -> section m s ns = f.
Proof. intros H. apply map_eq. intros k. by rewrite section_lookup, H. Qed.

Lemma deleted_size {K V} `{Countable K} (p : K -> bool) (m : gmap K V) :
  size m - size (filter (fun kv => p kv.1 = false) m) = size (filter (fun kv => p kv.1 = true) m).
Proof.
  pose proof (map_filter_union_complement (fun kv : K * V => p kv.1 = false) m) as U.
  apply (f_equal size) in U. rewrite map_size_disj_union in U by apply map_disjoint_filter_complement.
  assert (filter (fun kv : K * V => ~ p kv.1 = false) m = filter (fun kv => p kv.1 = true) m) as W
    by (apply map_filter_ext; intros k x _; cbn; destruct (p k); split; congruence).
  rewrite W in U. lia.
Qed.

(** The rows a range deletion removes from the table are those it removes from
    the section. *)
Lemma delete_range_size (m : gmap key_columns bytes) (s ns : bytes) (f : bytes -> bool) :
  (delete_keys (fun k => in_section s ns k && f k.2) m).1 =
  size (section m s ns) - size (filter (fun kv => f kv.1 = false) (section m s ns)).
Proof.
  unfold delete_keys. cbn [fst].
  rewrite (deleted_size (fun k : key_columns => in_section s ns k && f k.2)), deleted_size.
  assert (Inj (=) (=) (fun k : bytes => (s, ns, k))) by (intros ? ? [=]; done).
  transitivity (size (kmap (M2 := gmap key_columns) (fun k : bytes => (s, ns, k))
    (filter (fun kv => f kv.1 = true) (section m s ns)))); [|by rewrite <- !length_map_to_list,
    map_to_list_kmap, length_fmap].
  f_equal. apply map_eq. intros [[s' n'] k]. apply option_eq. intros v.
  rewrite map_lookup_filter_Some, (lookup_kmap_Some _). cbn.
  unfold in_section. cbn. split.
  - intros [Hm [Hk%bool_decide_eq_true Hf]%andb_true_iff]. injection Hk as -> ->. exists k. split; [done|].
    by rewrite map_lookup_filter_Some, section_lookup.
  - intros (k' & [= -> -> ->] & Hk). rewrite map_lookup_filter_Some, section_lookup in Hk.
    rewrite bool_decide_true by done. done.
Qed.

(** *** The queue *)

Definition pushed {R} (t : autotable R) (r : R) : autotable R :=
  {| rows := rows t ++ [((seq t + 1)%Z, r)]; seq := (seq t + 1)%Z |}.

Lemma pushed_ascends {R} (t : autotable R) r : ids_ascend t -> ids_ascend (pushed t r).
Proof.
  intros [Hs Hf]. unfold ids_ascend, pushed. cbn. rewrite map_app. cbn. split.
  - apply StronglySorted_app. split; [|split; [done|repeat constructor]].
    rewrite Forall_forall in Hf. intros x y Hx ->%list_elem_of_singleton. apply Hf in Hx. lia.
  - apply Forall_app. split; [|by repeat constructor]. eapply Forall_impl; [exact Hf|]. cbn. lia.
Qed.
Lemma deleted_ascends {R} p (t : autotable R) : ids_ascend t -> ids_ascend (delete_rows p t).2.
Proof.
  unfold ids_ascend, delete_rows. cbn. intros [Hs Hf]. induction (rows t) as [|r l IH]; [done|].
  cbn in *. inversion_clear Hs as [|?? Hs' Hr]. inversion_clear Hf as [|?? Hx Hf'].
  destruct (IH Hs' Hf') as [IH1 IH2]. destruct (negb (p r)); cbn; [|done].
  split; constructor; try done. rewrite Forall_forall in *. intros x Hx'. apply Hr.
  apply list_elem_of_fmap in Hx' as (y & -> & Hy). apply list_elem_of_In, List.filter_In in Hy as [Hy _].
  by apply list_elem_of_fmap_2, list_elem_of_In.
Qed.

Lemma items_pushed t e r : items_of (pushed t r) e =
  items_of t e ++ (if decide (r.1 = e) then [r.2] else []).
Proof.
  unfold items_of, pushed. cbn. rewrite List.filter_app, map_app. f_equal. cbn.
  case_decide; [by rewrite bool_decide_true|by rewrite bool_decide_false].
Qed.

Lemma push_fold e items : forall d,
  (forall st, queue_rep (work_queue d) st ->
    queue_rep (work_queue (foldl (fun d item => set_queue d (pushed (work_queue d) (e, item))) d items))
      (with_queue st (<[e := queue st e ++ items]> (queue st)))).
Proof.
  induction items as [|item items IH]; intros d st [Hq Hi]; cbn [foldl].
  - split; [|done]. intros e'. cbn. rewrite fn_insert_at. case_decide; [subst|]; rewrite <- Hq; [|done].
    by rewrite app_nil_r.
  - destruct (IH (set_queue d (pushed (work_queue d) (e, item)))
      (with_queue st (<[e := queue st e ++ [item]]> (queue st)))) as [Hq' Hi'].
    + split; [|by apply pushed_ascends]. intros e'. cbn [work_queue set_queue queue with_queue].
      rewrite items_pushed, fn_insert_at, <- Hq. cbn. case_decide; [by subst|by rewrite app_nil_r].
    + split; [|done]. intros e'. rewrite <- Hq'. cbn. rewrite !fn_insert_at.
      case_decide; [|done]. rewrite (decide_True _ _ eq_refl). by rewrite <- app_assoc.
Qed.

(** The row of the lowest ID of an execution goes, and no other. *)
Lemma pop_items (l : list (Z * (bytes * bytes))) e id x item :
  NoDup (map fst l) ->
  head (List.filter (fun r => bool_decide (r.2.1 = e)) l) = Some (id, (x, item)) ->
  x = e /\ forall e', let left := List.filter (fun r => negb (bool_decide (r.1 = id))) l in
    map (fun r => r.2.2) (List.filter (fun r => bool_decide (r.2.1 = e)) l) =
      item :: map (fun r => r.2.2) (List.filter (fun r => bool_decide (r.2.1 = e)) left) /\
    (e' <> e -> List.filter (fun r => bool_decide (r.2.1 = e')) left =
                List.filter (fun r => bool_decide (r.2.1 = e')) l).
Proof.
  induction l as [|[id' [x' item']] l IH]; cbn; [done|]. rewrite NoDup_cons. intros [Hn Hnd].
  assert (id' <> id -> negb (bool_decide (id' = id)) = true) as Hne
    by (intros H; by rewrite bool_decide_false).
  destruct (bool_decide_reflect (x' = e)) as [->|Hx]; cbn.
  - intros [= <- <- <-]. split; [done|]. intros e'. rewrite !bool_decide_true by done. cbn.
    assert (List.filter (fun r : Z * (bytes * bytes) => negb (bool_decide (r.1 = id'))) l = l) as ->.
    { apply List.forallb_filter_id, forallb_forall. intros r Hr.
      rewrite bool_decide_false; [done|]. intros <-. contradict Hn. by apply list_elem_of_fmap_2, list_elem_of_In. }
    split; [done|]. intros He. by rewrite bool_decide_false by (by intros ->).
  - intros E. destruct (IH Hnd E) as [-> IH']. split; [done|]. intros e'.
    destruct (IH' e') as [IH1 IH2]. rewrite Hne.
    + cbn. rewrite bool_decide_false by done. split; [done|]. intros He. by rewrite IH2.
    + intros ->. contradict Hn. destruct (List.filter _ l) as [|r k] eqn:El; [done|].
      injection E as ->. apply (list_elem_of_fmap_2' fst _ (id, (e, item))); [|done].
      apply list_elem_of_In. assert (In (id, (e, item)) (List.filter (fun r => bool_decide (r.2.1 = e)) l)) as H
        by (rewrite El; by left). by apply List.filter_In in H as [H _].
Qed.

Lemma ids_NoDup {R} (t : autotable R) : ids_ascend t -> NoDup (map fst (rows t)).
Proof.
  intros [Hs _]. induction Hs as [|x l Hs IH Hx]; constructor; [|done].
  intros Hin. rewrite Forall_forall in Hx. specialize (Hx _ Hin). lia.
Qed.

Definition pop (e : bytes) (d : database) : option bytes * database :=
  match next_item d e with
  | None => (None, d)
  | Some (id, (_, item)) =>
      (Some item, set_queue d (delete_rows (fun r => bool_decide (r.1 = id)) (work_queue d)).2)
  end.

Lemma pop_rep e d st : queue_rep (work_queue d) st ->
  (pop e d).1 = head (queue st e) /\
  queue_rep (work_queue (pop e d).2) (with_queue st (<[e := tail (queue st e)]> (queue st))).
Proof.
  intros [Hq Hi]. unfold pop, next_item. rewrite Hq. unfold items_of at 1 2.
  destruct (head (List.filter _ _)) as [[id [x item]]|] eqn:Eh.
  - pose proof (pop_items _ _ _ _ _ (ids_NoDup _ Hi) Eh) as [-> Hp]. cbn [fst snd].
    destruct (Hp e) as [-> _]. split; [done|]. split; [|by apply deleted_ascends].
    intros e'. cbn [queue with_queue work_queue set_queue]. rewrite fn_insert_at. case_decide as He.
    + by subst.
    + rewrite Hq. unfold items_of, delete_rows. cbn. f_equal. symmetry. by apply Hp.
  - destruct (List.filter _ _) eqn:El; [|done]. split; [done|]. split; [|done].
    intros e'. cbn. rewrite fn_insert_at. case_decide as He; [subst|by rewrite Hq].
    unfold items_of. by rewrite El.
Qed.

Lemma List_filter_filter {A} (f g : A -> bool) l :
  List.filter f (List.filter g l) = List.filter (fun a => g a && f a) l.
Proof. induction l as [|a l IH]; cbn; [done|]. destruct (g a); cbn; by rewrite IH. Qed.
Lemma List_filter_ext {A} (f g : A -> bool) l :
  (forall a, a ∈ l -> f a = g a) -> List.filter f l = List.filter g l.
Proof.
  induction l as [|a l IH]; intros H; cbn; [done|]. rewrite H by set_solver.
  rewrite IH; [done|]. intros x Hx. apply H. set_solver.
Qed.
Lemma List_filter_none {A} (f : A -> bool) l : (forall a, a ∈ l -> f a = false) -> List.filter f l = [].
Proof.
  induction l as [|a l IH]; intros H; cbn; [done|]. rewrite H by set_solver. apply IH.
  intros x Hx. apply H. set_solver.
Qed.
Lemma List_filter_length {A} (f : A -> bool) l :
  length l - length (List.filter (fun a => negb (f a)) l) = length (List.filter f l).
Proof.
  assert (length l = length (List.filter (fun a => negb (f a)) l) + length (List.filter f l)) as ->.
  { induction l as [|a l IH]; cbn; [done|]. destruct (f a); cbn; lia. }
  lia.
Qed.

Lemma clear_rep e t st : queue_rep t st ->
  (delete_rows (fun r => bool_decide (r.2.1 = e)) t).1 = length (queue st e) /\
  queue_rep (delete_rows (fun r => bool_decide (r.2.1 = e)) t).2
    (with_queue st (<[e := []]> (queue st))).
Proof.
  intros [Hq Hi]. split.
  { unfold delete_rows. cbn. rewrite List_filter_length, Hq. unfold items_of. by rewrite length_map. }
  split; [|by apply deleted_ascends]. intros e'. unfold items_of, delete_rows. cbn.
  rewrite List_filter_filter, fn_insert_at. case_decide as He.
  - subst. rewrite List_filter_none; [done|]. intros r _. by destruct (bool_decide _).
  - rewrite Hq. unfold items_of. f_equal. apply List_filter_ext. intros r _.
    destruct (bool_decide_reflect (r.2.1 = e)) as [->|]; [|done]. by rewrite bool_decide_false.
Qed.

Lemma List_filter_map_filter {A B} (p : B -> bool) (g : A -> B) (q : A -> bool) l :
  List.filter p (map g (List.filter q l)) = map g (List.filter (fun a => q a && p (g a)) l).
Proof.
  induction l as [|a l IH]; cbn; [done|]. destruct (q a); cbn; [|done].
  destruct (p (g a)); cbn; by rewrite IH.
Qed.

(** *** The log *)

Lemma append_rep e k v t st : log_rep t st ->
  log_rep (pushed t ((e, nsLog, k), v)) (spec (StateAppend e k v) st).2.
Proof.
  intros [Hl Hn Hs]. cbn. split; cbn.
  - intros e'. unfold log_of, pushed. cbn. rewrite List.filter_app, map_app, fn_insert_at. cbn.
    unfold in_section. cbn. rewrite Hs. case_decide as He.
    + subst. by rewrite bool_decide_true, Hl.
    + rewrite bool_decide_false by congruence. by rewrite app_nil_r, Hl.
  - apply Forall_app. split; [done|]. by constructor.
  - by rewrite Hs.
Qed.

Lemma log_clear_rep (p : key_columns -> bool) e t st :
  (forall k, k.1.2 = nsLog -> p k = bool_decide (k.1.1 = e)) -> log_rep t st ->
  log_rep (delete_rows (fun r => p r.2.1) t).2 (spec (StateLogClear e) st).2.
Proof.
  intros Hp [Hl Hn Hs]. split; cbn.
  - intros e'. unfold log_of, delete_rows. cbn. rewrite List_filter_filter, fn_insert_at.
    rewrite Forall_forall in Hn. case_decide as He.
    + subst. rewrite List_filter_none; [done|]. intros r Hr. rewrite Hp by (by apply Hn).
      destruct (decide (r.2.1.1.1 = e')) as [E|E]; [by rewrite (bool_decide_true _ E)|].
      unfold in_section. rewrite (bool_decide_false _ E), bool_decide_false; [done|].
      intros H%(f_equal fst). done.
    + rewrite Hl. unfold log_of. f_equal. apply List_filter_ext. intros r Hr.
      rewrite Hp by (by apply Hn). destruct (decide (r.2.1.1.1 = e)) as [E|E].
      * rewrite (bool_decide_true _ E). unfold in_section.
        rewrite bool_decide_false; [done|]. intros H%(f_equal fst).
        exact (He (eq_trans (eq_sym E) H)).
      * by rewrite (bool_decide_false _ E).
  - rewrite Forall_forall in *. intros r Hr. apply Hn. by apply list_elem_of_In, List.filter_In in Hr as [?%list_elem_of_In _].
  - done.
Qed.

Lemma log_scan_rep e k after limit t st : log_rep t st ->
  (let matched := List.filter (fun r => bool_decide (r.2.1 = (e, nsLog, k)) && (after <? r.1)%Z) (rows t) in
   map (fun r => {| LogID := r.1; LogValue := r.2.2 |})
     (if (0 <? limit)%Z then take (Z.to_nat limit) matched else matched))
  = (spec (StateLogScan e k after limit) st).1.
Proof.
  intros [Hl _ _]. cbn. rewrite Hl. unfold log_of. set (g := fun r : Z * (key_columns * bytes) => (r.1, (r.2.1.2, r.2.2))).
  rewrite List_filter_map_filter.
  assert (forall l : list (Z * (key_columns * bytes)),
    List.filter (fun r => in_section e nsLog r.2.1 && (bool_decide ((g r).2.1 = k) && (after <? (g r).1)%Z)) l =
    List.filter (fun r => bool_decide (r.2.1 = (e, nsLog, k)) && (after <? r.1)%Z) l) as E.
  { intros l. apply List_filter_ext. intros [id [[[s n] k'] v]] _. cbn. rewrite andb_assoc. f_equal.
    unfold in_section. cbn. rewrite <- bool_decide_and. apply bool_decide_ext. split; [by intros [[= -> ->] ->]|].
    by intros [= -> -> ->]. }
  rewrite <- E. destruct (0 <? limit)%Z; [|by rewrite map_map]. by rewrite firstn_map, map_map.
Qed.

(** ** The backend meets the contract *)

Section backend.
Context (attach_scope : bytes -> Prop).

Definition conn_rep (c : conn) (st : store) : Prop := rep attach_scope (tables c) st.

Lemma means_serves {A} (m : M conn A) f (o : op A) :
  means m f ->
  (forall d st, rep attach_scope d st -> (f d).1 = (spec o st).1 /\ rep attach_scope (f d).2 (spec o st).2) ->
  serves conn_rep m o.
Proof.
  intros Hm Hf c st Hr. specialize (Hm c). destruct (m c) as [[a|e] c'].
  - destruct (Hf _ _ Hr) as [Ha Hd]. rewrite <- Hm in Ha, Hd. done.
  - unfold conn_rep. by rewrite Hm.
Qed.

(** A change of the entries alone. *)
Lemma kv_change d m st st' :
  rep attach_scope d st -> kv_rep attach_scope m st' ->
  queue st' = queue st -> logs st' = logs st -> lastLog st' = lastLog st ->
  rep attach_scope (set_state d m) st'.
Proof.
  intros (Hk & [Hq1 Hq2] & [Hl1 Hl2 Hl3]) Hm Eq El Es.
  split; [exact Hm|]. split; split; cbn; intros; rewrite ?Eq, ?El, ?Es; auto.
Qed.
Lemma queue_change d t st q :
  rep attach_scope d st -> queue_rep t (with_queue st q) ->
  rep attach_scope (set_queue d t) (with_queue st q).
Proof. intros ([] & _ & []) Hq. split; [by split|]. split; [exact Hq|by split]. Qed.
Lemma log_change d t st f n :
  rep attach_scope d st -> log_rep t (with_logs st f n) ->
  rep attach_scope (set_log d t) (with_logs st f n).
Proof. intros ([] & [] & _) Hl. split; [by split|]. split; [by split|exact Hl]. Qed.

Lemma execute_serves (f : gmap key_columns bytes -> gmap key_columns bytes) (o : op ()) :
  (forall m st, kv_rep attach_scope m st -> kv_rep attach_scope (f m) (spec o st).2) ->
  (forall st, queue (spec o st).2 = queue st /\ logs (spec o st).2 = logs st /\
     lastLog (spec o st).2 = lastLog st) ->
  serves conn_rep (execute (fun d => set_state d (f (function_state d)))) o.
Proof.
  intros Hf Ho. eapply means_serves; [apply means_execute|]. intros d st Hr. cbn.
  split; [by destruct (spec o st).1|]. destruct (Ho st) as (?&?&?).
  eapply kv_change; [exact Hr|apply Hf, Hr|done..].
Qed.

Lemma foldl_set_state {B} (g : B -> gmap key_columns bytes -> gmap key_columns bytes) l : forall d,
  foldl (fun d b => set_state d (g b (function_state d))) d l =
  set_state d (foldl (fun m b => g b m) (function_state d) l).
Proof. induction l as [|b l IH]; intros d; cbn; [by destruct d|]. by rewrite IH. Qed.

(** Several entries in a transaction; none is no transaction at all. *)
Lemma put_all_serves {B} (m : B -> M conn ()) (g : B -> gmap key_columns bytes -> gmap key_columns bytes)
    (l : list B) (o : op ()) :
  (forall b, m b = execute (fun d => set_state d (g b (function_state d)))) ->
  (forall m st, kv_rep attach_scope m st ->
     kv_rep attach_scope (foldl (fun m b => g b m) m l) (spec o st).2) ->
  (forall st, queue (spec o st).2 = queue st /\ logs (spec o st).2 = logs st /\
     lastLog (spec o st).2 = lastLog st) ->
  serves conn_rep match l with [] => mret () | _ => transaction (_ ← prepare; each m l) end o.
Proof.
  intros Hm Hf Ho.
  assert (means match l with [] => mret () | _ => transaction (_ ← prepare; each m l) end
            (fun d => ((), set_state d (foldl (fun m b => g b m) (function_state d) l)))) as Hs.
  { destruct l as [|b l]; [intros c; cbn; by destruct (tables c)|].
    intros c. pose proof (means_prepared m (fun d b => set_state d (g b (function_state d))) (b :: l)) as H.
    specialize (H ltac:(intros b'; rewrite Hm; apply means_execute) c).
    destruct (transaction _ c) as [[a|e] c']; [|done]. by rewrite H, foldl_set_state. }
  eapply means_serves; [exact Hs|]. intros d st Hr. cbn.
  split; [by destruct (spec o st).1|]. destruct (Ho st) as (?&?&?).
  eapply kv_change; [exact Hr|apply Hf, Hr|done..].
Qed.

(** A call that only reads. *)
Lemma read_serves {A} (m : M conn A) (f : database -> A) (o : op A) :
  means m (fun d => (f d, d)) ->
  (forall d st, rep attach_scope d st -> f d = (spec o st).1 /\ (spec o st).2 = st) ->
  serves conn_rep m o.
Proof.
  intros Hm Hf. eapply means_serves; [exact Hm|]. intros d st Hr. cbn.
  destruct (Hf d st Hr) as [-> ->]. done.
Qed.

Lemma stateScanRange_means (s ns : bytes) opts :
  means (stateScanRange s ns opts) (fun d => (scan_range opts (section (function_state d) s ns), d)).
Proof.
  eapply means_ext; [apply means_query|]. intros d. cbn beta. f_equal. apply stateScanRange_scan.
Qed.
Lemma stateScan_means (s ns : bytes) :
  means (stateScan s ns) (fun d => (by_key (section (function_state d) s ns), d)).
Proof.
  eapply means_ext; [apply stateScanRange_means|]. intros d. cbn. f_equal. unfold scan_range. cbn.
  apply List.forallb_filter_id. by apply forallb_forall.
Qed.

Lemma drain_serves {A} (s ns : bytes) (g : list (bytes * bytes) -> A) (o : op A) (f : store -> gmap bytes bytes) :
  (forall m st k, kv_rep attach_scope m st -> f st !! k = m !! (s, ns, k)) ->
  (forall st, (spec o st).1 = g (by_key (f st))) ->
  (forall m st, kv_rep attach_scope m st ->
     kv_rep attach_scope (delete_keys (in_section s ns) m).2 (spec o st).2) ->
  (forall st, queue (spec o st).2 = queue st /\ logs (spec o st).2 = logs st /\
     lastLog (spec o st).2 = lastLog st) ->
  serves conn_rep (rows ← stateDrain s ns; mret (g rows)) o.
Proof.
  intros Hf Hg Hd Ho. eapply means_serves.
  { apply means_map, (means_statement _ (fun d => (by_key (section (function_state d) s ns),
      set_state d (delete_keys (in_section s ns) (function_state d)).2))). by intros d a d' [= <- <-]. }
  intros d st Hr. cbn [fst snd]. destruct (Ho st) as (?&?&?). split.
  - rewrite Hg. f_equal. f_equal. apply section_eq. intros k. apply Hf, Hr.
  - eapply kv_change; [exact Hr|apply Hd, Hr|done..].
Qed.

(** Counting by a transaction of deletions. *)
Definition clear (s : bytes) (d : database) : nat * database :=
  let '(a, m) := delete_keys (in_scope s) (function_state d) in
  let '(b, t) := delete_rows (fun r => in_scope s r.2.1) (function_state_log d) in
  let '(c, n) := delete_keys (in_scope s) (function_counter d) in
  (a + b + c, set_counter (set_log (set_state d m) t) n).

Lemma executionClear_means s : means (sqliteExecutionClear s) (clear s).
Proof.
  apply means_transaction.
  intros c r c' E. unfold mbind, M_bind, statement in E.
  repeat match type of E with
  | context [match faults ?c with _ => _ end] => destruct (faults c) as [|[?|] ?]; [|discriminate E|]; cbn in E
  | context [match ?l with [] => _ | _ => _ end] => destruct l as [|[?|] ?]; [|discriminate E|]; cbn in E
  end; by injection E as <- <-.
Qed.

Lemma clear_rep_all (s : bytes) d st : rep attach_scope d st -> ~ attach_scope s ->
  rep attach_scope (clear s d).2 (spec (ExecutionClear s) st).2.
Proof.
  intros (Hk & [Hq1 Hq2] & Hl) Hs. split; [by apply kv_clear|]. split; [by split|].
  destruct (log_clear_rep (in_scope s) s _ _ (fun _ _ => eq_refl) Hl). by split.
Qed.

Lemma read_map_serves {A B} (m : M conn A) (f : database -> A) (g : A -> B) (o : op B) :
  means m (fun d => (f d, d)) ->
  (forall d st, rep attach_scope d st -> g (f d) = (spec o st).1 /\ (spec o st).2 = st) ->
  serves conn_rep (a ← m; mret (g a)) o.
Proof.
  intros Hm. apply (read_serves _ (fun d => g (f d))). eapply means_ext; [by apply means_map|done].
Qed.

(** The scan of a family. *)
Lemma scan_serves {A} (s ns : bytes) (g : list (bytes * bytes) -> A) (o : op A) (f : store -> gmap bytes bytes) :
  (forall m st k, kv_rep attach_scope m st -> f st !! k = m !! (s, ns, k)) ->
  (forall st, spec o st = (g (by_key (f st)), st)) ->
  serves conn_rep (rows ← stateScan s ns; mret (g rows)) o.
Proof.
  intros Hf Hg. eapply read_map_serves; [apply stateScan_means|]. intros d st Hr. rewrite Hg.
  split; [|done]. cbn. do 2 f_equal. apply section_eq. intros k. apply Hf, Hr.
Qed.
Lemma get_serves (s ns k : bytes) (o : op (option bytes)) (f : store -> option bytes) :
  (forall m st, kv_rep attach_scope m st -> f st = m !! (s, ns, k)) ->
  (forall st, spec o st = (f st, st)) ->
  serves conn_rep (stateGetOne s ns k) o.
Proof.
  intros Hf Hg. eapply read_serves; [apply means_query|]. intros d st Hr. rewrite Hg. cbn.
  split; [|done]. symmetry. apply Hf, Hr.
Qed.

Lemma queue_push_serves e items : serves conn_rep (sqliteQueuePush e items) (QueuePush e items).
Proof.
  set (F := foldl (fun d item => set_queue d (pushed (work_queue d) (e, item)))).
  apply (means_serves _ (fun d => (length items, F d items))).
  - unfold sqliteQueuePush. destruct items as [|i l]; [by intros c|]. apply means_transaction.
    apply (does_bind _ _ (fun d => ((), d)) (fun _ d => (length (i :: l), F d (i :: l))));
      [apply means_does, means_query|]. intros _.
    apply (does_bind _ _ (fun d => ((), F d (i :: l))) (fun _ d => (length (i :: l), d)));
      [|intros _; apply means_does, means_ret].
    apply does_each. intros item. apply means_does, means_statement. unfold insert_row.
    intros d a d' E. destruct (_ <? _)%Z; [|done]. by injection E as <- <-.
  - intros d st Hr. split; [done|]. pose proof (push_fold e items d st (proj1 (proj2 Hr))) as Hq.
    assert (forall l d, F d l = set_queue d (work_queue (F d l))) as E.
    { induction l as [|i l IH]; intros d'; [by destruct d'|]. unfold F. cbn [foldl]. fold F.
      by rewrite (IH (set_queue _ _)). }
    cbn [snd]. rewrite E. by apply queue_change with (st := st).
Qed.
Lemma queue_pop_serves e : serves conn_rep (sqliteQueuePop e) (QueuePop e).
Proof.
  apply (means_serves _ (pop e)).
  - apply means_statement. unfold pop. intros d a d' E.
    destruct (next_item d e) as [[? [? ?]]|]; by injection E as <- <-.
  - intros d st Hr. destruct (pop_rep e d st (proj1 (proj2 Hr))) as [H1 H2]. split; [done|].
    assert ((pop e d).2 = set_queue d (work_queue (pop e d).2)) as ->.
    { unfold pop. destruct (next_item d e) as [[? [? ?]]|]; by destruct d. }
    by apply queue_change with (st := st).
Qed.
Lemma queue_clear_serves e : serves conn_rep (sqliteQueueClear e) (QueueClear e).
Proof.
  apply (means_serves _ (fun d => let r := delete_rows (fun r => bool_decide (r.2.1 = e)) (work_queue d) in
    (r.1, set_queue d r.2))).
  - apply means_statement. by intros d a d' [= <- <-].
  - intros d st Hr. destruct (clear_rep e _ st (proj1 (proj2 Hr))) as [H1 H2]. split; [done|].
    by apply queue_change with (st := st).
Qed.

Lemma append_serves e k v : serves conn_rep (sqliteStateAppend e k v) (StateAppend e k v).
Proof.
  apply (means_serves _ (fun d => ((seq (function_state_log d) + 1)%Z,
    set_log d (pushed (function_state_log d) ((e, nsLog, k), v))))).
  - apply means_statement. unfold insert_row. intros d a d' E. destruct (_ <? _)%Z; [|done].
    by injection E as <- <-.
  - intros d st Hr. pose proof (append_rep e k v _ st (proj2 (proj2 Hr))) as Hl. split.
    + cbn. by rewrite (rep_last _ _ (proj2 (proj2 Hr))).
    + by apply (log_change d _ st).
Qed.

Lemma sqlite_serves {A} (o : op A) : admissible attach_scope o -> serves conn_rep (call o) o.
Proof.
  unfold call, sqliteStorage. destruct o; cbn [admissible]; intros Ha.
  - apply (execute_serves (fun m => <[(executionID, nsWorker, workerKey) := state]> m)); [|done].
    intros. by apply kv_put_worker.
  - apply (drain_serves _ _ (map snd) _ (fun st => workers st executionID)); [|done| |done].
    + intros m st k Hr. by apply Hr.
    + intros. by apply kv_drop_worker.
  - apply (scan_serves _ _ _ _ (fun st => workers st executionID)); [|done].
    intros m st k Hr. by apply Hr.
  - apply (execute_serves (fun m => <[(executionID, nsScanWorker, streamID) := state]> m)); [|done].
    intros. by apply kv_put_scanWorker.
  - apply (scan_serves _ _ _ _ (fun st => scanWorkers st executionID)); [|done].
    intros m st k Hr. by apply Hr.
  - apply queue_push_serves.
  - apply queue_pop_serves.
  - apply queue_clear_serves.
  - destruct Ha as [Ha Hg].
    apply (read_serves _ (fun d => map (fun g => group_entry g (function_state d !! (executionID, nsAgg, int64Key g))) groupIDs)).
    + apply means_collect. intros g.
      eapply means_ext; [apply means_map, means_query|done].
    + intros d st Hr. split; [|done]. cbn. apply map_ext_in. intros g Hin. f_equal. symmetry.
      apply Hr; [done|]. rewrite Forall_forall in Hg. by apply Hg, list_elem_of_In.
  - apply (put_all_serves _ (fun en => <[(executionID, nsAgg, int64Key (GroupID en)) := GroupState en]>));
      [done| |done]. intros. by apply kv_put_groups.
  - apply (execute_serves (fun m => (delete_keys (in_section executionID nsAgg) m).2)); [|done].
    intros. by apply kv_drop_groups.
  - apply (execute_serves (fun m => <[(executionID, nsAggConst, sb functionName) := args]> m)); [|done].
    intros. by apply kv_put_constArgs.
  - apply (get_serves _ _ _ _ (fun st => constArgs st executionID !! functionName)); [|done].
    intros m st Hr. by apply Hr.
  - apply (execute_serves (fun m => <[(executionID, nsWin, int64Key partitionID) := data]> m)); [|done].
    intros. by apply kv_put_partition.
  - apply (get_serves _ _ _ _ (fun st => partitions st executionID !! partitionID)); [|done].
    intros m st Hr. destruct Ha. by apply Hr.
  - apply (execute_serves (fun m => delete (executionID, nsWin, int64Key partitionID) m)); [|done].
    intros. by apply kv_delete_partition.
  - apply (execute_serves (fun m => (delete_keys (in_section executionID nsWin) m).2)); [|done].
    intros. by apply kv_drop_partitions.
  - apply (read_serves _ (fun d => map (fun k => function_state d !! (txn, nsTxn, k)) keys)).
    + apply means_collect. intros k. apply means_query.
    + intros d st Hr. split; [|done]. cbn. apply map_ext. intros k. symmetry. by apply Hr.
  - apply (put_all_serves _ (fun it => <[(txn, nsTxn, ItemKey it) := ItemValue it]>));
      [done| |done]. intros. by apply kv_put_transactions.
  - apply (execute_serves (fun m => (delete_keys (in_section txn nsTxn) m).2)); [|done].
    intros. by apply kv_drop_transactions.
  - apply append_serves.
  - eapply read_map_serves; [apply means_query|]. intros d st Hr. split; [|done].
    apply log_scan_rep, Hr.
  - eapply means_serves; [apply means_execute|]. intros d st Hr. split; [done|].
    apply (log_change d _ st); [done|].
    apply (log_clear_rep (in_section executionID nsLog)); [|apply Hr].
    intros [[s n] k]. cbn. intros ->. unfold in_section. cbn. apply bool_decide_ext. split; congruence.
  - apply (execute_serves (fun m => <[(scope, ns, key) := value]> m)); [|done].
    intros. by apply kv_put_attached.
  - apply (get_serves _ _ _ _ (fun st => attached st scope ns !! key)); [|done].
    intros m st Hr. by apply Hr.
  - eapply read_map_serves; [apply stateScanRange_means|]. intros d st Hr. split; [|done].
    cbn. unfold attach_entries. do 2 f_equal. apply section_eq. intros k. by apply Hr.
  - apply (execute_serves (fun m => delete (scope, ns, key) m)); [|done].
    intros. by apply kv_delete_attached.
  - apply (execute_serves (fun m => (delete_keys (in_section scope ns) m).2)); [|done].
    intros. by apply kv_drop_attached.
  - set (p := fun k : key_columns => in_section scope ns k && in_key_range start end_ k.2).
    apply (means_serves _ (fun d => ((delete_keys p (function_state d)).1,
      set_state d (delete_keys p (function_state d)).2))).
    + apply means_statement. by intros d a d' [= <- <-].
    + intros d st Hr. split.
      * cbn [fst]. unfold p. rewrite delete_range_size. cbn.
        rewrite (section_eq _ _ _ (attached st scope ns)); [done|]. intros k. by apply Hr.
      * eapply kv_change; [exact Hr|apply kv_delete_range; [apply Hr|done]|done..].
  - apply (drain_serves _ _ attach_entries _ (fun st => attached st scope ns)); [|done| |done].
    + intros m st k Hr. by apply Hr.
    + intros. by apply kv_drop_attached.
  - apply (means_serves _ (fun d => ((), (clear scope d).2))).
    + eapply means_ext; [apply means_map, executionClear_means|done].
    + intros d st Hr. split; [done|]. by apply clear_rep_all.
Qed.

#[global] Instance sqliteContract : StorageContract conn := {
  Storage.attach_scope := attach_scope;
  represents := conn_rep;
  call_serves _ o := sqlite_serves o
}.
End backend.

(** A database just created represents the empty store. *)
Definition open (faults : list (option string)) : conn := {| tables := empty_database; faults := faults |}.

Lemma open_represents attach_scope fs : conn_rep attach_scope (open fs) empty_store.
Proof.
  repeat split; cbn; intros; rewrite ?lookup_empty; try done; constructor.
Qed.

(** ** Calls without a failed statement *)

(** [m] inserts at most [k] rows and succeeds when there is room for them. *)
Definition succeeds {A} (k : Z) (m : M conn A) : Prop :=
  forall c, faults c = [] ->
    (seq (work_queue (tables c)) + k <= maxRowID)%Z ->
    (seq (function_state_log (tables c)) + k <= maxRowID)%Z ->
    exists a c', m c = (Ok a, c') /\ faults c' = [] /\
      (seq (work_queue (tables c')) <= seq (work_queue (tables c)) + k)%Z /\
      (seq (function_state_log (tables c')) <= seq (function_state_log (tables c)) + k)%Z.

Lemma succeeds_statement {A} k (f : database -> result string (A * database)) :
  (forall d, (seq (work_queue d) + k <= maxRowID)%Z -> (seq (function_state_log d) + k <= maxRowID)%Z ->
     exists a d', f d = Ok (a, d') /\ (seq (work_queue d') <= seq (work_queue d) + k)%Z /\
       (seq (function_state_log d') <= seq (function_state_log d) + k)%Z) ->
  succeeds k (statement f).
Proof.
  intros H [d fs] E Hq Hl. cbn in E. subst fs. destruct (H d Hq Hl) as (a & d' & Ef & ? & ?).
  unfold statement. cbn. rewrite Ef. by exists a, {| tables := d'; faults := [] |}.
Qed.
Lemma succeeds_bind {A B} k1 k2 (m : M conn A) (n : A -> M conn B) :
  (0 <= k1)%Z -> (0 <= k2)%Z ->
  succeeds k1 m -> (forall a, succeeds k2 (n a)) -> succeeds (k1 + k2) (m ≫= n).
Proof.
  intros P1 P2 Hm Hn c Hf Hq Hl. destruct (Hm c Hf) as (a & c1 & E1 & F1 & ? & ?); [lia..|].
  destruct (Hn a c1 F1) as (b & c2 & E2 & F2 & ? & ?); [lia..|].
  exists b, c2. unfold mbind, M_bind. rewrite E1. repeat split; [done|done|lia|lia].
Qed.
Lemma succeeds_ret {A} (a : A) : succeeds 0 (mret a : M conn A).
Proof. intros c Hf _ _. exists a, c. repeat split; [done|lia|lia]. Qed.
Lemma succeeds_bind0 {A B} k (m : M conn A) (n : A -> M conn B) :
  (0 <= k)%Z -> succeeds k m -> (forall a, succeeds 0 (n a)) -> succeeds k (m ≫= n).
Proof. intros P Hm Hn. rewrite <- (Z.add_0_r k). by apply succeeds_bind. Qed.
Lemma succeeds_0bind {A B} k (m : M conn A) (n : A -> M conn B) :
  (0 <= k)%Z -> succeeds 0 m -> (forall a, succeeds k (n a)) -> succeeds k (m ≫= n).
Proof. intros P Hm Hn. rewrite <- (Z.add_0_l k). by apply succeeds_bind. Qed.
Lemma succeeds_each {A} k (m : A -> M conn ()) l :
  (0 <= k)%Z -> (forall a, succeeds k (m a)) -> succeeds (k * Z.of_nat (length l)) (each m l).
Proof.
  intros P Hm. induction l as [|a l IH]; cbn [each].
  - rewrite Z.mul_0_r. apply succeeds_ret.
  - replace (k * Z.of_nat (length (a :: l)))%Z with (k + k * Z.of_nat (length l))%Z by (cbn [length]; lia).
    apply succeeds_bind; [lia|nia|done|done].
Qed.
Lemma succeeds_collect {A B} (m : A -> M conn B) l :
  (forall a, succeeds 0 (m a)) -> succeeds 0 (collect m l).
Proof.
  intros Hm. induction l as [|a l IH]; cbn [collect]; [apply succeeds_ret|].
  apply succeeds_bind0; [done|done|]. intros b. apply succeeds_bind0; [done|done|]. intros. apply succeeds_ret.
Qed.
Lemma succeeds_execute f :
  (forall d, seq (work_queue (f d)) = seq (work_queue d) /\
             seq (function_state_log (f d)) = seq (function_state_log d)) -> succeeds 0 (execute f).
Proof.
  intros H. apply succeeds_statement. intros d _ _. exists (), (f d). destruct (H d) as [-> ->].
  repeat split; lia.
Qed.
Lemma succeeds_query {A} (f : database -> A) : succeeds 0 (query f).
Proof. apply succeeds_statement. intros d _ _. exists (f d), d. repeat split; lia. Qed.
Lemma succeeds_transaction {A} k (m : M conn A) : (0 <= k)%Z -> succeeds k m -> succeeds k (transaction m).
Proof.
  intros P Hm c Hf Hq Hl. unfold transaction.
  destruct (succeeds_query (fun _ => ()) c Hf) as (u & c1 & -> & F1 & ? & ?); [lia..|].
  destruct (succeeds_bind0 k m (fun a => _ ← query (fun _ => ()); mret a) P Hm
    ltac:(intros a; apply succeeds_bind0; [done|apply succeeds_query|intros; apply succeeds_ret]) c1 F1)
    as (a & c2 & -> & F2 & ? & ?); [lia..|].
  exists a, c2. repeat split; [done|lia|lia].
Qed.

(** Unfolds a method down to its statements. *)
Ltac succeed :=
  repeat first
    [ apply succeeds_ret
    | apply succeeds_query
    | apply succeeds_execute; by intros
    | apply succeeds_collect; intros
    | apply succeeds_transaction; [done|]
    | apply succeeds_bind0; [done| |intros]
    | apply succeeds_statement; intros; cbn; eexists _, _; split; [reflexivity|cbn; lia] ].

Lemma call_succeeds {A} (o : op A) : succeeds (inserted o) (call o).
Proof.
  unfold call, sqliteStorage. destruct o; cbn [inserted];
    try (unfold sqliteWorkerCollect, sqliteWorkerScan, sqliteScanWorkerScan, sqliteAttachStateScan,
           sqliteAttachStateDrain, sqliteAggregateStateGet, sqliteExecutionClear, sqliteTransactionStateGet,
           sqliteQueueClear, sqliteAttachStateDeleteRange, stateDeleteRange, stateDrain; succeed; fail).
  - unfold sqliteQueuePush. destruct items as [|i l]; [apply succeeds_ret|].
    apply succeeds_transaction; [lia|]. apply succeeds_0bind; [lia|apply succeeds_query|]. intros _.
    apply succeeds_bind0; [lia| |intros; apply succeeds_ret].
    rewrite <- (Z.mul_1_l (Z.of_nat _)). apply succeeds_each; [lia|]. intros item.
    apply succeeds_statement. intros d Hq _. unfold insert_row.
    destruct (Z.ltb_spec (seq (work_queue d)) maxRowID); [|lia]. eexists _, _. split; [reflexivity|cbn; lia].
  - apply succeeds_statement. intros d _ _. destruct (next_item d executionID) as [[? [? ?]]|];
      eexists _, _; (split; [reflexivity|cbn; lia]).
  - unfold sqliteAggregateStatePut. destruct entries as [|en l]; [apply succeeds_ret|].
    apply succeeds_transaction; [done|]. apply succeeds_bind0; [done|apply succeeds_query|]. intros _.
    change 0%Z with (0 * Z.of_nat (length (en :: l)))%Z. apply succeeds_each; [done|]. intros. succeed.
  - unfold sqliteTransactionStatePut. destruct items as [|it l]; [apply succeeds_ret|].
    apply succeeds_transaction; [done|]. apply succeeds_bind0; [done|apply succeeds_query|]. intros _.
    change 0%Z with (0 * Z.of_nat (length (it :: l)))%Z. apply succeeds_each; [done|]. intros. succeed.
  - apply succeeds_statement. intros d _ Hl. unfold insert_row.
    destruct (Z.ltb_spec (seq (function_state_log d)) maxRowID); [|lia].
    eexists _, _. split; [reflexivity|cbn; lia].
Qed.

(** ** Properties *)

(** C2: The SQLite backend refines the abstract store: whatever calls a client
    makes, whichever statements fail (a lock, a full disk, a full sequence), it
    sees what the abstract store answers to the calls that succeeded, as if the
    failed ones had never been made. *)
Theorem sqlite_refines {R} (attach_scope : bytes -> Prop) (p : prog R) (fs : list (option string)) :
  permitted attach_scope p -> exists st, behaves p empty_store (run p (open fs)).1 st.
Proof.
  intros Hp. destruct (contract_run (H0 := sqliteContract attach_scope) p (open fs) empty_store Hp) as (st & Hb & _).
  - apply open_represents.
  - by exists st.
Qed.

Lemma run_ideal {R} (attach_scope : bytes -> Prop) (p : prog R) : forall c st,
  permitted attach_scope p -> conn_rep attach_scope c st -> faults c = [] ->
  (seq (work_queue (tables c)) + insertions p st <= maxRowID)%Z ->
  (seq (function_state_log (tables c)) + insertions p st <= maxRowID)%Z ->
  (run p c).1 = (ideal p st).1.
Proof.
  induction p as [r|A o k IH]; intros c st Hp Hr Hf Hq Hl; [done|].
  destruct Hp as [Ho Hk]. cbn [insertions run ideal] in *.
  pose proof (insertions_nonneg (k (Ok (spec o st).1)) (spec o st).2) as Hn.
  destruct (call_succeeds o c Hf) as (a & c' & E & F & ? & ?); [lia..|].
  pose proof (sqlite_serves attach_scope o Ho c st Hr) as Hs. rewrite E in Hs |- *.
  destruct Hs as [-> Hs]. apply IH; [done..|lia|lia].
Qed.

(** C39: Without a failed statement the backend is exact: a client that inserts
    at most 2^63 - 1 rows into the queue and the log together gets from every
    call what the abstract store answers, and no call fails. *)
Theorem sqlite_exact {R} (attach_scope : bytes -> Prop) (p : prog R) :
  permitted attach_scope p -> (insertions p empty_store <= maxRowID)%Z ->
  (run p (open [])).1 = (ideal p empty_store).1.
Proof.
  intros Hp Hn. by apply (run_ideal attach_scope); [|apply open_represents| | |].
Qed.

(** C11: The work queue loses nothing, repeats nothing and keeps its order:
    for every client (any interleaving of workers), every execution whose queue
    nobody clears and every pattern of failing statements, the items pushed by
    the pushes that succeeded are, in order, the items the pops returned
    followed by the items still in the work_queue table. *)
Theorem queue_exactly_once {R} (attach_scope : bytes -> Prop) (p : prog R) (e : bytes)
    (fs : list (option string)) :
  permitted attach_scope p -> never_clears e p ->
  (queue_traffic e p (open fs)).1 =
  (queue_traffic e p (open fs)).2 ++ items_of (work_queue (tables (run p (open fs)).2)) e.
Proof.
  intros Hp Hc. destruct (contract_queue (H0 := sqliteContract attach_scope) e p (open fs) empty_store Hp Hc)
    as (st & Hr & E); [apply open_represents|].
  cbn in E. by rewrite E, (rep_queue _ _ (proj1 (proj2 Hr))).
Qed.

(** Teardown is exact, atomic and local: ExecutionClear answers the number
    of rows it removed, which are the entries, log rows and counters of its
    scope and no others; the work queue and the sequences stay; and when it
    fails nothing has changed. *)
Theorem execution_clear_exact (s : bytes) (c c' : conn) (r : result string nat) :
  sqliteExecutionClear s c = (r, c') ->
  match r with
  | Err _ => tables c' = tables c
  | Ok n =>
      let d := tables c in let d' := tables c' in
      n = size (filter (fun kv => in_scope s kv.1 = true) (function_state d)) +
          length (List.filter (fun r => in_scope s r.2.1) (rows (function_state_log d))) +
          size (filter (fun kv => in_scope s kv.1 = true) (function_counter d)) /\
      (forall k, function_state d' !! k = if in_scope s k then None else function_state d !! k) /\
      (forall k, function_counter d' !! k = if in_scope s k then None else function_counter d !! k) /\
      rows (function_state_log d') =
        List.filter (fun r => negb (in_scope s r.2.1)) (rows (function_state_log d)) /\
      seq (function_state_log d') = seq (function_state_log d) /\
      work_queue d' = work_queue d
  end.
Proof.
  intros E. pose proof (executionClear_means s c) as H. rewrite E in H.
  destruct r as [n|err]; [|done]. unfold clear in H. cbn in H. injection H as -> ->. cbn.
  split; [by rewrite !deleted_size, List_filter_length|].
  repeat split; intros; apply filter_keys_lookup.
Qed.

(** *** Counters *)

Fixpoint prefix_sums (from : Z) (deltas : list Z) : list Z :=
  match deltas with
  | [] => []
  | x :: deltas => (from + x)%Z :: prefix_sums (from + x) deltas
  end.

(** The answers of a counter's additions, one after the other. *)
Fixpoint add_all (s ns key : bytes) (deltas : list Z) (c : conn) : list (result string Z) * conn :=
  match deltas with
  | [] => ([], c)
  | x :: deltas =>
      let '(a, c) := AttachCounterAdd s ns key x c in
      let '(answers, c) := add_all s ns key deltas c in (a :: answers, c)
  end.

Section counters.
Context (s ns key : bytes).
#[local] Notation cell c := (function_counter (tables c) !! (s, ns, key)).

Lemma add_step x c : faults c = [] ->
  let n := match cell c with None => Integer x | Some n => sql_add n x end in
  exists c', AttachCounterAdd s ns key x c =
    ((scan_int64 n c').1, c') /\
    faults c' = [] /\ cell c' = Some n.
Proof.
  destruct c as [d fs]. cbn. intros ->. unfold AttachCounterAdd, mbind, M_bind, statement. cbn.
  set (n := match function_counter d !! (s, ns, key) with Some n => sql_add n x | None => Integer x end).
  exists {| tables := set_counter d (<[(s, ns, key) := n]> (function_counter d)); faults := [] |}.
  cbn. rewrite lookup_insert_eq. by destruct n.
Qed.

(** The counter reads as [z]. *)
Definition counts (c : conn) (z : Z) : Prop := cell c = Some (Integer z) \/ (cell c = None /\ z = 0%Z).

Lemma add_all_sums l rest : forall z c, faults c = [] -> counts c z -> Forall int64_range (prefix_sums z l) ->
  exists c', add_all s ns key (l ++ rest) c =
      (map Ok (prefix_sums z l) ++ (add_all s ns key rest c').1, (add_all s ns key rest c').2) /\
    faults c' = [] /\ counts c' (foldl Z.add z l).
Proof.
  induction l as [|x l IH]; intros z c Hf Hc Hs.
  { exists c. cbn. split; [by destruct (add_all _ _ _ _ _)|done]. }
  inversion_clear Hs as [|?? Hx Hs']. cbn [app add_all].
  destruct (add_step x c Hf) as (c1 & -> & Hf1 & Hc1).
  assert (match cell c with None => Integer x | Some n => sql_add n x end = Integer (z + x)) as En.
  { destruct Hc as [-> | [-> ->]]; [|done]. cbn. by rewrite decide_True. }
  rewrite En in Hc1 |- *. destruct (IH (z + x)%Z c1 Hf1 (or_introl Hc1) Hs') as (c2 & -> & Hf2 & Hc2).
  by exists c2.
Qed.

End counters.

(** A counter is exact as long as its running totals fit an int64: starting
    absent, each addition answers the total so far, whatever additions come
    after them, and a reading answers the last. *)
Theorem counter_exact (s ns key : bytes) (l rest : list Z) (c : conn) :
  faults c = [] -> function_counter (tables c) !! (s, ns, key) = None ->
  Forall int64_range (prefix_sums 0 l) ->
  map Ok (prefix_sums 0 l) `prefix_of` (add_all s ns key (l ++ rest) c).1 /\
  (AttachCounterGet s ns key (add_all s ns key l c).2).1 = Ok (foldl Z.add 0%Z l).
Proof.
  intros Hf Hc Hs. pose proof (or_intror (conj Hc eq_refl) : counts s ns key c 0) as H0. split.
  - destruct (add_all_sums s ns key l rest 0 c Hf H0 Hs) as (c' & -> & _). by apply prefix_app_r.
  - destruct (add_all_sums s ns key l [] 0 c Hf H0 Hs) as (c' & E & Hf' & Hc').
    rewrite app_nil_r in E. rewrite E. cbn. destruct c' as [d fs]. cbn in Hf'. subst fs.
    unfold AttachCounterGet, mbind, M_bind, query, statement. cbn.
    by destruct Hc' as [E' | [E' Hz]]; cbn in E'; rewrite E'; [|rewrite Hz].
Qed.

(** Past its width a counter fails, and comes back with a rounded total: the
    third answer is 1 short. *)
Example counter_rounds :
  (add_all [] [] [] [2 ^ 63 - 2; 3; - 2 ^ 62]%Z (open [])).1 =
  [Ok (2 ^ 63 - 2)%Z; Err "converting driver.Value type float64 to a int64: invalid syntax"; Ok (2 ^ 62)%Z]
  /\ (2 ^ 63 - 2 + 3 - 2 ^ 62 = 2 ^ 62 + 1)%Z.
Proof. by vm_compute. Qed.

(** ** Witnesses *)

Module Client.
Definition attach : bytes := sb "attach".
Definition execution : bytes := sb "execution".
Definition is_attach (s : bytes) : Prop := s = attach.
#[global] Instance is_attach_dec s : Decision (is_attach s) := decide (s = attach).

(** Two workers share a queue and their states; attach state uses a reserved
    namespace of its own scope, and the state of a group has a negative ID. *)
Definition client : prog (list bytes * option bytes * list (option AggregateStateEntry)) :=
  Call (QueuePush execution [sb "a"; sb "b"]) (fun _ =>
  Call (AttachStatePut attach nsWorker (sb "k") (sb "v")) (fun _ =>
  Call (WorkerPut execution (sb "w2") (sb "two")) (fun _ =>
  Call (WorkerPut execution (sb "w1") (sb "one")) (fun _ =>
  Call (AggregateStatePut execution [{| GroupID := -1; GroupState := sb "g" |}]) (fun _ =>
  Call (QueuePop execution) (fun item =>
  Call (QueuePop execution) (fun item' =>
  Call (AggregateStateGet execution [-1; 7]%Z) (fun groups =>
  Call (WorkerCollect execution) (fun states =>
    Return (match states with Ok l => l | Err _ => [] end,
            match item with Ok i => i | Err _ => None end,
            match groups with Ok l => l | Err _ => [] end)))))))))).

Lemma client_permitted : permitted is_attach client.
Proof.
  cbn. unfold is_attach, int64_range. repeat split; try (intros H; discriminate H); repeat constructor; cbn; lia.
Qed.
Lemma client_keeps_queue : never_clears execution client.
Proof. cbn. repeat split; by intros []. Qed.
End Client.

(** With the first pop failing, as with no failure at all, the client sees a
    behaviour of the abstract store. *)
Lemma sqlite_refines_witness :
  let faults := [None; None; None; None; None; None; None; None; None; None; None; None; Some "database is locked"] in
  (run Client.client (open faults)).1.1.2 = None /\
  exists st, behaves Client.client empty_store (run Client.client (open faults)).1 st.
Proof.
  intros faults. split; [vm_compute; reflexivity|].
  apply (sqlite_refines Client.is_attach Client.client faults Client.client_permitted).
Defined.

Lemma sqlite_exact_witness :
  (run Client.client (open [])).1 =
    ([sb "one"; sb "two"], Some (sb "a"), [Some {| GroupID := -1; GroupState := sb "g" |}; None]) /\
  (run Client.client (open [])).1 = (ideal Client.client empty_store).1.
Proof.
  split; [vm_compute; reflexivity|].
  apply (sqlite_exact Client.is_attach Client.client Client.client_permitted).
  vm_compute. intros H. discriminate H.
Defined.

Lemma queue_exactly_once_witness :
  let faults := [None; None; None; None; None; None; None; None; None; None; None; None; Some "database is locked"] in
  let traffic := queue_traffic Client.execution Client.client (open faults) in
  traffic = ([sb "a"; sb "b"], [sb "a"]) /\
  traffic.1 = traffic.2 ++ items_of (work_queue (tables (run Client.client (open faults)).2)) Client.execution.
Proof.
  intros faults traffic. split; [vm_compute; reflexivity|].
  apply (queue_exactly_once Client.is_attach Client.client Client.execution faults
    Client.client_permitted Client.client_keeps_queue).
Defined.

Lemma execution_clear_exact_witness :
  let c := (run Client.client (open [])).2 in
  let d := tables (sqliteExecutionClear Client.execution c).2 in
  function_state d !! (Client.execution, nsAgg, int64Key (-1)) = None /\
  function_state d !! (Client.attach, nsWorker, sb "k") = Some (sb "v").
Proof.
  intros c d.
  pose (H := execution_clear_exact Client.execution c (sqliteExecutionClear Client.execution c).2
               (Ok 1) ltac:(vm_compute; reflexivity)).
  destruct H as (_ & H & _). fold d in H. rewrite !H. split; vm_compute; reflexivity.
Defined.

Lemma counter_exact_witness :
  map Ok [5; 2]%Z `prefix_of` (add_all [] [] [] [5; -3; 4]%Z (open [])).1 /\
  (AttachCounterGet [] [] [] (add_all [] [] [] [5; -3]%Z (open [])).2).1 = Ok 2%Z.
Proof.
  apply (counter_exact [] [] [] [5; -3]%Z [4%Z] (open [])); [reflexivity|reflexivity|].
  repeat constructor; vm_compute; intros H; discriminate H.
Defined.
