(* ===== verification/ExecutionStorage.v ===== *)
(** * ExecutionStorage: the storage of one stream (vgi/storage.go)

    A function reaches the shared backend through a view bound to its
    execution, its attach's shard and its stream. The view is verified against
    the contract of any backend. *)

From S2P Require Import Prelude Bytes Strings Storage Sqlite SqliteStorage.

Section view.
(** Backends ([FunctionStorage] values): what they are over the shared world,
    how they are pinned to a shard, and which optional interfaces they have. *)
Context {W B : Type} (backend : B -> FunctionStorage W) (ForShard : B -> option (string -> B))
  (StateLogStorage AttachStateStorage : B -> bool) (pid : Z).

Record ExecutionStorage := {
  back : option B;
  executionID : option bytes;
  shardKey : string;
  substreamID : bytes
}.

Definition NewExecutionStorage : ExecutionStorage :=
  {| back := None; executionID := None; shardKey := ""; substreamID := [] |}.
Definition SetBackend (s : ExecutionStorage) (b : B) : ExecutionStorage :=
  {| back := Some b; executionID := executionID s; shardKey := shardKey s; substreamID := substreamID s |}.
Definition SetExecutionID (s : ExecutionStorage) (e : bytes) : ExecutionStorage :=
  {| back := back s; executionID := Some e; shardKey := shardKey s; substreamID := substreamID s |}.
Definition SetShardKey (s : ExecutionStorage) (k : string) : ExecutionStorage :=
  {| back := back s; executionID := executionID s; shardKey := k; substreamID := substreamID s |}.

(** The view of one stream of the execution. *)
Definition forSubstream (s : ExecutionStorage) (id : bytes) : ExecutionStorage :=
  match id with
  | [] => s
  | _ => {| back := back s; executionID := executionID s; shardKey := shardKey s; substreamID := id |}
  end.

Definition workerKey (s : ExecutionStorage) : bytes :=
  match substreamID s with [] => int64Key pid | id => id end.

Definition resolve (s : ExecutionStorage) : result string (B * bytes) :=
  match back s, executionID s with
  | None, _ => Err "storage: backend not set (Worker should call SetBackend)"
  | Some _, None => Err "storage: execution ID not set"
  | Some b, Some e =>
      if bool_decide (shardKey s = "") then Ok (b, e)
      else match ForShard b with Some pin => Ok (pin (shardKey s), e) | None => Ok (b, e) end
  end.

(** A call on the resolved backend. *)
Definition on {A} (s : ExecutionStorage) (f : FunctionStorage W -> bytes -> M W A) : M W A :=
  match resolve s with
  | Ok (b, e) => f (backend b) e
  | Err err => raise err
  end.

(** ** Work queue *)

Definition pushItems (s : ExecutionStorage) (items : list bytes) : M W () :=
  on s (fun _ e => _ ← call (QueuePush e items); mret ()).
Definition popItem (s : ExecutionStorage) : M W (option bytes) :=
  on s (fun _ e => call (QueuePop e)).

Section batches.
Context {Batch : Type} (SerializeRecordBatch : Batch -> result string bytes)
  (DeserializeRecordBatch : bytes -> result string Batch).
Definition QueuePushBatches (s : ExecutionStorage) (batches : list Batch) : M W () :=
  match map_result SerializeRecordBatch batches with
  | Ok items => pushItems s items
  | Err e => raise ("storage: serializing batch: " +:+ e)
  end.
Definition QueuePopBatch (s : ExecutionStorage) : M W (option Batch) :=
  data ← popItem s;
  match data with
  | None => mret None
  | Some data =>
      match DeserializeRecordBatch data with
      | Ok b => mret (Some b)
      | Err e => raise ("storage: deserializing batch: " +:+ e)
      end
  end.
End batches.

(** ** State log *)

Definition stateLog {A} (s : ExecutionStorage) (f : FunctionStorage W -> bytes -> M W A) : M W A :=
  match resolve s with
  | Ok (b, e) =>
      if StateLogStorage b then f (backend b) e
      else raise "storage: backend does not support the state log (required by table-buffering functions)"
  | Err err => raise err
  end.
Definition appendState (s : ExecutionStorage) (key value : bytes) : M W Z :=
  stateLog s (fun _ e => call (StateAppend e key value)).
Definition scanLog (s : ExecutionStorage) (key : bytes) (afterID limit : Z) : M W (list StateLogEntry) :=
  stateLog s (fun _ e => call (StateLogScan e key afterID limit)).
Definition clearLog (s : ExecutionStorage) : M W () := stateLog s (fun _ e => call (StateLogClear e)).

(** ** Worker state *)

Definition Put (s : ExecutionStorage) (data : bytes) : M W () :=
  on s (fun _ e => call (WorkerPut e (workerKey s) data)).
Definition Snapshot (s : ExecutionStorage) : M W (list bytes) :=
  on s (fun _ e => entries ← call (WorkerScan e); mret (map State entries)).
Definition Collect (s : ExecutionStorage) : M W (list bytes) :=
  on s (fun _ e => call (WorkerCollect e)).

(** Errors are ignored. *)
Definition attempt {A} (m : M W A) : M W () := fun w => (Ok (), (m w).2).
Definition Cleanup (s : ExecutionStorage) : M W () :=
  match resolve s with
  | Ok (b, e) =>
      let storage := backend b in
      _ ← attempt (call (ExecutionClear e)); attempt (call (QueueClear e))
  | Err _ => mret ()
  end.

(** ** Attach state *)

Record AttachStore := { attachBack : B; attachScope : bytes }.

Definition newAttachStore (b : option B) (scope : bytes) : result string AttachStore :=
  match b with
  | None => Err "storage: backend not set (Worker should call SetBackend)"
  | Some b =>
      if AttachStateStorage b then Ok {| attachBack := b; attachScope := scope |}
      else Err "storage: backend does not support attach state (required by attach-scoped functions)"
  end.
Definition attachStore (s : ExecutionStorage) (scope : bytes) : result string AttachStore :=
  newAttachStore (back s) scope.

Definition ScanOption : Type := AttachScanOptions -> AttachScanOptions.
Definition WithRange (start end_ : option bytes) : ScanOption := fun o =>
  {| Start := start; End := end_; Reverse := Reverse o; Limit := Limit o |}.
Definition WithStart (start : option bytes) : ScanOption := fun o => WithRange start (End o) o.
Definition WithEnd (end_ : option bytes) : ScanOption := fun o => WithRange (Start o) end_ o.
Definition WithReverse : ScanOption := fun o =>
  {| Start := Start o; End := End o; Reverse := true; Limit := Limit o |}.
Definition WithLimit (n : Z) : ScanOption := fun o =>
  {| Start := Start o; End := End o; Reverse := Reverse o; Limit := n |}.

Definition attachPut (a : AttachStore) (ns key value : bytes) : M W () :=
  let storage := backend (attachBack a) in call (AttachStatePut (attachScope a) ns key value).
Definition attachGet (a : AttachStore) (ns key : bytes) : M W (option bytes) :=
  let storage := backend (attachBack a) in call (AttachStateGet (attachScope a) ns key).
Definition attachScan (a : AttachStore) (ns : bytes) (opts : list ScanOption) : M W (list AttachStateKV) :=
  let storage := backend (attachBack a) in
  call (AttachStateScan (attachScope a) ns (foldl (fun o opt => opt o) no_options opts)).
Definition attachDeleteKey (a : AttachStore) (ns key : bytes) : M W () :=
  let storage := backend (attachBack a) in call (AttachStateDeleteKey (attachScope a) ns key).
Definition attachDeleteNS (a : AttachStore) (ns : bytes) : M W () :=
  let storage := backend (attachBack a) in call (AttachStateDeleteNS (attachScope a) ns).
Definition attachDeleteRange (a : AttachStore) (ns : bytes) (start end_ : option bytes) : M W nat :=
  let storage := backend (attachBack a) in call (AttachStateDeleteRange (attachScope a) ns start end_).
Definition attachDrain (a : AttachStore) (ns : bytes) : M W (list AttachStateKV) :=
  let storage := backend (attachBack a) in call (AttachStateDrain (attachScope a) ns).
End view.

Arguments forSubstream {B} s id.
Arguments workerKey {B} pid s.

(** ** The states of an execution's streams *)

Section streams.
Context {W B : Type} (backend : B -> FunctionStorage W) (ForShard : B -> option (string -> B)) (pid : Z).

(** Puts of several streams of one execution, in the order they happen. *)
Definition put_all (s : ExecutionStorage (B := B)) (puts : list (bytes * bytes)) : M W () :=
  each (fun p => Put backend ForShard pid (forSubstream s p.1) p.2) puts.

(** The last state of every stream, by worker key. *)
Definition latest (s : ExecutionStorage (B := B)) (m : gmap bytes bytes) (puts : list (bytes * bytes))
  : gmap bytes bytes :=
  foldl (fun m p => <[workerKey pid (forSubstream s p.1) := p.2]> m) m puts.

Lemma resolve_substream (s : ExecutionStorage (B := B)) id :
  resolve ForShard (forSubstream s id) = resolve ForShard s.
Proof. by destruct id. Qed.

Lemma on_resolved {A} (s : ExecutionStorage (B := B)) b e (f : FunctionStorage W -> bytes -> M W A) :
  resolve ForShard s = Ok (b, e) -> on backend ForShard s f = f (backend b) e.
Proof. intros E. unfold on. by rewrite E. Qed.

Section contract.
#[local] Set Default Proof Using "All".
Context (s : ExecutionStorage (B := B)) (b : B) (e : bytes).
Context (contract : @StorageContract W (backend b)).
Context (Hs : resolve ForShard s = Ok (b, e)) (He : ~ @attach_scope W _ contract e).

Lemma put_step p w st w' : @represents W _ contract w st ->
  Put backend ForShard pid (forSubstream s p.1) p.2 w = (Ok (), w') ->
  exists st', @represents W _ contract w' st' /\
    workers st' e = <[workerKey pid (forSubstream s p.1) := p.2]> (workers st e).
Proof.
  intros Hr. unfold Put. rewrite (on_resolved _ b e) by (by rewrite resolve_substream).
  set (k := workerKey pid _). intros E. pose proof (call_serves (StorageContract := contract) (WorkerPut e k p.2) He w st Hr) as Hc.
  rewrite E in Hc. destruct Hc as [_ Hc]. eexists. split; [exact Hc|]. cbn. unfold put.
  by rewrite fn_insert_at, decide_True.
Qed.

Lemma put_all_states puts : forall w st w', @represents W _ contract w st ->
  put_all s puts w = (Ok (), w') ->
  exists st', @represents W _ contract w' st' /\ workers st' e = latest s (workers st e) puts.
Proof.
  induction puts as [|p puts IH]; intros w st w' Hr E.
  { injection E as <-. by exists st. }
  unfold put_all in E. cbn [each] in E. unfold mbind, M_bind in E.
  destruct (Put _ _ _ _ _ w) as [[[]|] w1] eqn:E1; [|done].
  destruct (put_step p w st w1 Hr E1) as (st1 & Hr1 & Ew).
  destruct (IH w1 st1 w' Hr1 E) as (st' & Hr' & E'). exists st'. split; [done|]. by rewrite E', Ew.
Qed.

Lemma snapshot_states w st vals w' : @represents W _ contract w st ->
  Snapshot backend ForShard s w = (Ok vals, w') -> vals = (by_key (workers st e)).*2 /\ @represents W _ contract w' st.
Proof.
  intros Hr. unfold Snapshot. rewrite (on_resolved _ b e) by done. intros E.
  unfold mbind, M_bind in E. pose proof (call_serves (StorageContract := contract) (WorkerScan e) He w st Hr) as Hc.
  destruct (call (WorkerScan e) w) as [[entries|] w1]; [|done]. destruct Hc as [-> Hc].
  injection E as <- <-. split; [|done]. cbn. by rewrite map_map.
Qed.
Lemma collect_states w st vals w' : @represents W _ contract w st ->
  Collect backend ForShard s w = (Ok vals, w') ->
  vals = (by_key (workers st e)).*2 /\ exists st', @represents W _ contract w' st' /\ workers st' e = ∅.
Proof.
  intros Hr. unfold Collect. rewrite (on_resolved _ b e) by done. intros E.
  pose proof (call_serves (StorageContract := contract) (WorkerCollect e) He w st Hr) as Hc. rewrite E in Hc. destruct Hc as [-> Hc].
  split; [done|]. eexists. split; [exact Hc|]. cbn. unfold drop_all. by rewrite fn_insert_at, decide_True.
Qed.
End contract.
End streams.

Lemma by_key_length {V} (m : gmap bytes V) : length (by_key m) = size m.
Proof. unfold by_key. by rewrite merge_sort_Permutation, length_map_to_list. Qed.

Lemma latest_dom {B} pid (s : ExecutionStorage (B := B)) puts :
  Forall (fun p => p.1 <> []) puts -> dom (latest pid s ∅ puts) = list_to_set puts.*1.
Proof.
  intros H. assert (forall m, dom (latest pid s m puts) = dom m ∪ list_to_set puts.*1) as ->; [|set_solver].
  induction H as [|[id data] puts Hid _ IH]; intros m; cbn; [set_solver|].
  unfold latest in IH. rewrite IH, dom_insert_L. destruct id as [|x id]; [done|]. cbn. set_solver.
Qed.

(** C21: Streams do not overwrite each other's state: over any backend that
    meets the contract, when the streams of an execution store their states, in
    any interleaving, a snapshot and then a collection both return the last
    state of every stream, one per worker key and in key order, and after the
    collection nothing is left. Streams with different substream IDs have
    different worker keys. *)
Theorem streams_keep_their_states {W B : Type} (backend : B -> FunctionStorage W)
    (ForShard : B -> option (string -> B)) (pid : Z) (s : ExecutionStorage (B := B)) (b : B) (e : bytes)
    (contract : @StorageContract W (backend b)) (puts : list (bytes * bytes))
    (w0 w1 w2 w3 w4 : W) (snapshot collected rest : list bytes) st :
  resolve ForShard s = Ok (b, e) -> ~ @attach_scope W _ contract e ->
  @represents W _ contract w0 st -> workers st e = ∅ ->
  put_all backend ForShard pid s puts w0 = (Ok (), w1) ->
  Snapshot backend ForShard s w1 = (Ok snapshot, w2) ->
  Collect backend ForShard s w2 = (Ok collected, w3) ->
  Snapshot backend ForShard s w3 = (Ok rest, w4) ->
  snapshot = (by_key (latest pid s ∅ puts)).*2 /\ collected = snapshot /\ rest = [] /\
  (Forall (fun p => p.1 <> []) puts -> length collected = size (list_to_set (C := gset bytes) puts.*1)).
Proof.
  intros Hs He Hr Hw Ep E1 E2 E3.
  destruct (put_all_states _ _ _ s b e contract Hs He puts _ _ _ Hr Ep) as (st1 & Hr1 & Ew).
  rewrite Hw in Ew.
  destruct (snapshot_states _ _ pid s b e contract Hs He _ _ _ _ Hr1 E1) as [H1 Hr2].
  destruct (collect_states _ _ pid s b e contract Hs He _ _ _ _ Hr2 E2) as [H2 (st3 & Hr3 & Ee)].
  destruct (snapshot_states _ _ pid s b e contract Hs He _ _ _ _ Hr3 E3) as [H3 _].
  rewrite Ew in H1, H2. rewrite Ee in H3. repeat split; [done|congruence|done|].
  intros Hids. rewrite H2, length_fmap, by_key_length, <- size_dom. f_equal.
  by apply latest_dom.
Qed.

(** Two streams in one process, the first storing twice. *)
Module StreamsExample.
Definition backend (_ : ()) : FunctionStorage conn := sqliteStorage.
Definition stream : ExecutionStorage (B := ()) := SetExecutionID (SetBackend NewExecutionStorage ()) (sb "execution").
Definition puts : list (bytes * bytes) := [(sb "s1", sb "a"); (sb "s2", sb "b"); (sb "s1", sb "c")].
Definition stored : conn := (put_all backend (fun _ => None) 42 stream puts (open [])).2.
Definition emptied : conn := (Collect backend (fun _ => None) stream stored).2.

Ltac by_run t := vm_cast_no_check (eq_refl t).
Lemma collected : Collect backend (fun _ => None) stream stored = (Ok [sb "c"; sb "b"], emptied).
Proof. by_run (Ok (E := string) [sb "c"; sb "b"], emptied). Qed.
Lemma streams_keep_their_states_witness :
  Collect backend (fun _ => None) stream stored = (Ok [sb "c"; sb "b"], emptied) /\
  [sb "c"; sb "b"] = (by_key (latest 42 stream ∅ puts)).*2 /\
  length [sb "c"; sb "b"] = size (list_to_set (C := gset bytes) puts.*1).
Proof.
  pose proof (streams_keep_their_states backend (fun _ => None) 42 stream () (sb "execution") (sqliteContract (fun s => s = sb "attach")) puts
    (open []) stored stored emptied emptied [sb "c"; sb "b"] [sb "c"; sb "b"] [] empty_store) as H.
  destruct H as (H1 & _ & _ & H4); [done| |apply open_represents|done|by_run (Ok (E := string) (), stored)
    |by_run (Ok (E := string) [sb "c"; sb "b"], stored)|exact collected|by_run (Ok (E := string) (@nil bytes), emptied)|].
  - intros E. discriminate E.
  - split; [exact collected|]. split; [exact H1|].
    apply H4. repeat constructor; intros E; discriminate E.
Defined.
End StreamsExample.
