(* ===== verification/FlushDrain.v ===== *)
(** * FlushDrain: sending a finalize flush (vgi/protocol.go, state_serialize.go, rehydrate.go)

    A function's last batches are sent one per turn. Over HTTP a turn may be
    served by another worker, which rebuilds the stream from a token; the first
    token that is written moves the batches into the execution's state log, so
    that no later turn carries them. Here a stream is followed through any turns,
    suspensions and resumptions, over any backend of the storage contract. *)

From S2P Require Import Prelude Bytes Strings Storage Sqlite SqliteStorage ExecutionStorage.

Section drain.
Context {W B : Type} (backend : B -> FunctionStorage W) (ForShard : B -> option (string -> B)) (StateLogStorage : B -> bool).
Context {Batch Recipe Metadata : Type} (DeserializeRecordBatch : bytes -> result string Batch).
Let Handle : Type := ExecutionStorage (B := B).

(** ** The state of a stream

    [batches] are the decoded ones; an emitted batch is released. *)
Record FinalizeProducerState := {
  recipe : Recipe;
  BatchIPC : list bytes;
  BatchIdx : nat;
  batches : list Batch;
  LogKey : bytes;
  LogCursor : Z;
  storage : option Handle;
  CacheMeta : option Metadata
}.
Record finalizeProducerWire := {
  wire_recipe : Recipe;
  wire_BatchIPC : list bytes;
  wire_BatchIdx : nat;
  wire_LogKey : bytes;
  wire_LogCursor : Z;
  wire_CacheMeta : option Metadata
}.

(** What a turn sends. *)
Inductive output := Emitted (batch : Batch) (metadata : option Metadata) | Finished.

(** *** One turn *)

Definition emitted_inline (s : FinalizeProducerState) : FinalizeProducerState :=
  {| recipe := recipe s; BatchIPC := BatchIPC s; BatchIdx := S (BatchIdx s); batches := batches s; LogKey := LogKey s;
     LogCursor := LogCursor s; storage := storage s; CacheMeta := CacheMeta s |}.
Definition finished_inline (s : FinalizeProducerState) : FinalizeProducerState :=
  {| recipe := recipe s; BatchIPC := BatchIPC s; BatchIdx := BatchIdx s; batches := []; LogKey := LogKey s;
     LogCursor := LogCursor s; storage := storage s; CacheMeta := CacheMeta s |}.
Definition moved_to (id : Z) (s : FinalizeProducerState) : FinalizeProducerState :=
  {| recipe := recipe s; BatchIPC := BatchIPC s; BatchIdx := BatchIdx s; batches := batches s; LogKey := LogKey s;
     LogCursor := id; storage := storage s; CacheMeta := CacheMeta s |}.

(** One row past the cursor; the cursor moves once its batch decodes. *)
Definition produceFromLog (s : FinalizeProducerState) (w : W) : result string output * FinalizeProducerState * W :=
  match storage s with
  | None => (Err "resuming an offloaded FINALIZE flush requires storage, which is unavailable", s, w)
  | Some h =>
      match scanLog backend ForShard StateLogStorage h (LogKey s) (LogCursor s) 1 w with
      | (Err e, w) => (Err e, s, w)
      | (Ok [], w) => (Ok Finished, s, w)
      | (Ok (entry :: _), w) =>
          match DeserializeRecordBatch (LogValue entry) with
          | Err e => (Err e, s, w)
          | Ok batch => (Ok (Emitted batch (CacheMeta s)), moved_to (LogID entry) s, w)
          end
      end
  end.
Definition Produce (s : FinalizeProducerState) (w : W) : result string output * FinalizeProducerState * W :=
  match LogKey s with
  | _ :: _ => produceFromLog s w
  | [] =>
      match batches s !! BatchIdx s with
      | None => (Ok Finished, finished_inline s, w)
      | Some batch => (Ok (Emitted batch (CacheMeta s)), emitted_inline s, w)
      end
  end.

(** *** Tokens *)

(** The batches not sent yet go to the log under a fresh key, when there are at
    least two and every append succeeds; else the stream stays as it is. *)
Definition append_all (h : Handle) (key : bytes) (l : list bytes) : M W () :=
  each (fun data => _ ← appendState backend ForShard StateLogStorage h key data; mret ()) l.
Definition offloaded (key : bytes) (s : FinalizeProducerState) : FinalizeProducerState :=
  {| recipe := recipe s; BatchIPC := []; BatchIdx := 0; batches := []; LogKey := key; LogCursor := -1;
     storage := storage s; CacheMeta := CacheMeta s |}.
Definition offloadFlush (key : bytes) (s : FinalizeProducerState) (w : W) : FinalizeProducerState * W :=
  match LogKey s, storage s with
  | [], Some h =>
      let remaining := drop (min (BatchIdx s) (length (BatchIPC s))) (BatchIPC s) in
      if (length remaining <? 2)%nat then (s, w) else
      match append_all h key remaining w with
      | (Ok _, w) => (offloaded key s, w)
      | (Err _, w) => (s, w)
      end
  | _, _ => (s, w)
  end.
Definition wire_of (s : FinalizeProducerState) : finalizeProducerWire :=
  {| wire_recipe := recipe s; wire_BatchIPC := BatchIPC s; wire_BatchIdx := BatchIdx s; wire_LogKey := LogKey s;
     wire_LogCursor := LogCursor s; wire_CacheMeta := CacheMeta s |}.
Definition GobEncode (key : bytes) (s : FinalizeProducerState) (w : W) : finalizeProducerWire * W :=
  let '(s, w) := offloadFlush key s w in (wire_of s, w).
Definition GobDecode (t : finalizeProducerWire) : FinalizeProducerState :=
  {| recipe := wire_recipe t; BatchIPC := wire_BatchIPC t; BatchIdx := wire_BatchIdx t; batches := []; LogKey := wire_LogKey t;
     LogCursor := wire_LogCursor t; storage := None; CacheMeta := wire_CacheMeta t |}.

(** A cold worker reopens the storage of an offloaded flush, or decodes the
    batches the token carries. [reopen] is [getOrCreateStorage] there. *)
Definition rehydrateFinalize (reopen : Recipe -> result string Handle) (s : FinalizeProducerState) : result string FinalizeProducerState :=
  match LogKey s with
  | _ :: _ =>
      let? h := reopen (recipe s) in
      Ok {| recipe := recipe s; BatchIPC := BatchIPC s; BatchIdx := BatchIdx s; batches := batches s; LogKey := LogKey s;
            LogCursor := LogCursor s; storage := Some h; CacheMeta := CacheMeta s |}
  | [] =>
      let? l := map_result DeserializeRecordBatch (BatchIPC s) in
      Ok {| recipe := recipe s; BatchIPC := BatchIPC s; BatchIdx := BatchIdx s; batches := l; LogKey := LogKey s;
            LogCursor := LogCursor s; storage := storage s; CacheMeta := CacheMeta s |}
  end.

(** ** Streams

    Live in a worker, or a token in the client's hands. A token whose
    resumption fails stays with the client. Other calls on the storage come
    between. *)
Inductive stream := Live (s : FinalizeProducerState) | Token (t : finalizeProducerWire).
Inductive turn : Type :=
| Next
| Suspend (key : bytes)
| Resume (reopen : Recipe -> result string Handle)
| Other {A : Type} (o : op A).

(** The turn's answer, if it is one that answers. *)
Definition take_turn (b : B) (a : turn) (x : stream) (w : W) : option (result string output) * stream * W :=
  match a, x with
  | Next, Live s => let '(r, s, w) := Produce s w in (Some r, Live s, w)
  | Suspend key, Live s => let '(t, w) := GobEncode key s w in (None, Token t, w)
  | Resume reopen, Token t =>
      match rehydrateFinalize reopen (GobDecode t) with
      | Ok s => (None, Live s, w)
      | Err e => (Some (Err e), Token t, w)
      end
  | Other o, _ => (None, x, (@call W (backend b) _ o w).2)
  | _, _ => (None, x, w)
  end.
Fixpoint take_turns (b : B) (l : list turn) (x : stream) (w : W) : list (result string output) * stream * W :=
  match l with
  | [] => ([], x, w)
  | a :: l =>
      let '(r, x, w) := take_turn b a x w in
      let '(rs, x, w) := take_turns b l x w in
      (match r with Some r => r :: rs | None => rs end, x, w)
  end.
End drain.

(** ** The log *)

Section logs.
Context (e : bytes).

Definition log_row : Type := Z * (bytes * bytes).
(** Row IDs rise and stay below the last one given. *)
Definition log_ordered (st : store) : Prop :=
  StronglySorted Z.lt (logs st e).*1 /\ Forall (fun r : log_row => 0 <= r.1 <= lastLog st)%Z (logs st e) /\ (0 <= lastLog st)%Z.
Definition rows_after (l : list log_row) (key : bytes) (after : Z) : list log_row :=
  List.filter (fun r => bool_decide (r.2.1 = key) && (after <? r.1)%Z) l.
Definition unused (st : store) (key : bytes) : Prop := Forall (fun r : log_row => r.2.1 <> key) (logs st e).

(** Calls of others that keep the rows under the keys. *)
Definition spares (keys : list bytes) {A} (o : op A) : Prop :=
  match o with
  | StateAppend e' k _ => e' <> e \/ k ∉ keys
  | StateLogClear e' | ExecutionClear e' => e' <> e
  | _ => True
  end.
(** The log of [st'] is the log of [st] with rows behind it. *)
Definition grows (P : log_row -> Prop) (st st' : store) (rows : list log_row) : Prop :=
  logs st' e = logs st e ++ rows /\ Forall P rows /\ log_ordered st'.

Lemma grows_nil P st : log_ordered st -> grows P st st [].
Proof. intros Ho. unfold grows. by rewrite app_nil_r. Qed.
Lemma append_grows st k v : log_ordered st ->
  grows (fun r => r.2.1 = k) st (spec (StateAppend e k v) st).2 [((lastLog st + 1)%Z, (k, v))].
Proof.
  intros (Hs & Hb & Hl). split; [|split]; cbn [spec snd logs with_logs lastLog].
  - by rewrite fn_insert_at, decide_True.
  - by constructor.
  - unfold log_ordered. cbn [logs with_logs lastLog]. rewrite fn_insert_at, decide_True by done. split_and!.
    + rewrite fmap_app. apply StronglySorted_app_2; [|done|by repeat constructor].
      intros x y Hx Hy. apply list_elem_of_fmap in Hx as (r & -> & Hr). apply list_elem_of_singleton in Hy as ->.
      rewrite Forall_forall in Hb. specialize (Hb r Hr). cbn. lia.
    + apply Forall_app. split; [eapply Forall_impl; [exact Hb|]; cbn; lia|]. constructor; [cbn; lia|constructor].
    + lia.
Qed.
Lemma append_elsewhere st e' k v : e' <> e -> log_ordered st -> grows (fun _ => True) st (spec (StateAppend e' k v) st).2 [].
Proof.
  intros Hne (Hs & Hb & Hl). unfold grows, log_ordered. cbn [spec snd logs with_logs lastLog].
  rewrite fn_insert_at, decide_False by done. rewrite app_nil_r. split_and!; try done; [|lia].
  eapply Forall_impl; [exact Hb|]. cbn. lia.
Qed.
Lemma other_grows keys {A} (o : op A) st : spares keys o -> log_ordered st ->
  exists rows, grows (fun r => r.2.1 ∉ keys) st (spec o st).2 rows.
Proof.
  intros Ho Hs. assert (forall st', logs st' e = logs st e -> lastLog st' = lastLog st -> exists rows, grows (fun r => r.2.1 ∉ keys) st st' rows) as Hsame.
  { intros st' El Ell. exists []. unfold grows, log_ordered. rewrite El, Ell, app_nil_r. by split. }
  destruct o as [| | | | | | | | | | | | | | | | | | | |e' k v|e' k after limit|e'| | | | | | | |e']; try by apply Hsame.
  - destruct (decide (e' = e)) as [->|Hne]; [|destruct (append_elsewhere st e' k v Hne Hs) as (H1 & _ & H3); by exists []; split].
    destruct (append_grows st k v Hs) as (H1 & H2 & H3). eexists. split; [exact H1|]. split; [|exact H3].
    constructor; [|constructor]. cbn. by destruct Ho.
  - apply Hsame; [|done]. cbn. by rewrite fn_insert_at, decide_False by done.
  - apply Hsame; [|done]. cbn. by rewrite fn_insert_at, decide_False by done.
Qed.

Lemma rows_after_app l k key after : rows_after (l ++ k) key after = rows_after l key after ++ rows_after k key after.
Proof. apply List.filter_app. Qed.
Lemma rows_after_other l key after : Forall (fun r : log_row => r.2.1 <> key) l -> rows_after l key after = [].
Proof. unfold rows_after. induction 1 as [|r l Hr _ IH]; [done|]. cbn. by rewrite bool_decide_false. Qed.
Lemma rows_after_all l key after : Forall (fun r : log_row => r.2.1 = key /\ (after < r.1)%Z) l -> rows_after l key after = l.
Proof.
  unfold rows_after. induction 1 as [|r l [Hk Ha] _ IH]; [done|]. cbn. rewrite bool_decide_true by done.
  rewrite (proj2 (Z.ltb_lt _ _) Ha). cbn. by f_equal.
Qed.
(** Behind the first row past a cursor are the rows past that row. *)
Lemma rows_after_next l key after r rest : StronglySorted Z.lt l.*1 -> rows_after l key after = r :: rest ->
  rows_after l key r.1 = rest.
Proof.
  unfold rows_after. induction l as [|x l IH]; intros Hs E; [done|]. cbn [fmap list_fmap] in Hs. apply StronglySorted_inv in Hs as [Hs Hx].
  assert (Forall (fun y : log_row => x.1 < y.1)%Z l) as Hlt by exact (proj1 (Forall_fmap fst (Z.lt x.1) l) Hx). clear Hx.
  cbn [List.filter] in E |- *. destruct (bool_decide (x.2.1 = key) && (after <? x.1)%Z) eqn:Ex.
  - injection E as -> <-. rewrite Z.ltb_irrefl, andb_false_r. apply andb_true_iff in Ex as [_ Ha%Z.ltb_lt].
    clear IH Hs. induction Hlt as [|y l Hy _ IHl]; [done|]. cbn. rewrite IHl.
    by rewrite (proj2 (Z.ltb_lt r.1 y.1)), (proj2 (Z.ltb_lt after y.1)) by lia.
  - rewrite (IH Hs E). assert (r ∈ l) as Hr.
    { apply list_elem_of_In. eapply (List.filter_In (fun r => bool_decide (r.2.1 = key) && (after <? r.1)%Z)). rewrite E. by left. }
    rewrite Forall_forall in Hlt. specialize (Hlt r Hr). by rewrite (proj2 (Z.ltb_ge r.1 x.1)), andb_false_r by lia.
Qed.
End logs.

(** ** Every batch once, in order *)

Section correct.
Context {W B : Type} (backend : B -> FunctionStorage W) (ForShard : B -> option (string -> B)) (StateLogStorage : B -> bool).
Context {Batch Recipe Metadata : Type} (DeserializeRecordBatch : bytes -> result string Batch).
Context (b : B) (e : bytes) (contract : @StorageContract W (backend b)) (He : ~ @attach_scope W _ contract e).
(** The flush, as it was serialized, and the keys its log may be written under. *)
Context (ds : list bytes) (bs : list Batch) (Hds : Forall2 (fun d batch => DeserializeRecordBatch d = Ok batch) ds bs).
Context (cm : option Metadata) (keys : list bytes).
Let State : Type := FinalizeProducerState (B := B) (Batch := Batch) (Recipe := Recipe) (Metadata := Metadata).
Let Wire : Type := finalizeProducerWire (Recipe := Recipe) (Metadata := Metadata).
Let opens (h : ExecutionStorage (B := B)) : Prop := resolve ForShard h = Ok (b, e).
Let represented := @represents W _ contract.

(** The first [k] batches were sent. *)
Definition placed (k : nat) (t : Wire) (st : store) : Prop :=
  wire_CacheMeta t = cm /\
  match wire_LogKey t with
  | [] => wire_BatchIPC t = ds /\ wire_BatchIdx t = k
  | _ :: _ => wire_LogKey t ∈ keys /\ map (fun r : log_row => r.2.2) (rows_after (logs st e) (wire_LogKey t) (wire_LogCursor t)) = drop k ds
  end.
Definition live (k : nat) (s : State) (st : store) : Prop :=
  k <= length bs /\ placed k (wire_of s) st /\ (forall h, storage s = Some h -> opens h) /\
  (LogKey s = [] -> batches s = bs \/ batches s = [] /\ k = length bs).

Lemma append_all_grows h key l : opens h -> forall w st, represented w st -> log_ordered e st ->
  exists st' rows, represented (append_all backend ForShard StateLogStorage h key l w).2 st' /\ grows e (fun r => r.2.1 = key) st st' rows /\
    ((append_all backend ForShard StateLogStorage h key l w).1 = Ok () -> map (fun r : log_row => r.2.2) rows = l).
Proof using He.
  intros Hh. induction l as [|d l IH]; intros w st Hr Ho.
  { exists st, []. split; [done|]. split; [by apply grows_nil|done]. }
  assert (append_all backend ForShard StateLogStorage h key (d :: l) w =
    match appendState backend ForShard StateLogStorage h key d w with
    | (Ok _, w) => append_all backend ForShard StateLogStorage h key l w | (Err err, w) => (Err err, w) end) as ->.
  { unfold append_all. cbn [each]. unfold mbind, M_bind. by destruct (appendState _ _ _ _ _ _ w) as [[]]. }
  unfold appendState, stateLog. rewrite Hh. destruct (StateLogStorage b) eqn:Esl; cycle 1.
  { exists st, []. split; [done|]. split; [by apply grows_nil|done]. }
  pose proof (call_serves (StorageContract := contract) (StateAppend e key d) He w st Hr) as Hc.
  destruct (call (StateAppend e key d) w) as [[id|err] w1]; cycle 1.
  { exists st, []. split; [done|]. split; [by apply grows_nil|done]. }
  destruct Hc as [_ Hr1]. destruct (append_grows e st key d Ho) as (El & Hall & Ho1). cbn [mret M_ret].
  destruct (IH w1 _ Hr1 Ho1) as (st' & rows & Hr' & (El' & Hall' & Ho') & Hok).
  exists st', (((lastLog st + 1)%Z, (key, d)) :: rows). split; [exact Hr'|]. split.
  - split; [by rewrite El', El, <- app_assoc|]. split; [by constructor|done].
  - intros E. cbn. f_equal. apply Hok, E.
Qed.

(** Rows under other keys do not move a stream. *)
Lemma placed_grows k t st st' rows : placed k t st -> grows e (fun r => r.2.1 ∉ keys) st st' rows -> placed k t st'.
Proof using.
  intros [Hm Hp] (El & Hall & _). split; [done|]. destruct (wire_LogKey t) as [|c key] eqn:Ek; [done|]. destruct Hp as [Hk Hp]. split; [done|].
  rewrite El, rows_after_app, (rows_after_other rows), app_nil_r; [done|]. eapply Forall_impl; [exact Hall|]. cbn. congruence.
Qed.
Lemma placed_inline k t st st' : wire_LogKey t = [] -> placed k t st -> placed k t st'.
Proof using. unfold placed. by intros ->. Qed.

Lemma ds_length : length ds = length bs.
Proof using Hds. by apply Forall2_length in Hds. Qed.

(** What a turn's answer says when [k] batches were sent before it. *)
Definition answers (k k' : nat) (r : option (result string (output (Batch := Batch) (Metadata := Metadata)))) : Prop :=
  match r with
  | Some (Ok (Emitted batch m)) => k' = S k /\ bs !! k = Some batch /\ m = cm
  | Some (Ok Finished) => k' = k /\ k = length bs
  | Some (Err _) | None => k' = k
  end.

Lemma produce_log k (s : State) st w : live k s st -> LogKey s <> [] -> represented w st -> log_ordered e st ->
  let '(r, s', w') := produceFromLog backend ForShard StateLogStorage DeserializeRecordBatch s w in
  exists k', represented w' st /\ live k' s' st /\ answers k k' (Some r).
Proof using He Hds.
  intros Hlive Hkey Hr [Hsort Hb]. unfold produceFromLog. destruct (storage s) as [h|] eqn:Eh; [|by exists k].
  destruct Hlive as (Hk & Hp & Hst & Hin). unfold scanLog, stateLog. rewrite (Hst h Eh).
  destruct (StateLogStorage b); [|by exists k]. set (o := StateLogScan e (LogKey s) (LogCursor s) 1).
  pose proof (call_serves (StorageContract := contract) o He w st Hr) as Hc. destruct (call o w) as [[entries|err] w1]; [|by exists k].
  destruct Hc as [-> Hr1]. unfold placed in Hp. cbn [wire_of wire_LogKey wire_CacheMeta wire_LogCursor] in Hp.
  unfold o in *. cbn [spec fst snd] in *. change (0 <? 1)%Z with true. cbn match. change (Z.to_nat 1) with 1.
  fold (rows_after (logs st e) (LogKey s) (LogCursor s)). destruct Hp as [Hm Hp].
  destruct (LogKey s) as [|c key] eqn:Ek; [done|]. destruct Hp as [Hkeys Hp].
  destruct (rows_after (logs st e) (c :: key) (LogCursor s)) as [|row rest] eqn:Erows; cbn [take map].
  - exists k. split; [done|]. split; [|split; [done|]].
    + split; [done|]. split; [|split; [done|by rewrite Ek]]. split; [done|]. cbn. rewrite Ek. split; [done|]. by rewrite Erows.
    + assert (length (drop k ds) = 0) as Hd by (by rewrite <- Hp). rewrite length_drop, ds_length in Hd. lia.
  - cbn [LogValue LogID]. assert (ds !! k = Some row.2.2) as Hdk by (rewrite <- (Nat.add_0_r k), <- lookup_drop, <- Hp; done).
    destruct (Forall2_lookup_l _ _ _ _ _ Hds Hdk) as (batch & Hbk & ->). exists (S k). split; [done|]. split; [|done].
    apply lookup_lt_Some in Hbk as Hlt. split; [done|]. split; [|split; [done|by cbn; rewrite Ek]]. split; [done|]. cbn. rewrite Ek.
    split; [done|]. rewrite (rows_after_next _ _ _ _ _ Hsort Erows). rewrite (drop_S _ _ _ Hdk) in Hp. by injection Hp.
Qed.
Lemma produce_keeps k (s : State) st w : live k s st -> represented w st -> log_ordered e st ->
  let '(r, s', w') := Produce backend ForShard StateLogStorage DeserializeRecordBatch s w in
  exists k', represented w' st /\ live k' s' st /\ answers k k' (Some r).
Proof using He Hds.
  intros Hlive Hr Ho. unfold Produce. destruct (LogKey s) as [|c key] eqn:Ek; [|by apply produce_log; rewrite ?Ek].
  destruct Hlive as (Hk & [Hm Hp] & Hst & Hin). cbn [wire_of wire_LogKey wire_CacheMeta wire_BatchIPC wire_BatchIdx] in *. rewrite Ek in Hp.
  destruct Hp as [Hipc Hidx]. rewrite Hidx. specialize (Hin Ek). destruct (batches s !! k) as [batch|] eqn:Eb.
  - destruct Hin as [Hin|[Hin _]]; [|by rewrite Hin in Eb]. rewrite Hin in Eb. apply lookup_lt_Some in Eb as Hlt. exists (S k).
    split; [done|]. split; [|done]. split; [done|]. split; [|split; [done|by left]]. split; [done|]. cbn. rewrite Ek. split; [done|by f_equal].
  - exists k. assert (k = length bs) as Hfin.
    { destruct Hin as [Hin|[_ Hin]]; [|done]. rewrite Hin in Eb. apply lookup_ge_None in Eb. lia. }
    split; [done|]. split; [|done]. split; [done|]. split; [|split; [done|by right]]. split; [done|]. cbn. by rewrite Ek.
Qed.

(** Writing a token under a fresh key; rows appear under that key alone. *)
Lemma suspend_keeps k (s : State) st w key : live k s st -> represented w st -> log_ordered e st ->
  key <> [] -> key ∈ keys -> unused e st key ->
  let '(t, w') := GobEncode backend ForShard StateLogStorage key s w in
  exists st' rows, represented w' st' /\ placed k t st' /\ grows e (fun r => r.2.1 = key) st st' rows.
Proof using He Hds.
  intros (Hk & Hp & Hst & Hin) Hr Ho Hne Hkey Hun. unfold GobEncode, offloadFlush.
  destruct (LogKey s) as [|c lk] eqn:Ek; [|exists st, []; split; [done|]; split; [done|by apply grows_nil]].
  destruct (storage s) as [h|] eqn:Eh; [|exists st, []; split; [done|]; split; [done|by apply grows_nil]].
  destruct (_ <? 2)%nat; [exists st, []; split; [done|]; split; [done|by apply grows_nil]|].
  set (l := drop _ _). destruct (append_all_grows h key l (Hst h eq_refl) w st Hr Ho) as (st' & rows & Hr' & Hg & Hok).
  destruct (append_all _ _ _ h key l w) as [[[]|err] w'] eqn:Ea; cbn [fst snd] in *; exists st', rows; (split; [done|]); (split; [|done]).
  - destruct Hp as [Hm Hp]. cbn [wire_of wire_LogKey wire_CacheMeta wire_BatchIPC wire_BatchIdx] in *. rewrite Ek in Hp. destruct Hp as [Hipc Hidx].
    split; [done|]. cbn. destruct key as [|x key]; [done|]. split; [done|]. destruct Hg as (El & Hall & (_ & Hb & _)).
    rewrite El, rows_after_app, rows_after_other by done. rewrite rows_after_all.
    + cbn [app]. rewrite (Hok eq_refl). unfold l. rewrite Hipc, Hidx, ds_length. by rewrite Nat.min_l.
    + rewrite El in Hb. apply Forall_app in Hb as [_ Hb]. rewrite Forall_forall in *. intros r Hr0. split; [by apply Hall|].
      specialize (Hb r Hr0). cbn in Hb. lia.
  - by apply (placed_inline _ _ st).
Qed.
Lemma resume_keeps k (t : Wire) st reopen : k <= length bs -> placed k t st -> (forall r h, reopen r = Ok h -> opens h) ->
  match rehydrateFinalize DeserializeRecordBatch reopen (GobDecode t) with Ok s => live k s st | Err _ => True end.
Proof using Hds.
  intros Hk [Hm Hp] Hre. unfold rehydrateFinalize, GobDecode. cbn [LogKey recipe BatchIPC].
  destruct (wire_LogKey t) as [|c key] eqn:Ek.
  - destruct (map_result DeserializeRecordBatch (wire_BatchIPC t)) as [l|] eqn:El; [|done]. destruct Hp as [Hipc Hidx].
    split; [done|]. split; [by split; cbn; rewrite ?Ek|]. split; [done|]. intros _. left. cbn. rewrite Hipc in El.
    apply map_result_inv in El. clear -El Hds. revert bs Hds. induction El as [|d x ds l Hd _ IH]; intros bs Hb; inversion Hb; subst; [done|].
    f_equal; [congruence|by apply IH].
  - destruct (reopen _) as [h|] eqn:Eh; [|done]. split; [done|]. split; [by split; cbn; rewrite ?Ek|].
    split; [|by cbn]. cbn. intros h' [= <-]. by eapply Hre.
Qed.

Definition sent_up_to (k : nat) (x : stream (B := B) (Batch := Batch) (Recipe := Recipe) (Metadata := Metadata)) (st : store) : Prop :=
  k <= length bs /\ match x with Live s => live k s st | Token t => placed k t st end.
(** The calls of others are the contract's and spare the keys; a reopened storage
    is the execution's; a token is written under a key of the list. *)
Definition fair (a : turn (B := B) (Recipe := Recipe)) : Prop :=
  match a with
  | Next => True
  | Suspend key => key <> [] /\ key ∈ keys
  | Resume reopen => forall r h, reopen r = Ok h -> opens h
  | Other o => admissible (@attach_scope W _ contract) o /\ spares e keys o
  end.
Definition written (a : turn (B := B) (Recipe := Recipe)) : option bytes := match a with Suspend key => Some key | _ => None end.

Lemma turn_keeps k x st w a : sent_up_to k x st -> represented w st -> log_ordered e st -> fair a ->
  (forall key, written a = Some key -> unused e st key) ->
  let '(r, x', w') := take_turn backend ForShard StateLogStorage DeserializeRecordBatch b a x w in
  exists k' st', represented w' st' /\ log_ordered e st' /\ sent_up_to k' x' st' /\ answers k k' r /\
    forall key, key ∈ keys -> written a <> Some key -> unused e st key -> unused e st' key.
Proof using He Hds.
  intros [Hk Hx] Hr Ho Hf Hun. destruct a as [|key|reopen|A o]; cbn [take_turn fair written] in *.
  - destruct x as [s|t]; [|by exists k, st]. pose proof (produce_keeps k s st w Hx Hr Ho) as Hp.
    destruct (Produce _ _ _ _ s w) as [[r s'] w']. destruct Hp as (k' & Hr' & Hl & Ha). exists k', st. split_and!; try done. by destruct Hl.
  - destruct x as [s|t]; [|by exists k, st]. destruct Hf as [Hne Hin].
    pose proof (suspend_keeps k s st w key Hx Hr Ho Hne Hin (Hun key eq_refl)) as Hp. destruct (GobEncode _ _ _ key s w) as [t w'].
    destruct Hp as (st' & rows & Hr' & Hp & (El & Hall & Ho')). exists k, st'. split_and!; try done.
    intros key' _ Hne' Hun'. unfold unused. rewrite El. apply Forall_app. split; [done|]. eapply Forall_impl; [exact Hall|]. cbn. congruence.
  - destruct x as [s|t]; [by exists k, st|]. pose proof (resume_keeps k t st reopen Hk Hx Hf) as Hp.
    destruct (rehydrateFinalize _ _ _) as [s|err]; by exists k, st.
  - destruct Hf as [Hadm Hsp]. pose proof (call_serves (StorageContract := contract) o Hadm w st Hr) as Hc.
    assert (exists st' rows, represented (@call W (backend b) _ o w).2 st' /\ grows e (fun r => r.2.1 ∉ keys) st st' rows) as (st' & rows & Hr' & Hg).
    { destruct (call o w) as [[v|err] w']; [|exists st, []; split; [done|by apply grows_nil]]. destruct Hc as [_ Hr'].
      destruct (other_grows e keys o st Hsp Ho) as [rows Hg]. by exists (spec o st).2, rows. }
    assert (forall key, key ∈ keys -> unused e st key -> unused e st' key) as Hkeep.
    { destruct Hg as (El & Hall & _). intros key Hkey Hu. unfold unused. rewrite El. apply Forall_app. split; [done|].
      eapply Forall_impl; [exact Hall|]. cbn. congruence. }
    destruct x as [s|t]; cbn [snd]; exists k, st'; (split; [done|]); (split; [by apply Hg|]); (split; [split; [done|]|split; [done|auto]]).
    + destruct Hx as (_ & Hp & Hrest). split; [done|]. split; [by eapply placed_grows|done].
    + by eapply placed_grows.
Qed.
Definition Answer : Type := result string (output (Batch := Batch) (Metadata := Metadata)).
Definition emitted (rs : list Answer) : list (Batch * option Metadata) :=
  omap (fun r => match r with Ok (Emitted batch m) => Some (batch, m) | _ => None end) rs.
Definition finished (rs : list Answer) : Prop := Exists (fun r => r = Ok Finished) rs.
Definition succeeded (rs : list Answer) : nat := length (List.filter is_ok rs).

Lemma succeeded_emitted rs : succeeded rs <= length (emitted rs) \/ finished rs.
Proof using.
  unfold succeeded, finished, emitted. induction rs as [|r rs IH]; [by left|]. destruct r as [[batch m|]|err]; cbn; [|by right; left|].
  - destruct IH as [IH|IH]; [left; cbn; lia|by right; right].
  - destruct IH as [IH|IH]; [by left|by right; right].
Qed.

Lemma written_in_keys l key : Forall fair l -> key ∈ omap written l -> key ∈ keys.
Proof using.
  intros Hf Hin. apply list_elem_of_omap in Hin as (a & Ha & Ew). apply (proj1 (Forall_forall _ _) Hf) in Ha.
  destruct a; try done. cbn in *. injection Ew as ->. by destruct Ha.
Qed.
Lemma turns_keep l : forall k x st w, sent_up_to k x st -> represented w st -> log_ordered e st -> Forall fair l ->
  NoDup (omap written l) -> Forall (unused e st) (omap written l) ->
  let '(rs, _, _) := take_turns backend ForShard StateLogStorage DeserializeRecordBatch b l x w in
  exists k', k <= k' <= length bs /\ emitted rs = map (fun batch => (batch, cm)) (take (k' - k) (drop k bs)) /\ (finished rs -> k' = length bs).
Proof using He Hds.
  induction l as [|a l IH]; intros k x st w Hx Hr Ho Hf Hnd Hun; cbn [take_turns].
  { exists k. rewrite Nat.sub_diag. destruct Hx as [Hk _]. split; [done|]. split; [done|]. intros Hfin. by apply Exists_nil in Hfin. }
  apply Forall_cons in Hf as [Hfa Hf].
  assert (forall key, written a = Some key -> unused e st key) as Ha.
  { intros key Ew. cbn in Hun. rewrite Ew in Hun. by apply Forall_cons in Hun as [? _]. }
  pose proof (turn_keeps k x st w a Hx Hr Ho Hfa Ha) as Hturn. destruct (take_turn _ _ _ _ b a x w) as [[r x1] w1].
  destruct Hturn as (k1 & st1 & Hr1 & Ho1 & Hx1 & Hans & Hkeep).
  assert (NoDup (omap written l) /\ Forall (unused e st1) (omap written l)) as [Hnd1 Hun1].
  { assert (forall key, key ∈ omap written l -> written a <> Some key -> unused e st key -> unused e st1 key) as Hrest
      by (intros key Hin; apply Hkeep; by apply (written_in_keys l)).
    cbn in Hnd, Hun. destruct (written a) as [key|].
    - apply NoDup_cons in Hnd as [Hni Hnd]. apply Forall_cons in Hun as [_ Hun]. split; [done|].
      apply Forall_forall. intros key' Hin. apply Hrest; [done|congruence|]. by apply (proj1 (Forall_forall _ _) Hun).
    - split; [done|]. apply Forall_forall. intros key' Hin. apply Hrest; [done..|]. by apply (proj1 (Forall_forall _ _) Hun). }
  specialize (IH k1 x1 st1 w1 Hx1 Hr1 Ho1 Hf Hnd1 Hun1). destruct (take_turns _ _ _ _ b l x1 w1) as [[rs x2] w2].
  destruct IH as (k' & Hk' & Hem & Hfin). exists k'.
  destruct r as [[[batch m|]|err]|]; cbn in Hans.
  - destruct Hans as (-> & Hb & ->). split; [lia|]. split.
    + cbn. rewrite (drop_S _ _ _ Hb). replace (k' - k) with (S (k' - S k)) by lia. cbn. by f_equal.
    + intros Hfin'. apply Hfin. inversion Hfin'; [done|done].
  - destruct Hans as [-> ->]. split; [lia|]. split; [exact Hem|]. intros _. lia.
  - subst. split; [lia|]. split; [exact Hem|]. intros Hfin'. apply Hfin. inversion Hfin'; [done|done].
  - subst. split; [lia|]. split; [exact Hem|exact Hfin].
Qed.

(** C19: a finalize flush reaches the client once and in order, however its stream
    travels. Whatever turns, suspensions into tokens, resumptions on other
    workers and calls of other clients there are, over any backend of the storage
    contract, failing calls included: the batches sent are the first ones of the
    flush, each with the stream's metadata; the stream says it is finished only
    when all were sent; and once more turns succeeded than there are batches, all
    were. The tokens' log keys are fresh, as UUIDs are. *)
Theorem flush_sent_once (r : Recipe) (h : option (ExecutionStorage (B := B))) (turns : list turn) (w : W) (st : store) :
  represented w st -> log_ordered e st -> (forall s, h = Some s -> opens s) ->
  Forall fair turns -> NoDup (omap written turns) -> Forall (unused e st) (omap written turns) ->
  let start : State := {| recipe := r; BatchIPC := ds; BatchIdx := 0; batches := bs; LogKey := []; LogCursor := 0; storage := h; CacheMeta := cm |} in
  let '(answers, _, _) := take_turns backend ForShard StateLogStorage DeserializeRecordBatch b turns (Live start) w in
  let sent := emitted answers in
  sent = map (fun batch => (batch, cm)) (take (length sent) bs) /\
  (finished answers -> sent = map (fun batch => (batch, cm)) bs) /\
  (length bs < succeeded answers -> sent = map (fun batch => (batch, cm)) bs).
Proof using He Hds.
  intros Hr Ho Hh Hf Hnd Hun start. assert (sent_up_to 0 (Live start) st) as Hx.
  { split; [lia|]. split; [lia|]. split; [by split|]. split; [exact Hh|by left]. }
  pose proof (turns_keep turns 0 (Live start) st w Hx Hr Ho Hf Hnd Hun) as Hk.
  destruct (take_turns _ _ _ _ b turns (Live start) w) as [[rs x] w']. destruct Hk as (k & Hk & Hem & Hfin).
  rewrite Nat.sub_0_r, drop_0 in Hem. assert (length (emitted rs) = k) as Hlen by (rewrite Hem, length_map, length_take; lia).
  assert (finished rs -> emitted rs = map (fun batch => (batch, cm)) bs) as Hall
    by (intros Hd; rewrite Hem, (Hfin Hd); by rewrite take_ge by lia).
  cbn zeta. split; [by rewrite Hlen|]. split; [exact Hall|]. intros Hs. destruct (succeeded_emitted rs) as [Hle|Hd]; [lia|by apply Hall].
Qed.
End correct.

(** Three batches: one is sent, the stream is suspended, its token is resumed on
    a worker that fails and then on one that does not, and drained. *)
Module DrainExample.
Import StreamsExample.

Definition flush : list string := ["a"; "b"; "c"].
Definition stored_flush : list bytes := map sb flush.
Definition decode (d : bytes) : result string string := Ok (bstr d).
Definition token_key : bytes := sb "finalize".
Definition metadata : option string := Some "cached".
Definition cold : unit -> result string (ExecutionStorage (B := ())) := fun _ => Err "unavailable".
Definition turns : list (turn (B := ()) (Recipe := unit)) :=
  [Next; Suspend token_key; Resume cold; Resume (fun _ => Ok stream); Next; Other (StateAppend (sb "execution") (sb "mine") (sb "x")); Next; Next].
Definition start : FinalizeProducerState (B := ()) (Batch := string) (Recipe := unit) (Metadata := string) :=
  {| recipe := (); BatchIPC := stored_flush; BatchIdx := 0; batches := flush; LogKey := []; LogCursor := 0; storage := Some stream;
     CacheMeta := metadata |}.
Definition drained : list (result string (output (Batch := string) (Metadata := string))) :=
  (take_turns backend (fun _ => None) (fun _ => true) decode () turns (Live start) (open [])).1.1.

Lemma flush_sent_once_witness :
  drained = [Ok (Emitted "a" metadata); Err "unavailable"; Ok (Emitted "b" metadata); Ok (Emitted "c" metadata); Ok Finished] /\
  emitted drained = map (fun batch => (batch, metadata)) flush.
Proof.
  assert (drained = [Ok (Emitted "a" metadata); Err "unavailable"; Ok (Emitted "b" metadata); Ok (Emitted "c" metadata); Ok Finished]) as E
    by (vm_compute; reflexivity).
  split; [exact E|].
  pose proof (flush_sent_once backend (fun _ => None) (fun _ => true) decode () (sb "execution") (sqliteContract (fun s => s = sb "attach"))
    ltac:(intros C; discriminate C) stored_flush flush ltac:(repeat constructor) metadata [token_key] tt (Some stream) turns (open []) empty_store) as T.
  cbv zeta in T. change (take_turns backend (fun _ => None) (fun _ => true) decode () turns (Live _) (open []))
    with (take_turns backend (fun _ => None) (fun _ => true) decode () turns (Live start) (open [])) in T.
  unfold drained in *. destruct (take_turns _ _ _ _ _ turns (Live start) (open [])) as [[rs x] w']. cbn [fst] in *.
  apply T.
  - apply open_represents.
  - split; [constructor|]. split; [constructor|cbn; lia].
  - intros s C. injection C as <-. reflexivity.
  - apply List.Forall_cons; [exact I|].
    apply List.Forall_cons; [split; [intros C; discriminate C|apply list_elem_of_singleton; reflexivity]|].
    apply List.Forall_cons; [intros r s C; discriminate C|]. apply List.Forall_cons; [intros r s C; injection C as <-; reflexivity|].
    apply List.Forall_cons; [exact I|]. apply List.Forall_cons; [split; [intros C; discriminate C|]|].
    { right. intros C. apply list_elem_of_singleton in C. discriminate C. }
    repeat (apply List.Forall_cons; [exact I|]). constructor.
  - repeat constructor. apply not_elem_of_nil.
  - repeat constructor.
  - rewrite E. vm_compute. lia.
Defined.
End DrainExample.
