(* ===== verification/Aggregate.v ===== *)
(** * Aggregate: aggregates whose state lives in shared storage
    (vgi/aggregate.go, vgi/aggregate_storage.go, vgi/aggregate_protocol.go)

    The engine spreads one aggregation over several worker processes: batches
    of rows update per-group states, groups are merged, results are finalized,
    each by whichever process gets the request. No process keeps a state: it is
    loaded from the shared storage, changed by the function, and saved. *)

From stdpp Require Import functions.
From S2P Require Import Prelude Bytes Strings Unicode Strconv ArrowTypes ArrowData.
From S2P Require Import Arguments ArgConstraints Envelope CatalogContents CatalogRoute Overload Storage Sqlite SqliteStorage.

(** ** The backend a process uses *)

(** How a request of an aggregate ends, other than well. A panic ends it too. *)
Inductive agg_error :=
| AttachError (e : shard_error)
| NotResolved (e : resolve_error)
| BadArguments (e : ArgumentError)
| StorageFailed (e : string)
| Failure (message : string)
| AggPanic (what : string).

Section storage.
(** Backends, what they are over the shared world, and how they are pinned to
    a shard. *)
Context {W B : Type} (backend : B -> FunctionStorage W) (ForShard : B -> option (string -> B)).

(** [resolve] is nil until the worker sets it; calling it gives the backend, or
    an error. *)
Record aggregateStorage := { back : option B; resolve : option (result string B) }.

Definition newAggregateStorage : aggregateStorage := {| back := None; resolve := None |}.
Definition setResolver (s : aggregateStorage) (r : result string B) : aggregateStorage :=
  {| back := back s; resolve := Some r |}.

(** A request runs over the process's storage shim and the shared world. *)
Definition Serving (A : Type) : Type := aggregateStorage * W -> result agg_error A * (aggregateStorage * W).

#[global] Instance Serving_ret : MRet Serving := fun A a w => (Ok a, w).
#[global] Instance Serving_bind : MBind Serving := fun A B k m w =>
  match m w with
  | (Ok a, w) => k a w
  | (Err e, w) => (Err e, w)
  end.
Definition stop {A} (e : agg_error) : Serving A := fun w => (Err e, w).
(** A step that does not touch the storage. *)
Definition step {A} (wrap : string -> agg_error) (r : result string A) : Serving A := fun w =>
  match r with Ok a => (Ok a, w) | Err e => (Err (wrap e), w) end.
Definition failing (prefix e : string) : agg_error := Failure (prefix +:+ e).

(** The two critical sections of [ensureOpen]: a look at the cached backend,
    and, after resolving one, keeping the first that was cached. *)
Definition cached (s : aggregateStorage) : option B := back s.
Definition cache (s : aggregateStorage) (b : B) : B * aggregateStorage :=
  match back s with
  | None => (b, {| back := Some b; resolve := resolve s |})
  | Some b' => (b', s)
  end.
Definition ensureOpen : Serving B := fun '(s, w) =>
  match cached s with
  | Some b => (Ok b, (s, w))
  | None =>
      match resolve s with
      | None => (Err (StorageFailed "aggregateStorage: backend resolver not set (Worker should call setResolver)"), (s, w))
      | Some (Err e) => (Err (StorageFailed e), (s, w))
      | Some (Ok b) => let '(b, s) := cache s b in (Ok b, (s, w))
      end
  end.

(** ** Buckets *)

Record stateBucket := { functionName : string; executionID : bytes; shardKey : string }.

Definition bucket_backend (b : stateBucket) : Serving B :=
  back ← ensureOpen;
  mret (if bool_decide (shardKey b = "") then back
        else match ForShard back with Some pin => pin (shardKey b) | None => back end).

(** A call on the bucket's backend. *)
Definition on {A} (b : B) (o : op A) : Serving A := fun '(s, w) =>
  match backend b A o w with
  | (Ok a, w) => (Ok a, (s, w))
  | (Err e, w) => (Err (StorageFailed e), (s, w))
  end.

(** A missing group answers the zero entry, whose state is nil. *)
Definition states_of (entries : list (option AggregateStateEntry)) : gmap Z bytes :=
  foldl (fun out en => match en with Some en => <[GroupID en := GroupState en]> out | None => out end)
    ∅ entries.

Definition loadStates (b : stateBucket) (gids : list Z) : Serving (gmap Z bytes) :=
  back ← bucket_backend b;
  match gids with
  | [] => mret ∅
  | _ => entries ← on back (AggregateStateGet (executionID b) gids); mret (states_of entries)
  end.

(** The order in which [range] visits a map; each run of the program has some. *)
Context (range : forall V, gmap Z V -> list (Z * V)).

Definition entries_of (states : gmap Z bytes) : list AggregateStateEntry :=
  map (fun gd => {| GroupID := fst gd; GroupState := snd gd |}) (range bytes states).

Definition saveStates (b : stateBucket) (states : gmap Z bytes) : Serving () :=
  back ← bucket_backend b;
  if bool_decide (size states = 0%nat) then mret ()
  else on back (AggregateStatePut (executionID b) (entries_of states)).

Definition clear (b : stateBucket) : Serving () :=
  back ← bucket_backend b;
  _ ← on back (AggregateStateClear (executionID b));
  on back (AggregateWindowPartitionClear (executionID b)).

Definition putConstArgs (b : stateBucket) (args : bytes) : Serving () :=
  back ← bucket_backend b; on back (AggregateConstArgsPut (executionID b) (functionName b) args).
Definition getConstArgs (b : stateBucket) : Serving (option bytes) :=
  back ← bucket_backend b; on back (AggregateConstArgsGet (executionID b) (functionName b)).
Definition putWindowPartition (b : stateBucket) (partitionID : Z) (payload : bytes) : Serving () :=
  back ← bucket_backend b; on back (AggregateWindowPartitionPut (executionID b) partitionID payload).
Definition getWindowPartition (b : stateBucket) (partitionID : Z) : Serving (option bytes) :=
  back ← bucket_backend b; on back (AggregateWindowPartitionGet (executionID b) partitionID).
Definition deleteWindowPartition (b : stateBucket) (partitionID : Z) : Serving () :=
  back ← bucket_backend b; on back (AggregateWindowPartitionDelete (executionID b) partitionID).
End storage.

Arguments aggregateStorage B : clear implicits.

(** ** Functions *)

Abbreviation schema_fields := (list Field).

(** The settings and the secrets are the batches their maps are read from; only
    streaming calls have them. *)
Record AggregateProcessParams := {
  ParamArgs : option Arguments;
  ParamSchema : option schema_fields;
  ParamSettings : option RecordBatch;
  ParamSecrets : option RecordBatch;
  ParamAuth : option AuthContext;
  ParamAttach : option bytes
}.

Record AggregateBindParams := {
  BindArgs : Arguments;
  BindInputSchema : option schema_fields;
  BindNames : option (list (option string));
  BindSettings : option RecordBatch;
  BindSecrets : option RecordBatch;
  BindAuth : option AuthContext
}.

Record WindowPartition := {
  Inputs : RecordBatch;
  RowCount : Z;
  FilterMask : option (list bool);
  FrameStats : (Z * Z) * (Z * Z);
  AllValid : list bool;
  PartitionSchema : schema_fields
}.

(** An aggregate over states [S]. A function that mutates the map or the state
    it is given returns what it leaves there; [OnBind] returns [None] for a nil
    response or schema; [Windowed] and [Streaming] are nil when the function is not
    an AggregateWindowFunction, or a StreamingAggregateFunction: a chunk leaves
    the session's state changed, whatever it returns. *)
Record WindowFunction (S : Type) := {
  WindowInit : WindowPartition -> AggregateProcessParams -> result string (option S);
  Window : Z -> list (Z * Z) -> WindowPartition -> option S -> AggregateProcessParams ->
    result string (option any)
}.
Record StreamingFunction (S : Type) := {
  StreamingOpen : AggregateProcessParams -> result string S;
  StreamingChunk : S -> RecordBatch -> Z -> Z -> AggregateProcessParams -> result string Array * S
}.
Record AggregateFunction (S : Type) := {
  ArgumentSpecs : list ArgSpec;
  OnBind : AggregateBindParams -> result string (option schema_fields);
  NewState : AggregateProcessParams -> S;
  Update : gmap Z S -> list Z -> list Array -> AggregateProcessParams -> result string (gmap Z S);
  Combine : S -> S -> AggregateProcessParams -> result string S;
  Finalize : list Z -> gmap Z (option S) -> AggregateProcessParams -> result string RecordBatch;
  Windowed : option (WindowFunction S);
  Streaming : option (StreamingFunction S)
}.
Arguments StreamingOpen {S}. Arguments StreamingChunk {S}. Arguments Streaming {S}.
Arguments WindowInit {S}. Arguments Window {S}. Arguments ArgumentSpecs {S}. Arguments OnBind {S}.
Arguments NewState {S}. Arguments Update {S}. Arguments Combine {S}. Arguments Finalize {S}.
Arguments Windowed {S}.

(** [EnsureState]: the states with one for the group, and that state. *)
Definition EnsureState {S} (states : gmap Z S) (gid : Z) (newFn : S) : gmap Z S * S :=
  match states !! gid with
  | Some s => (states, s)
  | None => (<[gid := newFn]> states, newFn)
  end.

(** ** Columns of the requests *)

Definition GroupColumnName : string := "__vgi_group_id".

(** [Value(i)] of an int64 column; a null slot holds 0. *)
Definition int64_value (c : cell) : Z := match c with CInt z => s64 z | _ => 0 end.

(** The int64 column at an index, its values. *)
Definition int64_column (arr : Array) : option (list Z) :=
  match ArrType arr with INT64 => Some (map int64_value (Cells arr)) | _ => None end.

Fixpoint column_index (name : string) (cols : list (Field * Array)) : option nat :=
  match cols with
  | [] => None
  | (f, _) :: cols => if bool_decide (FieldName f = name) then Some 0%nat else S <$> column_index name cols
  end.

(** The group column's index and values, and the other columns. *)
Definition splitGroupIDColumn (batch : RecordBatch) : result string (nat * list Z * list Array) :=
  match column_index GroupColumnName (Columns batch) with
  | None => Err "aggregate_update: missing __vgi_group_id column"
  | Some idx =>
      match arr ← snd <$> Columns batch !! idx; int64_column arr with
      | None => Err "aggregate_update: __vgi_group_id is not int64"
      | Some gids => Ok (idx, gids, map snd (take idx (Columns batch) ++ drop (S idx) (Columns batch)))
      end
  end.

(** [batch.Column(FieldIndices(name)[0])] as an int64 column: a missing column
    panics. *)
Definition named_int64 (prefix : string) (batch : RecordBatch) (name : string) : result agg_error (list Z) :=
  match columns_named batch name with
  | [] => Err (AggPanic "index out of range")
  | (_, arr) :: _ =>
      match int64_column arr with
      | Some l => Ok l
      | None => Err (Failure (prefix +:+ ": " +:+ name +:+ " is not int64"))
      end
  end.

(** The values of a list, each at its first place. *)
Fixpoint unique_from (seen : gset Z) (l : list Z) : list Z :=
  match l with
  | [] => []
  | v :: l => if bool_decide (v ∈ seen) then unique_from seen l else v :: unique_from ({[v]} ∪ seen) l
  end.
Definition uniqueInt64 (l : list Z) : list Z := unique_from ∅ l.

(** ** Handlers *)

Section handlers.
Context {W B : Type} (backend : B -> FunctionStorage W) (ForShard : B -> option (string -> B)).
Context (range : forall V, gmap Z V -> list (Z * V)).
Context `{Aead} `{Unicode} {Wc P X : Type}.
(** encoding/gob on states, Arrow IPC on batches and schemas, and what the
    argument checks take from the standard library. *)
Context {St : Type} (gobEncodeState : St -> result string bytes) (gobDecodeState : bytes -> result string St).
Context (DeserializeRecordBatch : bytes -> result string RecordBatch)
  (SerializeRecordBatch : RecordBatch -> result string bytes)
  (DeserializeSchema : bytes -> result string schema_fields)
  (SerializeSchema : schema_fields -> result string bytes)
  (read_ipc : bytes -> result string (list Field * option (list column))).
Context (MatchString : string -> string -> option bool).

(** The worker: what it serves and the functions it has registered. *)
Record AggregateWorker := {
  served : RouteWorker Wc P X;
  aggregates : Registry (AggregateFunction St)
}.

(** What every request carries. *)
Record AggregateRequest := {
  FunctionName : string;
  ExecutionID : bytes;
  AttachOpaqueData : option bytes;
  RequestSchemaPath : option SchemaPath
}.

Let Handler (A : Type) : Type := @Serving W B A.
Let onBucket := bucket_backend (W := W) ForShard.

Definition lookupAggregate (w : AggregateWorker) (name : string) (schemaPath : option SchemaPath)
    (attach : option bytes) (cc : option CallContext) : result resolve_error (AggregateFunction St) :=
  let schema := match schemaPath with Some p => schemaPathKey p | None => "" end in
  resolveAggregate (aggregates w) name schema (catalogOfAttachPtr (served w) attach cc).

(** The attach value is opened for its shard key, then the function is looked
    up by name. *)
Definition enter (w : AggregateWorker) (cc : option CallContext) (r : AggregateRequest)
  : result agg_error (stateBucket * AggregateFunction St) :=
  match shardKeyForAttachPtr (served w) (AttachOpaqueData r) cc with
  | Err e => Err (AttachError e)
  | Ok key =>
      match lookupAggregate w (FunctionName r) (RequestSchemaPath r) (AttachOpaqueData r) cc with
      | Err e => Err (NotResolved e)
      | Ok fn => Ok ({| functionName := FunctionName r; executionID := ExecutionID r; shardKey := key |}, fn)
      end
  end.
Definition entering (w : AggregateWorker) (cc : option CallContext) (r : AggregateRequest)
  : Handler (stateBucket * AggregateFunction St) := fun s => (enter w cc r, s).

Definition parse_fault (f : fault) : agg_error :=
  match f with Failed m => Failure ("aggregate_bind: deserialize arguments: " +:+ m) | Panicked m => AggPanic m end.

(** The arguments of the bind; an error is logged and none are given. *)
Definition loadAggArgs (b : stateBucket) : Handler (option Arguments) := fun s =>
  match getConstArgs backend ForShard b s with
  | (Err _, s) | (Ok None, s) | (Ok (Some []), s) => (Ok None, s)
  | (Ok (Some data), s) =>
      match ParseArguments read_ipc data with
      | Ok args => (Ok (Some args), s)
      | Err (Failed _) => (Ok None, s)
      | Err (Panicked m) => (Err (AggPanic m), s)
      end
  end.

Definition process_params (w : AggregateWorker) (cc : option CallContext) (r : AggregateRequest)
    (args : option Arguments) (schema : option schema_fields) : AggregateProcessParams :=
  {| ParamArgs := args; ParamSchema := schema; ParamSettings := None; ParamSecrets := None;
     ParamAuth := callAuth cc;
     ParamAttach := match AttachOpaqueData r with
                    | None => None
                    | Some a => match openAttach (seal (served w)) a cc with Ok p => Some p | Err _ => None end
                    end |}.

(** *** Bind *)

Record AggregateBindRequest := {
  bind_call : AggregateRequest;
  BoundArguments : bytes;
  InputSchemaBytes : option bytes;
  SettingsBytes : option bytes;
  SecretsBytes : option bytes;
  ArgumentNames : option (list (option string))
}.

(** Settings or secrets that do not decode are left out. *)
Definition lenient_batch (data : option bytes) : option RecordBatch :=
  match data with
  | None | Some [] => None
  | Some data => match DeserializeRecordBatch data with Ok b => Some b | Err _ => None end
  end.

(** [execID] is the UUID the worker draws. The answer is the output schema and
    the execution ID. *)
Definition handleAggregateBind (w : AggregateWorker) (cc : option CallContext)
    (req : AggregateBindRequest) (execID : bytes) : Handler (bytes * bytes) :=
  let r := bind_call req in
  '(b, fn) ← entering w cc r;
  args ← (fun s => match ParseArguments read_ipc (BoundArguments req) with
                   | Ok a => (Ok a, s) | Err f => (Err (parse_fault f), s) end);
  inputSchema ← match InputSchemaBytes req with
                | None | Some [] => mret None
                | Some data => step (failing "aggregate_bind: deserialize input_schema: ")
                                 (let? f := DeserializeSchema data in Ok (Some f))
                end;
  match ValidateAggregateConstConstraints MatchString (ArgumentSpecs fn) (Some args) with
  | Err e => stop (BadArguments e)
  | Ok _ =>
      let bp := {| BindArgs := args; BindInputSchema := inputSchema; BindNames := ArgumentNames req;
                   BindSettings := lenient_batch (SettingsBytes req);
                   BindSecrets := lenient_batch (SecretsBytes req); BindAuth := callAuth cc |} in
      resp ← step Failure (OnBind fn bp);
      match resp with
      | None => stop (Failure ("aggregate_bind: " +:+ FunctionName r +:+ ".OnBind returned nil output schema"))
      | Some schema =>
          schemaBytes ← step (failing "aggregate_bind: serialize output_schema: ") (SerializeSchema schema);
          let b := {| functionName := FunctionName r; executionID := execID; shardKey := shardKey b |} in
          _ ← (if (0 <? NumArgs args)%Z then putConstArgs backend ForShard b (BoundArguments req) else mret ());
          mret (schemaBytes, execID)
      end
  end.

(** *** Update *)

Definition decode_entry (gd : Z * bytes) : result string (Z * St) :=
  let? s := gobDecodeState (snd gd) in Ok (fst gd, s).
Definition decodeStates (stored : gmap Z bytes) : result string (gmap Z St) :=
  let? l := map_result decode_entry (range bytes stored) in Ok (list_to_map l).
Definition encode_entry (gs : Z * St) : result string (Z * bytes) :=
  let? b := gobEncodeState (snd gs) in Ok (fst gs, b).
Definition encodeStates (states : gmap Z St) : result string (gmap Z bytes) :=
  let? l := map_result encode_entry (range St states) in Ok (list_to_map l).

Definition handleAggregateUpdate (w : AggregateWorker) (cc : option CallContext)
    (r : AggregateRequest) (InputBatch : bytes) : Handler () :=
  '(b, fn) ← entering w cc r;
  batch ← step (failing "aggregate_update: deserialize input_batch: ") (DeserializeRecordBatch InputBatch);
  '(_, gids, columns) ← step Failure (splitGroupIDColumn batch);
  args ← loadAggArgs b;
  let params := process_params w cc r args None in
  stored ← loadStates backend ForShard b (uniqueInt64 gids);
  states ← step Failure (decodeStates stored);
  states ← step Failure (Update fn states gids columns params);
  toSave ← step Failure (encodeStates states);
  saveStates backend ForShard range b toSave.

(** *** Combine *)

(** One row of the merge batch: the source's state goes into the target's. *)
Definition merge_row (fn : AggregateFunction St) (params : AggregateProcessParams)
    (states : gmap Z St) (st : Z * Z) : result string (gmap Z St) :=
  match states !! fst st, states !! snd st with
  | None, None => Ok states
  | src, tgt =>
      let src := match src with Some s => s | None => NewState fn params end in
      let tgt := match tgt with Some s => s | None => NewState fn params end in
      let? merged := Combine fn src tgt params in Ok (<[snd st := merged]> states)
  end.
Fixpoint merge_rows (fn : AggregateFunction St) (params : AggregateProcessParams)
    (states : gmap Z St) (rows : list (Z * Z)) : result string (gmap Z St) :=
  match rows with
  | [] => Ok states
  | row :: rows => let? states := merge_row fn params states row in merge_rows fn params states rows
  end.

(** The targets that have a state, encoded. *)
Definition encode_target (states : gmap Z St) (gid : Z) : result string (option (Z * bytes)) :=
  match states !! gid with
  | None => Ok None
  | Some s => let? b := gobEncodeState s in Ok (Some (gid, b))
  end.
Definition encodeTargets (states : gmap Z St) (gids : list Z) : result string (gmap Z bytes) :=
  let? l := map_result (encode_target states) gids in Ok (list_to_map (omap id l)).

Definition handleAggregateCombine (w : AggregateWorker) (cc : option CallContext)
    (r : AggregateRequest) (MergeBatch : bytes) : Handler () :=
  '(b, fn) ← entering w cc r;
  batch ← step (failing "aggregate_combine: deserialize merge_batch: ") (DeserializeRecordBatch MergeBatch);
  if bool_decide (NumRows batch = 0%Z) then mret () else
  srcIDs ← (fun s => (named_int64 "aggregate_combine" batch "source_group_id", s));
  tgtIDs ← (fun s => (named_int64 "aggregate_combine" batch "target_group_id", s));
  args ← loadAggArgs b;
  let params := process_params w cc r args None in
  stored ← loadStates backend ForShard b (uniqueInt64 (srcIDs ++ tgtIDs));
  states ← step Failure (decodeStates stored);
  states ← step Failure (merge_rows fn params states (zip srcIDs tgtIDs));
  toSave ← step Failure (encodeTargets states (uniqueInt64 tgtIDs));
  saveStates backend ForShard range b toSave.

(** *** Finalize *)

(** The state of each group asked for, nil when it has none. *)
Definition decode_group (stored : gmap Z bytes) (gid : Z) : result string (Z * option St) :=
  match stored !! gid with
  | Some data => let? s := gobDecodeState data in Ok (gid, Some s)
  | None => Ok (gid, None)
  end.
Definition decodeGroups (stored : gmap Z bytes) (gids : list Z) : result string (gmap Z (option St)) :=
  let? l := map_result (decode_group stored) gids in Ok (list_to_map l).

Definition handleAggregateFinalize (w : AggregateWorker) (cc : option CallContext)
    (r : AggregateRequest) (GroupIDsBatch OutputSchema : bytes) : Handler bytes :=
  '(b, fn) ← entering w cc r;
  gidBatch ← step (failing "aggregate_finalize: deserialize group_ids_batch: ") (DeserializeRecordBatch GroupIDsBatch);
  gids ← (fun s => (named_int64 "aggregate_finalize" gidBatch "group_id", s));
  outSchema ← step (failing "aggregate_finalize: deserialize output_schema: ") (DeserializeSchema OutputSchema);
  args ← loadAggArgs b;
  let params := process_params w cc r args (Some outSchema) in
  stored ← loadStates backend ForShard b gids;
  states ← step Failure (decodeGroups stored gids);
  result ← step Failure (Finalize fn gids states params);
  if negb (bool_decide (NumRows result = Z.of_nat (length gids)))
  then stop (Failure ("aggregate_finalize: " +:+ FunctionName r +:+ " returned the wrong number of rows"))
  else step (failing "aggregate_finalize: serialize result: ") (SerializeRecordBatch result).

(** *** Destructor *)

Definition handleAggregateDestructor (w : AggregateWorker) (cc : option CallContext)
    (r : AggregateRequest) : Handler () :=
  key ← (fun s => match shardKeyForAttachPtr (served w) (AttachOpaqueData r) cc with
                  | Ok k => (Ok k, s) | Err e => (Err (AttachError e), s) end);
  clear backend ForShard {| functionName := FunctionName r; executionID := ExecutionID r; shardKey := key |}.
End handlers.

(** ** Handlers over the abstract store *)

(** Backends that share one world and promise the abstract store in it. *)
Class SharedStorage {W B : Type} (backend : B -> FunctionStorage W) := {
  shared_scope : bytes -> Prop;
  shared_rep : W -> store -> Prop;
  shared_serves b {A} (o : op A) : admissible shared_scope o -> serves shared_rep (backend b A o) o
}.
#[global] Instance shared_contract {W B} `{!FunctionStorage W, !StorageContract W} : SharedStorage (fun _ : B => @call W _) := {
  shared_scope := attach_scope;
  shared_rep := represents;
  shared_serves _ A o := call_serves o
}.

Section runs.
Context {W B : Type} (backend : B -> FunctionStorage W) (ForShard : B -> option (string -> B)).
Context `{!SharedStorage backend}.

(** From a world that represents [st], a request that ends well leaves one that
    represents a store of [post]; one that fails leaves the store as it was. *)
Definition runs {A} (st : store) (m : @Serving W B A) (post : A -> store -> Prop) : Prop :=
  forall s w, shared_rep w st ->
    match m (s, w) with
    | (Ok a, (_, w')) => exists st', shared_rep w' st' /\ post a st'
    | (Err _, (_, w')) => shared_rep w' st
    end.
(** A request that only reads. *)
Definition reads {A} (st : store) (m : @Serving W B A) (Q : A -> Prop) : Prop :=
  runs st m (fun a st' => st' = st /\ Q a).

Lemma runs_ret {A} st (a : A) (post : A -> store -> Prop) : post a st -> runs st (mret a) post.
Proof. intros Hp s w Hr. by exists st. Qed.
Lemma runs_pure {A} st (r : result agg_error A) post : (forall a, r = Ok a -> post a st) ->
  runs st (fun s => (r, s)) post.
Proof. intros Hp s w Hr. destruct r; [|done]. exists st. auto. Qed.
Lemma runs_step {A} st wrap (r : result string A) post : (forall a, r = Ok a -> post a st) ->
  runs st (step wrap r) post.
Proof. intros Hp s w Hr. unfold step. destruct r; [|done]. exists st. auto. Qed.
Lemma runs_stop {A} st e (post : A -> store -> Prop) : runs st (stop e) post.
Proof. intros s w Hr. done. Qed.
Lemma runs_weaken {A} st (m : @Serving W B A) (P Q : A -> store -> Prop) :
  runs st m P -> (forall a st', P a st' -> Q a st') -> runs st m Q.
Proof.
  intros Hm HPQ s w Hr. specialize (Hm s w Hr). destruct (m (s, w)) as [[a|e] [s' w']]; [|done].
  destruct Hm as (st' & ? & ?). exists st'. auto.
Qed.
Lemma runs_bind {A C} st (m : @Serving W B A) (k : A -> @Serving W B C) Q post :
  reads st m Q -> (forall a, Q a -> runs st (k a) post) -> runs st (m ≫= k) post.
Proof.
  intros Hm Hk s w Hr. specialize (Hm s w Hr). unfold mbind, Serving_bind.
  destruct (m (s, w)) as [[a|e] [s' w']]; [|done]. destruct Hm as (st' & Hr' & -> & Ha).
  exact (Hk a Ha s' w' Hr').
Qed.

Lemma runs_on {A} st b (o : op A) : admissible shared_scope o ->
  runs st (on backend b o) (fun a st' => a = (spec o st).1 /\ st' = (spec o st).2).
Proof.
  intros Ho s w Hr. unfold on. pose proof (shared_serves b o Ho w st Hr) as Hs.
  destruct (backend b A o w) as [[a|e] w']; [|done]. destruct Hs as [-> Hs]. by eexists.
Qed.
Lemma reads_on {A} st b (o : op A) : admissible shared_scope o -> (spec o st).2 = st ->
  reads st (on backend b o) (fun a => a = (spec o st).1).
Proof.
  intros Ho Hst. eapply runs_weaken; [by apply runs_on|]. intros a st' [-> ->]. done.
Qed.

Lemma reads_backend st b : reads st (bucket_backend ForShard b) (fun _ => True).
Proof.
  unfold bucket_backend. apply (runs_bind _ _ _ (fun _ => True)); [|intros a _; by apply runs_ret].
  intros s w Hr. cbn. unfold cached, cache. destruct (back s); [by exists st|].
  destruct (resolve s) as [[b'|]|]; [by exists st|done..].
Qed.

(** *** Loading and saving states *)

(** The part of a map a list of keys selects. *)
Definition restrict {V} (gids : list Z) (m : gmap Z V) : gmap Z V :=
  filter (fun gv : Z * V => fst gv ∈ gids) m.
Lemma restrict_lookup {V} gids (m : gmap Z V) g :
  restrict gids m !! g = if decide (g ∈ gids) then m !! g else None.
Proof.
  unfold restrict. destruct (decide (g ∈ gids)) as [Hg|Hg].
  - destruct (m !! g) as [v|] eqn:E.
    + by apply map_lookup_filter_Some.
    + apply map_lookup_filter_None. by left.
  - apply map_lookup_filter_None. right. intros v _ Hx. done.
Qed.

Lemma states_of_lookup (m : gmap Z bytes) gids g :
  states_of (map (fun g => group_entry g (m !! g)) gids) !! g = restrict gids m !! g.
Proof.
  rewrite restrict_lookup. unfold states_of.
  assert (forall acc : gmap Z bytes, foldl (fun out en => match en with Some en => <[GroupID en := GroupState en]> out | None => out end)
    acc (map (fun g => group_entry g (m !! g)) gids) !! g =
    if decide (g ∈ gids) then match m !! g with Some v => Some v | None => acc !! g end else acc !! g) as Hacc.
  { induction gids as [|g' gids IH]; intros acc; cbn [map foldl].
    { by rewrite decide_False by apply not_elem_of_nil. }
    rewrite IH. unfold group_entry. destruct (decide (g ∈ gids)) as [Hg|Hg].
    - rewrite decide_True by (by apply list_elem_of_further). destruct (m !! g) eqn:Eg; [done|].
      destruct (m !! g') eqn:Eg'; cbn; [|done]. by rewrite lookup_insert_ne by congruence.
    - destruct (decide (g = g')) as [<-|Hne].
      + rewrite decide_True by apply list_elem_of_here. destruct (m !! g); cbn; [by rewrite lookup_insert_eq|done].
      + rewrite decide_False by (rewrite not_elem_of_cons; done).
        destruct (m !! g'); cbn; [by rewrite lookup_insert_ne by done|done]. }
  rewrite Hacc, lookup_empty. destruct (decide _); [|done]. by destruct (m !! g).
Qed.

Lemma reads_loadStates st b gids : ~ shared_scope (executionID b) -> Forall int64_range gids ->
  reads st (loadStates backend ForShard b gids) (fun m => m = restrict gids (groups st (executionID b))).
Proof.
  intros He Hg. unfold loadStates. eapply runs_bind; [apply reads_backend|]. intros back _.
  destruct gids as [|g gids'] eqn:Eg.
  - apply runs_ret. split; [done|]. apply map_eq. intros i. rewrite restrict_lookup, decide_False by apply not_elem_of_nil.
    apply lookup_empty.
  - rewrite <- Eg in *. eapply runs_bind; [by apply reads_on|]. intros entries ->. apply runs_ret.
    split; [done|]. apply map_eq. intros i. apply states_of_lookup.
Qed.

Context (range : forall V, gmap Z V -> list (Z * V)).
Context (range_perm : forall V m, range V m ≡ₚ map_to_list m).

(** The store with the states of one execution written over. *)
Definition overwrites (st : store) (e : bytes) (m : gmap Z bytes) (st' : store) : Prop :=
  exists f, st' = with_groups st f /\
    forall e', f e' = if decide (e' = e) then m ∪ groups st e else groups st e'.

Lemma puts_lookup e (l : list (Z * bytes)) : forall (f : bytes -> gmap Z bytes),
  NoDup (map fst l) ->
  let f' := foldl (fun f en => put f e (GroupID en) (GroupState en)) f
              (map (fun gd => {| GroupID := fst gd; GroupState := snd gd |}) l) in
  forall e', f' e' = if decide (e' = e) then list_to_map l ∪ f e else f e'.
Proof.
  induction l as [|[g v] l IH]; intros f Hd f' e'; subst f'; cbn [map foldl].
  { destruct (decide (e' = e)) as [->|]; [|done]. cbn. by rewrite (left_id_L ∅ (∪)). }
  cbn in Hd. inversion_clear Hd as [|? ? Hn Hd']. rewrite (IH _ Hd' e'). unfold put. cbn [GroupID GroupState fst snd].
  destruct (decide (e' = e)) as [->|Hne].
  - rewrite fn_lookup_insert. cbn [list_to_map foldr fst snd]. rewrite <- insert_union_r by (by apply not_elem_of_list_to_map_1).
    by rewrite insert_union_l.
  - by rewrite fn_lookup_insert_ne.
Qed.

Lemma range_nodup {V} (m : gmap Z V) : NoDup (map fst (range V m)).
Proof using range_perm. rewrite (range_perm V m). apply NoDup_fst_map_to_list. Qed.
Lemma range_to_map {V} (m : gmap Z V) : list_to_map (range V m) = m.
Proof using range_perm.
  rewrite <- (list_to_map_to_list m) at 2. apply list_to_map_proper; [apply range_nodup|apply range_perm].
Qed.
Lemma range_elem {V} (m : gmap Z V) g v : (g, v) ∈ range V m <-> m !! g = Some v.
Proof using range_perm. rewrite (range_perm V m). apply elem_of_map_to_list. Qed.

Lemma runs_saveStates st b m : ~ shared_scope (executionID b) -> (forall g, is_Some (m !! g) -> int64_range g) ->
  runs st (saveStates backend ForShard range b m) (fun _ st' => overwrites st (executionID b) m st').
Proof using range_perm.
  intros He Hm. unfold saveStates. eapply runs_bind; [apply reads_backend|]. intros back _.
  destruct (bool_decide (size m = 0%nat)) eqn:Es; bool_hyps.
  - apply runs_ret. apply map_size_empty_inv in Es as ->. exists (groups st). split; [by destruct st|].
    intros e'. destruct (decide _) as [->|]; [|done]. by rewrite (left_id_L ∅ (∪)).
  - eapply runs_weaken; [apply runs_on|].
    + split; [done|]. unfold entries_of. apply Forall_forall. intros en Hen.
      apply list_elem_of_fmap in Hen as ([g v] & -> & Hg). cbn. apply Hm. exists v. by apply range_elem.
    + intros [] st' [_ ->]. cbn [spec snd]. eexists. split; [done|]. intros e'. unfold entries_of.
      rewrite (puts_lookup _ _ _ (range_nodup m)). by rewrite range_to_map.
Qed.
End runs.

(** A step that leaves the storage alone, with what its result satisfies. *)
Tactic Notation "run_step" open_constr(Q) := eapply (runs_bind _ _ _ _ Q); [first [by apply runs_pure | by apply runs_step]|].

(** ** Columns and keys are int64s *)

Lemma int64_value_range c : int64_range (int64_value c).
Proof. destruct c; cbn; try (unfold int64_range; lia). apply s64_range. Qed.
Lemma int64_column_range arr l : int64_column arr = Some l -> Forall int64_range l.
Proof.
  unfold int64_column. intros E. destruct (ArrType arr); try done. injection E as <-.
  apply Forall_forall. intros z Hz. apply list_elem_of_fmap in Hz as (c & -> & _). apply int64_value_range.
Qed.
Lemma split_range batch i gids cols : splitGroupIDColumn batch = Ok (i, gids, cols) -> Forall int64_range gids.
Proof.
  unfold splitGroupIDColumn. intros E. destruct (column_index _ _) as [idx|]; [|done].
  destruct (arr ← snd <$> Columns batch !! idx; int64_column arr) as [l|] eqn:El; [|done].
  injection E as <- <- <-. destruct (Columns batch !! idx) as [fa|]; [|done]. exact (int64_column_range _ _ El).
Qed.
Lemma named_range prefix batch name l : named_int64 prefix batch name = Ok l -> Forall int64_range l.
Proof.
  unfold named_int64. intros E. destruct (columns_named batch name) as [|[f arr] rest]; [done|].
  destruct (int64_column arr) eqn:El; [|done]. injection E as <-. by eapply int64_column_range.
Qed.

Lemma elem_of_unique_from l : forall seen v, v ∈ unique_from seen l <-> v ∈ l /\ v ∉ seen.
Proof.
  induction l as [|x l IH]; intros seen v; cbn [unique_from].
  { split; [intros Hv|intros [Hv _]]; by apply not_elem_of_nil in Hv. }
  destruct (bool_decide (x ∈ seen)) eqn:Ex; bool_hyps.
  - rewrite IH, elem_of_cons. split; [naive_solver|]. intros [[->|Hl] Hv]; done.
  - rewrite !elem_of_cons, IH, not_elem_of_union, not_elem_of_singleton.
    destruct (decide (v = x)) as [->|]; naive_solver.
Qed.
Lemma elem_of_unique l v : v ∈ uniqueInt64 l <-> v ∈ l.
Proof. unfold uniqueInt64. rewrite elem_of_unique_from. set_solver. Qed.
Lemma unique_NoDup l : NoDup (uniqueInt64 l).
Proof.
  unfold uniqueInt64. generalize (∅ : gset Z). induction l as [|x l IH]; intros seen; cbn [unique_from]; [constructor|].
  destruct (bool_decide (x ∈ seen)); [apply IH|]. constructor; [|apply IH].
  rewrite elem_of_unique_from. set_solver.
Qed.
Lemma unique_range l : Forall int64_range l -> Forall int64_range (uniqueInt64 l).
Proof. rewrite !Forall_forall. intros Hl v Hv. by apply Hl, elem_of_unique. Qed.

(** ** What an aggregate promises *)

Section laws.
(** [Row] is what a row contributes to its group; [R s rows] says that the state
    [s] stands for those rows. *)
Context {St Row : Type} (R : St -> list Row -> Prop) (contributions : list Z -> list Array -> list (Z * Row)).

(** The rows of each group that has any. *)
Abbreviation groups_rows := (gmap Z (list Row)).
Definition add_row (a : groups_rows) (gr : Z * Row) : groups_rows :=
  <[fst gr := default [] (a !! fst gr) ++ [snd gr]]> a.
Definition add_rows (a : groups_rows) (l : list (Z * Row)) : groups_rows := foldl add_row a l.

Definition stands_for (states : gmap Z St) (a : groups_rows) : Prop :=
  forall g, option_Forall2 R (states !! g) (a !! g).

Record lawful (fn : AggregateFunction St) : Prop := {
  new_empty p : R (NewState fn p) [];
  update_adds states a gids columns p states' :
    stands_for states a -> Update fn states gids columns p = Ok states' ->
    stands_for states' (add_rows a (contributions gids columns));
  combine_appends s t xs ys p u : R s xs -> R t ys -> Combine fn s t p = Ok u -> R u (ys ++ xs)
}.

(** The merge of a source group into a target. *)
Definition merge_groups (a : groups_rows) (st : Z * Z) : groups_rows :=
  match a !! fst st, a !! snd st with
  | None, None => a
  | src, tgt => <[snd st := default [] tgt ++ default [] src]> a
  end.

Lemma merge_rows_stands fn p rows : lawful fn -> forall states a states',
  stands_for states a -> merge_rows fn p states rows = Ok states' ->
  stands_for states' (foldl merge_groups a rows).
Proof.
  intros L. induction rows as [|[i j] rows IH]; intros states a states' Hs E; cbn [merge_rows foldl] in *.
  { by injection E as <-. }
  destruct (merge_row fn p states (i, j)) as [states1|] eqn:E1; [|done].
  apply (IH states1); [|done]. clear IH E. unfold merge_row, merge_groups in *. cbn [fst snd] in *.
  assert (Hput : forall s t xs ys, R s xs -> R t ys ->
    (let? merged := Combine fn s t p in Ok (<[j := merged]> states)) = Ok states1 ->
    stands_for states1 (<[j := ys ++ xs]> a)).
  { intros s t xs ys Hx Hy E2. destruct (Combine fn s t p) as [u|] eqn:Eu; [|done]. injection E2 as <-.
    intros g. destruct (decide (g = j)) as [->|]; [rewrite !lookup_insert_eq|by rewrite !lookup_insert_ne].
    constructor. by eapply combine_appends. }
  pose proof (Hs i) as Hi. pose proof (Hs j) as Hj. pose proof (new_empty fn L p) as Hnew.
  inversion Hi as [s xs Hx Ei Eai|Ei Eai]; inversion Hj as [t ys Hy Ej Eaj|Ej Eaj];
    rewrite <- Ei, <- Ej in E1; cbn [default].
  - by apply (Hput s t).
  - apply (Hput s _ _ [] Hx Hnew E1).
  - apply (Hput _ t [] _ Hnew Hy E1).
  - by injection E1 as <-.
Qed.

(** Both operations read and change only the groups they name. *)
Lemma add_rows_restrict gids l : (forall gr, gr ∈ l -> fst gr ∈ gids) -> forall a g,
  add_rows a l !! g = if decide (g ∈ gids) then add_rows (restrict gids a) l !! g else a !! g.
Proof.
  intros Hl. induction l as [|gr l IH]; intros a g; cbn [add_rows foldl].
  { rewrite restrict_lookup. by destruct (decide _). }
  assert (Hg : fst gr ∈ gids) by (apply Hl, list_elem_of_here).
  unfold add_rows in IH. rewrite IH by (intros x Hx; by apply Hl, list_elem_of_further).
  assert (restrict gids (add_row a gr) = add_row (restrict gids a) gr) as ->.
  { apply map_eq. intros i. unfold add_row. rewrite restrict_lookup, !lookup_insert, !restrict_lookup.
    rewrite (decide_True (P := fst gr ∈ gids)) by done. destruct (decide (fst gr = i)) as [<-|]; [by rewrite decide_True|done]. }
  destruct (decide (g ∈ gids)); [done|]. unfold add_row. rewrite lookup_insert_ne; [done|]. by intros <-.
Qed.

Lemma merge_restrict gids rows : (forall st, st ∈ rows -> fst st ∈ gids /\ snd st ∈ gids) -> forall a g,
  foldl merge_groups a rows !! g =
  if decide (g ∈ gids) then foldl merge_groups (restrict gids a) rows !! g else a !! g.
Proof.
  intros Hl. induction rows as [|[i j] rows IH]; intros a g; cbn [foldl].
  { rewrite restrict_lookup. by destruct (decide _). }
  destruct (Hl (i, j) ltac:(apply list_elem_of_here)) as [Hi Hj]. cbn [fst snd] in *.
  rewrite IH by (intros x Hx; by apply Hl, list_elem_of_further).
  assert (restrict gids (merge_groups a (i, j)) = merge_groups (restrict gids a) (i, j)) as ->.
  { unfold merge_groups. cbn [fst snd]. rewrite !restrict_lookup, !decide_True by done.
    assert (forall v, restrict gids (<[j := v]> a) = <[j := v]> (restrict gids a)) as Hins.
    { intros v. apply map_eq. intros k. rewrite restrict_lookup, !lookup_insert, restrict_lookup.
      destruct (decide (j = k)) as [<-|]; [by rewrite decide_True|done]. }
    destruct (a !! i), (a !! j); by rewrite ?Hins. }
  destruct (decide (g ∈ gids)); [done|]. unfold merge_groups. cbn [fst snd].
  destruct (a !! i), (a !! j); rewrite ?lookup_insert_ne; try done; by intros ->.
Qed.
Lemma merge_untouched rows g : g ∉ map snd rows -> forall a, foldl merge_groups a rows !! g = a !! g.
Proof.
  induction rows as [|[i j] rows IH]; intros Hg a; cbn [foldl]; [done|]. cbn in Hg.
  rewrite not_elem_of_cons in Hg. destruct Hg as [Hj Hg]. rewrite IH by done. unfold merge_groups. cbn [fst snd].
  destruct (a !! i), (a !! j); rewrite ?lookup_insert_ne; done.
Qed.

(** *** States as bytes *)

Context (gobEncodeState : St -> result string bytes) (gobDecodeState : bytes -> result string St).

(** What gob promises: a state that is encoded decodes to one that stands for
    the same rows. *)
Definition gob_faithful : Prop := forall s rows b, R s rows -> gobEncodeState s = Ok b ->
  exists s', gobDecodeState b = Ok s' /\ R s' rows.

(** The stored bytes of every group stand for its rows. *)
Definition stored_rows (m : gmap Z bytes) (a : groups_rows) : Prop :=
  forall g, option_Forall2 (fun b rows => exists s, gobDecodeState b = Ok s /\ R s rows) (m !! g) (a !! g).

Lemma stored_restrict gids m a : stored_rows m a -> stored_rows (restrict gids m) (restrict gids a).
Proof. intros Hm g. rewrite !restrict_lookup. destruct (decide _); [apply Hm|constructor]. Qed.

Section coding.
Context (range : forall V, gmap Z V -> list (Z * V)).
Context (range_perm : forall V m, range V m ≡ₚ map_to_list m).
#[local] Set Default Proof Using "range_perm".

Lemma coded_lookup {V U} (f : Z * V -> result string (Z * U)) (h : V -> result string U) (m : gmap Z V) l :
  (forall gv, f gv = let? u := h (snd gv) in Ok (fst gv, u)) ->
  map_result f (range V m) = Ok l ->
  forall g, option_Forall2 (fun v u => h v = Ok u) (m !! g) ((list_to_map l : gmap Z U) !! g).
Proof.
  intros Hf E g. apply map_result_inv in E.
  assert (Hfst : map fst l = map fst (range V m)).
  { clear -E Hf. induction E as [|gv gu k l Hg _ IH]; cbn; [done|]. rewrite Hf in Hg.
    destruct (h (snd gv)); [|done]. injection Hg as <-. by rewrite IH. }
  assert (Hd : NoDup (map fst l)) by (rewrite Hfst; by apply range_nodup).
  destruct (m !! g) as [v|] eqn:Ev.
  - pose proof (proj2 (range_elem range range_perm m g v) Ev) as Hin.
    apply list_elem_of_lookup_1 in Hin as [i Hi].
    pose proof (Forall2_lookup_l _ _ _ _ _ E Hi) as ([g' u] & Hl & Hu). rewrite Hf in Hu. cbn [fst snd] in Hu.
    destruct (h v) as [u'|] eqn:Eh; [|done]. injection Hu as <- <-.
    rewrite (elem_of_list_to_map_1 l g u' Hd) by (by eapply list_elem_of_lookup_2). by constructor.
  - rewrite not_elem_of_list_to_map_1; [constructor|]. intros Hin. change (g ∈ map fst l) in Hin. rewrite Hfst in Hin.
    apply list_elem_of_fmap in Hin as ([g' v] & Eg & Hin). cbn in Eg. subst g'.
    apply range_elem in Hin; [|done]. congruence.
Qed.

Lemma decode_stands m a states : stored_rows m a ->
  decodeStates range gobDecodeState m = Ok states -> stands_for states a.
Proof.
  unfold decodeStates. intros Hm E. destruct (map_result _ _) as [l|] eqn:El; [|done]. injection E as <-.
  pose proof (coded_lookup _ gobDecodeState m l (fun _ => eq_refl) El) as Hc.
  intros g. specialize (Hc g). specialize (Hm g).
  inversion Hc as [b s Hs Em Es|Em Es]; inversion Hm as [b' rows Hb Em' Ea|Em' Ea]; try congruence; constructor.
  destruct Hb as (s' & Hs' & HR). congruence.
Qed.

Lemma encode_stored states a m : gob_faithful -> stands_for states a ->
  encodeStates range gobEncodeState states = Ok m -> stored_rows m a.
Proof.
  unfold encodeStates. intros Hg Hs E. destruct (map_result _ _) as [l|] eqn:El; [|done]. injection E as <-.
  pose proof (coded_lookup _ gobEncodeState states l (fun _ => eq_refl) El) as Hc.
  intros g. specialize (Hc g). specialize (Hs g).
  inversion Hc as [s b Hb Es Em|Es Em]; inversion Hs as [s' rows HR Es' Ea|Es' Ea]; try congruence; constructor.
  assert (s' = s) as -> by congruence. by apply (Hg s rows b).
Qed.
End coding.

Lemma targets_stored states a gids m : gob_faithful -> stands_for states a ->
  encodeTargets gobEncodeState states gids = Ok m -> stored_rows m (restrict gids a).
Proof.
  unfold encodeTargets. intros Hg Hs E. destruct (map_result _ _) as [l|] eqn:El; [|done]. injection E as <-.
  apply map_result_inv in El. intros g. rewrite restrict_lookup.
  assert (Hl : forall g b, (list_to_map (omap id l) : gmap Z bytes) !! g = Some b ->
    g ∈ gids /\ exists s, states !! g = Some s /\ gobEncodeState s = Ok b).
  { intros g' b Eb. apply elem_of_list_to_map_2 in Eb. apply list_elem_of_omap in Eb as (x & Hx & Ex).
    cbn in Ex. subst x. apply list_elem_of_lookup_1 in Hx as [i Hi].
    pose proof (Forall2_lookup_r _ _ _ _ _ El Hi) as (g'' & Hgs & Eg). unfold encode_target in Eg.
    destruct (states !! g'') as [s|] eqn:Es; [|done]. destruct (gobEncodeState s) eqn:Eb; [|done].
    injection Eg as <- <-. split; [by eapply list_elem_of_lookup_2|]. by exists s. }
  destruct (decide (g ∈ gids)) as [Hin|Hin].
  - pose proof (Hs g) as Hr. apply list_elem_of_lookup_1 in Hin as [i Hi].
    pose proof (Forall2_lookup_l _ _ _ _ _ El Hi) as (o & Ho & Eo). unfold encode_target in Eo.
    destruct ((list_to_map (omap id l) : gmap Z bytes) !! g) as [b|] eqn:Eb.
    + destruct (Hl g b Eb) as (_ & s & Es & Ee). rewrite Es in Hr. inversion Hr as [? rows HR E1 E2|]; subst.
      constructor. by apply (Hg s rows b).
    + destruct (states !! g) as [s|] eqn:Es.
      * destruct (gobEncodeState s) as [b|]; [|done]. injection Eo as <-. exfalso.
        assert ((g, b) ∈ omap id l) as Hx by (apply list_elem_of_omap; exists (Some (g, b)); split; [by eapply list_elem_of_lookup_2|done]).
        apply not_elem_of_list_to_map_2 in Eb. apply Eb, list_elem_of_fmap. by exists (g, b).
      * inversion Hr; subst. constructor.
  - destruct ((list_to_map (omap id l) : gmap Z bytes) !! g) as [b|] eqn:Eb; [|constructor].
    by destruct (Hl g b Eb).
Qed.
End laws.

(** ** Requests against the abstract store *)

Section requests.
Context {W B : Type} (backend : B -> FunctionStorage W) (ForShard : B -> option (string -> B)).
Context `{!SharedStorage backend} (range : forall V, gmap Z V -> list (Z * V)).
Context (range_perm : forall V m, range V m ≡ₚ map_to_list m).
Context `{Aead} `{Unicode} {Wc P X St : Type}.
Context (gobEncodeState : St -> result string bytes) (gobDecodeState : bytes -> result string St).
Context (DeserializeRecordBatch : bytes -> result string RecordBatch)
  (SerializeRecordBatch : RecordBatch -> result string bytes)
  (DeserializeSchema : bytes -> result string schema_fields)
  (read_ipc : bytes -> result string (list Field * option (list column))).

Abbreviation Worker := (AggregateWorker (Wc := Wc) (P := P) (X := X) (St := St)).
Let update := handleAggregateUpdate (Wc := Wc) (P := P) (X := X) backend ForShard range gobEncodeState
  gobDecodeState DeserializeRecordBatch read_ipc.
Let combine := handleAggregateCombine (Wc := Wc) (P := P) (X := X) backend ForShard range gobEncodeState
  gobDecodeState DeserializeRecordBatch read_ipc.
Let finalize := handleAggregateFinalize (Wc := Wc) (P := P) (X := X) backend ForShard
  gobDecodeState DeserializeRecordBatch SerializeRecordBatch DeserializeSchema read_ipc.

Lemma reads_loadAggArgs st b : ~ shared_scope (executionID b) ->
  reads backend st (loadAggArgs backend ForShard read_ipc b) (fun _ => True).
Proof.
  intros He s w Hr. unfold loadAggArgs.
  assert (Hg : reads backend st (getConstArgs backend ForShard b) (fun _ => True)).
  { unfold getConstArgs. eapply runs_bind; [apply reads_backend|]. intros back _.
    eapply runs_weaken; [by apply reads_on|]. intros a st' [-> _]. done. }
  specialize (Hg s w Hr). destruct (getConstArgs backend ForShard b (s, w)) as [[[[|x data]|]|e] [s' w']].
  - destruct Hg as (st' & ? & -> & _). by exists st.
  - destruct Hg as (st' & Hr' & -> & _). destruct (ParseArguments read_ipc (x :: data)) as [args|[]]; [by exists st..|done].
  - destruct Hg as (st' & ? & -> & _). by exists st.
  - by exists st.
Qed.

Lemma enter_execution (w : Worker) cc r b fn : enter w cc r = Ok (b, fn) -> executionID b = ExecutionID r.
Proof.
  unfold enter. intros E. destruct (shardKeyForAttachPtr _ _ _); [|done].
  destruct (lookupAggregate _ _ _ _ _); [|done]. by injection E as <- _.
Qed.

#[local] Set Default Proof Using "All".

(** A successful update, from the request to the bytes it saves. *)
Definition updated (w : Worker) cc r (data : bytes) (st : store) (fn : AggregateFunction St)
    (gids : list Z) (cols : list Array) (m : gmap Z bytes) : Prop :=
  exists b batch i args states states',
    enter w cc r = Ok (b, fn) /\ DeserializeRecordBatch data = Ok batch /\
    splitGroupIDColumn batch = Ok (i, gids, cols) /\
    decodeStates range gobDecodeState (restrict (uniqueInt64 gids) (groups st (ExecutionID r))) = Ok states /\
    Update fn states gids cols (process_params w cc r args None) = Ok states' /\
    encodeStates range gobEncodeState states' = Ok m.

Lemma update_core (w : Worker) cc r data st : ~ shared_scope (ExecutionID r) ->
  (forall fn gids cols m, updated w cc r data st fn gids cols m -> forall g, is_Some (m !! g) -> int64_range g) ->
  runs backend st (update w cc r data) (fun _ st' =>
    exists fn gids cols m, updated w cc r data st fn gids cols m /\ overwrites st (ExecutionID r) m st').
Proof.
  intros He Hkeys. unfold update, handleAggregateUpdate.
  run_step (fun bf => enter w cc r = Ok bf). intros [b fn] Eb.
  pose proof (enter_execution _ _ _ _ _ Eb) as Ee.
  run_step (fun batch => DeserializeRecordBatch data = Ok batch). intros batch Ed.
  run_step (fun x => splitGroupIDColumn batch = Ok x). intros [[i gids] cols] Es.
  eapply runs_bind; [apply reads_loadAggArgs; by rewrite Ee|]. intros args _.
  eapply runs_bind; [apply reads_loadStates; [by rewrite Ee|by eapply unique_range, split_range]|].
  intros stored ->. rewrite Ee. set (p := process_params w cc r args None).
  run_step (fun s => decodeStates range gobDecodeState _ = Ok s). intros states Edec.
  run_step (fun s => Update fn states gids cols p = Ok s). intros states' Eu.
  run_step (fun m => encodeStates range gobEncodeState states' = Ok m). intros m Em.
  assert (Hup : updated w cc r data st fn gids cols m) by (by exists b, batch, i, args, states, states').
  eapply runs_weaken; [apply runs_saveStates; [done|by rewrite Ee|by eapply Hkeys]|].
  intros [] st' Hov. rewrite Ee in Hov. by exists fn, gids, cols, m.
Qed.

(** A successful merge that has rows. *)
Definition combined (w : Worker) cc r (data : bytes) (st : store) (fn : AggregateFunction St)
    (src tgt : list Z) (m : gmap Z bytes) : Prop :=
  exists b batch args states states',
    enter w cc r = Ok (b, fn) /\ DeserializeRecordBatch data = Ok batch /\ NumRows batch <> 0%Z /\
    named_int64 "aggregate_combine" batch "source_group_id" = Ok src /\
    named_int64 "aggregate_combine" batch "target_group_id" = Ok tgt /\
    decodeStates range gobDecodeState (restrict (uniqueInt64 (src ++ tgt)) (groups st (ExecutionID r))) = Ok states /\
    merge_rows fn (process_params w cc r args None) states (zip src tgt) = Ok states' /\
    encodeTargets gobEncodeState states' (uniqueInt64 tgt) = Ok m.

Lemma encodeTargets_keys states gids m g :
  encodeTargets gobEncodeState states gids = Ok m -> is_Some (m !! g) -> g ∈ gids.
Proof.
  unfold encodeTargets. intros E [b Eb]. destruct (map_result _ _) as [l|] eqn:El; [|done]. injection E as <-.
  apply map_result_inv in El. apply elem_of_list_to_map_2 in Eb. apply list_elem_of_omap in Eb as (x & Hx & Ex).
  cbn in Ex. subst x. apply list_elem_of_lookup_1 in Hx as [i Hi].
  pose proof (Forall2_lookup_r _ _ _ _ _ El Hi) as (g' & Hg & Eg). unfold encode_target in Eg.
  destruct (states !! g'); [|done]. destruct (gobEncodeState _); [|done]. injection Eg as <- _.
  by eapply list_elem_of_lookup_2.
Qed.

Lemma combine_core (w : Worker) cc r data st : ~ shared_scope (ExecutionID r) ->
  runs backend st (combine w cc r data) (fun _ st' =>
    (exists batch, DeserializeRecordBatch data = Ok batch /\ NumRows batch = 0%Z /\ st' = st) \/
    exists fn src tgt m, combined w cc r data st fn src tgt m /\ overwrites st (ExecutionID r) m st').
Proof.
  intros He. unfold combine, handleAggregateCombine.
  run_step (fun bf => enter w cc r = Ok bf). intros [b fn] Eb.
  pose proof (enter_execution _ _ _ _ _ Eb) as Ee.
  run_step (fun batch => DeserializeRecordBatch data = Ok batch). intros batch Ed.
  destruct (bool_decide (NumRows batch = 0%Z)) eqn:En; bool_hyps; [apply runs_ret; left; by exists batch|].
  run_step (fun l => named_int64 "aggregate_combine" batch "source_group_id" = Ok l). intros src Es.
  run_step (fun l => named_int64 "aggregate_combine" batch "target_group_id" = Ok l). intros tgt Et.
  eapply runs_bind; [apply reads_loadAggArgs; by rewrite Ee|]. intros args _.
  pose proof (named_range _ _ _ _ Es) as Hs. pose proof (named_range _ _ _ _ Et) as Ht.
  eapply runs_bind; [apply reads_loadStates; [by rewrite Ee|by apply unique_range, Forall_app]|].
  intros stored ->. rewrite Ee. set (p := process_params w cc r args None).
  run_step (fun s => decodeStates range gobDecodeState _ = Ok s). intros states Edec.
  run_step (fun s => merge_rows fn p states (zip src tgt) = Ok s). intros states' Eu.
  run_step (fun m => encodeTargets gobEncodeState states' (uniqueInt64 tgt) = Ok m). intros m Em.
  assert (Hc : combined w cc r data st fn src tgt m) by (by exists b, batch, args, states, states').
  eapply runs_weaken; [apply runs_saveStates; [done|by rewrite Ee|]|].
  - intros g Hg. pose proof (encodeTargets_keys _ _ _ _ Em Hg) as Hin. pose proof (unique_range _ Ht) as Hr.
    rewrite Forall_forall in Hr. by apply Hr.
  - intros [] st' Hov. rewrite Ee in Hov. right. by exists fn, src, tgt, m.
Qed.

Section rows.
Context {Row : Type} (R : St -> list Row -> Prop) (contributions : list Z -> list Array -> list (Z * Row)).
Context (faithful : gob_faithful R gobEncodeState gobDecodeState).
Context (local : forall gids cols gr, gr ∈ contributions gids cols -> fst gr ∈ gids).
#[local] Set Default Proof Using "All".

Lemma add_rows_grows (l : list (Z * Row)) g : forall a : gmap Z (list Row), add_rows a l !! g = None -> a !! g = None.
Proof.
  induction l as [|gr l IH]; intros a E; [done|]. apply IH in E. unfold add_row in E.
  apply lookup_insert_None in E. tauto.
Qed.
Lemma merge_grows rows g : forall a : gmap Z (list Row), foldl merge_groups a rows !! g = None -> a !! g = None.
Proof.
  induction rows as [|[i j] rows IH]; intros a E; [done|]. apply IH in E. unfold merge_groups in E. cbn [fst snd] in E.
  destruct (a !! i), (a !! j); try apply lookup_insert_None in E; tauto.
Qed.

(** States written over the stored ones. *)
Lemma overwritten st e m st' (a new a' : gmap Z (list Row)) :
  overwrites st e m st' -> stored_rows R gobDecodeState (groups st e) a -> stored_rows R gobDecodeState m new ->
  (forall g, a' !! g = match new !! g with Some rows => Some rows | None => a !! g end) ->
  stored_rows R gobDecodeState (groups st' e) a'.
Proof.
  intros (f & -> & Hf) Ha Hn Hnew g. cbn [groups with_groups]. rewrite Hf, decide_True by done.
  rewrite lookup_union, Hnew. specialize (Hn g). specialize (Ha g). inversion Hn as [b rows Hb Em En|Em En].
  - destruct (groups st e !! g); cbn; by constructor.
  - by rewrite (left_id_L None (∪)).
Qed.
Lemma overwrites_others st e m st' e' : overwrites st e m st' -> e' <> e -> groups st' e' = groups st e'.
Proof. intros (f & -> & Hf) Hne. cbn. by rewrite Hf, decide_False. Qed.

Lemma stored_range m (a : gmap Z (list Row)) gids g : stored_rows R gobDecodeState m a ->
  (forall g, is_Some (a !! g) -> g ∈ gids) -> Forall int64_range gids -> is_Some (m !! g) -> int64_range g.
Proof.
  intros Hm Ha Hg [b Eb]. specialize (Hm g). rewrite Eb in Hm. inversion Hm as [b' rows Hb Eb' Er|].
  rewrite Forall_forall in Hg. apply Hg, Ha. by rewrite <- Er.
Qed.

(** What an update does to the rows of its execution. *)
Definition update_effect (data : bytes) (a : gmap Z (list Row)) : gmap Z (list Row) :=
  match DeserializeRecordBatch data with
  | Ok batch => match splitGroupIDColumn batch with
                | Ok (_, gids, columns) => add_rows a (contributions gids columns)
                | Err _ => a
                end
  | Err _ => a
  end.

Lemma update_runs (w : Worker) cc r data st a : ~ shared_scope (ExecutionID r) ->
  (forall b fn, enter w cc r = Ok (b, fn) -> lawful R contributions fn) ->
  stored_rows R gobDecodeState (groups st (ExecutionID r)) a ->
  runs backend st (update w cc r data) (fun _ st' =>
    stored_rows R gobDecodeState (groups st' (ExecutionID r)) (update_effect data a)).
Proof.
  intros He Hlaw Ha.
  assert (Hup : forall fn gids cols m, updated w cc r data st fn gids cols m ->
    let G := uniqueInt64 gids in let new := add_rows (restrict G a) (contributions gids cols) in
    Forall int64_range G /\ stored_rows R gobDecodeState m new /\
    (forall gr, gr ∈ contributions gids cols -> fst gr ∈ G) /\ (forall g, is_Some (new !! g) -> g ∈ G) /\
    update_effect data a = add_rows a (contributions gids cols)).
  { intros fn gids cols m (b & batch & i & args & states & states' & Eb & Ed & Es & Edec & Eu & Em) G new.
    assert (HG : forall gr, gr ∈ contributions gids cols -> fst gr ∈ G) by (intros gr Hgr; by apply elem_of_unique, (local gids cols)).
    split; [by eapply unique_range, split_range|]. split; [|split; [done|split]].
    - eapply encode_stored; [done|done| |exact Em]. eapply update_adds; [by eapply Hlaw| |exact Eu].
      eapply decode_stands; [done| |exact Edec]. by apply stored_restrict.
    - intros g [rows Eg]. unfold new in Eg. rewrite (add_rows_restrict G) in Eg by done.
      destruct (decide (g ∈ G)); [done|]. by rewrite restrict_lookup, decide_False in Eg.
    - unfold update_effect. by rewrite Ed, Es. }
  eapply runs_weaken; [apply update_core; [done|]|].
  - intros fn gids cols m Hu g Hg. destruct (Hup _ _ _ _ Hu) as (Hr & Hm & _ & Hdom & _).
    by eapply stored_range.
  - intros [] st' (fn & gids & cols & m & Hu & Hov). destruct (Hup _ _ _ _ Hu) as (_ & Hm & HG & Hdom & ->).
    set (G := uniqueInt64 gids) in *. eapply overwritten; [exact Hov|exact Ha|exact Hm|]. intros g.
    rewrite (add_rows_restrict G) by done. set (new := add_rows (restrict G a) _) in *.
    destruct (new !! g) eqn:En.
    + assert (g ∈ G) by (apply Hdom; by rewrite En). by rewrite decide_True.
    + destruct (decide (g ∈ G)) as [Hg|Hg]; [|done]. apply add_rows_grows in En.
      by rewrite restrict_lookup, decide_True in En.
Qed.

Definition combine_effect (data : bytes) (a : gmap Z (list Row)) : gmap Z (list Row) :=
  match DeserializeRecordBatch data with
  | Ok batch =>
      if bool_decide (NumRows batch = 0%Z) then a else
      match named_int64 "aggregate_combine" batch "source_group_id",
            named_int64 "aggregate_combine" batch "target_group_id" with
      | Ok src, Ok tgt => foldl merge_groups a (zip src tgt)
      | _, _ => a
      end
  | Err _ => a
  end.

Lemma zip_elem (l k : list Z) x : x ∈ zip l k -> fst x ∈ l /\ snd x ∈ k.
Proof. intros Hx. destruct x as [i j]. split; [eapply elem_of_zip_l|eapply elem_of_zip_r]; exact Hx. Qed.

Lemma combine_runs (w : Worker) cc r data st a : ~ shared_scope (ExecutionID r) ->
  (forall b fn, enter w cc r = Ok (b, fn) -> lawful R contributions fn) ->
  stored_rows R gobDecodeState (groups st (ExecutionID r)) a ->
  runs backend st (combine w cc r data) (fun _ st' =>
    stored_rows R gobDecodeState (groups st' (ExecutionID r)) (combine_effect data a)).
Proof.
  intros He Hlaw Ha. eapply runs_weaken; [by apply combine_core|]. unfold combine_effect.
  intros [] st' [(batch & Ed & En & ->)|(fn & src & tgt & m & Hc & Hov)].
  { rewrite Ed, bool_decide_true by done. done. }
  destruct Hc as (b & batch & args & states & states' & Eb & Ed & En & Es & Et & Edec & Eu & Em).
  rewrite Ed, bool_decide_false, Es, Et by done.
  set (G := uniqueInt64 (src ++ tgt)) in *. set (merged := foldl merge_groups (restrict G a) (zip src tgt)).
  assert (Hm : stored_rows R gobDecodeState m (restrict (uniqueInt64 tgt) merged)).
  { eapply targets_stored; [done| |exact Em]. eapply merge_rows_stands; [by eapply Hlaw| |exact Eu].
    eapply decode_stands; [done| |exact Edec]. by apply stored_restrict. }
  assert (HG : forall x, x ∈ zip src tgt -> fst x ∈ G /\ snd x ∈ G).
  { intros x Hx. apply zip_elem in Hx as [? ?]. split; apply elem_of_unique, elem_of_app; auto. }
  eapply overwritten; [exact Hov|exact Ha|exact Hm|]. intros g. rewrite restrict_lookup.
  destruct (decide (g ∈ uniqueInt64 tgt)) as [Hg|Hg].
  - assert (g ∈ G) as HgG by (apply elem_of_unique, elem_of_app; right; by apply elem_of_unique).
    rewrite (merge_restrict G) by done. rewrite decide_True by done. fold merged.
    destruct (merged !! g) eqn:Eg; [done|]. apply merge_grows in Eg. by rewrite restrict_lookup, decide_True in Eg.
  - apply merge_untouched. intros Hin. apply Hg, elem_of_unique. apply list_elem_of_fmap in Hin as (x & -> & Hx).
    exact (proj2 (zip_elem _ _ _ Hx)).
Qed.

(** *** Histories *)

(** A request as some process gets it: its worker, its storage shim, the call. *)
Inductive event_kind := EvUpdate (InputBatch : bytes) | EvCombine (MergeBatch : bytes).
Record event := {
  ev_worker : Worker;
  ev_storage : aggregateStorage B;
  ev_call : option CallContext;
  ev_request : AggregateRequest;
  ev_kind : event_kind
}.
Definition handle_event (ev : event) : Serving (W := W) (B := B) () :=
  match ev_kind ev with
  | EvUpdate data => update (ev_worker ev) (ev_call ev) (ev_request ev) data
  | EvCombine data => combine (ev_worker ev) (ev_call ev) (ev_request ev) data
  end.
Definition serve (ev : event) (w : W) : result agg_error () * W :=
  let '(r, (_, w)) := handle_event ev (ev_storage ev, w) in (r, w).

(** What a request does to the rows of the execution [e] when it succeeds. *)
Definition effect (e : bytes) (ev : event) (a : gmap Z (list Row)) : gmap Z (list Row) :=
  if decide (ExecutionID (ev_request ev) = e) then
    match ev_kind ev with EvUpdate data => update_effect data a | EvCombine data => combine_effect data a end
  else a.

(** The requests one after the other, and the rows of the successful ones. *)
Fixpoint play (e : bytes) (evs : list event) (w : W) (a : gmap Z (list Row)) : W * gmap Z (list Row) :=
  match evs with
  | [] => (w, a)
  | ev :: evs =>
      let '(r, w) := serve ev w in play e evs w (if is_ok r then effect e ev a else a)
  end.

(** A map of states is a [map[int64]interface{}]. *)
Definition int64_keys (fn : AggregateFunction St) : Prop := forall states gids cols p states',
  Forall int64_range gids -> (forall g, is_Some (states !! g) -> int64_range g) ->
  Update fn states gids cols p = Ok states' -> forall g, is_Some (states' !! g) -> int64_range g.

(** The requests of the execution resolve to aggregates that keep their
    promise; those of others do not go under an attach's scope. *)
Definition well_served (e : bytes) (ev : event) : Prop :=
  ~ shared_scope (ExecutionID (ev_request ev)) /\
  forall b fn, enter (ev_worker ev) (ev_call ev) (ev_request ev) = Ok (b, fn) ->
    if decide (ExecutionID (ev_request ev) = e) then lawful R contributions fn else int64_keys fn.

Lemma foreign_runs (e : bytes) (ev : event) st : well_served e ev -> ExecutionID (ev_request ev) <> e ->
  runs backend st (handle_event ev) (fun _ st' => groups st' e = groups st e).
Proof.
  intros [He Hk] Hne. unfold handle_event. destruct (ev_kind ev) as [data|data].
  - eapply runs_weaken; [apply update_core; [done|]|].
    + intros fn gids cols m (b & batch & i & args & states & states' & Eb & _ & Es & Edec & Eu & Em) g Hg.
      specialize (Hk _ _ Eb). rewrite decide_False in Hk by done.
      unfold encodeStates in Em. destruct (map_result _ (range St _)) as [l|] eqn:El; [|done]. injection Em as <-.
      pose proof (coded_lookup range range_perm _ gobEncodeState states' l (fun _ => eq_refl) El g) as Hc.
      destruct Hg as [x Ex]. rewrite Ex in Hc. inversion Hc as [s b' Hs Est Em|]. symmetry in Est.
      eapply (Hk states gids cols); [by eapply split_range| |exact Eu|by exists s].
      intros g' [s' Es']. unfold decodeStates in Edec. destruct (map_result _ (range bytes _)) as [l'|] eqn:El'; [|done].
      injection Edec as <-. pose proof (coded_lookup range range_perm _ gobDecodeState _ l' (fun _ => eq_refl) El' g') as Hd.
      rewrite Es', restrict_lookup in Hd. destruct (decide (g' ∈ uniqueInt64 gids)) as [Hin|]; [|by inversion Hd].
      pose proof (split_range _ _ _ _ Es) as Hr. rewrite Forall_forall in Hr. by apply Hr, elem_of_unique.
    + intros [] st' (fn & gids & cols & m & _ & Hov). by eapply overwrites_others.
  - eapply runs_weaken; [by apply combine_core|].
    intros [] st' [(batch & _ & _ & ->)|(fn & src & tgt & m & _ & Hov)]; [done|by eapply overwrites_others].
Qed.

Lemma play_rows e evs : Forall (well_served e) evs -> forall w st a,
  shared_rep w st -> stored_rows R gobDecodeState (groups st e) a ->
  exists st', shared_rep (play e evs w a).1 st' /\ stored_rows R gobDecodeState (groups st' e) (play e evs w a).2.
Proof.
  induction 1 as [|ev evs Hev _ IH]; intros w st a Hr Ha; cbn [play]; [by exists st|].
  unfold serve. assert (Hh : runs backend st (handle_event ev) (fun _ st' =>
    stored_rows R gobDecodeState (groups st' e) (effect e ev a))).
  { unfold effect. destruct (decide (ExecutionID (ev_request ev) = e)) as [<-|Hne].
    - destruct Hev as [He Hl]. unfold handle_event.
      assert (forall b fn, enter (ev_worker ev) (ev_call ev) (ev_request ev) = Ok (b, fn) -> lawful R contributions fn) as Hl'.
      { intros b fn Eb. specialize (Hl b fn Eb). by rewrite decide_True in Hl. }
      destruct (ev_kind ev); [by apply update_runs|by apply combine_runs].
    - eapply runs_weaken; [by apply foreign_runs|]. intros [] st' E. by rewrite E. }
  specialize (Hh (ev_storage ev) w Hr). destruct (handle_event ev (ev_storage ev, w)) as [[[]|err] [s' w']]; cbn [is_ok].
  - destruct Hh as (st' & Hr' & Ha'). by apply (IH w' st').
  - by apply (IH w' st).
Qed.

(** *** Finalizing *)

Lemma decodeGroups_lookup stored gids states : decodeGroups gobDecodeState stored gids = Ok states ->
  forall g, g ∈ gids -> exists o, states !! g = Some o /\
    match stored !! g with Some b => exists s, o = Some s /\ gobDecodeState b = Ok s | None => o = None end.
Proof.
  unfold decodeGroups. intros E g Hg. destruct (map_result _ _) as [l|] eqn:El; [|done]. injection E as <-.
  apply map_result_inv in El.
  assert (Hall : forall g' o, (g', o) ∈ l -> match stored !! g' with Some b => exists s, o = Some s /\ gobDecodeState b = Ok s | None => o = None end).
  { intros g' o Hin. apply list_elem_of_lookup_1 in Hin as [i Hi].
    pose proof (Forall2_lookup_r _ _ _ _ _ El Hi) as (g'' & _ & Eg). unfold decode_group in Eg.
    destruct (stored !! g'') as [b|] eqn:Eb; [destruct (gobDecodeState b) eqn:Edb; [|done]|]; injection Eg as <- <-; rewrite Eb; eauto. }
  destruct ((list_to_map l : gmap Z (option St)) !! g) as [o|] eqn:Eo.
  - exists o. split; [done|]. apply Hall. by apply elem_of_list_to_map_2.
  - exfalso. apply not_elem_of_list_to_map_2 in Eo. apply Eo. apply list_elem_of_lookup_1 in Hg as [i Hi].
    pose proof (Forall2_lookup_l _ _ _ _ _ El Hi) as ([g' o] & Hl & Eg). apply list_elem_of_fmap. exists (g', o).
    split; [|by eapply list_elem_of_lookup_2]. unfold decode_group in Eg.
    destruct (stored !! g); [destruct (gobDecodeState _); [|done]|]; by injection Eg as <- _.
Qed.

Lemma finalize_runs (w : Worker) cc r gidData schemaData st a : ~ shared_scope (ExecutionID r) ->
  stored_rows R gobDecodeState (groups st (ExecutionID r)) a ->
  reads backend st (finalize w cc r gidData schemaData) (fun out =>
    exists b fn gids params states batch,
      enter w cc r = Ok (b, fn) /\
      (forall g, g ∈ gids -> exists o, states !! g = Some o /\ option_Forall2 R o (a !! g)) /\
      Finalize fn gids states params = Ok batch /\ NumRows batch = Z.of_nat (length gids) /\
      SerializeRecordBatch batch = Ok out).
Proof.
  intros He Ha. unfold finalize, handleAggregateFinalize.
  run_step (fun bf => enter w cc r = Ok bf). intros [b fn] Eb.
  pose proof (enter_execution _ _ _ _ _ Eb) as Ee.
  run_step (fun _ => True). intros gidBatch _.
  run_step (fun l => named_int64 "aggregate_finalize" gidBatch "group_id" = Ok l). intros gids Eg.
  run_step (fun _ => True). intros schema _.
  eapply runs_bind; [apply reads_loadAggArgs; by rewrite Ee|]. intros args _. set (p := process_params w cc r args (Some schema)).
  eapply runs_bind; [apply reads_loadStates; [by rewrite Ee|by eapply named_range]|]. intros stored ->. rewrite Ee.
  run_step (fun s => decodeGroups gobDecodeState _ gids = Ok s). intros states Es.
  run_step (fun s => Finalize fn gids states p = Ok s). intros batch Ef.
  destruct (bool_decide (NumRows batch = Z.of_nat (length gids))) eqn:En; cbn [negb]; [|apply runs_stop].
  apply runs_step. intros out Eo. split; [done|]. exists b, fn, gids, p, states, batch.
  split; [done|]. split; [|by bool_hyps]. intros g Hg.
  destruct (decodeGroups_lookup _ _ _ Es g Hg) as (o & Eo' & Ho). exists o. split; [done|].
  specialize (Ha g). rewrite restrict_lookup, decide_True in Ho by done.
  inversion Ha as [b' rows Hb Eb' Er|Eb' Er]; rewrite <- Eb' in Ho.
  - destruct Ho as (s & -> & Es'). destruct Hb as (s' & Es'' & HR). constructor. congruence.
  - subst o. constructor.
Qed.

(** C6: A distributed aggregation computes what a single list of rows would:
    over any backends that promise the abstract store, whatever processes
    handle the updates and merges of an execution, in whatever order, mixed with
    requests of other executions, and whichever of them fail, a finalize that
    succeeds in any process hands the function, for every group asked for, a
    state that stands for exactly the rows of the successful requests, merged
    as the requests say, or no state for a group that never had a row; and its
    answer has one row per group. The function and gob are as documented: an
    update adds the contributing rows of its batch, a merge appends the source's
    rows to the target's, and a decoded state stands for what was encoded. *)
Theorem distributed_aggregation (e : bytes) (evs : list event) (w0 : W) (st0 : store)
    (fw : Worker) (fs s' : aggregateStorage B) (cc : option CallContext) (r : AggregateRequest)
    (gidData schemaData out : bytes) (w' : W) :
  Forall (well_served e) evs -> shared_rep w0 st0 -> groups st0 e = ∅ ->
  ~ shared_scope e -> ExecutionID r = e ->
  let played := play e evs w0 ∅ in
  finalize fw cc r gidData schemaData (fs, played.1) = (Ok out, (s', w')) ->
  exists b fn gids params states batch,
    enter fw cc r = Ok (b, fn) /\
    (forall g, g ∈ gids -> exists o, states !! g = Some o /\ option_Forall2 R o (played.2 !! g)) /\
    Finalize fn gids states params = Ok batch /\ NumRows batch = Z.of_nat (length gids) /\
    SerializeRecordBatch batch = Ok out.
Proof.
  intros Hevs Hr He0 He Er. destruct (play_rows e evs Hevs w0 st0 ∅ Hr) as (st & Hr' & Ha).
  { intros g. rewrite He0, !lookup_empty. constructor. }
  intros played Ef. subst e.
  pose proof (finalize_runs fw cc r gidData schemaData st played.2 He Ha fs played.1 Hr') as H1. rewrite Ef in H1.
  by destruct H1 as (_ & _ & _ & H1).
Qed.
End rows.
End requests.

(** ** The arguments of the bind, and the end of an execution *)

Section bound.
Context {W B : Type} (backend : B -> FunctionStorage W) (ForShard : B -> option (string -> B)).
Context `{!SharedStorage backend} `{Aead} `{Unicode} {Wc P X St : Type}.
Context (DeserializeRecordBatch : bytes -> result string RecordBatch)
  (DeserializeSchema : bytes -> result string schema_fields)
  (SerializeSchema : schema_fields -> result string bytes)
  (read_ipc : bytes -> result string (list Field * option (list column))).
Context (MatchString : string -> string -> option bool).

Abbreviation Worker := (AggregateWorker (Wc := Wc) (P := P) (X := X) (St := St)).
Let bind := handleAggregateBind (Wc := Wc) (P := P) (X := X) (St := St) backend ForShard
  DeserializeRecordBatch DeserializeSchema SerializeSchema read_ipc MatchString.

(** What a bind leaves: the payload under its new execution, when it has
    positional arguments. *)
Lemma bind_runs (w : Worker) cc req execID st : ~ shared_scope execID ->
  runs backend st (bind w cc req execID) (fun res st' => snd res = execID /\
    exists args, ParseArguments read_ipc (BoundArguments req) = Ok args /\
      (forall b fn, enter w cc (bind_call req) = Ok (b, fn) ->
         ValidateAggregateConstConstraints MatchString (ArgumentSpecs fn) (Some args) = Ok ()) /\
      groups st' = groups st /\
      constArgs st' = if (0 <? NumArgs args)%Z
        then put (constArgs st) execID (FunctionName (bind_call req)) (BoundArguments req) else constArgs st).
Proof.
  intros He. unfold bind, handleAggregateBind.
  run_step (fun bf => enter w cc (bind_call req) = Ok bf). intros [b fn] Eb.
  eapply (runs_bind _ _ _ _ (fun args => ParseArguments read_ipc (BoundArguments req) = Ok args)).
  { intros s w' Hr. destruct (ParseArguments read_ipc (BoundArguments req)) as [args|f]; [by exists st|done]. }
  intros args Ea. eapply (runs_bind _ _ _ _ (fun _ => True)).
  { destruct (InputSchemaBytes req) as [[|x l]|]; [by apply runs_ret|by apply runs_step|by apply runs_ret]. }
  intros inputSchema _. destruct (ValidateAggregateConstConstraints _ _ _) as [[]|err] eqn:Ev; [|apply runs_stop].
  run_step (fun _ => True). intros resp _. destruct resp as [schema|]; [|apply runs_stop].
  run_step (fun _ => True). intros schemaBytes _.
  assert (Hok : forall b' fn', enter w cc (bind_call req) = Ok (b', fn') ->
    ValidateAggregateConstConstraints MatchString (ArgumentSpecs fn') (Some args) = Ok ()).
  { intros b' fn' E'. rewrite Eb in E'. by injection E' as _ <-. }
  destruct (0 <? NumArgs args)%Z eqn:En.
  - intros s w' Hr. cbn. pose proof (reads_backend backend ForShard st
      {| functionName := FunctionName (bind_call req); executionID := execID; shardKey := shardKey b |} s w' Hr) as Hb.
    unfold mbind, Serving_bind, putConstArgs, mbind, Serving_bind.
    destruct (bucket_backend ForShard _ (s, w')) as [[back|e] [s1 w1]]; [|done]. destruct Hb as (st1 & Hr1 & -> & _).
    pose proof (runs_on backend st back (AggregateConstArgsPut execID (FunctionName (bind_call req)) (BoundArguments req)) He s1 w1 Hr1) as Ho.
    cbn [executionID functionName]. destruct (on backend back _ (s1, w1)) as [[[]|e] [s2 w2]]; [|done].
    destruct Ho as (st2 & Hr2 & _ & ->). cbn. eexists. split; [exact Hr2|]. split; [done|]. exists args.
    rewrite En. by split_and!.
  - apply runs_ret. split; [done|]. exists args. rewrite En. by split_and!.
Qed.

(** The arguments a bind checked are the arguments of every later call: when
    a bind with positional arguments succeeds, its arguments met the declared
    constraints, and a later request of the execution, in any process and after
    whatever left its entry alone, loads exactly those arguments, unless the
    storage fails to answer; the bind changes no group's state. *)
Theorem bound_arguments_reload (w : Worker) (cc : option CallContext) (req : AggregateBindRequest)
    (execID schema id : bytes) (args : Arguments) (b b2 : stateBucket) (fn : AggregateFunction St)
    (s s' s2 s2' : aggregateStorage B) (wa wb wc wd : W) (st : store) (loaded : result agg_error (option Arguments)) :
  ~ shared_scope execID -> shared_rep wa st ->
  ParseArguments read_ipc (BoundArguments req) = Ok args -> (0 < NumArgs args)%Z -> BoundArguments req <> [] ->
  enter w cc (bind_call req) = Ok (b, fn) ->
  bind w cc req execID (s, wa) = (Ok (schema, id), (s', wb)) ->
  (forall stb, shared_rep wb stb -> exists stc, shared_rep wc stc /\
     constArgs stc execID !! FunctionName (bind_call req) = constArgs stb execID !! FunctionName (bind_call req)) ->
  executionID b2 = execID -> functionName b2 = FunctionName (bind_call req) ->
  loadAggArgs backend ForShard read_ipc b2 (s2, wc) = (loaded, (s2', wd)) ->
  id = execID /\ ValidateAggregateConstConstraints MatchString (ArgumentSpecs fn) (Some args) = Ok () /\
  (loaded = Ok (Some args) \/
   loaded = Ok None /\ exists e x, getConstArgs backend ForShard b2 (s2, wc) = (Err e, x)) /\
  exists stb, shared_rep wb stb /\ groups stb = groups st.
Proof.
  intros He Hr Ea Hn Hne Eb Ebind Hkeep Ee Ef El.
  pose proof (bind_runs w cc req execID st He s wa Hr) as Hb. rewrite Ebind in Hb.
  destruct Hb as (stb & Hrb & Hid & args' & Ea' & Hv & Hg & Hc). rewrite Ea in Ea'. injection Ea' as <-.
  rewrite (proj2 (Z.ltb_lt _ _)) in Hc by done. split; [done|]. split; [by eapply Hv|]. split; [|by exists stb].
  destruct (Hkeep stb Hrb) as (stc & Hrc & Hsame). rewrite Hc in Hsame. unfold put in Hsame.
  rewrite fn_lookup_insert, lookup_insert_eq in Hsame.
  assert (Hread : reads backend stc (getConstArgs backend ForShard b2) (fun o => o = Some (BoundArguments req))).
  { unfold getConstArgs. eapply runs_bind; [apply reads_backend|]. intros back _.
    eapply runs_weaken; [apply reads_on; [cbn; by rewrite Ee|done]|]. intros o st' [-> Ho]. split; [done|].
    rewrite Ho. cbn. by rewrite Ee, Ef, Hsame. }
  specialize (Hread s2 wc Hrc). unfold loadAggArgs in El.
  destruct (getConstArgs backend ForShard b2 (s2, wc)) as [[o|e] [s3 w3]] eqn:Eg.
  - destruct Hread as (_ & _ & _ & ->). destruct (BoundArguments req) as [|x l]; [done|]. rewrite Ea in El.
    injection El as <- _ _. by left.
  - injection El as <- _ _. right. split; [done|]. by eexists _, _.
Qed.
End bound.

(** However the requests of a process interleave, they all work on the backend
    it caches first. *)
Fixpoint caches {B} (s : aggregateStorage B) (bs : list B) : list B * aggregateStorage B :=
  match bs with
  | [] => ([], s)
  | b :: bs => let '(x, s) := cache s b in let '(xs, s) := caches s bs in (x :: xs, s)
  end.
Lemma one_backend {B} (bs : list B) : forall s,
  Forall (fun x => Some x = back (caches s bs).2) (caches s bs).1 /\
  (forall b, back s = Some b -> back (caches s bs).2 = Some b).
Proof.
  induction bs as [|b bs IH]; intros s; cbn [caches]; [split; [constructor|done]|].
  destruct (cache s b) as [x s1] eqn:E. destruct (IH s1) as [H1 H2].
  assert (back s1 = Some x /\ forall y, back s = Some y -> y = x) as [Ex Hx].
  { unfold cache in E. destruct (back s) as [y|] eqn:Ey; injection E as <- <-; split; try done. by intros ? [= ->]. }
  specialize (H2 x Ex). destruct (caches s1 bs) as [xs s2]. cbn [fst snd] in *. split.
  - constructor; [by rewrite H2|done].
  - intros y Hy. by rewrite (Hx y Hy), H2.
Qed.

(** ** A sum over two processes *)

Module SumExample.
#[local] Existing Instance DigestAead.digest_aead.
#[local] Existing Instance AsciiText.ascii_text.

(** The state is the sum, encoded as an int64. *)
Definition encode (s : Z) : result string bytes :=
  if bool_decide (int64_range s) then Ok (le_enc 8 (u64 s)) else Err "out of range".
Definition decode (b : bytes) : result string Z := Ok (s64 (le_dec b)).

Definition values (gids : list Z) (cols : list Array) : list (Z * Z) :=
  match cols with
  | [col] => omap (fun gc => match snd gc with CInt v => Some (fst gc, v) | _ => None end) (zip gids (Cells col))
  | _ => []
  end.
Definition add_value (m : gmap Z Z) (gv : Z * Z) : gmap Z Z :=
  <[fst gv := (default 0 (m !! fst gv) + snd gv)%Z]> m.

Definition group_field (name : string) : Field :=
  {| FieldName := name; FieldType := INT64; Nullable := true; Metadata := [] |}.
Definition int_column (name : string) (l : list (option Z)) : Field * Array :=
  (group_field name, {| ArrType := INT64; Cells := map (fun v => match v with Some z => CInt z | None => CNull end) l |}).
Definition batch_of (cols : list (string * list (option Z))) : RecordBatch :=
  {| SchemaMetadata := []; Columns := map (fun c => int_column (fst c) (snd c)) cols;
     NumRows := match cols with c :: _ => Z.of_nat (length (snd c)) | [] => 0 end |}.

Definition sum : AggregateFunction Z :=
  {| ArgumentSpecs := []; OnBind := fun _ => Ok (Some [group_field "sum"]); NewState := fun _ => 0%Z;
     Update := fun states gids cols _ => Ok (foldl add_value states (values gids cols));
     Combine := fun s t _ => Ok (t + s)%Z;
     Finalize := fun gids states _ =>
       Ok (batch_of [("sum", map (fun g => default None (states !! g)) gids)]);
     Windowed := None; Streaming := None |}.

(** Byte strings that stand for batches. *)
Definition batches (b : bytes) : result string RecordBatch :=
  match b with
  | [x01] => Ok (batch_of [(GroupColumnName, [Some 1; Some 2; Some 1]%Z); ("v", [Some 10; None; Some 7]%Z)])
  | [x02] => Ok (batch_of [("v", [Some 100; Some 1]%Z); (GroupColumnName, [Some 3; Some 1]%Z)])
  | [x03] => Ok (batch_of [("source_group_id", [Some 3; Some 4]%Z); ("target_group_id", [Some 1; Some 5]%Z)])
  | [x04] => Ok (batch_of [("group_id", [Some 1; Some 2; Some 3]%Z)])
  | _ => Err "no batch"
  end.
(** The cells of the first column, as a result. *)
Definition rendered (b : RecordBatch) : result string bytes :=
  Ok (flat_map (fun fa => flat_map (fun c => match c with CInt z => [Z_byte z] | _ => [xff] end) (Cells (snd fa))) (Columns b)).
Definition schema (b : bytes) : result string (list Field) := Ok [group_field "sum"].
Definition no_ipc (b : bytes) : result string (list Field * option (list column)) := Err "no stream".

Definition worker_of (fn : AggregateFunction Z) : AggregateWorker (Wc := ()) (P := ()) (X := ()) (St := Z) :=
  {| served := {| seal := {| sealOpaqueData := false; httpSigningKey := []; signingKeyConfigured := false |};
                  CatalogRoute.catalogName := "own"; catalogAliases := ∅; catalogAliasInfos := ∅;
                  extraCatalogs := ∅; routes := ∅; routesPrepared := true |};
     aggregates := {| Overload.catalogName := "own";
                      reg := fun k n => if bool_decide (k = kindAggregate /\ n = "sum") then [fn] else [];
                      funcOrigins := fun _ _ => [] |} |}.
Definition worker := worker_of sum.
Definition request : AggregateRequest :=
  {| FunctionName := "sum"; ExecutionID := sb "execution"; AttachOpaqueData := None; RequestSchemaPath := None |}.
Definition process : aggregateStorage () := setResolver newAggregateStorage (Ok ()).
Definition event_of (k : event_kind) : event :=
  {| ev_worker := worker; ev_storage := process; ev_call := None; ev_request := request; ev_kind := k |}.
(** Two updates and a merge; the third request fails. *)
Definition events : list event :=
  [event_of (EvUpdate [x01]); event_of (EvUpdate [x02]); event_of (EvUpdate []); event_of (EvCombine [x03])].

Definition shared : () -> FunctionStorage conn := fun _ => sqliteStorage.
Definition scope (s : bytes) : Prop := s = sb "attach".
#[local] Instance sharedContract : SharedStorage shared :=
  shared_contract (FunctionStorage0 := sqliteStorage) (StorageContract0 := sqliteContract scope).

Definition R (s : Z) (rows : list Z) : Prop := s = foldr Z.add 0%Z rows.
Definition order (V : Type) (m : gmap Z V) : list (Z * V) := map_to_list m.

Lemma R_app s xs t ys : R s xs -> R t ys -> R (t + s) (ys ++ xs).
Proof.
  unfold R. intros -> ->. induction ys as [|y ys IH]; cbn; [done|]. rewrite <- IH. lia.
Qed.

Lemma sum_lawful : lawful R values sum.
Proof.
  split.
  - done.
  - intros states a gids cols p states' Hs [= <-]. revert states a Hs.
    induction (values gids cols) as [|[g v] l IH]; intros states a Hs; [done|]. cbn [foldl]. apply IH.
    intros i. unfold add_value, add_row. cbn [fst snd]. destruct (decide (i = g)) as [->|];
      [rewrite !lookup_insert_eq|by rewrite !lookup_insert_ne].
    constructor. specialize (Hs g). rewrite Z.add_comm. inversion Hs as [s rows HR|]; cbn.
    + replace (v + s)%Z with (s + (v + 0))%Z by lia. by apply R_app.
    + unfold R. cbn. lia.
  - intros s t xs ys p u Hx Hy [= <-]. by apply R_app.
Qed.

Lemma sum_faithful : gob_faithful R encode decode.
Proof.
  intros s rows b HR E. unfold encode in E. destruct (bool_decide (int64_range s)) eqn:Es; [|done].
  apply ok_inj in E as <-. bool_hyps. exists s. split; [|done]. unfold decode. rewrite le_dec_enc.
  f_equal. change (256 ^ Z.of_nat 8)%Z with (2 ^ 64)%Z. unfold u64. rewrite Zmod_mod. fold (u64 s).
  rewrite s64_u64. by apply s64_small.
Qed.

Lemma values_local gids cols gr : gr ∈ values gids cols -> fst gr ∈ gids.
Proof.
  unfold values. intros Hv. destruct cols as [|col [|]]; [by apply not_elem_of_nil in Hv| |by apply not_elem_of_nil in Hv].
  apply list_elem_of_omap in Hv as ([g c] & Hz & E). cbn in E. destruct c; try done. injection E as <-. cbn.
  by eapply elem_of_zip_l.
Qed.

Lemma served_well ev : ev ∈ events -> well_served shared R values (sb "execution") ev.
Proof.
  intros Hev. assert (ev_worker ev = worker /\ ev_request ev = request /\ ev_call ev = None) as (Hw & Hr & Hc).
  { repeat (apply elem_of_cons in Hev as [->|Hev]; [done|]). by apply not_elem_of_nil in Hev. }
  split; rewrite Hr; [by intros E|]. rewrite Hw, Hc. intros b fn E.
  injection E as _ <-. cbn [ExecutionID request]. rewrite decide_True by done. apply sum_lawful.
Qed.

(** Group 1 has 10, 7 and 1 from the updates and 100 from group 3; group 2 only
    had a null. *)
Lemma distributed_aggregation_witness :
  let played := play (Row := Z) shared (fun _ => None) order encode decode batches no_ipc values
                  (sb "execution") events (open []) ∅ in
  let fin := handleAggregateFinalize shared (fun _ => None) decode batches rendered schema no_ipc
               worker None request [x04] [] (process, played.1) in
  fin.1 = Ok [x76; xff; x64] /\
  exists gids states params batch,
    (forall g, g ∈ gids -> exists o, states !! g = Some o /\ option_Forall2 R o (played.2 !! g)) /\
    Finalize sum gids states params = Ok batch /\ rendered batch = Ok [x76; xff; x64].
Proof.
  intros played fin. split; [vm_compute; reflexivity|].
  pose (T := distributed_aggregation shared (fun _ => None) order (fun V m => reflexivity _)
    encode decode batches rendered schema no_ipc R values sum_faithful values_local
    (sb "execution") events (open []) empty_store worker process fin.2.1 None request [x04] []
    [x76; xff; x64] fin.2.2).
  destruct T as (b & fn & gids & params & states & batch & Eb & Hg & Ef & En & Eo).
  - apply Forall_forall. exact served_well.
  - apply (open_represents scope).
  - reflexivity.
  - intros E. discriminate E.
  - reflexivity.
  - change (fin = (Ok [x76; xff; x64], (fin.2.1, fin.2.2))).
    assert (fin.1 = Ok [x76; xff; x64]) as E by (vm_compute; reflexivity).
    destruct fin as [res [s' w']]. cbn in *. congruence.
  - assert (fn = sum) as -> by (injection Eb as _ <-; reflexivity).
    exists gids, states, params, batch. auto.
Defined.

(** A bind with one argument, which a second process loads. *)
Definition one_argument := sends (engine_args [ints 7] []).
Definition bind_request : AggregateBindRequest :=
  {| bind_call := request; BoundArguments := [x01]; InputSchemaBytes := None; SettingsBytes := None;
     SecretsBytes := None; ArgumentNames := None |}.
Definition bind_execution : bytes := sb "fresh".

Lemma bound_arguments_reload_witness :
  exists args, ParseArguments one_argument [x01] = Ok args /\
  let b2 := {| functionName := "sum"; executionID := bind_execution; shardKey := "" |} in
  let bound := handleAggregateBind shared (fun _ => None) batches schema (fun _ => Ok []) one_argument
    (fun _ _ => None) worker None bind_request bind_execution (process, open []) in
  let loaded := (loadAggArgs shared (fun _ => None) one_argument b2 (process, bound.2.2)).1 in
  loaded = Ok (Some args) \/
  loaded = Ok None /\ exists e x, getConstArgs shared (fun _ => None) b2 (process, bound.2.2) = (Err e, x).
Proof.
  pose (b2 := {| functionName := "sum"; executionID := bind_execution; shardKey := "" |}).
  pose (bound := handleAggregateBind shared (fun _ => None) batches schema (fun _ => Ok []) one_argument
    (fun _ _ => None) worker None bind_request bind_execution (process, open [])).
  pose (loaded := loadAggArgs shared (fun _ => None) one_argument b2 (process, bound.2.2)).
  destruct (ParseArguments one_argument [x01]) as [args|] eqn:Ea; [|discriminate Ea]. exists args. split; [reflexivity|].
  destruct (bound_arguments_reload shared (fun _ => None) batches schema (fun _ => Ok []) one_argument
    (fun _ _ => None) worker None bind_request bind_execution [] bind_execution args
    {| functionName := "sum"; executionID := sb "execution"; shardKey := "" |} b2 sum
    process bound.2.1 process loaded.2.1 (open []) bound.2.2 bound.2.2 loaded.2.2 empty_store loaded.1)
    as (_ & _ & T & _).
  - intros E. discriminate E.
  - apply (open_represents scope).
  - exact Ea.
  - assert (match ParseArguments one_argument [x01] with Ok a => NumArgs a | Err _ => 0%Z end = 1%Z) as E by (vm_compute; reflexivity).
    rewrite Ea in E. lia.
  - discriminate.
  - reflexivity.
  - assert (bound.1 = Ok ([], bind_execution)) as E by (vm_compute; reflexivity).
    change (bound = (Ok ([], bind_execution), (bound.2.1, bound.2.2))). destruct bound as [? []]. cbn in *. congruence.
  - intros st Hst. exists st. split; [exact Hst|reflexivity].
  - reflexivity.
  - reflexivity.
  - change (loaded = (loaded.1, (loaded.2.1, loaded.2.2))). by destruct loaded as [? []].
  - exact T.
Defined.
End SumExample.
