(* ===== verification/AggregateWindow.v ===== *)
(** * AggregateWindow: windowed and streaming aggregates
    (vgi/aggregate_helpers.go, and the window handlers of
    vgi/aggregate_protocol.go; vgi/aggregate_streaming.go)

    A window partition is sent once, unpacked for WindowInit and kept in the
    shared storage; each row's value is then computed from the partition any
    process reloads. A streaming aggregate keeps a session in one process
    instead. *)

From stdpp Require Import functions.
From S2P Require Import Prelude Bytes Strings Unicode ArrowTypes ArrowData Arguments.
From S2P Require Import Envelope CatalogContents CatalogRoute Overload Storage Aggregate.

(** ** Packed columns of a partition *)

Definition bit_of (packed : bytes) (i : nat) : bool :=
  match packed !! (i / 8)%nat with
  | Some b => Z.testbit (byte_Z b) (Z.of_nat (i mod 8))
  | None => false
  end.

(** No mask when the bytes are empty; a negative row count panics. *)
Definition unpackBoolMask (packed : bytes) (rowCount : Z) : result agg_error (option (list bool)) :=
  match packed with
  | [] => Ok None
  | _ => if (rowCount <? 0)%Z then Err (AggPanic "makeslice: len out of range")
         else Ok (Some (map (bit_of packed) (seq 0 (Z.to_nat rowCount))))
  end.

Definition int64_at (data : bytes) (i : nat) : Z := s64 (le_dec (slice data (8 * i) (8 * i + 8))).
Definition unpackFrameStats (data : bytes) : (Z * Z) * (Z * Z) :=
  if (length data <? 32)%nat then ((0, 0), (0, 0))%Z
  else ((int64_at data 0, int64_at data 1), (int64_at data 2, int64_at data 3)).

(** A byte per column, false for the columns beyond the data. *)
Definition unpackAllValid (data : bytes) (numCols : nat) : list bool :=
  map (fun i => match data !! i with Some b => negb (bool_decide (b = x00)) | None => false end) (seq 0 numCols).

(** ** Results *)

(** The cell of a value in a column of a type, [None] for a value of another kind. *)
Definition scalar_cell (dt : DataType) (v : option any) : option cell :=
  match dt, v with
  | (INT64 | FLOAT64 | STRING | BOOL | BINARY), None => Some CNull
  | INT64, Some (AInt z | AInt64 z | AInt32 z) => Some (CInt z)
  | FLOAT64, Some (AFloat64 f | AFloat32 f) => Some (CFloat f)
  | FLOAT64, Some (AInt z | AInt64 z) => Some (CFloat (float64_of_int z))
  | STRING, Some (AString s) => Some (CStr s)
  | BOOL, Some (ABool b) => Some (CBool b)
  | BINARY, Some (ABytes b) => Some (CBin b)
  | BINARY, Some (AString s) => Some (CBin (sb s))
  | _, _ => None
  end.

Definition buildScalarColumn (dt : DataType) (values : list (option any)) : result string Array :=
  match dt with
  | INT64 | FLOAT64 | STRING | BOOL | BINARY =>
      match map_opt (scalar_cell dt) values with
      | Some cells => Ok {| ArrType := dt; Cells := cells |}
      | None => Err "buildScalarColumn: unsupported value"
      end
  | _ => Err "buildScalarColumn: unsupported type"
  end.

Definition buildBatchResult (values : list (option any)) (outputSchema : list Field) : result string RecordBatch :=
  match outputSchema with
  | [field] =>
      let? col := buildScalarColumn (FieldType field) values in
      Ok {| SchemaMetadata := []; Columns := [(field, col)]; NumRows := Z.of_nat (length values) |}
  | _ => Err "buildBatchResult: output schema must have exactly 1 field"
  end.
Definition buildScalarResultBatch (value : option any) (outputSchema : list Field) : result string RecordBatch :=
  match outputSchema with
  | [field] =>
      let? col := buildScalarColumn (FieldType field) [value] in
      Ok {| SchemaMetadata := []; Columns := [(field, col)]; NumRows := 1 |}
  | _ => Err "buildScalarResultBatch: output schema must have exactly 1 field"
  end.

(** ** Frames *)

(** The frames of one row in the flat arrays of a batch; a frame beyond an
    array, or a negative count, panics. *)
Definition row_frames (starts ends : list Z) (offset nf : Z) : result agg_error (list (Z * Z)) :=
  if (nf <? 0)%Z then Err (AggPanic "makeslice: len out of range") else
  map_result (fun k =>
      match (starts !! k, ends !! k) with
      | (Some s, Some e) => Ok (s, e)
      | _ => Err (AggPanic "index out of range")
      end) (seq (Z.to_nat offset) (Z.to_nat nf)).

Section windows.
Context {St : Type} (fn : WindowFunction St).

(** The values of [Count] rows from [rowIdx] on. *)
Fixpoint window_values (rid : Z) (offset : Z) (framesPerRow : list Z) (starts ends : list Z)
    (partition : WindowPartition) (ws : option St) (p : AggregateProcessParams)
  : result agg_error (list (option any)) :=
  match framesPerRow with
  | [] => Ok []
  | nf :: framesPerRow =>
      let? subframes := row_frames starts ends offset nf in
      match Window fn (s64 rid) subframes partition ws p with
      | Err e => Err (Failure e)
      | Ok val =>
          let? vals := window_values (rid + 1) (offset + nf) framesPerRow starts ends partition ws p in
          Ok (val :: vals)
      end
  end.
End windows.

(** ** Handlers *)

(** What a window_init request and a cached payload have in common. *)
Record PartitionData := {
  PartitionBatch : bytes;
  OutputSchema : bytes;
  FilterMaskBytes : bytes;
  FrameStatsBytes : bytes;
  AllValidBytes : bytes;
  PartitionRows : Z
}.
Record windowPartitionPayload := { partition_data : PartitionData; WindowState : bytes }.

Section handlers.
Context {W B : Type} (backend : B -> FunctionStorage W) (ForShard : B -> option (string -> B)).
Context `{Aead} `{Unicode} {Wc P X St : Type}.
Context (gobEncodeState : St -> result string bytes) (gobDecodeState : bytes -> result string St).
(** encoding/gob on the payload. *)
Context (gobEncodePayload : windowPartitionPayload -> bytes)
  (gobDecodePayload : bytes -> result string windowPartitionPayload).
Context (DeserializeRecordBatch : bytes -> result string RecordBatch)
  (SerializeRecordBatch : RecordBatch -> result string bytes)
  (DeserializeSchema : bytes -> result string (list Field))
  (read_ipc : bytes -> result string (list Field * option (list column))).

Abbreviation Worker := (AggregateWorker (Wc := Wc) (P := P) (X := X) (St := St)).
Let Handler (A : Type) : Type := @Serving W B A.
Let entering := entering (W := W) (B := B) (Wc := Wc) (P := P) (X := X) (St := St).
Let loadAggArgs := loadAggArgs backend ForShard read_ipc.
Definition give {A} (r : result agg_error A) : Handler A := fun s => (r, s).

Definition encodeWindowPartitionPayload (d : PartitionData) (windowState : bytes) : bytes :=
  gobEncodePayload {| partition_data := d; WindowState := windowState |}.
Definition decodeWindowPartitionPayload (data : bytes) : result agg_error windowPartitionPayload :=
  match gobDecodePayload data with
  | Ok p => Ok p
  | Err e => Err (Failure ("decodeWindowPartitionPayload: " +:+ e))
  end.

Definition unpackWindowPartition (d : PartitionData) : result agg_error WindowPartition :=
  match DeserializeRecordBatch (PartitionBatch d) with
  | Err e => Err (Failure ("partition_batch: " +:+ e))
  | Ok batch =>
      match DeserializeSchema (OutputSchema d) with
      | Err e => Err (Failure ("output_schema: " +:+ e))
      | Ok outSchema =>
          let? mask := unpackBoolMask (FilterMaskBytes d) (PartitionRows d) in
          Ok {| Inputs := batch; RowCount := PartitionRows d; FilterMask := mask;
                FrameStats := unpackFrameStats (FrameStatsBytes d);
                AllValid := unpackAllValid (AllValidBytes d) (length (Columns batch));
                PartitionSchema := outSchema |}
      end
  end.

(** The partition and the WindowInit state that window_init kept. *)
Definition loadCachedPartition (b : stateBucket) (partitionID : Z) : Handler (WindowPartition * option St) :=
  data ← getWindowPartition backend ForShard b partitionID;
  match data with
  | None => stop (Failure "aggregate_window: unknown partition_id (window_init never ran or destructor already fired)")
  | Some data =>
      payload ← give (decodeWindowPartitionPayload data);
      partition ← give (unpackWindowPartition (partition_data payload));
      match WindowState payload with
      | [] => mret (partition, None)
      | ws => s ← step Failure (gobDecodeState ws); mret (partition, Some s)
      end
  end.

Definition handleAggregateWindowInit (w : Worker) (cc : option CallContext) (r : AggregateRequest)
    (partitionID : Z) (d : PartitionData) : Handler () :=
  '(b, fn) ← entering w cc r;
  match Windowed fn with
  | Some wfn =>
      partition ← give (unpackWindowPartition d);
      args ← loadAggArgs b;
      let params := process_params w cc r args (Some (PartitionSchema partition)) in
      ws ← step Failure (WindowInit wfn partition params);
      wsBytes ← match ws with
                | None => mret []
                | Some ws => step Failure (gobEncodeState ws)
                end;
      putWindowPartition backend ForShard b partitionID (encodeWindowPartitionPayload d wsBytes)
  | None => putWindowPartition backend ForShard b partitionID (encodeWindowPartitionPayload d [])
  end.

Definition not_windowed (r : AggregateRequest) : agg_error :=
  Failure (FunctionName r +:+ " does not implement AggregateWindowFunction").

Definition handleAggregateWindow (w : Worker) (cc : option CallContext) (r : AggregateRequest)
    (partitionID RID : Z) (FrameStarts FrameEnds : list Z) : Handler bytes :=
  '(b, fn) ← entering w cc r;
  match Windowed fn with
  | None => stop (not_windowed r)
  | Some wfn =>
      '(partition, ws) ← loadCachedPartition b partitionID;
      args ← loadAggArgs b;
      let params := process_params w cc r args (Some (PartitionSchema partition)) in
      if negb (bool_decide (length FrameStarts = length FrameEnds))
      then stop (Failure "aggregate_window: frame_starts/frame_ends length mismatch") else
      val ← step Failure (Window wfn RID (zip FrameStarts FrameEnds) partition ws params);
      batch ← step Failure (buildScalarResultBatch val (PartitionSchema partition));
      step Failure (SerializeRecordBatch batch)
  end.

Definition handleAggregateWindowBatch (w : Worker) (cc : option CallContext) (r : AggregateRequest)
    (partitionID RowIdx Count : Z) (FramesPerRow FrameStarts FrameEnds : list Z) : Handler bytes :=
  '(b, fn) ← entering w cc r;
  match Windowed fn with
  | None => stop (not_windowed r)
  | Some wfn =>
      '(partition, ws) ← loadCachedPartition b partitionID;
      args ← loadAggArgs b;
      let params := process_params w cc r args (Some (PartitionSchema partition)) in
      if negb (bool_decide (Count = Z.of_nat (length FramesPerRow)))
      then stop (Failure "aggregate_window_batch: count but frames_per_row has other entries") else
      results ← give (window_values wfn RowIdx 0 FramesPerRow FrameStarts FrameEnds partition ws params);
      batch ← step Failure (buildBatchResult results (PartitionSchema partition));
      step Failure (SerializeRecordBatch batch)
  end.

Definition handleAggregateWindowDestructor (w : Worker) (cc : option CallContext) (r : AggregateRequest)
    (partitionID : Z) : Handler () :=
  key ← give (match shardKeyForAttachPtr (served w) (AttachOpaqueData r) cc with
              | Ok k => Ok k | Err e => Err (AttachError e) end);
  deleteWindowPartition backend ForShard
    {| functionName := FunctionName r; executionID := ExecutionID r; shardKey := key |} partitionID.
End handlers.

(** ** Bits *)

Lemma testbit_byte b x i : (0 <= b < 256)%Z -> (0 <= x)%Z -> (0 <= i)%Z ->
  Z.testbit (b + 256 * x) i = if (i <? 8)%Z then Z.testbit b i else Z.testbit x (i - 8).
Proof.
  intros Hb Hx Hi. change 256%Z with (2 ^ 8)%Z in *. destruct (i <? 8)%Z eqn:E; bool_hyps.
  - rewrite <- (Z.mod_pow2_bits_low (b + 2 ^ 8 * x) 8 i) by lia.
    rewrite Z.mul_comm, Z.mod_add by lia. by rewrite Z.mod_small.
  - replace i with ((i - 8) + 8)%Z at 1 by lia. rewrite <- Z.div_pow2_bits by lia.
    rewrite Z.mul_comm, Z.div_add, Z.div_small by lia. done.
Qed.

Lemma bit_of_le_dec packed : forall i, bit_of packed i = Z.testbit (le_dec packed) (Z.of_nat i).
Proof.
  induction packed as [|b l IH]; intros i.
  { unfold bit_of. rewrite lookup_nil. symmetry. apply Z.testbit_0_l. }
  change (le_dec (b :: l)) with (byte_Z b + 256 * le_dec l)%Z.
  rewrite testbit_byte; [|apply byte_Z_range|apply le_dec_bound|lia].
  destruct (Z.of_nat i <? 8)%Z eqn:E; bool_hyps.
  - unfold bit_of. rewrite Nat.div_small by lia. cbn [lookup list_lookup]. by rewrite Nat.mod_small by lia.
  - replace i with (i - 8 + 1 * 8)%nat at 1 by lia. unfold bit_of. rewrite Nat.div_add, Nat.Div0.mod_add by lia.
    rewrite Nat.add_1_r. cbn [lookup list_lookup]. replace (Z.of_nat i - 8)%Z with (Z.of_nat (i - 8)) by lia. apply IH.
Qed.

Definition pack_int64s (l : list Z) : bytes := concat (map (fun z => le_enc 8 (u64 z)) l).

Lemma dec_enc_int64 z : int64_range z -> s64 (le_dec (le_enc 8 (u64 z))) = z.
Proof.
  intros Hz. rewrite le_dec_enc. change (256 ^ Z.of_nat 8)%Z with (2 ^ 64)%Z. unfold u64. rewrite Zmod_mod.
  fold (u64 z). rewrite s64_u64. by apply s64_small.
Qed.
Lemma int64_at_pack a l b r : length l = (8 * b)%nat -> int64_range a ->
  int64_at (l ++ le_enc 8 (u64 a) ++ r) b = a.
Proof.
  intros Hl Ha. unfold int64_at, slice. rewrite drop_app_exact by lia.
  rewrite take_app_exact by (rewrite length_le_enc; lia). by apply dec_enc_int64.
Qed.

(** A partition's packed columns are read as they were written: row i of a
    filter mask is bit i of its bytes taken as one little-endian number, false
    beyond them; and the four deltas of the frame statistics are the int64s the
    bytes encode, at their places. *)
Theorem packed_columns (packed : bytes) (rowCount a b c d : Z) :
  packed <> [] -> (0 <= rowCount)%Z -> Forall int64_range [a; b; c; d] ->
  (exists mask, unpackBoolMask packed rowCount = Ok (Some mask) /\ length mask = Z.to_nat rowCount /\
     forall i, (i < Z.to_nat rowCount)%nat -> mask !! i = Some (Z.testbit (le_dec packed) (Z.of_nat i))) /\
  unpackFrameStats (pack_int64s [a; b; c; d]) = ((a, b), (c, d)).
Proof.
  intros Hp Hr Hf. split.
  - unfold unpackBoolMask. destruct packed as [|x packed]; [done|]. rewrite (proj2 (Z.ltb_ge _ _)) by done.
    eexists. split; [done|]. rewrite length_map, length_seq. split; [done|]. intros i Hi.
    rewrite list_lookup_fmap, lookup_seq_lt by done. cbn. f_equal. apply bit_of_le_dec.
  - rewrite !Forall_cons in Hf. destruct Hf as (Ha & Hb & Hc & Hd & _).
    unfold unpackFrameStats, pack_int64s. cbn [map concat]. rewrite app_nil_r.
    rewrite !length_app, !length_le_enc. cbn [Nat.ltb Nat.leb Nat.add].
    set (ea := le_enc 8 (u64 a)). set (eb := le_enc 8 (u64 b)). set (ec := le_enc 8 (u64 c)). set (ed := le_enc 8 (u64 d)).
    assert (forall z, length (le_enc 8 (u64 z)) = 8%nat) as Hlen by (intros z; apply length_le_enc).
    f_equal; f_equal.
    + apply (int64_at_pack a [] 0); done.
    + apply (int64_at_pack b ea 1); [apply Hlen|done].
    + rewrite app_assoc. apply (int64_at_pack c (ea ++ eb) 2); [|done]. rewrite length_app. unfold ea, eb. by rewrite !Hlen.
    + rewrite !app_assoc. rewrite <- (app_nil_r (((ea ++ eb) ++ ec) ++ ed)), <- (app_assoc _ ed []).
      apply (int64_at_pack d ((ea ++ eb) ++ ec) 3); [|done]. rewrite !length_app. unfold ea, eb, ec. by rewrite !Hlen.
Qed.

Lemma packed_columns_witness :
  unpackFrameStats (pack_int64s [-1; 0; 2 ^ 62; -5]%Z) = ((-1, 0), (2 ^ 62, -5))%Z /\
  exists mask, unpackBoolMask [x05; x01] 10 = Ok (Some mask) /\ mask !! 8%nat = Some true /\ mask !! 1%nat = Some false.
Proof.
  destruct (packed_columns [x05; x01] 10 (-1) 0 (2 ^ 62) (-5)) as [(mask & E & _ & Hm) Hf].
  - discriminate.
  - lia.
  - apply (bool_decide_unpack _). vm_compute. exact I.
  - split; [exact Hf|]. exists mask. split; [exact E|]. split; [exact (Hm 8%nat ltac:(lia))|exact (Hm 1%nat ltac:(lia))].
Defined.

(** ** A batch of windows is its rows *)

Fixpoint split_frames (framesPerRow : list Z) (frames : list (Z * Z)) : list (list (Z * Z)) :=
  match framesPerRow with
  | [] => []
  | nf :: rest => take (Z.to_nat nf) frames :: split_frames rest (drop (Z.to_nat nf) frames)
  end.
Definition total (framesPerRow : list Z) : Z := foldr Z.add 0%Z framesPerRow.

Lemma row_frames_split starts ends offset nf : length starts = length ends -> (0 <= offset)%Z -> (0 <= nf)%Z ->
  (offset + nf <= Z.of_nat (length starts))%Z ->
  row_frames starts ends offset nf = Ok (take (Z.to_nat nf) (drop (Z.to_nat offset) (zip starts ends))).
Proof.
  intros Hl Ho Hn Hb. unfold row_frames. rewrite (proj2 (Z.ltb_ge _ _)) by done.
  set (o := Z.to_nat offset). set (n := Z.to_nat nf). assert (o + n <= length starts)%nat as Hlen by lia.
  clearbody o n. clear Hb Hn Ho. revert o Hlen. induction n as [|n IH]; intros o Hlen; [done|]. cbn [seq map_result].
  destruct (lookup_lt_is_Some_2 starts o ltac:(lia)) as [s Es].
  destruct (lookup_lt_is_Some_2 ends o ltac:(lia)) as [e Ee].
  rewrite Es, Ee, (IH (S o)) by lia.
  assert (zip starts ends !! o = Some (s, e)) as Ez by (apply lookup_zip_Some; by split).
  by rewrite (drop_S _ _ _ Ez).
Qed.

Section batching.
Context {St : Type} (fn : WindowFunction St).

(** The per-row calls, each with its own row number and frames. *)
Definition per_row (partition : WindowPartition) (ws : option St) (p : AggregateProcessParams)
    (row : Z * list (Z * Z)) : result agg_error (option any) :=
  match Window fn (s64 (fst row)) (snd row) partition ws p with Ok v => Ok v | Err e => Err (Failure e) end.
Fixpoint number_rows (rid : Z) (l : list (list (Z * Z))) : list (Z * list (Z * Z)) :=
  match l with [] => [] | x :: l => (rid, x) :: number_rows (rid + 1) l end.

Definition cells_of (b : RecordBatch) : list cell := flat_map (fun fa => Cells (snd fa)) (Columns b).

Lemma window_values_rows starts ends partition ws p : length starts = length ends ->
  forall fpr rid offset, Forall (fun n => 0 <= n)%Z fpr -> (0 <= offset)%Z ->
  (offset + total fpr <= Z.of_nat (length starts))%Z ->
  window_values fn rid offset fpr starts ends partition ws p =
  map_result (per_row partition ws p)
    (number_rows rid (split_frames fpr (drop (Z.to_nat offset) (zip starts ends)))).
Proof.
  intros Hl. induction fpr as [|nf fpr IH]; intros rid offset Hf Ho Hb; [done|].
  inversion_clear Hf as [|? ? Hnf Hf']. cbn [window_values split_frames number_rows map_result total foldr] in *.
  fold (total fpr) in Hb. assert (0 <= total fpr)%Z as Ht.
  { clear -Hf'. induction Hf'; cbn; [lia|]. unfold total in *. lia. }
  rewrite row_frames_split by (try done; lia). unfold per_row at 1. cbn [fst snd].
  destruct (Window fn _ _ partition ws p) as [v|e]; [|done].
  rewrite IH by (try done; lia). rewrite drop_drop. by replace (Z.to_nat (offset + nf)) with (Z.to_nat offset + Z.to_nat nf)%nat by lia.
Qed.

Lemma map_opt_cells {A V} (f : A -> option V) l cells : map_opt f l = Some cells ->
  Forall2 (fun a c => f a = Some c) l cells.
Proof.
  revert cells. induction l as [|a l IH]; intros cells E; cbn in E; [by injection E as <-|].
  destruct (f a) eqn:Ea; [|done]. destruct (map_opt f l) eqn:El; [|done]. injection E as <-. constructor; auto.
Qed.

(** A batched window call is the per-row calls: for frame counts that are
    not negative and cover frames the arrays have, the values are those of
    calling Window for each row with its own row number and its own frames, in
    order, stopping at the first error; and the result batch is the per-row
    result batches one below the other. *)
Theorem window_batch_is_rows (starts ends fpr : list Z) (rowIdx : Z) (partition : WindowPartition)
    (ws : option St) (p : AggregateProcessParams) (values : list (option any)) (schema : list Field)
    (batch : RecordBatch) :
  length starts = length ends -> Forall (fun n => 0 <= n)%Z fpr ->
  (total fpr <= Z.of_nat (length starts))%Z ->
  window_values fn rowIdx 0 fpr starts ends partition ws p = Ok values ->
  buildBatchResult values schema = Ok batch ->
  map_result (per_row partition ws p) (number_rows rowIdx (split_frames fpr (zip starts ends))) = Ok values /\
  exists rows, map_result (fun v => buildScalarResultBatch v schema) values = Ok rows /\
    NumRows batch = foldr Z.add 0%Z (map NumRows rows) /\ cells_of batch = concat (map cells_of rows) /\
    Forall (fun r => map fst (Columns r) = map fst (Columns batch)) rows.
Proof.
  intros Hl Hf Hb Hv Hbatch. split; [by rewrite <- Hv, (window_values_rows starts ends) by (try done; lia)|].
  clear Hv. unfold buildBatchResult in Hbatch. unfold buildScalarResultBatch.
  destruct schema as [|f [|]]; [done| |done]. destruct (buildScalarColumn (FieldType f) values) as [col|] eqn:Ec; [|done].
  injection Hbatch as <-. cbn [NumRows Columns map].
  assert (map_opt (scalar_cell (FieldType f)) values = Some (Cells col) /\
    forall v c, scalar_cell (FieldType f) v = Some c ->
      buildScalarColumn (FieldType f) [v] = Ok {| ArrType := FieldType f; Cells := [c] |}) as [Hcells Hone].
  { unfold buildScalarColumn in *. split.
    - destruct (FieldType f); try done; destruct (map_opt _ values); try done; by injection Ec as <-.
    - intros v c E. cbn [map_opt]. rewrite E. by destruct (FieldType f). }
  apply map_opt_cells in Hcells. clear Ec. unfold cells_of at 1. cbn [flat_map Columns snd]. rewrite app_nil_r.
  induction Hcells as [|v c vs cs Hvc _ IH]; [by exists []|].
  destruct IH as (rows & Er & Hn & Hc & Hcols). cbn [map_result]. rewrite (Hone v c Hvc), Er.
  eexists. split; [done|]. cbn [map foldr concat NumRows length]. split; [lia|]. split; [by rewrite Hc|].
  by constructor.
Qed.
End batching.

(** ** The life of a partition *)

Section lifecycle.
Context {W B : Type} (backend : B -> FunctionStorage W) (ForShard : B -> option (string -> B)).
Context `{!SharedStorage backend} `{Aead} `{Unicode} {Wc P X St : Type}.
Context (gobEncodeState : St -> result string bytes) (gobDecodeState : bytes -> result string St).
Context (gobEncodePayload : windowPartitionPayload -> bytes)
  (gobDecodePayload : bytes -> result string windowPartitionPayload).
Context (DeserializeRecordBatch : bytes -> result string RecordBatch)
  (SerializeRecordBatch : RecordBatch -> result string bytes)
  (DeserializeSchema : bytes -> result string (list Field))
  (read_ipc : bytes -> result string (list Field * option (list column))).
(** gob gives back a payload as it was, and a state up to [same]; an encoded
    state is not empty. *)
Context (same : St -> St -> Prop).
Context (payload_faithful : forall p, gobDecodePayload (gobEncodePayload p) = Ok p).
Context (state_faithful : forall s b, gobEncodeState s = Ok b ->
  b <> [] /\ exists s', gobDecodeState b = Ok s' /\ same s s').
#[local] Set Default Proof Using "All".

Abbreviation Worker := (AggregateWorker (Wc := Wc) (P := P) (X := X) (St := St)).
Let load := loadCachedPartition (W := W) (B := B) backend ForShard gobDecodeState gobDecodePayload
  DeserializeRecordBatch DeserializeSchema.
Let init := handleAggregateWindowInit (Wc := Wc) (P := P) (X := X) backend ForShard gobEncodeState
  gobEncodePayload DeserializeRecordBatch DeserializeSchema read_ipc.
Let window := handleAggregateWindow (Wc := Wc) (P := P) (X := X) backend ForShard gobDecodeState gobDecodePayload
  DeserializeRecordBatch SerializeRecordBatch DeserializeSchema read_ipc.
Let destructor := handleAggregateWindowDestructor (Wc := Wc) (P := P) (X := X) (St := St) backend ForShard.
Let unpack := unpackWindowPartition DeserializeRecordBatch DeserializeSchema.

Lemma reads_partition st b pid : ~ shared_scope (executionID b) -> int64_range pid ->
  reads backend st (getWindowPartition backend ForShard b pid) (fun o => o = partitions st (executionID b) !! pid).
Proof.
  intros He Hp. unfold getWindowPartition. eapply runs_bind; [apply reads_backend|]. intros back _.
  by apply reads_on.
Qed.

(** The bytes of a state, none for a nil one. *)
Definition state_bytes (ws : option St) (wsb : bytes) : Prop :=
  match ws with None => wsb = [] | Some s => gobEncodeState s = Ok wsb end.

Lemma reads_load st b pid d ws wsb : ~ shared_scope (executionID b) -> int64_range pid -> state_bytes ws wsb ->
  partitions st (executionID b) !! pid = Some (encodeWindowPartitionPayload gobEncodePayload d wsb) ->
  reads backend st (load b pid) (fun '(partition, ws') => unpack d = Ok partition /\ option_Forall2 same ws ws').
Proof.
  intros He Hp Hws Hst. unfold load, loadCachedPartition. eapply runs_bind; [by apply reads_partition|].
  intros o ->. rewrite Hst. set (data := encodeWindowPartitionPayload gobEncodePayload d wsb).
  assert (decodeWindowPartitionPayload gobDecodePayload data = Ok {| partition_data := d; WindowState := wsb |}) as Ed.
  { unfold decodeWindowPartitionPayload, data, encodeWindowPartitionPayload. by rewrite payload_faithful. }
  run_step (fun x => decodeWindowPartitionPayload gobDecodePayload data = Ok x). intros payload Ep.
  rewrite Ed in Ep. injection Ep as <-. cbn [partition_data WindowState].
  run_step (fun x => unpack d = Ok x). intros partition Eu. unfold state_bytes in Hws.
  destruct ws as [s|].
  - destruct (state_faithful s wsb Hws) as (Hne & s' & Es & Hs). destruct wsb as [|x wsb]; [done|].
    run_step (fun y => gobDecodeState (x :: wsb) = Ok y). intros s2 Es2. assert (s2 = s') as -> by congruence.
    apply runs_ret. split; [done|]. split; [done|by constructor].
  - subst wsb. apply runs_ret. split; [done|]. split; [done|constructor].
Qed.

(** Whatever happens between two worlds leaves a partition's entry alone. *)
Definition keeps_partition (e : bytes) (pid : Z) (w w' : W) : Prop :=
  forall st, shared_rep w st -> exists st', shared_rep w' st' /\ partitions st' e !! pid = partitions st e !! pid.

Lemma init_stores (w : Worker) cc r pid d st wfn b fn : ~ shared_scope (ExecutionID r) -> int64_range pid ->
  enter w cc r = Ok (b, fn) -> Windowed fn = Some wfn ->
  runs backend st (init w cc r pid d) (fun _ st' => exists partition p ws wsb,
    unpack d = Ok partition /\ WindowInit wfn partition p = Ok ws /\ state_bytes ws wsb /\
    partitions st' (ExecutionID r) !! pid = Some (encodeWindowPartitionPayload gobEncodePayload d wsb)).
Proof.
  intros He Hp Eb Ew. pose proof (enter_execution w cc r b fn Eb) as Ee. unfold init, handleAggregateWindowInit.
  run_step (fun bf => enter w cc r = Ok bf). intros [b' fn'] Eb'. rewrite Eb in Eb'. injection Eb' as <- <-. rewrite Ew.
  run_step (fun x => unpack d = Ok x). intros partition Eu.
  eapply runs_bind; [apply reads_loadAggArgs; by rewrite Ee|]. intros args _.
  set (p := process_params w cc r args (Some (PartitionSchema partition))).
  run_step (fun ws => WindowInit wfn partition p = Ok ws). intros ws Ei.
  eapply (runs_bind _ _ _ _ (fun wsb => state_bytes ws wsb)).
  { destruct ws; [by apply runs_step|by apply runs_ret]. }
  intros wsb Hws. unfold putWindowPartition. eapply runs_bind; [apply reads_backend|]. intros back _. rewrite Ee.
  eapply runs_weaken; [by apply runs_on|]. intros [] st' [_ ->]. exists partition, p, ws, wsb.
  split_and!; [done..|]. cbn. unfold put. by rewrite fn_lookup_insert, lookup_insert_eq.
Qed.

(** C23: A row's value is computed from the partition that was sent: when
    window_init has succeeded in one process, a window request for the partition
    that succeeds in any process, after whatever left the partition's entry
    alone, evaluates the function on exactly the partition window_init unpacked
    and on the state it returned (as gob gives it back), with the request's
    frames paired up, and answers the value as a batch of the partition's
    schema. Afterwards a destructor makes every such request fail. *)
Theorem window_reads_its_partition (w1 w2 w3 : Worker) (cc1 cc2 cc3 : option CallContext)
    (r1 r2 r3 : AggregateRequest) (pid rid : Z) (d : PartitionData) (starts ends : list Z)
    (b1 b2 : stateBucket) (fn : AggregateFunction St) (wfn : WindowFunction St)
    (s1 s2 s3 s1' s2' s3' : aggregateStorage B) (wa wb wc wc' wd wd' : W) (st : store) (out : bytes) :
  let e := ExecutionID r1 in
  ~ shared_scope e -> int64_range pid -> ExecutionID r2 = e -> ExecutionID r3 = e ->
  enter w1 cc1 r1 = Ok (b1, fn) -> enter w2 cc2 r2 = Ok (b2, fn) -> Windowed fn = Some wfn ->
  shared_rep wa st -> init w1 cc1 r1 pid d (s1, wa) = (Ok (), (s1', wb)) ->
  keeps_partition e pid wb wc ->
  (window w2 cc2 r2 pid rid starts ends (s2, wc) = (Ok out, (s2', wc')) ->
   exists partition p ws p' ws' val batch,
     unpack d = Ok partition /\ WindowInit wfn partition p = Ok ws /\ option_Forall2 same ws ws' /\
     length starts = length ends /\ Window wfn rid (zip starts ends) partition ws' p' = Ok val /\
     buildScalarResultBatch val (PartitionSchema partition) = Ok batch /\ SerializeRecordBatch batch = Ok out) /\
  (destructor w3 cc3 r3 pid (s3, wc) = (Ok (), (s3', wd)) -> keeps_partition e pid wd wd' ->
   forall s out' w', window w2 cc2 r2 pid rid starts ends (s, wd') <> (Ok out', w')).
Proof.
  intros e He Hp E2 E3 Eb1 Eb2 Ew Hr Ei Hk. subst e. pose proof (enter_execution w2 cc2 r2 b2 fn Eb2) as Ee2.
  pose proof (init_stores w1 cc1 r1 pid d st wfn b1 fn He Hp Eb1 Ew s1 wa Hr) as Hi. rewrite Ei in Hi.
  destruct Hi as (stb & Hrb & partition & p & ws & wsb & Eu & Einit & Hws & Hstb).
  destruct (Hk stb Hrb) as (stc & Hrc & Hsame). split.
  - intros Ewin. rewrite Hstb in Hsame.
    assert (Hw : reads backend stc (window w2 cc2 r2 pid rid starts ends) (fun out =>
      exists p' ws' val batch, option_Forall2 same ws ws' /\ length starts = length ends /\
        Window wfn rid (zip starts ends) partition ws' p' = Ok val /\
        buildScalarResultBatch val (PartitionSchema partition) = Ok batch /\ SerializeRecordBatch batch = Ok out)).
    { unfold window, handleAggregateWindow. run_step (fun bf => enter w2 cc2 r2 = Ok bf). intros [b' fn'] Eb'.
      rewrite Eb2 in Eb'. injection Eb' as <- <-. rewrite Ew.
      eapply runs_bind; [eapply (reads_load _ _ _ d ws wsb); [by rewrite Ee2, E2|done|done|by rewrite Ee2, E2]|].
      intros [part ws'] [Eu' Hws']. rewrite Eu in Eu'. injection Eu' as <-.
      eapply runs_bind; [apply reads_loadAggArgs; by rewrite Ee2, E2|]. intros args _.
      destruct (bool_decide (length starts = length ends)) eqn:El; cbn [negb]; bool_hyps; [|apply runs_stop].
      set (p' := process_params w2 cc2 r2 args _).
      run_step (fun v => Window wfn rid (zip starts ends) partition ws' p' = Ok v). intros val Ev.
      run_step (fun b => buildScalarResultBatch val (PartitionSchema partition) = Ok b). intros batch Eb.
      apply runs_step. intros o Eo. split; [done|]. by exists p', ws', val, batch. }
    specialize (Hw s2 wc Hrc). rewrite Ewin in Hw. destruct Hw as (_ & _ & _ & p' & ws' & val & batch & Hw).
    exists partition, p, ws, p', ws', val, batch. split; [done|]. split; [done|exact Hw].
  - intros Ed Hkd s out' w' Ewin.
    assert (Hd : runs backend stc (destructor w3 cc3 r3 pid) (fun _ st' => partitions st' (ExecutionID r1) !! pid = None)).
    { unfold destructor, handleAggregateWindowDestructor. run_step (fun _ => True). intros key _.
      unfold deleteWindowPartition. eapply runs_bind; [apply reads_backend|]. intros back _. cbn [executionID].
      eapply runs_weaken; [apply runs_on; cbn; by rewrite E3|]. intros [] st' [_ ->]. cbn.
      by rewrite E3, fn_lookup_insert, lookup_delete_eq. }
    specialize (Hd s3 wc Hrc). rewrite Ed in Hd. destruct Hd as (std & Hrd & Hnone).
    destruct (Hkd std Hrd) as (std' & Hrd' & Hn'). rewrite Hnone in Hn'.
    assert (Hw : runs backend std' (window w2 cc2 r2 pid rid starts ends) (fun _ _ => False)).
    { unfold window, handleAggregateWindow. run_step (fun bf => enter w2 cc2 r2 = Ok bf). intros [b' fn'] Eb'.
      rewrite Eb2 in Eb'. injection Eb' as <- <-. rewrite Ew.
      apply (runs_bind _ _ _ _ (fun _ => False)); [|done].
      unfold loadCachedPartition. eapply runs_bind; [apply reads_partition; [by rewrite Ee2, E2|done]|].
      intros o ->. rewrite Ee2, E2, Hn'. apply runs_stop. }
    specialize (Hw s wd' Hrd'). rewrite Ewin in Hw. destruct w'. by destruct Hw as (_ & _ & []).
Qed.
End lifecycle.

(** ** Examples and witnesses *)

From S2P Require Import Sqlite SqliteStorage.

Module WindowExample.
#[local] Existing Instance DigestAead.digest_aead.
#[local] Existing Instance AsciiText.ascii_text.
#[local] Existing Instance SumExample.sharedContract.

(** A payload as the bits of its number. *)
#[local] Instance data_eq : EqDecision PartitionData.
Proof. solve_decision. Defined.
#[local] Instance payload_eq : EqDecision windowPartitionPayload.
Proof. solve_decision. Defined.
#[local] Instance payload_countable : Countable windowPartitionPayload.
Proof.
  refine (inj_countable'
    (fun p => let d := partition_data p in (PartitionBatch d, OutputSchema d, FilterMaskBytes d,
       FrameStatsBytes d, AllValidBytes d, PartitionRows d, WindowState p))
    (fun t => let '(a, b, c, d, e, n, s) := t in
       {| partition_data := {| PartitionBatch := a; OutputSchema := b; FilterMaskBytes := c;
            FrameStatsBytes := d; AllValidBytes := e; PartitionRows := n |}; WindowState := s |}) _).
  by intros [[] ?].
Defined.
Definition put_payload (p : windowPartitionPayload) : bytes := bits (encode p).
Definition get_payload (b : bytes) : result string windowPartitionPayload :=
  match decode (unbits b) with Some p => Ok p | None => Err "gob" end.
Lemma payload_faithful p : get_payload (put_payload p) = Ok p.
Proof. unfold get_payload, put_payload. by rewrite unbits_bits, decode_encode. Qed.

Lemma state_faithful s b : SumExample.encode s = Ok b ->
  b <> [] /\ exists s', SumExample.decode b = Ok s' /\ s = s'.
Proof.
  unfold SumExample.encode. destruct (bool_decide (int64_range s)) eqn:Es; [|done]. intros E.
  apply ok_inj in E as <-. bool_hyps. split.
  - intros E. pose proof (length_le_enc 8 (u64 s)) as Hl. rewrite E in Hl. done.
  - exists s. split; [|done]. unfold SumExample.decode. f_equal. by apply dec_enc_int64.
Qed.

(** The row number, plus the frames of the row, plus the partition's rows. *)
Definition windowed : WindowFunction Z :=
  {| WindowInit := fun p _ => Ok (Some (RowCount p));
     Window := fun rid frames _ ws _ => Ok (Some (AInt64 (rid + Z.of_nat (length frames) + default 0 ws)%Z)) |}.
Definition wsum : AggregateFunction Z :=
  {| ArgumentSpecs := []; OnBind := fun _ => Ok None; NewState := fun _ => 0%Z;
     Update := fun states _ _ _ => Ok states; Combine := fun s t _ => Ok t;
     Finalize := fun _ _ _ => Err "windows only"; Windowed := Some windowed; Streaming := None |}.
Definition worker := SumExample.worker_of wsum.
Definition data : PartitionData :=
  {| PartitionBatch := [x01]; OutputSchema := []; FilterMaskBytes := []; FrameStatsBytes := [];
     AllValidBytes := []; PartitionRows := 3 |}.
Definition enter_worker : result agg_error (stateBucket * AggregateFunction Z) := enter worker None SumExample.request.

Lemma window_reads_its_partition_witness :
  exists partition p ws p' ws' val batch,
    unpackWindowPartition SumExample.batches SumExample.schema data = Ok partition /\
    WindowInit windowed partition p = Ok ws /\ option_Forall2 eq ws ws' /\
    Window windowed 7 [(0, 2)%Z; (3, 3)%Z] partition ws' p' = Ok val /\
    buildScalarResultBatch val (PartitionSchema partition) = Ok batch /\
    SumExample.rendered batch = Ok [Z_byte 12].
Proof.
  pose (init := handleAggregateWindowInit SumExample.shared (fun _ => None) SumExample.encode put_payload
    SumExample.batches SumExample.schema SumExample.no_ipc worker None SumExample.request 1 data
    (SumExample.process, open [])).
  pose (window := handleAggregateWindow SumExample.shared (fun _ => None) SumExample.decode get_payload
    SumExample.batches SumExample.rendered SumExample.schema SumExample.no_ipc worker None SumExample.request
    1 7 [0; 3]%Z [2; 3]%Z (SumExample.process, init.2.2)).
  pose (T := window_reads_its_partition SumExample.shared (fun _ => None) SumExample.encode SumExample.decode
    put_payload get_payload SumExample.batches SumExample.rendered SumExample.schema SumExample.no_ipc
    eq payload_faithful state_faithful worker worker worker None None None
    SumExample.request SumExample.request SumExample.request 1 7 data [0; 3]%Z [2; 3]%Z
    {| functionName := "sum"; executionID := sb "execution"; shardKey := "" |}
    {| functionName := "sum"; executionID := sb "execution"; shardKey := "" |} wsum windowed
    SumExample.process SumExample.process SumExample.process init.2.1 window.2.1 SumExample.process
    (open []) init.2.2 init.2.2 window.2.2 init.2.2 init.2.2 empty_store [Z_byte 12]).
  destruct T as [T _].
  - intros E. discriminate E.
  - apply (bool_decide_unpack _). vm_compute. exact I.
  - reflexivity.
  - reflexivity.
  - reflexivity.
  - reflexivity.
  - reflexivity.
  - apply (open_represents SumExample.scope).
  - assert (init.1 = Ok ()) as E by (vm_compute; reflexivity). change (init = (Ok (), (init.2.1, init.2.2))).
    destruct init as [res [s' w']]. cbn in *. congruence.
  - intros st Hst. exists st. split; [exact Hst|reflexivity].
  - destruct T as (partition & p & ws & p' & ws' & val & batch & H1 & H2 & H3 & _ & H5).
    + assert (window.1 = Ok [Z_byte 12]) as E by (vm_compute; reflexivity).
      change (window = (Ok [Z_byte 12], (window.2.1, window.2.2))).
      destruct window as [res [s' w']]. cbn in *. congruence.
    + exists partition, p, ws, p', ws', val, batch. auto.
Defined.

(** Two rows with one and two frames. *)
Definition params : AggregateProcessParams :=
  {| ParamArgs := None; ParamSchema := None; ParamSettings := None; ParamSecrets := None;
     ParamAuth := None; ParamAttach := None |}.
Definition partition : WindowPartition :=
  {| Inputs := {| SchemaMetadata := []; Columns := []; NumRows := 0 |}; RowCount := 0; FilterMask := None;
     FrameStats := ((0, 0), (0, 0))%Z; AllValid := []; PartitionSchema := [SumExample.group_field "sum"] |}.
Definition two_rows : RecordBatch := SumExample.batch_of [("sum", [Some 6; Some 8]%Z)].

Lemma window_batch_is_rows_witness :
  exists rows, map_result (fun v => buildScalarResultBatch v [SumExample.group_field "sum"])
      [Some (AInt64 6); Some (AInt64 8)] = Ok rows /\
    cells_of two_rows = concat (map cells_of rows).
Proof.
  destruct (window_batch_is_rows windowed [0; 1; 2]%Z [1; 2; 3]%Z [1; 2]%Z 5 partition None params
    [Some (AInt64 6); Some (AInt64 8)] [SumExample.group_field "sum"] two_rows) as (_ & rows & H1 & _ & H2 & _).
  - reflexivity.
  - repeat constructor; discriminate.
  - discriminate.
  - vm_compute. reflexivity.
  - vm_compute. reflexivity.
  - exists rows. split; [exact H1|exact H2].
Defined.

(** A batched call with fewer frame ends than starts panics; the per-row call
    refuses it. *)
Example short_frame_ends_panic :
  window_values windowed 0 0 [1]%Z [0]%Z [] partition None params = Err (AggPanic "index out of range").
Proof. reflexivity. Qed.
End WindowExample.
