(* ===== verification/AggregateStreaming.v ===== *)
(** * AggregateStreaming: streaming aggregates (vgi/aggregate_streaming.go)

    A streaming aggregate is opened once, fed chunks and closed, by one process
    that keeps a session per execution ID. A chunk's answer has one value per
    input row; partition state is looked up by a hash of the partition key. *)

From S2P Require Import Prelude Bytes Strings Unicode ArrowTypes ArrowData Arguments.
From S2P Require Import Envelope CatalogContents CatalogRoute Overload Aggregate.

Section streaming.
Context `{Aead} `{Unicode} {Wc P X St : Type}.
Context (DeserializeRecordBatch : bytes -> result string RecordBatch)
  (SerializeRecordBatch : RecordBatch -> result string bytes)
  (DeserializeSchema : bytes -> result string (list Field))
  (read_ipc : bytes -> result string (list Field * option (list column))).

Abbreviation Worker := (AggregateWorker (Wc := Wc) (P := P) (X := X) (St := St)).

Record streamingSession := {
  sessionFn : StreamingFunction St;
  sessionState : St;
  outputSchema : list Field;
  partitionKeyCount : Z;
  orderKeyCount : Z;
  sessionParams : AggregateProcessParams
}.

(** Sessions by execution ID. *)
Abbreviation streamingSessionStore := (gmap bytes streamingSession).
Definition put_session (s : streamingSessionStore) (execID : bytes) (sess : streamingSession)
  : streamingSessionStore := <[execID := sess]> s.
Definition get_session (s : streamingSessionStore) (execID : bytes) : option streamingSession := s !! execID.
Definition drop_session (s : streamingSessionStore) (execID : bytes) : option streamingSession * streamingSessionStore :=
  (s !! execID, delete execID s).

Inductive streaming_error :=
| StreamingNotResolved (e : resolve_error)
| NotStreaming (name : string)
| UnknownExecution
| WrongLength (got expected : Z)
| StreamingFault (f : fault).
Definition failed (prefix e : string) : streaming_error := StreamingFault (Failed (prefix +:+ e)).

Record StreamingOpenRequest := {
  open_call : AggregateRequest;
  OpenArguments : bytes;
  PartitionKeyCount : Z;
  OrderKeyCount : Z;
  OpenOutputSchema : bytes;
  OpenSettings : option bytes;
  OpenSecrets : option bytes
}.

(** [execID] is the UUID the worker draws; the request's own execution ID is
    not used. *)
Definition handleAggregateStreamingOpen (w : Worker) (cc : option CallContext) (req : StreamingOpenRequest)
    (execID : bytes) (s : streamingSessionStore) : result streaming_error bytes * streamingSessionStore :=
  let r := open_call req in
  match lookupAggregate w (FunctionName r) (RequestSchemaPath r) (AttachOpaqueData r) cc with
  | Err e => (Err (StreamingNotResolved e), s)
  | Ok fn =>
      match Streaming fn with
      | None => (Err (NotStreaming (FunctionName r)), s)
      | Some sFn =>
          match ParseArguments read_ipc (OpenArguments req) with
          | Err (Failed e) => (Err (failed "aggregate_streaming_open: parse arguments: " e), s)
          | Err f => (Err (StreamingFault f), s)
          | Ok args =>
              match DeserializeSchema (OpenOutputSchema req) with
              | Err e => (Err (failed "aggregate_streaming_open: parse output_schema: " e), s)
              | Ok schema =>
                  let params :=
                    {| ParamArgs := Some args; ParamSchema := Some schema;
                       ParamSettings := lenient_batch DeserializeRecordBatch (OpenSettings req);
                       ParamSecrets := lenient_batch DeserializeRecordBatch (OpenSecrets req);
                       ParamAuth := callAuth cc;
                       ParamAttach := match AttachOpaqueData r with
                                      | None => None
                                      | Some a => match openAttach (seal (served w)) a cc with
                                                  | Ok p => Some p | Err _ => None end
                                      end |} in
                  match StreamingOpen sFn params with
                  | Err e => (Err (failed "" e), s)
                  | Ok state =>
                      (Ok execID, put_session s execID
                        {| sessionFn := sFn; sessionState := state; outputSchema := schema;
                           partitionKeyCount := PartitionKeyCount req; orderKeyCount := OrderKeyCount req;
                           sessionParams := params |})
                  end
              end
          end
      end
  end.

(** The parameters of a chunk: those of the open, with the chunk's caller. *)
Definition chunk_params (sess : streamingSession) (cc : option CallContext) : AggregateProcessParams :=
  let p := sessionParams sess in
  {| ParamArgs := ParamArgs p; ParamSchema := ParamSchema p; ParamSettings := ParamSettings p;
     ParamSecrets := ParamSecrets p; ParamAuth := callAuth cc; ParamAttach := ParamAttach p |}.
Definition with_state (sess : streamingSession) (st : St) : streamingSession :=
  {| sessionFn := sessionFn sess; sessionState := st; outputSchema := outputSchema sess;
     partitionKeyCount := partitionKeyCount sess; orderKeyCount := orderKeyCount sess;
     sessionParams := sessionParams sess |}.

(** [array.NewRecordBatch] of one column, which panics unless the schema is that
    column's. *)
Definition result_batch (schema : list Field) (arr : Array) : result streaming_error RecordBatch :=
  match schema with
  | [f] => if TypeEqual (FieldType f) (ArrType arr)
           then Ok {| SchemaMetadata := []; Columns := [(f, arr)]; NumRows := Len arr |}
           else Err (StreamingFault (Panicked "arrow/array: type mismatch"))
  | _ => Err (StreamingFault (Panicked "arrow/array: number of columns/fields mismatch"))
  end.

(** One chunk on a session: its answer, and the state it leaves. *)
Definition run_chunk (sess : streamingSession) (cc : option CallContext) (InputBatch : bytes)
  : result streaming_error bytes * streamingSession :=
  match DeserializeRecordBatch InputBatch with
  | Err e => (Err (failed "aggregate_streaming_chunk: parse input_batch: " e), sess)
  | Ok chunk =>
      let '(res, st) := StreamingChunk (sessionFn sess) (sessionState sess) chunk
                          (partitionKeyCount sess) (orderKeyCount sess) (chunk_params sess cc) in
      let answer :=
        match res with
        | Err e => Err (failed "" e)
        | Ok arr =>
            check! bool_decide (Len arr = NumRows chunk) else WrongLength (Len arr) (NumRows chunk) in
            let? batch := result_batch (outputSchema sess) arr in
            match SerializeRecordBatch batch with Ok b => Ok b | Err e => Err (failed "" e) end
        end in
      (answer, with_state sess st)
  end.

Definition handleAggregateStreamingChunk (cc : option CallContext) (ExecutionID InputBatch : bytes)
    (s : streamingSessionStore) : result streaming_error bytes * streamingSessionStore :=
  match get_session s ExecutionID with
  | None => (Err UnknownExecution, s)
  | Some sess =>
      let '(answer, sess) := run_chunk sess cc InputBatch in (answer, put_session s ExecutionID sess)
  end.

(** The function's own close is called and its error ignored. *)
Definition handleAggregateStreamingClose (ExecutionID : bytes) (s : streamingSessionStore)
  : streamingSessionStore := snd (drop_session s ExecutionID).

(** ** Sessions do not meet *)

Inductive streaming_request :=
| SOpen (w : Worker) (cc : option CallContext) (req : StreamingOpenRequest) (execID : bytes)
| SChunk (cc : option CallContext) (ExecutionID InputBatch : bytes)
| SClose (ExecutionID : bytes).

Definition handle (r : streaming_request) (s : streamingSessionStore)
  : option (result streaming_error bytes) * streamingSessionStore :=
  match r with
  | SOpen w cc req execID => let '(a, s) := handleAggregateStreamingOpen w cc req execID s in (Some a, s)
  | SChunk cc e data => let '(a, s) := handleAggregateStreamingChunk cc e data s in (Some a, s)
  | SClose e => (None, handleAggregateStreamingClose e s)
  end.
Definition execution_of (r : streaming_request) : bytes :=
  match r with SOpen _ _ _ e | SChunk _ e _ | SClose e => e end.

(** The answers to the requests of one execution, in order. *)
Fixpoint answers (e : bytes) (rs : list streaming_request) (s : streamingSessionStore)
  : list (option (result streaming_error bytes)) :=
  match rs with
  | [] => []
  | r :: rs => let '(a, s) := handle r s in
               if bool_decide (execution_of r = e) then a :: answers e rs s else answers e rs s
  end.

(** A session alone: the chunks one after the other, until it is closed. *)
Fixpoint chunks (sess : streamingSession) (cs : list (option CallContext * bytes)) : list (result streaming_error bytes) :=
  match cs with
  | [] => []
  | (cc, data) :: cs => let '(a, sess) := run_chunk sess cc data in a :: chunks sess cs
  end.

(** What an open leaves: the session of the function it resolved, with what the
    request carried. *)
Definition opened (w : Worker) (cc : option CallContext) (req : StreamingOpenRequest) (sess : streamingSession) : Prop :=
  exists fn,
    lookupAggregate w (FunctionName (open_call req)) (RequestSchemaPath (open_call req))
      (AttachOpaqueData (open_call req)) cc = Ok fn /\
    Streaming fn = Some (sessionFn sess) /\
    StreamingOpen (sessionFn sess) (sessionParams sess) = Ok (sessionState sess) /\
    DeserializeSchema (OpenOutputSchema req) = Ok (outputSchema sess) /\
    partitionKeyCount sess = PartitionKeyCount req /\ orderKeyCount sess = OrderKeyCount req.

Lemma open_stores w cc req e s :
  match handleAggregateStreamingOpen w cc req e s with
  | (Ok id, s') => id = e /\ exists sess, opened w cc req sess /\ s' = put_session s e sess
  | (Err _, s') => s' = s
  end.
Proof.
  unfold handleAggregateStreamingOpen. destruct (lookupAggregate _ _ _ _ _) as [fn|] eqn:El; [|done].
  destruct (Streaming fn) as [sFn|] eqn:Es; [|done]. destruct (ParseArguments _ _) as [args|[]]; [|done..].
  destruct (DeserializeSchema _) as [schema|] eqn:Ed; [|done].
  destruct (StreamingOpen sFn _) as [st|] eqn:Eo; [|done].
  split; [done|]. eexists. split; [|done]. exists fn. cbn. by repeat (split; [eassumption || reflexivity|]).
Qed.

(** The store after the requests. *)
Definition after (rs : list streaming_request) (s : streamingSessionStore) : streamingSessionStore :=
  foldl (fun s r => snd (handle r s)) s rs.
(** Requests of [e] are chunks. *)
Definition only_chunks (e : bytes) (rs : list streaming_request) : Prop :=
  Forall (fun r => execution_of r = e -> exists cc data, r = SChunk cc e data) rs.
(** The chunk requests of an execution. *)
Definition chunk_of (e : bytes) (r : streaming_request) : option (option CallContext * bytes) :=
  match r with SChunk cc x data => if bool_decide (x = e) then Some (cc, data) else None | _ => None end.
Definition chunks_of (e : bytes) (rs : list streaming_request) : list (option CallContext * bytes) :=
  omap (chunk_of e) rs.

Lemma handle_other r s e : execution_of r <> e -> snd (handle r s) !! e = s !! e.
Proof.
  intros Hne. destruct r as [w cc req x|cc x data|x]; cbn in *.
  - pose proof (open_stores w cc req x s) as Ho. destruct (handleAggregateStreamingOpen w cc req x s) as [[id|err] s'].
    + destruct Ho as (_ & sess & _ & ->). change (put_session s x sess !! e = s !! e).
      unfold put_session. by rewrite lookup_insert_ne.
    + by subst s'.
  - unfold handleAggregateStreamingChunk, get_session. destruct (s !! x) as [sess|]; [|done].
    destruct (run_chunk sess cc data) as [b sess']. change (put_session s x sess' !! e = s !! e).
    unfold put_session. by rewrite lookup_insert_ne.
  - unfold handleAggregateStreamingClose, drop_session. cbn [snd]. by rewrite lookup_delete_ne.
Qed.

Lemma answers_cons e r rs s :
  answers e (r :: rs) s =
    (if bool_decide (execution_of r = e) then [fst (handle r s)] else []) ++ answers e rs (snd (handle r s)).
Proof. cbn [answers]. destruct (handle r s). by case_bool_decide. Qed.

Lemma answers_app e rs ks s : answers e (rs ++ ks) s = answers e rs s ++ answers e ks (after rs s).
Proof.
  revert s. induction rs as [|r rs IH]; intros s; [done|].
  cbn [app]. by rewrite !answers_cons, IH, app_assoc.
Qed.

(** A request of another execution neither answers nor changes this one. *)
Lemma other_request e r : execution_of r <> e -> chunk_of e r = None.
Proof. destruct r as [|cc x data|]; cbn; try done. intros Hne. by rewrite bool_decide_false. Qed.

Lemma chunks_of_cons e r rs :
  chunks_of e (r :: rs) = match chunk_of e r with Some c => c :: chunks_of e rs | None => chunks_of e rs end.
Proof. done. Qed.

Lemma answers_none e rs : forall s, only_chunks e rs -> s !! e = None ->
  answers e rs s = replicate (length (chunks_of e rs)) (Some (Err UnknownExecution)).
Proof.
  induction rs as [|r rs IH]; intros s Hf Hs; [done|]. inversion_clear Hf as [|? ? Hr Hf'].
  rewrite answers_cons, chunks_of_cons. pose proof (handle_other r s e) as Ho. case_bool_decide as E.
  - destruct (Hr E) as (cc & data & ->). cbn [chunk_of]. rewrite bool_decide_true by done.
    cbn [handle] in *. unfold handleAggregateStreamingChunk, get_session. rewrite Hs.
    cbn [fst snd app length replicate]. f_equal. by apply IH.
  - rewrite (other_request e r E). apply IH; [done|]. by rewrite Ho.
Qed.

Lemma answers_session e rs : forall s sess, only_chunks e rs -> s !! e = Some sess ->
  answers e rs s = map Some (chunks sess (chunks_of e rs)).
Proof.
  induction rs as [|r rs IH]; intros s sess Hf Hs; [done|]. inversion_clear Hf as [|? ? Hr Hf'].
  rewrite answers_cons, chunks_of_cons. pose proof (handle_other r s e) as Ho. case_bool_decide as E.
  - destruct (Hr E) as (cc & data & ->). cbn [chunk_of]. rewrite bool_decide_true by done.
    cbn [handle chunks] in *. unfold handleAggregateStreamingChunk, get_session. rewrite Hs.
    destruct (run_chunk sess cc data) as [b sess']. cbn [fst snd app map]. f_equal.
    apply IH; [done|]. unfold put_session. by rewrite lookup_insert_eq.
  - rewrite (other_request e r E). apply IH; [done|]. by rewrite Ho.
Qed.

(** C24: A streaming session is its own: after an open that returned an execution
    ID, whatever is opened, fed and closed under other IDs in between, the
    chunks sent under this ID are answered as if they were alone: in order, by
    the function the open resolved and the state its StreamingOpen returned, with
    the output schema and the key counts of the open, each chunk starting from
    the state the one before it left; and once the session is closed, every
    later chunk is answered with "unknown execution". *)
Theorem streaming_session_alone (w : Worker) (cc : option CallContext) (req : StreamingOpenRequest) (e : bytes)
    (s s' : streamingSessionStore) (rs rest : list streaming_request) :
  handleAggregateStreamingOpen w cc req e s = (Ok e, s') ->
  only_chunks e rs -> only_chunks e rest ->
  exists sess, opened w cc req sess /\
    answers e (rs ++ SClose e :: rest) s' =
      map Some (chunks sess (chunks_of e rs)) ++
      None :: replicate (length (chunks_of e rest)) (Some (Err UnknownExecution)).
Proof.
  intros Eo Hrs Hrest. pose proof (open_stores w cc req e s) as Ho. rewrite Eo in Ho.
  destruct Ho as (_ & sess & Hop & ->). exists sess. split; [done|].
  rewrite answers_app, (answers_session e rs _ sess), answers_cons.
  - cbn [execution_of handle fst snd]. rewrite bool_decide_true by done. cbn [app]. do 2 f_equal.
    apply answers_none; [done|]. unfold handleAggregateStreamingClose, drop_session. apply lookup_delete_eq.
  - done.
  - unfold put_session. apply lookup_insert_eq.
Qed.
End streaming.

(** ** Partition keys *)

(** hash/fnv, 64 bits, variant a. *)
Definition offset64 : Z := 14695981039346656037.
Definition prime64 : Z := 1099511628211.
Definition fnv_byte (h : Z) (b : byte) : Z := u64 (Z.lxor h (byte_Z b) * prime64).
Definition fnv_write (h : Z) (data : bytes) : Z := foldl fnv_byte h data.

Lemma fnv_write_app h a b : fnv_write h (a ++ b) = fnv_write (fnv_write h a) b.
Proof. apply foldl_app. Qed.
Lemma fnv_write_range h data : (0 <= h < 2 ^ 64)%Z -> (0 <= fnv_write h data < 2 ^ 64)%Z.
Proof.
  revert h. induction data as [|b data IH]; intros h Hh; [done|]. apply IH.
  unfold fnv_byte, u64. apply Z.mod_pos_bound. lia.
Qed.

Section partition_key.
(** The text of an array of a type that has no case of its own. *)
Context (array_text : Array -> bytes).

(** What a column adds to the hash at a row. *)
Definition key_bytes (arr : Array) (c : cell) : bytes :=
  match ArrType arr, c with
  | _, CNull => [xff]
  | INT64, CInt z => le_enc 8 z ++ [x00]
  | INT32, CInt z => le_enc 4 z ++ [x00]
  | STRING, CStr t => sb t ++ [x00]
  | BINARY, CBin b => b ++ [x00]
  | _, _ => array_text arr ++ [x00]
  end.

(** A column that is missing, or a row outside it, panics. *)
Definition hash_column (h : Z) (col : option (Field * Array)) (i : nat) : option Z :=
  fa ← col; c ← Cells (snd fa) !! i; Some (fnv_write h (key_bytes (snd fa) c)).
Fixpoint hash_columns (h : Z) (chunk : RecordBatch) (cs : list nat) (i : nat) : option Z :=
  match cs with
  | [] => Some h
  | c :: cs => h ← hash_column h (Columns chunk !! c) i; hash_columns h chunk cs i
  end.
Definition PartitionKey (chunk : RecordBatch) (partitionKeyCount : Z) (i : nat) : option Z :=
  if (partitionKeyCount =? 0)%Z then Some 0%Z
  else hash_columns offset64 chunk (List.seq 0 (Z.to_nat partitionKeyCount)) i.

(** A column whose cells are hashed by value. *)
Definition hashed_by_value (arr : Array) : bool :=
  match ArrType arr with INT64 | INT32 | STRING | BINARY => true | _ => false end.
Definition cell_fits (arr : Array) (c : cell) : bool :=
  match ArrType arr, c with
  | _, CNull | INT64, CInt _ | INT32, CInt _ | STRING, CStr _ | BINARY, CBin _ => true
  | _, _ => false
  end.
(** The cell of a row in a column, with the type of the column. *)
Definition key_cell (chunk : RecordBatch) (i c : nat) : option (DataType * cell) :=
  fa ← Columns chunk !! c; x ← Cells (snd fa) !! i; Some (ArrType (snd fa), x).
Definition typed_cell (tc : DataType * cell) : bool :=
  let arr := {| ArrType := fst tc; Cells := [] |} in hashed_by_value arr && cell_fits arr (snd tc).

Lemma key_bytes_cells arr arr' c : ArrType arr = ArrType arr' ->
  typed_cell (ArrType arr, c) = true -> key_bytes arr c = key_bytes arr' c.
Proof.
  unfold typed_cell, hashed_by_value, cell_fits, key_bytes. cbn [ArrType fst snd]. intros <-.
  by destruct (ArrType arr); destruct c.
Qed.

Lemma partition_key_range chunk k i h : PartitionKey chunk k i = Some h -> (0 <= h < 2 ^ 64)%Z.
Proof.
  unfold PartitionKey. destruct (k =? 0)%Z; [intros [= <-]; lia|].
  assert (0 <= offset64 < 2 ^ 64)%Z as H0 by (unfold offset64; lia). revert H0. generalize offset64.
  induction (List.seq 0 (Z.to_nat k)) as [|c cs IH]; intros h0 H0 E; [by injection E as <-|].
  cbn in E. destruct (hash_column h0 _ i) as [h1|] eqn:E1; [|done]. apply (IH h1); [|done].
  unfold hash_column in E1. destruct (Columns chunk !! c) as [fa|]; [|done]. cbn in E1.
  destruct (Cells (snd fa) !! i) as [x|]; [|done]. injection E1 as <-. by apply fnv_write_range.
Qed.

(** A partition key is a function of the key values: two rows, of one chunk
    or of two, whose partition columns have the same types among int64, int32,
    string and binary and the same cells have the same partition key, which is an
    unsigned 64-bit integer. *)
Theorem partition_key_stable (chunk chunk' : RecordBatch) (k : Z) (i j : nat) :
  (forall c, (Z.of_nat c < k)%Z ->
     exists tc, key_cell chunk i c = Some tc /\ key_cell chunk' j c = Some tc /\ typed_cell tc = true) ->
  exists h, PartitionKey chunk k i = Some h /\ PartitionKey chunk' k j = Some h /\ (0 <= h < 2 ^ 64)%Z.
Proof.
  intros Hc.
  assert (exists h, PartitionKey chunk k i = Some h /\ PartitionKey chunk' k j = Some h) as (h & E & E').
  { unfold PartitionKey. destruct (k =? 0)%Z; [by exists 0%Z|]. generalize offset64.
    assert (Forall (fun c => (Z.of_nat c < k)%Z) (List.seq 0 (Z.to_nat k))) as Hs.
    { apply Forall_forall. intros c Hin. apply list_elem_of_In, in_seq in Hin. lia. }
    induction Hs as [|c cs Hk _ IH]; intros h0; [by exists h0|]. destruct (Hc c Hk) as (tc & E & E' & Ht).
    unfold key_cell in E, E'. cbn [hash_columns]. unfold hash_column.
    destruct (Columns chunk !! c) as [fa|]; [|done]. destruct (Columns chunk' !! c) as [fa'|]; [|done]. cbn in *.
    destruct (Cells (snd fa) !! i) as [x|]; [|done]. destruct (Cells (snd fa') !! j) as [x'|]; [|done]. cbn in *.
    injection E as <-. injection E' as E1 ->. rewrite <- (key_bytes_cells (snd fa) (snd fa') x); [apply IH|done|done]. }
  exists h. by pose proof (partition_key_range _ _ _ _ E).
Qed.

(** A column of any other type gives all its non-null rows of a chunk one hash:
    it adds the text of the whole column. *)
Lemma other_types_share_key h f arr i j x y : hashed_by_value arr = false ->
  Cells arr !! i = Some x -> Cells arr !! j = Some y -> is_null x = is_null y ->
  hash_column h (Some (f, arr)) i = hash_column h (Some (f, arr)) j.
Proof.
  unfold hashed_by_value, hash_column. intros Ht Hx Hy En. cbn. rewrite Hx, Hy. cbn. do 2 f_equal.
  unfold key_bytes. by destruct (ArrType arr); destruct x; destruct y.
Qed.
End partition_key.

(** ** Examples *)

Module StreamingExample.
Import SumExample.
#[local] Existing Instance DigestAead.digest_aead.
#[local] Existing Instance AsciiText.ascii_text.

Definition strings (l : list string) : Array := {| ArrType := STRING; Cells := map CStr l |}.
Definition nul : string := String Ascii.zero "".
(** Rows ("a\0b", "c") and ("a", "b\0c"). *)
Definition two_keys : RecordBatch :=
  {| SchemaMetadata := [];
     Columns := [(group_field "p", strings ["a" +:+ nul +:+ "b"; "a"]);
                 (group_field "q", strings ["c"; "b" +:+ nul +:+ "c"])];
     NumRows := 2 |}.
Example nul_in_a_key_collides text : PartitionKey text two_keys 2 0 = PartitionKey text two_keys 2 1.
Proof. reflexivity. Qed.
(** Two dates, which are hashed by the column's text. *)
Definition dates : RecordBatch :=
  {| SchemaMetadata := [];
     Columns := [(group_field "d", {| ArrType := DATE32; Cells := [CInt 1; CInt 2] |})]; NumRows := 2 |}.
Example dates_collide text : PartitionKey text dates 1 0 = PartitionKey text dates 1 1.
Proof. reflexivity. Qed.
(** The hash of "a" and its separator. *)
Example one_key text : PartitionKey text two_keys 1 1 = Some 620337896427418084%Z.
Proof. vm_compute. reflexivity. Qed.

Lemma partition_key_stable_witness :
  let b := batch_of [("p", [Some 5; None]%Z); ("q", [Some 1; Some (-1)]%Z)] in
  let b' := batch_of [("p", [None]); ("q", [Some (-1)]%Z); ("v", [Some 0%Z])] in
  exists h, PartitionKey (fun _ => []) b 2 1 = Some h /\ PartitionKey (fun _ => []) b' 2 0 = Some h /\ (0 <= h < 2 ^ 64)%Z.
Proof.
  apply (partition_key_stable (fun _ => [])). intros [|[|c]] Hc; [eexists; split; [reflexivity|by split]..|lia].
Defined.

(** A running total: the state is the sum so far, the last column the values;
    a chunk without columns is refused. *)
Fixpoint totals (acc : Z) (l : list cell) : list cell * Z :=
  match l with
  | [] => ([], acc)
  | c :: l =>
      let acc := match c with CInt z => (acc + z)%Z | _ => acc end in
      let '(out, last) := totals acc l in (CInt acc :: out, last)
  end.
Definition running : StreamingFunction Z :=
  {| StreamingOpen := fun _ => Ok 0%Z;
     StreamingChunk := fun st chunk _ _ _ =>
       match list.last (Columns chunk) with
       | None => (Err "no columns", st)
       | Some (_, arr) => let '(out, st) := totals st (Cells arr) in (Ok {| ArrType := INT64; Cells := out |}, st)
       end |}.
Definition running_sum : AggregateFunction Z :=
  {| ArgumentSpecs := []; OnBind := OnBind sum; NewState := NewState sum; Update := Update sum;
     Combine := Combine sum; Finalize := Finalize sum; Windowed := None; Streaming := Some running |}.
Definition chunk_batch (b : bytes) : result string RecordBatch :=
  match b with
  | [x01] => Ok (batch_of [("v", [Some 10; None; Some 7]%Z)])
  | [x02] => Ok (batch_of [("v", [Some 5]%Z)])
  | _ => Err "no batch"
  end.
Definition open_ipc (b : bytes) : result string (list Field * option (list column)) :=
  sends (engine_args [] []) b.
Definition open_request : StreamingOpenRequest :=
  {| open_call := request; OpenArguments := []; PartitionKeyCount := 0; OrderKeyCount := 0;
     OpenOutputSchema := []; OpenSettings := None; OpenSecrets := None |}.

Definition exec1 : bytes := sb "one".
Definition exec2 : bytes := sb "two".
(** Chunks of two sessions in turn; the second of the first session does not
    decode. *)
Definition traffic : list (streaming_request (Wc := ()) (P := ()) (X := ()) (St := Z)) :=
  [SOpen (worker_of running_sum) None open_request exec2;
   SChunk None exec1 [x01]; SChunk None exec2 [x01]; SChunk None exec1 [x09]; SClose exec2; SChunk None exec1 [x02]].

(** The first session answers 10, 10, 17, then the error, then 22, whatever the
    second does; after its close it is unknown. *)
Lemma streaming_session_alone_witness :
  let opens := handleAggregateStreamingOpen chunk_batch schema open_ipc (worker_of running_sum) None open_request exec1 ∅ in
  let all := answers chunk_batch rendered schema open_ipc exec1
    (traffic ++ SClose exec1 :: [SChunk None exec1 [x01]]) (snd opens) in
  fst opens = Ok exec1 /\
  all = [Some (Ok [x0a; x0a; x11]); Some (Err (failed "aggregate_streaming_chunk: parse input_batch: " "no batch"));
         Some (Ok [x16]); None; Some (Err UnknownExecution)] /\
  exists sess : streamingSession (St := Z), all = map Some (chunks chunk_batch rendered sess (chunks_of exec1 traffic)) ++ [None; Some (Err UnknownExecution)].
Proof.
  intros opens all. split; [vm_compute; reflexivity|]. split; [vm_compute; reflexivity|].
  destruct (streaming_session_alone chunk_batch rendered schema open_ipc (worker_of running_sum) None open_request
    exec1 ∅ (snd opens) traffic [SChunk None exec1 [x01]]) as (sess & _ & E).
  - assert (fst opens = Ok exec1) as E by (vm_compute; reflexivity). unfold opens in *.
    destruct (handleAggregateStreamingOpen _ _ _ _ _ _ _ _). cbn [fst snd] in *. by rewrite E.
  - unfold only_chunks, traffic. repeat constructor; cbn; try (intros E; discriminate E); intros _; by repeat eexists.
  - unfold only_chunks. repeat constructor. intros _. by repeat eexists.
  - exists sess. exact E.
Defined.
End StreamingExample.
