(* ===== verification/SqlTokens.v ===== *)
(** * SqlTokens: the tokens of a scalar SQL expression (vgi/scalar_sql.go)

    The tokenizer works on valid UTF-8, which [parseScalarSQL] checks first, so
    a rune's first byte gives its length. A rune of several bytes is classified
    by the Unicode tables, a parameter. *)

From S2P Require Import Prelude Bytes Strings Unicode.

Inductive sqlToken :=
| tokEOF
| tokIdent (text : string)
| tokQuotedIdent (text : string)
| tokNumber (text : string)
| tokString (text : string)
| tokOp (text : string).
#[global] Instance sqlToken_dec : EqDecision sqlToken.
Proof. solve_decision. Defined.

(** What the unicode package says of a rune: a letter, a digit (Nd), a space,
    or none of these. *)
Inductive rune_class := Letter | Digit | Space | OtherRune.
#[global] Instance rune_class_dec : EqDecision rune_class.
Proof. solve_decision. Defined.

Definition byte_in (lo hi : Z) (b : byte) : bool := ((lo <=? byte_Z b) && (byte_Z b <=? hi))%Z.
Definition is_digit (b : byte) : bool := byte_in 48 57 b.

(** The length of the rune a byte starts. *)
Definition rune_len (b : byte) : nat :=
  if byte_in 0 0x7F b then 1 else if byte_in 0 0xDF b then 2 else if byte_in 0 0xEF b then 3 else 4.
(** The rune a text starts with. *)
Definition rune (l : bytes) : bytes := match l with [] => [] | b :: _ => take (rune_len b) l end.

Fixpoint starts_with (l p : bytes) : bool :=
  match p, l with
  | [], _ => true
  | a :: p, b :: l => bool_decide (a = b) && starts_with l p
  | _ :: _, [] => false
  end.

(** The bytes a test accepts, and the rest. *)
Fixpoint span (f : byte -> bool) (l : bytes) : bytes * bytes :=
  match l with
  | b :: l' => if f b then let '(a, r) := span f l' in (b :: a, r) else ([], l)
  | [] => ([], [])
  end.

(** [strings.Index(l, "*/")], with the text after it. *)
Fixpoint after_comment (l : bytes) : option bytes :=
  match l with
  | [] => None
  | b :: l' => if starts_with l [x2a; x2f] then Some (drop 2 l) else after_comment l'
  end.

(** Quoted text after its opening quote: a doubled quote is one quote. *)
Fixpoint quoted (q : byte) (l : bytes) : option (bytes * bytes) :=
  match l with
  | [] => None
  | b :: l1 =>
      if bool_decide (b = q) then
        match l1 with
        | c :: l2 =>
            if bool_decide (c = q) then
              match quoted q l2 with Some (t, r) => Some (q :: t, r) | None => None end
            else Some ([], l1)
        | [] => Some ([], [])
        end
      else match quoted q l1 with Some (t, r) => Some (b :: t, r) | None => None end
  end.

(** A number: digits, dots and underscores, then an exponent if it has digits. *)
Definition number_byte (b : byte) : bool := is_digit b || bool_decide (b = x2e) || bool_decide (b = x5f).
Definition exponent (l : bytes) : bytes * bytes :=
  match l with
  | e :: l1 =>
      if bool_decide (e = x65 \/ e = x45) then
        let '(sign, l2) := match l1 with
                           | s :: l2 => if bool_decide (s = x2b \/ s = x2d) then ([s], l2) else ([], l1)
                           | [] => ([], [])
                           end in
        let '(ds, rest) := span is_digit l2 in
        match ds with [] => ([], l) | _ => (e :: sign ++ ds, rest) end
      else ([], l)
  | [] => ([], [])
  end.
Definition number (l : bytes) : bytes * bytes :=
  let '(ds, rest) := span number_byte l in
  let '(ex, rest) := exponent rest in (ds ++ ex, rest).
Definition starts_number (l : bytes) : bool :=
  match l with
  | b :: c :: _ => is_digit b || (bool_decide (b = x2e) && is_digit c)
  | [b] => is_digit b
  | [] => false
  end.

(** The operators of two bytes; any other rune is an operator of its own. *)
Definition long_ops : list string :=
  ["::"; "<="; ">="; "<>"; "!="; "=="; "||"; "**"; "//"; "<<"; ">>"; "->"; ":="].
Definition operator (l : bytes) : bytes :=
  match List.find (fun op => starts_with l (sb op)) long_ops with
  | Some op => sb op
  | None => rune l
  end.

Section tokens.
Context (uni_class : bytes -> rune_class).

Definition classify (r : bytes) : rune_class :=
  match r with
  | [b] =>
      if byte_in 65 90 b || byte_in 97 122 b then Letter
      else if is_digit b then Digit
      else if byte_in 9 13 b || bool_decide (b = x20) then Space
      else OtherRune
  | _ => uni_class r
  end.
Definition IsLetter (r : bytes) : bool := bool_decide (classify r = Letter).
Definition IsSpace (r : bytes) : bool := bool_decide (classify r = Space).
Definition ident_start (r : bytes) : bool := IsLetter r || bool_decide (r = [x5f]).
Definition ident_rune (r : bytes) : bool :=
  IsLetter r || bool_decide (classify r = Digit) || bool_decide (r = [x5f]) || bool_decide (r = [x24]).

(** The runes of an identifier; every step takes at least a byte. *)
Fixpoint ident (fuel : nat) (l : bytes) : bytes * bytes :=
  match fuel, l with
  | S fuel, _ :: _ =>
      let r := rune l in
      if ident_rune r then let '(a, rest) := ident fuel (drop (length r) l) in (r ++ a, rest) else ([], l)
  | _, _ => ([], l)
  end.

(** One step of the loop on a text that is not empty: a token, or blank text. *)
Definition token (l : bytes) : result string (option sqlToken * bytes) :=
  let r := rune l in
  if IsSpace r then Ok (None, drop (length r) l)
  else if starts_with l [x2d; x2d] then
    match span (fun b => negb (bool_decide (b = x0a))) l with
    | (_, _ :: rest) => Ok (None, rest)
    | (_, []) => Ok (None, [])
    end
  else if starts_with l [x2f; x2a] then
    match after_comment (drop 2 l) with
    | Some rest => Ok (None, rest)
    | None => Err "unterminated comment"
    end
  else if bool_decide (r = [x22]) || bool_decide (r = [x27]) then
    match l with
    | q :: l1 =>
        match quoted q l1 with
        | None => Err "unterminated quoted text"
        | Some (t, rest) =>
            if bool_decide (q = x22) then
              match t with
              | [] => Err "empty quoted identifier"
              | _ => Ok (Some (tokQuotedIdent (bstr t)), rest)
              end
            else Ok (Some (tokString (bstr t)), rest)
        end
    | [] => Err ""
    end
  else if starts_number l then let '(t, rest) := number l in Ok (Some (tokNumber (bstr t)), rest)
  else if ident_start r then let '(t, rest) := ident (length l) l in Ok (Some (tokIdent (bstr t)), rest)
  else let op := operator l in Ok (Some (tokOp (bstr op)), drop (length op) l).

(** The fuel is the number of bytes left, of which every step takes one. *)
Fixpoint tokens (fuel : nat) (l : bytes) : result string (list sqlToken) :=
  match l with
  | [] => Ok [tokEOF]
  | _ =>
      match fuel with
      | O => Err "out of fuel"
      | S fuel =>
          let? tr := token l in
          let? ts := tokens fuel (snd tr) in
          Ok (match fst tr with Some t => t :: ts | None => ts end)
      end
  end.
Definition tokenizeSQL (sql : string) : result string (list sqlToken) :=
  tokens (length (sb sql)) (sb sql).

(** ** Every step takes a byte *)

Lemma span_total f l : length (span f l).1 + length (span f l).2 = length l.
Proof.
  induction l as [|b l IH]; [done|]. cbn [span]. destruct (f b); [|done].
  destruct (span f l) as [a r]. cbn in *. lia.
Qed.

Lemma rune_positive b l : 1 <= length (rune (b :: l)) <= length (b :: l).
Proof.
  unfold rune. rewrite length_take. cbn [length]. unfold rune_len.
  repeat destruct (byte_in _ _ b); lia.
Qed.

Lemma drop_shorter (l : bytes) n : l <> [] -> 1 <= n -> length (drop n l) < length l.
Proof. intros Hl Hn. rewrite length_drop. destruct l; [done|]. cbn [length]. lia. Qed.

Lemma after_comment_length l : forall r, after_comment l = Some r -> length r < length l.
Proof.
  induction l as [|b l IH]; intros r E; [done|]. cbn [after_comment] in E. destruct (starts_with _ _).
  - injection E as <-. by apply (drop_shorter (b :: l) 2); [|lia].
  - apply IH in E. cbn [length]. lia.
Qed.

Lemma quoted_length q l : forall t r, quoted q l = Some (t, r) -> length r < length l.
Proof.
  induction l as [l IH] using (induction_ltof1 _ (@length byte)). unfold ltof in IH. intros t r E.
  destruct l as [|b l1]; [done|]. cbn [quoted] in E. destruct (bool_decide (b = q)).
  - destruct l1 as [|c l2]; [injection E as _ <-; cbn; lia|]. destruct (bool_decide (c = q)).
    + destruct (quoted q l2) as [[t2 r2]|] eqn:E2; [|done]. injection E as _ <-. apply IH in E2; cbn; [|lia]. lia.
    + injection E as _ <-. cbn. lia.
  - destruct (quoted q l1) as [[t1 r1]|] eqn:E1; [|done]. injection E as _ <-. apply IH in E1; cbn; lia.
Qed.

Lemma exponent_length l : length (exponent l).2 <= length l.
Proof.
  unfold exponent. destruct l as [|e l1]; [done|]. destruct (bool_decide _); [|done].
  assert (forall sl, length sl.2 <= length l1 ->
    length (let '(sign, l2) := sl in let '(ds, rest) := span is_digit l2 in
            match ds with [] => ([], e :: l1) | _ => (e :: sign ++ ds, rest) end).2 <= length (e :: l1)) as Hs.
  { intros [sg l2] H2. pose proof (span_total is_digit l2) as Hl. destruct (span is_digit l2) as [ds rest].
    cbn in *. destruct ds; cbn; lia. }
  apply Hs. destruct l1 as [|s l2]; [done|]. destruct (bool_decide _); cbn; lia.
Qed.

Lemma number_length l : starts_number l = true -> length (number l).2 < length l.
Proof.
  intros Hs. unfold number. destruct l as [|b l]; [done|]. cbn [span].
  assert (number_byte b = true) as ->.
  { unfold number_byte. cbn in Hs. destruct l as [|c l]; [by rewrite Hs|].
    apply orb_true_iff in Hs as [->|Hs]; [done|]. apply andb_true_iff in Hs as [-> _].
    by rewrite orb_true_r. }
  pose proof (span_total number_byte l) as Hl. destruct (span number_byte l) as [ds rest].
  pose proof (exponent_length rest) as He. destruct (exponent rest) as [ex rest']. cbn in *. lia.
Qed.

Lemma ident_length fuel l : length (ident fuel l).2 <= length l.
Proof.
  revert l. induction fuel as [|fuel IH]; intros [|b l]; [done..|]. cbn [ident].
  destruct (ident_rune _); [|done]. specialize (IH (drop (length (rune (b :: l))) (b :: l))).
  destruct (ident fuel _) as [a rest]. cbn [snd] in *. rewrite length_drop in IH. lia.
Qed.

Lemma token_shorter l t rest : l <> [] -> token l = Ok (t, rest) -> length rest < length l.
Proof.
  intros Hl E. destruct l as [|b l]; [done|]. pose proof (rune_positive b l) as [Hr _]. unfold token in E.
  destruct (IsSpace _); [injection E as _ <-; by apply drop_shorter|].
  destruct (starts_with _ [x2d; x2d]).
  { pose proof (span_total (fun b => negb (bool_decide (b = x0a))) (b :: l)) as Hs.
    destruct (span _ _) as [a [|c r]]; injection E as _ <-; cbn in *; lia. }
  destruct (starts_with _ [x2f; x2a]).
  { destruct (after_comment _) as [r|] eqn:Ec; [|done]. injection E as _ <-. apply after_comment_length in Ec.
    rewrite length_drop in Ec. lia. }
  destruct (_ || _).
  { destruct (quoted b l) as [[t' r]|] eqn:Eq; [|done]. apply quoted_length in Eq. cbn [length].
    destruct (bool_decide (b = x22)); [destruct t'; [done|]|]; injection E as _ <-; lia. }
  destruct (starts_number (b :: l)) eqn:En.
  { apply number_length in En. destruct (number (b :: l)) as [ds r]. by injection E as _ <-. }
  destruct (ident_start _) eqn:Ei.
  - cbn [length ident] in E.
    assert (ident_rune (rune (b :: l)) = true) as Er.
    { unfold ident_start in Ei. unfold ident_rune. apply orb_true_iff in Ei as [-> | ->]; [done|]. by rewrite !orb_true_r. }
    rewrite Er in E. pose proof (ident_length (length l) (drop (length (rune (b :: l))) (b :: l))) as Hi.
    destruct (ident (length l) _) as [a r]. injection E as _ <-. cbn [snd] in Hi.
    pose proof (drop_shorter (b :: l) (length (rune (b :: l))) ltac:(done) Hr). lia.
  - injection E as _ <-. apply drop_shorter; [done|]. unfold operator.
    destruct (List.find _ _) as [op|] eqn:Eo; [|done]. apply List.find_some in Eo as [Hin _].
    unfold long_ops in Hin. cbn in Hin. repeat (destruct Hin as [<-|Hin]; [cbn; lia|]). done.
Qed.

Lemma token_no_fuel l : token l <> Err "out of fuel".
Proof.
  unfold token. destruct (IsSpace _); [done|]. destruct (starts_with _ _); [by destruct (span _ _) as [? []]|].
  destruct (starts_with _ _); [by destruct (after_comment _)|]. destruct (_ || _).
  { destruct l as [|q l1]; [done|]. destruct (quoted q l1) as [[t r]|]; [|done].
    destruct (bool_decide _); [by destruct t|done]. }
  destruct (starts_number l); [by destruct (number l)|]. destruct (ident_start _); [by destruct (ident _ _)|done].
Qed.

(** The fuel never runs out. *)
Lemma tokens_total fuel l : length l <= fuel -> tokens fuel l <> Err "out of fuel".
Proof.
  revert l. induction fuel as [|fuel IH]; intros [|b l] Hl; cbn [tokens length] in *; [done|lia|done|].
  pose proof (token_no_fuel (b :: l)) as Hf. pose proof (token_shorter (b :: l)) as Hs.
  destruct (token (b :: l)) as [[t rest]|e]; [|congruence]. cbn [fst snd].
  specialize (Hs t rest ltac:(done) eq_refl). cbn [length] in Hs.
  specialize (IH rest ltac:(lia)). destruct (tokens fuel rest); [done|congruence].
Qed.

(** ** Tokens as text *)

Definition quote_text (q : byte) (t : bytes) : bytes :=
  flat_map (fun b => if bool_decide (b = q) then [q; q] else [b]) t.
Definition render (t : sqlToken) : bytes :=
  match t with
  | tokEOF => []
  | tokIdent s | tokNumber s | tokOp s => sb s
  | tokQuotedIdent s => x22 :: quote_text x22 (sb s) ++ [x22]
  | tokString s => x27 :: quote_text x27 (sb s) ++ [x27]
  end.
(** Tokens separated by blanks. *)
Definition text_of (ts : list sqlToken) : bytes := flat_map (fun t => render t ++ [x20]) ts.

Definition ident_byte (b : byte) : bool :=
  byte_in 65 90 b || byte_in 97 122 b || is_digit b || bool_decide (b = x5f) || bool_decide (b = x24).
Definition ident_text (s : string) : bool :=
  match sb s with
  | b :: l => (byte_in 65 90 b || byte_in 97 122 b || bool_decide (b = x5f)) && forallb ident_byte l
  | [] => false
  end.
Definition number_text (s : string) : bool :=
  bool_decide (number (sb s) = (sb s, [])) && starts_number (sb s).
(** The tokens a text can hold: an ASCII identifier, any quoted text, a number,
    an operator. *)
Definition token_text (t : sqlToken) : bool :=
  match t with
  | tokEOF => false
  | tokIdent s => ident_text s
  | tokQuotedIdent s => negb (bool_decide (s = ""))
  | tokNumber s => number_text s
  | tokString _ => true
  | tokOp s => bool_decide (s ∈ ["("; ")"; ","; "+"; "-"; "*"; "/"; "%"; "||"; "::"; "="; "<>"; "<"; ">"; "<="; ">="])
  end.

Lemma quoted_quote q t b rest : b <> q -> quoted q (quote_text q t ++ q :: b :: rest) = Some (t, b :: rest).
Proof.
  intros Hb. induction t as [|c t IH]; cbn [quote_text flat_map app].
  - cbn [quoted]. rewrite bool_decide_true by done. by rewrite bool_decide_false.
  - fold (quote_text q t). destruct (bool_decide (c = q)) eqn:E; bool_hyps.
    + subst c. cbn [app quoted]. rewrite bool_decide_true by done. by rewrite IH.
    + cbn [app quoted]. rewrite bool_decide_false by done. by rewrite IH.
Qed.

Lemma span_stop f l a b c rest : f c = false -> span f l = (a, b) -> span f (l ++ c :: rest) = (a, b ++ c :: rest).
Proof.
  intros Hc. revert a b. induction l as [|x l IH]; intros a b E; cbn [span app] in *.
  - injection E as <- <-. by rewrite Hc.
  - destruct (f x); [|by injection E as <- <-]. destruct (span f l) as [a' b']. injection E as <- <-.
    by rewrite (IH a' b').
Qed.

Lemma span_split f l a b : span f l = (a, b) -> l = a ++ b.
Proof.
  revert a b. induction l as [|x l IH]; intros a b E; cbn [span] in E; [by injection E as <- <-|].
  destruct (f x); [|by injection E as <- <-]. destruct (span f l) as [a' b']. injection E as <- <-.
  cbn. f_equal. by apply IH.
Qed.

Lemma exponent_stop l rest : exponent l = (l, []) -> exponent (l ++ x20 :: rest) = (l, x20 :: rest).
Proof.
  unfold exponent. destruct l as [|e l1]; [done|]. cbn [app]. destruct (bool_decide _); [|done].
  assert (forall sg l2, (let '(ds, r) := span is_digit l2 in match ds with [] => ([], e :: l1) | _ => (e :: sg ++ ds, r) end) = (e :: l1, []) ->
    (let '(ds, r) := span is_digit (l2 ++ x20 :: rest) in
     match ds with [] => ([], e :: l1 ++ x20 :: rest) | _ => (e :: sg ++ ds, r) end) = (e :: l1, x20 :: rest)) as Hs.
  { intros sg l2 E. destruct (span is_digit l2) as [ds r] eqn:Es. rewrite (span_stop _ _ _ _ _ _ (eq_refl : is_digit x20 = false) Es).
    destruct ds as [|d ds]; [done|]. by injection E as -> ->. }
  destruct l1 as [|s l2]; [done|]. cbn [app]. destruct (bool_decide (s = x2b \/ s = x2d)); apply Hs.
Qed.

Lemma number_stop l rest : number l = (l, []) -> number (l ++ x20 :: rest) = (l, x20 :: rest).
Proof.
  unfold number. destruct (span number_byte l) as [ds r] eqn:Es. destruct (exponent r) as [ex r'] eqn:Ee.
  intros [= E ->]. rewrite (span_stop _ _ _ _ _ _ (eq_refl : number_byte x20 = false) Es).
  apply span_split in Es. rewrite Es in E. apply app_inv_head in E as ->.
  rewrite (exponent_stop r rest Ee). by rewrite <- Es.
Qed.

Lemma ident_byte_rune b l : ident_byte b = true -> rune (b :: l) = [b] /\ ident_rune [b] = true.
Proof. intros Hb. destruct b; try discriminate Hb; done. Qed.

Lemma ident_stop l rest fuel : length l <= fuel -> forallb ident_byte l = true ->
  ident fuel (l ++ x20 :: rest) = (l, x20 :: rest).
Proof.
  revert l. induction fuel as [|fuel IH]; intros [|b l] Hl Hb; cbn [length] in Hl; [done|lia|done|].
  cbn [forallb] in Hb. apply andb_true_iff in Hb as [Hb1 Hb2]. cbn [app ident].
  destruct (ident_byte_rune b (l ++ x20 :: rest) Hb1) as [-> ->].
  change (drop (length [b]) (b :: l ++ x20 :: rest)) with (l ++ x20 :: rest).
  by rewrite IH by (lia || done).
Qed.

Lemma token_blank rest : token (x20 :: rest) = Ok (None, rest).
Proof. done. Qed.

Lemma token_ident s rest : ident_text s = true ->
  token (sb s ++ x20 :: rest) = Ok (Some (tokIdent s), x20 :: rest).
Proof.
  unfold ident_text. intros Hs. destruct (sb s) as [|b l] eqn:Es; [done|].
  apply andb_true_iff in Hs as [Hb Hl]. unfold token. cbn [app].
  assert (Hi : ident (length (b :: l ++ x20 :: rest)) (b :: l ++ x20 :: rest) = (b :: l, x20 :: rest)).
  { apply (ident_stop (b :: l)); [cbn; rewrite length_app; lia|]. cbn [forallb]. apply andb_true_iff. split; [|done].
    destruct b; try discriminate Hb; done. }
  assert (Hr : rune (b :: l ++ x20 :: rest) = [b]) by (destruct b; try discriminate Hb; done). rewrite Hr.
  assert (IsSpace [b] = false /\ starts_with (b :: l ++ x20 :: rest) [x2d; x2d] = false /\
    starts_with (b :: l ++ x20 :: rest) [x2f; x2a] = false /\
    bool_decide ([b] = [x22]) || bool_decide ([b] = [x27]) = false /\
    starts_number (b :: l ++ x20 :: rest) = false /\ ident_start [b] = true) as (-> & -> & -> & -> & -> & ->).
  { clear -Hb. destruct b; try discriminate Hb; destruct l; done. }
  rewrite Hi, <- Es, bstr_sb. done.
Qed.

Lemma token_quoted q s rest : q = x22 /\ s <> "" \/ q = x27 ->
  token (q :: quote_text q (sb s) ++ q :: x20 :: rest) =
    Ok (Some (if bool_decide (q = x22) then tokQuotedIdent s else tokString s), x20 :: rest).
Proof.
  intros Hq. unfold token.
  assert (forall q k, q = x22 \/ q = x27 ->
    IsSpace (rune (q :: k)) = false /\ starts_with (q :: k) [x2d; x2d] = false /\ starts_with (q :: k) [x2f; x2a] = false /\
    bool_decide (rune (q :: k) = [x22]) || bool_decide (rune (q :: k) = [x27]) = true) as Hk.
  { clear. intros q k [-> | ->]; done. }
  destruct (Hk q (quote_text q (sb s) ++ q :: x20 :: rest)) as (-> & -> & -> & ->); [tauto|].
  rewrite quoted_quote by (destruct Hq as [[-> _] | ->]; done).
  destruct Hq as [[-> Hs] | ->]; cbn [bool_decide decide].
  - rewrite bool_decide_true by done. destruct (sb s) as [|b l] eqn:Es; [|by rewrite <- Es, bstr_sb].
    apply (f_equal bstr) in Es. by rewrite bstr_sb in Es.
  - by rewrite bstr_sb.
Qed.

Lemma starts_number_stop l rest : starts_number l = true -> starts_number (l ++ x20 :: rest) = true.
Proof. destruct l as [|b [|c l]]; [done| |done]. cbn. by intros ->. Qed.

Lemma token_number s rest : number_text s = true ->
  token (sb s ++ x20 :: rest) = Ok (Some (tokNumber s), x20 :: rest).
Proof.
  unfold number_text. intros Hs. bool_hyps. unfold token.
  pose proof (starts_number_stop (sb s) rest ltac:(done)) as Hn.
  assert (exists b l, sb s ++ x20 :: rest = b :: l /\ (is_digit b = true \/ b = x2e /\ hd x00 l <> x2d)) as (b & l & El & Hb).
  { destruct (sb s) as [|b l]; [done|]. exists b, (l ++ x20 :: rest). split; [done|].
    cbn in Hn. destruct (l ++ x20 :: rest) as [|c k] eqn:Ek; [by destruct l|].
    apply orb_true_iff in Hn as [Hn|Hn]; [by left|]. apply andb_true_iff in Hn as [Hn Hc]. right. bool_hyps.
    split; [done|]. cbn. by intros ->. }
  assert (IsSpace (rune (sb s ++ x20 :: rest)) = false /\ starts_with (sb s ++ x20 :: rest) [x2d; x2d] = false /\
    starts_with (sb s ++ x20 :: rest) [x2f; x2a] = false /\
    bool_decide (rune (sb s ++ x20 :: rest) = [x22]) || bool_decide (rune (sb s ++ x20 :: rest) = [x27]) = false) as (-> & -> & -> & ->).
  { rewrite El. destruct Hb as [Hb|[-> _]]; [|done]. destruct b; try discriminate Hb; done. }
  rewrite Hn, number_stop by done. by rewrite bstr_sb.
Qed.

Lemma token_op s rest : token_text (tokOp s) = true ->
  token (sb s ++ x20 :: rest) = Ok (Some (tokOp s), x20 :: rest).
Proof.
  cbn [token_text]. intros Hs. bool_hyps.
  repeat (apply elem_of_cons in Hs as [->|Hs]; [reflexivity|]). by apply not_elem_of_nil in Hs.
Qed.

Lemma token_render t rest : token_text t = true -> token (render t ++ x20 :: rest) = Ok (Some t, x20 :: rest).
Proof.
  destruct t as [|s|s|s|s|s]; intros Ht; [done| | | | |by apply token_op].
  - by apply token_ident.
  - cbn [render app]. rewrite <- app_assoc. cbn [app]. cbn in Ht. bool_hyps.
    rewrite (token_quoted x22) by (left; done). done.
  - by apply token_number.
  - cbn [render app]. rewrite <- app_assoc. cbn [app]. rewrite (token_quoted x27) by (right; done). done.
Qed.

(** Rendered tokens read back. *)
Lemma tokens_text ts fuel : length (text_of ts) <= fuel -> forallb token_text ts = true ->
  tokens fuel (text_of ts) = Ok (ts ++ [tokEOF]).
Proof.
  revert fuel. induction ts as [|t ts IH]; intros fuel Hf Ht; [by destruct fuel|].
  cbn [forallb] in Ht. apply andb_true_iff in Ht as [Ht1 Ht2].
  assert (Et : text_of (t :: ts) = render t ++ x20 :: text_of ts) by (unfold text_of; cbn; by rewrite <- app_assoc).
  rewrite Et in *. pose proof (token_render t (text_of ts) Ht1) as E1.
  assert (render t ++ x20 :: text_of ts <> []) as Hne by (by destruct (render t)).
  pose proof (token_shorter _ _ _ Hne E1) as Hlt. destruct fuel as [|fuel].
  { cbn in Hlt. lia. }
  cbn [tokens]. destruct (render t ++ x20 :: text_of ts) as [|b l] eqn:El; [done|]. rewrite E1. cbn [fst snd].
  cbn [length] in Hlt, Hf. destruct fuel as [|fuel]; [lia|]. cbn [tokens]. rewrite token_blank. cbn [fst snd].
  by rewrite IH by (lia || done).
Qed.

Theorem tokenize_text ts sql : sb sql = text_of ts -> forallb token_text ts = true ->
  tokenizeSQL sql = Ok (ts ++ [tokEOF]).
Proof. intros E Ht. unfold tokenizeSQL. rewrite E. by apply tokens_text. Qed.
End tokens.

Example comment_and_number : tokenizeSQL (fun _ => OtherRune) "a>=.5e+1/*x*/ -- y" =
  Ok [tokIdent "a"; tokOp ">="; tokNumber ".5e+1"; tokEOF].
Proof. reflexivity. Qed.
