(* ===== verification/SqlParser.v ===== *)
(** * SqlParser: the scalar SQL grammar (vgi/scalar_sql.go)

    The parser descends from OR to primaries. Its own limit of 64 nested levels
    bounds the recursion; a loop over operators, arguments or casts takes a
    token in every step, so that the number of tokens is fuel enough. *)

From S2P Require Import Prelude Bytes Strings Unicode Strconv SqlTokens.

(** ** Expressions *)

Inductive node_kind := KConst | KColumn | KCast | KCompare | KAnd | KOr | KNot | KIsNull | KCoalesce | KFunc.
#[global] Instance node_kind_dec : EqDecision node_kind.
Proof. solve_decision. Defined.

Inductive sqlNode := Node {
  kind : node_kind;
  name : string;
  constant : string;
  args : list sqlNode
}.

Inductive sql_error := SqlError (msg : string) | OutOfFuel.
#[global] Instance sql_error_dec : EqDecision sql_error.
Proof. solve_decision. Defined.

Definition sqlReservedWords : list string :=
  ["all"; "and"; "any"; "array"; "as"; "asc"; "between"; "case"; "cast"; "collate"; "desc"; "distinct"; "else"; "end";
   "escape"; "exists"; "false"; "filter"; "from"; "glob"; "ilike"; "in"; "interval"; "is"; "isnull"; "like"; "not";
   "notnull"; "null"; "or"; "order"; "over"; "select"; "similar"; "some"; "then"; "true"; "try_cast"; "when"; "where";
   "with"].

Definition sqlComparisons (op : string) : option string :=
  snd <$> List.find (fun kv : string * string => bool_decide (fst kv = op))
    [("=", "="); ("==", "="); ("!=", "<>"); ("<>", "<>"); ("<", "<"); (">", ">"); ("<=", "<="); (">=", ">=")].

(** The words and the symbols the operator level does not take. *)
Definition unsupportedWords : list string := ["in"; "like"; "ilike"; "glob"; "similar"; "between"].
Definition unsupportedOps : list string :=
  ["^"; "**"; "//"; "&"; "|"; "<<"; ">>"; "~"; "!"; "@"; "->"; "["; ":="].

(** ** Constants and types *)

(** [isNumericConstant] *)
Definition isNumericConstant (k : string) : bool :=
  bool_decide (k ∈ ["integer"; "bigint"; "hugeint"; "decimal"; "double"]).

(** A literal without its underscores. *)
Definition clean (text : string) : bytes := filter (fun b => b <> x5f) (sb text).

Section numbers.
(** [strconv.ParseFloat] on the literal: whether it is a number. *)
Context (ParseFloat : string -> bool).

Definition numericConstantType (text : string) : result sql_error string :=
  let cl := clean text in
  if existsb (fun b => bool_decide (b = x65 \/ b = x45)) cl then
    check! ParseFloat (bstr cl) else SqlError ("invalid numeric literal " +:+ text) in Ok "double"
  else if existsb (fun b => bool_decide (b = x2e)) cl then
    check! (length (filter (fun b => b = x2e) cl) <=? 1)%nat else SqlError ("invalid numeric literal " +:+ text) in
    Ok "decimal"
  else match ParseUint (bstr cl) with
       | None => Ok "hugeint"
       | Some v => if (v <=? 2147483647)%Z then Ok "integer"
                   else if (v <=? 9223372036854775807)%Z then Ok "bigint" else Ok "hugeint"
       end.
End numbers.

(** The type a cast target names by default, "" for another. *)
Definition typeName (n : string) : string :=
  match List.find (fun kv : list string * string => bool_decide (n ∈ fst kv))
    [(["boolean"; "bool"; "logical"], "boolean"); (["tinyint"; "int1"], "tinyint");
     (["smallint"; "int2"; "short"], "smallint"); (["integer"; "int"; "int4"; "signed"], "integer");
     (["bigint"; "int8"; "long"], "bigint");
     (["varchar"; "text"; "string"; "char"; "bpchar"; "nvarchar"], "varchar");
     (["float"; "float4"; "real"], "float"); (["double"; "float8"], "double");
     (["decimal"; "numeric"], "decimal")] with
  | Some (_, t) => t
  | None => ""
  end.

(** ** The state of the parser *)

Record sqlParser := { toks : list sqlToken; nodes : Z }.
Definition Parse (A : Type) : Type := sqlParser -> result sql_error (A * sqlParser).

#[global] Instance Parse_ret : MRet Parse := fun A a p => Ok (a, p).
#[global] Instance Parse_bind : MBind Parse := fun A B k m p =>
  match m p with Ok (a, p) => k a p | Err e => Err e end.
Definition fail {A} (msg : string) : Parse A := fun _ => Err (SqlError msg).

Definition lift {A} (r : result sql_error A) : Parse A := fun p => let? a := r in Ok (a, p).
Definition exhausted {A} : Parse A := fun _ => Err OutOfFuel.

Definition peek_of (l : list sqlToken) : sqlToken := match l with t :: _ => t | [] => tokEOF end.
(** The end is not passed. *)
Definition next_of (l : list sqlToken) : list sqlToken :=
  match l with [] => [] | tokEOF :: _ => l | _ :: l => l end.
Definition peek : Parse sqlToken := fun p => Ok (peek_of (toks p), p).
Definition rest_of : Parse (list sqlToken) := fun p => Ok (toks p, p).
Definition next : Parse sqlToken := fun p =>
  Ok (peek_of (toks p), {| toks := next_of (toks p); nodes := nodes p |}).

Definition is_op (op : string) (t : sqlToken) : bool := bool_decide (t = tokOp op).
Definition is_word (word : string) (t : sqlToken) : bool :=
  match t with tokIdent s => EqualFold s word | _ => false end.
Definition isOp (op : string) : Parse bool := fun p => Ok (is_op op (peek_of (toks p)), p).
Definition isWord (word : string) : Parse bool := fun p => Ok (is_word word (peek_of (toks p)), p).
Definition expectOp (op : string) : Parse () :=
  b ← isOp op; if (b : bool) then _ ← next; mret () else fail ("expected " +:+ op).

Definition complex : string := "scalar expression is too complex".
Definition node (k : node_kind) (n c : string) (a : list sqlNode) : Parse sqlNode := fun p =>
  let count := (nodes p + 1)%Z in
  if (4096 <? count)%Z then Err (SqlError complex)
  else Ok (Node k n c a, {| toks := toks p; nodes := count |}).

Section parser.
Context `{Unicode} (ParseFloat : string -> bool).
(** The fuel of every loop. *)
Context (fuel : nat).

(** An operator, by the kind and the name of its node. *)
Abbreviation operators := (sqlToken -> option (node_kind * string)).
Definition or_op : operators := fun t => if is_word "or" t then Some (KOr, "or") else None.
Definition and_op : operators := fun t => if is_word "and" t then Some (KAnd, "and") else None.
Definition op_in (ops : list string) : operators := fun t =>
  match t with tokOp o => if bool_decide (o ∈ ops) then Some (KFunc, o) else None | _ => None end.
Definition concat_op : operators := op_in ["||"].
Definition additive_op : operators := op_in ["+"; "-"].
Definition multiplicative_op : operators := op_in ["*"; "/"; "%"].

(** Left-associative operators of one level. *)
Fixpoint infix (n : nat) (ops : operators) (operand : Parse sqlNode) (left : sqlNode) : Parse sqlNode :=
  (t ← peek;
   match ops t with
   | None => mret left
   | Some (k, o) =>
       match n with
       | O => exhausted
       | S n =>
           _ ← next; right ← operand;
           left ← node k o "" [left; right];
           infix n ops operand left
       end
   end) : Parse sqlNode.
Definition level (ops : operators) (operand : Parse sqlNode) : Parse sqlNode :=
  left ← operand; infix fuel ops operand left.

(** The tokens of type parameters, up to the closing parenthesis. *)
Fixpoint skip_parameters (l : list sqlToken) : option (list sqlToken) :=
  match l with
  | [] | tokEOF :: _ => None
  | t :: l => if is_op ")" t then Some l else skip_parameters l
  end.

Definition parameters : Parse () := fun p =>
  match skip_parameters (toks p) with
  | None => Err (SqlError "unterminated type parameters")
  | Some l => Ok ((), {| toks := l; nodes := nodes p |})
  end.

Definition parseTypeName : Parse string :=
  t ← next;
  match t with
  | tokIdent text | tokQuotedIdent text =>
      dot ← isOp ".";
      if (dot : bool) then fail "qualified scalar cast types are unsupported" else
      let n := ToLower text in
      paren ← isOp "(";
      let rest := b ← isOp "["; if (b : bool) then fail "unsupported scalar cast" else mret (typeName n) in
      if (paren : bool) then
        _ ← next;
        _ ← parameters;
        if bool_decide (n = "decimal" \/ n = "numeric") then mret "decimal" else rest
      else rest
  | _ => fail "expected a type name"
  end.

(** The functions of one level of nesting, given those of the next one. *)
Record levels := { Or : Parse sqlNode; Not : Parse sqlNode; Unary : Parse sqlNode }.

Section nested.
Context (deeper : levels).

(** An argument name, [name := value], which is refused. *)
Definition named_argument (l : list sqlToken) : bool :=
  match l with
  | (tokIdent _ | tokQuotedIdent _) :: t :: _ => is_op ":=" t || is_op "=>" t
  | _ => false
  end.
Fixpoint arguments (n : nat) (acc : list sqlNode) : Parse (list sqlNode) :=
  (l ← rest_of;
   if named_argument l then fail "named scalar arguments are unsupported" else
   arg ← Or deeper;
   order ← isWord "order";
   if (order : bool) then fail "ORDER BY arguments are unsupported" else
   comma ← isOp ",";
   if (comma : bool) then
     match n with
     | O => exhausted
     | S n => _ ← next; arguments n (acc ++ [arg])
     end
   else mret (acc ++ [arg])) : Parse (list sqlNode).

(** A call, after its name and opening parenthesis. *)
Definition call (word : string) : Parse sqlNode :=
  t ← peek;
  if is_word "distinct" t || is_word "all" t || is_op "*" t then fail "aggregate syntax is unsupported" else
  a ← (if is_op ")" t then mret [] else arguments fuel []);
  _ ← expectOp ")";
  t ← peek;
  if is_word "filter" t || is_word "over" t then fail "FILTER/OVER clauses are unsupported" else
  if bool_decide (word = "coalesce") then
    match a with
    | [] => fail "COALESCE requires arguments"
    | _ => node KCoalesce "coalesce" "" a
    end
  else node KFunc word "" a.

Definition cast : Parse sqlNode :=
  _ ← expectOp "(";
  operand ← Or deeper;
  as_ ← isWord "as";
  if negb as_ then fail "expected AS in CAST" else
  _ ← next;
  target ← parseTypeName;
  _ ← expectOp ")";
  node KCast target "" [operand].

Definition identifier (text : string) : Parse sqlNode :=
  let word := ToLower text in
  if bool_decide (word = "null") then node KConst "" "null" []
  else if bool_decide (word = "true" \/ word = "false") then node KConst "" "boolean" []
  else if bool_decide (word = "cast") then cast
  else if bool_decide (word = "try_cast") then fail "TRY_CAST is unsupported"
  else
    paren ← isOp "(";
    if (paren : bool) then _ ← next; call word
    else if bool_decide (word ∈ sqlReservedWords) then fail ("unsupported " +:+ ToUpper word +:+ " expression")
    else
      dot ← isOp ".";
      if (dot : bool) then fail "qualified column references are unsupported"
      else node KColumn text "" [].

Definition parsePrimary : Parse sqlNode :=
  t ← next;
  match t with
  | tokNumber text => k ← lift (numericConstantType ParseFloat text); node KConst "" k []
  | tokString _ => node KConst "" "varchar" []
  | tokQuotedIdent text =>
      t ← peek;
      if is_op "(" t then fail "quoted function names are unsupported"
      else if is_op "." t then fail "qualified column references are unsupported"
      else node KColumn text "" []
  | tokOp o =>
      if bool_decide (o = "(") then
        inner ← Or deeper;
        comma ← isOp ",";
        if (comma : bool) then fail "row constructors are unsupported" else
        _ ← expectOp ")"; mret inner
      else if bool_decide (o = "*") then fail "star expressions are unsupported"
      else if bool_decide (o = "?" \/ o = "$") then fail "parameters are unsupported"
      else fail ("unexpected " +:+ o)
  | tokIdent text => identifier text
  | tokEOF => fail "expected a scalar expression"
  end.

Fixpoint casts (n : nat) (expr : sqlNode) : Parse sqlNode :=
  (t ← peek;
   if is_op "::" t then
     match n with
     | O => exhausted
     | S n =>
         _ ← next; target ← parseTypeName;
         expr ← node KCast target "" [expr];
         casts n expr
     end
   else mret expr) : Parse sqlNode.
Definition parsePostfix : Parse sqlNode :=
  expr ← parsePrimary;
  expr ← casts fuel expr;
  t ← peek;
  if is_op "[" t || is_op "." t then fail "subscripts and qualified names are unsupported" else mret expr.

(** A minus on a numeric literal is folded into it. *)
Definition parseUnary : Parse sqlNode :=
  t ← peek;
  match t with
  | tokOp o =>
      if bool_decide (o = "-" \/ o = "+") then
        _ ← next;
        operand ← Unary deeper;
        if bool_decide (o = "-") && bool_decide (kind operand = KConst) && isNumericConstant (constant operand)
        then mret operand
        else node KFunc o "" [operand]
      else parsePostfix
  | _ => parsePostfix
  end.

Definition parseMultiplicative : Parse sqlNode := level multiplicative_op parseUnary.
Definition parseAdditive : Parse sqlNode := level additive_op parseMultiplicative.
Definition parseOther : Parse sqlNode :=
  left ← level concat_op parseAdditive;
  t ← peek;
  match t with
  | tokOp o => if bool_decide (o ∈ unsupportedOps) then fail ("unsupported operator " +:+ o) else mret left
  | _ => mret left
  end.

Definition parseCompare : Parse sqlNode :=
  left ← parseOther;
  t ← peek;
  let words :=
    match t with
    | tokIdent text =>
        let w := ToLower text in
        if bool_decide (w ∈ unsupportedWords) then fail ("unsupported " +:+ ToUpper text +:+ " expression")
        else if bool_decide (w = "not") then fail "unsupported NOT IN/LIKE/BETWEEN expression"
        else mret left
    | _ => mret left
    end in
  match t with
  | tokOp o =>
      match sqlComparisons o with
      | Some op =>
          _ ← next;
          right ← parseOther;
          t ← peek;
          match t with
          | tokOp o' => if bool_decide (is_Some (sqlComparisons o')) then fail "chained comparisons are not valid SQL"
                        else node KCompare op "" [left; right]
          | _ => node KCompare op "" [left; right]
          end
      | None => words
      end
  | _ => words
  end.

Definition parseIs : Parse sqlNode :=
  left ← parseCompare;
  t ← peek;
  if is_word "isnull" t then _ ← next; node KIsNull "is null" "" [left]
  else if is_word "notnull" t then _ ← next; node KIsNull "is not null" "" [left]
  else if is_word "is" t then
    _ ← next;
    n ← isWord "not";
    o ← (if (n : bool) then _ ← next; mret "is not null" else mret "is null");
    null ← isWord "null";
    if negb null then fail "only IS [NOT] NULL is supported"
    else _ ← next; node KIsNull o "" [left]
  else mret left.

Definition parseNot : Parse sqlNode :=
  n ← isWord "not";
  if (n : bool) then _ ← next; operand ← Not deeper; node KNot "not" "" [operand]
  else parseIs.
Definition parseAnd : Parse sqlNode := level and_op parseNot.
Definition parseOr : Parse sqlNode := level or_op parseAnd.
End nested.

(** [depth] levels may still be opened; at none every function refuses before it
    looks at a token. *)
Fixpoint nest (depth : nat) : levels :=
  match depth with
  | O => {| Or := fail complex; Not := fail complex; Unary := fail complex |}
  | S depth =>
      let deeper := nest depth in
      {| Or := parseOr deeper; Not := parseNot deeper; Unary := parseUnary deeper |}
  end.
End parser.

Section text.
Context `{Unicode} (ParseFloat : string -> bool) (uni_class : bytes -> rune_class).

(** The fuel is the number of tokens. *)
Definition parseTokens (l : list sqlToken) : result sql_error sqlNode :=
  match Or (nest ParseFloat (length l) 65) {| toks := l; nodes := 0 |} with
  | Err e => Err e
  | Ok (expr, p) =>
      match peek_of (toks p) with
      | tokEOF => Ok expr
      | tokIdent text =>
          if EqualFold text "as" || negb (bool_decide (ToLower text ∈ sqlReservedWords))
          then Err (SqlError "aliases are unsupported")
          else Err (SqlError ("expected exactly one scalar expression, found " +:+ text))
      | tokQuotedIdent text | tokNumber text | tokString text | tokOp text =>
          Err (SqlError ("expected exactly one scalar expression, found " +:+ text))
      end
  end.

Definition sql_size (sql : string) : bool :=
  negb (bool_decide (sql = "")) && (length (sb sql) <=? 1024 * 1024)%nat &&
  negb (bool_decide (x00 ∈ sb sql)) && utf8_valid (sb sql).

Definition parseScalarSQL (sql : string) : result sql_error sqlNode :=
  if negb (sql_size sql) then Err (SqlError "invalid SQL size or text") else
  match tokenizeSQL uni_class sql with
  | Err e => Err (SqlError e)
  | Ok l => parseTokens l
  end.
End text.

(** ** The fuel is enough

    [fine n m]: on at most [n] tokens, [m] does not run out of fuel and leaves
    no more tokens than it found; [good n m]: it takes at least one. *)
Section fuel.
Context `{Unicode} (ParseFloat : string -> bool).

Definition left_of (p : sqlParser) : nat := length (toks p).
Definition fine {A} (n : nat) (m : Parse A) : Prop := forall p, left_of p <= n ->
  match m p with Ok (_, p') => left_of p' <= left_of p | Err e => e <> OutOfFuel end.
Definition good {A} (n : nat) (m : Parse A) : Prop := forall p, left_of p <= n ->
  match m p with Ok (_, p') => left_of p' < left_of p | Err e => e <> OutOfFuel end.

Lemma good_fine {A} n (m : Parse A) : good n m -> fine n m.
Proof. intros Hm p Hp. specialize (Hm p Hp). destruct (m p) as [[a p']|]; [lia|done]. Qed.
Lemma fine_ret {A} n (a : A) : fine n (mret (M := Parse) a).
Proof. intros p Hp. cbn. lia. Qed.
Lemma good_fail {A} n msg : good n (fail (A := A) msg).
Proof. done. Qed.
Lemma fine_bind {A B} n (m : Parse A) (k : A -> Parse B) : fine n m -> (forall a, fine n (k a)) -> fine n (m ≫= k).
Proof.
  intros Hm Hk p Hp. specialize (Hm p Hp). unfold mbind, Parse_bind. destruct (m p) as [[a p']|]; [|done].
  specialize (Hk a p' ltac:(lia)). destruct (k a p') as [[b p'']|]; [lia|done].
Qed.
Lemma good_bind {A B} n (m : Parse A) (k : A -> Parse B) : good n m -> (forall a, fine n (k a)) -> good n (m ≫= k).
Proof.
  intros Hm Hk p Hp. specialize (Hm p Hp). unfold mbind, Parse_bind. destruct (m p) as [[a p']|]; [|done].
  specialize (Hk a p' ltac:(lia)). destruct (k a p') as [[b p'']|]; [lia|done].
Qed.
Lemma fine_good_bind {A B} n (m : Parse A) (k : A -> Parse B) : fine n m -> (forall a, good n (k a)) -> good n (m ≫= k).
Proof.
  intros Hm Hk p Hp. specialize (Hm p Hp). unfold mbind, Parse_bind. destruct (m p) as [[a p']|]; [|done].
  specialize (Hk a p' ltac:(lia)). destruct (k a p') as [[b p'']|]; [lia|done].
Qed.

Lemma next_shorter l : length (next_of l) <= length l /\ (peek_of l <> tokEOF -> length (next_of l) < length l).
Proof. destruct l as [|[] l]; cbn; split; intros; (lia || done). Qed.

Lemma fine_peek n : fine n peek.
Proof. intros p Hp. cbn. lia. Qed.
Lemma fine_rest n : fine n rest_of.
Proof. intros p Hp. cbn. lia. Qed.
Lemma fine_next n : fine n next.
Proof. intros p Hp. apply next_shorter. Qed.
Lemma fine_isOp n op : fine n (isOp op).
Proof. intros p Hp. cbn. lia. Qed.
Lemma fine_isWord n w : fine n (isWord w).
Proof. intros p Hp. cbn. lia. Qed.
Lemma fine_lift {A} n (r : result sql_error A) : r <> Err OutOfFuel -> fine n (lift r).
Proof. intros Hr p Hp. unfold lift. destruct r; [lia|congruence]. Qed.
Lemma fine_node n k nm c a : fine n (node k nm c a).
Proof. intros p Hp. unfold node. destruct (_ <? _)%Z; [done|]. by cbn. Qed.
Lemma fine_expectOp n op : fine n (expectOp op).
Proof.
  apply fine_bind; [apply fine_isOp|]. intros []; [|apply good_fine, good_fail].
  apply fine_bind; [apply fine_next|]. intros _. apply fine_ret.
Qed.
Lemma fine_parameters n : fine n parameters.
Proof.
  intros p Hp. unfold parameters. destruct (skip_parameters (toks p)) as [l|] eqn:E; [|done].
  cbn. unfold left_of. cbn. revert E. clear. generalize (toks p) as ts. induction ts as [|t ts IH]; cbn; [done|].
  intros E. assert (length l <= length ts); [|lia].
  destruct t; try done; destruct (is_op _ _); try (injection E as <-; lia); apply IH, E.
Qed.
Lemma fine_literal n text : fine n (lift (numericConstantType ParseFloat text)).
Proof.
  apply fine_lift. unfold numericConstantType. destruct (existsb _ _); [by destruct (ParseFloat _)|].
  destruct (existsb _ _); [by destruct (_ <=? _)%nat|]. destruct (ParseUint _); [|done]. by repeat destruct (_ <=? _)%Z.
Qed.
Hint Resolve fine_ret good_fail fine_peek fine_rest fine_next fine_isOp fine_isWord fine_node fine_expectOp fine_parameters fine_literal : fuel.

(** Closes the goals a monadic body leaves, but for the calls. *)
Ltac fine_step :=
  match goal with
  | |- fine _ (mbind _ _) => apply fine_bind; [|intros ?]
  | |- fine _ (if ?b then _ else _) => destruct b
  | |- fine _ (match ?t with _ => _ end) => destruct t
  | |- fine _ (fail _) => apply good_fine, good_fail
  | |- fine _ _ => progress eauto with fuel nocore
  end.
Ltac fine_tac := repeat fine_step.

Lemma fine_parseTypeName n : fine n parseTypeName.
Proof. unfold parseTypeName. fine_tac. Qed.
Hint Resolve fine_parseTypeName : fuel.

(** A token that was seen is taken. *)
Lemma next_then {A} n (m : Parse A) p : peek_of (toks p) <> tokEOF -> left_of p <= S n -> fine n m ->
  match (next ≫= fun _ => m) p with Ok (_, p') => left_of p' < left_of p | Err e => e <> OutOfFuel end.
Proof.
  intros Hp Hl Hm. destruct (next_shorter (toks p)) as [_ Hn]. specialize (Hn Hp). unfold mbind, Parse_bind, next.
  set (p1 := {| toks := next_of (toks p); nodes := nodes p |}). assert (left_of p1 < left_of p) as H1 by exact Hn.
  specialize (Hm p1 ltac:(lia)). destruct (m p1) as [[a p']|]; [lia|done].
Qed.

Lemma fine_infix n F ops operand left : (forall t o, ops t = Some o -> t <> tokEOF) -> n <= F -> good F operand ->
  fine n (infix n ops operand left).
Proof.
  intros Ho. revert left. induction n as [|n IH]; intros left Hn Hg p Hp; cbn [infix]; unfold mbind, Parse_bind, peek;
    destruct (ops (peek_of (toks p))) as [[k o]|] eqn:E; try (cbn; lia).
  - apply Ho in E. unfold left_of in Hp. destruct (toks p); [done|]. cbn in Hp. lia.
  - apply Ho in E. pose proof (next_then n (right ← operand; left ← node k o "" [left; right]; infix n ops operand left) p E Hp) as Hx.
    match type of Hx with _ -> match ?m with _ => _ end => destruct m as [[a p']|] eqn:Em end.
    + assert (left_of p' < left_of p).
      { apply Hx. apply fine_bind; [apply good_fine; intros q Hq; apply Hg; lia|]. intros r.
        apply fine_bind; [apply fine_node|]. intros l. apply IH; [lia|done]. }
      unfold mbind, Parse_bind in Em. rewrite Em. lia.
    + unfold mbind, Parse_bind in Em. rewrite Em. apply Hx. apply fine_bind; [apply good_fine; intros q Hq; apply Hg; lia|].
      intros r. apply fine_bind; [apply fine_node|]. intros l. apply IH; [lia|done].
Qed.

Lemma good_next {A} n (k : sqlToken -> Parse A) : (forall t, t <> tokEOF -> fine n (k t)) -> good n (k tokEOF) ->
  good n (next ≫= k).
Proof.
  intros Hk He p Hp. destruct (next_shorter (toks p)) as [H1 H2]. unfold mbind, Parse_bind, next.
  set (p1 := {| toks := next_of (toks p); nodes := nodes p |}). change (length (next_of (toks p))) with (left_of p1) in *.
  change (length (toks p)) with (left_of p) in *. destruct (decide (peek_of (toks p) = tokEOF)) as [E|E].
  - rewrite E. specialize (He p1 ltac:(lia)). destruct (k tokEOF p1) as [[a p']|]; [lia|done].
  - specialize (H2 E). specialize (Hk _ E p1 ltac:(lia)). destruct (k _ p1) as [[a p']|]; [lia|done].
Qed.

(** After a step that takes a token there is one less. *)
Lemma good_then {A B} n (m : Parse A) (k : A -> Parse B) : good (S n) m -> (forall a, fine n (k a)) -> fine (S n) (m ≫= k).
Proof.
  intros Hm Hk p Hp. specialize (Hm p Hp). unfold mbind, Parse_bind. destruct (m p) as [[a p']|]; [|done].
  specialize (Hk a p' ltac:(lia)). destruct (k a p') as [[b p'']|]; [lia|done].
Qed.
Lemma good_zero {A B} (m : Parse A) (k : A -> Parse B) : good 0 m -> fine 0 (m ≫= k).
Proof.
  intros Hm p Hp. specialize (Hm p Hp). unfold mbind, Parse_bind. destruct (m p) as [[a p']|]; [lia|done].
Qed.

Lemma word_not_eof w t : is_word w t = true -> t <> tokEOF.
Proof. by destruct t. Qed.
Lemma op_not_eof o t : is_op o t = true -> t <> tokEOF.
Proof. unfold is_op. intros E. bool_hyps. by subst. Qed.

Lemma good_word {A} n w (m : Parse A) (k : Parse A) : fine n m -> good n k ->
  good n (b ← isWord w; if (b : bool) then _ ← next; m else k).
Proof.
  intros Hm Hk p Hp. unfold mbind at 1, Parse_bind at 1, isWord. destruct (is_word w (peek_of (toks p))) eqn:E.
  - apply (next_then n m); [by eapply word_not_eof|lia|done].
  - by apply Hk.
Qed.

Section fuelled.
Context (F : nat) (deeper : levels).
Definition good_levels (l : levels) : Prop := good F (Or l) /\ good F (Not l) /\ good F (Unary l).
Context (Hd : good_levels deeper).

Lemma fine_arguments n acc : n <= F -> fine n (arguments deeper n acc).
Proof using Hd.
  destruct Hd as [Ho _]. revert acc. induction n as [|n IH]; intros acc Hn; cbn [arguments];
    (apply fine_bind; [apply fine_rest|intros l]); (destruct (named_argument l); [by apply good_fine|]).
  - apply good_zero. intros p Hp. apply Ho. lia.
  - apply good_then; [intros p Hp; apply Ho; lia|]. intros arg. fine_tac. apply IH. lia.
Qed.

Lemma fine_call word : fine F (call F deeper word).
Proof using Hd. unfold call. fine_tac. by apply fine_arguments. Qed.

Lemma fine_cast : fine F (cast deeper).
Proof using Hd. destruct Hd as [Ho _]. unfold cast. fine_tac. by apply good_fine. Qed.

Lemma fine_identifier text : fine F (identifier F deeper text).
Proof using Hd. unfold identifier. fine_tac; [apply fine_cast|apply fine_call]. Qed.

Lemma good_primary : good F (parsePrimary ParseFloat F deeper).
Proof using Hd.
  apply good_next; [|apply good_fail]. destruct Hd as [Ho _]. intros [] Hne; fine_tac; auto using fine_identifier, good_fine.
Qed.

Lemma fine_casts n expr : n <= F -> fine n (casts n expr).
Proof.
  revert expr. induction n as [|n IH]; intros expr Hn p Hp; cbn [casts]; unfold mbind at 1, Parse_bind at 1, peek;
    destruct (is_op "::" (peek_of (toks p))) eqn:E; try (cbn; lia).
  - apply op_not_eof in E. unfold left_of in Hp. destruct (toks p); [done|]. cbn in Hp. lia.
  - apply op_not_eof in E.
    pose proof (next_then n (target ← parseTypeName; expr ← node KCast target "" [expr]; casts n expr) p E Hp) as Hx.
    match type of Hx with _ -> match ?m with _ => _ end => destruct m as [[a p']|] eqn:Em end.
    + assert (left_of p' < left_of p) by (apply Hx; fine_tac; apply IH; lia). lia.
    + apply Hx. fine_tac. apply IH. lia.
Qed.

Lemma good_postfix : good F (parsePostfix ParseFloat F deeper).
Proof using Hd.
  apply good_bind; [apply good_primary|]. intros e. fine_tac. by apply fine_casts.
Qed.

Lemma good_unary : good F (parseUnary ParseFloat F deeper).
Proof using Hd.
  destruct Hd as (_ & _ & Hu). intros p Hp. unfold parseUnary. unfold mbind at 1, Parse_bind at 1, peek.
  destruct (peek_of (toks p)) as [|text|text|text|text|o] eqn:E; try by apply good_postfix.
  destruct (bool_decide (o = "-" \/ o = "+")); [|by apply good_postfix].
  match goal with |- match (next ≫= fun _ => ?m) p with _ => _ end => apply (next_then F m) end; [by rewrite E|lia|].
  fine_tac. by apply good_fine.
Qed.

Lemma good_level ops operand : (forall t o, ops t = Some o -> t <> tokEOF) -> good F operand -> good F (level F ops operand).
Proof.
  intros Ho Hg. apply good_bind; [done|]. intros l. by apply (fine_infix F F).
Qed.
Lemma op_in_not_eof ops t o : op_in ops t = Some o -> t <> tokEOF.
Proof. by destruct t. Qed.
Lemma or_op_not_eof t o : or_op t = Some o -> t <> tokEOF.
Proof. by destruct t. Qed.
Lemma and_op_not_eof t o : and_op t = Some o -> t <> tokEOF.
Proof. by destruct t. Qed.

Lemma good_other : good F (parseOther ParseFloat F deeper).
Proof using Hd.
  apply good_bind; [repeat apply good_level; eauto using op_in_not_eof, good_unary|]. intros l. fine_tac.
Qed.

Lemma good_compare : good F (parseCompare ParseFloat F deeper).
Proof using Hd.
  apply good_bind; [apply good_other|]. intros l. apply fine_bind; [apply fine_peek|]. intros t. cbv zeta.
  fine_tac. apply good_fine, good_other.
Qed.

Lemma good_is : good F (parseIs ParseFloat F deeper).
Proof using Hd. apply good_bind; [apply good_compare|]. intros l. fine_tac. Qed.

Lemma good_not : good F (parseNot ParseFloat F deeper).
Proof using Hd.
  destruct Hd as (_ & Hn & _). apply good_word; [|apply good_is]. fine_tac. by apply good_fine.
Qed.

Lemma good_or : good F (parseOr ParseFloat F deeper).
Proof using Hd. repeat apply good_level; eauto using or_op_not_eof, and_op_not_eof, good_not. Qed.
End fuelled.

Lemma nest_good F d : good_levels F (nest ParseFloat F d).
Proof.
  induction d as [|d IH]; [repeat split; apply good_fail|]. repeat split; [by apply good_or|by apply good_not|by apply good_unary].
Qed.

(** The parser is total: it never runs out of fuel. *)
Lemma parseTokens_total l : parseTokens ParseFloat l <> Err OutOfFuel.
Proof.
  unfold parseTokens. destruct (nest_good (length l) 65) as [Ho _].
  specialize (Ho {| toks := l; nodes := 0 |} ltac:(done)).
  destruct (Or (nest ParseFloat (length l) 65) _) as [[expr p]|e]; [|congruence].
  destruct (peek_of (toks p)); try done. by destruct (_ || _).
Qed.
End fuel.
