(* ===== verification/SqlGrammar.v ===== *)
(** * SqlGrammar: what the SQL parser accepts, as a grammar

    [expr] is the grammar of scalar SQL with its operator precedences, [print]
    writes an expression with the parentheses these need, and [node_of] is the
    node it stands for. The parser reads every expression within its limits back
    from its text, whatever the nesting. *)

From S2P Require Import Prelude Bytes Strings Unicode Strconv SqlTokens SqlParser.

Inductive binary := BOr | BAnd | BConcat | BAdd | BSub | BMul | BDiv | BMod.
Inductive comparison := CEq | CNe | CLt | CGt | CLe | CGe.
#[global] Instance binary_dec : EqDecision binary.
Proof. solve_decision. Defined.

Inductive expr :=
| ENumber (text : string)
| EText (text : string)
| ENull
| EBool (b : bool)
| EColumn (n : string)
| ECast (e : expr) (target : string)
| ECall (f : string) (args : list expr)
| EUnary (minus : bool) (e : expr)
| EBinary (o : binary) (a b : expr)
| ECompare (c : comparison) (a b : expr)
| ENot (e : expr)
| EIsNull (negated : bool) (e : expr).

Section expr_ind.
Context (P : expr -> Prop).
Context (Hnum : forall t, P (ENumber t)) (Htext : forall t, P (EText t)) (Hnull : P ENull) (Hbool : forall b, P (EBool b))
  (Hcol : forall n, P (EColumn n)) (Hcast : forall e t, P e -> P (ECast e t))
  (Hcall : forall f args, Forall P args -> P (ECall f args)) (Hun : forall m e, P e -> P (EUnary m e))
  (Hbin : forall o a b, P a -> P b -> P (EBinary o a b)) (Hcmp : forall c a b, P a -> P b -> P (ECompare c a b))
  (Hnot : forall e, P e -> P (ENot e)) (His : forall n e, P e -> P (EIsNull n e)).
Fixpoint expr_nested_ind (e : expr) : P e :=
  match e with
  | ENumber t => Hnum t | EText t => Htext t | ENull => Hnull | EBool b => Hbool b | EColumn n => Hcol n
  | ECast e t => Hcast e t (expr_nested_ind e)
  | ECall f l => Hcall f l ((fix go (l : list expr) : Forall P l :=
                     match l with [] => List.Forall_nil P | x :: l => List.Forall_cons P x l (expr_nested_ind x) (go l) end) l)
  | EUnary m e => Hun m e (expr_nested_ind e)
  | EBinary o a b => Hbin o a b (expr_nested_ind a) (expr_nested_ind b)
  | ECompare c a b => Hcmp c a b (expr_nested_ind a) (expr_nested_ind b)
  | ENot e => Hnot e (expr_nested_ind e)
  | EIsNull n e => His n e (expr_nested_ind e)
  end.
End expr_ind.

(** ** Precedence: a higher level binds tighter *)

Definition binary_level (o : binary) : nat :=
  match o with BOr => 0 | BAnd => 1 | BConcat => 5 | BAdd | BSub => 6 | BMul | BDiv | BMod => 7 end.
Definition level_of (e : expr) : nat :=
  match e with
  | EBinary o _ _ => binary_level o
  | ENot _ => 2 | EIsNull _ _ => 3 | ECompare _ _ _ => 4 | EUnary _ _ => 8
  | _ => 10
  end.

Definition binary_text (o : binary) : string :=
  match o with BOr => "or" | BAnd => "and" | BConcat => "||" | BAdd => "+" | BSub => "-" | BMul => "*" | BDiv => "/" | BMod => "%" end.
Definition binary_token (o : binary) : sqlToken :=
  match o with BOr | BAnd => tokIdent (binary_text o) | _ => tokOp (binary_text o) end.
Definition binary_kind (o : binary) : node_kind := match o with BOr => KOr | BAnd => KAnd | _ => KFunc end.
Definition comparison_text (c : comparison) : string :=
  match c with CEq => "=" | CNe => "<>" | CLt => "<" | CGt => ">" | CLe => "<=" | CGe => ">=" end.
Definition sign (minus : bool) : string := if minus then "-" else "+".

(** ** Text *)

Definition parens (l : list sqlToken) : list sqlToken := tokOp "(" :: l ++ [tokOp ")"].
Fixpoint commas (l : list (list sqlToken)) : list sqlToken :=
  match l with [] => [] | [x] => x | x :: l => x ++ tokOp "," :: commas l end.

Fixpoint body (e : expr) : list sqlToken :=
  let print k e := if (level_of e <? k)%nat then parens (body e) else body e in
  match e with
  | ENumber t => [tokNumber t]
  | EText t => [tokString t]
  | ENull => [tokIdent "null"]
  | EBool b => [tokIdent (if b then "true" else "false")]
  | EColumn n => [tokQuotedIdent n]
  | ECast e t => tokIdent "cast" :: tokOp "(" :: print 0 e ++ [tokIdent "as"; tokIdent t; tokOp ")"]
  | ECall f args => tokIdent f :: tokOp "(" :: commas (map (print 0) args) ++ [tokOp ")"]
  | EUnary m e => tokOp (sign m) :: print 8 e
  | EBinary o a b => print (binary_level o) a ++ binary_token o :: print (S (binary_level o)) b
  | ECompare c a b => print 5 a ++ tokOp (comparison_text c) :: print 5 b
  | ENot e => tokIdent "not" :: print 2 e
  | EIsNull n e => print 4 e ++ tokIdent "is" :: (if n then [tokIdent "not"] else []) ++ [tokIdent "null"]
  end.
Definition print (k : nat) (e : expr) : list sqlToken := if (level_of e <? k)%nat then parens (body e) else body e.

(** ** Limits: nodes, and levels of nesting beyond the one a text starts in *)

Definition folds (n : sqlNode) : bool := bool_decide (kind n = KConst) && isNumericConstant (constant n).

Section grammar.
Context `{Unicode} (ParseFloat : string -> bool).

Definition number_kind (t : string) : string :=
  match numericConstantType ParseFloat t with Ok k => k | Err _ => "" end.
Fixpoint node_of (e : expr) : sqlNode :=
  match e with
  | ENumber t => Node KConst "" (number_kind t) []
  | EText _ => Node KConst "" "varchar" []
  | ENull => Node KConst "" "null" []
  | EBool _ => Node KConst "" "boolean" []
  | EColumn n => Node KColumn n "" []
  | ECast e t => Node KCast (typeName (ToLower t)) "" [node_of e]
  | ECall f args =>
      let word := ToLower f in
      Node (if bool_decide (word = "coalesce") then KCoalesce else KFunc) word "" (map node_of args)
  | EUnary m e => if m && folds (node_of e) then node_of e else Node KFunc (sign m) "" [node_of e]
  | EBinary o a b => Node (binary_kind o) (binary_text o) "" [node_of a; node_of b]
  | ECompare c a b => Node KCompare (comparison_text c) "" [node_of a; node_of b]
  | ENot e => Node KNot "not" "" [node_of e]
  | EIsNull n e => Node KIsNull (if n then "is not null" else "is null") "" [node_of e]
  end.

Fixpoint size (e : expr) : Z :=
  match e with
  | ECast e _ | ENot e | EIsNull _ e => size e + 1
  | EUnary m e => if m && folds (node_of e) then size e else size e + 1
  | ECall _ args => foldr (fun e n => size e + n) 0 args + 1
  | EBinary _ a b | ECompare _ a b => size a + size b + 1
  | _ => 1
  end%Z.

Fixpoint need_body (e : expr) : nat :=
  let need k e := (if (level_of e <? k)%nat then 1 else 0) + need_body e in
  match e with
  | ECast e _ => S (need 0 e)
  | ENot e => S (need 2 e)
  | EUnary _ e => S (need 8 e)
  | EIsNull _ e => need 4 e
  | ECompare _ a b => Nat.max (need 5 a) (need 5 b)
  | EBinary o a b => Nat.max (need (binary_level o) a) (need (S (binary_level o)) b)
  | ECall _ args => S (foldr (fun e n => Nat.max (need 0 e) n) 0 args)
  | _ => 0
  end.
Definition need (k : nat) (e : expr) : nat := (if (level_of e <? k)%nat then 1 else 0) + need_body e.

(** What an expression is made of can be written: literals the tokenizer reads,
    non-empty column names, and function names that are no keyword of the
    positions they stand in. *)
Definition function_name (f : string) (n : nat) : bool :=
  ident_text f &&
  negb (bool_decide (ToLower f ∈ ["null"; "true"; "false"; "cast"; "try_cast"])) &&
  negb (EqualFold f "not") && negb (EqualFold f "distinct") && negb (EqualFold f "all") &&
  (negb (bool_decide (ToLower f = "coalesce")) || (0 <? n)%nat).
Fixpoint written (e : expr) : bool :=
  match e with
  | ENumber t => number_text t && is_ok (numericConstantType ParseFloat t)
  | EText _ | ENull | EBool _ => true
  | EColumn n => negb (bool_decide (n = ""))
  | ECast e t => written e && ident_text t
  | ECall f args => function_name f (length args) && forallb written args
  | EUnary _ e | ENot e | EIsNull _ e => written e
  | EBinary _ a b | ECompare _ a b => written a && written b
  end.
End grammar.

(** ** What may follow an expression *)

Definition none {A} (o : option A) : bool := match o with None => true | Some _ => false end.

Section follow.
Context `{Unicode}.

(** A token that is neither taken nor refused after an expression of level [k]. *)
Definition stop (k : nat) (t : sqlToken) : bool :=
  negb (is_op "::" t || is_op "[" t || is_op "." t || is_op "(" t || is_op ":=" t || is_op "=>" t ||
        is_word "filter" t || is_word "over" t) &&
  ((7 <? k) || none (multiplicative_op t))%nat && ((6 <? k) || none (additive_op t))%nat &&
  ((5 <? k) || none (concat_op t) &&
     match t with tokOp o => negb (bool_decide (o ∈ unsupportedOps)) | _ => true end)%nat &&
  ((4 <? k) || match t with
               | tokOp o => none (sqlComparisons o)
               | tokIdent text => negb (bool_decide (ToLower text ∈ unsupportedWords \/ ToLower text = "not"))
               | _ => true end)%nat &&
  ((3 <? k) || negb (is_word "isnull" t || is_word "notnull" t || is_word "is" t))%nat &&
  ((1 <? k) || none (and_op t))%nat && ((0 <? k) || none (or_op t))%nat.

Lemma stop_mono k k' t : k <= k' -> stop k t = true -> stop k' t = true.
Proof.
  intros Hk. unfold stop. rewrite !andb_true_iff.
  assert (forall n b, ((n <? k) || b = true -> (n <? k') || b = true)%nat) as Hn.
  { intros n b. destruct b; [by rewrite !orb_true_r|]. rewrite !orb_false_r, !Nat.ltb_lt. lia. }
  intuition.
Qed.

Ltac stop_const := unfold stop; cbv beta iota delta [binary_token comparison_text binary_text]; repeat (rewrite ToLower_ascii by reflexivity); vm_compute; reflexivity.

Lemma stop_close : stop 0 (tokOp ")") = true.
Proof. stop_const. Qed.
Lemma stop_comma : stop 0 (tokOp ",") = true.
Proof. stop_const. Qed.
Lemma stop_as : stop 0 (tokIdent "as") = true.
Proof. stop_const. Qed.
Lemma stop_eof : stop 0 tokEOF = true.
Proof. stop_const. Qed.
Lemma stop_is : stop 4 (tokIdent "is") = true.
Proof. stop_const. Qed.
Lemma stop_binary o : stop (S (binary_level o)) (binary_token o) = true.
Proof. destruct o; stop_const. Qed.
Lemma stop_compare c : stop 5 (tokOp (comparison_text c)) = true.
Proof. destruct c; stop_const. Qed.

Lemma stop_parts k t : stop k t = true ->
  is_op "::" t = false /\ is_op "[" t = false /\ is_op "." t = false /\ is_op "(" t = false /\
  is_word "filter" t = false /\ is_word "over" t = false /\ is_op ":=" t = false /\ is_op "=>" t = false.
Proof. unfold stop. intros E. bool_hyps. done. Qed.
Lemma stop_infix k t : stop k t = true ->
  (k <= 7 -> multiplicative_op t = None) /\ (k <= 6 -> additive_op t = None) /\ (k <= 5 -> concat_op t = None) /\
  (k <= 1 -> and_op t = None) /\ (k <= 0 -> or_op t = None).
Proof.
  unfold stop. intros E. bool_hyps.
  assert (forall n (b : bool), (n <? k)%nat || b = true -> k <= n -> b = true) as Hn.
  { intros n b Hb Hk. destruct (n <? k)%nat eqn:En; [bool_hyps; lia|done]. }
  assert (forall {A} (o : option A), none o = true -> o = None) as Ho by (by intros ? []).
  repeat split; intros Hk; apply Ho; try (eapply Hn; [|exact Hk]; done).
  eapply Hn in Hk; [|eassumption]. by bool_hyps.
Qed.
End follow.

(** ** Running the parser *)

Abbreviation st l c := {| toks := l; nodes := c |}.

Lemma bind_ok {A B} (m : Parse A) (k : A -> Parse B) p a p' : m p = Ok (a, p') -> (m ≫= k) p = k a p'.
Proof. intros E. unfold mbind, Parse_bind. by rewrite E. Qed.
Lemma peek_bind {B} (k : sqlToken -> Parse B) l c : (peek ≫= k) (st l c) = k (peek_of l) (st l c).
Proof. done. Qed.
Lemma next_bind {B} (k : sqlToken -> Parse B) t l c : t <> tokEOF -> (next ≫= k) (st (t :: l) c) = k t (st l c).
Proof. by destruct t. Qed.
Lemma isOp_bind {B} (k : bool -> Parse B) op l c : (isOp op ≫= k) (st l c) = k (is_op op (peek_of l)) (st l c).
Proof. done. Qed.
Lemma isWord_bind {B} (k : bool -> Parse B) w l c : (isWord w ≫= k) (st l c) = k (is_word w (peek_of l)) (st l c).
Proof. done. Qed.
Lemma rest_bind {B} (k : list sqlToken -> Parse B) l c : (rest_of ≫= k) (st l c) = k l (st l c).
Proof. done. Qed.
Lemma node_run k n c a l i : (i + 1 <= 4096)%Z -> node k n c a (st l i) = Ok (Node k n c a, st l (i + 1)).
Proof. intros Hi. unfold node. cbn [nodes toks]. destruct (_ <? _)%Z eqn:E; [bool_hyps; lia|done]. Qed.
Lemma expectOp_bind {B} (k : () -> Parse B) op l c : (expectOp op ≫= k) (st (tokOp op :: l) c) = k () (st l c).
Proof.
  rewrite (bind_ok _ _ _ () (st l c)); [done|]. unfold expectOp. rewrite isOp_bind. cbn [peek_of]. unfold is_op.
  by rewrite bool_decide_true.
Qed.

Section infix.
Context `{Unicode} (F : nat) (ops : sqlToken -> option (node_kind * string)) (operand : Parse sqlNode).
Context (Ho : forall t o, ops t = Some o -> t <> tokEOF) (Hg : good F operand).

(** The fuel of a loop does not matter when there is enough. *)
Lemma infix_fuel n1 n2 left p : left_of p <= n1 -> left_of p <= n2 -> n1 <= F -> n2 <= F ->
  infix n1 ops operand left p = infix n2 ops operand left p.
Proof using Ho Hg.
  revert n2 left p. induction n1 as [|n1 IH]; intros n2 left [l c] H1 H2 H3 H4.
  - destruct n2 as [|n2]; [done|]. cbn [infix]. rewrite !peek_bind. unfold left_of in H1. destruct l; [|cbn in H1; lia].
    cbn [peek_of]. destruct (ops tokEOF) as [[]|] eqn:E; [by apply Ho in E|done].
  - destruct n2 as [|n2].
    + cbn [infix]. rewrite !peek_bind. unfold left_of in H2. destruct l; [|cbn in H2; lia].
      cbn [peek_of]. destruct (ops tokEOF) as [[]|] eqn:E; [by apply Ho in E|done].
    + cbn [infix]. rewrite !peek_bind. destruct (ops (peek_of l)) as [[k o]|] eqn:E; [|done]. apply Ho in E.
      destruct l as [|t l]; [done|]. cbn [peek_of] in E. rewrite !next_bind by done. unfold left_of in *. cbn [toks length] in *.
      pose proof (Hg (st l c)) as Hgo. unfold left_of in Hgo. cbn [toks] in Hgo. specialize (Hgo ltac:(lia)).
      unfold mbind at 1 3, Parse_bind at 1 3. destruct (operand (st l c)) as [[r p']|]; [|done].
      unfold mbind, Parse_bind, node. destruct (_ <? _)%Z; [done|]. apply IH; cbn; lia.
Qed.

Lemma infix_step left t l c k o right l' c' : ops t = Some (k, o) -> length (t :: l) <= F ->
  operand (st l c) = Ok (right, st l' c') -> (c' + 1 <= 4096)%Z ->
  infix F ops operand left (st (t :: l) c) = infix F ops operand (Node k o "" [left; right]) (st l' (c' + 1)).
Proof using Ho Hg.
  intros Et Hl Er Hc. pose proof (Hg (st l c)) as Hgo. rewrite Er in Hgo. unfold left_of in Hgo. cbn [toks length] in *.
  specialize (Hgo ltac:(lia)).
  rewrite (infix_fuel F (S (length l)) left) by (unfold left_of; cbn [toks length]; lia). cbn [infix]. rewrite peek_bind. cbn [peek_of].
  rewrite Et, next_bind by (by eapply Ho). rewrite (bind_ok _ _ _ _ _ Er), (bind_ok _ _ _ _ _ (node_run _ _ _ _ _ _ Hc)).
  apply infix_fuel; unfold left_of; cbn [toks]; lia.
Qed.

Lemma infix_stop left l c : ops (peek_of l) = None -> infix F ops operand left (st l c) = Ok (left, st l c).
Proof.
  intros E. assert (forall n, infix n ops operand left (st l c) = Ok (left, st l c)) as Hn; [|apply Hn].
  intros []; cbn [infix]; by rewrite peek_bind, E.
Qed.
End infix.

Section reads.
Context `{Unicode} (ParseFloat : string -> bool) (F : nat).

Abbreviation node_of := (node_of ParseFloat).
Abbreviation size := (size ParseFloat).
Abbreviation written := (written ParseFloat).

(** The function of a level, with [d] levels of nesting left. *)
Definition parser (k d : nat) : Parse sqlNode :=
  let deeper := nest ParseFloat F d in
  match k with
  | 0 => parseOr ParseFloat F deeper | 1 => parseAnd ParseFloat F deeper | 2 => parseNot ParseFloat F deeper
  | 3 => parseIs ParseFloat F deeper | 4 => parseCompare ParseFloat F deeper | 5 => parseOther ParseFloat F deeper
  | 6 => parseAdditive ParseFloat F deeper | 7 => parseMultiplicative ParseFloat F deeper
  | 8 => parseUnary ParseFloat F deeper | 9 => parsePostfix ParseFloat F deeper | _ => parsePrimary ParseFloat F deeper
  end.

(** [reads k e]: within the limits the function of level [k] reads [e], printed
    for that level, and stops before a token that may follow. *)
Definition reads (k : nat) (e : expr) : Prop := forall d c rest,
  need k e <= d -> (c + size e <= 4096)%Z -> length (print k e ++ rest) <= F ->
  stop k (peek_of rest) = true ->
  parser k d (st (print k e ++ rest) c) = Ok (node_of e, st rest (c + size e)).

(** A level of left-associative operators, and its operands. *)
Definition level_ops (k : nat) : sqlToken -> option (node_kind * string) :=
  match k with 0 => or_op | 1 => and_op | 5 => concat_op | 6 => additive_op | _ => multiplicative_op end.
Definition level_parser (k d : nat) : Parse sqlNode := level F (level_ops k) (parser (S k) d).
(** After [e], the loop of its level goes on with what follows. *)
Definition resumes (k : nat) (e : expr) : Prop := forall d c rest,
  need k e <= d -> (c + size e <= 4096)%Z -> length (print k e ++ rest) <= F ->
  stop (S k) (peek_of rest) = true ->
  level_parser k d (st (print k e ++ rest) c) = infix F (level_ops k) (parser (S k) d) (node_of e) (st rest (c + size e)).

Lemma size_positive e : (0 < size e)%Z.
Proof.
  induction e using expr_nested_ind; cbn [SqlGrammar.size]; try lia.
  - induction H0 as [|e l He Hl IH]; cbn [foldr]; lia.
  - destruct (_ && _); lia.
Qed.

Lemma print_same k e : level_of e <> k -> print k e = print (S k) e /\ need k e = need (S k) e.
Proof.
  intros Hk. unfold print, need. assert ((level_of e <? k) = (level_of e <? S k))%nat as ->; [|done].
  destruct (level_of e <? k)%nat eqn:E1, (level_of e <? S k)%nat eqn:E2; bool_hyps; (lia || done).
Qed.

Definition loop_level (k : nat) : Prop := k = 0 \/ k = 1 \/ k = 5 \/ k = 6 \/ k = 7.

Lemma level_ops_not_eof k t o : level_ops k t = Some o -> t <> tokEOF.
Proof.
  intros E. unfold level_ops in E. repeat case_match; eauto using or_op_not_eof, and_op_not_eof, op_in_not_eof.
Qed.

Lemma good_parser k d : good F (parser k d).
Proof.
  pose proof (nest_good ParseFloat F d) as Hn. unfold parser.
  assert (forall ops m, (forall t o, ops t = Some o -> t <> tokEOF) -> good F m -> good F (level F ops m)) as Hl
    by (intros; by apply (good_level F)).
  destruct k as [|[|[|[|[|[|[|[|[|[|k]]]]]]]]]].
  - by apply good_or.
  - apply Hl; [apply and_op_not_eof|by apply good_not].
  - by apply good_not.
  - by apply good_is.
  - by apply good_compare.
  - by apply good_other.
  - repeat apply Hl; try apply op_in_not_eof. by apply good_unary.
  - apply Hl; [apply op_in_not_eof|by apply good_unary].
  - by apply good_unary.
  - by apply good_postfix.
  - by apply good_primary.
Qed.

Lemma stop_level k t : loop_level k -> stop k t = true -> level_ops k t = None.
Proof.
  intros Hk Hs. destruct (stop_infix _ _ Hs) as (H7 & H6 & H5 & H1 & H0).
  destruct Hk as [-> | [-> | [-> | [-> | ->]]]]; cbn; [apply H0|apply H1|apply H5|apply H6|apply H7]; lia.
Qed.

(** An expression of a tighter level resumes at every loop. *)
Lemma resumes_below k e : loop_level k -> level_of e <> k -> reads (S k) e -> resumes k e.
Proof.
  intros Hk Hl Hr d c rest Hn Hc HF Hs. destruct (print_same k e Hl) as [Ep En]. rewrite Ep in *. rewrite En in Hn.
  unfold level_parser, level. by rewrite (bind_ok _ _ _ _ _ (Hr d c rest Hn Hc HF Hs)).
Qed.

(** What resumes is read. *)
Lemma reads_loop k e : loop_level k -> resumes k e -> reads k e.
Proof.
  intros Hk Hr d c rest Hn Hc HF Hs.
  assert (level_parser k d (st (print k e ++ rest) c) = Ok (node_of e, st rest (c + size e))) as E.
  { rewrite Hr by (done || (apply (stop_mono k); [lia|done])). apply infix_stop. by apply stop_level. }
  destruct Hk as [-> | [-> | [-> | [-> | ->]]]]; try exact E.
  unfold parser, parseOther. change (level F concat_op (parseAdditive ParseFloat F (nest ParseFloat F d))) with (level_parser 5 d).
  rewrite (bind_ok _ _ _ _ _ E), peek_bind. unfold stop in Hs. bool_hyps.
  destruct (peek_of rest); try done. cbn [Nat.ltb Nat.leb orb] in *. bool_hyps. by rewrite bool_decide_false.
Qed.

(** An operator resumes when its operands do. *)
Lemma resumes_binary o a b : loop_level (binary_level o) -> resumes (binary_level o) a -> reads (S (binary_level o)) b ->
  resumes (binary_level o) (EBinary o a b).
Proof.
  intros Hk Ha Hb d c rest Hn Hc HF Hs. cbn [SqlGrammar.size] in *. pose proof (size_positive b).
  unfold print, need in HF, Hn |- *. cbn [level_of] in HF, Hn |- *. rewrite Nat.ltb_irrefl in HF, Hn |- *.
  cbn [body need_body] in HF, Hn |- *. fold (print (binary_level o) a) in HF |- *. fold (print (S (binary_level o)) b) in HF |- *.
  fold (need (binary_level o) a) in Hn. fold (need (S (binary_level o)) b) in Hn. cbn [Nat.add] in Hn.
  rewrite <- app_assoc in HF |- *. cbn [app] in HF |- *.
  rewrite Ha; [|lia|lia|done|apply stop_binary].
  rewrite !length_app in HF. cbn [length] in HF. rewrite length_app in HF.
  rewrite (infix_step F _ _ (level_ops_not_eof _) (good_parser _ _) _ _ _ _ (binary_kind o) (binary_text o) (node_of b) rest (c + size a + size b)).
  - f_equal. f_equal. lia.
  - by destruct o.
  - cbn [length]. rewrite length_app. lia.
  - apply Hb; [lia|lia|rewrite length_app; lia|done].
  - lia.
Qed.

(** *** How a printed expression starts *)

Definition good_head (k : nat) (t : sqlToken) : Prop :=
  match t with
  | tokEOF => False
  | tokOp o => o = "(" \/ k <= 8 /\ (o = "-" \/ o = "+")
  | tokIdent _ => is_word "distinct" t = false /\ is_word "all" t = false /\ (3 <= k -> is_word "not" t = false)
  | _ => True
  end.

Lemma good_head_le k l t : k <= l -> good_head l t -> good_head k t.
Proof.
  intros Hk. destruct t as [|s| | | |o]; try done; unfold good_head.
  - intros (H1 & H2 & H3). repeat (split; [done|]). intros H4. apply H3. lia.
  - intros [->|[H1 H2]]; [by left|right]. split; [lia|done].
Qed.

Lemma print_head e : written e = true -> forall k, exists t l, print k e = t :: l /\ good_head k t.
Proof.
  induction e using expr_nested_ind; intros Hw k; cbn [SqlGrammar.written] in Hw; unfold print; cbn [level_of];
    (match goal with |- context [if ?c then _ else _] => destruct c eqn:Ek end;
      [by eexists _, _; split; [reflexivity|left]|]); bool_hyps; cbn [body];
    try (by eexists _, _; split; [reflexivity|]; repeat (split; try done); intros; lia).
  - eexists _, _. split; [reflexivity|]. by destruct b.
  - unfold function_name in *. bool_hyps. eexists _, _. split; [reflexivity|]. cbn. auto.
  - eexists _, _. split; [reflexivity|]. right. split; [lia|]. destruct m; auto.
  - destruct (IHe1 ltac:(done) (binary_level o)) as (t & l & E & Ht). unfold print in E.
    rewrite E. eexists _, _. split; [reflexivity|]. by apply (good_head_le k (binary_level o)).
  - destruct (IHe1 ltac:(done) 5) as (t & l & E & Ht). unfold print in E. rewrite E.
    eexists _, _. split; [reflexivity|]. apply (good_head_le k 5); [lia|done].
  - destruct (IHe ltac:(done) 4) as (t & l & E & Ht). unfold print in E. rewrite E.
    eexists _, _. split; [reflexivity|]. apply (good_head_le k 4); [lia|done].
Qed.

(** An argument is not taken for a named one. *)
Lemma print_not_named e : written e = true -> forall k rest,
  is_op ":=" (peek_of rest) = false -> is_op "=>" (peek_of rest) = false -> named_argument (print k e ++ rest) = false.
Proof.
  induction e using expr_nested_ind; intros Hw k rest H1 H2; cbn [SqlGrammar.written] in Hw; unfold print; cbn [level_of];
    (match goal with |- context [if ?c then _ else _] => destruct c eqn:Ek end; [done|]); bool_hyps; cbn [body];
    try done; try (destruct rest as [|t rest]; [done|]; cbn [app named_argument]; cbn [peek_of] in *; by rewrite H1, H2).
  - change (named_argument ((print (binary_level o) e1 ++ binary_token o :: print (S (binary_level o)) e2) ++ rest) = false).
    rewrite <- app_assoc. apply IHe1; [done|by destruct o..].
  - change (named_argument ((print 5 e1 ++ tokOp (comparison_text c) :: print 5 e2) ++ rest) = false).
    rewrite <- app_assoc. apply IHe1; [done|by destruct c..].
  - change (named_argument ((tokIdent "not" :: print 2 e) ++ rest) = false).
    destruct (print_head e ltac:(done) 2) as (t & l & -> & Ht). cbn [app named_argument].
    destruct t as [| | | | |op]; try done. destruct Ht as [-> |[_ [-> | ->]]]; done.
  - change (named_argument ((print 4 e ++ tokIdent "is" :: (if n then [tokIdent "not"] else []) ++ [tokIdent "null"]) ++ rest) = false).
    rewrite <- app_assoc. by apply IHe.
Qed.

(** *** The other levels *)

Lemma reads_not_below e : written e = true -> level_of e <> 2 -> reads 3 e -> reads 2 e.
Proof.
  intros Hw Hl Hr d c rest Hn Hc HF Hs. destruct (print_same 2 e Hl) as [Ep En]. rewrite Ep in *. rewrite En in Hn.
  unfold parser, parseNot. rewrite isWord_bind.
  destruct (print_head e Hw 3) as (t & l & E & Ht). replace (peek_of (print 3 e ++ rest)) with t by (by rewrite E).
  assert (is_word "not" t = false) as -> by (destruct t; try done; apply Ht; lia).
  apply Hr; try done. all: by apply (stop_mono 2); [lia|].
Qed.

Lemma reads_is_below e : level_of e <> 3 -> reads 4 e -> reads 3 e.
Proof.
  intros Hl Hr d c rest Hn Hc HF Hs. destruct (print_same 3 e Hl) as [Ep En]. rewrite Ep in *. rewrite En in Hn.
  assert (stop 4 (peek_of rest) = true) as Hs4 by (apply (stop_mono 3); [lia|done]).
  pose proof (Hr d c rest Hn Hc HF Hs4) as E. unfold parser in *. unfold parseIs. rewrite (bind_ok _ _ _ _ _ E), peek_bind.
  unfold stop in Hs. bool_hyps. cbn [Nat.ltb Nat.leb orb] in *. bool_hyps.
  repeat match goal with H : is_word _ _ = false |- _ => rewrite H; clear H end. done.
Qed.

Lemma reads_compare_below e : level_of e <> 4 -> reads 5 e -> reads 4 e.
Proof.
  intros Hl Hr d c rest Hn Hc HF Hs. destruct (print_same 4 e Hl) as [Ep En]. rewrite Ep in *. rewrite En in Hn.
  assert (stop 5 (peek_of rest) = true) as Hs5 by (apply (stop_mono 4); [lia|done]).
  pose proof (Hr d c rest Hn Hc HF Hs5) as E. unfold parser in *. unfold parseCompare. rewrite (bind_ok _ _ _ _ _ E), peek_bind.
  unfold stop in Hs. bool_hyps. cbn [Nat.ltb Nat.leb orb] in *. cbv zeta.
  destruct (peek_of rest) as [|text| | | |o]; try done.
  - bool_hyps. match goal with H : ~ (_ \/ _) |- _ => apply not_or_and in H as [] || idtac end.
    rewrite !bool_decide_false by tauto. done.
  - by destruct (sqlComparisons o).
Qed.

Lemma reads_unary_below e : written e = true -> level_of e <> 8 -> reads 9 e -> reads 8 e.
Proof.
  intros Hw Hl Hr d c rest Hn Hc HF Hs. destruct (print_same 8 e Hl) as [Ep En]. rewrite Ep in *. rewrite En in Hn.
  assert (stop 9 (peek_of rest) = true) as Hs9 by (apply (stop_mono 8); [lia|done]).
  pose proof (Hr d c rest Hn Hc HF Hs9) as E. unfold parser in *. unfold parseUnary. rewrite peek_bind.
  destruct (print_head e Hw 9) as (t & l & El & Ht). rewrite El in *. cbn [app peek_of] in *.
  destruct t; try exact E. destruct Ht as [-> |[Hk _]]; [|lia]. exact E.
Qed.

Lemma reads_postfix_below e : level_of e <> 9 -> reads 10 e -> reads 9 e.
Proof.
  intros Hl Hr d c rest Hn Hc HF Hs. destruct (print_same 9 e Hl) as [Ep En]. rewrite Ep in *. rewrite En in Hn.
  assert (stop 10 (peek_of rest) = true) as Hs10 by (apply (stop_mono 9); [lia|done]).
  pose proof (Hr d c rest Hn Hc HF Hs10) as E. unfold parser in *. unfold parsePostfix. rewrite (bind_ok _ _ _ _ _ E).
  destruct (stop_parts _ _ Hs) as (H1 & H2 & H3 & _).
  assert (forall n, casts n (node_of e) (st rest (c + size e)) = Ok (node_of e, st rest (c + size e))) as Hcs.
  { intros []; cbn [casts]; by rewrite peek_bind, H1. }
  by rewrite (bind_ok _ _ _ _ _ (Hcs F)), peek_bind, H2, H3.
Qed.

Lemma reads_parens e : level_of e < 10 -> reads 0 e -> reads 10 e.
Proof.
  intros Hl Hr d c rest Hn Hc HF Hs.
  assert (print 10 e = parens (print 0 e) /\ need 10 e = S (need 0 e)) as [Ep En].
  { unfold print, need. by rewrite (proj2 (Nat.ltb_lt (level_of e) 10) Hl). }
  rewrite Ep in *. rewrite En in Hn. destruct d as [|d]; [lia|]. unfold parens in *. cbn [app] in *. rewrite <- app_assoc in *.
  cbn [app length] in *. unfold parser, parsePrimary. rewrite next_bind by done. rewrite bool_decide_true by done.
  pose proof (Hr d c (tokOp ")" :: rest) ltac:(lia) Hc ltac:(lia) stop_close) as E. unfold parser in E.
  cbn [nest Or]. rewrite (bind_ok _ _ _ _ _ E), isOp_bind. cbn [peek_of].
  reflexivity.
Qed.

(** *** Each form at its level *)

Lemma reads_not e : reads 2 e -> reads 2 (ENot e).
Proof.
  intros Hr d c rest Hn Hc HF Hs. cbn [SqlGrammar.size] in Hc |- *.
  change (need 2 (ENot e)) with (S (need 2 e)) in Hn. change (print 2 (ENot e)) with (tokIdent "not" :: print 2 e) in *.
  destruct d as [|d]; [lia|]. cbn [app length] in *. unfold parser, parseNot. rewrite isWord_bind.
  change (is_word "not" (peek_of (tokIdent "not" :: print 2 e ++ rest))) with true. cbv iota.
  rewrite next_bind by done. cbn [nest Not].
  pose proof (Hr d c rest ltac:(lia) ltac:(lia) ltac:(lia) Hs) as E. unfold parser in E. rewrite (bind_ok _ _ _ _ _ E).
  rewrite node_run by lia. f_equal. f_equal. f_equal. lia.
Qed.

Lemma reads_is n e : reads 4 e -> reads 3 (EIsNull n e).
Proof.
  intros Hr d c rest Hn Hc HF Hs. cbn [SqlGrammar.size] in Hc |- *. change (need 3 (EIsNull n e)) with (need 4 e) in Hn.
  change (print 3 (EIsNull n e)) with (print 4 e ++ tokIdent "is" :: (if n then [tokIdent "not"] else []) ++ [tokIdent "null"]) in *.
  rewrite <- app_assoc in *. unfold parser, parseIs.
  pose proof (Hr d c (tokIdent "is" :: ((if n then [tokIdent "not"] else []) ++ [tokIdent "null"]) ++ rest)
    ltac:(lia) ltac:(lia) ltac:(exact HF) stop_is) as E. unfold parser in E. rewrite (bind_ok _ _ _ _ _ E), peek_bind. cbn [peek_of].
  change (is_word "isnull" (tokIdent "is")) with false. change (is_word "notnull" (tokIdent "is")) with false.
  change (is_word "is" (tokIdent "is")) with true. cbv iota. rewrite next_bind by done. rewrite isWord_bind.
  assert (forall o l, (node KIsNull o "" [node_of e]) (st l (c + size e)) =
    Ok (Node KIsNull o "" [node_of e], st l (c + (size e + 1)))) as Hnode.
  { intros o l. rewrite node_run by lia. by rewrite Z.add_assoc. }
  destruct n; cbn [app]; apply Hnode.
Qed.

Lemma reads_compare o a b : reads 5 a -> reads 5 b -> reads 4 (ECompare o a b).
Proof.
  intros Ha Hb d c rest Hn Hc HF Hs. cbn [SqlGrammar.size] in Hc |- *. pose proof (size_positive b).
  change (need 4 (ECompare o a b)) with (Nat.max (need 5 a) (need 5 b)) in Hn.
  change (print 4 (ECompare o a b)) with (print 5 a ++ tokOp (comparison_text o) :: print 5 b) in *.
  rewrite <- app_assoc in *. cbn [app] in *. unfold parser, parseCompare.
  pose proof (Ha d c (tokOp (comparison_text o) :: print 5 b ++ rest) ltac:(lia) ltac:(lia) HF (stop_compare o)) as E.
  unfold parser in E. rewrite (bind_ok _ _ _ _ _ E), peek_bind. cbn [peek_of]. cbv zeta.
  assert (sqlComparisons (comparison_text o) = Some (comparison_text o)) as -> by (by destruct o).
  rewrite next_bind by done. rewrite length_app in HF. cbn [length] in HF.
  assert (stop 5 (peek_of rest) = true) as Hs5 by (apply (stop_mono 4); [lia|done]).
  pose proof (Hb d (c + size a)%Z rest ltac:(lia) ltac:(lia) ltac:(lia) Hs5) as E2. unfold parser in E2.
  rewrite (bind_ok _ _ _ _ _ E2), peek_bind.
  assert (node KCompare (comparison_text o) "" [node_of a; node_of b] (st rest (c + size a + size b)) =
    Ok (node_of (ECompare o a b), st rest (c + (size a + size b + 1)))) as Hnode.
  { rewrite node_run by lia. cbn. do 3 f_equal. lia. }
  unfold stop in Hs. bool_hyps. cbn [Nat.ltb Nat.leb orb] in *. destruct (peek_of rest) as [| | | | |op]; try exact Hnode.
  destruct (sqlComparisons op); [done|]. rewrite bool_decide_false by (intros []; done). exact Hnode.
Qed.

Lemma reads_unary m e : reads 8 e -> reads 8 (EUnary m e).
Proof.
  intros Hr d c rest Hn Hc HF Hs. change (need 8 (EUnary m e)) with (S (need 8 e)) in Hn.
  change (print 8 (EUnary m e)) with (tokOp (sign m) :: print 8 e) in *. destruct d as [|d]; [lia|]. cbn [app length] in *.
  unfold parser, parseUnary. rewrite peek_bind. cbn [peek_of]. rewrite bool_decide_true by (destruct m; auto).
  rewrite next_bind by done. cbn [nest Unary]. cbn [SqlGrammar.size SqlGrammar.node_of] in *.
  assert (c + size e <= 4096)%Z as Hc' by (destruct (m && folds (node_of e)); lia).
  pose proof (Hr d c rest ltac:(lia) Hc' ltac:(lia) Hs) as E. unfold parser in E. rewrite (bind_ok _ _ _ _ _ E).
  assert (bool_decide (sign m = "-") = m) as -> by (by destruct m). unfold folds in *. rewrite <- andb_assoc.
  destruct (m && _); [done|]. rewrite node_run by lia. by rewrite Z.add_assoc.
Qed.

(** The atoms. *)
Lemma reads_number t : written (ENumber t) = true -> reads 10 (ENumber t).
Proof.
  intros Hw d c rest Hn Hc HF Hs. cbn [SqlGrammar.written] in Hw. bool_hyps. cbn [SqlGrammar.size] in *.
  change (print 10 (ENumber t)) with [tokNumber t] in *. cbn [app] in *. unfold parser, parsePrimary.
  rewrite next_bind by done. cbn [SqlGrammar.node_of]. unfold number_kind.
  destruct (numericConstantType ParseFloat t) as [k|] eqn:E; [|done].
  rewrite (bind_ok _ _ _ k (st rest c)) by done. by rewrite node_run.
Qed.

Lemma reads_column n : reads 10 (EColumn n).
Proof.
  intros d c rest Hn Hc HF Hs. cbn [SqlGrammar.size] in *. change (print 10 (EColumn n)) with [tokQuotedIdent n] in *.
  cbn [app] in *. unfold parser, parsePrimary. rewrite next_bind by done. rewrite peek_bind.
  destruct (stop_parts _ _ Hs) as (_ & _ & -> & -> & _). by rewrite node_run.
Qed.

Lemma identifier_word text : is_ascii text = true -> ToLower text = ascii_lower text.
Proof. apply ToLower_ascii. Qed.

Lemma reads_text t : reads 10 (EText t).
Proof.
  intros d c rest Hn Hc HF Hs. cbn [SqlGrammar.size] in *. change (print 10 (EText t)) with [tokString t] in *.
  unfold parser, parsePrimary. cbn [app]. rewrite next_bind by done. by rewrite node_run.
Qed.

Lemma reads_null : reads 10 ENull.
Proof.
  intros d c rest Hn Hc HF Hs. cbn [SqlGrammar.size] in *. change (print 10 ENull) with [tokIdent "null"] in *.
  unfold parser, parsePrimary. cbn [app]. rewrite next_bind by done. unfold identifier.
  rewrite ToLower_ascii by reflexivity. change (ascii_lower "null") with "null". cbv zeta.
  rewrite bool_decide_true by done. by rewrite node_run.
Qed.

Lemma reads_bool b : reads 10 (EBool b).
Proof.
  intros d c rest Hn Hc HF Hs. cbn [SqlGrammar.size] in *.
  change (print 10 (EBool b)) with [tokIdent (if b then "true" else "false")] in *.
  unfold parser, parsePrimary. cbn [app]. rewrite next_bind by done. unfold identifier. cbv zeta.
  assert (ToLower (if b then "true" else "false") = (if b then "true" else "false")) as -> by (destruct b; by rewrite ToLower_ascii).
  rewrite bool_decide_false by (by destruct b). rewrite bool_decide_true by (destruct b; auto). by rewrite node_run.
Qed.

Lemma reads_type t l c : ident_text t = true -> parseTypeName (st (tokIdent t :: tokOp ")" :: l) c) =
  Ok (typeName (ToLower t), st (tokOp ")" :: l) c).
Proof. intros Ht. unfold parseTypeName. by rewrite next_bind. Qed.

Lemma reads_cast e t : ident_text t = true -> reads 0 e -> reads 10 (ECast e t).
Proof.
  intros Ht Hr d c rest Hn Hc HF Hs. cbn [SqlGrammar.size] in *. change (need 10 (ECast e t)) with (S (need 0 e)) in Hn.
  change (print 10 (ECast e t)) with (tokIdent "cast" :: tokOp "(" :: print 0 e ++ [tokIdent "as"; tokIdent t; tokOp ")"]) in *.
  destruct d as [|d]; [lia|]. cbn [app length] in *. rewrite <- app_assoc in *. cbn [app] in *.
  unfold parser, parsePrimary. rewrite next_bind by done. unfold identifier. rewrite ToLower_ascii by reflexivity.
  change (ascii_lower "cast") with "cast". cbv zeta. rewrite (bool_decide_false ("cast" = "null")) by done.
  rewrite (bool_decide_false ("cast" = "true" \/ "cast" = "false")) by (intros [|]; done). rewrite bool_decide_true by done.
  unfold cast. rewrite expectOp_bind. cbn [nest Or].
  pose proof (Hr d c (tokIdent "as" :: tokIdent t :: tokOp ")" :: rest) ltac:(lia) ltac:(lia) ltac:(lia) stop_as) as E.
  unfold parser in E. rewrite (bind_ok _ _ _ _ _ E), isWord_bind. change (is_word "as" (peek_of (tokIdent "as" :: tokIdent t :: tokOp ")" :: rest))) with true.
  cbn [negb]. rewrite next_bind by done. rewrite (bind_ok _ _ _ _ _ (reads_type t rest (c + size e) Ht)).
  rewrite expectOp_bind, node_run by lia. by rewrite Z.add_assoc.
Qed.

Fixpoint total_size (l : list expr) : Z := match l with [] => 0 | e :: l => size e + total_size l end%Z.

(** The arguments of a call, before its closing parenthesis. *)
Lemma reads_arguments d es : Forall (reads 0) es -> forall n acc e c rest, reads 0 e ->
  forallb written (e :: es) = true -> Forall (fun x => need 0 x <= d) (e :: es) ->
  (c + total_size (e :: es) <= 4096)%Z -> length (commas (map (print 0) (e :: es)) ++ tokOp ")" :: rest) <= F -> length es <= n ->
  arguments (nest ParseFloat F (S d)) n acc (st (commas (map (print 0) (e :: es)) ++ tokOp ")" :: rest) c) =
    Ok (acc ++ map node_of (e :: es), st (tokOp ")" :: rest) (c + total_size (e :: es))).
Proof.
  induction 1 as [|e' es He' Hes IH]; intros n acc e c rest Hr Hw Hd Hc HF Hn.
  - cbn [map commas total_size forallb] in *. bool_hyps. inversion_clear Hd.
    assert (forall n, arguments (nest ParseFloat F (S d)) n acc (st (print 0 e ++ tokOp ")" :: rest) c) =
      Ok (acc ++ [node_of e], st (tokOp ")" :: rest) (c + (size e + 0)))) as Hgo; [|apply Hgo].
    intros []; cbn [arguments]; rewrite rest_bind, (print_not_named e) by done; cbn [nest Or];
      pose proof (Hr d c (tokOp ")" :: rest) ltac:(lia) ltac:(lia) HF stop_close) as E; unfold parser in E;
      rewrite (bind_ok _ _ _ _ _ E), isWord_bind; cbn [peek_of is_word]; rewrite isOp_bind; by rewrite Z.add_0_r.
  - destruct n as [|n]; [cbn in Hn; lia|]. cbn [arguments]. rewrite rest_bind.
    change (commas (map (print 0) (e :: e' :: es))) with (print 0 e ++ tokOp "," :: commas (map (print 0) (e' :: es))) in *.
    rewrite <- app_assoc in *. cbn [app] in *. cbn [forallb total_size] in Hw, Hc |- *. bool_hyps. inversion_clear Hd as [|? ? Hd1 Hd2].
    pose proof (size_positive e') as Hp. assert (0 <= total_size es)%Z as Hts.
    { clear. induction es as [|x l IHl]; cbn; [lia|]. pose proof (size_positive x). lia. }
    rewrite (print_not_named e) by done. cbn [nest Or].
    pose proof (Hr d c (tokOp "," :: commas (map (print 0) (e' :: es)) ++ tokOp ")" :: rest) ltac:(lia) ltac:(lia) HF stop_comma) as E.
    unfold parser in E. rewrite (bind_ok _ _ _ _ _ E), isWord_bind. cbn [peek_of is_word]. rewrite isOp_bind. cbn [peek_of].
    change (is_op "," (tokOp ",")) with true. cbv iota. rewrite next_bind by done.
    rewrite length_app in HF. cbn [length] in HF, Hn.
    rewrite (IH n (acc ++ [node_of e]) e' (c + size e)%Z rest He'); [|cbn [forallb]; by apply andb_true_iff|done|cbn [total_size]; lia|lia|lia].
    cbn [total_size map]. rewrite <- app_assoc. do 3 f_equal. lia.
Qed.

Lemma need_arguments d args : foldr (fun e n => Nat.max (need 0 e) n) 0 args <= d -> Forall (fun x => need 0 x <= d) args.
Proof. induction args as [|e l IH]; cbn [foldr]; intros Hd; constructor; [lia|apply IH; lia]. Qed.
Lemma size_arguments args : foldr (fun e n => size e + n)%Z 0%Z args = total_size args.
Proof. induction args as [|e l IH]; cbn; congruence. Qed.

Lemma good_head_call t : good_head 0 t -> is_word "distinct" t || is_word "all" t || is_op "*" t = false /\ is_op ")" t = false.
Proof.
  destruct t as [|x| | | |o]; try done.
  - intros (-> & -> & _). done.
  - intros [-> |[_ [-> | ->]]]; done.
Qed.

(** A call's name and its arguments in parentheses. *)
Lemma reads_call_arguments f args d c rest : function_name f (length args) = true -> forallb written args = true ->
  Forall (reads 0) args -> Forall (fun x => need 0 x <= d) args -> (c + total_size args + 1 <= 4096)%Z ->
  length (commas (map (print 0) args) ++ tokOp ")" :: rest) <= F -> length args <= F -> stop 10 (peek_of rest) = true ->
  call F (nest ParseFloat F (S d)) (ToLower f) (st (commas (map (print 0) args) ++ tokOp ")" :: rest) c) =
    Ok (node_of (ECall f args), st rest (c + total_size args + 1)).
Proof.
  intros Hf Hw Hr Hd Hc HF Hlen Hs. unfold call. rewrite peek_bind.
  destruct (stop_parts _ _ Hs) as (_ & _ & _ & _ & Hfil & Hov & _).
  assert (is_word "distinct" (peek_of (commas (map (print 0) args) ++ tokOp ")" :: rest)) ||
    is_word "all" (peek_of (commas (map (print 0) args) ++ tokOp ")" :: rest)) ||
    is_op "*" (peek_of (commas (map (print 0) args) ++ tokOp ")" :: rest)) = false /\
    is_op ")" (peek_of (commas (map (print 0) args) ++ tokOp ")" :: rest)) = bool_decide (args = [])) as [-> Hclose].
  { destruct args as [|e es]; [done|]. cbn [forallb] in Hw. bool_hyps. destruct (print_head e ltac:(done) 0) as (t & l & E & Ht).
    assert (exists k, commas (map (print 0) (e :: es)) ++ tokOp ")" :: rest = t :: k) as [k ->].
    { cbn [map]. rewrite E. destruct es as [|e' es]; cbn; eauto. }
    cbn [peek_of]. destruct (good_head_call t Ht) as [-> ->]. done. }
  rewrite Hclose.
  assert (forall B (k : list sqlNode -> Parse B), ((if bool_decide (args = []) then mret [] else arguments (nest ParseFloat F (S d)) F []) ≫= k)
    (st (commas (map (print 0) args) ++ tokOp ")" :: rest) c) = k (map node_of args) (st (tokOp ")" :: rest) (c + total_size args))) as ->.
  { intros B k. destruct args as [|e es]; [cbn; by rewrite Z.add_0_r|]. rewrite bool_decide_false by done.
    inversion_clear Hr. apply bind_ok. apply (reads_arguments d es); try done. - lia. - cbn in Hlen. lia. }
  rewrite expectOp_bind, peek_bind, Hfil, Hov. cbn [orb SqlGrammar.node_of]. cbv zeta.
  destruct (bool_decide (ToLower f = "coalesce")) eqn:Ec.
  - unfold function_name in Hf. rewrite Ec in Hf. bool_hyps. destruct args as [|e es]; [done|]. cbn [map].
    rewrite node_run by lia. bool_hyps. by rewrite Ec.
  - by rewrite node_run by lia.
Qed.

Lemma commas_length l : length l <= S (length (commas l)) /\ (Forall (fun x => x <> []) l -> length l <= length (commas l)).
Proof.
  induction l as [|x [|y l] [IH1 IH2]]; [cbn; lia| |].
  - cbn. split; [lia|]. intros Hx. inversion_clear Hx. destruct x; [done|]. cbn. lia.
  - change (commas (x :: y :: l)) with (x ++ tokOp "," :: commas (y :: l)). rewrite length_app. cbn [length] in *. split; [lia|].
    intros Hx. inversion_clear Hx as [|? ? _ Hy]. specialize (IH2 Hy). lia.
Qed.

Lemma reads_call f args : function_name f (length args) = true -> forallb written args = true ->
  Forall (reads 0) args -> reads 10 (ECall f args).
Proof.
  intros Hf Hw Hr d c rest Hn Hc HF Hs. cbn [SqlGrammar.size] in *. rewrite size_arguments in *.
  change (need 10 (ECall f args)) with (S (foldr (fun e n => Nat.max (need 0 e) n) 0 args)) in Hn.
  change (print 10 (ECall f args)) with (tokIdent f :: tokOp "(" :: commas (map (print 0) args) ++ [tokOp ")"]) in *.
  destruct d as [|d]; [lia|]. cbn [app length] in *. rewrite <- app_assoc in *. cbn [app] in *.
  unfold parser, parsePrimary. rewrite next_bind by done. unfold identifier. cbv zeta.
  assert (ToLower f <> "null" /\ ~ (ToLower f = "true" \/ ToLower f = "false") /\ ToLower f <> "cast" /\ ToLower f <> "try_cast") as (H1 & H2 & H3 & H4).
  { unfold function_name in Hf. bool_hyps. set_solver. }
  rewrite !bool_decide_false by done. rewrite isOp_bind. change (is_op "(" (peek_of (tokOp "(" :: commas (map (print 0) args) ++ tokOp ")" :: rest))) with true.
  cbv iota. rewrite next_bind by done. rewrite Z.add_assoc. apply reads_call_arguments; try done.
  - apply need_arguments. lia.
  - lia.
  - lia.
  - destruct (commas_length (map (print 0) args)) as [Hl _]. rewrite length_map in Hl. rewrite length_app in HF. cbn [length] in HF. lia.
Qed.

(** *** Every level reads every expression *)

Lemma loop_levels o : loop_level (binary_level o).
Proof. unfold loop_level. destruct o; cbn; auto. Qed.

(** From a level, every level below that is not the expression's own. *)
Lemma reads_down e k : written e = true -> level_of e <> k -> reads (S k) e -> reads k e.
Proof.
  intros Hw Hl Hr. destruct (decide (loop_level k)) as [Hk|Hk].
  { apply reads_loop; [done|]. by apply resumes_below. }
  destruct k as [|[|[|[|[|[|[|[|[|[|k]]]]]]]]]]; try (exfalso; apply Hk; unfold loop_level; tauto).
  - by apply reads_not_below.
  - by apply reads_is_below.
  - by apply reads_compare_below.
  - by apply reads_unary_below.
  - by apply reads_postfix_below.
  - intros d c rest Hn Hc HF Hs.
    assert (print (S (S (S (S (S (S (S (S (S (S k)))))))))) e = print (S (S (S (S (S (S (S (S (S (S (S k))))))))))) e /\
      need (S (S (S (S (S (S (S (S (S (S k)))))))))) e = need (S (S (S (S (S (S (S (S (S (S (S k))))))))))) e) as [Ep En] by (by apply print_same).
    rewrite Ep in *. rewrite En in Hn. apply (Hr d c rest Hn Hc HF). by apply (stop_mono (S (S (S (S (S (S (S (S (S (S k))))))))))); [lia|].
Qed.

Lemma reads_down_to e k l : written e = true -> k <= l -> (forall j, k <= j < l -> level_of e <> j) -> reads l e -> reads k e.
Proof.
  intros Hw Hk. induction Hk as [|l Hk IH]; intros Hne Hr; [done|]. apply IH; [intros j Hj; apply Hne; lia|].
  apply reads_down; [done|apply Hne; lia|done].
Qed.

(** Read at its own level, an expression is read at every level. *)
Lemma reads_all e : written e = true -> reads (level_of e) e -> forall k, k <= 10 -> reads k e.
Proof.
  intros Hw Hr k Hk. destruct (decide (k <= level_of e)) as [Hl|Hl].
  { apply (reads_down_to e k (level_of e)); [done|done|lia|done]. }
  apply (reads_down_to e k 10); [done|lia|intros; lia|]. apply reads_parens; [lia|].
  apply (reads_down_to e 0 (level_of e)); [done|lia|lia|done].
Qed.

Lemma grammar_read e : written e = true -> (forall k, k <= 10 -> reads k e) /\ (forall k, loop_level k -> resumes k e).
Proof.
  assert (forall e, written e = true -> reads (level_of e) e ->
    (forall o a b, e = EBinary o a b -> resumes (binary_level o) e) ->
    (forall k, k <= 10 -> reads k e) /\ (forall k, loop_level k -> resumes k e)) as Hboth.
  { clear e. intros e Hw Hr Hres. pose proof (reads_all e Hw Hr) as Hall. split; [done|]. intros k Hk.
    destruct (decide (level_of e = k)) as [<-|Hne].
    - destruct e; cbn [level_of] in Hk; try (unfold loop_level in Hk; lia). by eapply Hres.
    - apply resumes_below; [done|done|]. apply Hall. unfold loop_level in Hk. lia. }
  induction e using expr_nested_ind; intros Hw; pose proof Hw as Hw'; cbn [SqlGrammar.written] in Hw'; bool_hyps;
    (apply Hboth; [exact Hw| |try done]); cbn [level_of].
  - by apply reads_number.
  - apply reads_text.
  - apply reads_null.
  - apply reads_bool.
  - apply reads_column.
  - apply reads_cast; [done|]. apply IHe; [done|lia].
  - apply reads_call; [done|done|]. match goal with Hl : forallb _ _ = true |- _ => rename Hl into Hall end.
    apply Forall_forall. intros x Hx. match goal with IH : Forall _ args |- _ => rewrite Forall_forall in IH; apply (IH x Hx); [|lia] end.
    by apply (List.forallb_forall written args), list_elem_of_In.
  - apply reads_unary. apply IHe; [done|lia].
  - apply reads_loop; [apply loop_levels|]. apply resumes_binary; [apply loop_levels|apply IHe1; [done|apply loop_levels]|].
    apply IHe2; [done|destruct o; cbn; lia].
  - intros o' a' b' [= <- <- <-]. apply resumes_binary; [apply loop_levels|apply IHe1; [done|apply loop_levels]|].
    apply IHe2; [done|destruct o; cbn; lia].
  - apply reads_compare; [apply IHe1|apply IHe2]; (done || lia).
  - apply reads_not. apply IHe; [done|lia].
  - apply reads_is. apply IHe; [done|lia].
Qed.
End reads.

(** ** Text *)

Lemma nest_top `{Unicode} ParseFloat F d : Or (nest ParseFloat F (S d)) = parser ParseFloat F 0 d.
Proof. done. Qed.

Section text.
Context `{Unicode} (ParseFloat : string -> bool) (uni_class : bytes -> rune_class).

Lemma tokens_forall l1 l2 : forallb token_text l1 = true -> forallb token_text l2 = true -> forallb token_text (l1 ++ l2) = true.
Proof. intros H1 H2. by rewrite forallb_app, H1, H2. Qed.

Lemma print_parens k e : forallb token_text (body e) = true -> forallb token_text (print k e) = true.
Proof.
  intros Hb. unfold print, parens. destruct (_ <? _)%nat; [|done]. cbn [forallb]. by rewrite forallb_app, Hb.
Qed.

Lemma commas_tokens l : Forall (fun x => forallb token_text x = true) l -> forallb token_text (commas l) = true.
Proof.
  induction 1 as [|x [|y l] Hx Hl IH]; [done|done|]. change (commas (x :: y :: l)) with (x ++ tokOp "," :: commas (y :: l)).
  rewrite forallb_app, Hx. cbn [forallb]. by rewrite IH.
Qed.

Lemma body_tokens e : written ParseFloat e = true -> forallb token_text (body e) = true.
Proof.
  induction e using expr_nested_ind; intros Hw; cbn [written] in Hw; bool_hyps; cbn [body forallb token_text].
  - by rewrite andb_true_r.
  - done.
  - done.
  - by destruct b.
  - rewrite bool_decide_false by done. done.
  - fold (print 0 e). rewrite forallb_app, (print_parens 0 e) by auto. cbn. by rewrite andb_true_r.
  - unfold function_name in *. bool_hyps. rewrite forallb_app, commas_tokens.
    + by rewrite !andb_true_r.
    + apply Forall_forall. intros x Hx. apply list_elem_of_fmap in Hx as (a & -> & Ha).
      change (forallb token_text (print 0 a) = true). apply print_parens.
      match goal with IH : Forall _ args |- _ => rewrite Forall_forall in IH; apply (IH a Ha) end.
      by apply (List.forallb_forall (written ParseFloat) args), list_elem_of_In.
  - fold (print 8 e). rewrite print_parens by auto. by destruct m.
  - fold (print (binary_level o) e1) (print (S (binary_level o)) e2). rewrite forallb_app. cbn [forallb].
    rewrite !print_parens by auto. by destruct o.
  - fold (print 5 e1) (print 5 e2). rewrite forallb_app. cbn [forallb]. rewrite !print_parens by auto. by destruct c.
  - fold (print 2 e). by rewrite print_parens by auto.
  - fold (print 4 e). rewrite forallb_app, print_parens by auto. by destruct n.
Qed.

(** Text within the limits is read back. *)
Lemma parse_text (e : expr) (sql : string) :
  sb sql = text_of (print 0 e) -> written ParseFloat e = true ->
  sql_size sql = true -> (size ParseFloat e <= 4096)%Z -> need 0 e <= 64 ->
  parseScalarSQL ParseFloat uni_class sql = Ok (node_of ParseFloat e).
Proof.
  intros Et Hw Hsz Hs Hn. unfold parseScalarSQL. rewrite Hsz. cbn [negb].
  rewrite (tokenize_text uni_class _ _ Et) by (apply print_parens, body_tokens, Hw).
  destruct (grammar_read ParseFloat (length (print 0 e ++ [tokEOF])) e Hw) as [Hr _].
  pose proof (Hr 0 ltac:(lia) 64 0%Z [tokEOF] Hn ltac:(lia) ltac:(done) stop_eof) as E.
  unfold parseTokens. rewrite (nest_top ParseFloat _ 64), E. done.
Qed.

(** C31: The parser implements the grammar: an expression written with the
    parentheses its operators' precedences need, in at most 1 MiB of UTF-8
    without NUL, with at most 4096 nodes and 64 levels of nesting, is read as the
    node it stands for, every operator to the left and every comparison with its
    own operands; a minus on a numeric literal is part of the literal. *)
Theorem parse_reads_grammar (e : expr) (sql : string) :
  sb sql = text_of (print 0 e) -> written ParseFloat e = true ->
  sql_size sql = true -> (size ParseFloat e <= 4096)%Z -> need 0 e <= 64 ->
  parseScalarSQL ParseFloat uni_class sql = Ok (node_of ParseFloat e).
Proof. exact (parse_text e sql). Qed.
End text.

(** ** Examples *)

Module GrammarExample.
#[local] Existing Instance AsciiText.ascii_text.
Definition floats (s : string) : bool := true.
Definition others (b : bytes) : rune_class := OtherRune.
Definition parse (sql : string) : result sql_error sqlNode := parseScalarSQL floats others sql.

(** NOT binds tighter than AND, AND than OR, * than +. *)
Definition mixed : expr :=
  EBinary BOr (EBinary BAnd (ENot (ECompare CLt (EColumn "a") (EBinary BAdd (ENumber "1") (EBinary BMul (EColumn "b") (ENumber "2.5")))))
                            (EIsNull true (ECall "lower" [EText "it's"])))
              (EBinary BSub (EColumn "c") (EBinary BSub (EUnary true (EColumn "d")) (ENumber "4e2"))).
Definition mixed_text : string := bstr (text_of (print 0 mixed)).

(** The text is the one a person would write, with blanks. *)
Example mixed_reads : parse mixed_text =
  parse ("not " +:+ bstr [x22] +:+ "a" +:+ bstr [x22] +:+ "<1+ b*2.5 AND lower('it''s') is not null or c-(-d-4e2)") .
Proof. vm_compute. reflexivity. Qed.

Lemma parse_reads_grammar_witness :
  is_ok (parse mixed_text) = true /\ parse mixed_text = Ok (node_of floats mixed).
Proof.
  split; [vm_compute; reflexivity|]. apply (parse_reads_grammar floats others mixed mixed_text).
  - unfold mixed_text. by rewrite sb_bstr.
  - vm_compute. reflexivity.
  - vm_compute. reflexivity.
  - vm_compute. discriminate.
  - vm_compute. repeat constructor.
Defined.

(** A named argument written with => is refused only because its value is missing:
    the tokenizer has no such operator. *)
Example arrow_argument : parse "f(a => 1)" = Err (SqlError "unexpected >").
Proof. reflexivity. Qed.
Example chained : parse "1 < 2 < 3" = Err (SqlError "chained comparisons are not valid SQL").
Proof. vm_compute. reflexivity. Qed.
End GrammarExample.
