(* ===== verification/Json.v ===== *)
(** * Json: what the worker uses of encoding/json (vgi/filter_v2.go)

    A document is parsed into a tree in which every value of an array or an
    object keeps its own text, as [json.RawMessage] does. The reader follows
    the scanner of the Go library: its whitespace, its literals, at most 10000
    nested arrays and objects, escapes and malformed UTF-8 replaced by U+FFFD.
    [Unmarshal] into a Go value is one function per target type: [null] leaves
    the target as it was, a value of another kind is an error.

    The second part is the strict decoder of the filter documents
    ([decodeStrict], [rejectDuplicateJSON], [exactKeys], [allowedKeys],
    [containsString]). *)

From S2P Require Import Prelude Bytes Unicode Strings.
From stdpp Require Import pretty.

(** ** Trees *)

Inductive json :=
| JNull
| JBool (b : bool)
| JNum (text : string)
| JStr (s : string)
| JArr (l : list (string * json))
| JObj (members : list (string * (string * json))).

(** [json.RawMessage]: the text of a value, with what it reads as. *)
Definition RawMessage : Type := string * json.

(** [map[string]json.RawMessage], the members in order of the document. *)
Definition object : Type := list (string * RawMessage).

Definition lookup_key (o : object) (key : string) : option RawMessage :=
  snd <$> List.find (fun kv => bool_decide (fst kv = key)) o.

(** ** Reading a text *)

Definition is_space (b : byte) : bool := bool_decide (b ∈ [x20; x09; x0d; x0a]).

Fixpoint skip_ws (l : bytes) : bytes :=
  match l with
  | b :: l' => if is_space b then skip_ws l' else l
  | [] => []
  end.

(** The characters of a number, up to the first that cannot be one. *)
Definition num_byte (b : byte) : bool :=
  in_range 48 57 b || bool_decide (b ∈ [x2b; x2d; x2e; x45; x65]).
Fixpoint span (f : byte -> bool) (l : bytes) : bytes * bytes :=
  match l with
  | b :: l' => if f b then let '(a, r) := span f l' in (b :: a, r) else ([], l)
  | [] => ([], [])
  end.

Definition digit (b : byte) : bool := in_range 48 57 b.
Definition digits1 (l : bytes) : option bytes :=
  match span digit l with ([], _) => None | (_, r) => Some r end.

(** -? (0 | [1-9][0-9]* ) (. [0-9]+)? ([eE] [+-]? [0-9]+)? *)
Definition valid_number (l : bytes) : bool :=
  let l := match l with x2d :: l => l | _ => l end in
  let int := match l with
             | x30 :: l => Some l
             | _ => digits1 l
             end in
  let frac := match int with
              | Some (x2e :: l) => digits1 l
              | _ => int
              end in
  match frac with
  | Some [] => true
  | Some (e :: l) =>
      if bool_decide (e ∈ [x45; x65]) then
        let l := match l with x2b :: l => l | x2d :: l => l | _ => l end in
        bool_decide (digits1 l = Some [])
      else false
  | None => false
  end.

(** The UTF-8 encoding of a rune, and of U+FFFD for a surrogate. *)
Definition encode_rune (z : Z) : bytes :=
  (if z <? 0x80 then [Z_byte z]
   else if z <? 0x800 then [Z_byte (0xC0 + z / 64); Z_byte (0x80 + z mod 64)]
   else if (0xD800 <=? z) && (z <=? 0xDFFF) then [xef; xbf; xbd]
   else if z <? 0x10000
        then [Z_byte (0xE0 + z / 4096); Z_byte (0x80 + z / 64 mod 64); Z_byte (0x80 + z mod 64)]
   else [Z_byte (0xF0 + z / 262144); Z_byte (0x80 + z / 4096 mod 64);
         Z_byte (0x80 + z / 64 mod 64); Z_byte (0x80 + z mod 64)])%Z.

Definition hex_val (b : byte) : option Z :=
  (if in_range 48 57 b then Some (byte_Z b - 48)
   else if in_range 97 102 b then Some (byte_Z b - 87)
   else if in_range 65 70 b then Some (byte_Z b - 55)
   else None)%Z.
Definition hex4 (a b c d : byte) : option Z :=
  match hex_val a, hex_val b, hex_val c, hex_val d with
  | Some a, Some b, Some c, Some d => Some (a * 4096 + b * 256 + c * 16 + d)%Z
  | _, _, _, _ => None
  end.

Definition escape (b : byte) : option byte :=
  snd <$> List.find (fun kv : byte * byte => bool_decide (fst kv = b))
    [(x22, x22); (x5c, x5c); (x2f, x2f); (x62, x08); (x66, x0c); (x6e, x0a);
     (x72, x0d); (x74, x09)].

(** How many bytes the rune at the front of [l] takes, if it is well formed. *)
Definition rune_len (l : bytes) : option nat :=
  List.find (fun n => (n <=? length l)%nat && utf8_valid (take n l)) [1; 2; 3; 4]%nat.

Definition beq (b c : byte) : bool := bool_decide (b = c).

(** Four hexadecimal digits, the rest of an escape after [\u]. *)
Definition take_hex4 (l : bytes) : option (Z * bytes) :=
  match l with
  | a :: b :: c :: d :: l => (fun z => (z, l)) <$> hex4 a b c d
  | _ => None
  end.
(** A whole [\uXXXX] escape of the second half of a surrogate pair. *)
Definition take_low (l : bytes) : option (Z * bytes) :=
  match l with
  | b :: u :: l =>
      if beq b x5c && beq u x75 then
        match take_hex4 l with
        | Some (r, l) => if ((0xDC00 <=? r) && (r <=? 0xDFFF))%Z then Some (r, l) else None
        | None => None
        end
      else None
  | _ => None
  end.
(** The rune of an escape whose first four digits read [r], with the rest. *)
Definition take_rune (r : Z) (l : bytes) : Z * bytes :=
  if ((0xD800 <=? r) && (r <=? 0xDBFF))%Z then
    match take_low l with
    | Some (r2, l) => (0x10000 + (r - 0xD800) * 1024 + (r2 - 0xDC00), l)%Z
    | None => (r, l)
    end
  else (r, l).

(** One rune of a string: its bytes, and what follows. *)
Definition unquote_one (l : bytes) : option (bytes * bytes) :=
  match l with
  | [] => None
  | b :: l' =>
      if beq b x5c then
        match l' with
        | [] => None
        | e :: l =>
            if beq e x75 then
              match take_hex4 l with
              | Some (r, l) => let '(r, l) := take_rune r l in Some (encode_rune r, l)
              | None => None
              end
            else (fun c => ([c], l)) <$> escape e
        end
      else if (byte_Z b <? 32)%Z then None else
      match rune_len l with
      | Some n => Some (take n l, drop n l)
      | None => Some ([xef; xbf; xbd], l')
      end
  end.

(** The rest of a string after its opening quote: its value and what follows
    the closing quote. [fuel] bounds the number of runes. *)
Fixpoint unquote (fuel : nat) (l : bytes) : option (bytes * bytes) :=
  match fuel, l with
  | S fuel, b :: l' =>
      if beq b x22 then Some ([], l') else
      match unquote_one l with
      | Some (s1, r) =>
          match unquote fuel r with
          | Some (s, r) => Some (s1 ++ s, r)
          | None => None
          end
      | None => None
      end
  | _, _ => None
  end.

Definition text_of (l rest : bytes) : string := bstr (take (length l - length rest) l).

Definition literals : list (bytes * json) :=
  [(sb "true", JBool true); (sb "false", JBool false); (sb "null", JNull)].
Definition parse_literal (l : bytes) : option (json * bytes) :=
  (fun kv => (snd kv, drop (length (fst kv)) l)) <$>
    List.find (fun kv : bytes * json => bool_decide (take (length (fst kv)) l = fst kv)) literals.

Definition maxNestingDepth : Z := 10000.

(** A string, with its opening quote. *)
Definition parse_string (l : bytes) : option (string * bytes) :=
  match l with
  | b :: r =>
      if beq b x22 then
        match unquote (S (length r)) r with Some (s, r) => Some (bstr s, r) | None => None end
      else None
  | [] => None
  end.

Definition parse_number (l : bytes) : option (json * bytes) :=
  let '(n, r) := span num_byte l in
  if valid_number n then Some (JNum (bstr n), r) else None.

(** After a value: the rest behind [close], or behind a comma. *)
Inductive separator := Closed (rest : bytes) | More (rest : bytes) | Unexpected.
Definition separate (close : byte) (l : bytes) : separator :=
  match skip_ws l with
  | b :: r => if beq b close then Closed r else if beq b x2c then More (skip_ws r) else Unexpected
  | [] => Unexpected
  end.

(** A value at the front of [l], at most [maxNestingDepth] deep when [depth]
    arrays and objects are open around it. *)
Fixpoint parse_value (fuel : nat) (depth : Z) (l : bytes) {struct fuel} : option (json * bytes) :=
  match fuel, l with
  | S fuel, b :: r =>
      if beq b x22 then (fun '(s, r) => (JStr s, r)) <$> parse_string l
      else if beq b x5b || beq b x7b then
        if (maxNestingDepth <=? depth)%Z then None else
        let close := if beq b x5b then x5d else x7d in
        let empty := if beq b x5b then JArr [] else JObj [] in
        match skip_ws r with
        | [] => None
        | c :: r' =>
            if beq c close then Some (empty, r')
            else if beq b x5b
                 then (fun '(vs, r) => (JArr vs, r)) <$> parse_elems fuel (depth + 1) (skip_ws r)
                 else (fun '(vs, r) => (JObj vs, r)) <$> parse_members fuel (depth + 1) (skip_ws r)
        end
      else if digit b || beq b x2d then parse_number l
      else parse_literal l
  | _, _ => None
  end
with parse_elems (fuel : nat) (depth : Z) (l : bytes) {struct fuel}
  : option (list RawMessage * bytes) :=
  match fuel with
  | O => None
  | S fuel =>
      match parse_value fuel depth l with
      | None => None
      | Some (v, r) =>
          match separate x5d r with
          | Closed r' => Some ([(text_of l r, v)], r')
          | More r' => (fun '(vs, r') => ((text_of l r, v) :: vs, r')) <$> parse_elems fuel depth r'
          | Unexpected => None
          end
      end
  end
with parse_members (fuel : nat) (depth : Z) (l : bytes) {struct fuel}
  : option (object * bytes) :=
  match fuel with
  | O => None
  | S fuel =>
      match parse_string l with
      | None => None
      | Some (key, r1) =>
          match skip_ws r1 with
          | [] => None
          | c :: r2 =>
              if beq c x3a then
                match parse_value fuel depth (skip_ws r2) with
                | None => None
                | Some (v, r) =>
                    let e := (key, (text_of (skip_ws r2) r, v)) in
                    match separate x7d r with
                    | Closed r' => Some ([e], r')
                    | More r' => (fun '(vs, r') => (e :: vs, r')) <$> parse_members fuel depth r'
                    | Unexpected => None
                    end
                end
              else None
          end
      end
  end.

(** The first value of a text and what follows it. *)
Definition parse (raw : bytes) : option (json * bytes) :=
  let l := skip_ws raw in parse_value (2 * length l + 1) 0 l.

(** Documents are written with ' for the double quote. *)
Definition doc (s : string) : bytes :=
  map (fun b => if bool_decide (b = x27) then x22 else b) (sb s).
Definition doc_str (s : string) : string := bstr (doc s).

Example parse_sample :
  parse (doc "{'a': [1, -2.5e3 ,'x\u00e9\n'], 'b':{} } ]")
  = Some (JObj [("a", (doc_str "[1, -2.5e3 ,'x\u00e9\n']",
                       JArr [("1", JNum "1"); ("-2.5e3", JNum "-2.5e3");
                             (doc_str "'x\u00e9\n'", JStr (bstr (sb "x" ++ [xc3; xa9; x0a])))]));
                ("b", ("{}", JObj []))], sb " ]").
Proof. vm_compute. reflexivity. Qed.

(** *** The fuel is enough

    Every parser consumes what it reads, so a larger fuel gives the same. *)

Lemma skip_ws_length l : length (skip_ws l) <= length l.
Proof. induction l as [|b l IH]; cbn; [lia|]. destruct (is_space b); cbn; lia. Qed.

Lemma span_length f l a r : span f l = (a, r) -> length l = length a + length r.
Proof.
  revert a r. induction l as [|b l IH]; cbn; intros a r E; [by injection E as <- <-|].
  destruct (f b); [|by injection E as <- <-].
  destruct (span f l) as [a' r'] eqn:E'. injection E as <- <-. cbn. by rewrite (IH a' r').
Qed.

Lemma take_hex4_length l r k : take_hex4 l = Some (r, k) -> length k <= length l.
Proof.
  destruct l as [|a [|b [|c [|d l]]]]; cbn; try done.
  destruct (hex4 a b c d); [|done]. intros [= <- <-]. lia.
Qed.

Lemma take_low_length l r k : take_low l = Some (r, k) -> length k <= length l.
Proof.
  destruct l as [|b [|u l]]; cbn [take_low]; try done. intros E. repeat break_match; try done.
  injection E as <- <-. cbn. apply take_hex4_length in E1. lia.
Qed.

Lemma take_rune_length r l : length (snd (take_rune r l)) <= length l.
Proof.
  unfold take_rune. repeat break_match; cbn; try lia.
  by eapply take_low_length.
Qed.

Lemma rune_len_pos l n : rune_len l = Some n -> 0 < n.
Proof. intros E. apply find_some in E as [E _]. cbn in E. lia. Qed.

Lemma unquote_one_shorter l s r : unquote_one l = Some (s, r) -> length r < length l.
Proof.
  destruct l as [|b l]; cbn [unquote_one]; [done|]. intros E.
  destruct (beq b x5c).
  - destruct l as [|e l]; [done|]. destruct (beq e x75).
    + destruct (take_hex4 l) as [[z k]|] eqn:E4; [|done].
      pose proof (take_rune_length z k) as H. destruct (take_rune z k) as [z' k'].
      injection E as <- <-. apply take_hex4_length in E4. cbn in *. lia.
    + destruct (escape e); [|done]. injection E as <- <-. cbn. lia.
  - destruct (byte_Z b <? 32)%Z; [done|]. destruct (rune_len (b :: l)) as [n|] eqn:En.
    + injection E as <- <-. apply rune_len_pos in En. rewrite length_drop. cbn [length]. lia.
    + injection E as <- <-. cbn. lia.
Qed.

Lemma unquote_shorter fuel l s r : unquote fuel l = Some (s, r) -> length r < length l.
Proof.
  revert l s r. induction fuel as [|fuel IH]; intros [|b l] s r E; try done.
  cbn [unquote] in E. destruct (beq b x22); [injection E as <- <-; cbn; lia|].
  destruct (unquote_one (b :: l)) as [[s1 r1]|] eqn:E1; [|done].
  destruct (unquote fuel r1) as [[s2 r2]|] eqn:E2; [|done]. injection E as <- <-.
  apply unquote_one_shorter in E1. apply IH in E2. lia.
Qed.

Lemma parse_string_shorter l s r : parse_string l = Some (s, r) -> length r < length l.
Proof.
  destruct l as [|b l]; [done|]. cbn [parse_string]. destruct (beq b x22); [|done].
  destruct (unquote _ l) as [[s' r']|] eqn:E; [|done]. intros [= <- <-].
  apply unquote_shorter in E. cbn. lia.
Qed.

Lemma parse_number_shorter b l v r :
  digit b || beq b x2d = true -> parse_number (b :: l) = Some (v, r) -> length r < length (b :: l).
Proof.
  intros Hb E. unfold parse_number in E. cbn [span] in E.
  assert (num_byte b = true) as Hn by (destruct b; vm_compute in Hb |- *; congruence).
  rewrite Hn in E. destruct (span num_byte l) as [a r'] eqn:Es.
  destruct (valid_number (b :: a)); [|done]. injection E as <- <-.
  apply span_length in Es. cbn. lia.
Qed.

Lemma parse_literal_shorter l v r : parse_literal l = Some (v, r) -> length r < length l.
Proof.
  unfold parse_literal. destruct (List.find _ literals) as [kv|] eqn:E; [|done].
  intros [= <- <-]. apply find_some in E as [Hin E]. bool_hyps.
  apply (f_equal length) in E. rewrite length_take in E. rewrite length_drop.
  assert (0 < length (fst kv)) by (cbn in Hin; destruct Hin as [<-|[<-|[<-|[]]]]; cbn; lia). lia.
Qed.

Lemma separate_length c l :
  match separate c l with Closed r | More r => length r < length l | Unexpected => True end.
Proof.
  unfold separate. pose proof (skip_ws_length l) as H.
  destruct (skip_ws l) as [|b r]; [done|]. cbn in H.
  destruct (beq b c); [lia|]. destruct (beq b x2c); [|done].
  pose proof (skip_ws_length r). lia.
Qed.

Lemma parse_shorter fuel :
  (forall depth l v r, parse_value fuel depth l = Some (v, r) -> length r < length l) /\
  (forall depth l v r, parse_elems fuel depth l = Some (v, r) -> length r < length l) /\
  (forall depth l v r, parse_members fuel depth l = Some (v, r) -> length r < length l).
Proof.
  induction fuel as [|fuel (IHv & IHe & IHm)]; [done|]. repeat split; intros depth l v r E.
  - destruct l as [|b l]; [done|]. cbn [parse_value] in E.
    destruct (beq b x22).
    { destruct (parse_string (b :: l)) as [[s r']|] eqn:E1; [|done]. injection E as <- <-.
      by apply parse_string_shorter in E1. }
    destruct (beq b x5b || beq b x7b).
    + destruct (maxNestingDepth <=? depth)%Z; [done|]. pose proof (skip_ws_length l) as Hl.
      destruct (skip_ws l) as [|c k] eqn:Ek; [done|].
      destruct (beq c _); [injection E as <- <-; cbn in *; lia|].
      destruct (beq b x5b).
      * destruct (parse_elems fuel _ _) as [[vs r']|] eqn:E1; [|done].
        injection E as <- <-. apply IHe in E1. cbn in *. lia.
      * destruct (parse_members fuel _ _) as [[vs r']|] eqn:E1; [|done].
        injection E as <- <-. apply IHm in E1. cbn in *. lia.
    + destruct (digit b || beq b x2d) eqn:Hd;
        [by eapply parse_number_shorter|by apply parse_literal_shorter in E].
  - cbn [parse_elems] in E. destruct (parse_value fuel depth l) as [[v1 r1]|] eqn:E1; [|done].
    apply IHv in E1. pose proof (separate_length x5d r1) as Hs.
    destruct (separate x5d r1) as [r2|r2|]; [injection E as <- <-; lia| |done].
    destruct (parse_elems fuel depth r2) as [[vs r3]|] eqn:E2; [|done].
    injection E as <- <-. apply IHe in E2. lia.
  - cbn [parse_members] in E. destruct (parse_string l) as [[key r1]|] eqn:E1; [|done].
    apply parse_string_shorter in E1. pose proof (skip_ws_length r1) as H1.
    destruct (skip_ws r1) as [|c r2]; [done|]. destruct (beq c x3a); [|done].
    pose proof (skip_ws_length r2) as H2.
    destruct (parse_value fuel depth (skip_ws r2)) as [[v1 r3]|] eqn:E2; [|done]. apply IHv in E2.
    pose proof (separate_length x7d r3) as Hs. cbn [length] in *.
    destruct (separate x7d r3) as [r4|r4|]; [injection E as <- <-; lia| |done].
    destruct (parse_members fuel depth r4) as [[vs r5]|] eqn:E3; [|done].
    injection E as <- <-. apply IHm in E3. lia.
Qed.

Lemma parse_fuel n :
  (forall depth l m, 2 * length l < n -> n <= m -> parse_value m depth l = parse_value n depth l) /\
  (forall depth l m, 2 * length l + 1 < n -> n <= m -> parse_elems m depth l = parse_elems n depth l) /\
  (forall depth l m, 2 * length l + 1 < n -> n <= m -> parse_members m depth l = parse_members n depth l).
Proof.
  induction n as [|n (IHv & IHe & IHm)]; [repeat split; intros; lia|].
  destruct (parse_shorter n) as (Sv & Se & Sm).
  repeat split; intros depth l [|m] Hl Hm; try lia.
  - destruct l as [|b l]; [done|]. cbn [parse_value]. cbn [length] in Hl.
    pose proof (skip_ws_length l) as H.
    destruct (skip_ws l) as [|c r] eqn:Ek; [done|].
    rewrite IHe, IHm by lia. done.
  - cbn [parse_elems]. rewrite IHv by lia.
    destruct (parse_value n depth l) as [[v r]|] eqn:E; [|done]. apply Sv in E.
    pose proof (separate_length x5d r) as Hs. destruct (separate x5d r) as [r'|r'|]; [done| |done].
    by rewrite IHe by lia.
  - cbn [parse_members]. destruct (parse_string l) as [[key r1]|] eqn:E1; [|done].
    apply parse_string_shorter in E1. pose proof (skip_ws_length r1) as H1.
    destruct (skip_ws r1) as [|c r2]; [done|]. destruct (beq c x3a); [|done].
    pose proof (skip_ws_length r2) as H2. cbn [length] in H1. rewrite IHv by lia.
    destruct (parse_value n depth (skip_ws r2)) as [[v r3]|] eqn:E2; [|done]. apply Sv in E2.
    pose proof (separate_length x7d r3) as Hs.
    destruct (separate x7d r3) as [r4|r4|]; [done| |done]. by rewrite IHm by lia.
Qed.

Lemma parse_total raw m :
  2 * length (skip_ws raw) + 1 <= m -> parse_value m 0 (skip_ws raw) = parse raw.
Proof. intros H. apply parse_fuel; lia. Qed.

(** ** json.Unmarshal into Go values

    Each takes the value's text, absent when the member is, and what the
    target holds. *)

Definition unmarshal_string (raw : option RawMessage) (cur : string) : result string string :=
  match raw with
  | None => Err "unexpected end of JSON input"
  | Some (_, JNull) => Ok cur
  | Some (_, JStr s) => Ok s
  | Some _ => Err "json: cannot unmarshal into Go value of type string"
  end.

Definition unmarshal_bool (raw : option RawMessage) (cur : bool) : result string bool :=
  match raw with
  | None => Err "unexpected end of JSON input"
  | Some (_, JNull) => Ok cur
  | Some (_, JBool b) => Ok b
  | Some _ => Err "json: cannot unmarshal into Go value of type bool"
  end.

(** [strconv.ParseInt] and [strconv.ParseUint] on the text of a number. *)
Definition digits_Z (l : bytes) : option Z :=
  if forallb digit l && negb (beq (hd x00 l) x00)
  then Some (foldl (fun n b => n * 10 + (byte_Z b - 48)) 0 l)%Z else None.
Definition ParseUint (t : string) : option Z :=
  match digits_Z (sb t) with
  | Some z => if (z <? 2 ^ 64)%Z then Some z else None
  | None => None
  end.
Definition ParseInt (t : string) : option Z :=
  let z := match sb t with
           | b :: l => if beq b x2d then Z.opp <$> digits_Z l else digits_Z (b :: l)
           | [] => None
           end in
  match z with
  | Some z => if bool_decide (int64_range z) then Some z else None
  | None => None
  end.

Definition unmarshal_number (parse : string -> option Z) (raw : option RawMessage) (cur : Z)
  : result string Z :=
  match raw with
  | None => Err "unexpected end of JSON input"
  | Some (_, JNull) => Ok cur
  | Some (_, JNum t) =>
      match parse t with
      | Some z => Ok z
      | None => Err "json: cannot unmarshal number into Go value"
      end
  | Some _ => Err "json: cannot unmarshal into Go value of type number"
  end.
Definition unmarshal_int := unmarshal_number ParseInt.
Definition unmarshal_uint64 := unmarshal_number ParseUint.

(** Into a nil [[]json.RawMessage] and a nil [map[string]json.RawMessage]:
    [None] is the nil slice or map. *)
Definition unmarshal_slice (raw : option RawMessage) : result string (option (list RawMessage)) :=
  match raw with
  | None => Err "unexpected end of JSON input"
  | Some (_, JNull) => Ok None
  | Some (_, JArr l) => Ok (Some l)
  | Some _ => Err "json: cannot unmarshal into Go value of type []json.RawMessage"
  end.
Definition unmarshal_map (raw : option RawMessage) : result string (option object) :=
  match raw with
  | None => Err "unexpected end of JSON input"
  | Some (_, JNull) => Ok None
  | Some (_, JObj l) => Ok (Some l)
  | Some _ => Err "json: cannot unmarshal into Go value of type map"
  end.

(** [_ = json.Unmarshal(...)]: an error leaves the target as it was. *)
Definition ignoring {A} (r : result string A) (cur : A) : A :=
  match r with Ok a => a | Err _ => cur end.

(** The field of a struct a member decodes into: the one of that name, else
    one of that name up to case. *)
Definition field_of (fields : list string) (key : string) : option string :=
  match List.find (fun f => bool_decide (f = key)) fields with
  | Some f => Some f
  | None => List.find (fun f => EqualFold key f) fields
  end.

(** ** The strict decoder *)

Fixpoint nodup_keys (j : json) : bool :=
  match j with
  | JArr l => forallb (fun v => nodup_keys (snd v)) l
  | JObj l => bool_decide (NoDup (map fst l)) && forallb (fun v => nodup_keys (snd (snd v))) l
  | _ => true
  end.

Definition rejectDuplicateJSON (j : json) : result string () :=
  if nodup_keys j then Ok () else Err "duplicate JSON key".

(** [decodeStrict] on a value inside a document, which nothing can trail. *)
Definition decodeStrict {A} (raw : option RawMessage) (decode : json -> result string A)
  : result string A :=
  match raw with
  | None => Err "EOF"
  | Some (_, j) => let? _ := rejectDuplicateJSON j in decode j
  end.

(** [decoder.More()] after the value. *)
Definition decoder_more (rest : bytes) : bool :=
  match skip_ws rest with
  | [] => false
  | b :: _ => negb (beq b x5d || beq b x7d)
  end.

(** [decodeStrict] on a whole text. *)
Definition decodeStrictText {A} (raw : bytes) (decode : json -> result string A)
  : result string A :=
  match parse raw with
  | None => Err "invalid JSON"
  | Some (j, rest) =>
      let? _ := rejectDuplicateJSON j in
      let? v := decode j in
      check! negb (decoder_more rest) else "trailing JSON" in
      Ok v
  end.

(** Into a [map[string]json.RawMessage]; a nil map has no members. *)
Definition decode_object (j : json) : result string object :=
  match j with
  | JNull => Ok []
  | JObj l => Ok l
  | _ => Err "json: cannot unmarshal into Go value of type map"
  end.

Definition allowedKeys (o : object) (required optional : list string) : result string () :=
  if forallb (fun key => bool_decide (is_Some (lookup_key o key))) required then
    if forallb (fun kv => Contains (required ++ optional) (fst kv)) o
    then Ok () else Err "unknown property"
  else Err "missing property".
Definition exactKeys (o : object) (keys : list string) : result string () := allowedKeys o keys [].

(** [containsString]: a search in a sorted copy, whose index is of the first
    element that is not below the target. *)
Definition appendSorted (values : list string) : list string := Sort values.
Definition containsString (values : list string) (target : string) : bool :=
  match List.find (fun v => bool_decide (str_le target v)) (appendSorted values) with
  | Some v => bool_decide (v = target)
  | None => false
  end.

Lemma containsString_spec values target : containsString values target = bool_decide (target ∈ values).
Proof.
  unfold containsString, appendSorted. rewrite <- (bool_decide_ext _ _ (elem_of_Sort target values)).
  pose proof (Sort_sorted values) as Hs. induction Hs as [|v l Hl IH Hv]; cbn [List.find].
  - by rewrite bool_decide_false by apply not_elem_of_nil.
  - destruct (bool_decide (str_le target v)) eqn:E; bool_hyps.
    + apply bool_decide_ext. split; [intros ->; set_solver|].
      intros [->|Ht]%elem_of_cons; [done|]. apply (anti_symm str_le); [|done].
      by apply (proj1 (Forall_forall _ _) Hv).
    + rewrite IH. apply bool_decide_ext. split; [set_solver|].
      intros [->|Ht]%elem_of_cons; [|done]. exfalso. apply E.
      by destruct (total str_le v v).
Qed.

(** ** Facts about numbers *)

Lemma digits_Z_nonneg l z : digits_Z l = Some z -> (0 <= z)%Z.
Proof.
  unfold digits_Z. destruct (forallb digit l) eqn:Hd; [|done].
  destruct (negb _); [|done]. cbn [andb]. intros E. injection E as <-.
  assert (forall n, (0 <= n)%Z -> (0 <= foldl (fun n b => n * 10 + (byte_Z b - 48)) n l)%Z) as H;
    [|by apply H].
  induction l as [|b l IH]; intros n Hn; cbn; [done|]. cbn in Hd. bool_hyps.
  apply IH; [done|]. unfold digit, in_range in *. bool_hyps. lia.
Qed.

Lemma unmarshal_uint64_range raw cur z :
  (0 <= cur < 2 ^ 64)%Z -> unmarshal_uint64 raw cur = Ok z -> (0 <= z < 2 ^ 64)%Z.
Proof.
  intros Hc. unfold unmarshal_uint64, unmarshal_number, ParseUint.
  destruct raw as [[t [| |n| | |]]|]; try done; intros E; [by injection E as <-|].
  destruct (digits_Z (sb n)) as [v|] eqn:Ed; [|done]. apply digits_Z_nonneg in Ed.
  destruct (v <? 2 ^ 64)%Z eqn:Ev; [|done]. injection E as <-. bool_hyps. lia.
Qed.

(** ** Facts about members *)

Lemma lookup_key_elem o key raw : lookup_key o key = Some raw -> (key, raw) ∈ o.
Proof.
  unfold lookup_key. destruct (List.find _ o) as [[k r]|] eqn:E; [|done]. intros [= <-].
  apply find_some in E as [Hin E]. cbn in E. bool_hyps. subst. by apply list_elem_of_In.
Qed.

Lemma lookup_key_is_Some o key : is_Some (lookup_key o key) <-> key ∈ map fst o.
Proof.
  unfold lookup_key. rewrite fmap_is_Some. induction o as [|[k r] o IH]; cbn.
  - split; [by intros [? ?]|by intros ?%not_elem_of_nil].
  - rewrite elem_of_cons. case_bool_decide as E; cbn in E.
    + subst. split; [auto|]. intros _. by eexists.
    + rewrite IH. split; [auto|]. intros [->|?]; done.
Qed.

Lemma lookup_key_NoDup o key raw :
  NoDup (map fst o) -> (key, raw) ∈ o -> lookup_key o key = Some raw.
Proof.
  intros Hn Hin. destruct (proj2 (lookup_key_is_Some o key)) as [raw' E].
  { apply list_elem_of_fmap. by exists (key, raw). }
  rewrite E. f_equal. apply lookup_key_elem in E.
  apply list_elem_of_lookup in E as [i Hi]. apply list_elem_of_lookup in Hin as [j Hj].
  assert (i = j) as ->; [|congruence].
  apply (NoDup_lookup (map fst o) i j key Hn); rewrite list_lookup_fmap; [by rewrite Hi|by rewrite Hj].
Qed.

Lemma exactKeys_ok o keys :
  exactKeys o keys = Ok () -> forall key, key ∈ map fst o <-> key ∈ keys.
Proof.
  unfold exactKeys, allowedKeys. rewrite app_nil_r.
  destruct (forallb _ keys) eqn:E1; [|done]. destruct (forallb _ o) eqn:E2; [|done]. intros _ key.
  rewrite forallb_forall in E1, E2. split; intros H.
  - apply list_elem_of_fmap in H as ([k r] & -> & H). apply list_elem_of_In in H.
    apply E2 in H. unfold Contains in H. by bool_hyps.
  - apply list_elem_of_In in H. apply E1 in H. bool_hyps. by apply lookup_key_is_Some.
Qed.
