(* ===== verification/Columns.v ===== *)
(** * Columns: Arrow fields with their metadata at every level

    What the checks of a table's columns look at: names, types, nullability and
    metadata, down through structs, lists, dictionaries and extension types
    (vgi/scalar_sql.go, vgi/constraint_records.go, vgi/column_expressions.go,
    vgi/column_metadata.go). *)

From S2P Require Import Prelude Bytes Strings Unicode ArrowTypes.

(** A type over the fields it has: one without children, a struct, another
    nested type (a list, a map, a union) with its child fields, a dictionary of
    values, or an extension of a storage type. *)
Inductive Shape (A : Type) :=
| PlainType (dt : DataType)
| StructType (fields : list A)
| NestedType (id : string) (fields : list A)
| DictionaryType (index : DataType) (value : Shape A)
| ExtensionType (n : string) (storage : Shape A).
Arguments PlainType {A}. Arguments StructType {A}. Arguments NestedType {A}. Arguments DictionaryType {A}.
Arguments ExtensionType {A}.

Inductive Column := MkColumn {
  colName : string;
  colType : Shape Column;
  colNullable : bool;
  colMetadata : list (string * string)
}.

Section column_ind.
Context (P : Column -> Prop) (Q : Shape Column -> Prop).
Context (Hcol : forall n t b m, Q t -> P (MkColumn n t b m))
  (Hplain : forall dt, Q (PlainType dt)) (Hstruct : forall fs, Forall P fs -> Q (StructType fs))
  (Hnested : forall i fs, Forall P fs -> Q (NestedType i fs)) (Hdict : forall i v, Q v -> Q (DictionaryType i v))
  (Hext : forall n s, Q s -> Q (ExtensionType n s)).
Fixpoint column_nested_ind (c : Column) : P c :=
  let 'MkColumn n t b m := c in
  Hcol n t b m
    ((fix shape (t : Shape Column) : Q t :=
        let all := fix all (l : list Column) : Forall P l :=
          match l with [] => List.Forall_nil P | x :: l => List.Forall_cons P x l (column_nested_ind x) (all l) end in
        match t with
        | PlainType dt => Hplain dt
        | StructType fs => Hstruct fs (all fs)
        | NestedType i fs => Hnested i fs (all fs)
        | DictionaryType i v => Hdict i v (shape v)
        | ExtensionType n s => Hext n s (shape s)
        end) t).
End column_ind.

(** ** Metadata *)

(** [Metadata.FindKey]: the first value of a key. *)
Definition find_key (md : list (string * string)) (key : string) : option string :=
  snd <$> List.find (fun kv : string * string => bool_decide (fst kv = key)) md.
Definition has_key (md : list (string * string)) (key : string) : bool :=
  match find_key md key with Some _ => true | None => false end.

Definition isRowIDField (c : Column) : bool := has_key (colMetadata c) "is_row_id".

(** The children of a struct that is no logical type. *)
Definition logical_key (key : string) : bool :=
  bool_decide (key = "ARROW:extension:name") || has_prefix (sb key) (sb "vgi.logical_type.").
Definition ordinaryStructChildren (c : Column) : option (list Column) :=
  match colType c with
  | StructType fs => if existsb (fun kv => logical_key (fst kv)) (colMetadata c) then None else Some fs
  | _ => None
  end.

(** [FieldIndices(name)], when there is exactly one. *)
Definition columns_called (cols : list Column) (n : string) : list (nat * Column) :=
  filter (fun ic : nat * Column => colName (snd ic) = n) (imap pair cols).
Definition topLevelIndex (cols : list Column) (n : string) : option nat :=
  match columns_called cols n with [(i, _)] => Some i | _ => None end.

Lemma columns_called_lookup cols n i c : (i, c) ∈ columns_called cols n <-> cols !! i = Some c /\ colName c = n.
Proof.
  unfold columns_called. rewrite list_elem_of_filter, elem_of_lookup_imap. cbn. split.
  - intros (E & j & c' & E' & Hj). injection E' as -> ->. done.
  - intros [Hi E]. split; [done|]. by exists i, c.
Qed.

(** A column found is the only one of its name. *)
Lemma topLevelIndex_only cols n i : topLevelIndex cols n = Some i ->
  exists c, cols !! i = Some c /\ colName c = n /\ forall j d, cols !! j = Some d -> colName d = n -> j = i.
Proof.
  unfold topLevelIndex. destruct (columns_called cols n) as [|[i' c] [|]] eqn:E; try done. intros [= ->].
  assert (forall j d, (j, d) ∈ columns_called cols n <-> j = i /\ d = c) as Hall.
  { intros j d. rewrite E, list_elem_of_singleton. split; [by intros [= -> ->]|by intros [-> ->]]. }
  destruct (proj1 (columns_called_lookup cols n i c)) as [H1 H2]; [by apply Hall|]. exists c. split; [done|split; [done|]].
  intros j d Hj Hd. by destruct (proj1 (Hall j d)) as [-> _]; [apply columns_called_lookup|].
Qed.

(** ** [strings.EqualFold] on names

    [fold] maps a name to the representative of its case folding. *)
Definition EqualFoldText (fold : string -> string) (s t : string) : bool := bool_decide (fold s = fold t).
