(* ===== verification/SqlChecks.v ===== *)
(** * SqlChecks: CHECK constraints and generated columns (vgi/scalar_sql.go)

    The two grammars the DuckDB extension reads back: a CHECK is one comparison
    of numeric literals and signed numeric columns; a generated column is built
    from literals, casts, comparisons, logic and eight functions over the other
    columns. *)

From S2P Require Import Prelude Bytes Strings Unicode Strconv ArrowTypes.
From S2P Require Import SqlTokens SqlParser SqlGrammar Columns.

Section checks.
Context `{Unicode} (ParseFloat : string -> bool) (uni_class : bytes -> rune_class) (fold : string -> string).

(** The column a reference means, [None] when there is none; an error when it is
    ambiguous. *)
Definition columns_folded (cols : list Column) (n : string) : list (nat * Column) :=
  filter (fun ic : nat * Column => fold (colName (snd ic)) = fold n) (imap pair cols).
Definition findColumnCI (columns : option (list Column)) (n : string) : result string (option (nat * Column)) :=
  match columns with
  | None => Ok None
  | Some cols =>
      match columns_folded cols n with
      | [] => Ok None
      | [ic] => Ok (Some ic)
      | _ => Err ("ambiguous column reference " +:+ n)
      end
  end.

Definition is_extension (t : Shape Column) : bool := match t with ExtensionType _ _ => true | _ => false end.
Definition signed_numeric (t : Shape Column) : bool :=
  match t with PlainType (INT8 | INT16 | INT32 | INT64 | FLOAT32 | FLOAT64) => true | _ => false end.

Definition check_operand (columns : option (list Column)) (operand : sqlNode) : result string () :=
  match kind operand with
  | KConst => if isNumericConstant (constant operand) then Ok () else Err "CHECK requires numeric operands"
  | KColumn =>
      match columns with
      | None => Ok ()
      | Some _ =>
          let? found := findColumnCI columns (name operand) in
          match found with
          | None => Err ("CHECK references a missing or synthetic column " +:+ name operand)
          | Some (_, c) =>
              if isRowIDField c then Err ("CHECK references a missing or synthetic column " +:+ name operand)
              else if has_key (colMetadata c) "ARROW:extension:name" || is_extension (colType c)
              then Err "CHECK extension-typed operands are unsupported"
              else if signed_numeric (colType c) then Ok ()
              else Err ("CHECK requires primitive signed numeric columns; got " +:+ colName c)
          end
      end
  | _ => Err "only numeric column/constant comparisons are supported"
  end.

Definition sql_message (e : sql_error) : string := match e with SqlError m => m | OutOfFuel => "out of fuel" end.
Definition parsed (sql : string) : result string sqlNode :=
  match parseScalarSQL ParseFloat uni_class sql with Ok n => Ok n | Err e => Err (sql_message e) end.

Definition validateNumericCheckSQL (sql : string) (columns : option (list Column)) : result string () :=
  let? expr := parsed sql in
  if bool_decide (kind expr = KCompare)
  then let? _ := map_result (check_operand columns) (args expr) in Ok ()
  else Err "only a Boolean numeric comparison (column/constant op column/constant) is supported".

(** ** Generated columns *)

Definition generatedPrimitiveArrow (c : Column) : bool :=
  if has_key (colMetadata c) "ARROW:extension:name" || is_extension (colType c) then false
  else match colType c with PlainType (BOOL | INT8 | INT16 | INT32 | INT64 | STRING) => true | _ => false end.

Definition generated_constants : list string := ["null"; "boolean"; "integer"; "bigint"; "varchar"].
Definition generated_casts : list string := ["boolean"; "tinyint"; "smallint"; "integer"; "bigint"; "varchar"].
Definition generated_functions : list string := ["+"; "-"; "*"; "%"; "abs"; "lower"; "upper"; "||"].

Definition generated_column (columns : option (list Column)) (self n : string) : result string () :=
  match columns with
  | None => Ok ()
  | Some _ =>
      let? found := findColumnCI columns n in
      match found with
      | None => Err ("generated expression references unknown column " +:+ n)
      | Some (_, c) =>
          if isRowIDField c then Err ("generated expression references unknown column " +:+ n)
          else if EqualFoldText fold (colName c) self then Err ("generated column cannot reference itself: " +:+ self)
          else if generatedPrimitiveArrow c then Ok ()
          else Err ("unsupported generated operand type for column " +:+ colName c)
      end
  end.

Fixpoint walk (columns : option (list Column)) (self : string) (n : sqlNode) : result string () :=
  let 'Node k nm c args := n in
  let? _ := match k with
            | KConst => if bool_decide (c ∈ generated_constants) then Ok () else Err ("unsupported scalar literal type " +:+ c)
            | KColumn => generated_column columns self nm
            | KCast => if bool_decide (nm ∈ generated_casts) then Ok () else Err "unsupported scalar cast"
            | KCompare | KAnd | KOr | KNot | KIsNull | KCoalesce => Ok ()
            | KFunc => if bool_decide (nm ∈ generated_functions) then Ok () else Err ("unsupported scalar function " +:+ nm)
            end in
  (fix all (l : list sqlNode) : result string () :=
     match l with [] => Ok () | a :: l => let? _ := walk columns self a in all l end) args.

Definition validateGeneratedSQL (sql : string) (columns : option (list Column)) (self : string) : result string () :=
  let? expr := parsed sql in walk columns self expr.

(** ** What the checks accept, on the grammar *)

(** A reference names exactly one column, which is no row ID. *)
Definition resolves (cols : list Column) (n : string) (ok : Column -> bool) : Prop :=
  exists i c, cols !! i = Some c /\ fold (colName c) = fold n /\
    (forall j d, cols !! j = Some d -> fold (colName d) = fold n -> j = i) /\
    isRowIDField c = false /\ ok c = true.

Definition plain_column (c : Column) : bool := negb (has_key (colMetadata c) "ARROW:extension:name" || is_extension (colType c)).
Definition numeric_column (c : Column) : bool := plain_column c && signed_numeric (colType c).

(** A literal with its minus signs, or a column. *)
Fixpoint numeric_operand (cols : list Column) (e : expr) : Prop :=
  match e with
  | ENumber _ => True
  | EUnary true e => match e with EColumn _ => False | _ => numeric_operand cols e end
  | EColumn n => resolves cols n numeric_column
  | _ => False
  end.

Lemma columns_folded_lookup cols n i c : (i, c) ∈ columns_folded cols n <-> cols !! i = Some c /\ fold (colName c) = fold n.
Proof.
  unfold columns_folded. rewrite list_elem_of_filter, elem_of_lookup_imap. cbn. split.
  - intros (E & j & c' & E' & Hj). injection E' as -> ->. done.
  - intros [Hi E]. split; [done|]. by exists i, c.
Qed.

Lemma columns_folded_NoDup cols n : NoDup (columns_folded cols n).
Proof.
  unfold columns_folded. apply NoDup_filter. apply (NoDup_fmap_1 fst).
  assert (fst <$> imap pair cols = seq 0 (length cols)) as ->; [|apply NoDup_seq].
  apply list_eq. intros i. rewrite list_lookup_fmap, list_lookup_imap.
  destruct (cols !! i) as [c|] eqn:E; cbn.
  - symmetry. apply lookup_seq. split; [lia|]. by apply lookup_lt_Some in E.
  - symmetry. apply lookup_seq_ge. by apply lookup_ge_None in E.
Qed.

Lemma resolves_find cols n ok : resolves cols n ok <->
  exists i c, findColumnCI (Some cols) n = Ok (Some (i, c)) /\ isRowIDField c = false /\ ok c = true.
Proof.
  pose proof (columns_folded_lookup cols n) as Hl. pose proof (columns_folded_NoDup cols n) as Hd. unfold resolves, findColumnCI. split.
  - intros (i & c & Hi & Hf & Hu & Hr & Hok). exists i, c. split; [|done].
    assert (forall jd, jd ∈ columns_folded cols n -> jd = (i, c)) as Hone.
    { intros [j d] [Hj Hd']%Hl. pose proof (Hu j d Hj Hd') as ->. congruence. }
    pose proof (proj2 (Hl i c) (conj Hi Hf)) as Hin. destruct (columns_folded cols n) as [|x [|y l]]; [by apply not_elem_of_nil in Hin| |].
    + by rewrite (Hone x) by left.
    + exfalso. apply NoDup_cons in Hd as [Hd _]. apply Hd. rewrite (Hone x) by left. rewrite (Hone y) by (right; left). left.
  - intros (i & c & E & Hr & Hok). destruct (columns_folded cols n) as [|x [|y l]]; try done. injection E as ->.
    destruct (proj1 (Hl i c)) as [Hi Hf]; [left|]. exists i, c. repeat (split; [done|]). split; [|done].
    intros j d Hj Hd'. pose proof (proj2 (Hl j d) (conj Hj Hd')) as Hin. apply list_elem_of_singleton in Hin. congruence.
Qed.

Lemma check_column cols n : check_operand (Some cols) (Node KColumn n "" []) = Ok () <-> resolves cols n numeric_column.
Proof.
  rewrite resolves_find. unfold check_operand. cbn [kind name]. split.
  - intros E. destruct (findColumnCI (Some cols) n) as [[[i c]|]|] eqn:Ef; try done. exists i, c. split; [done|].
    unfold numeric_column, plain_column. destruct (isRowIDField c); [done|]. destruct (_ || _); [done|].
    by destruct (signed_numeric _).
  - intros (i & c & -> & -> & Hn). unfold numeric_column, plain_column in Hn. bool_hyps.
    match goal with Hp : _ || _ = false |- _ => by rewrite Hp | Hp : _ = false, Hq : _ = false, Hs : _ = true |- _ => by rewrite ?Hp, ?Hq, ?Hs end.
Qed.

Lemma literal_kind t k : numericConstantType ParseFloat t = Ok k -> isNumericConstant k = true.
Proof.
  unfold numericConstantType. intros E. destruct (existsb _ _).
  { destruct (ParseFloat _); [|done]. by injection E as <-. }
  destruct (existsb _ _). { destruct (_ <=? _)%nat; [|done]. by injection E as <-. }
  destruct (ParseUint _); [|by injection E as <-]. destruct (_ <=? _)%Z; [by injection E as <-|].
  destruct (_ <=? _)%Z; by injection E as <-.
Qed.

Lemma written_literal t : written ParseFloat (ENumber t) = true -> isNumericConstant (number_kind ParseFloat t) = true.
Proof.
  cbn [written]. intros Hw. bool_hyps. unfold number_kind.
  destruct (numericConstantType ParseFloat t) as [k|] eqn:E; [|done]. by apply literal_kind in E.
Qed.

(** Only a column reference is a column node. *)
Lemma column_node e : kind (node_of ParseFloat e) = KColumn -> exists n, e = EColumn n.
Proof.
  induction e using expr_nested_ind; cbn [node_of kind]; intros E; try done; eauto.
  - by destruct (bool_decide _).
  - destruct (_ && _) eqn:Ef; [|done]. bool_hyps. unfold folds in *. bool_hyps. congruence.
  - by destruct o.
Qed.

Lemma operand_exact cols e : written ParseFloat e = true ->
  check_operand (Some cols) (node_of ParseFloat e) = Ok () <-> numeric_operand cols e.
Proof.
  induction e using expr_nested_ind; intros Hw; cbn [numeric_operand];
    try (split; [unfold check_operand; cbn [node_of kind constant]; done|done]).
  - split; [done|]. intros _. unfold check_operand. cbn [node_of kind constant]. by rewrite written_literal.
  - apply check_column.
  - unfold check_operand. cbn [node_of kind]. split; [|done]. by destruct (bool_decide _).
  - cbn [written] in Hw. specialize (IHe Hw). destruct m; [|by cbn].
    cbn [node_of andb]. destruct (folds (node_of ParseFloat e)) eqn:Ef.
    + unfold folds in Ef. bool_hyps.
      assert (check_operand (Some cols) (node_of ParseFloat e) = Ok ()) as Eok.
      { unfold check_operand. match goal with Hk : kind _ = KConst, Hc : isNumericConstant _ = true |- _ => by rewrite Hk, Hc end. }
      split; [|done]. intros _. destruct e; try (by apply IHe). cbn in *. congruence.
    + split; [done|]. intros Hn. exfalso.
      assert (numeric_operand cols e /\ ~ (exists n, e = EColumn n)) as [He Hc] by (destruct e; split; try done; intros [? ?]; done).
      apply IHe in He. unfold check_operand in He. unfold folds in Ef.
      destruct (kind (node_of ParseFloat e)) eqn:Ek; try done.
      * rewrite bool_decide_true in Ef by done. cbn in Ef. by rewrite Ef in He.
      * by apply Hc, column_node.
  - unfold check_operand. cbn [node_of kind]. split; [|done]. by destruct o.
Qed.

Lemma compare_node e : kind (node_of ParseFloat e) = KCompare -> exists c a b, e = ECompare c a b.
Proof.
  induction e using expr_nested_ind; cbn [node_of kind]; intros E; try done; eauto.
  - by destruct (bool_decide _).
  - destruct (_ && _) eqn:Ef; [|done]. bool_hyps. unfold folds in *. bool_hyps. congruence.
  - by destruct o.
Qed.

(** A CHECK of the grammar is accepted for a table exactly when it is one
    comparison whose two sides are numeric literals, with any minus signs, or
    references that mean exactly one column of the table, not its row ID, which
    has a signed integer or floating-point type and no extension type. *)
Theorem numeric_check_exact (cols : list Column) (e : expr) (sql : string) :
  sb sql = text_of (print 0 e) -> written ParseFloat e = true ->
  sql_size sql = true -> (size ParseFloat e <= 4096)%Z -> need 0 e <= 64 ->
  validateNumericCheckSQL sql (Some cols) = Ok () <->
    exists c a b, e = ECompare c a b /\ numeric_operand cols a /\ numeric_operand cols b.
Proof.
  intros Et Hw Hsz Hs Hn. unfold validateNumericCheckSQL, parsed. rewrite (parse_text ParseFloat uni_class e sql) by done. split.
  - intros E. destruct (bool_decide (kind (node_of ParseFloat e) = KCompare)) eqn:Ek; [|done]. bool_hyps.
    destruct (compare_node e Ek) as (c & a & b & ->). exists c, a, b. split; [done|]. cbn [written] in Hw. bool_hyps.
    cbn [node_of args map_result] in E.
    destruct (check_operand (Some cols) (node_of ParseFloat a)) as [[]|] eqn:Ea; [|done].
    destruct (check_operand (Some cols) (node_of ParseFloat b)) as [[]|] eqn:Eb; [|done].
    split; by apply operand_exact.
  - intros (c & a & b & -> & Ha & Hb). cbn [written] in Hw. bool_hyps. cbn [node_of kind args map_result].
    apply operand_exact in Ha as ->, Hb as ->; done.
Qed.

(** ** Generated columns, on the grammar *)

Definition generated_operand (self : string) (c : Column) : bool :=
  negb (EqualFoldText fold (colName c) self) && generatedPrimitiveArrow c.

(** The expressions a generated column may be. *)
Fixpoint generated_expr (cols : list Column) (self : string) (e : expr) : Prop :=
  match e with
  | ENumber t => number_kind ParseFloat t ∈ ["integer"; "bigint"]
  | EText _ | ENull | EBool _ => True
  | EColumn n => resolves cols n (generated_operand self)
  | ECast e t => typeName (ToLower t) ∈ generated_casts /\ generated_expr cols self e
  | ECall f args =>
      (ToLower f = "coalesce" \/ ToLower f ∈ generated_functions) /\
      (fix all (l : list expr) : Prop := match l with [] => True | a :: l => generated_expr cols self a /\ all l end) args
  | EUnary _ e | ENot e | EIsNull _ e => generated_expr cols self e
  | EBinary o a b => o <> BDiv /\ generated_expr cols self a /\ generated_expr cols self b
  | ECompare _ a b => generated_expr cols self a /\ generated_expr cols self b
  end.

Lemma ok_then {A} (r : result string A) (k : result string ()) :
  (match r with Ok _ => k | Err e => Err e end) = Ok () <-> is_ok r = true /\ k = Ok ().
Proof. destruct r; cbn; [by split; [intros E|intros [_ E]]|]. split; [done|by intros [? _]]. Qed.
Lemma ok_unit (r : result string ()) : is_ok r = true <-> r = Ok ().
Proof. by destruct r as [[]|]. Qed.

Lemma walk_column cols self n : walk (Some cols) self (Node KColumn n "" []) = Ok () <-> resolves cols n (generated_operand self).
Proof.
  rewrite resolves_find. cbn [walk]. rewrite ok_then, ok_unit. unfold generated_column, generated_operand. split.
  - intros [E _]. destruct (findColumnCI (Some cols) n) as [[[i c]|]|] eqn:Ef; try done. exists i, c. split; [done|].
    destruct (isRowIDField c); [done|]. destruct (EqualFoldText _ _ _); [done|]. by destruct (generatedPrimitiveArrow c).
  - intros (i & c & -> & -> & Hn). bool_hyps. split; [|done].
    match goal with Ha : EqualFoldText _ _ _ = false, Hb : generatedPrimitiveArrow c = true |- _ => by rewrite Ha, Hb end.
Qed.

Lemma ok_if (b : bool) e : is_ok (if b then Ok () else Err (A := ()) (E := string) e) = true <-> b = true.
Proof. by destruct b. Qed.

Lemma walk_exact cols self e : written ParseFloat e = true ->
  walk (Some cols) self (node_of ParseFloat e) = Ok () <-> generated_expr cols self e.
Proof.
  induction e using expr_nested_ind; intros Hw; cbn [generated_expr written] in *.
  - cbn [node_of walk]. rewrite ok_then, ok_if, bool_decide_eq_true. pose proof (written_literal t Hw) as Hk.
    unfold isNumericConstant in Hk. bool_hyps. unfold generated_constants. revert Hk. generalize (number_kind ParseFloat t) as k.
    intros k. rewrite !elem_of_cons, elem_of_nil. intros Hk. split; [intros [Hc _]|intros Hc; split; [|done]]; intuition congruence.
  - done.
  - done.
  - done.
  - apply walk_column.
  - bool_hyps. cbn [node_of walk]. rewrite ok_then, ok_if, bool_decide_eq_true. rewrite ok_then, ok_unit, IHe by done. tauto.
  - bool_hyps. cbn [node_of walk]. rewrite ok_then.
    assert (is_ok (match (if bool_decide (ToLower f = "coalesce") then KCoalesce else KFunc) with
      | KConst => if bool_decide ("" ∈ generated_constants) then Ok () else Err ("unsupported scalar literal type ")
      | KColumn => generated_column (Some cols) self (ToLower f)
      | KCast => if bool_decide (ToLower f ∈ generated_casts) then Ok () else Err "unsupported scalar cast"
      | KCompare | KAnd | KOr | KNot | KIsNull | KCoalesce => Ok ()
      | KFunc => if bool_decide (ToLower f ∈ generated_functions) then Ok () else Err ("unsupported scalar function " +:+ ToLower f) end) = true
      <-> (ToLower f = "coalesce" \/ ToLower f ∈ generated_functions)) as Hf.
    { destruct (bool_decide (ToLower f = "coalesce")) eqn:Ec; bool_hyps; [by split; [left|]|]. rewrite ok_if, bool_decide_eq_true. tauto. }
    match goal with |- ?x /\ _ <-> _ => assert (x <-> (ToLower f = "coalesce" \/ ToLower f ∈ generated_functions)) as -> by exact Hf end.
    apply and_iff_compat_l.
    match goal with Hl : forallb _ args = true |- _ => revert Hl end. clear Hf.
    match goal with Hf : function_name _ _ = true |- _ => clear Hf end. induction H0 as [|a l Ha Hl IH]; intros Hall; [done|].
    cbn [forallb map] in *. bool_hyps. rewrite ok_then, ok_unit, Ha, IH by done. tauto.
  - cbn [node_of]. destruct (m && folds (node_of ParseFloat e)); [by apply IHe|]. cbn [walk]. rewrite ok_then, ok_if, ok_then, ok_unit, IHe by done.
    split; [tauto|]. intros Hg. split; [by destruct m|done].
  - bool_hyps. cbn [node_of walk]. rewrite ok_then, ok_then, ok_then, !ok_unit, IHe1, IHe2 by done.
    match goal with |- ?x /\ _ <-> _ => assert (x <-> o <> BDiv) as -> by (destruct o; by split) end. tauto.
  - bool_hyps. cbn [node_of walk].
    rewrite ok_then, ok_then, !ok_unit, IHe1, IHe2 by done. tauto.
  - cbn [node_of walk]. rewrite ok_then, !ok_unit, IHe by done. tauto.
  - cbn [node_of walk]. rewrite ok_then, !ok_unit, IHe by done. tauto.
Qed.

(** The expression of a generated column is accepted exactly when it is built
    from integer, text, Boolean and NULL literals, references that mean exactly
    one other column of Boolean, signed integer or string type, casts to these
    types, comparisons, AND, OR, NOT, IS [NOT] NULL, COALESCE, and + - * % || abs
    lower upper. *)
Theorem generated_check_exact (cols : list Column) (self : string) (e : expr) (sql : string) :
  sb sql = text_of (print 0 e) -> written ParseFloat e = true ->
  sql_size sql = true -> (size ParseFloat e <= 4096)%Z -> need 0 e <= 64 ->
  validateGeneratedSQL sql (Some cols) self = Ok () <-> generated_expr cols self e.
Proof.
  intros Et Hw Hsz Hs Hn. unfold validateGeneratedSQL, parsed. rewrite (parse_text ParseFloat uni_class e sql) by done.
  by apply walk_exact.
Qed.
End checks.

(** ** Examples *)

Module CheckExample.
#[local] Existing Instance AsciiText.ascii_text.
Import GrammarExample.

Definition column (n : string) (t : DataType) (md : list (string * string)) : Column :=
  {| colName := n; colType := PlainType t; colNullable := true; colMetadata := md |}.
Definition table : list Column :=
  [column "id" INT64 [("is_row_id", "")]; column "Price" FLOAT64 []; column "note" STRING []; column "note2" STRING []].
Definition check (sql : string) : result string () := validateNumericCheckSQL floats others ascii_lower sql (Some table).
Definition generated (sql self : string) : result string () := validateGeneratedSQL floats others ascii_lower sql (Some table) self.

Example check_accepts : check "price > -(5)" = Ok ().
Proof. vm_compute. reflexivity. Qed.
Example check_row_id : check "id > 5" = Err "CHECK references a missing or synthetic column id".
Proof. vm_compute. reflexivity. Qed.
Example generated_accepts : generated "upper(note) || coalesce(note, 'x')" "note2" = Ok ().
Proof. vm_compute. reflexivity. Qed.

Definition price_check : expr := ECompare CGt (EColumn "price") (EUnary true (EUnary true (ENumber "5"))).
Definition price_text : string := bstr (text_of (print 0 price_check)).

Ltac limits := first [reflexivity | by rewrite sb_bstr | (vm_compute; reflexivity) | (vm_compute; discriminate) | (vm_compute; repeat constructor)].

Lemma price_resolves : resolves ascii_lower table "price" numeric_column.
Proof.
  exists 1, (column "Price" FLOAT64 []). repeat (split; [reflexivity|]). split; [|by split].
  intros [|[|[|[|j]]]] d Hd E; try done; injection Hd as <-; discriminate E.
Qed.
Lemma numeric_check_exact_witness : validateNumericCheckSQL floats others ascii_lower price_text (Some table) = Ok ().
Proof.
  apply (numeric_check_exact floats others ascii_lower table price_check price_text).
  - unfold price_text. by rewrite sb_bstr.
  - vm_compute. reflexivity.
  - vm_compute. reflexivity.
  - vm_compute. discriminate.
  - vm_compute. repeat constructor.
  - eexists _, _, _. split; [reflexivity|]. split; [apply price_resolves|exact I].
Defined.

Definition note_expr : expr := EBinary BConcat (ECall "upper" [EColumn "NOTE"]) (ECast (EUnary true (ENumber "7")) "text").
Definition note_text : string := bstr (text_of (print 0 note_expr)).
Lemma note_resolves : resolves ascii_lower table "NOTE" (generated_operand ascii_lower "note2").
Proof.
  exists 2, (column "note" STRING []). repeat (split; [reflexivity|]). split; [|by split].
  intros [|[|[|[|j]]]] d Hd E; try done; injection Hd as <-; discriminate E.
Qed.
Lemma generated_check_exact_witness : validateGeneratedSQL floats others ascii_lower note_text (Some table) "note2" = Ok ().
Proof.
  apply (generated_check_exact floats others ascii_lower table "note2" note_expr note_text).
  - unfold note_text. by rewrite sb_bstr.
  - vm_compute. reflexivity.
  - vm_compute. reflexivity.
  - vm_compute. discriminate.
  - vm_compute. repeat constructor.
  - cbn [generated_expr note_expr]. split; [done|]. split; [split; [right; vm_compute; set_solver|split; [apply note_resolves|done]]|].
    split; [vm_compute; set_solver|]. vm_compute. left.
Defined.
End CheckExample.
