(* ===== verification/ConstraintRecords.v ===== *)
(** * ConstraintRecords: canonical constraint records (vgi/constraint_records.go)

    A table's constraints are records its provider attests. This file has their
    encoding, the checks of a single record when it is made, the checks of a
    table's records when it is served, and the nullability it is served with.

    A record is a row of a protocol schema inside rows of others; the Arrow IPC
    encoding of a row is a parameter. *)

From S2P Require Import Prelude Bytes Strings Unicode Strconv ArrowTypes.
From S2P Require Import SqlTokens SqlParser SqlGrammar Columns SqlChecks.

(** ** Records *)

Definition ConstraintNotNull : string := "NOT_NULL".
Definition ConstraintPrimaryKey : string := "PRIMARY_KEY".
Definition ConstraintUnique : string := "UNIQUE".
Definition ConstraintCheck : string := "CHECK".
Definition ConstraintForeignKey : string := "FOREIGN_KEY".
Definition ConstraintEnforced : string := "ENFORCED".
Definition ConstraintMetadataOnly : string := "METADATA_ONLY".
Definition ConstraintAllRows : string := "ALL_ROWS".
Definition ConstraintFutureWrites : string := "FUTURE_WRITES".
Definition ConstraintUnvalidated : string := "UNVALIDATED".
Definition scalarExpressionProfile : string := "vgi.expression.duckdb.scalar.v1".
Definition GeneratedExpressionKey : string := "vgi.column.generated.v1".

Abbreviation path := (list string).

Record ConstraintReference := {
  RefSchemaPath : path;
  RefTable : string;
  RefColumns : list path;
  RefConstraintID : string
}.
Record ConstraintRecordSpec := {
  SchemaPath : path;
  Table : string;
  ID : string;
  Kind : string;
  Columns : list path;
  Enforcement : string;
  Validation : string;
  DeclaredName : string;
  CheckSQL : string;
  References : option ConstraintReference
}.

(** ** Names and paths *)

Definition mebi8 : Z := 8 * 1024 * 1024.
Definition blen (b : bytes) : Z := Z.of_nat (length b).
Definition slen (s : string) : Z := blen (sb s).

Definition validIdentifier (v : string) : bool :=
  negb (bool_decide (v = "")) && (slen v <=? 4096)%Z && negb (bool_decide (x00 ∈ sb v)).

(** [pathKey]: every component behind its length. *)
Definition key_part (part : string) : bytes := sb (Itoa (slen part)) ++ x3a :: sb part.
Definition pathKey (p : path) : string := bstr (flat_map key_part p).

(** One path of [checkColumnPaths], and all of them with the keys seen. *)
Definition checkPath (nested : bool) (p : path) : result string () :=
  if bool_decide (p = []) || (64 <? length p)%nat then Err "empty or oversized column path" else
  if negb nested && negb (bool_decide (length p = 1)) then Err "DuckDB supports nested constraint paths only for NOT_NULL" else
  if forallb validIdentifier p then Ok ()
  else Err "column path components must be nonempty, at most 4096 bytes, without NUL".
Fixpoint checkPaths (nested : bool) (seen : gset string) (paths : list path) : result string () :=
  match paths with
  | [] => Ok ()
  | p :: paths =>
      let? _ := checkPath nested p in
      if bool_decide (pathKey p ∈ seen) then Err "duplicate column path"
      else checkPaths nested ({[pathKey p]} ∪ seen) paths
  end.
Definition checkColumnPaths (paths : list path) (nested : bool) : result string () :=
  if (1024 <? length paths)%nat then Err "too many column paths" else checkPaths nested ∅ paths.

(** A path is its key. *)
Lemma key_part_split a b r s : key_part a ++ r = key_part b ++ s -> (slen a < 2 ^ 63)%Z -> (slen b < 2 ^ 63)%Z -> a = b /\ r = s.
Proof.
  unfold key_part. intros E Ha Hb. rewrite <- !app_assoc in E. cbn [app] in E.
  assert (forall n, (0 <= n)%Z -> x3a ∉ sb (Itoa n)) as Hd.
  { intros n Hn. unfold Itoa. destruct (n <? 0)%Z eqn:En; bool_hyps; [lia|]. rewrite sb_bstr. intros Hin.
    pose proof (udigits_digits 20 n [] Hn eq_refl) as Hall. apply list_elem_of_In in Hin.
    by pose proof (proj1 (List.forallb_forall _ _) Hall _ Hin). }
  assert (forall s, 0 <= slen s)%Z as Hpos by (intros; unfold slen, blen; lia).
  apply nul_split in E as [E1 E2]; [|apply Hd, Hpos..]. apply sb_inj, Itoa_inj in E1;
    [|unfold int64_range; pose proof (Hpos a); lia|unfold int64_range; pose proof (Hpos b); lia].
  unfold slen, blen in E1. apply Nat2Z.inj in E1. apply app_inj_1 in E2 as [E2 ->]; [|done]. by apply sb_inj in E2.
Qed.

Definition short (p : path) : Prop := Forall (fun s => slen s < 2 ^ 63)%Z p.
Lemma pathKey_inj p q : short p -> short q -> pathKey p = pathKey q -> p = q.
Proof.
  unfold pathKey. intros Hp Hq E. apply bstr_inj in E. revert q Hq E. induction Hp as [|a p Ha Hp IH]; intros q Hq E.
  - destruct q as [|b q]; [done|]. cbn in E. unfold key_part in E. by destruct (sb (Itoa (slen b))).
  - destruct Hq as [|b q Hb Hq]; [cbn in E; unfold key_part in E; by destruct (sb (Itoa (slen a)))|].
    cbn [flat_map] in E. apply key_part_split in E as [-> E]; [|done..]. f_equal. by apply IH.
Qed.

(** ** Rows *)

Record CatalogObjectRef := { ref_kind : string; ref_schema_path : path; ref_name : string; ref_owner : option string }.
(** A missing field is NULL. *)
Record EvaluationContext := {
  timezone : option string; collation : option string; default_order : option string;
  default_null_order : option string; preserve_insertion_order : option bool
}.
Record SqlExpression := { expr_sql : string; expr_profile : string; expr_schema_path : path; expr_context : EvaluationContext }.
Record ForeignKeyDefinition := {
  referenced_table : bytes; referenced_column_paths : list path; fk_match : string; on_update : string; on_delete : string
}.
Record ConstraintDefinition := {
  def_kind : string; column_paths : list path; declared_name : option string;
  check_expression : option bytes; foreign_key : option bytes
}.
Record ConstraintInfo := {
  info_ref : bytes; definition : bytes; enforcement : string; validation : string; referenced_constraint : option bytes
}.

Inductive Row :=
| RefRow (r : CatalogObjectRef)
| ExpressionRow (e : SqlExpression)
| ForeignKeyRow (f : ForeignKeyDefinition)
| DefinitionRow (d : ConstraintDefinition)
| InfoRow (i : ConstraintInfo).

Definition default_context : EvaluationContext :=
  {| timezone := Some "UTC"; collation := Some "binary"; default_order := Some "asc";
     default_null_order := Some "nulls_last"; preserve_insertion_order := Some true |}.
Definition defaultEvaluationContext (c : EvaluationContext) : bool :=
  bool_decide (timezone c = Some "UTC") && bool_decide (collation c = Some "binary") &&
  bool_decide (default_order c = Some "asc") && bool_decide (default_null_order c = Some "nulls_last") &&
  bool_decide (preserve_insertion_order c = Some true).

Section records.
Context `{Unicode} (ParseFloat : string -> bool) (uni_class : bytes -> rune_class) (fold : string -> string).
(** One row as one IPC stream: [write_row] fails when the row is not one of its
    schema; [read_row] takes exactly one complete row whose required fields are
    not NULL. *)
Context (write_row : Row -> result string bytes) (read_row : bytes -> result string Row).

Definition readCanonicalRow (data : bytes) : result string Row :=
  if bool_decide (data = []) || (mebi8 <? blen data)%Z then Err "invalid record size" else read_row data.
Definition mismatch {A} : result string A := Err "record does not match the canonical schema".
Definition readObjectRef (data : bytes) : result string CatalogObjectRef :=
  let? r := readCanonicalRow data in match r with RefRow r => Ok r | _ => mismatch end.

Definition catalogObjectRef (kind : string) (schemaPath : path) (n : string) (owner : option string) : result string bytes :=
  write_row (RefRow {| ref_kind := kind; ref_schema_path := schemaPath; ref_name := n; ref_owner := owner |}).

(** ** Encoding *)

(** The schema of the referenced table: by default the owner's. *)
Definition ref_schema (spec : ConstraintRecordSpec) (ref : ConstraintReference) : path :=
  match RefSchemaPath ref with [] => SchemaPath spec | p => p end.

Definition encodeConstraintRecord (spec : ConstraintRecordSpec) : result string bytes :=
  let? check :=
    if bool_decide (Kind spec = ConstraintCheck) then
      let? b := write_row (ExpressionRow {| expr_sql := CheckSQL spec; expr_profile := scalarExpressionProfile;
                                             expr_schema_path := SchemaPath spec; expr_context := default_context |}) in
      Ok (Some b)
    else Ok None in
  let? (foreign, referenced) :=
    match References spec with
    | None => Ok (None, None)
    | Some ref =>
        let? table := catalogObjectRef "table" (ref_schema spec ref) (RefTable ref) None in
        let? foreign := write_row (ForeignKeyRow {| referenced_table := table; referenced_column_paths := RefColumns ref;
                                                    fk_match := "SIMPLE"; on_update := "NO_ACTION"; on_delete := "NO_ACTION" |}) in
        let? key := catalogObjectRef "constraint" (ref_schema spec ref) (RefConstraintID ref) (Some (RefTable ref)) in
        Ok (Some foreign, Some key)
    end in
  let? def := write_row (DefinitionRow {| def_kind := Kind spec; column_paths := Columns spec;
                                          declared_name := if bool_decide (DeclaredName spec = "") then None else Some (DeclaredName spec);
                                          check_expression := check; foreign_key := foreign |}) in
  let? ref := catalogObjectRef "constraint" (SchemaPath spec) (ID spec) (Some (Table spec)) in
  write_row (InfoRow {| info_ref := ref; definition := def; enforcement := Enforcement spec;
                        validation := Validation spec; referenced_constraint := referenced |}).

(** A foreign key of a record that is made. *)
Definition checkReference (spec : ConstraintRecordSpec) (ref : ConstraintReference) : result string () :=
  check! bool_decide (RefSchemaPath ref = []) || bool_decide (RefSchemaPath ref = SchemaPath spec)
    else "foreign key must reference a table in its own schema; DuckDB refuses cross-schema keys" in
  check! bool_decide (length (RefColumns ref) = length (Columns spec))
    else "foreign key local and referenced arity must match" in
  let? _ := checkColumnPaths (RefColumns ref) false in
  check! validIdentifier (RefTable ref) && validIdentifier (RefConstraintID ref)
    else "foreign key needs the referenced table and its key's constraint id" in
  Ok ().

Definition checkSpec (spec : ConstraintRecordSpec) : result string () :=
  check! validIdentifier (ID spec) else "constraint id must be nonempty, at most 4096 bytes, without NUL" in
  check! validIdentifier (Table spec) else "owning table is required" in
  check! match SchemaPath spec with [p] => validIdentifier p | _ => false end
    else "SchemaPath must be the owning table's one-component schema path; DuckDB reads no other" in
  check! bool_decide (Kind spec ∈ [ConstraintNotNull; ConstraintPrimaryKey; ConstraintUnique; ConstraintCheck; ConstraintForeignKey])
    else "unknown kind" in
  check! bool_decide (Enforcement spec ∈ [ConstraintEnforced; ConstraintMetadataOnly])
    else "enforcement must be ENFORCED or METADATA_ONLY" in
  check! bool_decide (Validation spec ∈ [ConstraintAllRows; ConstraintFutureWrites; ConstraintUnvalidated])
    else "validation must be ALL_ROWS, FUTURE_WRITES or UNVALIDATED" in
  check! bool_decide (Enforcement spec = ConstraintEnforced) && bool_decide (Validation spec = ConstraintAllRows)
    else "DuckDB accepts only ENFORCED + ALL_ROWS records" in
  check! bool_decide (DeclaredName spec = "") || validIdentifier (DeclaredName spec)
    else "declared name must be at most 4096 bytes without NUL" in
  let isCheck := bool_decide (Kind spec = ConstraintCheck) in
  check! Bool.eqb isCheck (negb (bool_decide (CheckSQL spec = ""))) else "CheckSQL is required for CHECK and only CHECK" in
  check! negb (isCheck && negb (bool_decide (Columns spec = []))) else "CHECK takes no column paths" in
  check! negb (negb isCheck && bool_decide (Columns spec = [])) else "column paths required" in
  let notNull := bool_decide (Kind spec = ConstraintNotNull) in
  check! negb (notNull && negb (bool_decide (length (Columns spec) = 1))) else "NOT_NULL requires exactly one column path" in
  let? _ := checkColumnPaths (Columns spec) notNull in
  let? _ := if isCheck then validateNumericCheckSQL ParseFloat uni_class fold (CheckSQL spec) None else Ok () in
  check! Bool.eqb (bool_decide (Kind spec = ConstraintForeignKey)) (match References spec with Some _ => true | None => false end)
    else "References is required for FOREIGN_KEY and only FOREIGN_KEY" in
  match References spec with None => Ok () | Some ref => checkReference spec ref end.

Definition ConstraintRecord (spec : ConstraintRecordSpec) : result string bytes :=
  let? _ := checkSpec spec in encodeConstraintRecord spec.

(** ** Decoding *)

Record decodedConstraint := {
  spec : ConstraintRecordSpec;
  checkProfile : string;
  checkSchemaPath : path;
  checkDefaultContext : bool;
  fkMatch : string; fkOnUpdate : string; fkOnDelete : string;
  targetSchemaPath : path;
  targetOwner : string;
  hasForeignKey : bool;
  hasTarget : bool
}.

Definition readExpression (data : option bytes) : result string (option SqlExpression) :=
  match data with
  | None => Ok None
  | Some data => let? r := readCanonicalRow data in match r with ExpressionRow e => Ok (Some e) | _ => mismatch end
  end.
Definition readForeignKey (data : option bytes) : result string (option (ForeignKeyDefinition * CatalogObjectRef)) :=
  match data with
  | None => Ok None
  | Some data =>
      let? r := readCanonicalRow data in
      match r with
      | ForeignKeyRow f =>
          let? table := readObjectRef (referenced_table f) in
          if bool_decide (ref_kind table = "table") && bool_decide (ref_owner table = None) then Ok (Some (f, table))
          else Err "ForeignKeyDefinition.referenced_table must be a table reference"
      | _ => mismatch
      end
  end.
Definition readTarget (data : option bytes) : result string (option (CatalogObjectRef * string)) :=
  match data with
  | None => Ok None
  | Some data =>
      let? key := readObjectRef data in
      match ref_owner key with
      | Some owner => if bool_decide (ref_kind key = "constraint") then Ok (Some (key, owner))
                      else Err "ConstraintInfo.referenced_constraint must be an owned constraint reference"
      | None => Err "ConstraintInfo.referenced_constraint must be an owned constraint reference"
      end
  end.

Definition decodeConstraintRecord (data : bytes) : result string decodedConstraint :=
  let? r := readCanonicalRow data in
  match r with
  | InfoRow info =>
      let? ref := readObjectRef (info_ref info) in
      if negb (bool_decide (ref_kind ref = "constraint")) then Err "ConstraintInfo.ref is no constraint" else
      let? d := readCanonicalRow (definition info) in
      match d with
      | DefinitionRow def =>
          let? expr := readExpression (check_expression def) in
          let? fk := readForeignKey (foreign_key def) in
          let? target := readTarget (referenced_constraint info) in
          let text (f : SqlExpression -> string) := match expr with Some e => f e | None => "" end in
          let fk_text (f : ForeignKeyDefinition -> string) := match fk with Some (k, _) => f k | None => "" end in
          Ok {| spec :=
                  {| SchemaPath := ref_schema_path ref; Table := default "" (ref_owner ref); ID := ref_name ref;
                     Kind := def_kind def; Columns := column_paths def;
                     Enforcement := enforcement info; Validation := validation info;
                     DeclaredName := default "" (declared_name def); CheckSQL := text expr_sql;
                     References :=
                       match fk with
                       | None => None
                       | Some (f, table) =>
                           Some {| RefSchemaPath := ref_schema_path table; RefTable := ref_name table;
                                   RefColumns := referenced_column_paths f;
                                   RefConstraintID := match target with Some (key, _) => ref_name key | None => "" end |}
                       end |};
                checkProfile := text expr_profile;
                checkSchemaPath := match expr with Some e => expr_schema_path e | None => [] end;
                checkDefaultContext := match expr with Some e => defaultEvaluationContext (expr_context e) | None => false end;
                fkMatch := fk_text fk_match; fkOnUpdate := fk_text on_update; fkOnDelete := fk_text on_delete;
                targetSchemaPath := match target with Some (key, _) => ref_schema_path key | None => [] end;
                targetOwner := match target with Some (_, owner) => owner | None => "" end;
                hasForeignKey := match fk with Some _ => true | None => false end;
                hasTarget := match target with Some _ => true | None => false end |}
      | _ => mismatch
      end
  | _ => mismatch
  end.

Definition ReadConstraintRecord (data : bytes) : result string ConstraintRecordSpec :=
  let? d := decodeConstraintRecord data in Ok (spec d).

(** ** The records of a table *)

(** What the records read so far have in common: the paths that must not be NULL,
    the ids, the labels with their record, the primary key, and the bytes read. *)
Record tableState := {
  required : gset string; ids : gset string; labels : gmap string string; primaryKey : string; total : Z
}.
Definition no_records : tableState := {| required := ∅; ids := ∅; labels := ∅; primaryKey := ""; total := 0 |}.

(** The last row-ID column. *)
Definition rowIDIndex (cols : list Column) : option nat :=
  list.last (omap (fun ic : nat * Column => if isRowIDField (snd ic) then Some (fst ic) else None) (imap pair cols)).

(** The children of a field called [part], when there is exactly one. *)
Fixpoint descend (c : Column) (p : path) : result string Column :=
  match p with
  | [] => Ok c
  | part :: p =>
      match ordinaryStructChildren c with
      | None => Err "path must traverse ordinary STRUCT fields"
      | Some children =>
          match filter (fun d => colName d = part) children with
          | [] => Err ("missing nested field " +:+ part)
          | [d] => descend d p
          | _ => Err ("ambiguous nested field " +:+ part)
          end
      end
  end.
(** A top-level column that is not the row ID. *)
Definition topLevel (cols : list Column) (n : string) : option Column :=
  match topLevelIndex cols n with
  | Some i => if bool_decide (rowIDIndex cols = Some i) then None else cols !! i
  | None => None
  end.
Definition resolveNotNullPath (cols : list Column) (p : path) : result string () :=
  match p with
  | [] => Err "references a missing, ambiguous or row-id column"
  | n :: p =>
      match topLevel cols n with
      | None => Err "references a missing, ambiguous or row-id column"
      | Some c => let? _ := descend c p in Ok ()
      end
  end.

Definition checkIdentity (schemaPath : option path) (table : string) (s : tableState) (r : ConstraintRecordSpec) : result string () :=
  check! validIdentifier (ID r) && match SchemaPath r with [p] => validIdentifier p | _ => false end
    else "identity must be a nonempty id with a one-component schema path" in
  check! bool_decide (Table r = table) && match schemaPath with Some p => bool_decide (SchemaPath r = p) | None => true end
    else "belongs to another table" in
  check! negb (bool_decide (ID r ∈ ids s)) else "duplicate constraint id" in
  check! bool_decide (Enforcement r = ConstraintEnforced) && bool_decide (Validation r = ConstraintAllRows)
    else "DuckDB accepts only ENFORCED + ALL_ROWS records" in
  check! bool_decide (DeclaredName r = "") || validIdentifier (DeclaredName r) else "invalid declared name" in
  check! bool_decide (DeclaredName r = "") || bool_decide (labels s !! ToLower (DeclaredName r) = None)
    else "declared name duplicates another constraint's" in
  Ok ().
Definition take_identity (s : tableState) (r : ConstraintRecordSpec) (n : Z) : tableState :=
  {| required := required s; ids := {[ID r]} ∪ ids s;
     labels := if bool_decide (DeclaredName r = "") then labels s else <[ToLower (DeclaredName r) := ID r]> (labels s);
     primaryKey := primaryKey s; total := total s + n |}.
Definition require (s : tableState) (ps : list path) : tableState :=
  {| required := list_to_set (map pathKey ps) ∪ required s; ids := ids s; labels := labels s;
     primaryKey := primaryKey s; total := total s |}.
Definition with_primary (s : tableState) (id : string) : tableState :=
  {| required := required s; ids := ids s; labels := labels s; primaryKey := id; total := total s |}.

Definition checkCheck (cols : option (list Column)) (d : decodedConstraint) : result string () :=
  let r := spec d in
  check! bool_decide (checkProfile d = scalarExpressionProfile) else "unsupported CHECK expression profile" in
  check! bool_decide (checkSchemaPath d = SchemaPath r) else "CHECK expression belongs to another schema" in
  check! checkDefaultContext d else "unsupported CHECK evaluation context" in
  validateNumericCheckSQL ParseFloat uni_class fold (CheckSQL r) cols.

(** The columns of a key: top-level ones that are there. *)
Fixpoint checkKeyColumns (cols : option (list Column)) (ps : list path) : result string () :=
  match ps with
  | [] => Ok ()
  | p :: ps =>
      match p with
      | [n] =>
          match cols with
          | None => checkKeyColumns cols ps
          | Some cs => match topLevel cs n with
                       | Some _ => checkKeyColumns cols ps
                       | None => Err "column is missing, ambiguous or the row-id column"
                       end
          end
      | _ => Err "DuckDB supports nested constraint paths only for NOT_NULL"
      end
  end.

Definition checkForeignKey (d : decodedConstraint) : result string () :=
  let r := spec d in
  match References r with
  | None => Err "runtime error: invalid memory address or nil pointer dereference"
  | Some ref =>
      check! bool_decide (RefSchemaPath ref = SchemaPath r) && bool_decide (targetSchemaPath d = SchemaPath r) &&
             bool_decide (targetOwner d = RefTable ref)
        else "FOREIGN KEY must reference an identified key of a table in the same schema" in
      check! bool_decide (length (RefColumns ref) = length (Columns r)) else "FOREIGN KEY arity mismatch" in
      check! forallb (fun p => bool_decide (length p = 1)) (RefColumns ref)
        else "DuckDB supports only top-level FOREIGN KEY columns" in
      check! bool_decide (fkMatch d = "SIMPLE") else "DuckDB supports only MATCH SIMPLE foreign keys" in
      check! bool_decide (fkOnUpdate d ∈ ["NO_ACTION"; "RESTRICT"]) && bool_decide (fkOnDelete d ∈ ["NO_ACTION"; "RESTRICT"])
        else "DuckDB supports only NO ACTION/RESTRICT referential actions" in
      Ok ()
  end.

(** What a record says of the table, after its identity. *)
Definition checkBody (cols : option (list Column)) (s : tableState) (d : decodedConstraint) : result string tableState :=
  let r := spec d in
  let? _ := checkColumnPaths (Columns r) true in
  let isCheck := bool_decide (Kind r = ConstraintCheck) in
  check! Bool.eqb isCheck (negb (bool_decide (CheckSQL r = ""))) && Bool.eqb isCheck (bool_decide (Columns r = []))
    else "inconsistent CHECK payload or column paths" in
  let isFK := bool_decide (Kind r = ConstraintForeignKey) in
  check! Bool.eqb isFK (hasForeignKey d) && Bool.eqb isFK (hasTarget d) else "inconsistent FOREIGN KEY payload" in
  if isCheck then let? _ := checkCheck cols d in Ok s
  else if bool_decide (Kind r = ConstraintNotNull) then
    match Columns r with
    | [p] =>
        let? _ := match cols with Some cs => resolveNotNullPath cs p | None => Ok () end in
        Ok (require s [p])
    | _ => Err "NOT_NULL requires exactly one column path"
    end
  else
    check! bool_decide (Kind r ∈ [ConstraintPrimaryKey; ConstraintUnique; ConstraintForeignKey]) else "unknown constraint kind" in
    let? _ := checkKeyColumns cols (Columns r) in
    if bool_decide (Kind r = ConstraintPrimaryKey) then
      check! bool_decide (primaryKey s = "") else "a table has at most one PRIMARY KEY" in
      Ok (with_primary (require s (Columns r)) (ID r))
    else if isFK then let? _ := checkForeignKey d in Ok s
    else Ok s.

Fixpoint checkRecords (schemaPath : option path) (table : string) (cols : option (list Column)) (s : tableState)
    (constraints : list bytes) : result string tableState :=
  match constraints with
  | [] => Ok s
  | data :: constraints =>
      check! negb (bool_decide (data = []) || (mebi8 <? blen data)%Z || (mebi8 <? total s + blen data)%Z)
        else "constraint records exceed the 8 MiB limit" in
      let? d := decodeConstraintRecord data in
      let? _ := checkIdentity schemaPath table s (spec d) in
      let? s := checkBody cols (take_identity s (spec d) (blen data)) d in
      checkRecords schemaPath table cols s constraints
  end.
Definition checkTableConstraints (schemaPath : option path) (table : string) (cols : option (list Column))
    (constraints : list bytes) : result string (gset string) :=
  check! (length constraints <=? 1024)%nat else "too many constraints" in
  let? s := checkRecords schemaPath table cols no_records constraints in Ok (required s).

(** ** Nullability *)

(** A field as it is served: non-nullable when its path is required. *)
Fixpoint serve_column (req : gset string) (top : bool) (prefix : path) (c : Column) : result string Column :=
  if top && isRowIDField c then Ok c else
  let 'MkColumn n t _ md := c in
  let p := prefix ++ [n] in
  let needed := bool_decide (pathKey p ∈ req) in
  if needed && top && has_key md GeneratedExpressionKey
  then Err "DuckDB requires generated columns to be nullable; no NOT_NULL/PRIMARY_KEY record may name it" else
  match t with
  | StructType fs =>
      if existsb (fun kv => logical_key (fst kv)) md then Ok (MkColumn n t (negb needed) md) else
      let? fs := (fix all (l : list Column) : result string (list Column) :=
                    match l with
                    | [] => Ok []
                    | d :: l => let? d := serve_column req false p d in let? l := all l in Ok (d :: l)
                    end) fs in
      Ok (MkColumn n (StructType fs) (negb needed) md)
  | _ => Ok (MkColumn n t (negb needed) md)
  end.
Definition servedNullability (cols : list Column) (req : gset string) : result string (list Column) :=
  map_result (serve_column req true []) cols.

Definition ServedTableColumns (schemaPath : path) (table : string) (cols : option (list Column)) (constraints : list bytes)
  : result string (option (list Column)) :=
  if negb (bool_decide (length schemaPath = 1)) && negb (bool_decide (constraints = []))
  then Err "constraint records need a one-component schema path" else
  let? req := checkTableConstraints (Some schemaPath) table cols constraints in
  match cols with
  | None => Ok None
  | Some cols => let? served := servedNullability cols req in Ok (Some served)
  end.
(** The deprecated check, which cannot see the owner's schema. *)
Definition ValidateConstraintRecords (table : string) (cols : option (list Column)) (constraints : list bytes) : result string () :=
  let? req := checkTableConstraints None table cols constraints in
  match cols with
  | None => Ok ()
  | Some cols => let? _ := servedNullability cols req in Ok ()
  end.

(** ** A record read back *)

Section codec.
Context (write_read : forall r b, write_row r = Ok b -> read_row b = Ok r /\ b <> []).
(** The rows inside a row are stored in it. *)
Definition rows_inside (r : Row) : list bytes :=
  match r with
  | ForeignKeyRow f => [referenced_table f]
  | DefinitionRow d => option_list (check_expression d) ++ option_list (foreign_key d)
  | InfoRow i => info_ref i :: definition i :: option_list (referenced_constraint i)
  | _ => []
  end.
Context (inside : forall r b n, write_row r = Ok b -> n ∈ rows_inside r -> (blen n <= blen b)%Z).

Lemma row_read_back r b : write_row r = Ok b -> (blen b <= mebi8)%Z -> readCanonicalRow b = Ok r.
Proof using write_read.
  intros Hw Hb. destruct (write_read r b Hw) as [Hr Hne]. unfold readCanonicalRow.
  rewrite bool_decide_false by done. destruct (_ <? _)%Z eqn:E; [bool_hyps; lia|]. done.
Qed.

(** What a record decodes to. *)
Definition canonical (s : ConstraintRecordSpec) : ConstraintRecordSpec :=
  {| SchemaPath := SchemaPath s; Table := Table s; ID := ID s; Kind := Kind s; Columns := Columns s;
     Enforcement := Enforcement s; Validation := Validation s; DeclaredName := DeclaredName s;
     CheckSQL := if bool_decide (Kind s = ConstraintCheck) then CheckSQL s else "";
     References :=
       match References s with
       | None => None
       | Some ref => Some {| RefSchemaPath := ref_schema s ref; RefTable := RefTable ref; RefColumns := RefColumns ref;
                             RefConstraintID := RefConstraintID ref |}
       end |}.
Definition decoded_of (s : ConstraintRecordSpec) : decodedConstraint :=
  let check := bool_decide (Kind s = ConstraintCheck) in
  let fk {A} (f : ConstraintReference -> A) (d : A) := match References s with Some ref => f ref | None => d end in
  {| spec := canonical s;
     checkProfile := if check then scalarExpressionProfile else "";
     checkSchemaPath := if check then SchemaPath s else [];
     checkDefaultContext := check;
     fkMatch := fk (fun _ => "SIMPLE") ""; fkOnUpdate := fk (fun _ => "NO_ACTION") ""; fkOnDelete := fk (fun _ => "NO_ACTION") "";
     targetSchemaPath := fk (ref_schema s) []; targetOwner := fk RefTable "";
     hasForeignKey := fk (fun _ => true) false; hasTarget := fk (fun _ => true) false |}.

Lemma encoded_expression (b : bool) (e : SqlExpression) check n : (if b then let? x := write_row (ExpressionRow e) in Ok (Some x) else Ok None) = Ok check ->
  (forall x, check = Some x -> (blen x <= n)%Z) -> (n <= mebi8)%Z -> readExpression check = Ok (if b then Some e else None).
Proof using write_read.
  intros E Hx Hn. destruct b; [|by injection E as <-]. destruct (write_row (ExpressionRow e)) as [x|] eqn:Ew; [|done]. injection E as <-.
  unfold readExpression. rewrite (row_read_back _ x Ew); [done|]. specialize (Hx x eq_refl). lia.
Qed.

Lemma object_read_back kind sp n owner b : catalogObjectRef kind sp n owner = Ok b -> (blen b <= mebi8)%Z ->
  readObjectRef b = Ok {| ref_kind := kind; ref_schema_path := sp; ref_name := n; ref_owner := owner |}.
Proof using write_read. intros Hw Hb. unfold readObjectRef. by rewrite (row_read_back _ b Hw Hb). Qed.

Lemma encode_decode s data : encodeConstraintRecord s = Ok data -> (blen data <= mebi8)%Z ->
  decodeConstraintRecord data = Ok (decoded_of s).
Proof using write_read inside.
  clear uni_class fold ParseFloat. unfold encodeConstraintRecord. intros E Hd.
  match type of E with (match ?c with _ => _ end) = _ => destruct c as [check|] eqn:Ec; [|done] end.
  match type of E with (match ?c with _ => _ end) = _ => destruct c as [[foreign referenced]|] eqn:Ef; [|done] end.
  destruct (write_row (DefinitionRow _)) as [def|] eqn:Edef; [|done].
  destruct (catalogObjectRef "constraint" (SchemaPath s) (ID s) _) as [ref|] eqn:Eref; [|done].
  assert (forall n, n ∈ rows_inside (InfoRow {| info_ref := ref; definition := def; enforcement := Enforcement s;
    validation := Validation s; referenced_constraint := referenced |}) -> (blen n <= mebi8)%Z) as Hin.
  { intros n Hn. pose proof (inside _ _ n E Hn). lia. }
  cbn [rows_inside info_ref definition referenced_constraint] in Hin.
  assert (blen ref <= mebi8)%Z as Hrb by (apply Hin; left).
  assert (blen def <= mebi8)%Z as Hdb by (apply Hin; right; left).
  assert (forall n, n ∈ option_list check ++ option_list foreign -> (blen n <= mebi8)%Z) as Hin2.
  { intros n Hn. pose proof (inside _ _ n Edef Hn). lia. }
  unfold decodeConstraintRecord. rewrite (row_read_back _ _ E Hd). cbn [info_ref definition].
  rewrite (object_read_back _ _ _ _ _ Eref Hrb). cbn [ref_kind]. rewrite bool_decide_true by done. cbn [negb].
  rewrite (row_read_back _ _ Edef Hdb). cbn [check_expression foreign_key referenced_constraint].
  rewrite (encoded_expression _ _ check mebi8 Ec) by (try done; intros x ->; apply Hin2; set_solver).
  destruct (References s) as [fk|] eqn:Efk.
  - destruct (catalogObjectRef "table" _ _ _) as [table|] eqn:Et; [|done].
    destruct (write_row (ForeignKeyRow _)) as [f|] eqn:Efr; [|done].
    destruct (catalogObjectRef "constraint" (ref_schema s fk) _ _) as [key|] eqn:Ek; [|done]. injection Ef as <- <-.
    assert (blen f <= mebi8)%Z as Hfb by (apply Hin2; set_solver).
    assert (blen table <= mebi8)%Z as Htb by (pose proof (inside _ _ table Efr ltac:(left)); lia).
    assert (blen key <= mebi8)%Z as Hkb by (apply Hin; cbn; set_solver).
    unfold readForeignKey. rewrite (row_read_back _ _ Efr Hfb). cbn [referenced_table].
    rewrite (object_read_back _ _ _ _ _ Et Htb). cbn [ref_kind ref_owner]. rewrite !bool_decide_true by done. cbn [andb].
    unfold readTarget. rewrite (object_read_back _ _ _ _ _ Ek Hkb). cbn [ref_owner ref_kind]. rewrite bool_decide_true by done.
    unfold decoded_of, canonical. rewrite Efk. cbn. f_equal. f_equal. { f_equal; [|by destruct (bool_decide (Kind s = ConstraintCheck))].
      destruct (bool_decide (DeclaredName s = "")) eqn:En; bool_hyps; [by rewrite En|done]. }
    all: by destruct (bool_decide (Kind s = ConstraintCheck)).
  - injection Ef as <- <-. cbn [readForeignKey readTarget]. unfold decoded_of, canonical. rewrite Efk. cbn. f_equal. f_equal.
    { f_equal; [|by destruct (bool_decide (Kind s = ConstraintCheck))].
      destruct (bool_decide (DeclaredName s = "")) eqn:En; bool_hyps; [by rewrite En|done]. }
    all: by destruct (bool_decide (Kind s = ConstraintCheck)).
Qed.

(** A record that was made is in the form [checkSpec] accepts. *)
Lemma record_made s data : ConstraintRecord s = Ok data -> checkSpec s = Ok () /\ encodeConstraintRecord s = Ok data.
Proof using. unfold ConstraintRecord. destruct (checkSpec s) as [[]|]; [done|done]. Qed.
(** The spec a record attests: the one it was made from, with the referenced
    schema written out. *)
Definition attested (s : ConstraintRecordSpec) : ConstraintRecordSpec :=
  {| SchemaPath := SchemaPath s; Table := Table s; ID := ID s; Kind := Kind s; Columns := Columns s;
     Enforcement := Enforcement s; Validation := Validation s; DeclaredName := DeclaredName s; CheckSQL := CheckSQL s;
     References := option_map (fun ref => {| RefSchemaPath := SchemaPath s; RefTable := RefTable ref;
       RefColumns := RefColumns ref; RefConstraintID := RefConstraintID ref |}) (References s) |}.

Lemma canonical_attested s : checkSpec s = Ok () -> canonical s = attested s.
Proof using.
  unfold checkSpec. intros Hs. repeat inv_let. unfold canonical, attested. f_equal.
  - apply eqb_prop in E7. destruct (bool_decide (Kind s = ConstraintCheck)); [done|]. symmetry in E7. bool_hyps. congruence.
  - destruct (References s) as [ref|]; [|done]. unfold checkReference in Hs. repeat inv_let. cbn [option_map]. f_equal. f_equal.
    unfold ref_schema. destruct (RefSchemaPath ref) as [|x p] eqn:Ep; [done|]. apply orb_true_iff in E14 as [E14|E14]; by bool_hyps.
Qed.

(** C40: [ReadConstraintRecord] is the inverse of [ConstraintRecord]: a record
    that was made and is at most 8 MiB reads back as its spec, with every field
    as it was, a foreign key that named no schema naming its owner's. The rows of
    the record and the rows inside them are read one by one, each under its own
    size limit. *)
Theorem record_round_trip (s : ConstraintRecordSpec) (data : bytes) :
  ConstraintRecord s = Ok data -> (blen data <= mebi8)%Z -> ReadConstraintRecord data = Ok (attested s).
Proof using write_read inside.
  intros Hs Hd. apply record_made in Hs as [Hs He]. unfold ReadConstraintRecord.
  rewrite (encode_decode s data He Hd). cbn [decoded_of spec]. by rewrite canonical_attested.
Qed.
End codec.
End records.

(** A concrete codec: a row's number, then the rows stored in it. *)
Module RecordExample.
Import GrammarExample CheckExample.
#[local] Existing Instance AsciiText.ascii_text.

(** A row with the rows inside it left out, as lists of strings. *)
Definition flag {A} (o : option A) : path := match o with Some _ => [""] | None => [] end.
Definition skeleton (r : Row) : nat * list path :=
  match r with
  | RefRow r => (0, [[ref_kind r]; ref_schema_path r; [ref_name r]; option_list (ref_owner r)])
  | ExpressionRow e =>
      let c := expr_context e in
      (1, [[expr_sql e]; [expr_profile e]; expr_schema_path e; option_list (timezone c); option_list (collation c);
       option_list (default_order c); option_list (default_null_order c); flag (preserve_insertion_order c);
       match preserve_insertion_order c with Some true => [""] | _ => [] end])
  | ForeignKeyRow f => (2, [fk_match f] :: [on_update f] :: [on_delete f] :: referenced_column_paths f)
  | DefinitionRow d =>
      (3, [def_kind d] :: option_list (declared_name d) :: flag (check_expression d) :: flag (foreign_key d) :: column_paths d)
  | InfoRow i => (4, [[enforcement i]; [validation i]; flag (referenced_constraint i)])
  end.
Definition one (p : path) : string := default "" (head p).
(** The next stored row, when it is there. *)
Definition take_row (there : path) (bs : list bytes) : option bytes * list bytes :=
  match there, bs with _ :: _, b :: bs => (Some b, bs) | _, _ => (None, bs) end.
Definition fill (l : nat * list path) (bs : list bytes) : option Row :=
  match l with
  | (0, [k; p; n; o]) =>
      Some (RefRow {| ref_kind := one k; ref_schema_path := p; ref_name := one n; ref_owner := head o |})
  | (1, [q; f; p; tz; c; o; n; i; v]) =>
      Some (ExpressionRow {| expr_sql := one q; expr_profile := one f; expr_schema_path := p;
        expr_context := {| timezone := head tz; collation := head c; default_order := head o; default_null_order := head n;
          preserve_insertion_order := match i with [] => None | _ => Some (match v with [] => false | _ => true end) end |} |})
  | (2, a :: b :: c :: ps) =>
      Some (ForeignKeyRow {| referenced_table := default [] (head bs); referenced_column_paths := ps;
                             fk_match := one a; on_update := one b; on_delete := one c |})
  | (3, k :: n :: c :: f :: ps) =>
      let '(check, bs) := take_row c bs in
      Some (DefinitionRow {| def_kind := one k; column_paths := ps; declared_name := head n;
                             check_expression := check; foreign_key := fst (take_row f bs) |})
  | (4, [e; v; c]) =>
      Some (InfoRow {| info_ref := default [] (head bs); definition := default [] (head (tail bs)); enforcement := one e;
                       validation := one v; referenced_constraint := fst (take_row c (tail (tail bs))) |})
  | _ => None
  end.
Lemma fill_skeleton r : fill (skeleton r) (rows_inside r) = Some r.
Proof. by destruct r as [[? ? ? []]|[? ? ? [[] [] [] [] [[]|]]]|[]|[? ? [] [] []]|[? ? ? ? []]]. Qed.

Definition framed (b : bytes) : bytes := replicate (length b) x01 ++ x00 :: b.
Definition write (r : Row) : result string bytes := Ok (bits (encode (skeleton r)) ++ x02 :: flat_map framed (rows_inside r)).
Fixpoint number_of (b : bytes) : bytes * bytes :=
  match b with
  | [] => ([], [])
  | x02 :: b => ([], b)
  | c :: b => let '(n, rest) := number_of b in (c :: n, rest)
  end.
Fixpoint ones (b : bytes) : nat := match b with x01 :: b => S (ones b) | _ => 0 end.
Fixpoint frames (fuel : nat) (b : bytes) : list bytes :=
  match fuel, b with
  | S fuel, _ :: _ => let n := ones b in let b := drop (S n) b in take n b :: frames fuel (drop n b)
  | _, _ => []
  end.
Definition read (b : bytes) : result string Row :=
  let '(n, rest) := number_of b in
  match decode (unbits n) ≫= fun l => fill l (frames (length rest) rest) with Some r => Ok r | None => Err "not a record" end.

Lemma number_bits p b : number_of (bits p ++ x02 :: b) = (bits p, b).
Proof. induction p as [p IH|p IH|]; cbn; by rewrite ?IH. Qed.
Lemma ones_replicate n k : ones (replicate n x01 ++ x00 :: k) = n.
Proof. induction n as [|n IH]; cbn; by rewrite ?IH. Qed.
Lemma frames_step fuel b k : frames (S fuel) (framed b ++ k) = b :: frames fuel k.
Proof.
  unfold framed. rewrite <- app_assoc. cbn [app].
  transitivity (let n := ones (replicate (length b) x01 ++ x00 :: b ++ k) in
                let c := drop (S n) (replicate (length b) x01 ++ x00 :: b ++ k) in take n c :: frames fuel (drop n c)).
  { by destruct b. }
  cbn zeta. rewrite ones_replicate. replace (S (length b)) with (length (replicate (length b) x01 ++ [x00])) at 1 2
    by (rewrite length_app, length_replicate; cbn; lia).
  replace (replicate (length b) x01 ++ x00 :: b ++ k) with ((replicate (length b) x01 ++ [x00]) ++ b ++ k) by (by rewrite <- app_assoc).
  by rewrite !drop_app_length, take_app_length.
Qed.
Lemma frames_framed l fuel : (length (flat_map framed l) <= fuel)%nat -> frames fuel (flat_map framed l) = l.
Proof.
  revert fuel. induction l as [|b l IH]; intros fuel Hf; [by destruct fuel|]. cbn [flat_map] in *. rewrite length_app in Hf.
  assert (0 < length (framed b)) by (unfold framed; rewrite length_app; cbn; lia).
  destruct fuel as [|fuel]; [lia|]. rewrite frames_step. f_equal. apply IH. lia.
Qed.
Lemma write_read r b : write r = Ok b -> read b = Ok r /\ b <> [].
Proof.
  unfold write, read. intros E. apply ok_inj in E as <-. split; [|by destruct (bits (encode (skeleton r)))].
  rewrite number_bits, unbits_bits, decode_encode. cbn [mbind option_bind]. by rewrite frames_framed, fill_skeleton.
Qed.
Lemma write_inside r b n : write r = Ok b -> n ∈ rows_inside r -> (blen n <= blen b)%Z.
Proof.
  unfold write, blen. intros E Hn. apply ok_inj in E as <-. rewrite length_app. cbn [length].
  apply list_elem_of_split in Hn as (l & k & ->). rewrite flat_map_app, length_app. cbn [flat_map]. unfold framed at 2.
  rewrite !length_app. cbn [length]. lia.
Qed.

Definition key_record : ConstraintRecordSpec :=
  {| SchemaPath := ["main"]; Table := "t"; ID := "fk"; Kind := ConstraintForeignKey; Columns := [["a"]];
     Enforcement := ConstraintEnforced; Validation := ConstraintAllRows; DeclaredName := ""; CheckSQL := "";
     References := Some {| RefSchemaPath := []; RefTable := "u"; RefColumns := [["b"]]; RefConstraintID := "pk" |} |}.
Definition made (s : ConstraintRecordSpec) : bytes :=
  match ConstraintRecord floats others ascii_lower write s with Ok b => b | Err _ => [] end.

Lemma record_round_trip_witness : ReadConstraintRecord read (made key_record) = Ok (attested key_record).
Proof.
  apply (record_round_trip floats others ascii_lower write read write_read write_inside key_record).
  - vm_compute. reflexivity.
  - vm_compute. discriminate.
Defined.
End RecordExample.
