(* ===== verification/CreateTable.v ===== *)
(** * CreateTable: what CREATE TABLE checks, in every catalog of the worker
    (vgi/writable_constraints.go, vgi/schema_utils.go, vgi/writable_handlers.go)

    The worker's own catalogs enforce one kind of constraint, NOT NULL on a
    top-level column: CREATE TABLE turns its definitions into canonical records
    and refuses every other kind, and what a table requires of its rows is read
    back from its records. The codec of [ConstraintRecords] is a class here, so
    that a catalog names it once. *)

From S2P Require Import Prelude Bytes Strings Unicode Strconv ArrowTypes CatalogContents.
From S2P Require Import SqlTokens SqlGrammar Columns SqlChecks ConstraintRecords.

(** Number syntax, character classes and case folding of the SQL checks, and
    the IPC stream of one row, which is read back as it was written. *)
Class RecordCodec := {
  rc_ParseFloat : string -> bool;
  rc_class : bytes -> rune_class;
  rc_fold : string -> string;
  rc_write : Row -> result string bytes;
  rc_read : bytes -> result string Row;
  rc_write_read : forall r b, rc_write r = Ok b -> rc_read b = Ok r /\ b <> [];
  rc_inside : forall r b n, rc_write r = Ok b -> n ∈ rows_inside r -> (blen n <= blen b)%Z
}.

(** ** CREATE's conflict handling *)

Inductive onConflictAction := onConflictError | onConflictReplace | onConflictIgnore.
#[global] Instance onConflictAction_dec : EqDecision onConflictAction.
Proof. solve_decision. Defined.

Definition parseOnConflict `{Unicode} (s : string) : onConflictAction :=
  if bool_decide (ToUpper s = "REPLACE") then onConflictReplace
  else if bool_decide (ToUpper s = "IGNORE") then onConflictIgnore
  else onConflictError.

Definition with_prefix {A} (p : string) (r : result string A) : result rpc_error A :=
  match r with Ok a => Ok a | Err e => Err (PlainError (p +:+ e)) end.

(** ** NOT NULL records *)

Definition notNullConstraintID (column : string) : string := "not_null:" +:+ column.

(** [strings.ReplaceAll(kind, "_", " ")] *)
Definition spaced (kind : string) : string :=
  bstr (map (fun b => if bool_decide (b = x5f) then x20 else b) (sb kind)).

Definition not_null_spec (schemaPath : path) (table column declared : string) : ConstraintRecordSpec :=
  {| SchemaPath := schemaPath; Table := table; ID := notNullConstraintID column; Kind := ConstraintNotNull;
     Columns := [[column]]; Enforcement := ConstraintEnforced; Validation := ConstraintAllRows;
     DeclaredName := declared; CheckSQL := ""; References := None |}.

Section records.
Context `{Unicode} `{RecordCodec}.

Definition makeRecord : ConstraintRecordSpec -> result string bytes :=
  ConstraintRecord rc_ParseFloat rc_class rc_fold rc_write.
Definition readRecord : bytes -> result string ConstraintRecordSpec := ReadConstraintRecord rc_read.

Definition decodeConstraintDefinition (data : bytes) : result string (string * list path * string) :=
  match readCanonicalRow rc_read data with
  | Ok (DefinitionRow d) => Ok (def_kind d, column_paths d, default "" (declared_name d))
  | Ok _ => Err "ConstraintDefinition: record does not match the canonical schema"
  | Err e => Err ("ConstraintDefinition: " +:+ e)
  end.

(** [required] is the set of required columns so far, [records] their records
    so far. *)
Fixpoint notNullLoop (schemaPath : path) (table : string) (schema : list Column) (definitions : list bytes)
    (records : list bytes) (required : gset string) : result rpc_error (list bytes * gset string) :=
  match definitions with
  | [] => Ok (records, required)
  | data :: definitions =>
      let? (kp, declared) := with_prefix "catalog_table_create: " (decodeConstraintDefinition data) in
      let '(kind, paths) := kp in
      if negb (bool_decide (kind = ConstraintNotNull))
      then Err (MethodNotImplemented ("catalog_table_create: " +:+ spaced kind +:+ " constraints are not enforced by this writable catalog; it enforces only NOT NULL on top-level columns"))
      else
      match paths with
      | [[column]] =>
          match topLevelIndex schema column with
          | None => Err (PlainError ("catalog_table_create: NOT NULL names unknown column " +:+ column))
          | Some _ =>
              if bool_decide (column ∈ required)
              then notNullLoop schemaPath table schema definitions records required
              else
              let? record := with_prefix "catalog_table_create: " (makeRecord (not_null_spec schemaPath table column declared)) in
              notNullLoop schemaPath table schema definitions (records ++ [record]) ({[column]} ∪ required)
          end
      | _ => Err (MethodNotImplemented "catalog_table_create: this writable catalog enforces NOT NULL only on top-level columns")
      end
  end.

Definition notNullRecords (schemaPath : path) (table : string) (schema : list Column) (definitions : list bytes)
    : result rpc_error (list bytes * gset string) :=
  match definitions with
  | [] => Ok ([], ∅)
  | _ :: _ =>
      if negb (bool_decide (length schemaPath = 1))
      then Err (MethodNotImplemented "catalog_table_create: NOT NULL constraints need a one-component schema path")
      else notNullLoop schemaPath table schema definitions [] ∅
  end.

(** The columns the NOT_NULL and PRIMARY_KEY records require, in order. *)
Fixpoint add_required (out : list string) (columns : list path) : list string :=
  match columns with
  | [] => out
  | [c] :: columns => add_required (if bool_decide (c ∈ out) then out else out ++ [c]) columns
  | _ :: columns => add_required out columns
  end.
Fixpoint requiredLoop (out : list string) (constraints : list bytes) : result string (list string) :=
  match constraints with
  | [] => Ok out
  | data :: constraints =>
      let? record := readRecord data in
      if bool_decide (Kind record ∈ [ConstraintNotNull; ConstraintPrimaryKey])
      then requiredLoop (add_required out (Columns record)) constraints
      else requiredLoop out constraints
  end.
Definition requiredColumns (constraints : list bytes) : result string (list string) := requiredLoop [] constraints.

(** [rebindRecords]: the records under the table's name as the client has it. *)
Definition rebound (schemaPath : path) (table : string) (s : ConstraintRecordSpec) : ConstraintRecordSpec :=
  {| SchemaPath := schemaPath; Table := table; ID := ID s; Kind := Kind s; Columns := Columns s;
     Enforcement := Enforcement s; Validation := Validation s; DeclaredName := DeclaredName s;
     CheckSQL := CheckSQL s; References := References s |}.
Definition rebindRecords (records : list bytes) (schemaPath : path) (table : string) : result string (list bytes) :=
  map_result (fun data =>
    let? spec := readRecord data in
    if bool_decide (Table spec = table) && bool_decide (SchemaPath spec = schemaPath) then Ok data
    else makeRecord (rebound schemaPath table spec)) records.
End records.

(** ** Columns a CREATE may have *)

Fixpoint visit (notNull : gset string) (field : Column) (top : bool) (depth : nat) : result rpc_error unit :=
  let 'MkColumn fname type nullable md := field in
  if (64 <? depth)%nat
  then Err (MethodNotImplemented "catalog_table_create: column nesting exceeds supported depth") else
  if top && has_key md "is_row_id" then Ok tt else
  if existsb (fun kv => logical_key (fst kv)) md
  then Err (MethodNotImplemented "catalog_table_create: logical column types require negotiation") else
  match type with
  | ExtensionType _ _ => Err (MethodNotImplemented "catalog_table_create: extension types require negotiation")
  | _ =>
      if negb nullable && (negb top || negb (bool_decide (fname ∈ notNull)))
      then Err (MethodNotImplemented ("catalog_table_create: column " +:+ fname +:+ " is non-nullable without a NOT NULL constraint definition")) else
      match type with
      | StructType children =>
          (fix all (l : list Column) : result rpc_error unit :=
             match l with
             | [] => Ok tt
             | child :: l => let? _ := visit notNull child false (S depth) in all l
             end) children
      | _ => Ok tt
      end
  end.

Definition requireUnconstrainedCreateSchema (schema : list Column) (notNull : gset string)
    : result rpc_error unit :=
  let? _ := map_result (fun field => visit notNull field true 0) schema in Ok tt.

(** The concrete codec of [RecordExample]. *)
Module CodecExample.
#[export] Instance codec : RecordCodec :=
  {| rc_ParseFloat := GrammarExample.floats; rc_class := GrammarExample.others; rc_fold := ascii_lower;
     rc_write := RecordExample.write; rc_read := RecordExample.read;
     rc_write_read := RecordExample.write_read; rc_inside := RecordExample.write_inside |}.
End CodecExample.
