(* ===== verification/MemoryCatalog.v ===== *)
(** * MemoryCatalog: the in-memory, DDL-capable catalog
    (vgi/memory_catalog.go)

    The catalog keeps one state per ATTACH: a version and the schemas, each
    with the serialized items of its tables and views. An operation runs under
    the catalog's mutex, so it is a function of the whole state; it returns its
    answer and the state it leaves. *)

From S2P Require Import Prelude.
From S2P Require Import Bytes.
From S2P Require Import Strings.
From S2P Require Import Unicode.
From S2P Require Import Capabilities.
From S2P Require Import CatalogContents.
From S2P Require Import ArrowTypes Columns CreateTable.

#[local] Arguments parentPath : simpl never.
#[local] Arguments schemaPathKey : simpl never.

(** ** The records behind the items *)

Abbreviation metadata := (gmap string string).

Record ViewInfo := {
  vName : string;
  vSchemaPath : SchemaPath;
  vDefinition : string;
  vAliases : list string;
  vComment : option string;
  vTags : metadata;
  vColumnComments : metadata
}.

#[global] Instance ViewInfo_dec : EqDecision ViewInfo.
Proof. solve_decision. Defined.

Record TableInfo := {
  tName : string;
  tSchemaPath : SchemaPath;
  tColumns : list Column;
  tConstraints : list bytes
}.

Record SchemaInfo := {
  siPath : SchemaPath;
  siComment : option string;
  siTags : metadata;
  siAttachOpaqueData : bytes
}.

(** The Arrow encodings of these records. A view's record reads back as it was
    written. *)
Class CatalogItems := {
  SerializeTableInfo : TableInfo -> result rpc_error bytes;
  SerializeViewInfo : ViewInfo -> result rpc_error bytes;
  SerializeSchemaInfo : SchemaInfo -> result rpc_error bytes;
  DeserializeViewInfo : bytes -> result rpc_error ViewInfo;
  DeserializeSchema : bytes -> result rpc_error (list Column);
  view_info_round_trip : forall v b,
    SerializeViewInfo v = Ok b -> DeserializeViewInfo b = Ok v
}.

(** ** State *)

Record memoryObject := { objName : string; objItem : bytes }.

Record memorySchema := {
  path : SchemaPath;
  comment : option string;
  tags : metadata;
  tables : gmap string memoryObject;
  views : gmap string memoryObject
}.

Record memoryState := {
  version : Z;
  schemas : gmap string memorySchema
}.

Record Catalog := {
  name : string;
  catComment : string;
  unversioned : bool;
  contentsOff : bool;
  contentsEtag : etag_mode;
  attaches : gmap bytes memoryState
}.

(** [NewMemoryCatalog] after its options. *)
Definition NewMemoryCatalog (name comment : string) (unversioned contentsOff : bool)
    (mode : etag_mode) : Catalog :=
  {| name := name; catComment := comment; unversioned := unversioned;
     contentsOff := contentsOff; contentsEtag := mode; attaches := ∅ |}.

Definition withAttaches (m : Catalog) (a : gmap bytes memoryState) : Catalog :=
  {| name := name m; catComment := catComment m; unversioned := unversioned m;
     contentsOff := contentsOff m; contentsEtag := contentsEtag m; attaches := a |}.

Definition setState (m : Catalog) (attach : bytes) (st : memoryState) : Catalog :=
  withAttaches m (<[attach := st]> (attaches m)).

(** The state after a DDL that leaves [schemas]: the version is an int64. *)
Definition bump (st : memoryState) (schemas : gmap string memorySchema) : memoryState :=
  {| version := s64 (version st + 1); schemas := schemas |}.

Definition objects (isView : bool) (s : memorySchema) : gmap string memoryObject :=
  if isView then views s else tables s.
Definition setObjects (isView : bool) (objs : gmap string memoryObject) (s : memorySchema)
    : memorySchema :=
  if isView
  then {| path := path s; comment := comment s; tags := tags s; tables := tables s; views := objs |}
  else {| path := path s; comment := comment s; tags := tags s; tables := objs; views := views s |}.

Definition memoryErr (m : string) : rpc_error := ValueError m.

(** ** CREATE's conflict handling *)

Definition onConflictReplaces `{Unicode} (kind name onConflict : string) : result rpc_error bool :=
  match parseOnConflict onConflict with
  | onConflictReplace => Ok true
  | onConflictIgnore => Ok false
  | onConflictError =>
      Err (memoryErr (kind +:+ " with name " +:+ bstr [x22] +:+ name +:+ bstr [x22]
                      +:+ " already exists"))
  end.

(** ** Handlers *)

(** What a handler answers: the attach result (its capabilities and version),
    a version, items, contents, or nothing. *)
Inductive response :=
| AttachResult (available selected : option bytes) (attach : bytes) (version : Z)
    (comment : option string) (supportsContents : bool)
| VersionResult (version : Z)
| Items (items : list bytes)
| Contents (r : CatalogContentsResponse)
| TransactionBegin (transactionOpaqueData : option bytes)
| NoResult.

Definition writableCapabilities : CatalogCapabilities :=
  {| Read := [ConstraintRecordsReadProfile]; Ddl := [ConstraintCreateProfile];
     Write := [ConstraintEnforceProfile]; Transaction := [] |}.

Section handlers.
Context `{CatalogItems} `{CatalogStreams} `{CapabilityRows} `{Unicode} `{!RecordCodec}.

Abbreviation handler := (result rpc_error response * Catalog)%type.

Definition state (m : Catalog) (attach : bytes) : result rpc_error memoryState :=
  match attaches m !! attach with
  | None => Err (memoryErr (name m +:+ ": not attached (its state lives in the worker process that attached it)"))
  | Some st => Ok st
  end.

Definition reportedVersion (m : Catalog) (st : memoryState) : Z :=
  if unversioned m then 0 else version st.

Definition newMemorySchema (path : SchemaPath) (comment : option string) (tags : metadata)
    : memorySchema :=
  {| path := path; comment := comment; tags := tags; tables := ∅; views := ∅ |}.

Definition freshState : memoryState :=
  {| version := 1; schemas := {["main" := newMemorySchema ["main"] None ∅]} |}.

Definition lift_caps {A} (r : result capability_error A) : result rpc_error A :=
  match r with Ok a => Ok a | Err _ => Err (PlainError "capabilities") end.

(** [token] is what [crypto/rand] gives, or its failure. *)
Definition attach (m : Catalog) (reqName : string) (clientCapabilities : option bytes)
    (token : option bytes) : handler :=
  if negb (bool_decide (reqName = name m))
  then (Err (memoryErr ("Unknown catalog: '" +:+ reqName +:+ "'. Available: " +:+ name m)), m) else
  match token with
  | None => (Err (PlainError "rand"), m)
  | Some token =>
      let attach := sb (name m) ++ x00 :: sb (hex_encode token) in
      let m' := setState m attach freshState in
      let version := reportedVersion m freshState in
      match lift_caps (mergeCapabilities writableCapabilities None None clientCapabilities) with
      | Err e => (Err e, m')
      | Ok (available, selected) =>
          (Ok (AttachResult available selected attach version
                 (if bool_decide (catComment m = "") then None else Some (catComment m))
                 (negb (contentsOff m))), m')
      end
  end.

Definition detach (m : Catalog) (attach : bytes) : handler :=
  (Ok NoResult, withAttaches m (delete attach (attaches m))).

Definition versionRPC (m : Catalog) (attach : bytes) : handler :=
  match state m attach with
  | Err e => (Err e, m)
  | Ok st => (Ok (VersionResult (reportedVersion m st)), m)
  end.

(** Parents first, then by key: the keys of a state are distinct, so any sort
    gives this order. *)
Definition schema_order (a b : memorySchema) : Prop :=
  length (path a) < length (path b) \/
  (length (path a) = length (path b) /\ str_le (schemaPathKey (path a)) (schemaPathKey (path b))).
#[global] Instance schema_order_dec : RelDecision schema_order.
Proof. intros a b. unfold schema_order. apply _. Defined.

Definition sortedSchemas (st : memoryState) : list memorySchema :=
  merge_sort schema_order (map snd (map_to_list (schemas st))).

Definition objectItems (objs : gmap string memoryObject) : list bytes :=
  omap (fun key => objItem <$> objs !! key) (Sort (map fst (map_to_list objs))).

Definition schemaItem (attach : bytes) (s : memorySchema) : result rpc_error bytes :=
  SerializeSchemaInfo {| siPath := path s; siComment := comment s; siTags := tags s;
                         siAttachOpaqueData := attach |}.

Definition schema (m : Catalog) (attach : bytes) (path : SchemaPath)
    : result rpc_error (option memorySchema * memoryState) :=
  let? st := state m attach in Ok (schemas st !! schemaPathKey path, st).

Definition snapshot (m : Catalog) (attach : bytes) : result rpc_error (list SchemaContents) :=
  let? st := state m attach in
  map_result (fun s =>
    let? item := schemaItem attach s in
    Ok {| Path := path s; Schema := item; Tables := objectItems (tables s);
          Views := objectItems (views s); ScalarFunctions := []; AggregateFunctions := [];
          TableFunctions := []; ScalarMacros := []; TableMacros := []; Indexes := [] |})
    (sortedSchemas st).

(** [catalog_contents]; [contentsHandler] is the catalog's own handler's answer
    to this call, when it has one. The snapshot is taken under a second lock,
    here with nothing in between. *)
Definition contents (m : Catalog) (contentsHandler : option (result rpc_error CatalogContentsResult))
    (attach : bytes) (IfNoneMatch : option string) : handler :=
  match state m attach with
  | Err e => (Err e, m)
  | Ok st =>
      match answerCatalogContents contentsHandler (contentsEtag m) IfNoneMatch
              (reportedVersion m st) (snapshot m attach) with
      | Err e => (Err e, m)
      | Ok r => (Ok (Contents r), m)
      end
  end.

Definition schemasRPC (m : Catalog) (attach : bytes) : handler :=
  match state m attach with
  | Err e => (Err e, m)
  | Ok st =>
      match map_result (schemaItem attach) (sortedSchemas st) with
      | Err e => (Err e, m)
      | Ok items => (Ok (Items items), m)
      end
  end.

Definition schemaGet (m : Catalog) (attach : bytes) (path : SchemaPath) : handler :=
  match schema m attach path with
  | Err e => (Err e, m)
  | Ok (None, _) => (Ok (Items []), m)
  | Ok (Some s, _) =>
      match schemaItem attach s with
      | Err e => (Err e, m)
      | Ok item => (Ok (Items [item]), m)
      end
  end.

Definition optionalMetadataMap (values : option metadata) : metadata := default ∅ values.

Definition schemaCreate (m : Catalog) (attach : bytes) (path : SchemaPath) (onConflict : string)
    (comment : option string) (tags : option metadata) (options : option bytes) : handler :=
  match options with
  | Some _ => (Err (MethodNotImplemented "catalog_schema_create options require negotiated vgi.schema.options.create.v1"), m)
  | None =>
  match schema m attach path with
  | Err e => (Err e, m)
  | Ok (existing, st) =>
      if bool_decide (length path = 0) then (Err (memoryErr "schema path is empty"), m) else
      match (match existing with
             | None => Ok true
             | Some _ => onConflictReplaces "Schema" (schemaPathDisplay path) onConflict
             end) with
      | Err e => (Err e, m)
      | Ok false => (Ok NoResult, m)
      | Ok true =>
          if bool_decide (1 < length path)
             && negb (bool_decide (is_Some (schemas st !! schemaPathKey (parentPath path))))
          then (Err (memoryErr ("Schema " +:+ schemaPathDisplay (parentPath path) +:+ " does not exist")), m)
          else
            let s := newMemorySchema path comment (optionalMetadataMap tags) in
            (Ok NoResult,
             setState m attach (bump st (<[schemaPathKey path := s]> (schemas st))))
      end
  end
  end.

Definition isChildKey (key k : string) : Prop := has_prefix (sb k) (sb key ++ [x00]) = true.
#[global] Instance isChildKey_dec key k : Decision (isChildKey key k).
Proof. unfold isChildKey. apply _. Defined.

Definition schemaDrop (m : Catalog) (attach : bytes) (path : SchemaPath)
    (ignoreNotFound cascade : bool) : handler :=
  match schema m attach path with
  | Err e => (Err e, m)
  | Ok (None, _) =>
      if ignoreNotFound then (Ok NoResult, m)
      else (Err (memoryErr ("Schema " +:+ schemaPathDisplay path +:+ " does not exist")), m)
  | Ok (Some s, st) =>
      let key := schemaPathKey path in
      let children := filter (fun kv : string * memorySchema => isChildKey key (fst kv)) (schemas st) in
      if negb cascade
         && (negb (bool_decide (tables s = ∅)) || negb (bool_decide (views s = ∅))
             || negb (bool_decide (children = ∅)))
      then (Err (memoryErr ("Schema " +:+ schemaPathDisplay path +:+ " is not empty; use CASCADE")), m)
      else
        (Ok NoResult,
         setState m attach
           (bump st (delete key
              (filter (fun kv : string * memorySchema => ~ isChildKey key (fst kv)) (schemas st)))))
  end.

Definition listObjects (m : Catalog) (attach : bytes) (path : SchemaPath) (views : bool) : handler :=
  match schema m attach path with
  | Err e => (Err e, m)
  | Ok (None, _) => (Ok (Items []), m)
  | Ok (Some s, _) => (Ok (Items (objectItems (objects views s))), m)
  end.

Definition getObject (m : Catalog) (attach : bytes) (path : SchemaPath) (name : string)
    (views : bool) : handler :=
  match schema m attach path with
  | Err e => (Err e, m)
  | Ok (None, _) => (Ok (Items []), m)
  | Ok (Some s, _) =>
      match objects views s !! ToLower name with
      | Some obj => (Ok (Items [objItem obj]), m)
      | None => (Ok (Items []), m)
      end
  end.

Definition putObject (m : Catalog) (attach : bytes) (path : SchemaPath)
    (name kind onConflict : string) (views : bool) (item : bytes) : handler :=
  match schema m attach path with
  | Err e => (Err e, m)
  | Ok (None, _) => (Err (memoryErr ("Schema " +:+ schemaPathDisplay path +:+ " does not exist")), m)
  | Ok (Some s, st) =>
      let key := ToLower name in
      match (match objects views s !! key with
             | Some _ => onConflictReplaces kind name onConflict
             | None => Ok true
             end) with
      | Err e => (Err e, m)
      | Ok false => (Ok NoResult, m)
      | Ok true =>
          let s' := setObjects views
                      (<[key := {| objName := name; objItem := item |}]> (objects views s)) s in
          (Ok NoResult,
           setState m attach (bump st (<[schemaPathKey path := s']> (schemas st))))
      end
  end.

Definition dropObject (m : Catalog) (attach : bytes) (path : SchemaPath) (name kind : string)
    (ignoreNotFound views : bool) : handler :=
  match schema m attach path with
  | Err e => (Err e, m)
  | Ok (found, st) =>
      let key := ToLower name in
      match found ≫= (fun s => pair s <$> objects views s !! key) with
      | Some (s, _) =>
          let s' := setObjects views (delete key (objects views s)) s in
          (Ok NoResult, setState m attach (bump st (<[schemaPathKey path := s']> (schemas st))))
      | None =>
          if ignoreNotFound then (Ok NoResult, m)
          else (Err (memoryErr (kind +:+ " with name " +:+ name +:+ " does not exist")), m)
      end
  end.

Definition tableCreate (m : Catalog) (attach : bytes) (path : SchemaPath) (name onConflict : string)
    (columns : bytes) (constraintDefinitions : list bytes) (comment : option string)
    (tags : option metadata) (options layout : option bytes) : handler :=
  match comment, tags, options, layout with
  | None, None, None, None =>
      if bool_decide (length columns = 0)
      then (Err (memoryErr "catalog_table_create: missing columns schema"), m) else
      let item :=
        let? fields := DeserializeSchema columns in
        let? (records, required) := notNullRecords path name fields constraintDefinitions in
        let? _ := requireUnconstrainedCreateSchema fields required in
        SerializeTableInfo {| tName := name; tSchemaPath := path; tColumns := fields;
                              tConstraints := records |} in
      match item with
      | Err e => (Err e, m)
      | Ok item => putObject m attach path name "Table" onConflict false item
      end
  | _, _, _, _ => (Err (MethodNotImplemented "catalog_table_create"), m)
  end.

Definition tableDrop (m : Catalog) (attach : bytes) (path : SchemaPath) (name : string)
    (ignoreNotFound : bool) : handler :=
  dropObject m attach path name "Table" ignoreNotFound false.

(** A raw output identifier: not empty, without NUL. *)
Definition rawIdentifier (name : string) : bool :=
  negb (bool_decide (name = "")) && negb (bool_decide (x00 ∈ sb name)).

Definition viewCreate (m : Catalog) (attach : bytes) (path : SchemaPath)
    (name definition onConflict : string) (aliases : option (list string)) (security : string)
    (comment : option string) (tags columnComments : option metadata) : handler :=
  if negb (bool_decide (security = "regular"))
  then (Err (PlainError ("view security mode " +:+ security +:+ " is unsupported")), m) else
  if negb (forallb rawIdentifier (map fst (map_to_list (default ∅ columnComments))))
  then (Err (memoryErr "view column comments require raw output identifiers"), m) else
  match SerializeViewInfo {| vName := name; vSchemaPath := path; vDefinition := definition;
          vAliases := default [] aliases; vComment := comment;
          vTags := optionalMetadataMap tags;
          vColumnComments := optionalMetadataMap columnComments |} with
  | Err e => (Err e, m)
  | Ok item => putObject m attach path name "View" onConflict true item
  end.

Definition viewDrop (m : Catalog) (attach : bytes) (path : SchemaPath) (name : string)
    (ignoreNotFound : bool) : handler :=
  dropObject m attach path name "View" ignoreNotFound true.

(** The view's record with one column replaced: the comment, or the column
    comments with one entry set or removed. *)
Definition changedView (v : ViewInfo) (columnPath : option string) (comment : option string)
    : ViewInfo :=
  {| vName := vName v; vSchemaPath := vSchemaPath v; vDefinition := vDefinition v;
     vAliases := vAliases v;
     vComment := match columnPath with None => comment | Some _ => vComment v end;
     vTags := vTags v;
     vColumnComments :=
       match columnPath with
       | None => vColumnComments v
       | Some c => match comment with
                   | None => delete c (vColumnComments v)
                   | Some text => <[c := text]> (vColumnComments v)
                   end
       end |}.

Definition changeViewComment (m : Catalog) (attach : bytes) (path : SchemaPath) (name : string)
    (columnPath : option string) (comment : option string) (ignore : bool) : handler :=
  match schema m attach path with
  | Err e => (Err e, m)
  | Ok (found, st) =>
      let key := ToLower name in
      match found ≫= (fun s => pair s <$> views s !! key) with
      | None =>
          if ignore then (Ok NoResult, m)
          else (Err (memoryErr ("View with name " +:+ name +:+ " does not exist")), m)
      | Some (s, view) =>
          match (let? v := DeserializeViewInfo (objItem view) in
                 SerializeViewInfo (changedView v columnPath comment)) with
          | Err e => (Err e, m)
          | Ok item =>
              let s' := setObjects true
                          (<[key := {| objName := objName view; objItem := item |}]> (views s)) s in
              (Ok NoResult, setState m attach (bump st (<[schemaPathKey path := s']> (schemas st))))
          end
      end
  end.

Definition viewCommentSet (m : Catalog) (attach : bytes) (path : SchemaPath) (name : string)
    (comment : option string) (ignoreNotFound : bool) : handler :=
  changeViewComment m attach path name None comment ignoreNotFound.

Definition viewColumnCommentSet (m : Catalog) (attach : bytes) (path : SchemaPath) (name : string)
    (columnPath : list string) (comment : option string) (ignoreNotFound : bool) : handler :=
  match columnPath with
  | [c] =>
      if rawIdentifier c
      then changeViewComment m attach path name (Some c) comment ignoreNotFound
      else (Err (memoryErr "view column comments require one raw output identifier"), m)
  | _ => (Err (memoryErr "view column comments require one raw output identifier"), m)
  end.

(** ** The method table *)

Inductive request :=
| CatalogAttach (reqName : string) (clientCapabilities : option bytes) (token : option bytes)
| CatalogDetach
| CatalogVersionReq
| CatalogContentsReq (handler : option (result rpc_error CatalogContentsResult))
    (ifNoneMatch : option string)
| TransactionBeginReq | TransactionCommitReq | TransactionRollbackReq
| SchemasReq
| SchemaGet (path : SchemaPath)
| SchemaCreate (path : SchemaPath) (onConflict : string) (comment : option string)
    (tags : option metadata) (options : option bytes)
| SchemaDrop (path : SchemaPath) (ignoreNotFound cascade : bool)
| ContentsTables (path : SchemaPath) | ContentsViews (path : SchemaPath)
| ContentsFunctions (path : SchemaPath) | ContentsMacros (path : SchemaPath)
| CopyFromFormats
| TableGet (path : SchemaPath) (name : string)
| TableCreate (path : SchemaPath) (name onConflict : string) (columns : bytes)
    (constraintDefinitions : list bytes) (comment : option string) (tags : option metadata)
    (options layout : option bytes)
| TableDrop (path : SchemaPath) (name : string) (ignoreNotFound : bool)
| ViewGet (path : SchemaPath) (name : string)
| ViewCreate (path : SchemaPath) (name definition onConflict : string)
    (aliases : option (list string)) (security : string) (comment : option string)
    (tags columnComments : option metadata)
| ViewDrop (path : SchemaPath) (name : string) (ignoreNotFound : bool)
| ViewCommentSet (path : SchemaPath) (name : string) (comment : option string) (ignoreNotFound : bool)
| ViewColumnCommentSet (path : SchemaPath) (name : string) (columnPath : list string)
    (comment : option string) (ignoreNotFound : bool)
| MacroGet (path : SchemaPath) (name : string).

(** A request that carries the attach value [a] ([catalog_attach] ignores it). *)
Definition handle (m : Catalog) (a : bytes) (r : request) : handler :=
  match r with
  | CatalogAttach n caps token => attach m n caps token
  | CatalogDetach => detach m a
  | CatalogVersionReq => versionRPC m a
  | CatalogContentsReq h inm => contents m h a inm
  | TransactionBeginReq => (Ok (TransactionBegin None), m)
  | TransactionCommitReq | TransactionRollbackReq => (Ok NoResult, m)
  | SchemasReq => schemasRPC m a
  | SchemaGet p => schemaGet m a p
  | SchemaCreate p oc c t o => schemaCreate m a p oc c t o
  | SchemaDrop p i c => schemaDrop m a p i c
  | ContentsTables p => listObjects m a p false
  | ContentsViews p => listObjects m a p true
  | ContentsFunctions _ | ContentsMacros _ | CopyFromFormats | MacroGet _ _ => (Ok (Items []), m)
  | TableGet p n => getObject m a p n false
  | TableCreate p n oc cols cds c t o l => tableCreate m a p n oc cols cds c t o l
  | TableDrop p n i => tableDrop m a p n i
  | ViewGet p n => getObject m a p n true
  | ViewCreate p n d oc al s c t cc => viewCreate m a p n d oc al s c t cc
  | ViewDrop p n i => viewDrop m a p n i
  | ViewCommentSet p n c i => viewCommentSet m a p n c i
  | ViewColumnCommentSet p n cp c i => viewColumnCommentSet m a p n cp c i
  end.

End handlers.

(** ** What an operation does to the state *)

Section effects.
Context `{CatalogItems} `{CatalogStreams} `{CapabilityRows} `{Unicode} `{!RecordCodec}.

(** The ways a DDL changes the schemas of an attach. *)
Inductive ddl (ss : gmap string memorySchema) : gmap string memorySchema -> Prop :=
| ddl_create p c t :
    p <> [] -> (1 < length p -> is_Some (ss !! schemaPathKey (parentPath p))) ->
    ddl ss (<[schemaPathKey p := newMemorySchema p c t]> ss)
| ddl_update p s s' :
    ss !! schemaPathKey p = Some s -> path s' = path s ->
    ddl ss (<[schemaPathKey p := s']> ss)
| ddl_drop key :
    ddl ss (delete key (filter (fun kv : string * memorySchema => ~ isChildKey key (fst kv)) ss)).

(** The outcome of an operation on the attach [a]: nothing changed, or one DDL
    on its state, answered without a result. *)
Definition outcome (m : Catalog) (a : bytes) (out : result rpc_error response * Catalog) : Prop :=
  snd out = m \/
  exists st ss, attaches m !! a = Some st /\ ddl (schemas st) ss /\
    out = (Ok NoResult, setState m a (bump st ss)).

Lemma schema_ok m a p found st :
  schema m a p = Ok (found, st) ->
  attaches m !! a = Some st /\ found = schemas st !! schemaPathKey p.
Proof.
  unfold schema, state. intros E. destruct (attaches m !! a) as [st'|]; [|done].
  apply ok_inj in E. by injection E as <- <-.
Qed.

Lemma setObjects_path v o s : path (setObjects v o s) = path s.
Proof. by destruct v. Qed.

Lemma putObject_outcome m a p n k oc v item : outcome m a (putObject m a p n k oc v item).
Proof.
  unfold putObject. destruct (schema m a p) as [[[s|] st]|] eqn:E; [|by left..].
  apply schema_ok in E as [Ha Hs].
  match goal with |- outcome _ _ (match ?x with _ => _ end) => destruct x as [[]|] end; [|by left..].
  right. eexists st, _. split; [done|]. split; [|done].
  eapply ddl_update; [by rewrite <- Hs|]. apply setObjects_path.
Qed.

Lemma dropObject_outcome m a p n k i v : outcome m a (dropObject m a p n k i v).
Proof.
  unfold dropObject. destruct (schema m a p) as [[found st]|] eqn:E; [|by left].
  apply schema_ok in E as [Ha Hs].
  destruct (found ≫= _) as [[s o]|] eqn:Ef; [|by destruct i; left].
  apply bind_Some in Ef as (s' & Ef & Eo). apply fmap_Some in Eo as (o' & _ & [= <- <-]).
  right. eexists st, _. split; [done|]. split; [|done].
  eapply ddl_update; [by rewrite <- Hs|]. apply setObjects_path.
Qed.

Lemma changeViewComment_outcome m a p n cp c i : outcome m a (changeViewComment m a p n cp c i).
Proof.
  unfold changeViewComment. destruct (schema m a p) as [[found st]|] eqn:E; [|by left].
  apply schema_ok in E as [Ha Hs].
  destruct (found ≫= _) as [[s o]|] eqn:Ef; [|by destruct i; left].
  apply bind_Some in Ef as (s' & Ef & Eo). apply fmap_Some in Eo as (o' & _ & [= <- <-]).
  match goal with |- outcome _ _ (match ?x with _ => _ end) => destruct x end; [|by left].
  right. eexists st, _. split; [done|]. split; [|done].
  eapply ddl_update; [by rewrite <- Hs|done].
Qed.

Lemma schemaCreate_outcome m a p oc c t o : outcome m a (schemaCreate m a p oc c t o).
Proof.
  unfold schemaCreate. destruct o; [by left|].
  destruct (schema m a p) as [[found st]|] eqn:E; [|by left].
  apply schema_ok in E as [Ha Hs].
  destruct (bool_decide (length p = 0)) eqn:Ez; [by left|].
  match goal with |- outcome _ _ (match ?x with _ => _ end) => destruct x as [[]|] end; [|by left..].
  destruct (_ && _) eqn:Ep; [by left|].
  right. eexists st, _. split; [done|]. split; [|done]. apply ddl_create.
  - intros ->. by bool_hyps.
  - intros Hl. apply andb_false_iff in Ep as [Ep|Ep]; bool_hyps; [lia|done].
Qed.

Lemma schemaDrop_outcome m a p i c : outcome m a (schemaDrop m a p i c).
Proof.
  unfold schemaDrop. destruct (schema m a p) as [[[s|] st]|] eqn:E;
    [|by destruct i; left|by left].
  apply schema_ok in E as [Ha Hs]. destruct (_ && _); [by left|].
  right. eexists st, _. split; [done|]. split; [|done]. apply ddl_drop.
Qed.

Lemma handle_outcome m a r :
  (forall n caps t, r <> CatalogAttach n caps t) -> r <> CatalogDetach ->
  outcome m a (handle m a r).
Proof.
  intros Ha Hd. destruct r; cbn [handle]; try (by left);
    auto using schemaCreate_outcome, schemaDrop_outcome.
  - by destruct (Ha reqName clientCapabilities token).
  - left. unfold versionRPC. by destruct (state m a).
  - left. unfold contents. destruct (state m a); [|done]. by destruct (answerCatalogContents _ _ _ _ _).
  - left. unfold schemasRPC. destruct (state m a); [|done]. by destruct (map_result _ _).
  - left. unfold schemaGet. destruct (schema m a _) as [[[]]|]; try done. by destruct (schemaItem _ _).
  - left. unfold listObjects. by destruct (schema m a _) as [[[]]|].
  - left. unfold listObjects. by destruct (schema m a _) as [[[]]|].
  - left. unfold getObject. destruct (schema m a _) as [[[]]|]; try done. by destruct (objects _ _ !! _).
  - unfold tableCreate. repeat (break_match; try (by left)). apply putObject_outcome.
  - apply dropObject_outcome.
  - left. unfold getObject. destruct (schema m a _) as [[[]]|]; try done. by destruct (objects _ _ !! _).
  - unfold viewCreate. repeat (break_match; try (by left)). apply putObject_outcome.
  - apply dropObject_outcome.
  - apply changeViewComment_outcome.
  - unfold viewColumnCommentSet. repeat (break_match; try (by left)).
    apply changeViewComment_outcome.
Qed.

(** What [catalog_attach] does to the state: nothing, or a fresh state under
    the value it mints. *)
Lemma attach_outcome m n caps token out :
  attach m n caps token = out ->
  snd out = m \/ exists t, token = Some t /\
    snd out = setState m (sb (name m) ++ x00 :: sb (hex_encode t)) freshState.
Proof.
  unfold attach. intros <-. destruct (negb _); [by left|]. destruct token as [t|]; [|by left].
  right. exists t. split; [done|]. by destruct (lift_caps _) as [[]|].
Qed.

(** ** The invariant of a state *)

(** Every schema sits under the key of its own, non-empty path, and so does its
    parent's. *)
Definition wf (ss : gmap string memorySchema) : Prop :=
  forall k s, ss !! k = Some s ->
    k = schemaPathKey (path s) /\ path s <> [] /\
    (1 < length (path s) -> is_Some (ss !! schemaPathKey (parentPath (path s)))).

Lemma parent_child_key p :
  1 < length p -> isChildKey (schemaPathKey (parentPath p)) (schemaPathKey p).
Proof.
  intros Hl. unfold isChildKey, schemaPathKey, parentPath. apply has_prefix_spec.
  induction p as [|a p IH]; [cbn in Hl; lia|].
  destruct p as [|b p]; [cbn in Hl; lia|].
  destruct p as [|c p].
  - exists (sb (ToLower b)). cbn [take length Nat.sub map Join].
    change (Join [ToLower a; ToLower b] NUL) with (ToLower a +:+ NUL +:+ ToLower b).
    by rewrite !sb_app, sb_NUL, <- app_assoc.
  - destruct IH as [t Ht]; [cbn; lia|]. exists t.
    replace (take (length (a :: b :: c :: p) - 1) (a :: b :: c :: p))
      with (a :: take (length (b :: c :: p) - 1) (b :: c :: p)) by done.
    assert (forall l, l <> [] -> sb (Join (map ToLower (a :: l)) NUL)
              = sb (ToLower a) ++ x00 :: sb (Join (map ToLower l) NUL)) as Hc.
    { intros l Hne. apply (sb_Join_cons (ToLower a)). by destruct l. }
    rewrite !Hc by done. rewrite Ht. by rewrite <- !app_assoc.
Qed.

Lemma isChildKey_trans a b c : isChildKey a b -> isChildKey b c -> isChildKey a c.
Proof.
  unfold isChildKey. rewrite !has_prefix_spec. intros [t Ht] [u Hu].
  rewrite Hu, Ht. exists (t ++ [x00] ++ u). by rewrite <- !app_assoc.
Qed.

Lemma fresh_wf : wf (schemas freshState).
Proof.
  intros k s. cbn. intros [<- <-]%lookup_singleton_Some. cbn.
  split; [|split; [done|lia]]. unfold schemaPathKey. cbn. by rewrite ToLower_ascii by done.
Qed.

Lemma ddl_wf ss ss' : wf ss -> ddl ss ss' -> wf ss'.
Proof.
  intros Hw Hd. destruct Hd as [p c t Hp Hpar|p s s' Hs Hpath|key]; intros k x Hx.
  - apply lookup_insert_Some in Hx as [[<- <-]|[Hk Hx]]; cbn.
    + split; [done|]. split; [done|]. intros Hl. apply Hpar in Hl.
      destruct (decide (schemaPathKey (parentPath p) = schemaPathKey p)) as [->|Hne].
      * rewrite lookup_insert_eq. eauto.
      * by rewrite lookup_insert_ne.
    + destruct (Hw k x Hx) as (? & ? & Hpx). split; [done|]. split; [done|]. intros Hl.
      destruct (decide (schemaPathKey p = schemaPathKey (parentPath (path x)))) as [->|Hne].
      * rewrite lookup_insert_eq. eauto.
      * rewrite lookup_insert_ne by done. auto.
  - assert (forall q, is_Some (ss !! q) -> is_Some (<[schemaPathKey p := s']> ss !! q)) as Hmono.
    { intros q Hq. destruct (decide (schemaPathKey p = q)) as [->|Hne];
        [rewrite lookup_insert_eq; eauto|by rewrite lookup_insert_ne]. }
    apply lookup_insert_Some in Hx as [[<- <-]|[Hk Hx]].
    + destruct (Hw _ _ Hs) as (E & ? & ?). rewrite Hpath. auto.
    + destruct (Hw k x Hx) as (? & ? & ?). auto.
  - apply lookup_delete_Some in Hx as [Hk Hx]. apply map_lookup_filter_Some in Hx as [Hx Hc].
    cbn in Hc. destruct (Hw k x Hx) as (E & Hn & Hpar). split; [done|]. split; [done|].
    intros Hl. destruct (Hpar Hl) as [q Hq]. exists q.
    pose proof (parent_child_key (path x) Hl) as Hch. rewrite <- E in Hch.
    apply lookup_delete_Some. split.
    + intros Ek. apply Hc. by rewrite Ek.
    + apply map_lookup_filter_Some. split; [done|]. cbn. intros Hc'. apply Hc.
      by eapply isChildKey_trans.
Qed.

(** The catalogs a sequence of requests leads to. *)
Inductive reachable : Catalog -> Prop :=
| reachable_new n c u o e : reachable (NewMemoryCatalog n c u o e)
| reachable_step m a r resp m' :
    reachable m -> handle m a r = (resp, m') -> reachable m'.

Definition catalog_wf (m : Catalog) : Prop :=
  forall a st, attaches m !! a = Some st -> wf (schemas st).

Lemma setState_wf m a st : catalog_wf m -> wf (schemas st) -> catalog_wf (setState m a st).
Proof.
  intros Hm Hs b st'. cbn. intros [[<- <-]|[_ Hb]]%lookup_insert_Some; [done|]. by eapply Hm.
Qed.

Lemma handle_wf m a r resp m' : catalog_wf m -> handle m a r = (resp, m') -> catalog_wf m'.
Proof.
  intros Hw E.
  assert (outcome m a (handle m a r) \/ r = CatalogDetach \/
          exists n caps t, r = CatalogAttach n caps t) as Hc.
  { destruct r; try (left; by apply handle_outcome); right; [right; eauto|by left]. }
  destruct Hc as [[Ho|(st & ss & Ha & Hd & Ho)]|[->|(n & caps & t & ->)]].
  - rewrite E in Ho. cbn in Ho. by subst m'.
  - rewrite Ho in E. injection E as <- <-. apply setState_wf; [done|]. cbn.
    eapply ddl_wf; [by eapply Hw|done].
  - cbn in E. injection E as <- <-. intros b st. cbn.
    intros [_ Hb]%lookup_delete_Some. by eapply Hw.
  - cbn [handle] in E. apply attach_outcome in E as [E|(t' & _ & E)]; cbn in E; subst m'; [done|].
    apply setState_wf; [done|apply fresh_wf].
Qed.

Lemma reachable_wf m : reachable m -> catalog_wf m.
Proof.
  induction 1 as [|m a r resp m' Hr IH E]; [|by eapply handle_wf].
  intros a st. cbn. by rewrite lookup_empty.
Qed.

End effects.

(** ** Lookups after a change *)

Section lookups.
Context `{CatalogItems} `{CatalogStreams} `{CapabilityRows} `{Unicode} `{!RecordCodec}.

(** The item an attach has for a name, as [getObject] reads it. *)
Definition item_of (m : Catalog) (a : bytes) (p : SchemaPath) (n : string) (v : bool) : option bytes :=
  st ← attaches m !! a; s ← schemas st !! schemaPathKey p;
  objItem <$> objects v s !! ToLower n.

Lemma getObject_item m a p n v :
  is_Some (attaches m !! a) ->
  getObject m a p n v = (Ok (Items (option_list (item_of m a p n v))), m).
Proof.
  intros [st Hst]. unfold getObject, schema, state, item_of. rewrite Hst. cbn.
  destruct (schemas st !! _) as [s|]; [|done]. cbn. by destruct (objects v s !! _).
Qed.

Lemma objects_setObjects v v' o s :
  objects v' (setObjects v o s) = if bool_decide (v' = v) then o else objects v' s.
Proof. by destruct v, v'. Qed.

(** Replacing the objects of kind [v] in the schema of [p] by [o]. *)
Lemma item_of_update m a st s p v o q n v' :
  attaches m !! a = Some st -> schemas st !! schemaPathKey p = Some s ->
  item_of (setState m a (bump st (<[schemaPathKey p := setObjects v o s]> (schemas st)))) a q n v'
  = if bool_decide (schemaPathKey q = schemaPathKey p /\ v' = v)
    then objItem <$> o !! ToLower n else item_of m a q n v'.
Proof.
  intros Ha Hs. unfold item_of, setState, withAttaches, bump. cbn.
  rewrite lookup_insert_eq, Ha. cbn.
  destruct (decide (schemaPathKey q = schemaPathKey p)) as [E|Hne].
  - rewrite E, lookup_insert_eq, Hs. cbn. rewrite objects_setObjects.
    destruct (decide (v' = v)) as [->|Hv].
    + by rewrite !bool_decide_true.
    + by rewrite !bool_decide_false by tauto.
  - rewrite lookup_insert_ne by done. by rewrite bool_decide_false by tauto.
Qed.

Lemma putObject_inv m a p n k oc v item resp m' :
  putObject m a p n k oc v item = (Ok resp, m') ->
  resp = NoResult /\ exists st s, attaches m !! a = Some st /\
    schemas st !! schemaPathKey p = Some s /\
    ((is_Some (objects v s !! ToLower n) /\ parseOnConflict oc = onConflictIgnore /\ m' = m) \/
     ((objects v s !! ToLower n = None \/ parseOnConflict oc = onConflictReplace) /\
      m' = setState m a (bump st (<[schemaPathKey p := setObjects v
             (<[ToLower n := {| objName := n; objItem := item |}]> (objects v s)) s]> (schemas st))))).
Proof.
  unfold putObject. intros E.
  destruct (schema m a p) as [[[s|] st]|] eqn:Es; [|done..].
  apply schema_ok in Es as [Ha Hs].
  destruct (objects v s !! ToLower n) as [o|] eqn:Eo; cbn in E.
  - unfold onConflictReplaces in E. destruct (parseOnConflict oc) eqn:Ec; [done|..];
      injection E as <- <-; (split; [done|]); exists st, s; (split; [done|]); (split; [done|]).
    + right. auto.
    + left. eauto.
  - injection E as <- <-. split; [done|]. exists st, s. split; [done|]. split; [done|].
    right. auto.
Qed.

Lemma elem_of_sorted st x : x ∈ sortedSchemas st <-> exists k, schemas st !! k = Some x.
Proof.
  unfold sortedSchemas. rewrite merge_sort_Permutation. rewrite list_elem_of_fmap. split.
  - intros ([k y] & -> & Hk). exists k. by apply elem_of_map_to_list.
  - intros [k Hk]. exists (k, x). split; [done|]. by apply elem_of_map_to_list.
Qed.

Lemma sorted_keys_NoDup st : wf (schemas st) -> NoDup (schemaPathKey <$> map path (sortedSchemas st)).
Proof.
  intros Hw. unfold sortedSchemas. rewrite merge_sort_Permutation.
  replace (schemaPathKey <$> map path (map snd (map_to_list (schemas st))))
    with (map fst (map_to_list (schemas st))); [apply NoDup_fst_map_to_list|].
  change (schemaPathKey <$> map path (map snd (map_to_list (schemas st)))) with
    (map schemaPathKey (map path (map snd (map_to_list (schemas st))))).
  rewrite !map_map. apply map_ext_in. intros [k s] Hin.
  apply list_elem_of_In, elem_of_map_to_list in Hin. by apply (Hw k s Hin).
Qed.

Lemma snapshot_inv m a l :
  snapshot m a = Ok l ->
  exists st, attaches m !! a = Some st /\ map Path l = map path (sortedSchemas st).
Proof.
  unfold snapshot, state. intros E. destruct (attaches m !! a) as [st|]; [|done].
  apply map_result_inv in E. exists st. split; [done|].
  induction E as [|s c ss cs Hsc _ IH]; [done|]. cbn. rewrite IH.
  destruct (schemaItem a s); [|done]. by apply ok_inj in Hsc as <-.
Qed.

(** The attaches other than [a] are not touched. *)
Lemma outcome_frame m a resp m' b :
  outcome m a (resp, m') -> b <> a -> attaches m' !! b = attaches m !! b.
Proof.
  intros [E|(st & ss & _ & _ & E)] Hb; cbn in E; [by subst m'|].
  injection E as -> ->. cbn. by rewrite lookup_insert_ne.
Qed.

End lookups.

(** ** Properties *)

Section memory_properties.
Context `{CatalogItems} `{CatalogStreams} `{CapabilityRows} `{Unicode} `{!RecordCodec}.

(** C36: every ATTACH is private. No request made under one attach value
    changes what any other attach has, and ATTACH itself only adds a fresh
    state, with version 1 and an empty main schema, under the value it mints. *)
Theorem attaches_isolated m a r resp m' b :
  handle m a r = (resp, m') -> b <> a ->
  (forall n caps t, r = CatalogAttach n caps (Some t) -> b <> sb (name m) ++ x00 :: sb (hex_encode t)) ->
  attaches m' !! b = attaches m !! b.
Proof.
  intros E Hb Hf.
  assert (outcome m a (handle m a r) \/ r = CatalogDetach \/
          exists n caps t, r = CatalogAttach n caps t) as Hc.
  { destruct r; try (left; by apply handle_outcome); right; [right; eauto|by left]. }
  destruct Hc as [Ho|[->|(n & caps & t & ->)]].
  - rewrite E in Ho. by apply (outcome_frame _ _ _ _ _ Ho).
  - cbn in E. injection E as <- <-. cbn. by rewrite lookup_delete_ne.
  - cbn [handle] in E. apply attach_outcome in E as [E|(t' & -> & E)]; cbn in E; subst m'; [done|].
    cbn. rewrite lookup_insert_ne; [done|]. intros Ek. by apply (Hf n caps t').
Qed.

(** the version counts the DDLs. A request on an attach, other than
    detaching it, either leaves the whole catalog as it was, or is one
    successful DDL, which answers nothing and adds one to the attach's version.
    A failed request changes nothing. *)
Theorem version_counts_ddl m a r resp m' st :
  handle m a r = (resp, m') -> attaches m !! a = Some st ->
  (forall n caps t, r <> CatalogAttach n caps t) -> r <> CatalogDetach ->
  m' = m \/
  (resp = Ok NoResult /\ exists st', attaches m' !! a = Some st' /\
     version st' = s64 (version st + 1) /\ ddl (schemas st) (schemas st')).
Proof.
  intros E Ha Hn Hd. pose proof (handle_outcome m a r Hn Hd) as Ho. rewrite E in Ho.
  destruct Ho as [Ho|(st0 & ss & Ha' & Hdd & Ho)]; [by left|right].
  rewrite Ha in Ha'. injection Ha' as <-. injection Ho as -> ->. split; [done|].
  exists (bump st ss). cbn. by rewrite lookup_insert_eq.
Qed.

(** C10: every reachable catalog is well formed, and so is what it serves. In
    every attach each schema is stored under its own path's key, next to its
    parent, and whenever the snapshot of its contents is built it passes the
    checks [catalog_contents] makes: non-empty unique paths, every parent
    present. *)
Theorem reachable_contents_valid m a st l :
  reachable m -> attaches m !! a = Some st -> snapshot m a = Ok l ->
  wf (schemas st) /\ map Path l = map path (sortedSchemas st) /\
  checkContentsPaths l false = Ok tt.
Proof.
  intros Hr Ha E. pose proof (reachable_wf m Hr a st Ha) as Hw. split; [done|].
  apply snapshot_inv in E as (st' & Ha' & Hl). rewrite Ha in Ha'. injection Ha' as <-.
  split; [done|]. apply checkContentsPaths_intro.
  - change (map (fun s => schemaPathKey (Path s)) l) with ((schemaPathKey ∘ Path) <$> l).
    rewrite list_fmap_compose. change (Path <$> l) with (map Path l). rewrite Hl.
    by apply sorted_keys_NoDup.
  - intros s Hs. assert (Path s ∈ map Path l) as Hin by (apply list_elem_of_fmap; eauto).
    rewrite Hl in Hin. apply list_elem_of_fmap in Hin as (x & -> & Hx).
    apply elem_of_sorted in Hx as [k Hk]. by apply (Hw k x Hk).
  - intros s Hs Hlen. assert (Path s ∈ map Path l) as Hin by (apply list_elem_of_fmap; eauto).
    rewrite Hl in Hin. apply list_elem_of_fmap in Hin as (x & Ex & Hx).
    apply elem_of_sorted in Hx as [k Hk]. destruct (Hw k x Hk) as (_ & _ & Hp).
    rewrite Ex in Hlen. destruct (Hp Hlen) as [q Hq].
    assert (path q ∈ map Path l) as Hinq.
    { rewrite Hl. apply list_elem_of_fmap. exists q. split; [done|].
      apply elem_of_sorted. eauto. }
    apply list_elem_of_fmap in Hinq as (p & Ep & Hpin). exists p. split; [done|].
    rewrite <- Ep, Ex. symmetry. by apply (Hw _ _ Hq).
Qed.

(** CREATE then GET. A successful CREATE of a table or a view changes
    exactly one name of one kind in one schema, compared without case: there
    the item becomes the new one, unless an existing object was kept under
    on_conflict IGNORE; every other lookup answers as before. *)
Theorem create_then_get m a p n k oc v item resp m' q n' v' :
  putObject m a p n k oc v item = (Ok resp, m') ->
  getObject m' a q n' v' =
    (Ok (Items (option_list
       (if bool_decide (schemaPathKey q = schemaPathKey p /\ ToLower n' = ToLower n /\ v' = v /\
                        (item_of m a p n v = None \/ parseOnConflict oc = onConflictReplace))
        then Some item else item_of m a q n' v'))), m').
Proof.
  intros E. apply putObject_inv in E as (_ & st & s & Ha & Hs & Hc).
  assert (is_Some (attaches m' !! a)) as Hm'.
  { destruct Hc as [(_ & _ & ->)|[_ ->]]; [by eauto|]. cbn. rewrite lookup_insert_eq. eauto. }
  rewrite getObject_item by done. do 3 f_equal.
  assert (item_of m a p n v = objItem <$> objects v s !! ToLower n) as Hi.
  { unfold item_of. rewrite Ha. cbn. by rewrite Hs. }
  destruct Hc as [([o Ho] & Hoc & ->)|[Hc ->]].
  - rewrite bool_decide_false; [done|]. rewrite Hi, Ho, Hoc. cbn. naive_solver.
  - rewrite (item_of_update _ _ _ _ _ _ _ _ _ _ Ha Hs).
    destruct (decide (schemaPathKey q = schemaPathKey p /\ v' = v)) as [[Hq ->]|Hne].
    + rewrite bool_decide_true by done. destruct (decide (ToLower n' = ToLower n)) as [En|Hn].
      * rewrite En, lookup_insert_eq. rewrite bool_decide_true; [done|].
        repeat (split; [done|]). rewrite Hi. destruct Hc as [->|Hc]; [by left|by right].
      * rewrite lookup_insert_ne by done. rewrite (bool_decide_false (_ /\ _)) by tauto.
        unfold item_of. rewrite Ha. cbn. by rewrite Hq, Hs.
    + rewrite !bool_decide_false by tauto. done.
Qed.

(** DROP then GET. A successful DROP of a table or a view removes that
    name of that kind in that schema, if it was there, and nothing else; with
    ignore_not_found it always succeeds on an attached catalog, without it
    exactly when the object was there. *)
Theorem drop_then_get m a p n k i v q n' v' st :
  attaches m !! a = Some st ->
  let out := dropObject m a p n k i v in
  is_ok (fst out) = i || bool_decide (is_Some (item_of m a p n v)) /\
  getObject (snd out) a q n' v' =
    (Ok (Items (option_list
       (if bool_decide (schemaPathKey q = schemaPathKey p /\ ToLower n' = ToLower n /\ v' = v)
        then None else item_of m a q n' v'))), snd out).
Proof.
  intros Ha. cbv zeta. unfold dropObject, schema, state. rewrite Ha.
  destruct (schemas st !! schemaPathKey p ≫= fun s => pair s <$> objects v s !! ToLower n)
    as [[s o]|] eqn:Ef.
  - apply bind_Some in Ef as (s' & Hs & Eo). apply fmap_Some in Eo as (o' & Eo & [= <- <-]).
    assert (item_of m a p n v = Some (objItem o)) as Hi.
    { unfold item_of. rewrite Ha. cbn. rewrite Hs. cbn. by rewrite Eo. }
    rewrite Hi. cbn [fst snd is_ok]. rewrite (bool_decide_true (is_Some _)), orb_true_r by done.
    split; [done|]. rewrite getObject_item by (cbn; rewrite lookup_insert_eq; eauto). do 3 f_equal.
    rewrite (item_of_update _ _ _ _ _ _ _ _ _ _ Ha Hs).
    destruct (decide (schemaPathKey q = schemaPathKey p /\ v' = v)) as [[Hq ->]|Hne].
    + rewrite bool_decide_true by done. destruct (decide (ToLower n' = ToLower n)) as [En|Hn].
      * rewrite En, lookup_delete_eq. by rewrite bool_decide_true.
      * rewrite lookup_delete_ne by done. rewrite (bool_decide_false (_ /\ _)) by tauto.
        unfold item_of. rewrite Ha. cbn. by rewrite Hq, Hs.
    + rewrite !bool_decide_false by tauto. done.
  - assert (item_of m a p n v = None) as Hi.
    { unfold item_of. rewrite Ha. cbn. destruct (schemas st !! _) as [s|]; cbn in *; [|done].
      by destruct (objects v s !! _). }
    rewrite Hi. rewrite (bool_decide_false (is_Some None)) by by intros [? ?].
    split; [by destruct i|].
    replace (snd (if i then (Ok NoResult, m) else _)) with m by by destruct i.
    rewrite getObject_item by eauto. do 3 f_equal.
    destruct (bool_decide _) eqn:Eb; [|done]. apply bool_decide_eq_true in Eb as (Hq & En & ->).
    rewrite <- Hi. unfold item_of. by rewrite Hq, En.
Qed.

(** DROP SCHEMA. When it drops a schema, exactly that schema and its
    descendants go and every other schema stays as it was; without CASCADE the
    schema had no tables, no views and no descendants. *)
Theorem schema_drop_exact m a p i c st s resp m' :
  attaches m !! a = Some st -> schemas st !! schemaPathKey p = Some s ->
  schemaDrop m a p i c = (Ok resp, m') ->
  exists st', attaches m' !! a = Some st' /\
    (forall k, schemas st' !! k =
       if decide (k = schemaPathKey p \/ isChildKey (schemaPathKey p) k) then None
       else schemas st !! k) /\
    (c = false -> tables s = ∅ /\ views s = ∅ /\
       forall k, isChildKey (schemaPathKey p) k -> schemas st !! k = None).
Proof.
  intros Ha Hs E. unfold schemaDrop, schema, state in E. rewrite Ha in E. cbn in E.
  rewrite Hs in E. destruct (_ && _) eqn:Ec; [done|]. injection E as <- <-. cbn.
  eexists. rewrite lookup_insert_eq. split; [done|]. cbn [schemas bump]. split.
  - intros k. destruct (decide (k = schemaPathKey p)) as [->|Hne].
    { rewrite lookup_delete_eq, decide_True by auto. done. }
    rewrite lookup_delete_ne by done. rewrite map_lookup_filter.
    destruct (schemas st !! k) as [x|] eqn:Ek; cbn; [|by case_decide].
    destruct (decide (isChildKey (schemaPathKey p) k)) as [Hc|Hc].
    + rewrite decide_True by auto. case_guard; [done|done].
    + rewrite decide_False by tauto. by case_guard.
  - intros ->. cbn in Ec. bool_hyps. split; [done|]. split; [done|]. intros k Hk.
    destruct (schemas st !! k) as [x|] eqn:Ek; [|done]. exfalso.
    match goal with H : filter _ _ = ∅ |- _ => rename H into Hf end.
    assert (filter (fun kv : string * memorySchema => isChildKey (schemaPathKey p) (fst kv))
              (schemas st) !! k = Some x) as Hin by by apply map_lookup_filter_Some.
    rewrite Hf in Hin. by rewrite lookup_empty in Hin.
Qed.

End memory_properties.

(** ** A NUL inside a component

    Keys join the lower-cased components with NUL, so a component that holds a
    NUL aliases a nested path: CREATE SCHEMA of the one-component path makes the
    two-component path exist, without its parent. *)
Lemma nul_component_aliases `{Unicode} :
  schemaPathKey ["a" +:+ NUL +:+ "b"] = schemaPathKey ["a"; "b"].
Proof.
  unfold schemaPathKey. cbn [map Join]. rewrite !ToLower_ascii by done. reflexivity.
Qed.

(** ** Witnesses *)

(** Item formats for the witnesses: NUL-terminated fields. A view the reader
    would not give back is refused. *)
Module TextItems.
Definition fields (l : list string) : bytes := concat (map (fun c => sb c ++ [x00]) l).
Definition text_view (v : ViewInfo) : bytes :=
  fields (vName v :: vDefinition v :: (match vComment v with None => "-" | Some c => "+" +:+ c end)
          :: vSchemaPath v).
Definition read_view (b : bytes) : result rpc_error ViewInfo :=
  match map_opt id (fst (TextStreams.components (length b) b)) with
  | Some (n :: d :: c :: p) =>
      Ok {| vName := n; vSchemaPath := p; vDefinition := d; vAliases := [];
            vComment := match sb c with x2b :: c => Some (bstr c) | _ => None end;
            vTags := ∅; vColumnComments := ∅ |}
  | _ => Err (PlainError "view")
  end.
Definition write_view (v : ViewInfo) : result rpc_error bytes :=
  if decide (read_view (text_view v) = Ok v) then Ok (text_view v) else Err (PlainError "view").
Lemma read_write_view v b : write_view v = Ok b -> read_view b = Ok v.
Proof. unfold write_view. intros E. case_decide; [by apply ok_inj in E as <-|done]. Qed.

#[export] Instance items : CatalogItems :=
  {| SerializeTableInfo := fun t => Ok (fields (tName t :: tSchemaPath t));
     SerializeViewInfo := write_view;
     SerializeSchemaInfo := fun s => Ok (fields (siPath s));
     DeserializeViewInfo := read_view;
     DeserializeSchema := fun b => Ok [MkColumn (bstr b) (PlainType INT64) true []];
     view_info_round_trip := read_write_view |}.
End TextItems.

Module MemoryExamples.
#[local] Existing Instance AsciiText.ascii_text.
#[local] Existing Instance TextItems.items.
#[local] Existing Instance TextStreams.streams.
#[local] Existing Instance LineRows.rows.
#[local] Existing Instance CodecExample.codec.

Definition m0 : Catalog := NewMemoryCatalog "mem" "" false false EtagNone.
Definition m1 : Catalog := snd (handle m0 [] (CatalogAttach "mem" None (Some [x01]))).
Definition m2 : Catalog := snd (handle m1 [] (CatalogAttach "mem" None (Some [x02]))).
Definition a1 : bytes := sb "mem" ++ x00 :: sb "01".
Definition a2 : bytes := sb "mem" ++ x00 :: sb "02".
Definition m3 : Catalog := snd (handle m2 a1 (SchemaCreate ["Main"; "Sub"] "ERROR" None None None)).
Definition createView : request :=
  ViewCreate ["main"; "sub"] "V" "select 1" "error" None "regular" (Some "hi") None None.
Definition m4 : Catalog := snd (handle m3 a1 createView).
Definition item : bytes := TextItems.fields ["V"; "select 1"; "+hi"; "main"; "sub"].
Definition st4 : memoryState := default freshState (attaches m4 !! a1).
Definition contents4 : list SchemaContents :=
  match snapshot m4 a1 with Ok l => l | Err _ => [] end.

(** A view created in a nested schema is listed, read back without regard to
    case, and invisible to the other attach. *)
Example view_visible : fst (handle m4 a1 (ViewGet ["MAIN"; "Sub"] "v")) = Ok (Items [item]).
Proof. vm_compute. reflexivity. Qed.
Example view_private : fst (handle m4 a2 (ViewGet ["MAIN"; "Sub"] "v")) = Ok (Items []).
Proof. vm_compute. reflexivity. Qed.
Example drop_refused :
  is_ok (fst (handle m4 a1 (SchemaDrop ["main"] false false))) = false.
Proof. vm_compute. reflexivity. Qed.
Example missing_parent :
  fst (handle m4 a1 (SchemaCreate ["x"; "y"] "ERROR" None None None))
  = Err (ValueError "Schema x does not exist").
Proof. vm_compute. reflexivity. Qed.

Lemma m4_reachable : reachable m4.
Proof.
  apply (reachable_step m3 a1 createView (Ok NoResult)); [|vm_compute; reflexivity].
  apply (reachable_step m2 a1 (SchemaCreate ["Main"; "Sub"] "ERROR" None None None) (Ok NoResult));
    [|vm_compute; reflexivity].
  eapply (reachable_step m1 [] (CatalogAttach "mem" None (Some [x02]))); [|apply surjective_pairing].
  eapply (reachable_step m0 [] (CatalogAttach "mem" None (Some [x01]))); [|apply surjective_pairing].
  apply reachable_new.
Qed.
End MemoryExamples.
Import MemoryExamples.

#[local] Existing Instance AsciiText.ascii_text.
#[local] Existing Instance TextItems.items.
#[local] Existing Instance TextStreams.streams.
#[local] Existing Instance LineRows.rows.
#[local] Existing Instance CodecExample.codec.

Lemma attaches_isolated_witness : attaches m4 !! a2 = attaches m3 !! a2.
Proof.
  exact (attaches_isolated (H := TextItems.items) (H0 := TextStreams.streams) (H1 := LineRows.rows)
    (H2 := AsciiText.ascii_text) m3 a1 createView (Ok NoResult) m4 a2
    ltac:(vm_compute; reflexivity) ltac:(vm_compute; discriminate) ltac:(intros; discriminate)).
Defined.

Lemma version_counts_ddl_witness :
  m4 = m3 \/ (@Ok rpc_error _ NoResult = Ok NoResult /\ exists st', attaches m4 !! a1 = Some st' /\
    version st' = s64 (version (default freshState (attaches m3 !! a1)) + 1) /\
    ddl (schemas (default freshState (attaches m3 !! a1))) (schemas st')).
Proof.
  exact (version_counts_ddl (H := TextItems.items) (H0 := TextStreams.streams) (H1 := LineRows.rows)
    (H2 := AsciiText.ascii_text) m3 a1 createView (Ok NoResult) m4
    (default freshState (attaches m3 !! a1))
    ltac:(vm_compute; reflexivity) ltac:(vm_compute; reflexivity)
    ltac:(intros; discriminate) ltac:(discriminate)).
Defined.

Lemma reachable_contents_valid_witness : checkContentsPaths contents4 false = Ok tt.
Proof.
  exact (proj2 (proj2 (reachable_contents_valid (H := TextItems.items) (H0 := TextStreams.streams)
    (H1 := LineRows.rows) (H2 := AsciiText.ascii_text) m4 a1 st4 contents4 m4_reachable
    ltac:(vm_compute; reflexivity) ltac:(vm_compute; reflexivity)))).
Defined.

Lemma create_then_get_witness :
  getObject m4 a1 ["MAIN"; "SUB"] "v" true = (Ok (Items [item]), m4).
Proof.
  exact (create_then_get (H2 := AsciiText.ascii_text)
    m3 a1 ["main"; "sub"] "V" "View" "error" true item NoResult m4 ["MAIN"; "SUB"] "v" true
    ltac:(vm_compute; reflexivity)).
Defined.

Lemma drop_then_get_witness :
  is_ok (fst (dropObject m4 a1 ["main"; "sub"] "v" "View" false true)) = true.
Proof.
  exact (proj1 (drop_then_get (H2 := AsciiText.ascii_text)
    m4 a1 ["main"; "sub"] "v" "View" false true ["main"] "x" true st4
    ltac:(vm_compute; reflexivity))).
Defined.

Lemma schema_drop_exact_witness :
  exists st', attaches (snd (schemaDrop m4 a1 ["main"] false true)) !! a1 = Some st' /\
    schemas st' !! "main" = None.
Proof.
  destruct (schema_drop_exact (H2 := AsciiText.ascii_text) m4 a1 ["main"] false true st4
    (newMemorySchema ["main"] None ∅) NoResult (snd (schemaDrop m4 a1 ["main"] false true))
    ltac:(vm_compute; reflexivity) ltac:(vm_compute; reflexivity)
    ltac:(vm_compute; reflexivity)) as (st' & Ha & Hk & _).
  exists st'. split; [exact Ha|]. rewrite Hk. reflexivity.
Defined.
