(* ===== verification/ConstraintTables.v ===== *)
(** * ConstraintTables: what the records of a table come to (vgi/constraint_records.go)

    The records of one table are read in order, each against what the ones
    before it left. Here that reading is shown equal to conditions on the records
    as a set, and the nullability a table is served with to what its records
    require. *)

From S2P Require Import Prelude Bytes Strings Unicode Strconv ArrowTypes.
From S2P Require Import SqlTokens SqlParser SqlGrammar Columns SqlChecks ConstraintRecords.

Section tables.
Context `{Unicode} (ParseFloat : string -> bool) (uni_class : bytes -> rune_class) (fold : string -> string).
Abbreviation valid_check cols sql := (validateNumericCheckSQL ParseFloat uni_class fold sql cols = Ok ()).

(** ** What a record asks of the columns *)

(** A path leads to a column: one top-level column that is not the row ID, and
    one child of each following name. *)
Definition leads (cols : list Column) (p : path) : Prop :=
  exists n rest c d, p = n :: rest /\ topLevel cols n = Some c /\ descend c rest = Ok d.
Definition fits (cols : option (list Column)) (s : ConstraintRecordSpec) : Prop :=
  match cols with
  | None => True
  | Some cs => if bool_decide (Kind s = ConstraintCheck) then valid_check (Some cs) (CheckSQL s)
               else Forall (leads cs) (Columns s)
  end.
(** The paths a record makes non-nullable, its label, and whether it is a primary key. *)
Definition requires (s : ConstraintRecordSpec) : list path :=
  if bool_decide (Kind s ∈ [ConstraintNotNull; ConstraintPrimaryKey]) then Columns s else [].
Definition label (s : ConstraintRecordSpec) : list string :=
  if bool_decide (DeclaredName s = "") then [] else [ToLower (DeclaredName s)].
Definition is_primary (s : ConstraintRecordSpec) : bool := bool_decide (Kind s = ConstraintPrimaryKey).

(** What making a record established. *)
Record well_made (s : ConstraintRecordSpec) : Prop := {
  made_id : validIdentifier (ID s) = true;
  made_schema : exists p, SchemaPath s = [p] /\ validIdentifier p = true;
  made_attested : Enforcement s = ConstraintEnforced /\ Validation s = ConstraintAllRows;
  made_label : DeclaredName s = "" \/ validIdentifier (DeclaredName s) = true;
  made_kind : Kind s ∈ [ConstraintNotNull; ConstraintPrimaryKey; ConstraintUnique; ConstraintCheck; ConstraintForeignKey];
  made_check : Kind s = ConstraintCheck -> CheckSQL s <> "" /\ Columns s = [] /\ valid_check None (CheckSQL s);
  made_columns : Kind s <> ConstraintCheck -> CheckSQL s = "" /\ Columns s <> [];
  made_not_null : Kind s = ConstraintNotNull -> length (Columns s) = 1;
  made_paths : checkColumnPaths (Columns s) (bool_decide (Kind s = ConstraintNotNull)) = Ok ();
  made_reference : if bool_decide (Kind s = ConstraintForeignKey)
                   then exists ref, References s = Some ref /\ checkReference s ref = Ok () else References s = None
}.
Lemma checkSpec_well_made s : checkSpec ParseFloat uni_class fold s = Ok () -> well_made s.
Proof using.
  unfold checkSpec. intros Hs. repeat inv_let. bool_hyps.
  destruct (SchemaPath s) as [|p [|]] eqn:Ep; try done.
  split.
  - done.
  - by exists p.
  - done.
  - apply orb_true_iff in E6 as [E6|E6]; [left; by bool_hyps|by right].
  - done.
  - intros K. rewrite (bool_decide_true (Kind s = ConstraintCheck)) in * by done. cbn [andb negb Bool.eqb] in *.
    destruct (bool_decide (CheckSQL s = "")) eqn:Eq; [done|]. bool_hyps. done.
  - intros K. rewrite (bool_decide_false (Kind s = ConstraintCheck)) in * by done. cbn [andb negb Bool.eqb] in *.
    destruct (bool_decide (CheckSQL s = "")) eqn:Eq; [|done]. by bool_hyps.
  - intros K. rewrite (bool_decide_true (Kind s = ConstraintNotNull)) in * by done. cbn in *. by bool_hyps.
  - done.
  - apply eqb_prop in E13. destruct (References s) as [ref|]; rewrite E13; [|done]. by exists ref.
Qed.

(** ** One record *)

Lemma check_paths_facts nested seen ps : checkPaths nested seen ps = Ok () ->
  checkPaths true seen ps = Ok () /\ (nested = false -> Forall (fun p => length p = 1) ps).
Proof using.
  revert seen. induction ps as [|p ps IH]; intros seen Hp; [done|]. cbn [checkPaths] in *.
  destruct (checkPath nested p) as [[]|] eqn:Ep; [|done]. destruct (bool_decide _); [done|].
  assert (checkPath true p = Ok () /\ (nested = false -> length p = 1)) as [-> Hl].
  { unfold checkPath in *. destruct (_ || _); [done|]. destruct nested; [done|]. cbn [andb negb] in *.
    destruct (bool_decide (length p = 1)) eqn:El; [|done]. by bool_hyps. }
  apply IH in Hp as [-> Hps]. split; [done|]. intros ->. constructor; [by apply Hl|by apply Hps].
Qed.
Lemma column_paths_facts nested ps : checkColumnPaths ps nested = Ok () ->
  checkColumnPaths ps true = Ok () /\ (nested = false -> Forall (fun p => length p = 1) ps).
Proof using. unfold checkColumnPaths. destruct (_ <? _)%nat; [done|]. apply check_paths_facts. Qed.

Lemma resolve_leads cs p : resolveNotNullPath cs p = Ok () <-> leads cs p.
Proof using.
  clear ParseFloat fold uni_class. unfold resolveNotNullPath, leads. destruct p as [|n p]; [split; [done|by intros (?&?&?&?&?&?)]|].
  destruct (topLevel cs n) as [c|] eqn:Et.
  - destruct (descend c p) as [d|] eqn:Ed; split; try done.
    + intros _. by exists n, p, c, d.
    + intros (n' & p' & c' & d & E & E1 & E2). injection E as <- <-. congruence.
  - split; [done|]. intros (n' & p' & c' & d & E & E1 & E2). injection E as <- <-. congruence.
Qed.
Lemma key_columns_lead cols ps : Forall (fun p => length p = 1) ps ->
  checkKeyColumns cols ps = Ok () <-> match cols with None => True | Some cs => Forall (leads cs) ps end.
Proof using.
  clear ParseFloat fold uni_class. induction 1 as [|p ps Hp Hps IH]; [by destruct cols|]. destruct p as [|n [|]]; try done. cbn [checkKeyColumns].
  destruct cols as [cs|]; [|done]. rewrite Forall_cons, <- IH, <- resolve_leads. cbn [resolveNotNullPath].
  destruct (topLevel cs n) as [c|]; cbn; [tauto|]. by split; [|intros [? _]].
Qed.

(** The conditions a record meets on its own, and against those before it. *)
Definition owned (owner : option path) (table : string) (s : ConstraintRecordSpec) : Prop :=
  Table s = table /\ match owner with Some p => SchemaPath s = p | None => True end.
Definition fresh (st : tableState) (s : ConstraintRecordSpec) : Prop :=
  ID s ∉ ids st /\ Forall (fun l => labels st !! l = None) (label s).

Lemma identity_exact owner table st s : well_made s ->
  checkIdentity owner table st (attested s) = Ok () <-> owned owner table s /\ fresh st s.
Proof using.
  intros [Hid (p & Hsp & Hp) [He Hv] Hl _ _ _ _ _ _]. unfold checkIdentity, owned, fresh, label.
  cbn [attested ID SchemaPath Table Enforcement Validation DeclaredName]. rewrite Hid, Hsp, Hp. cbn [andb].
  rewrite (bool_decide_true (_ = ConstraintEnforced)), (bool_decide_true (_ = ConstraintAllRows)) by done. cbn [andb].
  replace (bool_decide (DeclaredName s = "") || validIdentifier (DeclaredName s)) with true
    by (destruct Hl as [-> | ->]; [done|by rewrite orb_true_r]).
  assert (match owner with Some q => bool_decide ([p] = q) | None => true end = true <-> match owner with Some q => [p] = q | None => True end) as Ho
    by (destruct owner; [apply bool_decide_eq_true|done]).
  destruct (bool_decide (Table s = table)) eqn:Et; bool_hyps; cbn [andb]; [|by split; [|intros [[? _] _]]].
  destruct (match owner with Some q => bool_decide ([p] = q) | None => true end) eqn:Eo;
    [|split; [done|]; intros [[_ Hq] _]; by apply Ho in Hq].
  destruct (bool_decide (ID s ∈ ids st)) eqn:Ei; bool_hyps; cbn [negb]; [split; [done|]; intros [_ [? _]]; tauto|].
  destruct (bool_decide (DeclaredName s = "")) eqn:En; cbn [orb]; [|destruct (bool_decide (labels st !! _ = None)) eqn:El; bool_hyps].
  - split; [intros _|done]. split; [by split; [|apply Ho]|by split].
  - split; [intros _|done]. split; [by split; [|apply Ho]|]. split; [done|]. by repeat constructor.
  - split; [done|]. intros [_ [_ Hf]]. inversion_clear Hf. done.
Qed.

(** What a record leaves behind. *)
Definition after (st : tableState) (s : ConstraintRecordSpec) : tableState :=
  if is_primary s then with_primary (require st (Columns s)) (ID s)
  else if bool_decide (Kind s = ConstraintNotNull) then require st (Columns s) else st.

Lemma made_foreign_key s : checkSpec ParseFloat uni_class fold s = Ok () -> Kind s = ConstraintForeignKey ->
  checkForeignKey (decoded_of s) = Ok ().
Proof using.
  intros Hs K. pose proof (checkSpec_well_made s Hs) as W. pose proof (made_reference s W) as Hr.
  rewrite bool_decide_true in Hr by done. destruct Hr as (ref & Er & Hr). unfold checkForeignKey.
  unfold decoded_of at 1. cbn [spec]. rewrite (canonical_attested ParseFloat uni_class fold s Hs).
  cbn [attested References SchemaPath Columns]. rewrite Er. cbn [option_map RefSchemaPath RefTable RefColumns].
  unfold decoded_of. rewrite Er. cbn [targetSchemaPath targetOwner fkMatch fkOnUpdate fkOnDelete].
  unfold checkReference in Hr. repeat inv_let. bool_hyps.
  assert (ref_schema s ref = SchemaPath s) as ->.
  { unfold ref_schema. destruct (RefSchemaPath ref); [done|]. apply orb_true_iff in E as [E|E]; by bool_hyps. }
  rewrite !bool_decide_true by (done || set_solver). cbn [andb].
  apply column_paths_facts in E1 as [_ E1]. specialize (E1 eq_refl).
  replace (forallb _ (RefColumns ref)) with true; [done|]. symmetry. apply forallb_forall. intros p Hp.
  apply bool_decide_eq_true. apply list_elem_of_In in Hp. by apply (proj1 (Forall_forall _ _) E1).
Qed.

Lemma body_exact cols st st' s : checkSpec ParseFloat uni_class fold s = Ok () ->
  checkBody ParseFloat uni_class fold cols st (decoded_of s) = Ok st' <->
    fits cols s /\ (is_primary s = true -> primaryKey st = "") /\ st' = after st s.
Proof using.
  intros Hs. pose proof (checkSpec_well_made s Hs) as W. pose proof (made_foreign_key s Hs) as Hfk.
  pose proof (canonical_attested ParseFloat uni_class fold s Hs) as Ec.
  destruct (column_paths_facts _ _ (made_paths s W)) as [Hp1 Hp2].
  assert (hasForeignKey (decoded_of s) = bool_decide (Kind s = ConstraintForeignKey) /\
          hasTarget (decoded_of s) = bool_decide (Kind s = ConstraintForeignKey)) as [Ef Et].
  { pose proof (made_reference s W) as Hr. unfold decoded_of. cbn. case_bool_decide; [by destruct Hr as (ref & -> & _)|by rewrite Hr]. }
  unfold checkBody. rewrite Ef, Et. cbn [decoded_of spec] in *. rewrite Ec. cbn [attested Columns Kind CheckSQL].
  rewrite Hp1, eqb_reflx. cbn [andb]. unfold fits, after, is_primary.
  pose proof (made_kind s W) as Hk. destruct (decide (Kind s = ConstraintCheck)) as [K|K].
  - destruct (made_check s W K) as (H1 & H2 & H3). rewrite K, H2. rewrite (bool_decide_false (CheckSQL s = "")) by done. cbn.
    unfold checkCheck, decoded_of. cbn [checkProfile checkSchemaPath checkDefaultContext spec]. rewrite Ec, K.
    cbn [attested SchemaPath CheckSQL]. rewrite !bool_decide_true by done.
    change (bool_decide (ConstraintCheck = ConstraintPrimaryKey)) with false.
    change (bool_decide (ConstraintCheck = ConstraintNotNull)) with false. cbn [Bool.eqb andb].
    destruct cols as [cs|]; [|rewrite H3; split; [by intros [= ->]|by intros (_ & _ & ->)]].
    destruct (validateNumericCheckSQL ParseFloat uni_class fold (CheckSQL s) (Some cs)) as [[]|]; split; try done; [by intros [= ->]|by intros (_ & _ & ->)|by intros []].
  - destruct (made_columns s W K) as [H1 H2]. rewrite !(bool_decide_false (Kind s = ConstraintCheck)), (bool_decide_true (CheckSQL s = "")),
      (bool_decide_false (Columns s = [])), eqb_reflx by done. cbn [Bool.eqb negb andb].
    destruct (bool_decide (Kind s = ConstraintNotNull)) eqn:Kn; bool_hyps.
    + pose proof (made_not_null s W Kn) as Hl. destruct (Columns s) as [|p [|]] eqn:Ep; try done. rewrite Kn.
      change (bool_decide (ConstraintNotNull = ConstraintPrimaryKey)) with false. cbn match.
      destruct cols as [cs|]; [|split; [by intros [= ->]|by intros (_ & _ & ->)]]. rewrite Forall_singleton, <- resolve_leads.
      destruct (resolveNotNullPath cs p) as [[]|]; cbn beta match; split; try done; [by intros [= ->]|by intros (_ & _ & ->)|by intros []].
    + specialize (Hp2 eq_refl). pose proof (key_columns_lead cols (Columns s) Hp2) as Hkey.
      rewrite (bool_decide_true (Kind s ∈ [ConstraintPrimaryKey; ConstraintUnique; ConstraintForeignKey]))
        by (clear - Hk K Kn; set_solver).
      transitivity ((match cols with None => True | Some cs => Forall (leads cs) (Columns s) end) /\
        (if bool_decide (Kind s = ConstraintPrimaryKey) then primaryKey st = "" else True) /\
        st' = if bool_decide (Kind s = ConstraintPrimaryKey) then with_primary (require st (Columns s)) (ID s) else st).
      2: { destruct (bool_decide (Kind s = ConstraintPrimaryKey)); destruct cols; clear; intuition discriminate. }
      rewrite <- Hkey. destruct (checkKeyColumns cols (Columns s)) as [[]|]; [|by split; [|intros []]].
      destruct (bool_decide (Kind s = ConstraintPrimaryKey)).
      * destruct (bool_decide (primaryKey st = "")) eqn:Epk; bool_hyps; split; try done; [by intros [= ->]|by intros (_ & _ & ->)|by intros (_ & ? & _)].
      * destruct (bool_decide (Kind s = ConstraintForeignKey)) eqn:Kf; bool_hyps; [rewrite Hfk by done|];
          split; [by intros [= ->]|by intros (_ & _ & ->)|by intros [= ->]|by intros (_ & _ & ->)].
Qed.


Definition sizes (datas : list bytes) : Z := foldr (fun b n => blen b + n)%Z 0%Z datas.
Definition next (st : tableState) (s : ConstraintRecordSpec) (b : bytes) : tableState :=
  after (take_identity st (attested s) (blen b)) s.

(** The records do not clash with what was read, nor with each other. *)
Record distinct (st : tableState) (specs : list ConstraintRecordSpec) : Prop := {
  distinct_ids : NoDup (map ID specs);
  distinct_old : forall x, x ∈ map ID specs -> x ∉ ids st;
  distinct_labels : NoDup (flat_map label specs);
  distinct_old_labels : forall l, l ∈ flat_map label specs -> labels st !! l = None;
  distinct_primary : length (List.filter is_primary specs) + (if bool_decide (primaryKey st = "") then 0 else 1) <= 1
}.

Lemma after_keeps st s : ids (after st s) = ids st /\ labels (after st s) = labels st /\ total (after st s) = total st /\
  required (after st s) = list_to_set (map pathKey (requires s)) ∪ required st /\
  primaryKey (after st s) = if is_primary s then ID s else primaryKey st.
Proof using.
  clear ParseFloat fold uni_class. unfold after, requires, is_primary. destruct (bool_decide (Kind s = ConstraintPrimaryKey)) eqn:E; bool_hyps.
  - rewrite bool_decide_true by (rewrite E; set_solver). done.
  - destruct (bool_decide (Kind s = ConstraintNotNull)) eqn:E2; bool_hyps.
    + rewrite bool_decide_true by (rewrite E2; set_solver). done.
    + rewrite bool_decide_false by set_solver. cbn. repeat split. set_solver.
Qed.

Lemma distinct_cons st s specs b : well_made s ->
  distinct st (s :: specs) <-> fresh st s /\ (is_primary s = true -> primaryKey st = "") /\ distinct (next st s b) specs.
Proof using.
  intros W. destruct (after_keeps (take_identity st (attested s) (blen b)) s) as (Ei & El & _ & _ & Ep).
  assert (ID s <> "") as Hid by (intros E; pose proof (made_id s W) as Hv; by rewrite E in Hv).
  cbn [take_identity ids labels primaryKey attested ID DeclaredName] in *. unfold fresh. split.
  - intros [H1 H2 H3 H4 H5]. cbn [map flat_map List.filter] in *. apply NoDup_cons in H1 as [H1 H1'].
    apply NoDup_app in H3 as (H3 & H3' & H3''). split; [|split].
    + split; [apply H2; left|]. apply Forall_forall. intros l Hl. apply H4. set_solver.
    + intros E. rewrite E in H5. cbn in H5. case_bool_decide; [done|lia].
    + split.
      * done.
      * intros x Hx. unfold next. rewrite Ei. apply not_elem_of_union. split; [set_solver|]. apply H2. by right.
      * done.
      * intros l Hl. unfold next. rewrite El. assert (labels st !! l = None) as Hold by (apply H4; set_solver).
        destruct (bool_decide (DeclaredName s = "")) eqn:En; bool_hyps; [done|]. rewrite lookup_insert_ne; [done|]. intros <-.
        apply (H3' (ToLower (DeclaredName s))); [|done]. unfold label. rewrite bool_decide_false by done. left.
      * unfold next. rewrite Ep. destruct (is_primary s); [|done]. rewrite bool_decide_false by done. cbn in H5. lia.
  - intros ([F1 F2] & Hp & [H1 H2 H3 H4 H5]). unfold next in *. rewrite Ei in H2. rewrite El in H4. rewrite Ep in H5.
    rewrite Forall_forall in F2. split; cbn [map flat_map List.filter].
    + apply NoDup_cons. split; [|done]. intros Hin. apply (H2 _ Hin). set_solver.
    + intros x [->|Hx]%elem_of_cons; [done|]. intros Hin. apply (H2 _ Hx). set_solver.
    + apply NoDup_app. split; [unfold label; destruct (bool_decide _); repeat constructor; set_solver|]. split; [|done].
      intros l Hl Hl'. specialize (H4 l Hl'). unfold label in Hl. destruct (bool_decide (DeclaredName s = "")); [set_solver|].
      apply list_elem_of_singleton in Hl as ->. by rewrite lookup_insert_eq in H4.
    + intros l [Hl|Hl]%elem_of_app; [by apply F2|]. specialize (H4 l Hl). destruct (bool_decide (DeclaredName s = "")); [done|].
      by apply lookup_insert_None in H4 as [? _].
    + destruct (is_primary s); [|done]. rewrite Hp by done. rewrite bool_decide_false in H5 by done. cbn [length bool_decide decide_rel].
      rewrite bool_decide_true by done. lia.
Qed.
(** ** All the records *)

Context (write_row : Row -> result string bytes) (read_row : bytes -> result string Row).
Context (write_read : forall r b, write_row r = Ok b -> read_row b = Ok r /\ b <> []).
Context (inside : forall r b n, write_row r = Ok b -> n ∈ rows_inside r -> (blen n <= blen b)%Z).

Abbreviation made s b := (ConstraintRecord ParseFloat uni_class fold write_row s = Ok b).
Abbreviation decoded b := (decodeConstraintRecord read_row b).


Lemma record_step owner table cols st s b datas : made s b -> (0 <= total st)%Z -> (total st + blen b <= mebi8)%Z ->
  checkRecords ParseFloat uni_class fold read_row owner table cols st (b :: datas) =
    let? _ := checkIdentity owner table st (attested s) in
    let? st := checkBody ParseFloat uni_class fold cols (take_identity st (attested s) (blen b)) (decoded_of s) in
    checkRecords ParseFloat uni_class fold read_row owner table cols st datas.
Proof using write_read inside.
  intros Hs H0 Hb. apply record_made in Hs as [Hs He]. cbn [checkRecords].
  assert (b <> []) as Hne.
  { unfold encodeConstraintRecord in He. repeat inv_let. by eapply write_read. }
  rewrite (bool_decide_false (b = [])), !(proj2 (Z.ltb_ge _ _)) by (done || lia). cbn [orb negb].
  rewrite (encode_decode write_row read_row write_read inside s b He) by lia. cbn [decoded_of spec].
  by rewrite (canonical_attested ParseFloat uni_class fold s Hs).
Qed.

Lemma sizes_nonneg datas : (0 <= sizes datas)%Z.
Proof using. clear. induction datas as [|b datas IH]; [done|]. change (0 <= blen b + sizes datas)%Z. unfold blen. lia. Qed.

Lemma distinct_none st : distinct st [].
Proof using.
  clear. split; cbn [map flat_map List.filter length]; [constructor|intros ? Hx; by inversion Hx|constructor|intros ? Hx; by inversion Hx|].
  destruct (bool_decide _); lia.
Qed.

(** The records are read as far as the first bad one. *)
Lemma records_exact owner table cols specs datas : Forall2 (fun s b => made s b) specs datas ->
  forall st st', (0 <= total st <= mebi8)%Z ->
  checkRecords ParseFloat uni_class fold read_row owner table cols st datas = Ok st' <->
    (total st + sizes datas <= mebi8)%Z /\ Forall (owned owner table) specs /\ Forall (fits cols) specs /\
    distinct st specs /\ st' = foldl (fun st sb => next st (fst sb) (snd sb)) st (zip specs datas).
Proof using write_read inside.
  induction 1 as [|s b specs datas Hs Hrest IH]; intros st st' Ht.
  - cbn. split; [intros [= ->]|by intros (_ & _ & _ & _ & ->)]. split; [lia|]. split; [done|]. split; [done|]. by split; [apply distinct_none|].
  - pose proof (sizes_nonneg datas) as Hpos. cbn [sizes foldr] in *. fold (sizes datas) in *.
    destruct (decide (total st + blen b <= mebi8)%Z) as [Hb|Hb].
    2: { cbn [checkRecords]. rewrite (proj2 (Z.ltb_lt mebi8 (total st + blen b))) by lia. rewrite orb_true_r. cbn [negb].
         split; [done|]. intros (? & _). lia. }
    rewrite (record_step owner table cols st s b datas Hs) by lia.
    assert (checkSpec ParseFloat uni_class fold s = Ok ()) as Hc by (apply record_made in Hs; tauto).
    pose proof (checkSpec_well_made s Hc) as W. rewrite !Forall_cons, (distinct_cons st s specs b W).
    pose proof (identity_exact owner table st s W) as Hi.
    destruct (checkIdentity owner table st (attested s)) as [[]|]; [|split; [done|intros (_ & [? _] & _ & [? _] & _); by discriminate (proj2 Hi (conj H0 H1))]].
    destruct (proj1 Hi eq_refl) as [Ho Hf]. cbn beta match.
    pose proof (fun st' => body_exact cols (take_identity st (attested s) (blen b)) st' s Hc) as Hbody.
    destruct (checkBody _ _ _ cols _ (decoded_of s)) as [st1|].
    + destruct (proj1 (Hbody st1) eq_refl) as (Hfit & Hp & ->). cbn beta match. fold (next st s b).
      assert (total (next st s b) = (total st + blen b)%Z) as Htotal by apply after_keeps. unfold blen in *.
      rewrite (IH (next st s b) st') by (rewrite Htotal; lia). rewrite Htotal, Z.add_assoc. cbn [zip zip_with foldl fst snd]. tauto.
    + split; [done|]. intros (_ & _ & [Hfit _] & (_ & Hp & _) & _). by discriminate (proj2 (Hbody _) (conj Hfit (conj Hp eq_refl))).
Qed.

Lemma required_run specs datas st : length specs = length datas ->
  required (foldl (fun st sb => next st (fst sb) (snd sb)) st (zip specs datas)) =
    list_to_set (map pathKey (flat_map requires specs)) ∪ required st.
Proof using.
  clear. revert datas st. induction specs as [|s specs IH]; intros [|b datas] st Hl; try done; [by cbn; rewrite union_empty_l_L|].
  cbn [zip zip_with foldl fst snd flat_map]. rewrite IH by (by injection Hl). unfold next.
  destruct (after_keeps (take_identity st (attested s) (blen b)) s) as (_ & _ & _ & -> & _). cbn [take_identity required].
  rewrite map_app, list_to_set_app_L. set_solver.
Qed.

(** C29: the records of a table, each made by [ConstraintRecord], pass the check
    exactly when they are at most 1024 and 8 MiB together, belong to the table,
    name columns it has, and do not clash: no id twice, no declared name twice
    whatever its case, one PRIMARY KEY at most. The check reads them one by one;
    the paths it then requires are those of all the NOT_NULL and PRIMARY_KEY
    records. *)
Theorem table_records_exact (owner : option path) (table : string) (cols : option (list Column))
    (specs : list ConstraintRecordSpec) (datas : list bytes) (req : gset string) :
  Forall2 (fun s b => made s b) specs datas ->
  checkTableConstraints ParseFloat uni_class fold read_row owner table cols datas = Ok req <->
    length specs <= 1024 /\ (sizes datas <= mebi8)%Z /\ Forall (owned owner table) specs /\ Forall (fits cols) specs /\
    NoDup (map ID specs) /\ NoDup (flat_map label specs) /\ length (List.filter is_primary specs) <= 1 /\
    req = list_to_set (map pathKey (flat_map requires specs)).
Proof using write_read inside.
  intros Hs. pose proof (Forall2_length _ _ _ Hs) as Hl. unfold checkTableConstraints. rewrite <- Hl.
  destruct (length specs <=? 1024)%nat eqn:En; [|apply Nat.leb_gt in En; split; [done|intros [? _]; lia]]. apply Nat.leb_le in En.
  pose proof (records_exact owner table cols specs datas Hs no_records) as Hrec. cbn [total no_records] in Hrec.
  pose proof (required_run specs datas no_records Hl) as Hreq. cbn [required no_records] in Hreq. rewrite union_empty_r_L in Hreq.
  destruct (checkRecords _ _ _ _ owner table cols no_records datas) as [st|].
  - destruct (proj1 (Hrec st ltac:(done)) eq_refl) as (H1 & H2 & H3 & [D1 _ D3 _ D5] & ->). rewrite Hreq. rewrite bool_decide_true in D5 by done.
    split; [intros [= <-]|intros (_ & _ & _ & _ & _ & _ & _ & ->); done].
    split; [done|]. split; [lia|]. split; [done|]. split; [done|]. split; [done|]. split; [done|]. split; [lia|done].
  - split; [done|]. intros (_ & H1 & H2 & H3 & D1 & D3 & D5 & _). exfalso.
    assert (Err e = Ok (foldl (fun st sb => next st (fst sb) (snd sb)) no_records (zip specs datas))); [|done].
    apply Hrec; [done|]. split; [lia|]. split; [done|]. split; [done|]. split; [|done].
    split; [done|intros x _; apply not_elem_of_empty|done|intros l _; apply lookup_empty|].
    rewrite bool_decide_true by done. lia.
Qed.
End tables.

Module TableExample.
Import GrammarExample CheckExample RecordExample.
#[local] Existing Instance AsciiText.ascii_text.

Definition record (id kind label sql : string) (ps : list path) : ConstraintRecordSpec :=
  {| SchemaPath := ["main"]; Table := "t"; ID := id; Kind := kind; Columns := ps;
     Enforcement := ConstraintEnforced; Validation := ConstraintAllRows; DeclaredName := label; CheckSQL := sql; References := None |}.
Definition columns : list Column :=
  [column "id" INT64 [("is_row_id", "")]; column "price" FLOAT64 []; column "note" STRING [];
   {| colName := "box"; colType := StructType [column "min" INT64 []; column "max" INT64 []]; colNullable := true; colMetadata := [] |}].
Definition records : list ConstraintRecordSpec :=
  [record "a" ConstraintNotNull "Floor" "" [["box"; "min"]]; record "b" ConstraintPrimaryKey "" "" [["note"]; ["price"]];
   record "c" ConstraintCheck "positive" "price > 0" []].
Definition datas : list bytes := map RecordExample.made records.
Definition check_table (ps : list bytes) : result string (gset string) :=
  checkTableConstraints floats others ascii_lower read (Some ["main"]) "t" (Some columns) ps.

Example one_record_twice : check_table (datas ++ datas) = Err "duplicate constraint id".
Proof. vm_compute. reflexivity. Qed.

Lemma records_made : Forall2 (fun s b => ConstraintRecord floats others ascii_lower write s = Ok b) records datas.
Proof. repeat constructor; vm_compute; reflexivity. Qed.

Lemma table_records_exact_witness :
  check_table datas = Ok (list_to_set (map pathKey [["box"; "min"]; ["note"]; ["price"]])).
Proof.
  apply (table_records_exact floats others ascii_lower write read write_read write_inside (Some ["main"]) "t" (Some columns) records datas).
  - exact records_made.
  - split; [vm_compute; lia|]. split; [vm_compute; discriminate|]. split; [repeat constructor|].
    split; [|split; [|split; [|split; [vm_compute; lia|reflexivity]]]].
    + repeat constructor.
      * exists "box", ["min"]. eexists _, _. split; [done|]. split; vm_compute; reflexivity.
      * exists "note", []. eexists _, _. split; [done|]. split; vm_compute; reflexivity.
      * exists "price", []. eexists _, _. split; [done|]. split; vm_compute; reflexivity.
    + vm_compute. repeat constructor; set_solver.
    + vm_compute. repeat constructor; set_solver.
Defined.
End TableExample.
