(* ===== verification/ServedColumns.v ===== *)
(** * ServedColumns: the nullability of a served table (vgi/constraint_records.go)

    A table's columns are served with the nullability its constraint records
    prove, at every level its structs reach. *)

From S2P Require Import Prelude Bytes Strings Unicode Strconv ArrowTypes.
From S2P Require Import SqlTokens SqlParser SqlGrammar Columns SqlChecks ConstraintRecords ConstraintTables.

(** ** The fields of a table *)

(** A field a constraint path can name: a top-level column that is not the row
    ID, or a child of an ordinary struct such a field is. *)
Inductive field_at : bool -> list Column -> path -> Column -> Prop :=
| field_here top cols c : c ∈ cols -> top && isRowIDField c = false -> field_at top cols [colName c] c
| field_below top cols c fs p d :
    c ∈ cols -> top && isRowIDField c = false -> ordinaryStructChildren c = Some fs -> field_at false fs p d ->
    field_at top cols (colName c :: p) d.

(** A column with the nullability of those fields left out. *)
Fixpoint unnulled (top : bool) (c : Column) : Column :=
  if top && isRowIDField c then c else
  let 'MkColumn n t _ md := c in
  match t with
  | StructType fs =>
      if existsb (fun kv => logical_key (fst kv)) md then MkColumn n t true md
      else MkColumn n (StructType (map (unnulled false) fs)) true md
  | _ => MkColumn n t true md
  end.

(** ** Serving one column *)

Lemma serve_children req prefix fs :
  (fix all (l : list Column) : result string (list Column) :=
     match l with
     | [] => Ok []
     | d :: l => let? d := serve_column req false prefix d in let? l := all l in Ok (d :: l)
     end) fs = map_result (serve_column req false prefix) fs.
Proof. induction fs as [|f fs IH]; [done|]. cbn [map_result]. by rewrite <- IH. Qed.

Definition needed (req : gset string) (prefix : path) (c : Column) : bool := bool_decide (pathKey (prefix ++ [colName c]) ∈ req).
Lemma serve_equation req top prefix c : serve_column req top prefix c =
  if top && isRowIDField c then Ok c else
  if needed req prefix c && top && has_key (colMetadata c) GeneratedExpressionKey
  then Err "DuckDB requires generated columns to be nullable; no NOT_NULL/PRIMARY_KEY record may name it" else
  match ordinaryStructChildren c with
  | Some fs => let? fs := map_result (serve_column req false (prefix ++ [colName c])) fs in
               Ok (MkColumn (colName c) (StructType fs) (negb (needed req prefix c)) (colMetadata c))
  | None => Ok (MkColumn (colName c) (colType c) (negb (needed req prefix c)) (colMetadata c))
  end.
Proof.
  destruct c as [n t b md]. unfold needed, ordinaryStructChildren. cbn [colName colType colMetadata serve_column].
  destruct (top && _); [done|]. destruct (_ && _ && _); [done|]. destruct t; try done. destruct (existsb _ md); [done|].
  by rewrite serve_children.
Qed.
Lemma unnulled_equation top c : unnulled top c =
  if top && isRowIDField c then c else
  MkColumn (colName c) (match ordinaryStructChildren c with Some fs => StructType (map (unnulled false) fs) | None => colType c end)
    true (colMetadata c).
Proof.
  destruct c as [n t b md]. unfold ordinaryStructChildren. cbn [colName colType colMetadata unnulled].
  destruct (top && _); [done|]. destruct t; try done. by destruct (existsb _ md).
Qed.

(** A served column has the fields of the column. *)
Lemma serve_shape req top prefix c c' : serve_column req top prefix c = Ok c' -> top && isRowIDField c = false ->
  colName c' = colName c /\ colMetadata c' = colMetadata c /\ colNullable c' = negb (needed req prefix c) /\
  match ordinaryStructChildren c with
  | Some fs => exists fs', map_result (serve_column req false (prefix ++ [colName c])) fs = Ok fs' /\ ordinaryStructChildren c' = Some fs'
  | None => ordinaryStructChildren c' = None /\ colType c' = colType c
  end.
Proof.
  rewrite serve_equation. intros E Ht. rewrite Ht in E. destruct (_ && _ && _); [done|]. unfold ordinaryStructChildren in *.
  destruct (colType c) as [| fs | | |]; [by injection E as <-| |by injection E as <-..].
  destruct (existsb _ (colMetadata c)) eqn:Em; [injection E as <-; cbn; by rewrite Em|].
  destruct (map_result _ fs) as [fs'|]; [|done]. injection E as <-. cbn. rewrite Em. split_and!; try done. by exists fs'.
Qed.

(** ** Every field *)

Lemma ordinary_children c fs : ordinaryStructChildren c = Some fs -> colType c = StructType fs.
Proof. unfold ordinaryStructChildren. destruct (colType c); try done. by destruct (existsb _ _); [|intros [= ->]]. Qed.

Lemma paired_r {A B} (R : A -> B -> Prop) l k y : Forall2 R l k -> y ∈ k -> exists x, x ∈ l /\ R x y.
Proof.
  induction 1 as [|a b l k Hr _ IH]; intros Hy; [by inversion Hy|]. apply elem_of_cons in Hy as [->|Hy]; [exists a; by split; [left|]|].
  destruct (IH Hy) as (x & ? & ?). exists x. by split; [right|].
Qed.

Lemma paired_l {A B} (R : A -> B -> Prop) l k x : Forall2 R l k -> x ∈ l -> exists y, y ∈ k /\ R x y.
Proof. intros H. apply Forall2_flip in H. by apply paired_r with (R := flip R). Qed.

(** Induction down the ordinary structs of a column. *)
Lemma fields_ind (P : Column -> Prop) :
  (forall c, match ordinaryStructChildren c with Some fs => Forall P fs | None => True end -> P c) -> forall c, P c.
Proof.
  intros Hc. apply (column_nested_ind P (fun t => match t with StructType fs => Forall P fs | _ => True end)); try done.
  intros n t b md Ht. apply Hc. destruct (ordinaryStructChildren _) as [fs|] eqn:E; [|done].
  apply ordinary_children in E. cbn in E. by rewrite E in Ht.
Qed.

(** What serving does to a column, and to every field in it. *)
Record served_as (req : gset string) (top : bool) (prefix : path) (c c' : Column) : Prop := {
  served_shape : unnulled top c' = unnulled top c;
  served_fields : forall p d, field_at top [c'] p d -> colNullable d = negb (bool_decide (pathKey (prefix ++ p) ∈ req))
}.
Lemma field_in top cols p d : field_at top cols p d <-> exists c, c ∈ cols /\ field_at top [c] p d.
Proof.
  split.
  - intros Hf. inversion Hf; subst; eexists; (split; [done|]); econstructor; try done; by left.
  - intros (c & Hc & Hf). inversion Hf as [? ? ? Hin|? ? ? ? ? ? Hin]; subst; apply list_elem_of_singleton in Hin as ->; by econstructor.
Qed.

Lemma serve_served req c : forall top prefix c', serve_column req top prefix c = Ok c' -> served_as req top prefix c c'.
Proof.
  induction c as [c IH] using fields_ind. intros top prefix c' E.
  destruct (top && isRowIDField c) eqn:Et.
  - rewrite serve_equation, Et in E. injection E as <-. split; [done|].
    intros p d Hf. inversion Hf as [? ? ? Hin Hrow|? ? ? ? ? ? Hin Hrow]; subst; apply list_elem_of_singleton in Hin as ->; congruence.
  - destruct (serve_shape req top prefix c c' E Et) as (En & Em & Eb & Ec).
    assert (top && isRowIDField c' = false) as Et' by (unfold isRowIDField; by rewrite Em).
    assert (forall fs fs', ordinaryStructChildren c = Some fs -> ordinaryStructChildren c' = Some fs' ->
      Forall2 (served_as req false (prefix ++ [colName c])) fs fs') as Hch.
    { intros fs fs' E1 E2. rewrite E1 in Ec, IH. destruct Ec as (gs & Eg & E3). rewrite E2 in E3. injection E3 as <-.
      apply map_result_inv in Eg. clear -IH Eg. induction Eg as [|x y l k Hxy Hlk IHl]; [done|].
      apply Forall_cons in IH as [H1 H2]. constructor; [by apply H1|by apply IHl]. }
    split.
    + rewrite !unnulled_equation, Et, Et', En, Em. f_equal. destruct (ordinaryStructChildren c) as [fs|]; [|by destruct Ec as [-> ->]].
      destruct Ec as (fs' & _ & Ef). rewrite Ef. f_equal. specialize (Hch fs fs' eq_refl Ef).
      clear -Hch. induction Hch as [|x y l k [Hxy _] Hlk IHl]; [done|]. cbn. by rewrite Hxy, IHl.
    + intros p d Hf. inversion Hf as [? ? ? Hin Hrow|? ? ? fs' p' d' Hin Hrow Hfs Hbelow]; subst; apply list_elem_of_singleton in Hin as ->.
      * by rewrite Eb, En.
      * destruct (ordinaryStructChildren c) as [fs|]; [|by destruct Ec as [Ec _]; rewrite Ec in Hfs].
        apply field_in in Hbelow as (x' & Hx' & Hb). apply (paired_r _ _ _ _ (Hch fs fs' eq_refl Hfs)) in Hx' as (x & Hx & [_ Hs]).
        rewrite (Hs p' d Hb), En. by rewrite <- app_assoc.
Qed.


Lemma serve_all req cols served : servedNullability cols req = Ok served ->
  map (unnulled true) served = map (unnulled true) cols /\
  forall p d, field_at true served p d -> colNullable d = negb (bool_decide (pathKey p ∈ req)).
Proof.
  unfold servedNullability. intros E. apply map_result_inv in E.
  assert (Forall2 (served_as req true []) cols served) as Hs by (eapply Forall2_impl; [done|]; intros; by apply serve_served).
  split; [clear -Hs; induction Hs as [|x y l k [Hxy _] Hlk IHl]; [done|]; cbn; by rewrite Hxy, IHl|].
  intros p d Hf. apply field_in in Hf as (c' & Hc & Hf). apply (paired_r _ _ _ _ Hs) in Hc as (c & _ & [_ Hall]). by apply Hall.
Qed.

Lemma map_result_total {A B} (f : A -> result string B) l : Forall (fun x => exists y, f x = Ok y) l -> exists k, map_result f l = Ok k.
Proof. induction 1 as [|x l [y Hy] _ [k Hk]]; [by eexists|]. cbn [map_result]. rewrite Hy, Hk. by eexists. Qed.

(** Below the top level every field is served. *)
Lemma serve_below req c : forall prefix, exists c', serve_column req false prefix c = Ok c'.
Proof.
  induction c as [c IH] using fields_ind. intros prefix. rewrite serve_equation. cbn [andb]. rewrite andb_false_r. cbn [andb].
  destruct (ordinaryStructChildren c) as [fs|]; [|by eexists].
  destruct (map_result_total (serve_column req false (prefix ++ [colName c])) fs) as [k Hk]; [|rewrite Hk; by eexists].
  eapply Forall_impl; [exact IH|]. intros x Hx. apply Hx.
Qed.

Lemma serve_children_total req prefix fs : exists k, map_result (serve_column req false prefix) fs = Ok k.
Proof. apply map_result_total, Forall_forall. intros x _. apply serve_below. Qed.

(** A generated column is served only when it stays nullable. *)
Definition may_serve (req : gset string) (c : Column) : Prop :=
  isRowIDField c = false -> has_key (colMetadata c) GeneratedExpressionKey = true -> pathKey [colName c] ∉ req.
Lemma serve_top req c : (exists c', serve_column req true [] c = Ok c') <-> may_serve req c.
Proof.
  unfold may_serve. rewrite serve_equation. cbn [andb app]. destruct (isRowIDField c); [split; [done|by eexists]|].
  rewrite andb_true_r. unfold needed. cbn [app]. destruct (has_key _ _); [rewrite andb_true_r|rewrite andb_false_r].
  - destruct (bool_decide (pathKey [colName c] ∈ req)) eqn:En; bool_hyps; [split; [by intros [? ?]|intros Hn; by destruct (Hn eq_refl eq_refl)]|].
    split; [done|intros _]. destruct (ordinaryStructChildren c) as [fs|]; [|by eexists].
    destruct (serve_children_total req [colName c] fs) as [k ->]. by eexists.
  - split; [done|intros _]. destruct (ordinaryStructChildren c) as [fs|]; [|by eexists].
    destruct (serve_children_total req [colName c] fs) as [k ->]. by eexists.
Qed.
Lemma served_exact req cols : (exists served, servedNullability cols req = Ok served) <-> Forall (may_serve req) cols.
Proof.
  unfold servedNullability. split.
  - intros [served E]. apply map_result_inv in E. eapply Forall2_Forall_l; [done|]. apply Forall_forall.
    intros y _ x Hx. apply serve_top. by exists y.
  - intros Hall. apply map_result_total. eapply Forall_impl; [done|]. intros c. apply serve_top.
Qed.

(** ** The served table *)

Lemma valid_short p : forallb validIdentifier p = true -> short p.
Proof.
  intros Hv. apply Forall_forall. intros x Hx. apply list_elem_of_In in Hx. pose proof (proj1 (forallb_forall _ _) Hv x Hx) as Hx'.
  unfold validIdentifier in Hx'. bool_hyps. lia.
Qed.
Lemma checked_short nested seen ps : checkPaths nested seen ps = Ok () -> Forall short ps.
Proof.
  revert seen. induction ps as [|p ps IH]; intros seen Hp; [constructor|]. cbn [checkPaths] in Hp.
  destruct (checkPath nested p) as [[]|] eqn:Ep; [|done]. destruct (bool_decide _); [done|]. constructor; [|by eapply IH].
  unfold checkPath in Ep. destruct (_ || _); [done|]. destruct (_ && _); [done|].
  destruct (forallb _ _) eqn:Ev; [|done]. by apply valid_short.
Qed.

Section served.
Context `{Unicode} (ParseFloat : string -> bool) (uni_class : bytes -> rune_class) (fold : string -> string).
Context (write_row : Row -> result string bytes) (read_row : bytes -> result string Row).
Context (write_read : forall r b, write_row r = Ok b -> read_row b = Ok r /\ b <> []).
Context (inside : forall r b n, write_row r = Ok b -> n ∈ rows_inside r -> (blen n <= blen b)%Z).

Abbreviation made s b := (ConstraintRecord ParseFloat uni_class fold write_row s = Ok b).

(** A path the records of a table require, as a set of paths and as keys. *)
Lemma required_paths owner table cols specs datas req : Forall2 (fun s b => made s b) specs datas ->
  checkTableConstraints ParseFloat uni_class fold read_row owner table cols datas = Ok req ->
  Forall (owned owner table) specs /\ forall p, short p -> pathKey p ∈ req <-> p ∈ flat_map requires specs.
Proof using write_read inside.
  intros Hs Hc. unfold checkTableConstraints in Hc. repeat inv_let.
  apply (records_exact ParseFloat uni_class fold write_row read_row write_read inside owner table cols specs datas Hs) in E0 as (_ & Ho & _ & _ & ->);
    [|done]. split; [done|]. rewrite required_run by (by eapply Forall2_length). cbn [required no_records].
  rewrite union_empty_r_L. intros p Hp. rewrite elem_of_list_to_set, list_elem_of_fmap. split; [|intros Hin; by exists p].
  intros (q & Eq & Hq). apply pathKey_inj in Eq as ->; [done|done|].
  apply list_elem_of_In, in_flat_map in Hq as (s & Hin & Hq). apply list_elem_of_In in Hin, Hq.
  apply (paired_l _ _ _ _ Hs) in Hin as (b & _ & Hb). apply record_made in Hb as [Hb _].
  pose proof (made_paths _ _ _ s (checkSpec_well_made _ _ _ s Hb)) as Hpaths.
  unfold requires in Hq. destruct (bool_decide (Kind s ∈ _)); [|by inversion Hq].
  unfold checkColumnPaths in Hpaths. destruct (_ <? _)%nat; [done|]. apply checked_short in Hpaths.
  by apply (proj1 (Forall_forall _ _) Hpaths).
Qed.

Lemma owned_one schemaPath table specs datas : Forall2 (fun s b => made s b) specs datas ->
  Forall (owned (Some schemaPath) table) specs -> datas = [] \/ length schemaPath = 1.
Proof using.
  intros Hs Ho. destruct Hs as [|s b specs datas Hb _]; [by left|right]. apply record_made in Hb as [Hb _].
  apply Forall_cons in Ho as [[_ Ho] _]. destruct (made_schema _ _ _ s (checkSpec_well_made _ _ _ s Hb)) as (p & Hp & _).
  by rewrite <- Ho, Hp.
Qed.

(** a table whose records pass the check is served with exactly the
    nullability they prove. Served, its columns are as they were but for the
    nullability of the fields a path can name, and such a field is non-nullable
    exactly when a NOT_NULL or PRIMARY_KEY record lists its path; the row ID
    column and the fields inside lists and logical types stay as they were. It
    is refused exactly when a record requires a generated column. *)
Theorem served_nullability_exact (schemaPath : path) (table : string) (cols : list Column)
    (specs : list ConstraintRecordSpec) (datas : list bytes) (req : gset string) :
  Forall2 (fun s b => made s b) specs datas ->
  checkTableConstraints ParseFloat uni_class fold read_row (Some schemaPath) table (Some cols) datas = Ok req ->
  Forall (fun c => short [colName c]) cols ->
  let refused c := isRowIDField c = false /\ has_key (colMetadata c) GeneratedExpressionKey = true /\ [colName c] ∈ flat_map requires specs in
  match ServedTableColumns ParseFloat uni_class fold read_row schemaPath table (Some cols) datas with
  | Ok (Some served) =>
      Forall (fun c => ~ refused c) cols /\ map (unnulled true) served = map (unnulled true) cols /\
      forall p d, field_at true served p d -> short p -> colNullable d = false <-> p ∈ flat_map requires specs
  | Ok None => False
  | Err _ => Exists refused cols
  end.
Proof using write_read inside.
  intros Hs Hc Hshort refused. destruct (required_paths _ _ _ _ _ _ Hs Hc) as [Ho Hreq].
  assert (forall c, c ∈ cols -> may_serve req c <-> ~ refused c) as Hmay.
  { intros c Hin. unfold may_serve, refused. rewrite Hreq by (by apply (proj1 (Forall_forall _ _) Hshort)). clear. tauto. }
  unfold ServedTableColumns. replace (negb _ && negb _) with false
    by (destruct (owned_one _ _ _ _ Hs Ho) as [-> | ->]; [by rewrite andb_false_r|done]).
  rewrite Hc. destruct (servedNullability cols req) as [served|e] eqn:Es.
  - destruct (serve_all req cols served Es) as [Hshape Hall]. split_and!; [|done|].
    + apply Forall_forall. intros c Hin. apply Hmay; [done|].
      by apply (proj1 (Forall_forall _ _) (proj1 (served_exact req cols) (ex_intro _ served Es))).
    + intros p d Hf Hp. rewrite (Hall p d Hf), <- (Hreq p Hp). destruct (bool_decide _) eqn:E; bool_hyps; cbn; split; done.
  - assert (~ Forall (may_serve req) cols) as Hn by (rewrite <- served_exact; intros [served E]; congruence).
    apply not_Forall_Exists in Hn; [|intros c; unfold may_serve; apply _]. apply Exists_exists in Hn as (c & Hin & Hn).
    apply Exists_exists. exists c. split; [done|]. apply dec_stable. by rewrite <- Hmay.
Qed.
End served.

Module ServedExample.
Import GrammarExample CheckExample RecordExample TableExample.
#[local] Existing Instance AsciiText.ascii_text.

Definition required_keys : gset string := match check_table datas with Ok r => r | Err _ => ∅ end.
Definition never_null (c : Column) : Column := MkColumn (colName c) (colType c) false (colMetadata c).
Definition served_columns : list Column :=
  [column "id" INT64 [("is_row_id", "")]; never_null (column "price" FLOAT64 []); never_null (column "note" STRING []);
   MkColumn "box" (StructType [never_null (column "min" INT64 []); column "max" INT64 []]) true []].
Lemma served_nullability_exact_witness :
  ServedTableColumns floats others ascii_lower read ["main"] "t" (Some columns) datas = Ok (Some served_columns) /\
  forall p d, field_at true served_columns p d -> short p -> colNullable d = false <-> p ∈ flat_map requires records.
Proof.
  assert (ServedTableColumns floats others ascii_lower read ["main"] "t" (Some columns) datas = Ok (Some served_columns)) as Es
    by (vm_compute; reflexivity).
  split; [exact Es|].
  assert (Forall (fun c => short [colName c]) columns) as Hshort by (repeat constructor; vm_compute; reflexivity).
  pose proof (served_nullability_exact floats others ascii_lower write read write_read write_inside ["main"] "t" columns records datas
    required_keys records_made ltac:(vm_compute; reflexivity) Hshort) as Hserved.
  cbv zeta in Hserved. rewrite Es in Hserved. apply Hserved.
Defined.
End ServedExample.
