(* ===== verification/ColumnMetadata.v ===== *)
(** * ColumnMetadata: reserved field metadata (vgi/column_metadata.go)

    The comment and the tags of a column, at every level of its type: no key
    twice, both in UTF-8, and the tags one JSON object of strings whose escapes
    are all complete characters. *)

From S2P Require Import Prelude Bytes Strings Unicode ArrowTypes Columns Json.

(** ** Tags *)

(** [encoding/json] replaces an unpaired surrogate; they are refused before it
    reads the text. The scan knows only whether it is inside a string. *)
Fixpoint surrogates (inString : bool) (l : bytes) : result string () :=
  match l with
  | [] => Ok ()
  | b :: l1 =>
      if beq b x22 then surrogates (negb inString) l1
      else if negb inString || negb (beq b x5c) then surrogates inString l1
      else
        match l1 with
        | [] => Ok ()
        | e :: l2 =>
            if negb (beq e x75) then surrogates inString l2 else
            match l2 with
            | a :: b :: c :: d :: l3 =>
                match hex4 a b c d with
                | None => Err "strconv.ParseUint: invalid syntax"
                | Some code =>
                    if ((0xD800 <=? code) && (code <=? 0xDBFF))%Z then
                      match l3 with
                      | s :: u :: a :: b :: c :: d :: l4 =>
                          if beq s x5c && beq u x75 then
                            match hex4 a b c d with
                            | Some low =>
                                if ((low <? 0xDC00) || (0xDFFF <? low))%Z then Err "unpaired JSON surrogate"
                                else surrogates inString l4
                            | None => Err "unpaired JSON surrogate"
                            end
                          else Err "unpaired JSON surrogate"
                      | _ => Err "unpaired JSON surrogate"
                      end
                    else if ((0xDC00 <=? code) && (code <=? 0xDFFF))%Z then Err "unpaired JSON surrogate"
                    else surrogates inString l3
                end
            | _ => Err "invalid JSON unicode escape"
            end
        end
  end.

(** The decoder's tokens: an object whose members are strings under distinct
    keys, with nothing behind it. *)
Definition string_member (m : string * (string * json)) : bool := match snd (snd m) with JStr _ => true | _ => false end.
Definition read_tags (l : bytes) : result string (list (string * string)) :=
  match parse l with
  | None => Err "invalid JSON"
  | Some (JObj members, rest) =>
      check! forallb string_member members else "tag values must be strings" in
      check! bool_decide (NoDup (map fst members)) else "duplicate or invalid tag key" in
      check! bool_decide (skip_ws rest = []) else "trailing JSON content" in
      Ok (map (fun m => (fst m, match snd (snd m) with JStr s => s | _ => "" end)) members)
  | Some _ => Err "expected a JSON object of strings"
  end.
Definition validateColumnTags (value : string) : result string () :=
  let? _ := surrogates false (sb value) in
  let? _ := read_tags (sb value) in Ok ().

(** ** Fields and types *)

Fixpoint check_entries (seen : gset string) (md : list (string * string)) : result string () :=
  match md with
  | [] => Ok ()
  | (key, value) :: md =>
      check! negb (bool_decide (key ∈ seen)) else "duplicate column metadata key" in
      let? _ :=
        if bool_decide (key = "comment") || bool_decide (key = "tags") then
          check! utf8_valid (sb value) else "column metadata must be UTF-8" in
          if bool_decide (key = "tags") then validateColumnTags value else Ok ()
        else Ok () in
      check_entries ({[key]} ∪ seen) md
  end.

Fixpoint validateColumnField (c : Column) : result string () :=
  let 'MkColumn _ t _ md := c in
  let? _ := check_entries ∅ md in
  (fix validateColumnType (t : Shape Column) : result string () :=
     let all := fix all (l : list Column) : result string () :=
       match l with [] => Ok () | f :: l => let? _ := validateColumnField f in all l end in
     match t with
     | PlainType _ => Ok ()
     | StructType fs | NestedType _ fs => all fs
     | DictionaryType _ v => validateColumnType v
     | ExtensionType _ s => validateColumnType s
     end) t.
Definition ValidateColumnMetadata (schema : option (list Column)) : result string () :=
  match schema with
  | None => Ok ()
  | Some cols => let? _ := map_result validateColumnField cols in Ok ()
  end.
