(* ===== verification/GeneratedColumns.v ===== *)
(** * GeneratedColumns: generated column metadata (vgi/column_expressions.go)

    A generated column carries its expression in its field's metadata: the
    Base64 of one canonical SqlExpression row, owned by the table's schema. This
    file has the metadata of a field, the checks of the expressions at every
    level of the types, the translation of the metadata of earlier versions, and
    the checks of the generated columns of a served table. *)

From S2P Require Import Prelude Bytes Base64 Strings Unicode ArrowTypes.
From S2P Require Import SqlTokens SqlParser SqlGrammar Columns SqlChecks ConstraintRecords.

Definition GenerationKey : string := "vgi.column.generation.v1".
Definition legacyGeneratedKey : string := "generated_expression".

(** ** Metadata

    [Metadata.ToMap] keeps the last value of a key, [FindKey] finds the first;
    [arrow.MetadataFrom] sorts the keys. *)

Definition ToMap (md : list (string * string)) : gmap string string := list_to_map (reverse md).
Definition MetadataFrom (m : gmap string string) : list (string * string) :=
  map (fun k => (k, default "" (m !! k))) (Sort (elements (dom m))).

Lemma has_key_in md k : has_key md k = true <-> k ∈ md.*1.
Proof.
  unfold has_key, find_key. induction md as [|[a v] md IH]; [cbn; set_solver|]. cbn [List.find fst fmap list_fmap].
  destruct (bool_decide (a = k)) eqn:E; bool_hyps; [subst; cbn; set_solver|]. rewrite IH. set_solver.
Qed.
Lemma has_key_ToMap md k : has_key md k = bool_decide (is_Some (ToMap md !! k)).
Proof.
  apply eq_true_iff_eq. rewrite has_key_in, bool_decide_eq_true, <- elem_of_dom. unfold ToMap.
  rewrite dom_list_to_map_L, elem_of_list_to_set. by rewrite fmap_reverse, elem_of_reverse.
Qed.
Lemma find_key_MetadataFrom m k : find_key (MetadataFrom m) k = m !! k.
Proof.
  unfold find_key, MetadataFrom. set (l := Sort (elements (dom m))).
  assert (k ∈ l <-> is_Some (m !! k)) as Hk by (unfold l; rewrite elem_of_Sort, elem_of_elements, elem_of_dom; done).
  clearbody l. induction l as [|a l IH]; cbn [map List.find fst].
  - destruct (m !! k) eqn:E; [|done]. exfalso. by apply (not_elem_of_nil k), Hk.
  - destruct (bool_decide (a = k)) eqn:E; bool_hyps; [subst; cbn|].
    + destruct (m !! k) eqn:Em; [done|]. exfalso. destruct Hk as [Hk _]. destruct Hk as [? ?]; [by left|done].
    + apply IH. rewrite <- Hk. split; [by right|]. by intros [?|?]%elem_of_cons.
Qed.
Lemma keys_MetadataFrom m : (MetadataFrom m).*1 = Sort (elements (dom m)).
Proof. unfold MetadataFrom. induction (Sort _) as [|k l IH]; cbn; by rewrite ?IH. Qed.
Lemma ToMap_MetadataFrom m : ToMap (MetadataFrom m) = m.
Proof.
  apply map_eq. intros k. unfold ToMap. destruct (m !! k) as [v|] eqn:E.
  - apply elem_of_list_to_map_1'.
    + intros v' Hv. apply elem_of_reverse, list_elem_of_fmap in Hv as (k' & Ek & _). injection Ek as <- ->. by rewrite E.
    + apply elem_of_reverse, list_elem_of_fmap. exists k. rewrite E. split; [done|]. apply elem_of_Sort, elem_of_elements, elem_of_dom. by exists v.
  - apply not_elem_of_list_to_map_1. rewrite fmap_reverse, elem_of_reverse, keys_MetadataFrom, elem_of_Sort, elem_of_elements, elem_of_dom, E.
    by intros [? ?].
Qed.

(** ** Text *)

Definition sqlText (value : string) (maximum : Z) : bool :=
  negb (bool_decide (value = "")) && negb (bool_decide (x00 ∈ sb value)) && utf8_valid (sb value) && (slen value <=? maximum)%Z.

Section generated.
Context `{Unicode} (ParseFloat : string -> bool) (uni_class : bytes -> rune_class) (fold : string -> string).
(** The IPC codec of [ConstraintRecords]; an element of a list that is NULL
    reads as the empty string. *)
Context (write_row : Row -> result string bytes) (read_row : bytes -> result string Row).

(** [strings.TrimSpace] leaves nothing: only spaces, and well-formed ones. *)
Fixpoint blank_runes (fuel : nat) (l : bytes) : bool :=
  match fuel, l with
  | _, [] => true
  | O, _ => false
  | S fuel, _ => let r := rune l in utf8_valid r && IsSpace uni_class r && blank_runes fuel (drop (length r) l)
  end.
Definition blank (s : string) : bool := blank_runes (length (sb s)) (sb s).

(** ** One expression *)

Definition context_present (c : EvaluationContext) : bool :=
  bool_decide (is_Some (timezone c)) && bool_decide (is_Some (collation c)) && bool_decide (is_Some (default_order c)) &&
  bool_decide (is_Some (default_null_order c)) && bool_decide (is_Some (preserve_insertion_order c)).

Definition validateGeneratedExpression (encoded : string) (owner : path) : result string () :=
  check! negb (bool_decide (encoded = "") || (4 * ((mebi8 + 2) / 3) <? slen encoded)%Z) else "invalid generated expression size" in
  match StdDecodeString encoded with
  | None => Err "generated expression requires canonical base64 IPC"
  | Some payload =>
      check! bool_decide (StdEncodeToString payload = encoded) && negb (bool_decide (payload = [])) && (blen payload <=? mebi8)%Z
        else "generated expression requires canonical base64 IPC" in
      let? r := read_row payload in
      match r with
      | ExpressionRow e =>
          check! sqlText (expr_sql e) (1024 * 1024) && negb (blank (expr_sql e)) && bool_decide (expr_profile e = scalarExpressionProfile)
            else "invalid or unsupported generated expression" in
          check! (length (expr_schema_path e) <=? 32)%nat && forallb (fun p => sqlText p 4096) (expr_schema_path e)
            else "invalid expression owner" in
          check! bool_decide (expr_schema_path e = owner) else "generated expression owner differs from table schema" in
          check! context_present (expr_context e) else "required expression context is null" in
          check! defaultEvaluationContext (expr_context e) else "unsupported generated expression evaluation context" in
          Ok ()
      | _ => Err "invalid SqlExpression record schema"
      end
  end.

Definition GeneratedExpressionMetadata (sql : string) (owner : path) : result string string :=
  let? payload := write_row (ExpressionRow {| expr_sql := sql; expr_profile := scalarExpressionProfile;
                                               expr_schema_path := owner; expr_context := default_context |}) in
  let encoded := StdEncodeToString payload in
  let? _ := validateGeneratedExpression encoded owner in Ok encoded.

(** ** The expressions of a schema *)

(** A reserved key of a version that is not known. *)
Definition unknown_version (key : string) : bool :=
  has_prefix (sb key) (sb "vgi.column.generated.") && negb (bool_decide (key = GeneratedExpressionKey)) ||
  has_prefix (sb key) (sb "vgi.column.generation.") && negb (bool_decide (key = GenerationKey)).

Definition visit_field (owner : path) (allowGenerated : bool) (md : list (string * string)) : result string () :=
  let values := ToMap md in
  check! negb (existsb unknown_version (map fst md)) else "unknown generated column metadata version" in
  check! bool_decide (values !! legacyGeneratedKey = None) else "legacy generated_expression metadata is not read under vgi.v3" in
  match values !! GeneratedExpressionKey, values !! GenerationKey with
  | None, None => Ok ()
  | Some encoded, Some category =>
      check! bool_decide (category = "virtual") else "only VIRTUAL generated columns are supported" in
      check! bool_decide (values !! "default" = None) else "generated column cannot have a default" in
      check! bool_decide (values !! "vgi.column.default.v1" = None) else "generated column cannot have a default" in
      let? _ := validateGeneratedExpression encoded owner in
      if allowGenerated then Ok () else Err "NotImplementedError: generated columns are unsupported by this writable catalog"
  | _, _ => Err "generated expression and category must occur together"
  end.

(** Every field of a column's type, and of the types inside it. *)
Fixpoint visit (owner : path) (allowGenerated : bool) (c : Column) : result string () :=
  let 'MkColumn _ t _ md := c in
  let? _ := visit_field owner allowGenerated md in
  (fix visitType (t : Shape Column) : result string () :=
     let all := fix all (l : list Column) : result string () :=
       match l with [] => Ok () | f :: l => let? _ := visit owner allowGenerated f in all l end in
     match t with
     | PlainType _ => Ok ()
     | StructType fs | NestedType _ fs => all fs
     | DictionaryType _ v => visitType v
     | ExtensionType _ s => visitType s
     end) t.
Definition ValidateColumnExpressions (schema : option (list Column)) (owner : path) (allowGenerated : bool) : result string () :=
  match schema with
  | None => Ok ()
  | Some cols => let? _ := map_result (visit owner allowGenerated) cols in Ok ()
  end.

(** ** The metadata of earlier versions *)

Definition translate_field (owner : path) (c : Column) : result string Column :=
  match find_key (colMetadata c) legacyGeneratedKey with
  | None => Ok c
  | Some sql =>
      check! negb (has_key (colMetadata c) GeneratedExpressionKey || has_key (colMetadata c) GenerationKey)
        else "column carries both legacy generated_expression and canonical metadata" in
      check! negb (blank sql) else "legacy generated_expression is empty" in
      let? encoded := GeneratedExpressionMetadata sql owner in
      Ok (MkColumn (colName c) (colType c) (colNullable c)
            (MetadataFrom (<[GenerationKey := "virtual"]> (<[GeneratedExpressionKey := encoded]>
              (delete legacyGeneratedKey (ToMap (colMetadata c)))))))
  end.
Definition translateLegacyGenerated (schema : option (list Column)) (owner : path) : result string (option (list Column)) :=
  match schema with
  | None => Ok None
  | Some cols => let? out := map_result (translate_field owner) cols in Ok (Some out)
  end.

(** ** The generated columns of a served table *)

(** One column: whether it is generated, and whether it is physical. *)
Definition validateGeneratedColumn (cols : list Column) (c : Column) : result string (bool * bool) :=
  match find_key (colMetadata c) GeneratedExpressionKey with
  | None => Ok (false, negb (isRowIDField c))
  | Some encoded =>
      check! generatedPrimitiveArrow c else "DuckDB reads generated columns only as BOOLEAN, TINYINT..BIGINT or VARCHAR" in
      match StdDecodeString encoded with
      | None => Err "illegal base64 data"
      | Some payload =>
          let? r := readCanonicalRow read_row payload in
          match r with
          | ExpressionRow e =>
              let? _ := validateGeneratedSQL ParseFloat uni_class fold (expr_sql e) (Some cols) (colName c) in Ok (true, false)
          | _ => mismatch
          end
      end
  end.
Definition validateGeneratedColumns (schema : option (list Column)) : result string () :=
  match schema with
  | None => Ok ()
  | Some cols =>
      let? kinds := map_result (validateGeneratedColumn cols) cols in
      check! negb (existsb fst kinds && negb (existsb snd kinds)) else "a table with generated columns needs at least one physical column" in
      Ok ()
  end.
End generated.
