(* ===== verification/Unnulled.v ===== *)
(** * Unnulled: what the checks of a table's columns do not look at

    The checks of a table's columns see names, types and metadata. They give the
    same answers when the nullability that is served is left out. *)

From S2P Require Import Prelude Bytes Base64 Strings Unicode ArrowTypes Json.
From S2P Require Import SqlTokens SqlParser SqlGrammar Columns SqlChecks ConstraintRecords ConstraintTables ServedColumns.
From S2P Require Import ColumnMetadata GeneratedColumns.

Lemma filter_image {A} (g : A -> A) (P Q : A -> Prop) `{!forall x, Decision (P x), !forall x, Decision (Q x)} l :
  (forall x, P (g x) <-> Q x) -> filter P (map g l) = map g (filter Q l).
Proof.
  intros HPQ. induction l as [|x l IH]; [done|]. cbn [map]. destruct (decide (Q x)) as [HQ|HQ].
  - by rewrite (filter_cons_True Q), (filter_cons_True P), IH by (done || by apply HPQ).
  - by rewrite (filter_cons_False Q), (filter_cons_False P), IH by (done || by rewrite HPQ).
Qed.

Lemma unnulled_name top c : colName (unnulled top c) = colName c.
Proof. rewrite unnulled_equation. by destruct (top && _). Qed.
Lemma unnulled_metadata top c : colMetadata (unnulled top c) = colMetadata c.
Proof. rewrite unnulled_equation. by destruct (top && _). Qed.
Lemma unnulled_row_id top c : isRowIDField (unnulled top c) = isRowIDField c.
Proof. unfold isRowIDField. by rewrite unnulled_metadata. Qed.
Lemma unnulled_plain top c : isRowIDField c = false -> unnulled top c = unnulled false c.
Proof. intros E. rewrite !(unnulled_equation _ c), E. by rewrite andb_false_r. Qed.
Lemma unnulled_children c : ordinaryStructChildren (unnulled false c) = map (unnulled false) <$> ordinaryStructChildren c.
Proof.
  rewrite unnulled_equation. cbn [andb]. unfold ordinaryStructChildren. cbn [colType colMetadata].
  destruct (colType c); try done. by destruct (existsb _ _) eqn:E; cbn; rewrite ?E.
Qed.
(** The kind of a type that is no struct is kept. *)
Lemma unnulled_type {A} top c (f : Shape Column -> A) (d : A) : (forall fs, f (StructType fs) = d) -> f (colType (unnulled top c)) = f (colType c).
Proof.
  intros Hf. rewrite unnulled_equation. destruct (top && _); [done|]. cbn [colType].
  destruct (ordinaryStructChildren c) as [fs|] eqn:E; [|done]. apply ordinary_children in E as ->. by rewrite !Hf.
Qed.
Lemma unnulled_primitive top c : generatedPrimitiveArrow (unnulled top c) = generatedPrimitiveArrow c.
Proof.
  unfold generatedPrimitiveArrow. rewrite unnulled_metadata. by rewrite (unnulled_type top c is_extension false),
    (unnulled_type top c (fun t => match t with PlainType (BOOL | INT8 | INT16 | INT32 | INT64 | STRING) => true | _ => false end) false).
Qed.

(** ** References of expressions *)

Section checks.
Context `{Unicode} (ParseFloat : string -> bool) (uni_class : bytes -> rune_class) (fold : string -> string).
Context (read_row : bytes -> result string Row).
Abbreviation bare := (map (unnulled true)).

(** The positions of columns do not move. *)
Definition bare_at (ic : nat * Column) : nat * Column := (fst ic, unnulled true (snd ic)).
Lemma positions_unnulled cols : imap pair (bare cols) = map bare_at (imap pair cols).
Proof using. change (imap pair (unnulled true <$> cols) = bare_at <$> imap pair cols). by rewrite imap_fmap, fmap_imap. Qed.
Lemma findColumnCI_unnulled cols n :
  findColumnCI fold (Some (bare cols)) n = let? found := findColumnCI fold (Some cols) n in Ok (bare_at <$> found).
Proof using.
  unfold findColumnCI, columns_folded. rewrite positions_unnulled.
  rewrite (filter_image bare_at _ (fun ic => fold (colName ic.2) = fold n)) by (intros [i c]; cbn; by rewrite unnulled_name).
  by destruct (filter _ _) as [|? [|]].
Qed.

Lemma check_operand_unnulled cols n : check_operand fold (Some (bare cols)) n = check_operand fold (Some cols) n.
Proof using.
  unfold check_operand. destruct (kind n); try done. rewrite findColumnCI_unnulled.
  destruct (findColumnCI fold (Some cols) (name n)) as [[[i c]|]|]; try done. cbn.
  rewrite unnulled_row_id, unnulled_metadata, unnulled_name.
  by rewrite (unnulled_type true c is_extension false), (unnulled_type true c signed_numeric false).
Qed.
Lemma generated_column_unnulled cols self n :
  generated_column fold (Some (bare cols)) self n = generated_column fold (Some cols) self n.
Proof using.
  unfold generated_column. rewrite findColumnCI_unnulled. destruct (findColumnCI fold (Some cols) n) as [[[i c]|]|]; try done. cbn.
  by rewrite unnulled_row_id, unnulled_name, unnulled_primitive.
Qed.
Lemma walk_same c1 c2 self : (forall n, generated_column fold c1 self n = generated_column fold c2 self n) ->
  forall n, walk fold c1 self n = walk fold c2 self n.
Proof using.
  intros Hc. fix IH 1. intros [k nm c l]. cbn [walk]. rewrite Hc.
  assert ((fix all (l : list sqlNode) : result string () :=
     match l with [] => Ok () | a :: l => let? _ := walk fold c1 self a in all l end) l =
    (fix all (l : list sqlNode) : result string () :=
     match l with [] => Ok () | a :: l => let? _ := walk fold c2 self a in all l end) l) as ->; [|done].
  induction l as [|a l IHl]; [done|]. by rewrite IH, IHl.
Qed.
Lemma validateGeneratedSQL_unnulled cols sql self :
  validateGeneratedSQL ParseFloat uni_class fold sql (Some (bare cols)) self = validateGeneratedSQL ParseFloat uni_class fold sql (Some cols) self.
Proof using.
  unfold validateGeneratedSQL. destruct (parsed _ _ _) as [e|]; [|done]. apply walk_same. intros n. apply generated_column_unnulled.
Qed.
Lemma validateNumericCheckSQL_unnulled cols sql :
  validateNumericCheckSQL ParseFloat uni_class fold sql (Some (bare cols)) = validateNumericCheckSQL ParseFloat uni_class fold sql (Some cols).
Proof using.
  unfold validateNumericCheckSQL. destruct (parsed _ _ _) as [e|]; [|done]. destruct (bool_decide _); [|done].
  assert (map_result (check_operand fold (Some (bare cols))) (args e) = map_result (check_operand fold (Some cols)) (args e)) as ->; [|done].
  induction (args e) as [|a l IH]; [done|]. cbn [map_result]. by rewrite check_operand_unnulled, IH.
Qed.

(** ** Paths *)

Lemma topLevelIndex_unnulled cols n : topLevelIndex (bare cols) n = topLevelIndex cols n.
Proof using.
  unfold topLevelIndex, columns_called. rewrite positions_unnulled.
  rewrite (filter_image bare_at _ (fun ic => colName ic.2 = n)) by (intros [i c]; cbn; by rewrite unnulled_name).
  by destruct (filter _ _) as [|[] [|]].
Qed.
Lemma rowIDIndex_unnulled cols : rowIDIndex (bare cols) = rowIDIndex cols.
Proof using.
  unfold rowIDIndex. rewrite positions_unnulled. f_equal. induction (imap pair cols) as [|[i c] l IH]; [done|].
  cbn. rewrite unnulled_row_id, <- IH. done.
Qed.
Lemma topLevel_unnulled cols n : topLevel (bare cols) n = unnulled true <$> topLevel cols n.
Proof using.
  unfold topLevel. rewrite topLevelIndex_unnulled, rowIDIndex_unnulled. destruct (topLevelIndex cols n) as [i|]; [|done].
  destruct (bool_decide _); [done|]. change (bare cols) with (unnulled true <$> cols). by rewrite list_lookup_fmap.
Qed.
Lemma descend_unnulled p c : descend (unnulled false c) p = let? d := descend c p in Ok (unnulled false d).
Proof using.
  revert c. induction p as [|part p IH]; intros c; [done|]. cbn [descend]. rewrite unnulled_children.
  destruct (ordinaryStructChildren c) as [fs|]; [|done]. cbn [fmap option_fmap option_map].
  rewrite (filter_image (unnulled false) _ (fun d => colName d = part)) by (intros d; by rewrite unnulled_name).
  destruct (filter _ fs) as [|d [|]]; [done| |done]. cbn. apply IH.
Qed.
Lemma resolveNotNullPath_unnulled cols p : resolveNotNullPath (bare cols) p = resolveNotNullPath cols p.
Proof using.
  destruct p as [|n p]; [done|]. cbn [resolveNotNullPath]. rewrite topLevel_unnulled. destruct (topLevel cols n) as [c|]; [|done].
  cbn. destruct (isRowIDField c) eqn:E; [by rewrite unnulled_equation, E|]. rewrite unnulled_plain, descend_unnulled by done.
  by destruct (descend c p).
Qed.
Lemma checkKeyColumns_unnulled cols ps : checkKeyColumns (Some (bare cols)) ps = checkKeyColumns (Some cols) ps.
Proof using.
  induction ps as [|p ps IH]; [done|]. cbn [checkKeyColumns]. destruct p as [|n [|]]; try done. rewrite topLevel_unnulled.
  by destruct (topLevel cols n).
Qed.

(** ** The records of a table *)

Lemma checkBody_unnulled cols st d :
  checkBody ParseFloat uni_class fold (Some (bare cols)) st d = checkBody ParseFloat uni_class fold (Some cols) st d.
Proof using.
  unfold checkBody, checkCheck. rewrite validateNumericCheckSQL_unnulled, checkKeyColumns_unnulled.
  by destruct (Columns (spec d)) as [|p [|]]; rewrite ?resolveNotNullPath_unnulled.
Qed.
Lemma checkTableConstraints_unnulled owner table cols datas :
  checkTableConstraints ParseFloat uni_class fold read_row owner table (Some (bare cols)) datas =
  checkTableConstraints ParseFloat uni_class fold read_row owner table (Some cols) datas.
Proof using.
  unfold checkTableConstraints. destruct (_ <=? _)%nat; [|done].
  assert (forall st, checkRecords ParseFloat uni_class fold read_row owner table (Some (bare cols)) st datas =
    checkRecords ParseFloat uni_class fold read_row owner table (Some cols) st datas) as ->; [|done].
  induction datas as [|b datas IH]; intros st; [done|]. cbn [checkRecords]. destruct (negb _); [|done].
  destruct (decodeConstraintRecord read_row b) as [d|]; [|done]. destruct (checkIdentity _ _ _ _); [|done].
  rewrite checkBody_unnulled. destruct (checkBody _ _ _ _ _ _); [|done]. apply IH.
Qed.
End checks.

(** ** The metadata of every level *)

Section levels.
Context `{Unicode} (ParseFloat : string -> bool) (uni_class : bytes -> rune_class) (fold : string -> string).
Context (read_row : bytes -> result string Row).
Abbreviation bare := (map (unnulled true)).
Abbreviation visit := (visit uni_class read_row).

(** A check that looks at the metadata of a field and then at its children. *)
Lemma level_unnulled (check : Column -> result string ()) (here : list (string * string) -> result string ())
    (below : list Column -> result string ()) :
  (forall c fs, colType c = StructType fs -> check c = let? _ := here (colMetadata c) in below fs) ->
  (forall c d, colType c = colType d -> colMetadata c = colMetadata d -> check c = check d) ->
  (forall fs gs, Forall2 (fun c d => check c = check d) fs gs -> below fs = below gs) ->
  forall top c, check (unnulled top c) = check c.
Proof using.
  intros Hstruct Hother Hbelow top c. revert top. induction c as [c IH] using fields_ind. intros top.
  rewrite unnulled_equation. destruct (top && _); [done|]. destruct (ordinaryStructChildren c) as [fs|] eqn:E; [|by apply Hother].
  apply ordinary_children in E. rewrite (Hstruct c fs E), (Hstruct _ (map (unnulled false) fs)) by done. cbn [colMetadata].
  destruct (here _); [|done]. apply Hbelow. clear E. induction IH as [|d fs Hd _ IHl]; constructor; [apply Hd|done].
Qed.

Lemma visit_unnulled owner allow top c : visit owner allow (unnulled top c) = visit owner allow c.
Proof using.
  revert top c. apply (level_unnulled _ (visit_field uni_class read_row owner allow)
    (fix all (l : list Column) := match l with [] => Ok () | f :: l => let? _ := visit owner allow f in all l end)).
  - intros [n t b md] fs E. cbn in E. by rewrite E.
  - intros [n t b md] [n' t' b' md'] E1 E2. cbn in E1, E2. by subst.
  - induction 1 as [|c d fs gs Hc _ IH]; [done|]. by rewrite Hc, IH.
Qed.
Lemma validateColumnField_unnulled top c : validateColumnField (unnulled top c) = validateColumnField c.
Proof using.
  revert top c. apply (level_unnulled _ (check_entries ∅)
    (fix all (l : list Column) := match l with [] => Ok () | f :: l => let? _ := validateColumnField f in all l end)).
  - intros [n t b md] fs E. cbn in E. by rewrite E.
  - intros [n t b md] [n' t' b' md'] E1 E2. cbn in E1, E2. by subst.
  - induction 1 as [|c d fs gs Hc _ IH]; [done|]. by rewrite Hc, IH.
Qed.

Lemma map_result_image {A B} (g : A -> A) (f f' : A -> result string B) l : (forall x, f (g x) = f' x) -> map_result f (map g l) = map_result f' l.
Proof using. intros Hf. induction l as [|x l IH]; [done|]. cbn [map map_result]. by rewrite Hf, IH. Qed.

Lemma ValidateColumnExpressions_unnulled cols owner allow :
  ValidateColumnExpressions uni_class read_row (Some (bare cols)) owner allow = ValidateColumnExpressions uni_class read_row (Some cols) owner allow.
Proof using. unfold ValidateColumnExpressions. by rewrite (map_result_image _ _ (visit owner allow)) by (intros; apply visit_unnulled). Qed.
Lemma ValidateColumnMetadata_unnulled cols : ValidateColumnMetadata (Some (bare cols)) = ValidateColumnMetadata (Some cols).
Proof using. unfold ValidateColumnMetadata. by rewrite (map_result_image _ _ validateColumnField) by (intros; apply validateColumnField_unnulled). Qed.
Lemma validateGeneratedColumns_unnulled cols :
  validateGeneratedColumns ParseFloat uni_class fold read_row (Some (bare cols)) = validateGeneratedColumns ParseFloat uni_class fold read_row (Some cols).
Proof using.
  unfold validateGeneratedColumns.
  rewrite (map_result_image _ _ (validateGeneratedColumn ParseFloat uni_class fold read_row cols)); [done|].
  intros c. unfold validateGeneratedColumn. rewrite unnulled_metadata, unnulled_row_id, unnulled_primitive, unnulled_name.
  destruct (find_key _ _); [|done]. destruct (generatedPrimitiveArrow c); [|done]. destruct (StdDecodeString _); [|done].
  destruct (readCanonicalRow _ _) as [[]|]; try done. by rewrite validateGeneratedSQL_unnulled.
Qed.
End levels.

(** ** Serving again *)

Lemma serve_again req top prefix c c' : serve_column req top prefix c = Ok c' -> serve_column req top prefix c' = Ok c'.
Proof.
  revert top prefix c'. induction c as [c IH] using fields_ind. intros top prefix c' E.
  destruct (top && isRowIDField c) eqn:Et; [by rewrite serve_equation, Et in E; injection E as <-; rewrite serve_equation, Et|].
  destruct (serve_shape req top prefix c c' E Et) as (En & Em & Eb & Ec).
  rewrite serve_equation in E. rewrite Et in E. rewrite serve_equation. unfold isRowIDField, needed in *. rewrite En, Em in *.
  rewrite Et. destruct (_ && _ && _); [done|]. destruct c' as [n t b md]. cbn [colName colMetadata colNullable colType] in *. subst n md b.
  destruct (ordinaryStructChildren c) as [fs|] eqn:Eo.
  - destruct Ec as (fs' & Efs & Ec). rewrite Ec. apply ordinary_children in Ec. cbn in Ec. subst t.
    assert (map_result (serve_column req false (prefix ++ [colName c])) fs' = Ok fs') as ->; [|done].
    apply map_result_inv in Efs. clear -Efs IH. induction Efs as [|x y l k Hxy _ IHl]; [done|]. apply Forall_cons in IH as [H1 H2].
    cbn [map_result]. rewrite (H1 _ _ _ Hxy), IHl by done. done.
  - destruct Ec as [Ec Et']. rewrite Ec. done.
Qed.
Lemma served_again req cols served : servedNullability cols req = Ok served -> servedNullability served req = Ok served.
Proof.
  unfold servedNullability. intros E. apply map_result_inv in E. induction E as [|x y l k Hxy _ IH]; [done|].
  cbn [map_result]. by rewrite (serve_again _ _ _ _ _ Hxy), IH.
Qed.
