(* ===== verification/TableInfo.v ===== *)
(** * TableInfo: the row a table is published as (vgi/catalog_table_info.go)

    [buildTableInfoRecord] refuses the fields of earlier versions, translates
    and checks the columns' metadata, serves their nullability from the
    constraint records and lays the row out. *)

From S2P Require Import Prelude Bytes Base64 Strings Unicode ArrowTypes Json.
From S2P Require Import SqlTokens SqlParser SqlGrammar Columns SqlChecks ConstraintRecords ConstraintTables ServedColumns.
From S2P Require Import ColumnMetadata GeneratedColumns Unnulled.

(** A [nil] slice of bytes is [None]. *)
Record TableInfo := {
  Constraints : list bytes;
  DefinitionRevision : option bytes;
  Name : string;
  TablePath : path;
  Comment : string;
  Tags : gmap string string;
  InfoColumns : option (list Column);
  NotNullConstraints : list Z;
  UniqueConstraints : list (list Z);
  CheckConstraints : list string;
  PrimaryKeyConstraints : list (list Z);
  ForeignKeyConstraints : list bytes;
  WriteResultModes : gmap string string;
  SupportsColumnStatistics : bool;
  ScanFunction : option bytes;
  InsertFunction : option bytes;
  UpdateFunction : option bytes;
  DeleteFunction : option bytes;
  CardinalityEstimate : option Z;
  CardinalityMax : option Z;
  ColumnStatistics : option bytes;
  BindResult : option bytes;
  RequiredFilters : list (list path);
  Options : option bytes;
  Layout : option bytes
}.
Definition with_columns (info : TableInfo) (cols : option (list Column)) : TableInfo :=
  {| Constraints := Constraints info; DefinitionRevision := DefinitionRevision info; Name := Name info; TablePath := TablePath info;
     Comment := Comment info; Tags := Tags info; InfoColumns := cols; NotNullConstraints := NotNullConstraints info;
     UniqueConstraints := UniqueConstraints info; CheckConstraints := CheckConstraints info;
     PrimaryKeyConstraints := PrimaryKeyConstraints info; ForeignKeyConstraints := ForeignKeyConstraints info;
     WriteResultModes := WriteResultModes info; SupportsColumnStatistics := SupportsColumnStatistics info;
     ScanFunction := ScanFunction info; InsertFunction := InsertFunction info; UpdateFunction := UpdateFunction info;
     DeleteFunction := DeleteFunction info; CardinalityEstimate := CardinalityEstimate info; CardinalityMax := CardinalityMax info;
     ColumnStatistics := ColumnStatistics info; BindResult := BindResult info; RequiredFilters := RequiredFilters info;
     Options := Options info; Layout := Layout info |}.

(** The one row of the record batch; a missing cell is NULL. *)
Record TableInfoRow := {
  row_comment : option string;
  row_tags : list (string * string);
  row_name : string;
  row_schema_path : path;
  row_columns : bytes;
  row_constraints : list bytes;
  row_revision : option bytes;
  row_write_modes : list (string * string);
  row_statistics : bool;
  row_functions : list (option bytes);
  row_cardinality : option Z * option Z;
  row_column_statistics : option bytes;
  row_bind_result : option bytes;
  row_required_filters : list (list path);
  row_options : option bytes;
  row_layout : option bytes
}.

Definition legacy_constraints (info : TableInfo) : nat :=
  length (NotNullConstraints info) + length (UniqueConstraints info) + length (CheckConstraints info) +
  length (PrimaryKeyConstraints info) + length (ForeignKeyConstraints info).
Definition valid_revision (r : option bytes) : bool :=
  match r with None => true | Some b => negb (bool_decide (b = [])) && (blen b <=? 65536)%Z end.

Section publish.
Context `{Unicode} (ParseFloat : string -> bool) (uni_class : bytes -> rune_class) (fold : string -> string).
Context (write_row : Row -> result string bytes) (read_row : bytes -> result string Row).
(** An Arrow schema as IPC bytes. *)
Context (SerializeSchema : list Column -> result string bytes).

Definition published (info : TableInfo) : result string (option (list Column)) :=
  let? columns := translateLegacyGenerated uni_class write_row read_row (InfoColumns info) (TablePath info) in
  let? _ := ValidateColumnExpressions uni_class read_row columns (TablePath info) true in
  let? _ := validateGeneratedColumns ParseFloat uni_class fold read_row columns in
  let? _ := ValidateColumnMetadata columns in
  ServedTableColumns ParseFloat uni_class fold read_row (TablePath info) (Name info) columns (Constraints info).

Definition buildTableInfoRecord (info : TableInfo) : result string TableInfoRow :=
  check! bool_decide (legacy_constraints info = 0) else "NotImplementedError: the legacy constraint fields are not sent under vgi.v3" in
  check! valid_revision (DefinitionRevision info) else "DefinitionRevision must be nil or a 1..65536-byte token" in
  let? served := published info in
  let? columns := match served with None => Ok [] | Some cols => SerializeSchema cols end in
  Ok {| row_comment := if bool_decide (Comment info = "") then None else Some (Comment info);
        row_tags := MetadataFrom (Tags info); row_name := Name info; row_schema_path := TablePath info; row_columns := columns;
        row_constraints := Constraints info; row_revision := DefinitionRevision info;
        row_write_modes := MetadataFrom (WriteResultModes info); row_statistics := SupportsColumnStatistics info;
        row_functions := [ScanFunction info; InsertFunction info; UpdateFunction info; DeleteFunction info];
        row_cardinality := (CardinalityEstimate info, CardinalityMax info); row_column_statistics := ColumnStatistics info;
        row_bind_result := BindResult info; row_required_filters := RequiredFilters info;
        row_options := Options info; row_layout := Layout info |}.

(** ** Publishing what was published *)

Lemma translated_fields owner cols out : map_result (translate_field uni_class write_row read_row owner) cols = Ok out ->
  Forall (fun c => find_key (colMetadata c) legacyGeneratedKey = None) out.
Proof using.
  intros E. apply map_result_inv in E. induction E as [|c d l k Hcd _ IH]; [constructor|]. constructor; [|done]. unfold translate_field in Hcd.
  destruct (find_key (colMetadata c) legacyGeneratedKey) eqn:Ek; [|by injection Hcd as <-]. repeat inv_let. cbn [colMetadata].
  rewrite find_key_MetadataFrom. rewrite !lookup_insert_ne by done. apply lookup_delete_eq.
Qed.
Lemma nothing_to_translate owner cols : Forall (fun c => find_key (colMetadata c) legacyGeneratedKey = None) cols ->
  map_result (translate_field uni_class write_row read_row owner) cols = Ok cols.
Proof using.
  induction 1 as [|c cols Hc _ IH]; [done|]. cbn [map_result]. unfold translate_field at 1. by rewrite Hc, IH.
Qed.
Lemma served_metadata req cols served : servedNullability cols req = Ok served -> map colMetadata served = map colMetadata cols.
Proof using.
  intros E. destruct (serve_all req cols served E) as [Hs _].
  assert (forall l, map colMetadata l = map colMetadata (map (unnulled true) l)) as Hm
    by (intros l; rewrite map_map; apply map_ext; intros c; by rewrite unnulled_metadata).
  by rewrite Hm, Hs, <- Hm.
Qed.

(** What is left to check of columns that were translated and served. *)
Lemma served_columns_checked owner table cols translated served datas allow :
  map_result (translate_field uni_class write_row read_row owner) cols = Ok translated ->
  ServedTableColumns ParseFloat uni_class fold read_row owner table (Some translated) datas = Ok (Some served) ->
  translateLegacyGenerated uni_class write_row read_row (Some served) owner = Ok (Some served) /\
  ValidateColumnExpressions uni_class read_row (Some served) owner allow = ValidateColumnExpressions uni_class read_row (Some translated) owner allow /\
  validateGeneratedColumns ParseFloat uni_class fold read_row (Some served) = validateGeneratedColumns ParseFloat uni_class fold read_row (Some translated) /\
  ValidateColumnMetadata (Some served) = ValidateColumnMetadata (Some translated) /\
  ServedTableColumns ParseFloat uni_class fold read_row owner table (Some served) datas = Ok (Some served).
Proof using.
  intros Ht Hs. unfold ServedTableColumns in *. destruct (_ && _) eqn:Eg; [done|].
  destruct (checkTableConstraints _ _ _ _ _ _ _ _) as [req|] eqn:Er; [|done].
  destruct (servedNullability translated req) as [s|] eqn:En; [|done]. injection Hs as ->.
  destruct (serve_all req translated served En) as [Hb _]. split_and!.
  - cbn [translateLegacyGenerated]. rewrite nothing_to_translate; [done|].
    pose proof (served_metadata _ _ _ En) as Hm. pose proof (translated_fields _ _ _ Ht) as Hf. apply Forall_forall. intros c Hc.
    rewrite Forall_forall in Hf. assert (colMetadata c ∈ map colMetadata translated) as Hin by (rewrite <- Hm; by apply list_elem_of_fmap_2).
    apply list_elem_of_fmap in Hin as (d & -> & Hd). by apply Hf.
  - by rewrite <- ValidateColumnExpressions_unnulled, Hb, ValidateColumnExpressions_unnulled.
  - by rewrite <- validateGeneratedColumns_unnulled, Hb, validateGeneratedColumns_unnulled.
  - by rewrite <- ValidateColumnMetadata_unnulled, Hb, ValidateColumnMetadata_unnulled.
  - by rewrite <- checkTableConstraints_unnulled, Hb, checkTableConstraints_unnulled, Er, (served_again _ _ _ En).
Qed.

Lemma published_again info served : published info = Ok served -> published (with_columns info served) = Ok served.
Proof using.
  intros Hp. unfold published in *. cbn [with_columns InfoColumns TablePath Name Constraints].
  destruct (InfoColumns info) as [cols|] eqn:Ei.
  - unfold translateLegacyGenerated in Hp at 1. destruct (map_result (translate_field _ _ _ (TablePath info)) cols) as [translated|] eqn:Et; [|done].
    cbn match in Hp. repeat inv_let. destruct served as [served|];
      [|by unfold ServedTableColumns in Hp; destruct (_ && _); [|destruct (checkTableConstraints _ _ _ _ _ _ _ _); [destruct (servedNullability _ _)|]]].
    destruct (served_columns_checked _ _ _ _ _ _ true Et Hp) as (-> & -> & -> & -> & ->). by rewrite E, E0, E1.
  - cbn in Hp. assert (served = None) as ->; [|by cbn].
    unfold ServedTableColumns in Hp. destruct (_ && _); [done|]. destruct (checkTableConstraints _ _ _ _ _ _ _ _); [|done]. by injection Hp.
Qed.

(** C28: publishing is idempotent: a table that is published, published again with
    the columns it was served with, passes every check once more and is the same
    row, byte for byte. The checks do not depend on the nullability they serve,
    the translation leaves nothing to translate, and the nullability served from
    the records is the nullability served already. *)
Theorem publishing_idempotent (info : TableInfo) (row : TableInfoRow) :
  buildTableInfoRecord info = Ok row ->
  exists served, published info = Ok served /\ buildTableInfoRecord (with_columns info served) = Ok row.
Proof using.
  intros Hb. unfold buildTableInfoRecord in *.
  destruct (bool_decide (legacy_constraints info = 0)) eqn:El; [|done]. destruct (valid_revision _) eqn:Er; [|done].
  destruct (published info) as [served|] eqn:Ep; [|done]. exists served. split; [done|].
  change (legacy_constraints (with_columns info served)) with (legacy_constraints info). rewrite El.
  cbn [with_columns DefinitionRevision]. by rewrite Er, (published_again info served Ep).
Qed.
End publish.

Module TableInfoExample.
Import GrammarExample CheckExample RecordExample TableExample.
#[local] Existing Instance AsciiText.ascii_text.

(** A schema as its columns' names and nullability. *)
Definition column_bytes (c : Column) : bytes := key_part (colName c) ++ [if colNullable c then x01 else x00].
Definition schema_bytes (cols : list Column) : result string bytes := Ok (flat_map column_bytes cols).

Definition declared : list Column :=
  columns ++ [column "loud" STRING [("comment", "shouted"); (legacyGeneratedKey, "upper(note)")]].
Definition info : TableInfo :=
  {| Constraints := datas; DefinitionRevision := Some [x01]; Name := "t"; TablePath := ["main"]; Comment := "prices"; Tags := ∅;
     InfoColumns := Some declared; NotNullConstraints := []; UniqueConstraints := []; CheckConstraints := []; PrimaryKeyConstraints := [];
     ForeignKeyConstraints := []; WriteResultModes := ∅; SupportsColumnStatistics := false; ScanFunction := None; InsertFunction := None;
     UpdateFunction := None; DeleteFunction := None; CardinalityEstimate := Some 3%Z; CardinalityMax := None; ColumnStatistics := None;
     BindResult := None; RequiredFilters := []; Options := None; Layout := None |}.
Notation build := (buildTableInfoRecord floats others ascii_lower write read schema_bytes).
Definition empty_row : TableInfoRow :=
  {| row_comment := None; row_tags := []; row_name := ""; row_schema_path := []; row_columns := []; row_constraints := [];
     row_revision := None; row_write_modes := []; row_statistics := false; row_functions := []; row_cardinality := (None, None);
     row_column_statistics := None; row_bind_result := None; row_required_filters := []; row_options := None; row_layout := None |}.
Definition info_row : TableInfoRow := match build info with Ok r => r | Err _ => empty_row end.

Ltac by_run t := vm_cast_no_check (eq_refl t).
Lemma publishing_idempotent_witness :
  build info = Ok info_row /\
  exists served, published floats others ascii_lower write read info = Ok served /\ build (with_columns info served) = Ok info_row.
Proof.
  assert (build info = Ok info_row) as Hb by by_run (Ok (E := string) info_row). split; [exact Hb|].
  exact (publishing_idempotent floats others ascii_lower write read schema_bytes info info_row Hb).
Defined.
End TableInfoExample.
