(* ===== verification/TableMetadata.v ===== *)
(** * TableMetadata: declared column metadata (vgi/catalog_table.go, catalog.go)

    A declared table gives some of its columns defaults, generated expressions
    and comments, each a Go map from column names: here the entries of a map in
    the order it happens to be iterated. The filters a scan must supply are paths
    into the columns. *)

From S2P Require Import Prelude Bytes Base64 Strings Unicode Strconv ArrowTypes ArrowData Arguments Json.
From S2P Require Import SqlTokens SqlParser SqlGrammar Columns SqlChecks ConstraintRecords ConstraintTables ServedColumns.
From S2P Require Import GeneratedColumns.

(** ** Editing the first column of a name *)

Fixpoint edit_first {A} (missing : string) (key : A -> string) (n : string) (edit : A -> result string A) (l : list A) : result string (list A) :=
  match l with
  | [] => Err missing
  | c :: l =>
      if bool_decide (key c = n) then let? c := edit c in Ok (c :: l)
      else let? l := edit_first missing key n edit l in Ok (c :: l)
  end.
Fixpoint edit_all {V} (missing : string) (edit : V -> Column -> result string Column) (entries : list (string * V)) (cols : list Column)
  : result string (list Column) :=
  match entries with
  | [] => Ok cols
  | (n, v) :: entries => let? cols := edit_first missing colName n (edit v) cols in edit_all missing edit entries cols
  end.

Definition with_metadata (c : Column) (md : list (string * string)) : Column := MkColumn (colName c) (colType c) (colNullable c) md.

(** ** Defaults *)

(** A Go value given as a default: raw SQL, nil, or another value. *)
Inductive default_value := DSql (sql : string) | DNil | DValue (v : any).

Section defaults.
(** [strconv.FormatFloat] with as many digits as needed, for 32 or 64 bits, and
    the text [fmt] gives other values. *)
Context (FormatFloat : float64 -> Z -> string) (Sprint : any -> string).

Definition defaultToSQL (v : default_value) : string :=
  match v with
  | DSql s => s
  | DNil => "NULL"
  | DValue v =>
      match v with
      | AString s => bstr (x27 :: quote_text x27 (sb s) ++ [x27])
      | ABool b => if b then "true" else "false"
      | AInt z | AInt64 z | AInt32 z => Itoa z
      | AFloat32 f => FormatFloat f 32
      | AFloat64 f => FormatFloat f 64
      | _ => Sprint v
      end
  end.
Definition set_default (v : default_value) (c : Column) : result string Column :=
  Ok (with_metadata c (colMetadata c ++ [("default", defaultToSQL v)])).
Definition applyDefaults (cols : list Column) (defaults : list (string * default_value)) : result string (list Column) :=
  edit_all "default references non-existent column" set_default defaults cols.
End defaults.

(** ** Comments *)

Fixpoint replace_value (key value : string) (md : list (string * string)) : list (string * string) :=
  match md with
  | [] => []
  | (k, v) :: md => if bool_decide (k = key) then (k, value) :: md else (k, v) :: replace_value key value md
  end.
Definition set_comment (comment : string) (c : Column) : result string Column :=
  Ok (with_metadata c (if has_key (colMetadata c) "comment" then replace_value "comment" comment (colMetadata c)
                       else colMetadata c ++ [("comment", comment)])).
Definition applyColumnComments (cols : list Column) (comments : list (string * string)) : result string (list Column) :=
  edit_all "column_comment references non-existent column" set_comment comments cols.

(** ** Generated columns *)

Section generated.
Context `{Unicode} (uni_class : bytes -> rune_class).
Context (write_row : Row -> result string bytes) (read_row : bytes -> result string Row).

Definition set_generated (owner : path) (expr : string) (c : Column) : result string Column :=
  let values := ToMap (colMetadata c) in
  check! bool_decide (values !! GeneratedExpressionKey = None) else "generated convenience conflicts with canonical metadata" in
  check! bool_decide (values !! legacyGeneratedKey = None) else "legacy generated metadata requires explicit translation" in
  let? encoded := GeneratedExpressionMetadata uni_class write_row read_row expr owner in
  Ok (with_metadata c (MetadataFrom (<[GenerationKey := "virtual"]> (<[GeneratedExpressionKey := encoded]> values)))).
Definition applyGenerated (cols : list Column) (generated : list (string * string)) (owner : path) : result string (list Column) :=
  edit_all "generated references non-existent column" (set_generated owner) generated cols.
End generated.

(** ** Required filters *)

Fixpoint filter_path (fields : option (list Column)) (p : path) : result string () :=
  match p with
  | [] => Ok ()
  | part :: rest =>
      check! negb (bool_decide (part = "")) && negb (bool_decide (x00 ∈ sb part)) else "invalid required_filters component" in
      match fields with
      | None => filter_path None rest
      | Some fs =>
          match filter (fun f => colName f = part) fs with
          | [] => Err "unknown required_filters component"
          | [f] =>
              match rest with
              | [] => Ok ()
              | _ :: _ => match colType f with
                          | StructType fs => filter_path (Some fs) rest
                          | _ => Err "non-struct required_filters parent"
                          end
              end
          | _ => Err "ambiguous required_filters component"
          end
      end
  end.
Fixpoint filter_group (columns : option (list Column)) (seen : gset string) (group : list path) : result string () :=
  match group with
  | [] => Ok ()
  | p :: group =>
      check! negb (bool_decide (p = [])) else "required_filters must not contain empty paths" in
      let? _ := filter_path columns p in
      check! negb (bool_decide (pathKey p ∈ seen)) else "duplicate required_filters path" in
      filter_group columns ({[pathKey p]} ∪ seen) group
  end.
Fixpoint validateRequiredFilters (columns : option (list Column)) (groups : list (list path)) : result string () :=
  match groups with
  | [] => Ok ()
  | g :: groups =>
      check! negb (bool_decide (g = [])) else "required_filters must not contain empty groups" in
      let? _ := filter_group columns ∅ g in
      validateRequiredFilters columns groups
  end.

(** ** Text of a default *)

Lemma quoted_end q t : quoted q (quote_text q t ++ [q]) = Some (t, []).
Proof.
  induction t as [|c t IH]; cbn [quote_text flat_map app]; [cbn [quoted]; by rewrite bool_decide_true|].
  fold (quote_text q t). destruct (bool_decide (c = q)) eqn:E; bool_hyps.
  - subst c. cbn [app quoted]. rewrite bool_decide_true by done. by rewrite IH.
  - cbn [app quoted]. rewrite bool_decide_false by done. by rewrite IH.
Qed.

(** a string given as a default is one SQL string literal with that value,
    whatever the string holds: the text [defaultToSQL] writes is read by the SQL
    tokenizer as that literal and nothing else. *)
Theorem string_default_is_literal (FormatFloat : float64 -> Z -> string) (Sprint : any -> string) (uni_class : bytes -> rune_class) (s : string) :
  tokenizeSQL uni_class (defaultToSQL FormatFloat Sprint (DValue (AString s))) = Ok [tokString s; tokEOF].
Proof.
  unfold tokenizeSQL, defaultToSQL. rewrite sb_bstr. set (l := quote_text x27 (sb s) ++ [x27]).
  change (x27 :: quote_text x27 (sb s) ++ [x27]) with (x27 :: l). cbn [length tokens].
  assert (token uni_class (x27 :: l) = Ok (Some (tokString s), [])) as ->.
  { unfold token. change (rune (x27 :: l)) with (take 1 (x27 :: l)). cbn [take firstn].
    change (IsSpace uni_class [x27]) with false. change (starts_with (x27 :: l) [x2d; x2d]) with false.
    change (starts_with (x27 :: l) [x2f; x2a]) with false. change (bool_decide ([x27] = [x22]) || bool_decide ([x27] = [x27])) with true.
    unfold l. rewrite quoted_end. change (bool_decide (x27 = x22)) with false. by rewrite bstr_sb. }
  cbn [fst snd]. by destruct (length l).
Qed.

(** ** The order of a map *)

Section order.
Context {V : Type} (missing : string) (edit : V -> Column -> result string Column).
Context (keeps_name : forall v c d, edit v c = Ok d -> colName d = colName c).

Lemma edit_first_swap n v m w l r : n <> m ->
  (let? l := edit_first missing colName n (edit v) l in edit_first missing colName m (edit w) l) = Ok r ->
  (let? l := edit_first missing colName m (edit w) l in edit_first missing colName n (edit v) l) = Ok r.
Proof using keeps_name.
  intros Hnm. revert r. induction l as [|c l IH]; intros r E; [done|]. cbn [edit_first] in *.
  destruct (bool_decide (colName c = n)) eqn:En; bool_hyps.
  - rewrite (bool_decide_false (colName c = m)) in * by congruence. destruct (edit v c) as [d|] eqn:Ed; [|done].
    cbn [edit_first] in E. rewrite bool_decide_false in E by (rewrite (keeps_name _ _ _ Ed); congruence).
    destruct (edit_first missing colName m (edit w) l) as [k|]; [|done]. cbn [edit_first]. rewrite bool_decide_true by done. by rewrite Ed.
  - destruct (bool_decide (colName c = m)) eqn:Em; bool_hyps.
    + destruct (edit_first missing colName n (edit v) l) as [k|] eqn:Ek; [|done]. cbn [edit_first] in E.
      rewrite bool_decide_true in E by done. destruct (edit w c) as [d|] eqn:Ed; [|done]. cbn [edit_first].
      rewrite bool_decide_false by (rewrite (keeps_name _ _ _ Ed); congruence). by rewrite Ek.
    + assert (exists k, (let? l := edit_first missing colName n (edit v) l in edit_first missing colName m (edit w) l) = Ok k /\ r = c :: k)
        as (k & Ek & ->).
      { destruct (edit_first missing colName n (edit v) l) as [l1|]; [|done]. cbn [edit_first] in E. rewrite bool_decide_false in E by done.
        destruct (edit_first missing colName m (edit w) l1) as [l2|]; [|done]. injection E as <-. by eexists. }
      specialize (IH k Ek). destruct (edit_first missing colName m (edit w) l) as [l1|]; [|done]. cbn [edit_first].
      rewrite bool_decide_false by done. by rewrite IH.
Qed.

(** Every order of the entries of a map gives the same columns. *)
Lemma edit_all_order es es' : es ≡ₚ es' -> NoDup es.*1 -> forall cols r,
  edit_all missing edit es cols = Ok r <-> edit_all missing edit es' cols = Ok r.
Proof using keeps_name.
  assert (forall es es', es ≡ₚ es' -> NoDup es.*1 -> forall cols r, edit_all missing edit es cols = Ok r -> edit_all missing edit es' cols = Ok r) as Hdir.
  { induction 1 as [|[n v] l k _ IH|[n v] [m w] l|l1 l2 l3 Hp1 IH1 _ IH2]; intros Hnd cols r E.
    - done.
    - cbn [edit_all] in *. apply NoDup_cons in Hnd as [_ Hnd]. destruct (edit_first _ _ _ _ _); [|done]. by apply IH.
    - cbn [edit_all] in *. apply NoDup_cons in Hnd as [Hn _]. pose proof (edit_first_swap m w n v cols) as Hswap.
      destruct (edit_first missing colName m (edit w) cols) as [c1|] eqn:E1; [|done].
      destruct (edit_first missing colName n (edit v) c1) as [c2|] eqn:E2; [|done].
      specialize (Hswap c2 ltac:(set_solver) ltac:(done)). destruct (edit_first missing colName n (edit v) cols) as [d1|]; [|done]. by rewrite Hswap.
    - apply IH2; [by rewrite <- Hp1|]. by apply IH1. }
  intros Hp Hnd cols r. split; [by apply Hdir|]. apply Hdir; [done|]. by rewrite <- Hp.
Qed.
End order.

(** ** What a required filter may name *)

(** [f] is the only field called [n]. *)
Definition sole (fs : list Column) (n : string) (f : Column) : Prop :=
  exists l k, fs = l ++ f :: k /\ colName f = n /\ Forall (fun c => colName c <> n) (l ++ k).
(** A path of sole fields, each but the last a struct. *)
Inductive filter_leads : list Column -> path -> Prop :=
| filter_here fs n f : sole fs n f -> filter_leads fs [n]
| filter_below fs n f gs p : sole fs n f -> colType f = StructType gs -> filter_leads gs p -> filter_leads fs (n :: p).
Definition component (s : string) : Prop := s <> "" /\ x00 ∉ sb s.

Lemma filter_none n (fs : list Column) : filter (fun f => colName f = n) fs = [] <-> Forall (fun c => colName c <> n) fs.
Proof.
  induction fs as [|c fs IH]; [split; [constructor|done]|]. rewrite Forall_cons, <- IH. rewrite filter_cons.
  destruct (decide (colName c = n)); split; try done; [by intros [? _]|by intros [_ ?]].
Qed.
Lemma filter_sole fs n f : filter (fun f => colName f = n) fs = [f] <-> sole fs n f.
Proof.
  split.
  - induction fs as [|c fs IH]; [done|]. rewrite filter_cons. destruct (decide (colName c = n)) as [E|E].
    + intros [= <- Hn]. exists [], fs. split; [done|]. split; [done|]. by apply filter_none.
    + intros Hf. destruct (IH Hf) as (l & k & -> & Ef & Hn). exists (c :: l), k. split; [done|]. split; [done|]. by constructor.
  - intros (l & k & -> & Ef & Hn). apply Forall_app in Hn as [Hl Hk]. rewrite filter_app, filter_cons, decide_True by done.
    by rewrite (proj2 (filter_none n l)), (proj2 (filter_none n k)).
Qed.

Lemma filter_path_none p : filter_path None p = Ok () <-> Forall component p.
Proof.
  induction p as [|part p IH]; [split; [constructor|done]|]. cbn [filter_path]. rewrite Forall_cons, <- IH. unfold component.
  destruct (bool_decide (part = "")) eqn:E1, (bool_decide (x00 ∈ sb part)) eqn:E2; bool_hyps; cbn; split; try done; tauto.
Qed.
Lemma filter_path_some p fs : p <> [] -> filter_path (Some fs) p = Ok () <-> Forall component p /\ filter_leads fs p.
Proof.
  revert fs. induction p as [|part p IH]; intros fs Hp; [done|]. cbn [filter_path]. rewrite Forall_cons. unfold component at 1.
  destruct (bool_decide (part = "")) eqn:E1, (bool_decide (x00 ∈ sb part)) eqn:E2; bool_hyps; cbn [negb andb]; try (split; [done|tauto]).
  destruct (filter _ fs) as [|f [|g l]] eqn:Ef.
  - split; [done|]. intros [_ Hl]. inversion Hl as [? ? ? Hs|? ? ? ? ? Hs]; subst; apply filter_sole in Hs; congruence.
  - assert (forall g, sole fs part g -> g = f) as Hone by (intros g Hg; apply filter_sole in Hg; congruence).
    apply filter_sole in Ef as Hf. destruct p as [|q p].
    + split; [|done]. intros _. split; [by repeat constructor|]. by econstructor.
    + assert (filter_leads fs (part :: q :: p) <-> exists gs, colType f = StructType gs /\ filter_leads gs (q :: p)) as ->.
      { split; [|intros (gs & Et & Hg); by econstructor]. intros Hl. inversion Hl as [|? ? ? gs ? Hs Et Hg]; subst.
        apply Hone in Hs as ->. by exists gs. }
      destruct (colType f) as [|gs| | |]; try (split; [done|]; intros [_ (? & ? & _)]; done).
      rewrite IH by done. split; [intros [? ?]; split; [tauto|]; by exists gs|]. intros [[_ ?] (? & [= <-] & ?)]. done.
  - split; [done|]. intros [_ Hl]. inversion Hl as [? ? ? Hs|? ? ? ? ? Hs]; subst; apply filter_sole in Hs; congruence.
Qed.

Definition required_filter (columns : option (list Column)) (p : path) : Prop :=
  p <> [] /\ Forall component p /\ match columns with None => True | Some fs => filter_leads fs p end.
Lemma filter_path_exact columns p : p <> [] -> filter_path columns p = Ok () <-> required_filter columns p.
Proof.
  intros Hp. unfold required_filter. destruct columns as [fs|]; [rewrite (filter_path_some p fs Hp)|rewrite filter_path_none]; tauto.
Qed.
Lemma filter_group_exact columns group seen : Forall short group ->
  filter_group columns seen group = Ok () <->
    Forall (required_filter columns) group /\ NoDup group /\ forall p, p ∈ group -> pathKey p ∉ seen.
Proof.
  intros Hs. revert seen. induction Hs as [|p group Hp Hs IH]; intros seen.
  - split; [|done]. intros _. split; [constructor|]. split; [constructor|]. intros p Hp. by inversion Hp.
  - cbn [filter_group]. rewrite Forall_cons, NoDup_cons. destruct (bool_decide (p = [])) eqn:Ep; bool_hyps; cbn [negb].
    { split; [done|]. intros [[[? _] _] _]. done. }
    pose proof (filter_path_exact columns p Ep) as Hpath. destruct (filter_path columns p) as [[]|];
      [|split; [done|]; intros [[Hr _] _]; by apply Hpath in Hr].
    destruct (bool_decide (pathKey p ∈ seen)) eqn:Es; bool_hyps; cbn [negb].
    { split; [done|]. intros (_ & _ & Hn). by destruct (Hn p); [left|]. }
    rewrite IH. split.
    + intros (Hr & Hnd & Hn). split; [split; [by apply Hpath|done]|]. split; [split; [|done]|].
      * intros Hin. apply (Hn p Hin). set_solver.
      * intros q [->|Hq]%elem_of_cons; [done|]. specialize (Hn q Hq). set_solver.
    + intros ([_ Hr] & [Hni Hnd] & Hn). split; [done|]. split; [done|]. intros q Hq Hin. apply elem_of_union in Hin as [Hin|Hin].
      * apply elem_of_singleton in Hin. rewrite Forall_forall in Hs. apply pathKey_inj in Hin as ->; [done|by apply Hs|done].
      * by apply (Hn q); [right|].
Qed.

(** the required filters of a table are accepted exactly when every group
    is a set of distinct paths, not empty, and every path leads, by names that
    are each the only one of their struct, to a field of the table. *)
Theorem required_filters_exact (columns : option (list Column)) (groups : list (list path)) :
  Forall (Forall short) groups ->
  validateRequiredFilters columns groups = Ok () <->
    Forall (fun g => g <> [] /\ NoDup g /\ Forall (required_filter columns) g) groups.
Proof.
  induction 1 as [|g groups Hg _ IH]; [by split|]. cbn [validateRequiredFilters]. rewrite Forall_cons, <- IH.
  destruct (bool_decide (g = [])) eqn:Eg; bool_hyps; cbn [negb]; [split; [done|]; by intros [[? _] _]|].
  pose proof (filter_group_exact columns g ∅ Hg) as Hx. destruct (filter_group columns ∅ g) as [[]|].
  - split; [|by intros [_ ?]]. intros Hr. destruct (proj1 Hx eq_refl) as (H1 & H2 & _). done.
  - split; [done|]. intros [(H1 & H2 & H3) _]. apply Hx. split; [done|]. split; [done|]. intros p _. apply not_elem_of_empty.
Qed.

Module FilterExample.
Definition leaf (n : string) : Column := MkColumn n (PlainType INT64) true [].
Definition filtered : list Column := [leaf "day"; MkColumn "place" (StructType [leaf "city"; leaf "zip"]) true []].
Definition groups : list (list path) := [[["place"; "city"]; ["place"; "zip"]]; [["day"]]].

Example whole_struct : validateRequiredFilters (Some filtered) [[["place"]]] = Ok ().
Proof. reflexivity. Qed.
Example below_a_leaf : validateRequiredFilters (Some filtered) [[["day"; "hour"]]] = Err "non-struct required_filters parent".
Proof. reflexivity. Qed.

Lemma required_filters_exact_witness :
  validateRequiredFilters (Some filtered) groups = Ok () /\
  Forall (fun g => g <> [] /\ NoDup g /\ Forall (required_filter (Some filtered)) g) groups.
Proof.
  assert (validateRequiredFilters (Some filtered) groups = Ok ()) as E by (vm_compute; reflexivity). split; [exact E|].
  apply (required_filters_exact (Some filtered) groups); [|exact E]. repeat constructor; vm_compute; reflexivity.
Defined.
End FilterExample.
