(* ===== verification/BindResult.v ===== *)
(** * BindResult: the wire form of a bind result (vgi/bind.go, projection.go)

    What a function answers a bind with, and the record it is sent as: the
    repeatability it promises and the profiles of expressions it offers are
    checked on the way out and on the way in. *)

From S2P Require Import Prelude Bytes Strings Unicode ArrowTypes Columns ConstraintRecords.

(** ** Repeatability *)

Definition BindRepeatabilityUnknown : string := "UNKNOWN".
Definition BindRepeatabilityStableWithinQuery : string := "STABLE_WITHIN_QUERY".
Definition validateWireBindRepeatability (value : string) : result string () :=
  if bool_decide (value ∈ [BindRepeatabilityUnknown; BindRepeatabilityStableWithinQuery]) then Ok ()
  else Err "invalid bind repeatability".
Definition wireBindRepeatability (value : string) : result string string :=
  let value := if bool_decide (value = "") then BindRepeatabilityUnknown else value in
  let? _ := validateWireBindRepeatability value in Ok value.

(** ** Profiles *)

(** The parts of a dotted name. *)
Fixpoint dotted (l : bytes) : list bytes :=
  match l with
  | [] => [[]]
  | b :: l =>
      if bool_decide (b = x2e) then [] :: dotted l
      else match dotted l with p :: ps => (b :: p) :: ps | [] => [[b]] end
  end.
Definition lower_letter (b : byte) : bool := in_range 97 122 b.
Definition profile_part (p : bytes) : bool :=
  match p with [] => false | b :: l => lower_letter b && forallb (fun b => lower_letter b || in_range 48 57 b || bool_decide (b = x5f)) l end.
Definition profile_version (p : bytes) : bool :=
  match p with x76 :: d :: l => in_range 49 57 d && forallb (in_range 48 57) l | _ => false end.
(** The pattern [^part(\.part)*\.v[1-9][0-9]*$]. *)
Definition profile_name (s : string) : bool :=
  match rev (dotted (sb s)) with
  | version :: (_ :: _) as parts => profile_version version && forallb profile_part (tail parts)
  | _ => false
  end.
Definition validateProjectionProfiles (profiles : list string) : result string () :=
  if bool_decide (length profiles <= 64) && forallb (fun p => (slen p <=? 256)%Z && profile_name p) profiles && bool_decide (NoDup profiles)
  then Ok () else Err "invalid projection profile offer".

(** ** Results *)

Record SecretLookup := { SecretType : string; Scope : string; SecretName : string }.
(** [S] is what stands for an Arrow schema. *)
Record BindResponse {S : Type} := {
  Repeatability : string;
  ProjectionExpressionProfiles : list string;
  OutputSchema : S;
  OpaqueData : option bytes;
  SecretScopeRequest : option (list SecretLookup)
}.
Arguments BindResponse : clear implicits.
Record BindResponseWire := {
  WireSchema : bytes;
  WireOpaqueData : option bytes;
  LookupSecretTypes : list string;
  LookupScopes : list string;
  LookupNames : list string;
  WireProfiles : list string;
  WireRepeatability : string
}.

Section wire.
Context {S : Type} (SerializeSchema : S -> result string bytes).
(** One bind result row as an IPC stream, whole and with no NULL where none is
    allowed. *)
Context (write_bind : BindResponseWire -> result string bytes) (read_bind : bytes -> result string BindResponseWire).

Definition wireProjectionBind (r : BindResponse S) : result string BindResponseWire :=
  let? _ := validateProjectionProfiles (ProjectionExpressionProfiles r) in
  let? repeatability := wireBindRepeatability (Repeatability r) in
  let? schema := SerializeSchema (OutputSchema r) in
  Ok {| WireSchema := schema; WireOpaqueData := OpaqueData r; LookupSecretTypes := []; LookupScopes := []; LookupNames := [];
        WireProfiles := ProjectionExpressionProfiles r; WireRepeatability := repeatability |}.
Definition encodeProjectionBind (value : BindResponseWire) : result string bytes :=
  let? _ := validateWireBindRepeatability (WireRepeatability value) in write_bind value.
Definition readProjectionRecord (raw : bytes) : result string BindResponseWire :=
  if (mebi8 <? blen raw)%Z then Err "projection exceeds 8MiB" else read_bind raw.
Definition decodeProjectionBind (raw : bytes) : result string BindResponseWire :=
  let? r := readProjectionRecord raw in
  let? _ := validateWireBindRepeatability (WireRepeatability r) in Ok r.

Definition serializeInlineBindResult (schema : S) : result string bytes :=
  let? bound := wireProjectionBind {| Repeatability := ""; ProjectionExpressionProfiles := []; OutputSchema := schema;
                                      OpaqueData := None; SecretScopeRequest := None |} in
  encodeProjectionBind bound.

Context (bind_read_back : forall r b, write_bind r = Ok b -> read_bind b = Ok r).
Lemma inline_bind_read schema b : serializeInlineBindResult schema = Ok b -> (blen b <= mebi8)%Z ->
  exists r, decodeProjectionBind b = Ok r /\ SerializeSchema schema = Ok (WireSchema r) /\ WireRepeatability r = BindRepeatabilityUnknown.
Proof using bind_read_back.
  intros Es Hb. unfold serializeInlineBindResult, wireProjectionBind in Es. cbn [ProjectionExpressionProfiles OutputSchema] in Es.
  change (validateProjectionProfiles []) with (Ok (E := string) ()) in Es.
  change (wireBindRepeatability _) with (Ok (E := string) BindRepeatabilityUnknown) in Es. cbn match in Es.
  destruct (SerializeSchema schema) as [bytes|]; [|done]. unfold encodeProjectionBind in Es. cbn in Es.
  apply bind_read_back in Es. eexists. unfold decodeProjectionBind, readProjectionRecord. rewrite (proj2 (Z.ltb_ge _ _)) by lia.
  rewrite Es. by split.
Qed.
End wire.
