(* ===== verification/CatalogTables.v ===== *)
(** * CatalogTables: declared tables (vgi/catalog.go, catalog_table.go)

    A worker declares tables with their columns or with the function that scans
    them. Here a declaration becomes the [TableInfo] it is published as, its
    foreign keys are checked against the tables declared beside it, and its scan
    is answered with the function to call and its arguments. *)

From S2P Require Import CatalogContents Overload.
From S2P Require Import Prelude Bytes Base64 Strings Unicode Strconv ArrowTypes ArrowData Arguments Json.
From S2P Require Import SqlTokens SqlParser SqlGrammar Columns SqlChecks ConstraintRecords ConstraintTables ServedColumns.
From S2P Require Import GeneratedColumns Unnulled TableInfo TableMetadata BindResult.

(** ** Arguments of the scan function *)

(** [ArgPosition] is negative for a named argument; [None] is a nil value. *)
Record CatalogTableArg := { ArgPosition : Z; ArgKey : string; ArgValue : option any; ArgType : DataType }.
Record ScanArg := { ScanValue : option any; ScanType : option DataType }.
Definition zeroScanArg : ScanArg := {| ScanValue := None; ScanType := None |}.
Record ScanFunctionResult := {
  FunctionName : string;
  PositionalArguments : list ScanArg;
  NamedArguments : gmap string ScanArg;
  RequiredExtensions : list string;
  ResultSchemaPath : option (list string)
}.

(** One value of an argument; the builder of another type panics. A value of a
    kind that is not listed is NULL. *)
Definition appendValue (t : DataType) (v : option any) : result fault cell :=
  match v, t with
  | Some (ABool b), BOOL => Ok (CBool b)
  | Some (AInt z), INT64 | Some (AInt64 z), INT64 | Some (AInt32 z), INT32 => Ok (CInt z)
  | Some (AFloat64 f), FLOAT64 | Some (AFloat32 f), FLOAT32 => Ok (CFloat f)
  | Some (AString s), STRING => Ok (CStr s)
  | Some (ABytes b), BINARY => Ok (CBin b)
  | Some (ABool _ | AInt _ | AInt64 _ | AInt32 _ | AFloat64 _ | AFloat32 _ | AString _ | ABytes _), _ => Err (Panicked "interface conversion")
  | Some (AUint64 _ | AOther _), _ | None, _ => Ok CNull
  end.
Definition arg_array (t : DataType) (v : option any) : result fault Array :=
  let? c := appendValue t v in Ok {| ArrType := t; Cells := [c] |}.

(** The slot of a position, the slice grown to it. *)
Definition grow {A} (zero : A) (n : nat) (l : list A) : list A := l ++ replicate (S n - length l) zero.
Definition put_at {A} (zero : A) (i : Z) (a : A) (l : list A) : list A := <[Z.to_nat i := a]> (grow zero (Z.to_nat i) l).

Fixpoint buildBindArgs (args : list CatalogTableArg) (acc : Arguments) : result fault Arguments :=
  match args with
  | [] => Ok acc
  | arg :: args =>
      let? arr := arg_array (ArgType arg) (ArgValue arg) in
      buildBindArgs args
        (if (0 <=? ArgPosition arg)%Z
         then {| Positional := put_at None (ArgPosition arg) (Some arr) (Positional acc); Named := Named acc; Schema := None; Batch := None |}
         else {| Positional := Positional acc; Named := <[ArgKey arg := arr]> (Named acc); Schema := None; Batch := None |})
  end.
Definition noArguments : Arguments := {| Positional := []; Named := ∅; Schema := None; Batch := None |}.

Fixpoint scanArguments (args : list CatalogTableArg) (acc : list ScanArg * gmap string ScanArg) : list ScanArg * gmap string ScanArg :=
  match args with
  | [] => acc
  | arg :: args =>
      let sa := {| ScanValue := ArgValue arg; ScanType := Some (ArgType arg) |} in
      scanArguments args
        (if (0 <=? ArgPosition arg)%Z then (put_at zeroScanArg (ArgPosition arg) sa (fst acc), snd acc)
         else (fst acc, <[ArgKey arg := sa]> (snd acc)))
  end.

(** ** Tables *)

Section tables.
Context `{Unicode} (ParseFloat : string -> bool) (uni_class : bytes -> rune_class) (fold : string -> string).
Context (write_row : Row -> result string bytes) (read_row : bytes -> result string Row).
Context (SerializeSchema : list Column -> result string bytes).
Context (write_bind : BindResponseWire -> result string bytes).
Context (FormatFloat : float64 -> Z -> string) (Sprint : any -> string).
(** A one-row batch of named values and the rest of a scan function's record. *)
Context (SerializeValues : list (string * (DataType * cell)) -> result string bytes).
Context (write_scan : ScanFunctionResult -> bytes -> result string bytes).
(** The order a map is iterated in. *)
Context (iterate : gmap string ScanArg -> list (string * ScanArg)).
(** Table functions: their name and the columns their [OnBind] answers. *)
Context {F : Type} (FName : F -> string) (OnBind : F -> Arguments -> result string (option (list Column))).

(** [Statistics] is only asked whether there are any. The maps of the
    declaration are their entries in the order they are iterated. *)
Record CatalogTable := {
  TableConstraints : list bytes;
  TableRevision : option bytes;
  TableName : string;
  TableComment : string;
  TableColumns : option (list Column);
  Function : option F;
  FuncArgs : list CatalogTableArg;
  NotNull : list string;
  Unique : list (list string);
  Check_ : list string;
  PrimaryKey : list (list string);
  ForeignKey : list (list string);
  Defaults : list (string * default_value);
  ColumnComments : list (string * string);
  Generated : list (string * string);
  Statistics : list string;
  TableCardinality : option Z;
  TableCardinalityMax : option Z;
  TableTags : gmap string string;
  TableFilters : list (list path);
  InlineBind : bool
}.

(** The worker: its functions, and its tables by the key of their schema. *)
Record Tables := { registry : Registry F; catalogTables : gmap string (list CatalogTable) }.
Definition findCatalogTable (w : Tables) (schemaPath : path) (n : string) : option CatalogTable :=
  match catalogTables w !! schemaPathKey schemaPath with
  | Some tables => List.find (fun t => bool_decide (TableName t = n)) tables
  | None => None
  end.

(** ** Foreign keys between declared tables *)

(** The records of the referenced table with the id of the key. *)
Fixpoint referenced_keys (ref : ConstraintReference) (found : bool) (candidates : list bytes) : result string bool :=
  match candidates with
  | [] => Ok found
  | candidate :: candidates =>
      match ReadConstraintRecord read_row candidate with
      | Err _ => referenced_keys ref found candidates
      | Ok key =>
          if negb (bool_decide (ID key = RefConstraintID ref)) then referenced_keys ref found candidates else
          check! bool_decide (Kind key ∈ [ConstraintPrimaryKey; ConstraintUnique]) else "references a record that is not a PRIMARY KEY or UNIQUE key" in
          check! bool_decide (Columns key = RefColumns ref) else "references columns the key does not cover" in
          referenced_keys ref true candidates
      end
  end.
Definition check_foreign_key (w : Tables) (schemaPath : path) (data : bytes) : result string () :=
  match ReadConstraintRecord read_row data with
  | Err _ => Ok ()
  | Ok record =>
      match bool_decide (Kind record = ConstraintForeignKey), References record with
      | true, Some ref =>
          match findCatalogTable w schemaPath (RefTable ref) with
          | None => Ok ()
          | Some target =>
              let? found := referenced_keys ref false (TableConstraints target) in
              check! found else "references a key its table does not declare" in Ok ()
          end
      | _, _ => Ok ()
      end
  end.
Definition checkDeclarativeForeignKeys (w : Tables) (schemaPath : path) (ct : CatalogTable) : result string () :=
  let? _ := map_result (check_foreign_key w schemaPath) (TableConstraints ct) in Ok ().

(** ** Scan functions *)

Definition buildScanResultFromTable (w : Tables) (tableSchema : path) (ct : CatalogTable) (f : F) : ScanFunctionResult :=
  let '(positional, named) := scanArguments (FuncArgs ct) ([], ∅) in
  {| FunctionName := FName f; PositionalArguments := positional; NamedArguments := named; RequiredExtensions := [];
     ResultSchemaPath := resolveFunctionSchema (registry w) kindTable (FName f) tableSchema |}.

Definition scan_value (n : string) (arg : ScanArg) : result fault (string * (DataType * cell)) :=
  match ScanType arg with
  | None => Err (Panicked "arrow: nil data type")
  | Some t => let? c := appendValue t (ScanValue arg) in Ok (n, (t, c))
  end.
Definition lift_error {A} (r : result string A) : result fault A := match r with Ok a => Ok a | Err e => Err (Failed e) end.
Definition serializeScanArgs (positional : list ScanArg) (named : gmap string ScanArg) : result fault bytes :=
  if bool_decide (positional = [] /\ named = ∅) then lift_error (SerializeSchema []) else
  let? ps := map_result (fun ia : nat * ScanArg => scan_value ("arg_" +:+ Itoa (Z.of_nat (fst ia))) (snd ia)) (imap pair positional) in
  let? ns := map_result (fun na : string * ScanArg => scan_value (fst na) (snd na)) (iterate named) in
  lift_error (SerializeValues (ps ++ ns)).
Definition SerializeScanFunctionResult (r : ScanFunctionResult) : result fault bytes :=
  let? args := serializeScanArgs (PositionalArguments r) (NamedArguments r) in
  lift_error (write_scan r args).

(** ** The table as it is published *)

Definition legacy_fields (ct : CatalogTable) : nat :=
  length (NotNull ct) + length (Unique ct) + length (PrimaryKey ct) + length (Check_ ct) + length (ForeignKey ct).
Definition resolve_columns (ct : CatalogTable) : result fault (option (list Column)) :=
  match TableColumns ct, Function ct with
  | None, Some f => let? args := buildBindArgs (FuncArgs ct) noArguments in lift_error (OnBind f args)
  | cols, _ => Ok cols
  end.
(** The declared metadata of the columns. *)
Definition decorate (schemaPath : path) (ct : CatalogTable) (cols : list Column) : result string (list Column) :=
  let? cols := applyDefaults FormatFloat Sprint cols (Defaults ct) in
  let? cols := applyGenerated uni_class write_row read_row cols (Generated ct) schemaPath in
  applyColumnComments cols (ColumnComments ct).
Definition opt_result {A B E} (f : A -> result E B) (o : option A) : result E (option B) :=
  match o with None => Ok None | Some a => let? b := f a in Ok (Some b) end.

Definition catalogTableInfo (w : Tables) (schemaPath : path) (ct : CatalogTable) : result fault TableInfo :=
  check! bool_decide (legacy_fields ct = 0) else Failed "NotImplementedError: the legacy constraint fields are not sent under vgi.v3" in
  let? _ := lift_error (checkDeclarativeForeignKeys w schemaPath ct) in
  let? columns := resolve_columns ct in
  let? columns := lift_error (opt_result (decorate schemaPath ct) columns) in
  let? _ := lift_error (validateRequiredFilters columns (TableFilters ct)) in
  let? columns :=
    match columns with
    | None => Ok None
    | Some cols =>
        let? translated := lift_error (translateLegacyGenerated uni_class write_row read_row (Some cols) schemaPath) in
        lift_error (ServedTableColumns ParseFloat uni_class fold read_row schemaPath (TableName ct) translated (TableConstraints ct))
    end in
  let? scan := match Function ct with
               | Some f => let? b := SerializeScanFunctionResult (buildScanResultFromTable w schemaPath ct f) in Ok (Some b)
               | None => Ok None
               end in
  let? bind := match columns with
               | Some cols => if InlineBind ct then let? b := lift_error (serializeInlineBindResult SerializeSchema write_bind cols) in Ok (Some b)
                              else Ok None
               | None => Ok None
               end in
  Ok {| Constraints := TableConstraints ct; DefinitionRevision := TableRevision ct; TableInfo.Name := TableName ct; TablePath := schemaPath;
        Comment := TableComment ct; Tags := TableTags ct; InfoColumns := columns; NotNullConstraints := []; UniqueConstraints := [];
        CheckConstraints := []; PrimaryKeyConstraints := []; ForeignKeyConstraints := []; WriteResultModes := ∅;
        SupportsColumnStatistics := negb (bool_decide (Statistics ct = [])); ScanFunction := scan; InsertFunction := None;
        UpdateFunction := None; DeleteFunction := None; CardinalityEstimate := TableCardinality ct; CardinalityMax := TableCardinalityMax ct;
        ColumnStatistics := None; BindResult := bind; RequiredFilters := TableFilters ct; Options := None; Layout := None |}.
Definition serializeCatalogTable (w : Tables) (schemaPath : path) (ct : CatalogTable) : result fault TableInfoRow :=
  let? info := catalogTableInfo w schemaPath ct in
  lift_error (buildTableInfoRecord ParseFloat uni_class fold write_row read_row SerializeSchema info).

(** ** What is published agrees *)

(** Columns that were resolved here are the ones that are published. *)
Lemma info_published w schemaPath ct info cols : catalogTableInfo w schemaPath ct = Ok info -> InfoColumns info = Some cols ->
  forall served, published ParseFloat uni_class fold write_row read_row info = Ok served -> served = Some cols.
Proof using.
  unfold catalogTableInfo. intros E Ec served Hp. repeat inv_let. cbn [InfoColumns] in Ec. subst.
  destruct a1 as [c1|]; [|done]. unfold translateLegacyGenerated in E5.
  destruct (map_result (translate_field uni_class write_row read_row schemaPath) c1) as [translated|] eqn:Et; [|done]. cbn [lift_error] in E5.
  destruct (ServedTableColumns _ _ _ _ schemaPath _ _ _) as [s|] eqn:Es; [|done]. cbn in E5. injection E5 as ->.
  destruct (served_columns_checked ParseFloat uni_class fold write_row read_row _ _ _ _ _ _ true Et Es) as (H1 & H2 & H3 & H4 & H5).
  unfold published in Hp. cbn [InfoColumns TablePath TableInfo.Name Constraints] in Hp. rewrite H1 in Hp. cbn match in Hp.
  do 3 (match type of Hp with (match ?c with _ => _ end) = _ => destruct c; [|done] end). rewrite H5 in Hp. by injection Hp.
Qed.

Context (read_bind : bytes -> result string BindResponseWire).
Context (bind_read_back : forall r b, write_bind r = Ok b -> read_bind b = Ok r).

(** C30: the bind result inlined in a published table carries exactly the schema
    the table is published with: the same bytes, and no promise of
    repeatability. The columns are served twice, once for the bind result and
    once for the row; the second time changes nothing. *)
Theorem inlined_bind_agrees (w : Tables) (schemaPath : path) (ct : CatalogTable) (row : TableInfoRow) (b : bytes) :
  serializeCatalogTable w schemaPath ct = Ok row -> row_bind_result row = Some b -> (blen b <= mebi8)%Z ->
  exists r, decodeProjectionBind read_bind b = Ok r /\ WireSchema r = row_columns row /\ WireRepeatability r = BindRepeatabilityUnknown.
Proof using bind_read_back.
  unfold serializeCatalogTable. intros E Hb Hsize. destruct (catalogTableInfo w schemaPath ct) as [info|] eqn:Ei; [|done].
  destruct (buildTableInfoRecord _ _ _ _ _ _ info) as [row'|] eqn:Er; [|done]. injection E as ->.
  assert (BindResult info = Some b) as Hbind by (unfold buildTableInfoRecord in Er; repeat inv_let; exact Hb).
  assert (exists cols, InfoColumns info = Some cols /\ serializeInlineBindResult SerializeSchema write_bind cols = Ok b) as (cols & Ec & Es).
  { unfold catalogTableInfo in Ei. repeat inv_let. cbn [BindResult InfoColumns] in *. subst.
    match goal with |- exists _, ?o = Some _ /\ _ => destruct o as [cols|]; [|done] end. exists cols. split; [done|].
    destruct (InlineBind ct); [|done]. destruct (serializeInlineBindResult _ _ cols) as [b'|]; [|done]. cbn in *. congruence. }
  unfold buildTableInfoRecord in Er. repeat inv_let. cbn [row_columns].
  rewrite (info_published _ _ _ _ cols Ei Ec _ E1) in E2.
  destruct (inline_bind_read _ _ _ bind_read_back cols b Es Hsize) as (r & Hr & Hw & Hu). exists r. split; [done|]. split; [congruence|done].
Qed.

(** A record that is no key of the id changes nothing. *)
Lemma skip_one ref (c : bytes) (candidates : list bytes) (found r : bool) (good : ConstraintRecordSpec -> Prop) :
  (forall key, ReadConstraintRecord read_row c = Ok key -> ID key <> RefConstraintID ref) ->
  let keys (P : bytes -> Prop) := forall d k, P d -> ReadConstraintRecord read_row d = Ok k -> ID k = RefConstraintID ref -> good k in
  let some (P : bytes -> Prop) := exists d k, P d /\ ReadConstraintRecord read_row d = Ok k /\ ID k = RefConstraintID ref in
  (keys (fun d => d ∈ candidates) /\ (r = true <-> found = true \/ some (fun d => d ∈ candidates))) <->
  (keys (fun d => d = c \/ d ∈ candidates) /\ (r = true <-> found = true \/ some (fun d => d = c \/ d ∈ candidates))).
Proof using.
  intros Hc keys some. assert (keys (fun d => d ∈ candidates) <-> keys (fun d => d = c \/ d ∈ candidates)) as ->.
  { split; intros Hk d k Hd Er Ei; [destruct Hd as [->|Hd]; [by destruct (Hc k Er)|by apply (Hk d k)]|apply (Hk d k); [by right|done..]]. }
  assert (some (fun d => d ∈ candidates) <-> some (fun d => d = c \/ d ∈ candidates)) as ->; [|done].
  split; intros (d & k & Hd & Er & Ei); exists d, k; [by split; [right|]|]. destruct Hd as [->|Hd]; [by destruct (Hc k Er)|done].
Qed.
Lemma referenced_keys_exact ref candidates found r : referenced_keys ref found candidates = Ok r <->
  (forall candidate key, candidate ∈ candidates -> ReadConstraintRecord read_row candidate = Ok key -> ID key = RefConstraintID ref ->
     Kind key ∈ [ConstraintPrimaryKey; ConstraintUnique] /\ Columns key = RefColumns ref) /\
  (r = true <-> found = true \/ exists candidate key, candidate ∈ candidates /\ ReadConstraintRecord read_row candidate = Ok key /\
     ID key = RefConstraintID ref).
Proof using.
  revert found. induction candidates as [|c candidates IH]; intros found; cbn [referenced_keys].
  - split.
    + intros [= ->]. split; [intros ? ? Hin; by inversion Hin|]. split; [by left|]. intros [?|(? & ? & Hin & _)]; [done|by inversion Hin].
    + intros [_ Hr]. f_equal. apply eq_true_iff_eq. rewrite Hr. split; [by left|]. intros [?|(? & ? & Hin & _)]; [done|by inversion Hin].
  - setoid_rewrite (elem_of_cons candidates).
    assert ((forall key, ReadConstraintRecord read_row c = Ok key -> ID key <> RefConstraintID ref) ->
      referenced_keys ref found (c :: candidates) = referenced_keys ref found candidates) as Hskip.
    { intros Hn. cbn [referenced_keys]. destruct (ReadConstraintRecord read_row c) as [key|]; [|done]. by rewrite bool_decide_false by (by apply Hn). }
    destruct (ReadConstraintRecord read_row c) as [key|] eqn:Ec; [destruct (decide (ID key = RefConstraintID ref)) as [Eid|Eid]|].
    + clear Hskip. rewrite bool_decide_true by done. cbn [negb]. destruct (decide (Kind key ∈ [ConstraintPrimaryKey; ConstraintUnique])) as [Ek|Ek].
      2: { rewrite bool_decide_false by done. split; [done|]. intros [Hall _]. destruct Ek. by apply (Hall c key (or_introl eq_refl)). }
      destruct (decide (Columns key = RefColumns ref)) as [Ecols|Ecols].
      2: { rewrite bool_decide_true, bool_decide_false by done. split; [done|]. intros [Hall _]. destruct Ecols. by apply (Hall c key (or_introl eq_refl)). }
      rewrite !bool_decide_true by done. rewrite IH. split; intros [Hall Hr]; split.
      * intros d k [->|Hd] Hk Hid; [|by eapply Hall]. rewrite Ec in Hk. by injection Hk as <-.
      * split; [|intros _; apply Hr; by left]. intros _. right. exists c, key. split; [by left|done].
      * intros d k Hd. apply Hall. by right.
      * split; [by left|]. intros _. apply Hr. right. exists c, key. split; [by left|done].
    + cbn [referenced_keys] in Hskip. rewrite Ec in Hskip. rewrite Hskip by (by intros k [= <-]). rewrite IH.
      apply (skip_one ref c candidates found r (fun k => Kind k ∈ [ConstraintPrimaryKey; ConstraintUnique] /\ Columns k = RefColumns ref)). intros k Hk. congruence.
    + rewrite IH.
      apply (skip_one ref c candidates found r (fun k => Kind k ∈ [ConstraintPrimaryKey; ConstraintUnique] /\ Columns k = RefColumns ref)). intros k Hk. congruence.
Qed.

(** the foreign keys of a declared table are accepted exactly when every one
    that names a table declared beside it names a key there: some readable
    record has its id, and every such record is a PRIMARY KEY or UNIQUE one over
    exactly the referenced columns. *)
Theorem foreign_keys_exact (w : Tables) (schemaPath : path) (ct : CatalogTable) :
  checkDeclarativeForeignKeys w schemaPath ct = Ok () <->
    forall data record ref target, data ∈ TableConstraints ct -> ReadConstraintRecord read_row data = Ok record ->
      Kind record = ConstraintForeignKey -> References record = Some ref -> findCatalogTable w schemaPath (RefTable ref) = Some target ->
      (exists candidate key, candidate ∈ TableConstraints target /\ ReadConstraintRecord read_row candidate = Ok key /\ ID key = RefConstraintID ref) /\
      (forall candidate key, candidate ∈ TableConstraints target -> ReadConstraintRecord read_row candidate = Ok key ->
         ID key = RefConstraintID ref -> Kind key ∈ [ConstraintPrimaryKey; ConstraintUnique] /\ Columns key = RefColumns ref).
Proof using.
  unfold checkDeclarativeForeignKeys. split.
  - intros E data record ref target Hd Hr Hk Href Ht. destruct (map_result _ _) as [us|] eqn:Em; [|done]. apply map_result_inv in Em.
    apply (paired_l _ _ _ _ Em) in Hd as (u & _ & Hu). unfold check_foreign_key in Hu. rewrite Hr, Href, Ht in Hu.
    rewrite bool_decide_true in Hu by done. destruct (referenced_keys ref false _) as [found|] eqn:Ef; [|done]. destruct found; [|done].
    destruct (proj1 (referenced_keys_exact ref (TableConstraints target) false true) Ef) as [Hall Hex]. split; [|done].
    destruct (proj1 Hex eq_refl) as [?|Hex']; done.
  - intros Hall. destruct (map_result_total (check_foreign_key w schemaPath) (TableConstraints ct)) as [k ->]; [|done].
    apply Forall_forall. intros data Hd. unfold check_foreign_key. destruct (ReadConstraintRecord read_row data) as [record|] eqn:Er; [|by eexists].
    destruct (bool_decide (Kind record = ConstraintForeignKey)) eqn:Ek; [|by eexists]. bool_hyps.
    destruct (References record) as [ref|] eqn:Eref; [|by eexists]. destruct (findCatalogTable _ _ _) as [target|] eqn:Et; [|by eexists].
    destruct (Hall data record ref target Hd Er Ek Eref Et) as [Hex Hkeys].
    rewrite (proj2 (referenced_keys_exact ref (TableConstraints target) false true)); [by eexists|]. split; [done|]. split; [by right|done].
Qed.

(** ** The order of the declaration's maps *)

Definition reordered (ct : CatalogTable) (defaults : list (string * default_value)) (generated comments : list (string * string)) : CatalogTable :=
  {| TableConstraints := TableConstraints ct; TableRevision := TableRevision ct; TableName := TableName ct; TableComment := TableComment ct;
     TableColumns := TableColumns ct; Function := Function ct; FuncArgs := FuncArgs ct; NotNull := NotNull ct; Unique := Unique ct;
     Check_ := Check_ ct; PrimaryKey := PrimaryKey ct; ForeignKey := ForeignKey ct; Defaults := defaults; ColumnComments := comments;
     Generated := generated; Statistics := Statistics ct; TableCardinality := TableCardinality ct;
     TableCardinalityMax := TableCardinalityMax ct; TableTags := TableTags ct; TableFilters := TableFilters ct; InlineBind := InlineBind ct |}.

Lemma set_default_name v c d : set_default FormatFloat Sprint v c = Ok d -> colName d = colName c.
Proof using. by intros [= <-]. Qed.
Lemma set_generated_name owner v c d : set_generated uni_class write_row read_row owner v c = Ok d -> colName d = colName c.
Proof using. unfold set_generated. intros E. by repeat inv_let. Qed.

Lemma decorate_reordered schemaPath ct defaults generated comments cols r :
  Defaults ct ≡ₚ defaults -> Generated ct ≡ₚ generated -> ColumnComments ct ≡ₚ comments ->
  NoDup (Defaults ct).*1 -> NoDup (Generated ct).*1 -> NoDup (ColumnComments ct).*1 ->
  decorate schemaPath ct cols = Ok r <-> decorate schemaPath (reordered ct defaults generated comments) cols = Ok r.
Proof using.
  intros Hd Hg Hc Nd Ng Nc. unfold decorate. cbn [reordered Defaults Generated ColumnComments].
  assert (forall A (x y : result string A), (forall a, x = Ok a <-> y = Ok a) -> (exists a, x = Ok a /\ y = Ok a) \/ (exists e f, x = Err e /\ y = Err f)) as Hsame.
  { intros A x y Hxy. destruct x as [a|e], y as [b|f]; [left; exists a; split; [done|by apply Hxy]| | |right; by eexists _, _];
      [pose proof (proj1 (Hxy a) eq_refl); done|pose proof (proj2 (Hxy b) eq_refl); done]. }
  destruct (Hsame _ (applyDefaults FormatFloat Sprint cols (Defaults ct)) (applyDefaults FormatFloat Sprint cols defaults)
    (edit_all_order _ _ set_default_name _ _ Hd Nd cols)) as [(c1 & -> & ->)|(e & f & -> & ->)]; [|done].
  destruct (Hsame _ (applyGenerated uni_class write_row read_row c1 (Generated ct) schemaPath)
    (applyGenerated uni_class write_row read_row c1 generated schemaPath)
    (edit_all_order _ _ (set_generated_name schemaPath) _ _ Hg Ng c1)) as [(c2 & -> & ->)|(e & f & -> & ->)]; [|done].
  apply edit_all_order; [intros v c d [= <-]; done|done|done].
Qed.

(** a table is published the same whatever order Go iterates the maps of its
    declaration in: reordering the defaults, the generated expressions and the
    comments changes nothing. *)
Theorem map_order_free (w : Tables) (schemaPath : path) (ct : CatalogTable) (defaults : list (string * default_value))
    (generated comments : list (string * string)) (row : TableInfoRow) :
  Defaults ct ≡ₚ defaults -> Generated ct ≡ₚ generated -> ColumnComments ct ≡ₚ comments ->
  NoDup (Defaults ct).*1 -> NoDup (Generated ct).*1 -> NoDup (ColumnComments ct).*1 ->
  serializeCatalogTable w schemaPath ct = Ok row <-> serializeCatalogTable w schemaPath (reordered ct defaults generated comments) = Ok row.
Proof using.
  intros Hd Hg Hc Nd Ng Nc. pose proof (fun cols r => decorate_reordered schemaPath ct _ _ _ cols r Hd Hg Hc Nd Ng Nc) as Hdec.
  unfold serializeCatalogTable, catalogTableInfo. set (ct' := reordered ct defaults generated comments) in *.
  change (legacy_fields ct') with (legacy_fields ct). change (checkDeclarativeForeignKeys w schemaPath ct') with (checkDeclarativeForeignKeys w schemaPath ct).
  change (resolve_columns ct') with (resolve_columns ct).
  destruct (bool_decide (legacy_fields ct = 0)); [|done]. destruct (lift_error (checkDeclarativeForeignKeys w schemaPath ct)); [|done].
  destruct (resolve_columns ct) as [[cols|]|]; [|done..]. cbn [opt_result]. specialize (Hdec cols).
  destruct (decorate schemaPath ct cols) as [c|e]; [by rewrite (proj1 (Hdec c) eq_refl)|].
  destruct (decorate schemaPath ct' cols) as [c|f]; [pose proof (proj2 (Hdec c) eq_refl); done|done].
Qed.
End tables.

(** ** Scanning and binding with the same arguments *)

Definition same_arg (sa : ScanArg) (o : option Array) : Prop :=
  match ScanType sa with None => o = None | Some t => exists arr, arg_array t (ScanValue sa) = Ok arr /\ o = Some arr end.
Definition same_named (named : gmap string ScanArg) (arrays : gmap string Array) : Prop :=
  forall n, match named !! n, arrays !! n with
            | None, None => True
            | Some sa, Some arr => same_arg sa (Some arr)
            | _, _ => False
            end.
Lemma grow_same i positional slots : Forall2 same_arg positional slots ->
  Forall2 same_arg (grow zeroScanArg i positional) (grow None i slots).
Proof.
  intros Hs. unfold grow. rewrite (Forall2_length _ _ _ Hs). apply Forall2_app; [done|]. by apply Forall2_replicate.
Qed.

(** the columns of a table and its scans come from the same arguments: the
    ones its function is bound with when the table is declared are, position by
    position and name by name, the values a scan is told to send. *)
Theorem scan_args_mirror (args : list CatalogTableArg) (bound : Arguments) :
  buildBindArgs args noArguments = Ok bound ->
  Forall2 same_arg (scanArguments args ([], ∅)).1 (Positional bound) /\ same_named (scanArguments args ([], ∅)).2 (Named bound).
Proof.
  assert (forall acc positional named, Forall2 same_arg positional (Positional acc) -> same_named named (Named acc) ->
    buildBindArgs args acc = Ok bound ->
    Forall2 same_arg (scanArguments args (positional, named)).1 (Positional bound) /\
    same_named (scanArguments args (positional, named)).2 (Named bound)) as Hgen.
  { induction args as [|arg args IH]; intros acc positional named Hp Hn E; [by injection E as <-|]. cbn [buildBindArgs scanArguments fst snd] in *.
    destruct (arg_array (ArgType arg) (ArgValue arg)) as [arr|] eqn:Ea; [|done]. destruct (0 <=? ArgPosition arg)%Z.
    - eapply IH; [| |exact E]; cbn [Positional Named]; [|done]. unfold put_at. apply Forall2_insert; [by apply grow_same|].
      by exists arr.
    - eapply IH; [| |exact E]; cbn [Positional Named]; [done|]. intros n. destruct (decide (ArgKey arg = n)) as [<-|Hne].
      + rewrite !lookup_insert_eq. by exists arr.
      + rewrite !lookup_insert_ne by done. apply Hn. }
  intros E. apply (Hgen noArguments [] ∅); [constructor|intros n; by rewrite !lookup_empty|done].
Qed.

Module CatalogExample.
Import GrammarExample CheckExample RecordExample TableExample TableInfoExample.
#[local] Existing Instance AsciiText.ascii_text.

(** Bind results as the bits of their fields. *)
Definition bind_fields (r : BindResponseWire) : list path :=
  [[bstr (WireSchema r)]; option_list (bstr <$> WireOpaqueData r); LookupSecretTypes r; LookupScopes r; LookupNames r; WireProfiles r;
   [WireRepeatability r]].
Definition write_bind (r : BindResponseWire) : result string bytes := Ok (bits (encode (bind_fields r))).
Definition read_bind (b : bytes) : result string BindResponseWire :=
  match decode (unbits b) with
  | Some [s; o; t; p; n; f; r] =>
      Ok {| WireSchema := sb (one s); WireOpaqueData := sb <$> head o; LookupSecretTypes := t; LookupScopes := p; LookupNames := n;
            WireProfiles := f; WireRepeatability := one r |}
  | _ => Err "not a bind result"
  end.
Lemma bind_read_back r b : write_bind r = Ok b -> read_bind b = Ok r.
Proof.
  intros E. apply ok_inj in E as <-. unfold read_bind. rewrite unbits_bits, decode_encode.
  destruct r as [s [o|] t p n f q]; cbn -[sb bstr]; by rewrite ?sb_bstr.
Qed.

(** Two tables beside each other: prices, and orders that refer to their key,
    with the columns their scan function answers. *)
Definition orders_columns : list Column :=
  [column "note" STRING []; column "price" FLOAT64 []; column "amount" INT64 []; column "loud" STRING []].
Definition reference : ConstraintRecordSpec :=
  {| SchemaPath := ["main"]; ConstraintRecords.Table := "orders"; ID := "f"; Kind := ConstraintForeignKey; Columns := [["note"]; ["price"]];
     Enforcement := ConstraintEnforced; Validation := ConstraintAllRows; DeclaredName := ""; CheckSQL := "";
     References := Some {| RefSchemaPath := []; RefTable := "t"; RefConstraintID := "b"; RefColumns := [["note"]; ["price"]] |} |}.
Definition not_null : ConstraintRecordSpec :=
  {| SchemaPath := ["main"]; ConstraintRecords.Table := "orders"; ID := "n"; Kind := ConstraintNotNull; Columns := [["amount"]];
     Enforcement := ConstraintEnforced; Validation := ConstraintAllRows; DeclaredName := ""; CheckSQL := ""; References := None |}.
Definition table_named (n : string) (constraints : list bytes) (cols : option (list Column)) (f : option string)
    (args : list CatalogTableArg) (defaults : list (string * default_value)) (generated comments : list (string * string)) : CatalogTable :=
  {| TableConstraints := constraints; TableRevision := None; TableName := n; TableComment := ""; TableColumns := cols; Function := f;
     FuncArgs := args; NotNull := []; Unique := []; Check_ := []; PrimaryKey := []; ForeignKey := []; Defaults := defaults;
     ColumnComments := comments; Generated := generated; Statistics := []; TableCardinality := None; TableCardinalityMax := None;
     TableTags := ∅; TableFilters := [[["note"]]]; InlineBind := true |}.
Definition scan_inputs : list CatalogTableArg :=
  [{| ArgPosition := 0; ArgKey := ""; ArgValue := Some (AString "eu"); ArgType := STRING |};
   {| ArgPosition := -1; ArgKey := "limit"; ArgValue := Some (AInt 5); ArgType := INT64 |};
   {| ArgPosition := -1; ArgKey := "depth"; ArgValue := None; ArgType := INT64 |}].
Definition prices : CatalogTable := table_named "t" datas (Some columns) None [] [] [] [].
Definition orders : CatalogTable :=
  table_named "orders" (map RecordExample.made [reference; not_null]) None (Some "scan_orders") scan_inputs
    [("amount", DValue (AInt 1)); ("note", DValue (AString "it's"))] [("loud", "upper(note)")] [("price", "each"); ("note", "free")].
Definition worker : Tables :=
  {| registry := {| catalogName := ""; reg := fun _ _ => []; funcOrigins := fun _ _ => [] |};
     catalogTables := {[ schemaPathKey ["main"] := [prices; orders] ]} |}.

Definition shown (v : any) : string := "".
Definition digits (f : float64) (bits : Z) : string := "0.5".
Definition value_bytes (v : string * (DataType * cell)) : bytes := key_part (fst v).
Definition values (l : list (string * (DataType * cell))) : result string bytes := Ok (flat_map value_bytes l).
Definition scan (r : ScanFunctionResult) (args : bytes) : result string bytes := Ok (key_part (FunctionName r) ++ args).
Definition on_bind (f : string) (args : Arguments) : result string (option (list Column)) := Ok (Some orders_columns).
Notation serialize order :=
  (serializeCatalogTable floats others ascii_lower write read schema_bytes write_bind digits shown values scan order id on_bind worker ["main"]).
Notation in_order := (map_to_list (K := string) (A := ScanArg)).
Definition orders_row : TableInfoRow := match serialize in_order orders with Ok r => r | Err _ => empty_row end.
Definition orders_bind : bytes := default [] (row_bind_result orders_row).

(** The bytes of an inlined scan depend on the order its named arguments are
    iterated in. *)
Example scan_bytes_unordered :
  match serialize in_order orders, serialize (fun m => rev (in_order m)) orders with
  | Ok r1, Ok r2 => row_columns r1 = row_columns r2 /\ bool_decide (row_functions r1 = row_functions r2) = false
  | _, _ => False
  end.
Proof. vm_compute. by split. Qed.

Lemma inlined_bind_agrees_witness :
  serialize in_order orders = Ok orders_row /\
  exists r, decodeProjectionBind read_bind orders_bind = Ok r /\ WireSchema r = row_columns orders_row /\
            WireRepeatability r = BindRepeatabilityUnknown.
Proof.
  assert (serialize in_order orders = Ok orders_row) as E by by_run (Ok (E := fault) orders_row). split; [exact E|].
  apply (inlined_bind_agrees floats others ascii_lower write read schema_bytes write_bind digits shown values scan in_order id on_bind
    read_bind bind_read_back worker ["main"] orders orders_row orders_bind E); vm_compute; [reflexivity|discriminate].
Defined.

Lemma map_order_free_witness :
  serialize in_order (reordered orders (rev (Defaults orders)) (Generated orders) (rev (ColumnComments orders))) = Ok orders_row.
Proof.
  assert (serialize in_order orders = Ok orders_row) as E by by_run (Ok (E := fault) orders_row).
  refine (proj1 (map_order_free floats others ascii_lower write read schema_bytes write_bind digits shown values scan in_order id on_bind
    worker ["main"] orders _ _ _ orders_row _ _ _ _ _ _) E); [symmetry; apply Permutation_rev|done|symmetry; apply Permutation_rev|..];
    clear E; repeat constructor; set_solver.
Defined.

Definition bound_with : Arguments := match buildBindArgs scan_inputs noArguments with Ok a => a | Err _ => noArguments end.
Lemma scan_args_mirror_witness :
  buildBindArgs scan_inputs noArguments = Ok bound_with /\
  Forall2 same_arg (scanArguments scan_inputs ([], ∅)).1 (Positional bound_with) /\
  same_named (scanArguments scan_inputs ([], ∅)).2 (Named bound_with).
Proof.
  assert (buildBindArgs scan_inputs noArguments = Ok bound_with) as E by (vm_compute; reflexivity). split; [exact E|].
  exact (scan_args_mirror scan_inputs bound_with E).
Defined.
End CatalogExample.
