(* ===== verification/WritableStore.v ===== *)
(** * WritableStore: the SQLite tables of the writable catalog (vgi/writable_storage.go)

    Schemas, table definitions and rows of every writable catalog live in three
    tables of the database the workers share, keyed by lower-cased names. A row
    is a Go map from column names to values, stored as one gob blob; gob is a
    parameter that reads back what it wrote. Opening the database is left out. *)

From S2P Require Import Prelude Bytes Strings Unicode Strconv ArrowTypes ArrowData Arguments Storage Sqlite.
From S2P Require Import Columns ConstraintRecords CreateTable TableMetadata.

(** ** Values and rows *)

(** The values a batch's columns become, NULL being [None]. *)
Inductive Value := VInt64 (z : Z) | VFloat64 (f : float64) | VString (s : string) | VBool (b : bool) | VBytes (b : bytes).
#[global] Instance Value_dec : EqDecision Value.
Proof. solve_decision. Defined.
Abbreviation row := (gmap string (option Value)).

Definition rowIDFieldName : string := "__row_id".

(** Go leaves the conversion of a float64 to an int64 to the implementation when
    it does not fit. *)
Definition toInt64 (float_int64 : float64 -> Z) (v : option Value) : Z :=
  match v with
  | Some (VInt64 z) => z
  | Some (VFloat64 f) => float_int64 f
  | _ => 0
  end.

(** A required column that is NULL or absent. *)
Definition missing (r : row) (column : string) : bool :=
  match r !! column with Some (Some _) => false | _ => true end.
Definition checkNotNullRow (table : string) (required : list string) (r : row) : result string () :=
  match List.find (missing r) required with
  | Some column => Err ("NOT NULL constraint failed: " +:+ table +:+ "." +:+ column)
  | None => Ok ()
  end.

(** ** Table definitions *)

(** A foreign key stored before vgi.v3: its columns, the table and its columns. *)
Record ForeignKeyConstraint := { fkColumns : list string; fkTable : string; fkReferenced : list string }.
Record writableTableMeta := {
  Constraints : list bytes;
  NotNull : list string;
  PrimaryKey : list (list string);
  Unique : list (list string);
  Check_ : list string;
  ForeignKey : list ForeignKeyConstraint;
  Defaults : gmap string bytes;
  ColumnComment : gmap string string
}.
Record writableTable := {
  tblName : string;
  tblSchema : list Column;
  tblComment : string;
  constraints : list bytes;
  defaults : gmap string default_value;
  legacy : option writableTableMeta;
  columnComment : gmap string string
}.

Class GobCodec := {
  encode_row : row -> result string bytes;
  decode_row : bytes -> result string row;
  encode_meta : writableTableMeta -> bytes;
  decode_meta : bytes -> result string writableTableMeta;
  encode_default : default_value -> bytes;
  decode_default : bytes -> result string default_value;
  write_schema : list Column -> result string bytes;
  read_schema : bytes -> result string (list Column);
  row_read_back : forall r b, encode_row r = Ok b -> decode_row b = Ok r;
  meta_read_back : forall m, decode_meta (encode_meta m) = Ok m;
  schema_read_back : forall s b, write_schema s = Ok b -> read_schema b = Ok s
}.

(** ** The database *)

Record wc_table_row := { schema_ipc : bytes; meta_blob : bytes; row_comment : string }.
Abbreviation table_key := (string * string * string)%type.

(** The rows of a table are those with its three key columns, by row ID. *)
Record wdatabase := {
  wc_schema : gmap (string * string) string;
  wc_table : gmap table_key wc_table_row;
  wc_row : gmap table_key (gmap Z bytes)
}.
Definition no_tables : wdatabase := {| wc_schema := ∅; wc_table := ∅; wc_row := ∅ |}.
Abbreviation wconn := (connection wdatabase).

Definition set_schemas (d : wdatabase) m : wdatabase := {| wc_schema := m; wc_table := wc_table d; wc_row := wc_row d |}.
Definition set_tables (d : wdatabase) m : wdatabase := {| wc_schema := wc_schema d; wc_table := m; wc_row := wc_row d |}.
Definition set_all_rows (d : wdatabase) m : wdatabase := {| wc_schema := wc_schema d; wc_table := wc_table d; wc_row := m |}.
Definition rows_of (d : wdatabase) (k : table_key) : gmap Z bytes := default ∅ (wc_row d !! k).
Definition set_rows (d : wdatabase) (k : table_key) (m : gmap Z bytes) : wdatabase := set_all_rows d (<[k := m]> (wc_row d)).

Definition max_id {V} (m : gmap Z V) : option Z :=
  match elements (dom m) with [] => None | i :: l => Some (foldr Z.max i l) end.
(** The ID after the largest, an int64. *)
Definition next_id {V} (m : gmap Z V) : Z := match max_id m with Some i => s64 (i + 1) | None => 0%Z end.
(** The rows in the order of their IDs. *)
Definition by_id {V} (m : gmap Z V) : list (Z * V) :=
  omap (fun i => pair i <$> m !! i) (merge_sort Z.le (elements (dom m))).

Section store.
Context `{Unicode} `{GobCodec} (float_int64 : float64 -> Z).

Definition key_of (catalog schemaPath tableName : string) : table_key := (catalog, ToLower schemaPath, ToLower tableName).
(** WHERE catalog = ? AND schema_path = ? *)
Definition in_schema (catalog schemaPath : string) (k : table_key) : bool := bool_decide (k.1 = (catalog, schemaPath)).
Definition outside {V} (p : table_key -> bool) (m : gmap table_key V) : gmap table_key V := filter (fun kv => p kv.1 = false) m.

(** *** Schemas *)

Definition schemaUpsert (catalog name comment : string) : M wconn () :=
  execute (fun d => set_schemas d (<[(catalog, ToLower name) := comment]> (wc_schema d))).
Definition schemaExists (catalog name : string) : M wconn bool :=
  query (fun d => bool_decide (is_Some (wc_schema d !! (catalog, ToLower name)))).
Definition schemaDrop (catalog name : string) (cascade : bool) : M wconn () :=
  transaction (
    _ ← (if cascade
         then _ ← execute (fun d => set_all_rows d (outside (in_schema catalog (ToLower name)) (wc_row d)));
              execute (fun d => set_tables d (outside (in_schema catalog (ToLower name)) (wc_table d)))
         else mret ());
    execute (fun d => set_schemas d (delete (catalog, ToLower name) (wc_schema d)))).
(** Without ORDER BY: in an order of the database's. *)
Definition schemaList (catalog : string) : M wconn (list (string * string)) :=
  query (fun d => omap (fun '((c, n), comment) => if bool_decide (c = catalog) then Some (n, comment) else None)
                    (map_to_list (wc_schema d))).

(** *** Tables *)

Definition encodeTableMeta (t : writableTable) : bytes :=
  encode_meta {| Constraints := constraints t; NotNull := []; PrimaryKey := []; Unique := []; Check_ := []; ForeignKey := [];
                 Defaults := encode_default <$> defaults t; ColumnComment := columnComment t |}.
Definition decodeTableMeta (data : bytes) : result string writableTableMeta :=
  match decode_meta data with Ok m => Ok m | Err e => Err ("decodeTableMeta: " +:+ e) end.
Definition toDefaults (m : writableTableMeta) : gmap string default_value :=
  omap (fun b => match decode_default b with Ok v => Some v | Err _ => None end) (Defaults m).

Definition writableTableFromMeta (name : string) (schema : list Column) (comment : string) (meta : writableTableMeta)
    : writableTable :=
  {| tblName := name; tblSchema := schema; tblComment := comment; constraints := Constraints meta; defaults := toDefaults meta;
     legacy := if bool_decide (0 < length (NotNull meta) + length (PrimaryKey meta) + length (Unique meta)
                                   + length (Check_ meta) + length (ForeignKey meta)) then Some meta else None;
     columnComment := ColumnComment meta |}.

Definition tableUpsert (catalog schemaPath : string) (t : writableTable) : M wconn () :=
  match write_schema (tblSchema t) with
  | Err e => raise e
  | Ok ipc =>
      execute (fun d => set_tables d (<[key_of catalog schemaPath (tblName t) :=
        {| schema_ipc := ipc; meta_blob := encodeTableMeta t; row_comment := tblComment t |}]> (wc_table d)))
  end.
Definition tableDrop (catalog schemaPath tableName : string) : M wconn () :=
  transaction (
    _ ← execute (fun d => set_all_rows d (delete (key_of catalog schemaPath tableName) (wc_row d)));
    execute (fun d => set_tables d (delete (key_of catalog schemaPath tableName) (wc_table d)))).

Definition load_row (tableName : string) (r : wc_table_row) : result string writableTable :=
  let? schema := read_schema (schema_ipc r) in
  let? meta := decodeTableMeta (meta_blob r) in
  Ok (writableTableFromMeta tableName schema (row_comment r) meta).
Definition tableLoad (catalog schemaPath tableName : string) : M wconn (option writableTable) :=
  r ← query (fun d => wc_table d !! key_of catalog schemaPath tableName);
  match r with
  | None => mret None
  | Some r => match load_row tableName r with Ok t => mret (Some t) | Err e => raise e end
  end.
Definition tableList (catalog schemaPath : string) : M wconn (list string) :=
  query (fun d => omap (fun '(k, _) => if in_schema catalog (ToLower schemaPath) k then Some k.2 else None)
                    (map_to_list (wc_table d))).

(** *** Rows *)

Definition insert_blob (k : table_key) (id : Z) (blob : bytes) : M wconn () :=
  statement (fun d =>
    match rows_of d k !! id with
    | Some _ => Err "UNIQUE constraint failed: wc_row"
    | None => Ok ((), set_rows d k (<[id := blob]> (rows_of d k)))
    end).
(** [next] is the ID of the first row; the IDs are int64s. *)
Fixpoint insert_rows (k : table_key) (next : Z) (rows : list row) : M wconn () :=
  match rows with
  | [] => mret ()
  | r :: rows =>
      match encode_row r with
      | Err e => raise e
      | Ok blob => _ ← insert_blob k next blob; insert_rows k (s64 (next + 1)) rows
      end
  end.
Fixpoint check_rows (tableName : string) (required : list string) (rows : list row) : result string () :=
  match rows with
  | [] => Ok ()
  | r :: rows => let? _ := checkNotNullRow tableName required r in check_rows tableName required rows
  end.
Definition rowsAppend (catalog schemaPath tableName : string) (rows : list row) (required : list string) : M wconn Z :=
  match check_rows tableName required rows with
  | Err e => raise e
  | Ok _ =>
      let k := key_of catalog schemaPath tableName in
      transaction (
        next ← query (fun d => next_id (rows_of d k));
        _ ← prepare;
        _ ← insert_rows k next rows;
        mret next)
  end.

Definition scanned (ib : Z * bytes) : result string row :=
  let? r := decode_row ib.2 in Ok (<[rowIDFieldName := Some (VInt64 ib.1)]> r).
Definition rowsScan (catalog schemaPath tableName : string) : M wconn (list row) :=
  l ← query (fun d => by_id (rows_of d (key_of catalog schemaPath tableName)));
  match map_result scanned l with Ok rows => mret rows | Err e => raise e end.
Definition rowsCount (catalog schemaPath tableName : string) : M wconn Z :=
  query (fun d => Z.of_nat (size (rows_of d (key_of catalog schemaPath tableName)))).

(** One row of an update: the blob it leaves, nothing when it has no row ID. *)
Definition updated (tableName : string) (required : list string) (u : row) (blob : bytes) : result string bytes :=
  let? existing := decode_row blob in
  let r := delete rowIDFieldName u ∪ existing in
  let? _ := checkNotNullRow tableName required r in
  encode_row r.
Definition save_blob (k : table_key) (id : Z) (blob : bytes) : M wconn () :=
  execute (fun d => set_rows d k (alter (fun _ => blob) id (rows_of d k))).
Fixpoint update_rows (k : table_key) (tableName : string) (required : list string) (updates : list row) (count : Z) : M wconn Z :=
  match updates with
  | [] => mret count
  | u :: updates =>
      match u !! rowIDFieldName with
      | None => update_rows k tableName required updates count
      | Some v =>
          let id := toInt64 float_int64 v in
          found ← query (fun d => rows_of d k !! id);
          match found with
          | None => update_rows k tableName required updates count
          | Some blob =>
              match updated tableName required u blob with
              | Err e => raise e
              | Ok blob' => _ ← save_blob k id blob'; update_rows k tableName required updates (count + 1)
              end
          end
      end
  end.
Definition rowsUpdate (catalog schemaPath tableName : string) (updates : list row) (required : list string) : M wconn Z :=
  transaction (_ ← prepare; _ ← prepare; update_rows (key_of catalog schemaPath tableName) tableName required updates 0).

Definition delete_blob (k : table_key) (id : Z) : M wconn bool :=
  statement (fun d => Ok (bool_decide (is_Some (rows_of d k !! id)), set_rows d k (delete id (rows_of d k)))).
Fixpoint delete_rows (k : table_key) (ids : list Z) (count : Z) : M wconn Z :=
  match ids with
  | [] => mret count
  | id :: ids => hit ← delete_blob k id; delete_rows k ids (if hit : bool then count + 1 else count)%Z
  end.
Definition rowsDelete (catalog schemaPath tableName : string) (rowIDs : list Z) : M wconn Z :=
  match rowIDs with
  | [] => mret 0%Z
  | _ => transaction (_ ← prepare; delete_rows (key_of catalog schemaPath tableName) rowIDs 0)
  end.
End store.
