(* ===== verification/WritableRows.v ===== *)
(** * WritableRows: what INSERT, UPDATE, DELETE and a scan do to a table

    The rows of a table as values, and each of the store's row methods as a
    function on them: the methods of [WritableStore] compute these functions,
    change nothing else, and change nothing at all when they fail. *)

From S2P Require Import Prelude Bytes Strings Unicode ArrowData Storage Sqlite WritableStore.

Abbreviation table := (gmap Z row).

Section rows.
Context `{Unicode} `{GobCodec} (float_int64 : float64 -> Z).

(** ** The functions *)

Fixpoint put_rows (next : Z) (rows : list row) (t : table) : result string table :=
  match rows with
  | [] => Ok t
  | r :: rows =>
      let? _ := encode_row r in
      match t !! next with
      | Some _ => Err "UNIQUE constraint failed: wc_row"
      | None => put_rows (s64 (next + 1)) rows (<[next := r]> t)
      end
  end.
Definition append_table (tableName : string) (rows : list row) (required : list string) (t : table) : result string (Z * table) :=
  let? _ := check_rows tableName required rows in
  let? t' := put_rows (next_id t) rows t in
  Ok (next_id t, t').

Definition updated_row (tableName : string) (required : list string) (u r : row) : result string row :=
  let r' := delete rowIDFieldName u ∪ r in
  let? _ := checkNotNullRow tableName required r' in
  let? _ := encode_row r' in
  Ok r'.
Fixpoint update_table (tableName : string) (required : list string) (updates : list row) (count : Z) (t : table)
    : result string (Z * table) :=
  match updates with
  | [] => Ok (count, t)
  | u :: updates =>
      match u !! rowIDFieldName ≫= (fun v => let id := toInt64 float_int64 v in pair id <$> t !! id) with
      | None => update_table tableName required updates count t
      | Some (id, r) =>
          let? r' := updated_row tableName required u r in
          update_table tableName required updates (count + 1)%Z (<[id := r']> t)
      end
  end.

Fixpoint delete_table (ids : list Z) (count : Z) (t : table) : Z * table :=
  match ids with
  | [] => (count, t)
  | id :: ids => delete_table ids (if bool_decide (is_Some (t !! id)) then count + 1 else count)%Z (delete id t)
  end.

Definition scan_table (t : table) : list row := map (fun ir => <[rowIDFieldName := Some (VInt64 ir.1)]> ir.2) (by_id t).

(** ** Blobs and rows *)

Definition decoded (m : gmap Z bytes) (t : table) : Prop :=
  forall i, option_Forall2 (fun b r => decode_row b = Ok r) (m !! i) (t !! i).

Lemma decoded_empty : decoded ∅ ∅.
Proof. intros i. rewrite !lookup_empty. constructor. Qed.
Lemma decoded_insert m t i b r : decoded m t -> decode_row b = Ok r -> decoded (<[i := b]> m) (<[i := r]> t).
Proof.
  intros Hm Hb j. destruct (decide (i = j)) as [->|Hne]; [rewrite !lookup_insert_eq; by constructor|].
  by rewrite !lookup_insert_ne.
Qed.
Lemma decoded_delete m t i : decoded m t -> decoded (delete i m) (delete i t).
Proof.
  intros Hm j. destruct (decide (i = j)) as [->|Hne]; [rewrite !lookup_delete_eq; constructor|].
  by rewrite !lookup_delete_ne.
Qed.
Lemma decoded_some m t i b : decoded m t -> m !! i = Some b -> exists r, t !! i = Some r /\ decode_row b = Ok r.
Proof. intros Hm Hi. specialize (Hm i). rewrite Hi in Hm. inversion Hm; subst. eauto. Qed.
Lemma decoded_none m t i : decoded m t -> m !! i = None <-> t !! i = None.
Proof. intros Hm. specialize (Hm i). inversion Hm; split; congruence. Qed.
Lemma decoded_dom m t : decoded m t -> dom m = dom t.
Proof.
  intros Hm. apply set_eq. intros i. rewrite !elem_of_dom. specialize (Hm i).
  inversion Hm; split; intros [? ?]; eauto; congruence.
Qed.
Lemma decoded_next m t : decoded m t -> next_id m = next_id t.
Proof. intros Hm. unfold next_id, max_id. by rewrite (decoded_dom m t Hm). Qed.
Lemma decoded_by_id m t : decoded m t ->
  Forall2 (fun ib ir => ib.1 = ir.1 /\ decode_row ib.2 = Ok ir.2) (by_id m) (by_id t).
Proof.
  intros Hm. unfold by_id. rewrite (decoded_dom m t Hm). induction (merge_sort _ _) as [|i l IH]; [constructor|].
  cbn [omap list_omap]. specialize (Hm i). inversion Hm as [b r Hbr Eb Er|Eb Er]; cbn; [by constructor|done].
Qed.

(** ** Methods that keep to one table

    [tracks m t r]: on a database whose rows of [k] are [t], the calls of [m]
    compute [r], touch no other rows, and when no statement fails they fail only
    as [r] does. [exact m t r] says of a whole method that it also leaves the
    database as it was when it fails. *)

Context (k : table_key).
Definition elsewhere (d d' : wdatabase) : Prop :=
  wc_schema d' = wc_schema d /\ wc_table d' = wc_table d /\ forall k', k' <> k -> rows_of d' k' = rows_of d k'.
Lemma elsewhere_refl d : elsewhere d d.
Proof. done. Qed.
Lemma elsewhere_trans d d' d'' : elsewhere d d' -> elsewhere d' d'' -> elsewhere d d''.
Proof. intros (A1 & A2 & A3) (B1 & B2 & B3). split; [congruence|]. split; [congruence|]. intros k' Hk. by rewrite B3, A3. Qed.
Lemma rows_of_set d m : rows_of (set_rows d k m) k = m.
Proof. unfold rows_of, set_rows. cbn. by rewrite lookup_insert_eq. Qed.
Lemma elsewhere_set d m : elsewhere d (set_rows d k m).
Proof. split; [done|]. split; [done|]. intros k' Hk. unfold rows_of, set_rows. cbn. by rewrite lookup_insert_ne. Qed.

Definition outcome {A} (c c' : wconn) (a : A) (r : result string (A * table)) : Prop :=
  elsewhere (tables c) (tables c') /\ exists t', r = Ok (a, t') /\ decoded (rows_of (tables c') k) t'.
Definition tracks {A} (m : M wconn A) (t : table) (r : result string (A * table)) : Prop :=
  forall c, decoded (rows_of (tables c) k) t ->
  match m c with
  | (Ok a, c') => outcome c c' a r /\ (faults c = [] -> faults c' = [])
  | (Err e, _) => faults c = [] -> r = Err e
  end.
Definition exact {A} (m : M wconn A) (t : table) (r : result string (A * table)) : Prop :=
  forall c, decoded (rows_of (tables c) k) t ->
  match m c with
  | (Ok a, c') => outcome c c' a r
  | (Err e, c') => tables c' = tables c /\ (faults c = [] -> r = Err e)
  end.

Lemma tracks_ret {A} (a : A) t : tracks (mret a) t (Ok (a, t)).
Proof. intros c Hc. split; [|done]. split; [apply elsewhere_refl|]. by exists t. Qed.
Lemma tracks_raise {A} e t : tracks (raise e : M wconn A) t (Err e).
Proof. by intros c Hc. Qed.
Lemma tracks_bind {A B} (m : M wconn A) (f : A -> M wconn B) t r g :
  tracks m t r -> (forall a t', r = Ok (a, t') -> tracks (f a) t' (g a t')) ->
  tracks (m ≫= f) t (let? (a, t') := r in g a t').
Proof.
  intros Hm Hf c Hc. unfold mbind, M_bind. specialize (Hm c Hc). destruct (m c) as [[a|e] c1].
  - destruct Hm as [(He & t' & -> & Ht) Hz]. specialize (Hf a t' eq_refl c1 Ht). destruct (f a c1) as [[b|e] c2].
    + destruct Hf as [(He' & Hr) Hy]. split; [|auto]. split; [by eapply elsewhere_trans|done].
    + auto.
  - intros Hc0. by rewrite (Hm Hc0).
Qed.
Lemma tracks_statement {A} (F : wdatabase -> result string (A * wdatabase)) t r :
  (forall d, decoded (rows_of d k) t ->
     match F d with
     | Ok (a, d') => elsewhere d d' /\ exists t', r = Ok (a, t') /\ decoded (rows_of d' k) t'
     | Err e => r = Err e
     end) ->
  tracks (statement F) t r.
Proof.
  intros HF [d [|[e|] fs]] Hd; unfold statement; cbn in *; specialize (HF d Hd); [|done|];
    (destruct (F d) as [[a d']|e']; [split; [exact HF|done]|done]).
Qed.
Lemma tracks_query {A} (f : wdatabase -> A) t (a : A) :
  (forall d, decoded (rows_of d k) t -> f d = a) -> tracks (query f) t (Ok (a, t)).
Proof. intros Hf. apply tracks_statement. intros d Hd. rewrite (Hf d Hd). split; [apply elsewhere_refl|]. by exists t. Qed.
Lemma tracks_read {A} (f : wdatabase -> A) t (Q : A -> Prop) (B : Type) (g : A -> M wconn B) (r : result string (B * table)) :
  (forall d, decoded (rows_of d k) t -> Q (f d)) -> (forall a, Q a -> tracks (g a) t r) -> tracks (a ← query f; g a) t r.
Proof.
  intros Hf Hg c Hc. unfold mbind, M_bind, query, statement. destruct c as [d [|[e|] fs]]; cbn in *; [|done|].
  - specialize (Hg (f d) (Hf d Hc) {| tables := d; faults := [] |} Hc). by destruct (g _ _) as [[?|?] ?].
  - specialize (Hg (f d) (Hf d Hc) {| tables := d; faults := fs |} Hc). cbn in Hg. destruct (g _ _) as [[?|?] ?].
    + destruct Hg as [Ho _]. split; [exact Ho|done].
    + done.
Qed.
Lemma tracks_prepared {A} (m : M wconn A) t r : tracks m t r -> tracks (_ ← prepare; m) t r.
Proof. intros Hm. by apply (tracks_read _ t (fun _ => True)). Qed.

Lemma exact_transaction {A} (m : M wconn A) t r : tracks m t r -> exact (transaction m) t r.
Proof.
  intros Hm c Hc. unfold transaction. pose proof (tracks_query (fun _ => ()) t () ltac:(done) c Hc) as Hb.
  pose proof (means_query (fun _ => ()) c) as Hq. destruct (query (fun _ => ()) c) as [[u|e] c1].
  2:{ split; [done|]. intros Hz. by specialize (Hb Hz). }
  injection Hq as _ Hq. destruct Hb as [_ Hb]. rewrite <- Hq in Hc. pose proof (Hm c1 Hc) as Hy.
  unfold mbind, M_bind. destruct (m c1) as [[a|e] c2]; cycle 1. { split; [done|]. auto. }
  destruct Hy as [(He & t' & -> & Ht) Hy].
  pose proof (tracks_query (fun _ => ()) t' () ltac:(done) c2 Ht) as Hb2. pose proof (means_query (fun _ => ()) c2) as Hq2.
  destruct (query (fun _ => ()) c2) as [[v|e] c3]; cycle 1. { split; [done|]. intros Hz. by specialize (Hb2 (Hy (Hb Hz))). }
  injection Hq2 as _ Hq2. cbn. split; [rewrite Hq2; by rewrite <- Hq|]. exists t'. by rewrite Hq2.
Qed.
Lemma exact_raise {A} e t : exact (raise e : M wconn A) t (Err e).
Proof. by intros c Hc. Qed.
End rows.

(** ** The methods *)

Section methods.
Context `{Unicode} `{GobCodec} (float_int64 : float64 -> Z).

Lemma set_decoded k d m t : decoded m t -> decoded (rows_of (set_rows d k m) k) t.
Proof. by rewrite rows_of_set. Qed.

Lemma insert_rows_tracks k rows : forall next t,
  tracks k (insert_rows k next rows) t (let? t' := put_rows next rows t in Ok ((), t')).
Proof.
  induction rows as [|r rows IH]; intros next t; cbn [insert_rows put_rows]; [apply tracks_ret|].
  destruct (encode_row r) as [blob|e] eqn:Er; [|apply tracks_raise]. cbn.
  apply row_read_back in Er.
  set (fresh := match t !! next with
                | Some _ => @Err string (() * table) "UNIQUE constraint failed: wc_row"
                | None => Ok ((), <[next := r]> t)
                end).
  assert (tracks k (insert_blob k next blob) t fresh) as Hb.
  { apply tracks_statement. intros d Hd. subst fresh. pose proof (decoded_none _ _ next Hd) as Hn.
    destruct (rows_of d k !! next) as [b|], (t !! next) as [r'|]; try done.
    - by pose proof (proj2 Hn eq_refl).
    - by pose proof (proj1 Hn eq_refl).
    - split; [apply elsewhere_set|]. eexists. split; [done|]. apply set_decoded. by apply decoded_insert. }
  pose proof (tracks_bind k _ (fun _ => insert_rows k (s64 (next + 1)) rows) _ _
    (fun _ t' => let? t'' := put_rows (s64 (next + 1)) rows t' in Ok ((), t'')) Hb) as Ht.
  replace (let? t' := match t !! next with Some _ => _ | None => _ end in Ok ((), t'))
    with (let? (a, t') := fresh in let? t'' := put_rows (s64 (next + 1)) rows t' in Ok ((), t'')).
  - apply Ht. intros. apply IH.
  - subst fresh. by destruct (t !! next).
Qed.

Lemma rowsAppend_exact catalog schemaPath tableName rows required t :
  exact (key_of catalog schemaPath tableName) (rowsAppend catalog schemaPath tableName rows required) t
    (append_table tableName rows required t).
Proof.
  unfold rowsAppend, append_table. destruct (check_rows _ _ _) as [[]|e]; [|apply exact_raise]. cbn.
  set (k := key_of _ _ _). apply exact_transaction.
  apply (tracks_read k (fun d => next_id (rows_of d k)) t (fun n => n = next_id t)).
  - intros d Hd. by apply decoded_next.
  - intros next ->. apply tracks_prepared.
    replace (let? t' := put_rows (next_id t) rows t in Ok (next_id t, t')) with
      (let? (u, t') := (let? t' := put_rows (next_id t) rows t in Ok ((), t')) in Ok (next_id t, t')).
    + apply tracks_bind; [apply insert_rows_tracks|]. intros. apply tracks_ret.
    + by destruct (put_rows _ _ _).
Qed.

(** Without failing statements an INSERT leaves none to fail. *)
Lemma clean_transaction {A} (m : M wconn A) (c : wconn) a c' :
  (forall d a c', m {| tables := d; faults := [] |} = (Ok a, c') -> faults c' = []) ->
  faults c = [] -> transaction m c = (Ok a, c') -> faults c' = [].
Proof.
  intros Hm Hf. destruct c as [d fs]. cbn in Hf. subst fs. unfold transaction, query, statement. cbn. unfold mbind, M_bind.
  destruct (m _) as [[b|e] c2] eqn:E; [|done]. apply Hm in E. rewrite E. cbn. by intros [= _ <-].
Qed.
Lemma insert_rows_clean k rows : forall next d a c', insert_rows k next rows {| tables := d; faults := [] |} = (Ok a, c') -> faults c' = [].
Proof.
  induction rows as [|r rows IH]; intros next d a c'; cbn; [by intros [= _ <-]|]. destruct (encode_row r); [|done].
  unfold mbind, M_bind, insert_blob, statement. cbn. destruct (rows_of d k !! next); [done|]. apply IH.
Qed.
Lemma rowsAppend_clean catalog schemaPath tableName rows required (c : wconn) : faults c = [] ->
  forall a c', rowsAppend catalog schemaPath tableName rows required c = (Ok a, c') -> faults c' = [].
Proof.
  intros Hf a c'. unfold rowsAppend. destruct (check_rows _ _ _); [|done]. apply clean_transaction; [|done].
  clear. intros d a c'. unfold mbind, M_bind, query, prepare, statement. cbn. unfold mbind, M_bind.
  destruct (insert_rows _ _ _ _) as [[u|e] c2] eqn:E; [|done]. apply insert_rows_clean in E. by intros [= _ <-].
Qed.

Lemma updated_decoded tableName required u b r : decode_row b = Ok r ->
  match updated tableName required u b with
  | Ok b' => exists r', updated_row tableName required u r = Ok r' /\ decode_row b' = Ok r'
  | Err e => updated_row tableName required u r = Err e
  end.
Proof.
  intros Hb. unfold updated, updated_row. rewrite Hb. destruct (checkNotNullRow _ _ _) as [[]|e]; [|done].
  destruct (encode_row _) as [b'|e] eqn:E; [|done]. eexists. split; [done|]. by apply row_read_back.
Qed.

Lemma save_tracks k id b r t : decode_row b = Ok r -> is_Some (t !! id) ->
  tracks k (save_blob k id b) t (Ok ((), <[id := r]> t)).
Proof.
  intros Hb [r' Hr']. apply tracks_statement. intros d Hd. split; [apply elsewhere_set|]. eexists. split; [done|].
  apply set_decoded. intros i. pose proof (Hd i) as Hi. destruct (decide (i = id)) as [->|Hne].
  - rewrite lookup_alter_eq, lookup_insert_eq. rewrite Hr' in Hi. inversion Hi. cbn. by constructor.
  - by rewrite lookup_alter_ne, lookup_insert_ne.
Qed.

Lemma update_rows_tracks k tableName required updates : forall count t,
  tracks k (update_rows float_int64 k tableName required updates count) t
    (update_table float_int64 tableName required updates count t).
Proof.
  induction updates as [|u updates IH]; intros count t; cbn [update_rows update_table]; [apply tracks_ret|].
  destruct (u !! rowIDFieldName) as [v|]; [|apply IH]. cbn [mbind option_bind]. set (id := toInt64 _ v).
  apply (tracks_read k (fun d => rows_of d k !! id) t (fun ob => option_Forall2 (fun b r => decode_row b = Ok r) ob (t !! id))).
  { intros d Hd. apply Hd. }
  intros ob Hob. destruct ob as [b|], (t !! id) as [r|] eqn:Er; inversion Hob as [? ? Hbr|]; subst; cbn; [|apply IH].
  pose proof (updated_decoded tableName required u b r Hbr) as Hu. destruct (updated _ _ _ _) as [b'|e].
  - destruct Hu as (r' & -> & Hb'). cbn.
    apply (tracks_bind k _ _ t (Ok ((), <[id := r']> t)) (fun _ => update_table float_int64 tableName required updates (count + 1))).
    + apply save_tracks; [done|by eexists].
    + intros. apply IH.
  - rewrite Hu. apply tracks_raise.
Qed.
Lemma rowsUpdate_exact catalog schemaPath tableName updates required t :
  exact (key_of catalog schemaPath tableName) (rowsUpdate float_int64 catalog schemaPath tableName updates required) t
    (update_table float_int64 tableName required updates 0 t).
Proof. apply exact_transaction. do 2 apply tracks_prepared. apply update_rows_tracks. Qed.

Lemma delete_rows_tracks k ids : forall count t, tracks k (delete_rows k ids count) t (Ok (delete_table ids count t)).
Proof.
  induction ids as [|id ids IH]; intros count t; cbn [delete_rows delete_table]; [apply tracks_ret|].
  apply (tracks_bind k _ _ t (Ok (bool_decide (is_Some (t !! id)), delete id t))
           (fun (hit : bool) t' => Ok (delete_table ids (if hit then count + 1 else count)%Z t'))).
  - apply tracks_statement. intros d Hd. split; [apply elsewhere_set|]. exists (delete id t). split.
    + f_equal. f_equal. apply bool_decide_ext. pose proof (decoded_none _ _ id Hd) as Hn.
      rewrite <- !not_eq_None_Some. tauto.
    + apply set_decoded. by apply decoded_delete.
  - intros a t' _. apply IH.
Qed.
Lemma rowsDelete_exact catalog schemaPath tableName ids t :
  exact (key_of catalog schemaPath tableName) (rowsDelete catalog schemaPath tableName ids) t (Ok (delete_table ids 0 t)).
Proof.
  destruct ids as [|id ids].
  - intros c Hc. split; [apply elsewhere_refl|]. by exists t.
  - apply exact_transaction. apply tracks_prepared. apply delete_rows_tracks.
Qed.

Lemma scanned_rows m t : decoded m t -> map_result scanned (by_id m) = Ok (scan_table t).
Proof.
  intros Hm. unfold scan_table. pose proof (decoded_by_id _ _ Hm) as Hf. revert Hf.
  generalize (by_id m) (by_id t). intros l l' Hf. induction Hf as [|[i b] [j r] l l' [Hi Hb] _ IH]; [done|].
  cbn [map_result map]. unfold scanned at 1. cbn in *. subst j. rewrite Hb, IH. done.
Qed.
Lemma elem_scan (t : table) i r : t !! i = Some r -> <[rowIDFieldName := Some (VInt64 i)]> r ∈ scan_table t.
Proof.
  intros Hi. unfold scan_table. apply list_elem_of_fmap. exists (i, r). split; [done|]. unfold by_id. apply list_elem_of_omap.
  exists i. rewrite merge_sort_Permutation, elem_of_elements, elem_of_dom, Hi. split; [by eexists|done].
Qed.
Lemma scan_elem (t : table) r' : r' ∈ scan_table t -> exists i r, t !! i = Some r /\ r' = <[rowIDFieldName := Some (VInt64 i)]> r.
Proof.
  unfold scan_table. intros Hr. apply list_elem_of_fmap in Hr as ([i r] & -> & Hi). unfold by_id in Hi.
  apply list_elem_of_omap in Hi as (j & _ & Hj). destruct (t !! j) as [x|] eqn:E; [|done]. injection Hj as -> ->. by exists i, r.
Qed.

Lemma rowsScan_exact catalog schemaPath tableName t :
  exact (key_of catalog schemaPath tableName) (rowsScan catalog schemaPath tableName) t (Ok (scan_table t, t)).
Proof.
  intros c Hc. unfold rowsScan. set (k := key_of _ _ _) in *. unfold mbind, M_bind.
  pose proof (means_query (fun d => by_id (rows_of d k)) c) as Hq.
  destruct (query _ c) as [[l|e] c1] eqn:Eq; cycle 1.
  { split; [done|]. intros Hz. revert Eq. unfold query, statement. rewrite Hz. done. }
  injection Hq as -> Hq. rewrite (scanned_rows _ t Hc).
  cbn. split; [rewrite Hq; apply elsewhere_refl|]. exists t. by rewrite Hq.
Qed.

End methods.

(** ** Fresh row IDs *)

Lemma max_id_spec {V} (m : gmap Z V) :
  match max_id m with
  | None => m = ∅
  | Some i => i ∈ dom m /\ forall j, j ∈ dom m -> (j <= i)%Z
  end.
Proof.
  unfold max_id. destruct (elements (dom m)) as [|a l] eqn:E.
  - apply dom_empty_iff_L. apply elements_empty_iff in E. by apply leibniz_equiv.
  - assert (forall x, x ∈ dom m <-> x ∈ a :: l) as Hd by (intros x; by rewrite <- E, elem_of_elements).
    setoid_rewrite Hd. clear E Hd m. induction l as [|b l IH]; cbn.
    + split; [by apply list_elem_of_here|]. intros j Hj. apply list_elem_of_singleton in Hj. lia.
    + destruct IH as [Hi Hj]. set (i := foldr Z.max a l) in *. split.
      * destruct (Z.max_spec b i) as [[_ ->]|[_ ->]]; set_solver.
      * intros j Hin. destruct (decide (j = b)) as [->|Hne]; [lia|]. specialize (Hj j). transitivity i; [apply Hj|lia]. set_solver.
Qed.

(** A table whose IDs leave room for [n] more. *)
Definition room {V} (m : gmap Z V) (n : Z) : Prop := (0 <= n < 2 ^ 63)%Z /\ forall i, i ∈ dom m -> (0 <= i /\ i + n < 2 ^ 63)%Z.

Lemma next_id_fresh {V} (m : gmap Z V) n : room m n -> (0 < n)%Z ->
  (forall i, i ∈ dom m -> (i < next_id m)%Z) /\ (0 <= next_id m /\ next_id m + n <= 2 ^ 63)%Z.
Proof.
  intros [Hn Hr] Hp. pose proof (max_id_spec m) as Hm. unfold next_id. destruct (max_id m) as [i|].
  - destruct Hm as [Hi Hj]. destruct (Hr i Hi) as [H1 H2]. rewrite s64_small by (unfold int64_range; lia). split; [|lia].
    intros j Hin. specialize (Hj j Hin). lia.
  - subst m. split; [|lia]. intros i. rewrite dom_empty_L. set_solver.
Qed.

Lemma by_id_insert {V} (m : gmap Z V) next v : (forall i, i ∈ dom m -> (i < next)%Z) -> by_id (<[next := v]> m) = by_id m ++ [(next, v)].
Proof.
  intros Hf. assert (next ∉ dom m) as Hn by (intros Hi; specialize (Hf _ Hi); lia).
  assert (merge_sort Z.le (elements (dom (<[next := v]> m))) = merge_sort Z.le (elements (dom m)) ++ [next]) as Es.
  { apply (StronglySorted_unique Z.le).
    - apply StronglySorted_merge_sort; apply _.
    - apply StronglySorted_app_2; [|apply StronglySorted_merge_sort; apply _|repeat constructor].
      intros i j Hi Hj. apply list_elem_of_singleton in Hj as ->. rewrite merge_sort_Permutation, elem_of_elements in Hi.
      specialize (Hf _ Hi). lia.
    - rewrite !merge_sort_Permutation, dom_insert_L, elements_union_singleton by done. by rewrite Permutation_cons_append. }
  unfold by_id. rewrite Es, omap_app. f_equal.
  - apply list_omap_ext. apply Forall2_same_length_lookup. split; [done|]. intros j i i' Hi Hi'. rewrite Hi in Hi'. injection Hi' as <-.
    apply list_elem_of_lookup_2 in Hi. rewrite merge_sort_Permutation, elem_of_elements in Hi. specialize (Hf _ Hi).
    by rewrite lookup_insert_ne by lia.
  - cbn. by rewrite lookup_insert_eq.
Qed.

Lemma put_rows_by_id `{GobCodec} rows : forall next (t t' : table), put_rows next rows t = Ok t' ->
  (forall i, i ∈ dom t -> (i < next)%Z) -> (0 <= next /\ next + Z.of_nat (length rows) <= 2 ^ 63)%Z ->
  by_id t' = by_id t ++ imap (fun j r => (next + Z.of_nat j, r)%Z) rows.
Proof.
  induction rows as [|r rows IH]; intros next t t' E Hf Hr; cbn in E; [apply ok_inj in E as <-; by rewrite app_nil_r|].
  destruct (encode_row r); [|done]. destruct (t !! next); [done|]. destruct rows as [|r1 rows].
  - cbn in E. apply ok_inj in E as <-. rewrite by_id_insert by done. cbn. by rewrite Z.add_0_r.
  - cbn [length] in Hr. rewrite s64_small in E by (unfold int64_range; lia). rewrite (IH _ _ _ E).
    + rewrite by_id_insert by done. rewrite <- app_assoc. f_equal. rewrite (imap_cons _ r). cbn [app]. f_equal; [by rewrite Z.add_0_r|].
      apply imap_ext. intros j x _. unfold compose. f_equal. lia.
    + intros i. rewrite dom_insert_L. intros Hi. apply elem_of_union in Hi as [Hi|Hi]; [set_unfold; lia|]. specialize (Hf i Hi). lia.
    + cbn [length]. lia.
Qed.
Lemma put_rows_total `{GobCodec} rows : forall next (t : table), Forall (fun r => exists b, encode_row r = Ok b) rows ->
  (forall i, i ∈ dom t -> (i < next)%Z) -> (0 <= next /\ next + Z.of_nat (length rows) <= 2 ^ 63)%Z ->
  exists t', put_rows next rows t = Ok t'.
Proof.
  induction rows as [|r rows IH]; intros next t He Hf Hr; cbn; [by exists t|]. apply Forall_cons in He as [[b ->] He'].
  destruct (t !! next) as [x|] eqn:Ex; [exfalso; specialize (Hf next ltac:(by apply elem_of_dom)); lia|].
  destruct rows as [|r1 rows]; [by eexists|]. cbn [length] in Hr. rewrite s64_small by (unfold int64_range; lia). apply IH; [done| |cbn [length]; lia].
  intros i. rewrite dom_insert_L. intros Hi. apply elem_of_union in Hi as [Hi|Hi]; [set_unfold; lia|]. specialize (Hf i Hi). lia.
Qed.
