(* ===== verification/WritableBatch.v ===== *)
(** * WritableBatch: the batches of a writable table (vgi/writable_handlers.go)

    What INSERT makes of an Arrow batch before it stores it, what a scan makes of
    the stored rows, and that the two fit: for the column types a scan can emit,
    the rows inserted come back, last and in order. A batch column of another
    type is stored as NULL without an error, or cannot be scanned. *)

From S2P Require Import Prelude Bytes Strings Unicode ArrowTypes ArrowData Storage Sqlite Columns WritableStore WritableRows.

(** ** From a batch to rows *)

(** [arrowValueAccessor]: a type it does not list yields nil. *)
Definition arrowValueAccessor (dt : DataType) (c : cell) : option Value :=
  match dt, c with
  | (INT64 | INT32 | INT16 | INT8), CInt z => Some (VInt64 z)
  | (UINT64 | UINT32), CInt z => Some (VInt64 (s64 z))
  | (FLOAT64 | FLOAT32), CFloat f => Some (VFloat64 f)
  | STRING, CStr s => Some (VString s)
  | BOOL, CBool b => Some (VBool b)
  | BINARY, CBin b => Some (VBytes b)
  | _, _ => None
  end.
Definition value_at (arr : Array) (i : nat) : option Value :=
  match Cells arr !! i with
  | Some c => if is_null c then None else arrowValueAccessor (ArrType arr) c
  | None => None
  end.
Definition set_column (rows : list row) (fa : Field * Array) : list row :=
  imap (fun i (r : row) => <[FieldName fa.1 := value_at fa.2 i]> r) rows.
Definition batchToRows (b : RecordBatch) : list row :=
  foldl set_column (replicate (Z.to_nat (NumRows b)) ∅) (ArrowData.Columns b).

(** ** From rows to a batch *)

Lemma map_result_each {E A B} (f : A -> result E B) l k : Forall2 (fun x y => f x = Ok y) l k -> map_result f l = Ok k.
Proof. induction 1 as [|x y l k Hx _ IH]; [done|]. cbn. by rewrite Hx, IH. Qed.
Lemma map_result_app {E A B} (f : A -> result E B) l k :
  map_result f (l ++ k) = let? a := map_result f l in let? b := map_result f k in Ok (a ++ b).
Proof.
  induction l as [|x l IH]; cbn; [by destruct (map_result f k)|]. destruct (f x); [|done]. rewrite IH.
  destruct (map_result f l); [|done]. by destruct (map_result f k).
Qed.

Section batches.
Context (float_int64 : float64 -> Z) (Sprint : Value -> string).

Definition s32 (z : Z) : Z := ((z + 2 ^ 31) mod 2 ^ 32 - 2 ^ 31)%Z.
Definition toFloat64 (v : Value) : float64 :=
  match v with VFloat64 f => f | VInt64 z => float64_of_int z | _ => Finite 0 0 end.
Definition toString (v : Value) : string :=
  match v with VString s => s | VBytes b => bstr b | v => Sprint v end.

(** One cell; the type assertion of a BOOL panics, here an error. *)
Definition build_cell (dt : DataType) (v : Value) : result string cell :=
  match dt with
  | INT64 => Ok (CInt (toInt64 float_int64 (Some v)))
  | INT32 => Ok (CInt (s32 (toInt64 float_int64 (Some v))))
  | FLOAT64 => Ok (CFloat (toFloat64 v))
  | STRING => Ok (CStr (toString v))
  | BOOL => match v with VBool b => Ok (CBool b) | _ => Err "interface conversion: interface {} is not bool" end
  | BINARY =>
      match v with
      | VBytes b => Ok (CBin b)
      | VString s => Ok (CBin (sb s))
      | _ => Err "buildColumnFromValues binary: unsupported value"
      end
  | _ => Err "buildColumnFromValues: unsupported type"
  end.
Definition emitted (dt : DataType) : bool :=
  match dt with INT64 | INT32 | FLOAT64 | STRING | BOOL | BINARY => true | _ => false end.
Definition column_cell (dt : DataType) (name : string) (r : row) : result string cell :=
  match r !! name with Some (Some v) => build_cell dt v | _ => Ok CNull end.
Definition buildColumnFromValues (c : Column) (rows : list row) : result string Array :=
  match colType c with
  | PlainType dt =>
      if emitted dt then let? cells := map_result (column_cell dt (colName c)) rows in Ok {| ArrType := dt; Cells := cells |}
      else Err "buildColumnFromValues: unsupported type"
  | _ => Err "buildColumnFromValues: unsupported type"
  end.
Definition rowsToBatch (schema : list Column) (rows : list row) : result string (list Array) :=
  map_result (fun c => buildColumnFromValues c rows) schema.

(** ** A batch inserted and scanned *)

(** A cell of its column's type. *)
Definition cell_of (dt : DataType) (c : cell) : Prop :=
  match dt, c with
  | _, CNull => True
  | INT64, CInt z => int64_range z
  | INT32, CInt z => (- 2 ^ 31 <= z < 2 ^ 31)%Z
  | FLOAT64, CFloat _ | STRING, CStr _ | BOOL, CBool _ | BINARY, CBin _ => True
  | _, _ => False
  end.
(** The batch's column of a table's column, and the only one of its name. *)
Record carries (b : RecordBatch) (c : Column) (arr : Array) : Prop := {
  carried : exists pre f post, ArrowData.Columns b = pre ++ (f, arr) :: post /\ FieldName f = colName c /\
    Forall (fun fa => FieldName fa.1 <> colName c) post;
  carried_type : colType c = PlainType (ArrType arr) /\ emitted (ArrType arr) = true;
  carried_rows : Z.of_nat (length (Cells arr)) = NumRows b;
  carried_cells : Forall (cell_of (ArrType arr)) (Cells arr)
}.

Lemma cell_back dt c : emitted dt = true -> cell_of dt c -> is_null c = false ->
  exists v, arrowValueAccessor dt c = Some v /\ build_cell dt v = Ok c.
Proof using.
  intros He Hc Hn. destruct dt; try done; destruct c; try done; cbn in *; eexists; (split; [done|]); cbn; try done.
  unfold s32. do 2 f_equal. rewrite Z.mod_small by lia. lia.
Qed.

Lemma set_column_length rows fa : length (set_column rows fa) = length rows.
Proof using. apply length_imap. Qed.
Lemma set_columns_length cols : forall rows, length (foldl set_column rows cols) = length rows.
Proof using. induction cols as [|fa cols IH]; intros rows; cbn; [done|]. by rewrite IH, set_column_length. Qed.
Lemma batchToRows_length b : length (batchToRows b) = Z.to_nat (NumRows b).
Proof using. unfold batchToRows. by rewrite set_columns_length, length_replicate. Qed.

Lemma set_column_other rows fa i n (r' : row) : set_column rows fa !! i = Some r' -> FieldName fa.1 <> n ->
  exists r : row, rows !! i = Some r /\ r' !! n = r !! n.
Proof using.
  unfold set_column. rewrite list_lookup_imap. intros E Hn. destruct (rows !! i) as [r|]; [|done]. injection E as <-.
  exists r. split; [done|]. by rewrite lookup_insert_ne.
Qed.
Lemma set_columns_other cols n : Forall (fun fa => FieldName fa.1 <> n) cols -> forall rows i (r' : row),
  foldl set_column rows cols !! i = Some r' -> exists r : row, rows !! i = Some r /\ r' !! n = r !! n.
Proof using.
  induction 1 as [|fa cols Hfa _ IH]; intros rows i r' E; cbn in E; [by exists r'|].
  destruct (IH _ _ _ E) as (r1 & E1 & ->). by destruct (set_column_other _ _ _ _ _ E1 Hfa) as (r & Hr & ->); eauto.
Qed.

(** A row of the batch has the batch's value in the column. *)
Lemma row_value b c arr i r : carries b c arr -> batchToRows b !! i = Some r -> r !! colName c = Some (value_at arr i).
Proof using.
  intros [(pre & f & post & Ec & Ef & Hp) _ _ _] E. unfold batchToRows in E. rewrite Ec, foldl_app in E. cbn [foldl] in E.
  destruct (set_columns_other post _ Hp _ _ _ E) as (r1 & E1 & ->). unfold set_column at 1 in E1.
  rewrite list_lookup_imap in E1. destruct (foldl set_column _ pre !! i) as [r0|]; [|done]. cbn in E1. injection E1 as <-. cbn. rewrite Ef.
  by rewrite lookup_insert_eq.
Qed.
Lemma batch_cells b c arr : carries b c arr ->
  map_result (column_cell (ArrType arr) (colName c)) (batchToRows b) = Ok (Cells arr).
Proof using.
  intros Hc. apply map_result_each. apply Forall2_same_length_lookup. destruct Hc as [H1 [Ht He] Hn Hcs].
  split; [rewrite batchToRows_length; lia|]. intros i r cl Hr Hcl. unfold column_cell.
  rewrite (row_value b c arr i r) by done. unfold value_at. rewrite Hcl.
  destruct (is_null cl) eqn:En; [by destruct cl|]. rewrite Forall_lookup in Hcs.
  destruct (cell_back (ArrType arr) cl He (Hcs i cl Hcl) En) as (v & -> & ->). done.
Qed.

Lemma batch_cells_numbered b c arr (first : Z) : carries b c arr -> colName c <> rowIDFieldName ->
  map_result (column_cell (ArrType arr) (colName c))
    (imap (fun j (r : row) => <[rowIDFieldName := Some (VInt64 (first + Z.of_nat j))]> r) (batchToRows b)) = Ok (Cells arr).
Proof using.
  intros Hc Hn. apply map_result_each. apply Forall2_same_length_lookup.
  pose proof (map_result_inv _ _ _ (batch_cells b c arr Hc)) as Hb. rewrite Forall2_same_length_lookup in Hb. destruct Hb as [Hl Hb].
  split; [by rewrite length_imap|]. intros i r cl Hr Hcl. rewrite list_lookup_imap in Hr.
  destruct (batchToRows b !! i) as [r0|] eqn:E; [|done]. injection Hr as <-. rewrite <- (Hb i r0 cl E Hcl).
  unfold column_cell. by rewrite lookup_insert_ne.
Qed.

Context `{Unicode} `{GobCodec}.

(** C26: what an INSERT stored is what a scan emits. When no statement fails, a
    batch whose rows have every required value is stored whole; the scan after it
    gives the rows of before and then the batch's, numbered on from the largest row
    ID, and every column of a type a scan emits has its old cells followed by the
    batch's cells, in order and unchanged. *)
Theorem inserted_is_scanned (catalog schemaPath tableName : string) (b : RecordBatch) (required : list string)
    (c : wconn) (t : table) :
  let rows := batchToRows b in
  decoded (rows_of (tables c) (key_of catalog schemaPath tableName)) t -> room t (NumRows b) -> faults c = [] ->
  check_rows tableName required rows = Ok () -> Forall (fun r => exists blob, encode_row r = Ok blob) rows ->
  exists c1 scanned c2,
    rowsAppend catalog schemaPath tableName rows required c = (Ok (next_id t), c1) /\
    rowsScan catalog schemaPath tableName c1 = (Ok scanned, c2) /\
    scanned = scan_table t ++
      imap (fun j (r : row) => <[rowIDFieldName := Some (VInt64 (next_id t + Z.of_nat j))]> r) rows /\
    forall col arr before, carries b col arr -> colName col <> rowIDFieldName ->
      buildColumnFromValues col (scan_table t) = Ok before ->
      buildColumnFromValues col scanned = Ok {| ArrType := ArrType arr; Cells := Cells before ++ Cells arr |}.
Proof using.
  intros rows Hd Hroom Hf Hcheck Henc. set (k := key_of catalog schemaPath tableName) in *.
  assert (exists t', put_rows (next_id t) rows t = Ok t' /\
            by_id t' = by_id t ++ imap (fun j r => (next_id t + Z.of_nat j, r)%Z) rows) as (t' & Ht & Hids).
  { pose proof (batchToRows_length b) as Hl. fold rows in Hl. destruct rows as [|r0 rows0] eqn:Er.
    { exists t. split; [done|]. by rewrite app_nil_r. }
    destruct (next_id_fresh t _ Hroom) as [Hlt Hle]; [cbn [length] in Hl; lia|].
    assert (0 <= next_id t /\ next_id t + Z.of_nat (length (r0 :: rows0)) <= 2 ^ 63)%Z as Hr by (destruct Hroom; lia).
    destruct (put_rows_total (r0 :: rows0) (next_id t) t Henc Hlt Hr) as [t' Ht]. exists t'. split; [done|].
    by apply put_rows_by_id. }
  pose proof (rowsAppend_exact catalog schemaPath tableName rows required t c Hd) as Ha.
  unfold append_table in Ha. rewrite Hcheck in Ha. cbn in Ha. rewrite Ht in Ha. cbn in Ha. fold rows.
  pose proof (rowsAppend_clean catalog schemaPath tableName rows required c Hf) as Hclean.
  destruct (rowsAppend _ _ _ rows required c) as [[n|e] c1] eqn:Ea; [|destruct Ha as [_ Ha]; by specialize (Ha Hf)].
  destruct Ha as (_ & t1 & E1 & Hd1). injection E1 as <- <-. specialize (Hclean _ _ eq_refl).
  pose proof (rowsScan_exact catalog schemaPath tableName t' c1 Hd1) as Hs.
  destruct (rowsScan _ _ _ c1) as [[l|e] c2] eqn:Es; [|destruct Hs as [_ Hs]; by specialize (Hs Hclean)].
  destruct Hs as (_ & t2 & E2 & _). injection E2 as <- _.
  assert (scan_table t' = scan_table t ++
    imap (fun j (r : row) => <[rowIDFieldName := Some (VInt64 (next_id t + Z.of_nat j))]> r) rows) as Hscan.
  { unfold scan_table. rewrite Hids, map_app. f_equal. change (map ?f ?l) with (f <$> l). by rewrite fmap_imap. }
  exists c1, (scan_table t'), c2. split; [done|]. split; [done|]. split; [exact Hscan|].
  intros col arr before Hc Hn Hb. rewrite Hscan. unfold buildColumnFromValues in *.
  destruct (carried_type _ _ _ Hc) as [-> He]. destruct (carried_type _ _ _ Hc) as [E' _]. rewrite E' in Hb. rewrite He in *.
  rewrite map_result_app. destruct (map_result _ (scan_table t)) as [cells|]; [|done]. cbn in Hb. apply ok_inj in Hb as <-.
  rewrite (batch_cells_numbered b col arr _ Hc Hn). done.
Qed.
End batches.
