(* ===== verification/WritableCatalog.v ===== *)
(** * WritableCatalog: DDL and DML of the writable catalogs
    (vgi/writable_handlers.go, writable_constraints.go, writable_functions.go)

    The handlers of schemas and tables and the functions that write and scan rows,
    over the store of [WritableStore]. An RPC error is its message here. A worker
    may serve several writable catalogs on one database; a Go map of them is
    iterated in any order, given as [order]. *)

From S2P Require Import Prelude Bytes Strings Unicode Strconv ArrowTypes ArrowData Arguments Storage Sqlite CatalogContents.
From S2P Require Import Columns ConstraintRecords CreateTable ColumnMetadata GeneratedColumns TableMetadata TableInfo.
From S2P Require Import WritableStore WritableRows WritableBatch.

Definition rpc_text (e : rpc_error) : string := match e with ValueError m | MethodNotImplemented m | PlainError m => m end.
Definition text_error {A} (r : result rpc_error A) : result string A := match r with Ok a => Ok a | Err e => Err (rpc_text e) end.
(** A computation without statements. *)
Definition pure {A} (r : result string A) : M wconn A := match r with Ok a => mret a | Err e => raise e end.

(** [strings.Split(s, NUL)] *)
Fixpoint split_at (sep : byte) (b cur : bytes) : list string :=
  match b with
  | [] => [bstr (rev cur)]
  | x :: b => if bool_decide (x = sep) then bstr (rev cur) :: split_at sep b [] else split_at sep b (x :: cur)
  end.
Definition SplitNUL (s : string) : list string := split_at x00 (sb s) [].

(** ** The row ID column *)

Definition withSynthesizedRowID (cols : list Column) : list Column :=
  if existsb isRowIDField cols then cols
  else cols ++ [MkColumn rowIDFieldName (PlainType INT64) false [("is_row_id", "")]].

(** The defaults DuckDB leaves in the metadata; of two columns of a name, the
    last one's. *)
Definition defaultsFromSchemaMetadata (cols : list Column) : gmap string default_value :=
  foldl (fun out c => match find_key (colMetadata c) "default" with Some v => <[colName c := DSql v]> out | None => out end) ∅ cols.

Record TableCreateRequest := {
  reqSchemaPath : path; reqName : string; reqColumns : bytes; reqOnConflict : string; reqDefinitions : list bytes
}.

Section handlers.
Context `{Unicode} `{RecordCodec} `{GobCodec} (float_int64 : float64 -> Z) (FormatFloat : float64 -> Z -> string) (Sprint : any -> string).

(** ** Schemas *)

Definition writableSchemaCreate (c : string) (p : path) (onConflict : onConflictAction) (comment : option string) : M wconn () :=
  let name := schemaPathKey p in
  exists_ ← schemaExists c name;
  match (exists_ : bool), onConflict with
  | true, onConflictIgnore => mret ()
  | true, onConflictError => raise ("schema " +:+ name +:+ " already exists")
  | _, _ => schemaUpsert c name (default "" comment)
  end.
Definition writableSchemaDrop (c : string) (p : path) (ignoreNotFound cascade : bool) : M wconn () :=
  let name := schemaPathKey p in
  exists_ ← schemaExists c name;
  if negb exists_ then (if ignoreNotFound then mret () else raise ("schema " +:+ name +:+ " does not exist"))
  else if cascade then schemaDrop c name cascade
  else
    ts ← tableList c name;
    match ts with
    | [] => schemaDrop c name cascade
    | _ :: _ => raise ("schema " +:+ name +:+ " is not empty (use CASCADE)")
    end.
(** The paths and comments listed. *)
Definition writableSchemaInfos (c : string) : M wconn (list (path * string)) :=
  list ← schemaList c;
  mret (map (fun nc : string * string => (SplitNUL nc.1, nc.2)) list).
Definition writableSchemaGet (c : string) (p : path) : M wconn (option path) :=
  exists_ ← schemaExists c (schemaPathKey p);
  mret (if (exists_ : bool) then Some p else None).

(** ** Tables *)

(** The table CREATE TABLE asks for, checked. *)
Definition requested_table (req : TableCreateRequest) : result string writableTable :=
  check! negb (bool_decide (reqColumns req = [])) else "catalog_table_create: missing columns schema" in
  let? schema := match read_schema (reqColumns req) with
                 | Ok s => Ok s
                 | Err e => Err ("catalog_table_create: deserialize columns: " +:+ e)
                 end in
  let? _ := ValidateColumnExpressions rc_class rc_read (Some schema) (reqSchemaPath req) false in
  let? _ := ValidateColumnMetadata (Some schema) in
  let? (records, required) := text_error (notNullRecords (reqSchemaPath req) (reqName req) schema (reqDefinitions req)) in
  let? _ := text_error (requireUnconstrainedCreateSchema schema required) in
  Ok {| tblName := reqName req; tblSchema := schema; tblComment := ""; constraints := records;
        defaults := defaultsFromSchemaMetadata schema; legacy := None; columnComment := ∅ |}.

Definition writableTableCreate (c : string) (req : TableCreateRequest) : M wconn () :=
  t ← pure (requested_table req);
  let schemaKey := schemaPathKey (reqSchemaPath req) in
  exists_ ← schemaExists c schemaKey;
  if negb exists_ then raise ("schema " +:+ schemaPathDisplay (reqSchemaPath req) +:+ " does not exist") else
  existing ← tableLoad c schemaKey (reqName req);
  match existing, parseOnConflict (reqOnConflict req) with
  | None, _ => tableUpsert c schemaKey t
  | Some _, onConflictReplace => _ ← tableDrop c schemaKey (reqName req); tableUpsert c schemaKey t
  | Some _, onConflictIgnore => mret ()
  | Some _, onConflictError =>
      raise ("table " +:+ schemaPathDisplay (reqSchemaPath req) +:+ "." +:+ reqName req +:+ " already exists")
  end.

(** [catalog_table_create] of a writable catalog: what is refused before its
    handler. [extras] are the comment, tags, options and layout. *)
Definition CatalogTableCreate (c : string) (extras : bool) (req : TableCreateRequest) : M wconn () :=
  if bool_decide (0 < length (reqDefinitions req)) then raise "catalog_table_create: canonical constraint enforcement"
  else if extras then raise "catalog_table_create"
  else writableTableCreate c req.

Definition writableTableDrop (c : string) (p : path) (name : string) (ignoreNotFound : bool) : M wconn () :=
  let schemaKey := schemaPathKey p in
  existing ← tableLoad c schemaKey name;
  match existing with
  | None => if ignoreNotFound then mret () else raise ("table " +:+ schemaPathDisplay p +:+ "." +:+ name +:+ " does not exist")
  | Some _ => tableDrop c schemaKey name
  end.

(** The entries of the defaults come in the map's order. *)
Definition tableInfoFromWritable (t : writableTable) (p : path) : result string TableInfo :=
  let? cols := applyDefaults FormatFloat Sprint (withSynthesizedRowID (tblSchema t)) (map_to_list (defaults t)) in
  let? cs := rebindRecords (constraints t) p (tblName t) in
  Ok {| TableInfo.Constraints := cs; DefinitionRevision := None; Name := tblName t; TablePath := p; Comment := tblComment t; Tags := ∅;
        InfoColumns := Some cols; NotNullConstraints := []; UniqueConstraints := []; CheckConstraints := [];
        PrimaryKeyConstraints := []; ForeignKeyConstraints := [];
        WriteResultModes := <["insert" := "count"]> (<["update" := "count"]> {["delete" := "count"]});
        SupportsColumnStatistics := false; ScanFunction := None; InsertFunction := None; UpdateFunction := None;
        DeleteFunction := None; CardinalityEstimate := None; CardinalityMax := None; ColumnStatistics := None; BindResult := None;
        RequiredFilters := []; Options := None; Layout := None |}.
Definition served_row (t : writableTable) (p : path) : result string TableInfoRow :=
  let? info := tableInfoFromWritable t p in
  buildTableInfoRecord rc_ParseFloat rc_class rc_fold rc_write rc_read write_schema info.
Definition writableTableGet (c : string) (p : path) (name : string) : M wconn (option TableInfoRow) :=
  t ← tableLoad c (schemaPathKey p) name;
  match t with
  | None => mret None
  | Some t => r ← pure (served_row t p); mret (Some r)
  end.
Fixpoint contents_rows (c : string) (p : path) (names : list string) : M wconn (list TableInfoRow) :=
  match names with
  | [] => mret []
  | name :: names =>
      t ← tableLoad c (schemaPathKey p) name;
      match t with
      | None => contents_rows c p names
      | Some t => r ← pure (served_row t p); rs ← contents_rows c p names; mret (r :: rs)
      end
  end.
Definition writableSchemaContentsTables (c : string) (p : path) : M wconn (list TableInfoRow) :=
  names ← tableList c (schemaPathKey p); contents_rows c p names.

(** ** Constraints stored before vgi.v3 *)

Definition violated (schema : list Column) (p : path) (rows : list row) (column : string) : bool :=
  bool_decide (topLevelIndex schema column = None) || negb (bool_decide (length p = 1)) || existsb (fun r => missing r column) rows.
Fixpoint migrate_columns (p : path) (t : writableTable) (rows : list row) (existing : list string) (columns : list string)
    (records : list bytes) : result string (list bytes) :=
  match columns with
  | [] => Ok records
  | column :: columns =>
      if bool_decide (column ∈ existing) || violated (tblSchema t) p rows column
      then migrate_columns p t rows existing columns records
      else
        let? record := makeRecord (not_null_spec p (tblName t) column "") in
        migrate_columns p t rows existing columns (records ++ [record])
  end.
Definition migrated (t : writableTable) (records : list bytes) : writableTable :=
  {| tblName := tblName t; tblSchema := tblSchema t; tblComment := tblComment t; constraints := records; defaults := defaults t;
     legacy := None; columnComment := columnComment t |}.
Definition migrateLegacyTable (c : string) (p : path) (schemaKey : string) (t : writableTable) (meta : writableTableMeta) : M wconn () :=
  match NotNull meta with
  | [] => tableUpsert c schemaKey (migrated t (constraints t))
  | columns =>
      rows ← rowsScan c schemaKey (tblName t);
      records ← pure (let? existing := requiredColumns (constraints t) in
                      migrate_columns p t rows existing columns (constraints t));
      tableUpsert c schemaKey (migrated t records)
  end.
Definition migrate_named (c schemaKey name : string) : M wconn () :=
  t ← tableLoad c schemaKey name;
  match t with
  | Some t => match legacy t with Some meta => migrateLegacyTable c (SplitNUL schemaKey) schemaKey t meta | None => mret () end
  | None => mret ()
  end.
Definition migrateLegacyConstraints (c : string) : M wconn () :=
  schemas ← schemaList c;
  each (fun nc : string * string => names ← tableList c nc.1; each (migrate_named c nc.1) names) schemas.

(** ** Rows *)

Fixpoint findWritableTable (order : list string) (schemaPath tableName : string) : M wconn (string * writableTable) :=
  match order with
  | [] => raise ("writable table " +:+ schemaPath +:+ "." +:+ tableName +:+ " not found")
  | c :: order =>
      t ← tableLoad c schemaPath tableName;
      match t with
      | Some t => mret (c, t)
      | None => findWritableTable order schemaPath tableName
      end
  end.

Record writableMutateState := {
  msSchemaPath : string; msTableName : string; msCount : Z; msCatalog : option string; msRequired : list string
}.
(** [NewState] of the three functions. *)
Definition NewState (schemaPath tableName : string) : writableMutateState :=
  {| msSchemaPath := schemaPath; msTableName := tableName; msCount := 0; msCatalog := None; msRequired := [] |}.
Definition counted (st : writableMutateState) (n : Z) : writableMutateState :=
  {| msSchemaPath := msSchemaPath st; msTableName := msTableName st; msCount := s64 (msCount st + n); msCatalog := msCatalog st;
     msRequired := msRequired st |}.

Definition resolveCatalog (order : list string) (st : writableMutateState) : M wconn (string * writableMutateState) :=
  match msCatalog st with
  | Some c => mret (c, st)
  | None =>
      '(c, t) ← findWritableTable order (msSchemaPath st) (msTableName st);
      required ← pure (requiredColumns (constraints t));
      mret (c, {| msSchemaPath := msSchemaPath st; msTableName := msTableName st; msCount := msCount st;
                  msCatalog := Some c; msRequired := required |})
  end.

(** The row IDs of the rows to delete. *)
Definition row_ids (rows : list row) : list Z :=
  omap (fun r : row => toInt64 float_int64 <$> r !! rowIDFieldName) rows.

(** The three [Process] methods: the count emitted and the state left. A batch
    that fails ends the statement; its state goes with it. *)
Inductive dml := Insert | Update | Delete.
Definition write (op : dml) (c : string) (st : writableMutateState) (b : RecordBatch) : M wconn Z :=
  let rows := batchToRows b in
  match op with
  | Insert => _ ← rowsAppend c (msSchemaPath st) (msTableName st) rows (msRequired st); mret (Z.of_nat (length rows))
  | Update => rowsUpdate float_int64 c (msSchemaPath st) (msTableName st) rows (msRequired st)
  | Delete => rowsDelete c (msSchemaPath st) (msTableName st) (row_ids rows)
  end.
Definition Process (op : dml) (order : list string) (st : writableMutateState) (b : RecordBatch) : M wconn (Z * writableMutateState) :=
  '(c, st) ← resolveCatalog order st;
  n ← write op c st b;
  mret (n, counted st n).

(** [vgi_writable_scan]: the batch emitted, [None] when there is nothing to
    emit. [outSchema] is the projected output, when there is one. *)
Definition scanProcess (order : list string) (schemaPath tableName : string) (text : Value -> string) (emitted : bool)
    (outSchema : option (list Column)) : M wconn (option (list Array)) :=
  if emitted then mret None else
  '(c, t) ← findWritableTable order schemaPath tableName;
  rows ← rowsScan c schemaPath tableName;
  match rows with
  | [] => mret None
  | _ =>
      batch ← pure (rowsToBatch float_int64 text (default (withSynthesizedRowID (tblSchema t)) outSchema) rows);
      mret (Some batch)
  end.
Definition scanOnBind (order : list string) (schemaPath tableName : string) : M wconn (list Column) :=
  '(_, t) ← findWritableTable order schemaPath tableName; mret (withSynthesizedRowID (tblSchema t)).
(** The estimate is zero when the table is not found. *)
Definition scanCardinality (order : list string) (schemaPath tableName : string) : M wconn Z := fun w =>
  match ('(c, _) ← findWritableTable order schemaPath tableName; rowsCount c schemaPath tableName) w with
  | (Ok n, w) => (Ok n, w)
  | (Err _, w) => (Ok 0%Z, w)
  end.

(** ** Records served *)

Lemma withSynthesizedRowID_has cols : existsb isRowIDField (withSynthesizedRowID cols) = true.
Proof using.
  unfold withSynthesizedRowID. destruct (existsb isRowIDField cols) eqn:E; [done|]. rewrite existsb_app. cbn.
  unfold isRowIDField at 2, has_key, find_key. cbn. by rewrite orb_true_r.
Qed.

(** A record made is at most 8 MiB when it can be read, and reads back. *)
Lemma made_readable s data : makeRecord s = Ok data -> (blen data <= mebi8)%Z ->
  exists s', readRecord data = Ok s' /\ Table s' = Table s /\ SchemaPath s' = SchemaPath s /\ Kind s' = Kind s /\
    ConstraintRecords.Columns s' = ConstraintRecords.Columns s.
Proof using.
  unfold makeRecord, readRecord, ReadConstraintRecord. intros Hm Hb. apply record_made in Hm as [_ He].
  rewrite (encode_decode rc_write rc_read rc_write_read rc_inside _ _ He Hb). by eexists.
Qed.

Lemma rebind_each p n data data' : (blen data' <= mebi8)%Z ->
  (let? s := readRecord data in
   if bool_decide (Table s = n) && bool_decide (SchemaPath s = p) then Ok data else makeRecord (rebound p n s)) = Ok data' ->
  exists s s', readRecord data = Ok s /\ readRecord data' = Ok s' /\ Table s' = n /\ SchemaPath s' = p /\ Kind s' = Kind s /\
    ConstraintRecords.Columns s' = ConstraintRecords.Columns s.
Proof using.
  intros Hb E. destruct (readRecord data) as [s|] eqn:Er; [|done]. cbn in E. destruct (_ && _) eqn:Eo.
  - apply ok_inj in E as <-. exists s, s. bool_hyps. done.
  - destruct (made_readable _ _ E Hb) as (s' & H1' & H2' & H3' & H4' & H5'). by exists s, s'.
Qed.
Lemma required_rebound l l' : Forall2 (fun data data' => exists s s', readRecord data = Ok s /\ readRecord data' = Ok s' /\
    Kind s' = Kind s /\ ConstraintRecords.Columns s' = ConstraintRecords.Columns s) l l' ->
  forall out, requiredLoop out l' = requiredLoop out l.
Proof using.
  induction 1 as [|data data' l l' (s & s' & E & E' & Hk & Hc) _ IH]; intros out; cbn; [done|]. rewrite E, E', Hk, Hc. cbn.
  case_bool_decide; apply IH.
Qed.

(** Defaults leave a row-ID column where there is one. *)
Lemma has_key_app md md' key : has_key md key = true -> has_key (md ++ md') key = true.
Proof using.
  unfold has_key, find_key. induction md as [|[k v] md IH]; [done|]. cbn. by case_bool_decide.
Qed.
Lemma edit_first_row_id n v cols : forall cols', edit_first "default references non-existent column" colName n (set_default FormatFloat Sprint v) cols = Ok cols' ->
  existsb isRowIDField cols = true -> existsb isRowIDField cols' = true.
Proof using.
  induction cols as [|c cols IH]; intros cols' E Hr; [done|]. cbn in E, Hr. apply orb_true_iff in Hr. case_bool_decide.
  - cbn in E. apply ok_inj in E as <-. cbn. apply orb_true_iff. destruct Hr as [Hr|Hr]; [left; by apply has_key_app|by right].
  - destruct (edit_first _ _ _ _ cols) as [k|]; [|done]. cbn in E. apply ok_inj in E as <-. cbn. apply orb_true_iff.
    destruct Hr as [Hr|Hr]; [by left|right; by apply IH].
Qed.
Lemma applyDefaults_row_id l : forall cols cols', applyDefaults FormatFloat Sprint cols l = Ok cols' ->
  existsb isRowIDField cols = true -> existsb isRowIDField cols' = true.
Proof using.
  induction l as [|[n v] l IH]; intros cols cols' E Hr; cbn in E; [by apply ok_inj in E as <-|].
  destruct (edit_first _ _ _ _ cols) as [k|] eqn:Ek; [|done]. cbn in E. eapply IH; [exact E|]. by eapply edit_first_row_id.
Qed.

(** C27: a table is served under the name the client has for it. Every constraint
    record of a table's served row names exactly that table and schema path,
    whatever the letter case it was created with, the records still require
    exactly the columns that writes are held to, and the row has a row-ID column
    for UPDATE and DELETE. *)
Theorem served_records_fit (t : writableTable) (p : path) (info : TableInfo) :
  tableInfoFromWritable t p = Ok info -> Forall (fun data => (blen data <= mebi8)%Z) (TableInfo.Constraints info) ->
  Name info = tblName t /\ TablePath info = p /\
  Forall (fun data => exists s, readRecord data = Ok s /\ Table s = tblName t /\ SchemaPath s = p) (TableInfo.Constraints info) /\
  requiredColumns (TableInfo.Constraints info) = requiredColumns (constraints t) /\
  exists cols, InfoColumns info = Some cols /\ existsb isRowIDField cols = true.
Proof using.
  unfold tableInfoFromWritable. intros E Hb. destruct (applyDefaults _ _ _ _) as [cols|] eqn:Ed; [|done]. cbn in E.
  destruct (rebindRecords _ _ _) as [cs|] eqn:Er; [|done]. cbn in E. apply ok_inj in E as <-. cbn in *.
  split; [done|]. split; [done|]. apply map_result_inv in Er.
  assert (Forall2 (fun data data' => exists s s', readRecord data = Ok s /\ readRecord data' = Ok s' /\ Table s' = tblName t /\
    SchemaPath s' = p /\ Kind s' = Kind s /\ ConstraintRecords.Columns s' = ConstraintRecords.Columns s) (constraints t) cs) as Hf.
  { clear Ed. revert Hb. induction Er as [|data data' l l' Hd _ IH]; intros Hb; [constructor|]. inversion_clear Hb.
    constructor; [by eapply rebind_each|by apply IH]. }
  split; [|split].
  - clear -Hf. induction Hf as [|? ? ? ? (s & s' & _ & Hr & Ht & Hp & _) _ IH]; constructor; [by exists s'|done].
  - apply required_rebound. clear -Hf. induction Hf as [|? ? ? ? (s & s' & ? & ? & _ & _ & ? & ?) _ IH]; constructor; [by exists s, s'|done].
  - exists cols. split; [done|]. eapply applyDefaults_row_id; [exact Ed|apply withSynthesizedRowID_has].
Qed.
End handlers.
