(* ===== verification/WritableInvariant.v ===== *)
(** * WritableInvariant: NOT NULL across DDL and DML

    Triples over the calls of the writable catalog, one rule per construct, and
    what they keep of the database: every stored row can be read, belongs to a
    declared table and has a value in every column its table requires. *)

From S2P Require Import Prelude Bytes Strings Unicode Strconv ArrowTypes ArrowData Arguments Storage Sqlite CatalogContents.
From S2P Require Import Columns ConstraintRecords CreateTable ColumnMetadata GeneratedColumns TableMetadata.
From S2P Require Import WritableStore WritableRows WritableBatch WritableCatalog.

(** ** Triples

    [triple E P m Q]: started where [P] holds, [m] returns where [Q] holds or
    fails where [E] does. *)

Section triples.
Context {D : Type}.
Implicit Types P E : D -> Prop.

Definition triple {A} E P (m : M (connection D) A) (Q : A -> D -> Prop) : Prop :=
  forall c, P (tables c) -> match m c with (Ok a, c') => Q a (tables c') | (Err _, c') => E (tables c') end.

Lemma triple_weaken {A} E P P' (m : M (connection D) A) (Q Q' : A -> D -> Prop) :
  triple E P m Q -> (forall d, P' d -> P d) -> (forall a d, Q a d -> Q' a d) -> triple E P' m Q'.
Proof. intros Hm HP HQ c Hc. specialize (Hm c (HP _ Hc)). destruct (m c) as [[a|e] c']; auto. Qed.
Lemma triple_ret {A} E P (a : A) Q : (forall d, P d -> Q a d) -> triple E P (mret a) Q.
Proof. intros HQ c Hc. by apply HQ. Qed.
Lemma triple_raise {A} E P e (Q : A -> D -> Prop) : (forall d, P d -> E d) -> triple E P (raise e) Q.
Proof. intros HE c Hc. by apply HE. Qed.
Lemma triple_bind {A B} E P (m : M (connection D) A) (f : A -> M (connection D) B) R Q :
  triple E P m R -> (forall a, triple E (R a) (f a) Q) -> triple E P (m ≫= f) Q.
Proof.
  intros Hm Hf c Hc. specialize (Hm c Hc). unfold mbind, M_bind. destruct (m c) as [[a|e] c']; [|done]. by apply Hf.
Qed.
Lemma triple_statement {A} E P (F : D -> result string (A * D)) Q :
  (forall d, P d -> E d) -> (forall d a d', P d -> F d = Ok (a, d') -> Q a d') -> triple E P (statement F) Q.
Proof.
  intros HE HQ [d [|[e|] fs]] Hc; unfold statement; cbn in *; [|by apply HE|];
    (destruct (F d) as [[a d']|e'] eqn:EF; cbn; [by eapply HQ|by apply HE]).
Qed.
Lemma triple_query {A} E P (f : D -> A) (Q : A -> D -> Prop) :
  (forall d, P d -> E d) -> (forall d, P d -> Q (f d) d) -> triple E P (query f) Q.
Proof. intros HE HQ. apply triple_statement; [done|]. intros d a d' Hd [= <- <-]. auto. Qed.
Lemma triple_execute E P (f : D -> D) (Q : () -> D -> Prop) :
  (forall d, P d -> E d) -> (forall d, P d -> Q () (f d)) -> triple E P (execute f) Q.
Proof. intros HE HQ. apply triple_statement; [done|]. intros d a d' Hd [= <- <-]. auto. Qed.
(** A transaction that fails is where it began. *)
Lemma triple_transaction {A} E P (m : M (connection D) A) (Q : A -> D -> Prop) :
  (forall d, P d -> E d) -> triple (fun _ => True) P m Q -> triple E P (transaction m) Q.
Proof.
  intros HE Hm c Hc. unfold transaction. pose proof (means_query (fun _ => ()) c) as Hq.
  destruct (query (fun _ => ()) c) as [[u|e] c1]; [|rewrite Hq; by apply HE]. injection Hq as _ Hq. rewrite <- Hq in Hc.
  specialize (Hm c1 Hc). unfold mbind, M_bind. destruct (m c1) as [[a|e] c2]; [|by apply HE].
  pose proof (means_query (fun _ => ()) c2) as Hq2. destruct (query (fun _ => ()) c2) as [[v|e] c3]; [|by apply HE].
  injection Hq2 as _ Hq2. cbn. by rewrite Hq2.
Qed.
Lemma triple_each {A} E P (m : A -> M (connection D) ()) l :
  (forall a, triple E P (m a) (fun _ => P)) -> triple E P (each m l) (fun _ => P).
Proof.
  intros Hm. induction l as [|a l IH]; cbn [each]; [by apply triple_ret|].
  by apply (triple_bind _ _ _ _ (fun _ => P)); [apply Hm|].
Qed.
End triples.

Section invariant.
Context `{Unicode} `{RecordCodec} `{GobCodec} (float_int64 : float64 -> Z).

(** ** The invariant *)

(** The constraints of the definition of [k], when it can be read. *)
Definition known (defs : gmap table_key wc_table_row) (k : table_key) : option (list bytes) :=
  match defs !! k with
  | Some r => match decodeTableMeta (meta_blob r) with Ok m => Some (Constraints m) | Err _ => None end
  | None => None
  end.
(** The row as a scan returns it. *)
Definition complete (req : list string) (i : Z) (r : row) : Prop :=
  forall col, col ∈ req -> missing (<[rowIDFieldName := Some (VInt64 i)]> r) col = false.
Definition complete_table (req : list string) (t : table) : Prop := forall i r, t !! i = Some r -> complete req i r.

Record sound (d : wdatabase) : Prop := {
  sound_rows : forall k, exists t, decoded (rows_of d k) t;
  sound_declared : forall k, wc_table d !! k = None -> rows_of d k = ∅;
  sound_values : forall k cs req t, known (wc_table d) k = Some cs -> requiredColumns cs = Ok req -> decoded (rows_of d k) t -> complete_table req t
}.

Lemma decoded_unique m t t' : decoded m t -> decoded m t' -> t = t'.
Proof using.
  intros Ht Ht'. apply map_eq. intros i. specialize (Ht i). specialize (Ht' i). revert Ht Ht'.
  destruct (m !! i); intros Ht Ht'; inversion Ht; inversion Ht'; subst; congruence.
Qed.

Lemma no_tables_sound : sound no_tables.
Proof using.
  split.
  - intros k. exists ∅. apply decoded_empty.
  - done.
  - intros k cs req t E. done.
Qed.

(** A database whose tables of [k] changed. *)
Lemma sound_rows_change k d d' t : sound d -> elsewhere k d d' -> decoded (rows_of d' k) t ->
  (wc_table d !! k = None -> t = ∅) ->
  (forall cs req, known (wc_table d) k = Some cs -> requiredColumns cs = Ok req -> complete_table req t) -> sound d'.
Proof using.
  intros [S1 S2 S3] (Es & Et & Er) Hd Hn Hc.
  split.
  - intros k'. destruct (decide (k' = k)) as [->|Hk]; [by exists t|]. rewrite Er by done. apply S1.
  - intros k' Hk'. rewrite Et in Hk'. destruct (decide (k' = k)) as [->|Hk].
    + apply map_eq. intros i. rewrite lookup_empty. apply (decoded_none _ t i Hd). by rewrite (Hn Hk').
    + rewrite Er by done. by apply S2.
  - intros k' cs req t' Hk Hreq Ht'. rewrite Et in Hk. destruct (decide (k' = k)) as [->|Hne].
    + rewrite (decoded_unique _ _ _ Ht' Hd). by eapply Hc.
    + rewrite Er in Ht' by done. by eapply S3.
Qed.

(** A definition written over [k], its rows as they were. *)
Lemma sound_define k d r : sound d ->
  (forall cs m req t, decodeTableMeta (meta_blob r) = Ok m -> cs = Constraints m -> requiredColumns cs = Ok req ->
     decoded (rows_of d k) t -> complete_table req t) ->
  sound (set_tables d (<[k := r]> (wc_table d))).
Proof using.
  intros [S1 S2 S3] Hr. split.
  - exact S1.
  - intros k' Hk'. cbn in Hk'. apply S2. by apply lookup_insert_None in Hk' as [? _].
  - intros k' cs req t Hk Hreq Ht. change (rows_of _ k') with (rows_of d k') in Ht. unfold known in Hk. cbn in Hk.
    destruct (decide (k' = k)) as [->|Hne].
    + rewrite lookup_insert_eq in Hk. destruct (decodeTableMeta (meta_blob r)) as [m|] eqn:Em; [|done]. injection Hk as <-.
      by eapply Hr.
    + rewrite lookup_insert_ne in Hk by done. eapply S3; [exact Hk|done|done].
Qed.

(** Rows and definitions removed together. *)
Lemma sound_remove (p : table_key -> bool) d d' :
  sound d -> (forall k, rows_of d' k = if p k then ∅ else rows_of d k) ->
  (forall k, wc_table d' !! k = if p k then None else wc_table d !! k) -> sound d'.
Proof using.
  intros [S1 S2 S3] Hr Ht. split.
  - intros k. rewrite Hr. destruct (p k); [exists ∅; apply decoded_empty|apply S1].
  - intros k. rewrite Ht, Hr. destruct (p k); [done|apply S2].
  - intros k cs req t. unfold known. rewrite Ht, Hr. destruct (p k); [done|]. intros Hk. by apply (S3 k cs req t).
Qed.
Lemma sound_schemas d m : sound d -> sound (set_schemas d m).
Proof using. intros [S1 S2 S3]. by split. Qed.

(** ** Calls *)

Abbreviation keeps m := (triple sound sound m (fun _ => sound)).

Lemma triple_means {A} E P (m : M wconn A) f (Q : A -> wdatabase -> Prop) :
  means m f -> (forall d, P d -> E d) -> (forall d, P d -> Q (f d).1 (f d).2) -> triple E P m Q.
Proof using.
  intros Hm HE HQ c Hc. specialize (Hm c). destruct (m c) as [[a|e] c']; [|rewrite Hm; by apply HE].
  specialize (HQ _ Hc). by rewrite <- Hm in HQ.
Qed.
Lemma triple_pure {A} E P (r : result string A) (Q : A -> wdatabase -> Prop) :
  (forall d, P d -> E d) -> (forall a d, r = Ok a -> P d -> Q a d) -> triple E P (pure r) Q.
Proof using. intros HE HQ. destruct r; [apply triple_ret; auto|by apply triple_raise]. Qed.

Lemma tableLoad_triple E P c s n : (forall d, P d -> E d) ->
  triple E P (tableLoad c s n) (fun o d => P d /\
    match o with
    | None => wc_table d !! key_of c s n = None
    | Some t => exists r, wc_table d !! key_of c s n = Some r /\ load_row n r = Ok t
    end).
Proof using.
  intros HE. unfold tableLoad. apply (triple_bind _ _ _ _ (fun r d => P d /\ wc_table d !! key_of c s n = r)).
  - apply triple_query; [done|]. by intros d Hd.
  - intros [r|]; [|by apply triple_ret]. destruct (load_row n r) as [t|e] eqn:E1.
    + apply triple_ret. intros d [Hd Hr]. split; [done|]. by exists r.
    + apply triple_raise. intros d [Hd _]. auto.
Qed.
Lemma load_row_known n r t d k : load_row n r = Ok t -> wc_table d !! k = Some r ->
  tblName t = n /\ known (wc_table d) k = Some (constraints t).
Proof using.
  unfold load_row, known. intros E ->. repeat inv_let. by destruct (decodeTableMeta (meta_blob r)) as [m|]; simplify_eq/=.
Qed.

Lemma tableDrop_means c s n : means (tableDrop c s n) (fun d =>
  ((), set_tables (set_all_rows d (delete (key_of c s n) (wc_row d))) (delete (key_of c s n) (wc_table d)))).
Proof using.
  apply means_transaction.
  apply (does_bind _ _ (fun d => ((), set_all_rows d (delete (key_of c s n) (wc_row d))))
           (fun _ d => ((), set_tables d (delete (key_of c s n) (wc_table d))))); [|intros _]; apply means_does, means_execute.
Qed.
Lemma tableDrop_triple c s n : triple sound sound (tableDrop c s n) (fun _ d => sound d /\ wc_table d !! key_of c s n = None).
Proof using.
  eapply triple_means; [apply tableDrop_means|done|]. intros d Hd. cbn [fst snd]. split; [|apply lookup_delete_eq].
  apply (sound_remove (fun k => bool_decide (k = key_of c s n)) d); [done|..].
  - intros k. unfold rows_of. cbn. case_bool_decide as Hk; [by rewrite Hk, lookup_delete_eq|by rewrite lookup_delete_ne].
  - intros k. cbn. case_bool_decide as Hk; [by rewrite Hk, lookup_delete_eq|by rewrite lookup_delete_ne].
Qed.

Lemma outside_lookup {V} (p : table_key -> bool) (m : gmap table_key V) k : outside p m !! k = (if p k then None else m !! k).
Proof using.
  unfold outside. rewrite map_lookup_filter. destruct (m !! k) as [v|]; cbn; [|by destruct (p k)].
  destruct (p k); by case_guard.
Qed.
Lemma schemaDrop_keeps c s b : keeps (schemaDrop c s b).
Proof using.
  apply triple_transaction; [done|]. apply (triple_bind _ _ _ _ (fun _ => sound)).
  - destruct b; [|by apply triple_ret]. set (p := in_schema c (ToLower s)).
    apply (triple_bind _ _ _ _ (fun _ d => exists d0, sound d0 /\ d = set_all_rows d0 (outside p (wc_row d0)))).
    + apply triple_execute; [done|]. intros d Hd. by exists d.
    + intros _. apply triple_execute; [done|]. intros d (d0 & Hd & ->).
      apply (sound_remove p d0); [done|..]; intros k; unfold rows_of; cbn; rewrite outside_lookup; by destruct (p k).
  - intros _. apply triple_execute; [done|]. intros d Hd. by apply sound_schemas.
Qed.
Lemma schemaUpsert_keeps c n cm : keeps (schemaUpsert c n cm).
Proof using. apply triple_execute; [done|]. intros d Hd. by apply sound_schemas. Qed.
Lemma query_keeps {A} (f : wdatabase -> A) : keeps (query f).
Proof using. by apply triple_query. Qed.

Lemma tableUpsert_triple P c s t : (forall d, P d -> sound d) ->
  (forall d req t', P d -> requiredColumns (constraints t) = Ok req -> decoded (rows_of d (key_of c s (tblName t))) t' -> complete_table req t') ->
  triple sound P (tableUpsert c s t) (fun _ => sound).
Proof using.
  intros HP Ht. unfold tableUpsert. destruct (write_schema _); [|by apply triple_raise].
  apply triple_execute; [done|]. intros d Hd. apply sound_define; [by apply HP|]. cbn.
  intros cs m req t' Hm -> Hreq Hdec. unfold decodeTableMeta, encodeTableMeta in Hm. rewrite meta_read_back in Hm. apply ok_inj in Hm. subst m.
  cbn in Hreq. by eapply Ht.
Qed.

(** ** DDL *)

Lemma schemaCreate_keeps c p oc cm : keeps (writableSchemaCreate c p oc cm).
Proof using.
  apply (triple_bind _ _ _ _ (fun _ => sound)); [apply query_keeps|]. intros [] .
  - destruct oc; [by apply triple_raise|apply schemaUpsert_keeps|by apply triple_ret].
  - destruct oc; apply schemaUpsert_keeps.
Qed.
Lemma schemaDrop_handler_keeps c p i b : keeps (writableSchemaDrop c p i b).
Proof using.
  apply (triple_bind _ _ _ _ (fun _ => sound)); [apply query_keeps|]. intros []; cbn [negb].
  - destruct b; [apply schemaDrop_keeps|]. apply (triple_bind _ _ _ _ (fun _ => sound)); [apply query_keeps|].
    intros [|? ?]; [apply schemaDrop_keeps|by apply triple_raise].
  - destruct i; [by apply triple_ret|by apply triple_raise].
Qed.
Lemma tableDrop_handler_keeps c p n i : keeps (writableTableDrop c p n i).
Proof using.
  apply (triple_bind _ _ _ _ _ _ (tableLoad_triple sound sound _ _ _ ltac:(done))). intros [t|].
  - eapply triple_weaken; [apply tableDrop_triple|by intros d [? _]|by intros _ d [? _]].
  - destruct i; [apply triple_ret; by intros d [? _]|apply triple_raise; by intros d [? _]].
Qed.

Lemma requested_name req t : requested_table req = Ok t -> tblName t = reqName req.
Proof using. unfold requested_table. intros E. repeat inv_let. by simplify_eq/=. Qed.
(** A table that is not there has no rows for its definition to be held against. *)
Lemma tableCreate_new c req t : requested_table req = Ok t ->
  triple sound (fun d => sound d /\ wc_table d !! key_of c (schemaPathKey (reqSchemaPath req)) (reqName req) = None)
    (tableUpsert c (schemaPathKey (reqSchemaPath req)) t) (fun _ => sound).
Proof using.
  intros Ht. apply tableUpsert_triple; [by intros d [? _]|]. rewrite (requested_name _ _ Ht). intros d rq t' [Hd Hn] _ Hdec i r Hi.
  rewrite (sound_declared _ Hd _ Hn) in Hdec. specialize (Hdec i). rewrite lookup_empty, Hi in Hdec. inversion Hdec.
Qed.
Lemma tableCreate_keeps c req : keeps (writableTableCreate c req).
Proof using.
  apply (triple_bind _ _ _ _ (fun t d => requested_table req = Ok t /\ sound d)); [by apply triple_pure|]. intros t.
  apply (triple_bind _ _ _ _ (fun _ d => requested_table req = Ok t /\ sound d)); [apply triple_query; naive_solver|]. intros [].
  2:{ apply triple_raise. naive_solver. }
  cbn [negb]. apply (triple_bind _ _ _ _ _ _ (tableLoad_triple sound (fun d => requested_table req = Ok t /\ sound d) _ _ _ ltac:(by intros d [_ ?]))).
  intros o c0 Hc0. destruct Hc0 as [[Ht Hs] Ho]. destruct o as [t0|].
  - destruct (parseOnConflict _); [by apply (triple_raise sound sound)| |by apply (triple_ret sound sound)].
    assert (keeps (_ ← tableDrop c (schemaPathKey (reqSchemaPath req)) (reqName req);
                   tableUpsert c (schemaPathKey (reqSchemaPath req)) t)) as Hrep.
    { eapply triple_bind; [apply tableDrop_triple|]. intros a. by apply tableCreate_new. }
    by apply (Hrep c0).
  - by apply (tableCreate_new c req t Ht c0).
Qed.

(** ** Migration *)

Lemma requiredLoop_app l1 l2 : forall out, requiredLoop out (l1 ++ l2) = let? out' := requiredLoop out l1 in requiredLoop out' l2.
Proof using.
  induction l1 as [|r l1 IH]; intros out; cbn; [done|]. destruct (readRecord r) as [s|]; [|done]. by case_bool_decide.
Qed.
(** A NOT NULL record that can be read requires its column. *)
Lemma made_required p n col declared data s : makeRecord (not_null_spec p n col declared) = Ok data -> readRecord data = Ok s ->
  Kind s = ConstraintNotNull /\ ConstraintRecords.Columns s = [[col]].
Proof using.
  unfold makeRecord, readRecord, ReadConstraintRecord. intros Hm Hr. apply record_made in Hm as [_ He].
  assert (blen data <= mebi8)%Z as Hb.
  { unfold decodeConstraintRecord, readCanonicalRow in Hr. destruct (_ || _) eqn:E; [done|]. by bool_hyps. }
  rewrite (encode_decode rc_write rc_read rc_write_read rc_inside _ _ He Hb) in Hr. cbn in Hr. by apply ok_inj in Hr as <-.
Qed.

(** The records a set of rows satisfies, as far as they can be read. *)
Definition satisfied (t : table) (records : list bytes) : Prop :=
  forall req, requiredColumns records = Ok req -> complete_table req t.

Lemma migrate_columns_satisfied p tbl (t : table) existing columns : forall records records',
  migrate_columns p tbl (scan_table t) existing columns records = Ok records' -> satisfied t records -> satisfied t records'.
Proof using.
  induction columns as [|col columns IH]; intros records records' E Hs; cbn in E; [by apply ok_inj in E as <-|].
  destruct (_ || _) eqn:Ev; [by eapply IH|]. destruct (makeRecord _) as [record|] eqn:Em; [|done]. cbn in E. eapply IH; [exact E|].
  intros req Hreq i r Hi c Hc. unfold requiredColumns in Hreq. rewrite requiredLoop_app in Hreq.
  destruct (requiredLoop [] records) as [out|] eqn:Eo; [|done]. cbn in Hreq. destruct (readRecord record) as [s|] eqn:Er; [|done].
  destruct (made_required _ _ _ _ _ _ Em Er) as [Hk Hcol]. cbn in Hreq. rewrite Hk, Hcol in Hreq. rewrite bool_decide_true in Hreq by set_solver.
  cbn in Hreq. apply ok_inj in Hreq. assert (c ∈ out \/ c = col) as [Ho| ->] by (subst req; case_bool_decide; set_solver).
  - by apply (Hs out Eo i r Hi).
  - apply orb_false_iff in Ev as [_ Ev]. unfold violated in Ev. apply orb_false_iff in Ev as [_ Ev].
    destruct (missing _ col) eqn:E1; [|done]. rewrite <- Ev. symmetry. apply existsb_exists. eexists. split; [|exact E1].
    by apply list_elem_of_In, elem_scan.
Qed.

Lemma sound_satisfied d k records t : sound d -> known (wc_table d) k = Some records -> decoded (rows_of d k) t -> satisfied t records.
Proof using. intros Hd Hk Ht req Hreq. by eapply (sound_values d Hd k). Qed.

Lemma migrateLegacyTable_keeps c p key t meta :
  triple sound (fun d => sound d /\ known (wc_table d) (key_of c key (tblName t)) = Some (constraints t))
    (migrateLegacyTable c p key t meta) (fun _ => sound).
Proof using.
  unfold migrateLegacyTable. set (k := key_of c key (tblName t)). destruct (NotNull meta) as [|col cols].
  { apply tableUpsert_triple; [by intros d [? _]|]. cbn. intros d req t' [Hd Hk] Hreq Ht. by eapply sound_satisfied. }
  set (P := fun d : wdatabase => sound d /\ known (wc_table d) k = Some (constraints t)).
  set (R := fun records (d : wdatabase) => P d /\ forall tt, decoded (rows_of d k) tt -> satisfied tt records).
  apply (triple_bind _ _ _ _ (fun rows d => P d /\ forall tt, decoded (rows_of d k) tt -> rows = scan_table tt)).
  { apply (triple_bind _ _ _ _ (fun l d => P d /\ l = by_id (rows_of d k))).
    - apply triple_query; [by intros d [? _]|done].
    - intros l. destruct (map_result scanned l) as [rows|] eqn:El.
      + apply triple_ret. intros d [Hd ->]. split; [done|]. intros tt Htt. rewrite (scanned_rows _ _ Htt) in El. by apply ok_inj in El.
      + apply triple_raise. by intros d [[? _] _]. }
  intros rows. apply (triple_bind _ _ _ _ R).
  - apply triple_pure; [by intros d [[? _] _]|]. intros records d E [Hd Hrows]. split; [done|]. intros tt Htt.
    destruct (requiredColumns (constraints t)) as [existing|]; [|done]. rewrite (Hrows tt Htt) in E.
    apply (migrate_columns_satisfied p t tt existing (col :: cols) (constraints t) records E). destruct Hd as [Hd Hk]. by eapply sound_satisfied.
  - intros records. apply tableUpsert_triple; [by intros d [[? _] _]|]. cbn. intros d req tt [_ Hs] Hreq Htt. by apply (Hs tt Htt req).
Qed.
Lemma migrateLegacyConstraints_keeps c : keeps (migrateLegacyConstraints c).
Proof using.
  apply (triple_bind _ _ _ _ (fun _ => sound)); [apply query_keeps|]. intros schemas. apply triple_each. intros [key cm]. cbn [fst].
  apply (triple_bind _ _ _ _ (fun _ => sound)); [apply query_keeps|]. intros names. apply triple_each. intros name.
  apply (triple_bind _ _ _ _ _ _ (tableLoad_triple sound sound _ _ _ ltac:(done))). intros [t|]; [|apply triple_ret; by intros d [? _]].
  destruct (legacy t) as [meta|]; [|apply triple_ret; by intros d [? _]].
  eapply triple_weaken; [apply migrateLegacyTable_keeps| |done]. intros d (Hd & r & Hr & Hl). split; [done|].
  destruct (load_row_known _ _ _ d _ Hl Hr) as [-> Hk]. done.
Qed.

(** ** DML *)

Lemma checked_complete name req r i : checkNotNullRow name req r = Ok () -> complete req i r.
Proof using.
  unfold checkNotNullRow. destruct (List.find (missing r) req) eqn:E; [done|]. intros _ col Hcol.
  pose proof (List.find_none _ _ E col ltac:(by apply list_elem_of_In)) as Hm. unfold missing in *.
  destruct (decide (col = rowIDFieldName)) as [->|Hne]; [by rewrite lookup_insert_eq|by rewrite lookup_insert_ne].
Qed.
Lemma check_rows_all name req rows : check_rows name req rows = Ok () -> Forall (fun r => checkNotNullRow name req r = Ok ()) rows.
Proof using.
  induction rows as [|r rows IH]; cbn; [constructor|]. destruct (checkNotNullRow name req r) as [[]|] eqn:E; [|done].
  cbn. intros Hr. constructor; [done|by apply IH].
Qed.
Lemma complete_insert req t i r : complete_table req t -> complete req i r -> complete_table req (<[i := r]> t).
Proof using. intros Ht Hr j r' [[<- <-]|[_ Hj]]%lookup_insert_Some; [done|by apply Ht]. Qed.

Lemma put_rows_complete name req rows : Forall (fun r => checkNotNullRow name req r = Ok ()) rows -> forall next t t',
  put_rows next rows t = Ok t' -> complete_table req t -> complete_table req t'.
Proof using.
  induction 1 as [|r rows Hr _ IH]; intros next t t' E Ht; cbn in E; [by apply ok_inj in E as <-|].
  destruct (encode_row r); [|done]. destruct (t !! next); [done|]. eapply IH; [exact E|].
  apply complete_insert; [done|]. by eapply checked_complete.
Qed.
Lemma append_complete name rows req t n t' : append_table name rows req t = Ok (n, t') -> complete_table req t -> complete_table req t'.
Proof using.
  unfold append_table. intros E Ht. destruct (check_rows name req rows) as [[]|] eqn:Ec; [|done]. cbn in E.
  destruct (put_rows _ rows t) as [t1|] eqn:Ep; [|done]. cbn in E. apply ok_inj in E. injection E as _ <-.
  eapply put_rows_complete; [by apply check_rows_all in Ec|exact Ep|done].
Qed.
Lemma update_complete name req updates : forall count t n t',
  update_table float_int64 name req updates count t = Ok (n, t') -> complete_table req t -> complete_table req t'.
Proof using.
  induction updates as [|u updates IH]; intros count t n t' E Ht; cbn [update_table] in E; [apply ok_inj in E; by injection E as _ <-|].
  destruct (u !! rowIDFieldName ≫= _) as [[id r]|]; [|by eapply IH]. destruct (updated_row name req u r) as [r'|] eqn:Eu; [|done].
  cbn in E. eapply IH; [exact E|]. apply complete_insert; [done|]. unfold updated_row in Eu.
  destruct (checkNotNullRow name req _) as [[]|] eqn:Ec; [|done]. cbn in Eu. destruct (encode_row _); [|done]. cbn in Eu.
  apply ok_inj in Eu as <-. by eapply checked_complete.
Qed.
Lemma delete_complete req ids : forall count t, complete_table req t -> complete_table req (delete_table ids count t).2.
Proof using.
  induction ids as [|id ids IH]; intros count t Ht; cbn; [done|]. apply IH. intros i r [_ Hi]%lookup_delete_Some. by apply Ht.
Qed.

(** A method that keeps to the rows of a resolved table. *)
Lemma exact_keeps {A} (m : M wconn A) k req cs defs (f : table -> result string (A * table)) :
  (forall t, exact k m t (f t)) -> (forall t a t', f t = Ok (a, t') -> complete_table req t -> complete_table req t') ->
  known defs k = Some cs -> requiredColumns cs = Ok req ->
  triple (fun d => sound d /\ wc_table d = defs) (fun d => sound d /\ wc_table d = defs) m (fun _ d => sound d /\ wc_table d = defs).
Proof using.
  intros Hm Hf Hk Hreq c [Hd Hdefs]. destruct (sound_rows _ Hd k) as [t Ht]. specialize (Hm t c Ht).
  destruct (m c) as [[a|e] c']; [|destruct Hm as [-> _]; done]. destruct Hm as (He & t' & Ef & Ht'). split; [|by destruct He as (_ & -> & _)].
  apply (sound_rows_change k (tables c) _ t'); [done|done|done| |].
  - intros Hn. exfalso. revert Hk. unfold known. rewrite <- Hdefs, Hn. done.
  - intros cs' req' Hk' Hreq'. rewrite Hdefs, Hk in Hk'. injection Hk' as <-. rewrite Hreq in Hreq'. apply ok_inj in Hreq' as <-.
    eapply Hf; [exact Ef|]. eapply sound_values; [exact Hd|by rewrite Hdefs|done|done].
Qed.

(** What a statement that has found its table knows of it. *)
Definition resolved (defs : gmap table_key wc_table_row) (st : writableMutateState) : Prop :=
  forall c, msCatalog st = Some c ->
    exists cs, known defs (key_of c (msSchemaPath st) (msTableName st)) = Some cs /\ requiredColumns cs = Ok (msRequired st).

Section statement_runs.
Context (defs : gmap table_key wc_table_row).
Definition here (d : wdatabase) : Prop := sound d /\ wc_table d = defs.

Lemma findWritableTable_triple order s n : triple here here (findWritableTable order s n) (fun ct d => here d /\
  exists r, defs !! key_of ct.1 s n = Some r /\ load_row n r = Ok ct.2).
Proof using.
  induction order as [|c order IH]; cbn [findWritableTable]; [by apply triple_raise|].
  apply (triple_bind _ _ _ _ _ _ (tableLoad_triple here here _ _ _ ltac:(done))). intros [t|].
  - apply triple_ret. intros d [[Hd Hdefs] (r & Hr & Hl)]. split; [done|]. exists r. by rewrite <- Hdefs.
  - eapply triple_weaken; [exact IH|by intros d [? _]|done].
Qed.
Lemma resolveCatalog_triple order st : resolved defs st -> triple here here (resolveCatalog order st) (fun cst d => here d /\
  msCatalog cst.2 = Some cst.1 /\ resolved defs cst.2).
Proof using.
  intros Hst. unfold resolveCatalog. destruct (msCatalog st) as [c|] eqn:Ec; [by apply triple_ret|].
  apply (triple_bind _ _ _ _ _ _ (findWritableTable_triple order _ _)). intros [c t]. cbn [fst snd].
  set (R := fun d : wdatabase => here d /\ exists r, defs !! key_of c (msSchemaPath st) (msTableName st) = Some r /\ load_row (msTableName st) r = Ok t).
  apply (triple_bind _ _ _ _ (fun required d => R d /\ requiredColumns (constraints t) = Ok required)).
  - apply triple_pure; [by intros d [? _]|done].
  - intros required. apply triple_ret. intros d [([Hd Hdefs] & r & Hr & Hl) Hreq]. split; [done|]. split; [done|]. cbn.
    intros c' [= <-]. exists (constraints t). cbn. split; [|done]. rewrite <- Hdefs in Hr |- *. by apply (load_row_known _ _ _ d _ Hl Hr).
Qed.
Lemma write_triple op c st b : resolved defs st -> msCatalog st = Some c ->
  triple here here (write float_int64 op c st b) (fun _ => here).
Proof using.
  intros Hst Hc. destruct (Hst c Hc) as (cs & Hk & Hreq). destruct op; cbn [write].
  - apply (triple_bind _ _ _ _ (fun _ => here)); [|intros; by apply triple_ret].
    eapply exact_keeps; [intros t; apply rowsAppend_exact| |exact Hk|exact Hreq]. intros t n t' E. by eapply append_complete.
  - eapply exact_keeps; [intros t; apply rowsUpdate_exact| |exact Hk|exact Hreq]. intros t n t' E. by eapply update_complete.
  - eapply exact_keeps; [intros t; apply rowsDelete_exact| |exact Hk|exact Hreq]. intros t n t' [= E] Ht.
    change t' with (n, t').2. rewrite <- E. by apply delete_complete.
Qed.
Lemma Process_triple op order st b : resolved defs st ->
  triple here here (Process float_int64 op order st b) (fun nst d => here d /\ resolved defs nst.2).
Proof using.
  intros Hst. unfold Process. apply (triple_bind _ _ _ _ _ _ (resolveCatalog_triple order st Hst)). intros [c st'] w (Hw & Hc & Hr). cbn in Hc, Hr.
  assert (triple here here (n ← write float_int64 op c st' b; mret (n, counted st' n)) (fun nst d => here d /\ resolved defs nst.2)) as Ht.
  { apply (triple_bind _ _ _ _ (fun _ => here)); [by apply write_triple|]. intros n. by apply triple_ret. }
  exact (Ht w Hw).
Qed.
End statement_runs.

(** ** Interleaved requests

    The workers of a database answer DDL requests and run DML statements, each
    statement a stream of batches; SQL statements fail at will. *)

Inductive ddl :=
| CreateSchema (c : string) (p : path) (onConflict : onConflictAction) (comment : option string)
| DropSchema (c : string) (p : path) (ignoreNotFound cascade : bool)
| CreateTable_ (c : string) (req : TableCreateRequest)
| DropTable (c : string) (p : path) (name : string) (ignoreNotFound : bool)
| Migrate (c : string).
Definition run_ddl (q : ddl) : M wconn () :=
  match q with
  | CreateSchema c p oc cm => writableSchemaCreate c p oc cm
  | DropSchema c p i b => writableSchemaDrop c p i b
  | CreateTable_ c req => writableTableCreate c req
  | DropTable c p n i => writableTableDrop c p n i
  | Migrate c => migrateLegacyConstraints c
  end.

Record world := { wdb : wdatabase; streams : gmap nat writableMutateState }.
Definition on (w : world) (fs : list (option string)) : wconn := {| tables := wdb w; faults := fs |}.

(** No statement that has found its table sees its definition change. *)
Definition undisturbed (w : world) (d' : wdatabase) : Prop :=
  forall i st c, streams w !! i = Some st -> msCatalog st = Some c ->
    let k := key_of c (msSchemaPath st) (msTableName st) in wc_table d' !! k = wc_table (wdb w) !! k.

Inductive step : world -> world -> Prop :=
| step_ddl w q fs : undisturbed w (tables (run_ddl q (on w fs)).2) ->
    step w {| wdb := tables (run_ddl q (on w fs)).2; streams := streams w |}
| step_open w i schemaPath tableName :
    step w {| wdb := wdb w; streams := <[i := NewState schemaPath tableName]> (streams w) |}
| step_batch w i st op order b fs n st' c : streams w !! i = Some st ->
    Process float_int64 op order st b (on w fs) = (Ok (n, st'), c) ->
    step w {| wdb := tables c; streams := <[i := st']> (streams w) |}
| step_failed w i st op order b fs e c : streams w !! i = Some st ->
    Process float_int64 op order st b (on w fs) = (Err e, c) ->
    step w {| wdb := tables c; streams := delete i (streams w) |}.

Definition good (w : world) : Prop := sound (wdb w) /\ forall i st, streams w !! i = Some st -> resolved (wc_table (wdb w)) st.

Lemma run_ddl_keeps q : keeps (run_ddl q).
Proof using.
  destruct q; [apply schemaCreate_keeps|apply schemaDrop_handler_keeps|apply tableCreate_keeps|apply tableDrop_handler_keeps|
               apply migrateLegacyConstraints_keeps].
Qed.
Lemma ran_sound q c : sound (tables c) -> sound (tables (run_ddl q c).2).
Proof using. intros Hc. pose proof (run_ddl_keeps q c Hc) as Hk. by destruct (run_ddl q c) as [[?|?] ?]. Qed.
Lemma known_same defs defs' k : defs' !! k = defs !! k -> known defs' k = known defs k.
Proof using. unfold known. by intros ->. Qed.

Lemma step_good w w' : good w -> step w w' -> good w'.
Proof using.
  intros [Hd Hs] Hstep. destruct Hstep as [w q fs Hu|w i s n|w i st op order b fs n st' c Hi E|w i st op order b fs e c Hi E].
  - split; [by apply ran_sound|]. cbn. intros i st Hi c Hc. destruct (Hs i st Hi c Hc) as (cs & Hk & Hreq). exists cs.
    split; [|done]. rewrite <- Hk. apply known_same. by apply (Hu i st c).
  - split; [done|]. cbn. intros j st [[<- <-]|[_ Hj]]%lookup_insert_Some; [done|by eapply Hs].
  - pose proof (Process_triple _ op order st b (Hs i st Hi) (on w fs) (conj Hd eq_refl)) as Ht. rewrite E in Ht.
    destruct Ht as [[Hd' Hdefs] Hst']. cbn in Hst'. split; [done|]. cbn in *. rewrite Hdefs.
    intros j sj [[<- <-]|[_ Hj]]%lookup_insert_Some; [done|by eapply Hs].
  - pose proof (Process_triple _ op order st b (Hs i st Hi) (on w fs) (conj Hd eq_refl)) as Ht. rewrite E in Ht.
    destruct Ht as [Hd' Hdefs]. split; [done|]. cbn in *. rewrite Hdefs. intros j sj [_ Hj]%lookup_delete_Some. by eapply Hs.
Qed.
Lemma steps_good w w' : rtc step w w' -> good w -> good w'.
Proof using. induction 1 as [|w w1 w2 Hs _ IH]; [done|]. intros Hg. apply IH. by eapply step_good. Qed.

End invariant.
