(* ===== verification/WritableExamples.v ===== *)
(** * WritableExamples: writable catalogs run on concrete data

    A gob that writes numbers, and runs of the writable catalog on it: the
    witnesses of its theorems, and what goes wrong where the code does not do
    what it says. *)

From S2P Require Import Prelude Bytes Strings Unicode Strconv ArrowTypes ArrowData Arguments Storage Sqlite CatalogContents.
From S2P Require Import SqlTokens SqlGrammar Columns SqlChecks ConstraintRecords CreateTable ColumnMetadata GeneratedColumns TableMetadata TableInfo.
From S2P Require Import CatalogTables WritableStore WritableRows WritableBatch WritableCatalog WritableInvariant.

(** ** A gob *)

Module Gob.
Import RecordExample.
#[export] Instance float64_countable : Countable float64 :=
  inj_countable' (fun f => match f with Finite m e => inl (m, e) | Inf n => inr (Some n) | NaN => inr None end)
    (fun s => match s with inl (m, e) => Finite m e | inr (Some n) => Inf n | inr None => NaN end)
    ltac:(by intros []).
Definition plain (v : Value) : Z + (float64 + (string + (bool + bytes))) :=
  match v with
  | VInt64 z => inl z | VFloat64 f => inr (inl f) | VString s => inr (inr (inl s))
  | VBool b => inr (inr (inr (inl b))) | VBytes b => inr (inr (inr (inr b)))
  end.
Definition unplain (s : Z + (float64 + (string + (bool + bytes)))) : Value :=
  match s with
  | inl z => VInt64 z | inr (inl f) => VFloat64 f | inr (inr (inl s)) => VString s
  | inr (inr (inr (inl b))) => VBool b | inr (inr (inr (inr b))) => VBytes b
  end.
#[export] Instance Value_countable : Countable Value := inj_countable' plain unplain ltac:(by intros []).

Definition number {A} `{Countable A} (a : A) : bytes := bits (encode a).
Definition value {A} `{Countable A} (b : bytes) : result string A :=
  match decode (unbits b) with Some a => Ok a | None => Err "gob: bad data" end.
Lemma value_number {A} `{Countable A} (a : A) : value (number a) = Ok a.
Proof. unfold value, number. by rewrite unbits_bits, decode_encode. Qed.

(** The fields of a definition's metadata besides its constraints. *)
Definition old_key (k : ForeignKeyConstraint) := (fkColumns k, fkTable k, fkReferenced k).
Definition rest (m : writableTableMeta) :=
  ((NotNull m, PrimaryKey m, Unique m), (Check_ m, map old_key (ForeignKey m)), (Defaults m, ColumnComment m)).
Definition write_meta (m : writableTableMeta) : bytes := number (rest m) ++ x02 :: flat_map framed (Constraints m).
Definition read_meta (b : bytes) : result string writableTableMeta :=
  let '(n, cs) := number_of b in
  let? r := value n in
  let '((nn, pk, u), (ck, fk), (df, cc)) := r in
  Ok {| Constraints := frames (length cs) cs; NotNull := nn; PrimaryKey := pk; Unique := u; Check_ := ck;
        ForeignKey := map (fun '(a, b, c) => {| fkColumns := a; fkTable := b; fkReferenced := c |}) fk; Defaults := df; ColumnComment := cc |}.
Lemma read_write_meta m : read_meta (write_meta m) = Ok m.
Proof.
  unfold read_meta, write_meta, number. rewrite number_bits. unfold value. rewrite unbits_bits, decode_encode. cbn.
  rewrite frames_framed by done. destruct m as [cs nn pk u ck fk df cc]. cbn. do 2 f_equal.
  induction fk as [|[a b c] fk IH]; [done|]. cbn. f_equal. exact IH.
Qed.

(** Schemas of BIGINT and VARCHAR columns without metadata. *)
Definition simple_column (c : Column) : option (string * bool * bool) :=
  match c with
  | MkColumn n (PlainType INT64) b [] => Some (n, true, b)
  | MkColumn n (PlainType STRING) b [] => Some (n, false, b)
  | _ => None
  end.
Definition column_of (x : string * bool * bool) : Column :=
  let '(n, i, b) := x in MkColumn n (PlainType (if i then INT64 else STRING)) b [].
Definition put_schema (s : list Column) : result string bytes :=
  match map_opt simple_column s with Some l => Ok (number l) | None => Err "unsupported schema" end.
Definition get_schema (b : bytes) : result string (list Column) := let? l := value b in Ok (map column_of l).
Lemma get_put_schema s b : put_schema s = Ok b -> get_schema b = Ok s.
Proof.
  unfold put_schema, get_schema. destruct (map_opt simple_column s) as [l|] eqn:E; [|done]. intros Eb. apply ok_inj in Eb as <-.
  rewrite value_number. f_equal. revert l E. induction s as [|c s IH]; intros l E; cbn in E; [by injection E as <-|].
  destruct (simple_column c) as [x|] eqn:Ec; [|done]. destruct (map_opt simple_column s) as [k|]; [|done]. injection E as <-.
  cbn. rewrite (IH k eq_refl). f_equal. destruct c as [n [[]| | | |] b0 []]; cbn in Ec; simplify_eq; done.
Qed.

#[export] Instance gob : GobCodec :=
  {| encode_row := fun r => Ok (number r); decode_row := value; encode_meta := write_meta; decode_meta := read_meta;
     encode_default := fun v => match v with DSql s => sb s | _ => [] end; decode_default := fun b => Ok (DSql (bstr b));
     write_schema := put_schema; read_schema := get_schema;
     row_read_back := fun r b E => eq_trans (f_equal value (eq_sym (ok_inj _ _ E))) (value_number r);
     meta_read_back := read_write_meta; schema_read_back := get_put_schema |}.
End Gob.

(** ** A table written and scanned *)

Module Runs.
Ltac by_vm := match goal with |- _ = ?b => vm_cast_no_check (eq_refl b) end.
#[local] Existing Instance AsciiText.ascii_text.
#[local] Existing Instance CodecExample.codec.
#[local] Existing Instance Gob.gob.
Definition no_float (f : float64) : Z := 0%Z.

Definition not_null (column : string) : bytes :=
  match RecordExample.write (DefinitionRow {| def_kind := ConstraintNotNull; column_paths := [[column]]; declared_name := None;
                                              check_expression := None; foreign_key := None |})
  with Ok b => b | Err _ => [] end.
Definition columns (idNullable noteNullable : bool) : bytes :=
  Gob.number [("id", true, idNullable); ("note", false, noteNullable)].
Definition create (name : string) (idNullable noteNullable : bool) (definitions : list bytes) : TableCreateRequest :=
  {| reqSchemaPath := ["main"]; reqName := name; reqColumns := columns idNullable noteNullable; reqOnConflict := "error"; reqDefinitions := definitions |}.
Definition create_things : TableCreateRequest := create "Things" false true [not_null "id"].

Definition batch (ids notes : list cell) : RecordBatch :=
  {| SchemaMetadata := []; NumRows := Z.of_nat (length ids);
     ArrowData.Columns := [({| FieldName := "id"; FieldType := INT64; Nullable := true; Metadata := [] |}, {| ArrType := INT64; Cells := ids |});
                           ({| FieldName := "note"; FieldType := STRING; Nullable := true; Metadata := [] |}, {| ArrType := STRING; Cells := notes |})] |}.
Definition two : RecordBatch := batch [CInt 7; CInt 8] [CStr "x"; CNull].

Definition after_ddl (w : world) (q : ddl) : world := {| wdb := tables (run_ddl q (on w [])).2; streams := streams w |}.
Definition after_batch (w : world) (i : nat) (op : dml) (order : list string) (b : RecordBatch) : world :=
  match streams w !! i with
  | None => w
  | Some ms =>
      match Process no_float op order ms b (on w []) with
      | (Ok (_, ms2), c) => {| wdb := tables c; streams := <[i := ms2]> (streams w) |}
      | (Err _, c) => {| wdb := tables c; streams := delete i (streams w) |}
      end
  end.
Lemma after_ddl_step w q : streams w = ∅ -> step no_float w (after_ddl w q).
Proof. intros Hs. apply step_ddl. intros i ms c. by rewrite Hs, lookup_empty. Qed.
Lemma after_batch_step w i ms op order b : streams w !! i = Some ms -> step no_float w (after_batch w i op order b).
Proof.
  intros Hi. unfold after_batch. rewrite Hi. destruct (Process _ _ _ _ _ _) as [[[n ms2]|e] c] eqn:E.
  - by eapply (step_batch _ w i ms op order b [] n).
  - by eapply (step_failed _ w i ms op order b [] e).
Qed.

Definition w0 : world := {| wdb := no_tables; streams := ∅ |}.
Definition w1 : world := after_ddl w0 (CreateSchema "wc" ["main"] onConflictError None).
Definition w2 : world := after_ddl w1 (CreateTable_ "wc" create_things).
Definition w3 : world := {| wdb := wdb w2; streams := <[0 := NewState "MAIN" "things"]> (streams w2) |}.
Definition w4 : world := after_batch w3 0 Insert ["wc"] two.
(** A NULL id ends the second statement. *)
Definition w5 : world := after_batch w4 0 Insert ["wc"] (batch [CInt 9; CNull] [CStr "y"; CStr "z"]).

Definition scanned_rows (w : world) (c : string) : result string (list row) := (rowsScan c "main" "Things" (on w [])).1.
Definition required_of (w : world) (c : string) : result string (list string) :=
  match (tableLoad c "main" "Things" (on w [])).1 with
  | Ok (Some t) => requiredColumns (constraints t)
  | Ok None => Err "no table"
  | Err e => Err e
  end.
Definition two_rows : list row :=
  [<["__row_id" := Some (VInt64 0)]> (<["note" := Some (VString "x")]> {["id" := Some (VInt64 7)]});
   <["__row_id" := Some (VInt64 1)]> (<["note" := None]> {["id" := Some (VInt64 8)]})].
Example things_created : required_of w5 "wc" = Ok ["id"].
Proof. by_vm. Qed.
Example things_scanned : scanned_rows w4 "wc" = Ok two_rows.
Proof. by_vm. Qed.
Example null_refused : scanned_rows w5 "wc" = Ok two_rows /\ streams w5 !! 0 = None.
Proof. split; by_vm. Qed.

(** ** Witnesses *)

Definition things : writableTable :=
  match (tableLoad "wc" "main" "Things" (on w5 [])).1 with
  | Ok (Some t) => t
  | _ => {| tblName := ""; tblSchema := []; tblComment := ""; constraints := []; defaults := ∅; legacy := None; columnComment := ∅ |}
  end.
Lemma w5_reachable : rtc (step no_float) w0 w5.
Proof.
  eapply rtc_l; [apply (after_ddl_step w0 (CreateSchema "wc" ["main"] onConflictError None)); reflexivity|].
  eapply rtc_l; [apply (after_ddl_step w1 (CreateTable_ "wc" create_things)); reflexivity|].
  eapply rtc_l; [apply (step_open _ w2 0 "MAIN" "things")|].
  eapply rtc_l; [apply (after_batch_step w3 0 (NewState "MAIN" "things") Insert ["wc"] two); reflexivity|].
  apply rtc_once. eapply after_batch_step. instantiate (1 := default (NewState "" "") (streams w4 !! 0)). vm_compute. reflexivity.
Qed.

Definition text (v : Value) : string := "".
Lemma id_carried : carries two (MkColumn "id" (PlainType INT64) false []) {| ArrType := INT64; Cells := [CInt 7; CInt 8] |}.
Proof.
  split.
  - exists [], {| FieldName := "id"; FieldType := INT64; Nullable := true; Metadata := [] |},
      [({| FieldName := "note"; FieldType := STRING; Nullable := true; Metadata := [] |}, {| ArrType := STRING; Cells := [CStr "x"; CNull] |})].
    split; [reflexivity|]. split; [reflexivity|]. constructor; [discriminate|constructor].
  - split; reflexivity.
  - reflexivity.
  - do 2 (constructor; [cbn; unfold int64_range; lia|]). constructor.
Qed.
Lemma inserted_is_scanned_witness : exists c1 scanned c2,
  rowsAppend "wc" "main" "Things" (batchToRows two) ["id"] (on w2 []) = (Ok 0%Z, c1) /\
  rowsScan "wc" "main" "Things" c1 = (Ok scanned, c2) /\
  buildColumnFromValues no_float text (MkColumn "id" (PlainType INT64) false []) scanned =
    Ok {| ArrType := INT64; Cells := [CInt 7; CInt 8] |}.
Proof.
  destruct (inserted_is_scanned no_float text "wc" "main" "Things" two ["id"] (on w2 []) ∅) as (c1 & l & c2 & H1 & H2 & _ & H3).
  - replace (rows_of (tables (on w2 [])) (key_of "wc" "main" "Things")) with (∅ : gmap Z bytes) by (vm_compute; reflexivity).
    apply decoded_empty.
  - split; [vm_compute; split; [discriminate|reflexivity]|]. intros i. rewrite dom_empty_L. set_solver.
  - reflexivity.
  - by_vm.
  - repeat constructor; eexists; reflexivity.
  - exists c1, l, c2. split; [exact H1|]. split; [exact H2|].
    apply (H3 (MkColumn "id" (PlainType INT64) false []) {| ArrType := INT64; Cells := [CInt 7; CInt 8] |} {| ArrType := INT64; Cells := [] |}).
    + exact id_carried.
    + discriminate.
    + reflexivity.
Defined.

Definition no_format (f : float64) (bits : Z) : string := "".
Definition no_sprint (v : any) : string := "".
Definition served : TableInfo :=
  match tableInfoFromWritable no_format no_sprint things ["Main"] with Ok i => i | Err _ => with_columns (TableInfo.Build_TableInfo [] None "" [] "" ∅ None [] [] [] [] [] ∅ false None None None None None None None None [] None None) None end.
Lemma served_records_fit_witness : requiredColumns (TableInfo.Constraints served) = Ok ["id"].
Proof.
  destruct (served_records_fit no_format no_sprint things ["Main"] served) as (_ & _ & _ & E & _).
  - by_vm.
  - apply (bool_decide_unpack _). vm_compute. exact I.
  - rewrite E. by_vm.
Defined.

(** ** Where the code does not do what it says *)

(** A statement that has found its table holds later batches to the columns that
    were required then: a DROP and CREATE in between leave a NULL in a column that
    is now NOT NULL. *)
Definition w6 : world := after_ddl w4 (DropTable "wc" ["main"] "Things" false).
Definition w7 : world := after_ddl w6 (CreateTable_ "wc" (create "Things" true false [not_null "note"])).
Definition w8 : world := after_batch w7 0 Insert ["wc"] (batch [CInt 1] [CNull]).
Example stale_required : required_of w8 "wc" = Ok ["note"] /\
  scanned_rows w8 "wc" = Ok [<["__row_id" := Some (VInt64 0)]> (<["note" := None]> {["id" := Some (VInt64 1)]})].
Proof. split; by_vm. Qed.
(** Without the CREATE the rows have no table; the next one of the name has them. *)
Definition w9 : world := after_ddl (after_batch w6 0 Insert ["wc"] two) (CreateTable_ "wc" (create "Things" true true [])).
Example rows_before_table : scanned_rows w9 "wc" = Ok two_rows.
Proof. by_vm. Qed.

(** Of two writable catalogs with a table of one name, a statement writes to the
    one that the map of catalogs happens to give first. *)
Definition both : world :=
  foldl after_ddl w0 [CreateSchema "a" ["main"] onConflictError None; CreateSchema "b" ["main"] onConflictError None;
                      CreateTable_ "a" create_things; CreateTable_ "b" create_things].
Definition wrote (order : list string) : world :=
  after_batch {| wdb := wdb both; streams := {[0 := NewState "main" "Things"]} |} 0 Insert order two.
Example first_catalog_written :
  (scanned_rows (wrote ["a"; "b"]) "a", scanned_rows (wrote ["a"; "b"]) "b") = (Ok two_rows, Ok []) /\
  (scanned_rows (wrote ["b"; "a"]) "a", scanned_rows (wrote ["b"; "a"]) "b") = (Ok [], Ok two_rows).
Proof. split; by_vm. Qed.

(** CREATE TABLE with a NOT NULL definition does not reach the handler that
    records it. *)
Lemma not_null_create_refused c extras req w : reqDefinitions req <> [] ->
  CatalogTableCreate c extras req w = (Err "catalog_table_create: canonical constraint enforcement", w).
Proof. intros Hd. unfold CatalogTableCreate. rewrite bool_decide_true; [done|]. destruct (reqDefinitions req); [done|cbn; lia]. Qed.

(** The schema path of a table's scan and write functions is a []string in a
    column of strings: it is sent as NULL, so the functions look in schema "". *)
Definition function_arguments (p : path) (name : string) : list ScanArg :=
  [{| ScanValue := Some (AOther (schemaPathDisplay p)); ScanType := Some STRING |};
   {| ScanValue := Some (AString name); ScanType := Some STRING |}].
Lemma schema_argument_lost p name :
  map_result (fun a => appendValue (default NULL (ScanType a)) (ScanValue a)) (function_arguments p name) = Ok [CNull; CStr name].
Proof. reflexivity. Qed.

(** A column of a type that INSERT does not read is stored as NULL, and one that a
    scan does not emit makes every scan fail. *)
Lemma dates_stored_as_null l i : value_at {| ArrType := DATE32; Cells := l |} i = None.
Proof. unfold value_at. cbn. destruct (l !! i) as [[]|]; done. Qed.
Lemma smallint_never_scanned n b md rows : buildColumnFromValues no_float text (MkColumn n (PlainType INT16) b md) rows
  = Err "buildColumnFromValues: unsupported type".
Proof. reflexivity. Qed.
End Runs.
