(* ===== verification/Bind.v ===== *)
(** * Bind: binding a function (vgi/protocol.go, vgi/schema_utils.go)

    A bind request names a function and carries its arguments, the caller's
    settings and the sealed attach and transaction values. [parseBindRequest]
    opens and decodes it, [resolveFunction] finds the implementation in the
    catalog of the attach, the checks of its declaration run, and [OnBind] of
    the function answers. *)

From S2P Require Import CatalogContents CatalogRoute Envelope Overload.
From S2P Require Import Prelude Bytes Strings Unicode ArrowTypes ArrowData Arguments ArgConstraints BindResult.

(** ** Settings and secrets *)

(** A Go value read of an Arrow cell. In a map, of several entries of one key
    the last is kept. *)
Inductive value :=
| VNil | VInt (z : Z) | VUint32 (z : Z) | VUint64 (z : Z) | VFloat (f : float64)
| VString (s : string) | VBool (b : bool) | VBytes (b : bytes) | VMap (m : list (string * value)).

Fixpoint extractScalarValue (t : DataType) (c : cell) : result fault value :=
  match t, c with
  | _, CNull => Ok VNil
  | (INT64 | INT32 | INT16 | INT8), CInt z => Ok (VInt z)
  | UINT64, CInt z => Ok (VUint64 z)
  | UINT32, CInt z => Ok (VUint32 z)
  | (FLOAT64 | FLOAT32), CFloat f => Ok (VFloat f)
  | STRING, CStr s => Ok (VString s)
  | BOOL, CBool b => Ok (VBool b)
  | BINARY, CBin b => Ok (VBytes b)
  | DICTIONARY _ STRING _, CStr s => Ok (VString s)
  | DICTIONARY _ _ _, _ => Err (Panicked "interface conversion")
  | STRUCT fs, CList cs =>
      let? m :=
        (fix children (fs : list (string * (DataType * bool))) (cs : list cell) : result fault (list (string * value)) :=
           match fs, cs with
           | (n, (t, _)) :: fs, c :: cs =>
               if is_null c then children fs cs else
               let? v := extractScalarValue t c in
               let? m := children fs cs in Ok ((n, v) :: m)
           | _, _ => Ok []
           end) fs cs in
      Ok (VMap m)
  | _, _ => Ok VNil
  end.

(** The columns whose first cell is not NULL. *)
Definition first_row (b : RecordBatch) : list (string * (DataType * cell)) :=
  omap (fun fa : Field * Array =>
          match Cells (snd fa) !! 0 with
          | Some c => if is_null c then None else Some (FieldName (fst fa), (ArrType (snd fa), c))
          | None => None
          end) (Columns b).
Definition BatchToSettingsMap (b : RecordBatch) : result fault (list (string * value)) :=
  if (NumRows b =? 0)%Z then Ok [] else
  map_result (fun c : string * (DataType * cell) =>
                let? v := extractScalarValue (fst (snd c)) (snd (snd c)) in Ok (fst c, v)) (first_row b).
(** Secrets are structs; other columns are left out. *)
Definition secret_column (c : string * (DataType * cell)) : result fault (option (string * value)) :=
  match fst (snd c) with
  | STRUCT _ => let? v := extractScalarValue (fst (snd c)) (snd (snd c)) in Ok (Some (fst c, v))
  | _ => Ok None
  end.
Definition BatchToSecretsMap (b : RecordBatch) : result fault (list (string * value)) :=
  if (NumRows b =? 0)%Z then Ok [] else
  let? l := map_result secret_column (first_row b) in Ok (omap id l).

(** ** Requests and parameters *)

Record Schema := { SchemaFields : list Field; SchemaMetadata : list (string * string); BigEndian : bool }.
Definition field_types (s : Schema) : list DataType := map FieldType (SchemaFields s).

Record CopyFromContextWire := { FromFormat : string; FromFilePath : string; FromExpectedSchema : bytes }.
Record CopyToContext := { Format : string; FilePath : string }.
Record BindRequestWire := {
  FunctionName : string;
  RequestArguments : bytes;
  FunctionType : string;
  RequestInputSchema : option bytes;
  RequestSettings : option bytes;
  RequestSecrets : option bytes;
  RequestAttach : option bytes;
  RequestTransaction : option bytes;
  ResolvedSecretsProvided : bool;
  AtUnit : option string;
  AtValue : option string;
  RequestCopyFrom : option CopyFromContextWire;
  RequestCopyTo : option CopyToContext;
  RequestSchemaPath : option (list string);
  RequestArgumentNames : option (list (option string))
}.

Record CopyFromContext := { CopyFormat : string; CopyFilePath : string; ExpectedSchema : option Schema }.
(** What a function is bound with; [St] is the storage of the worker. *)
Record BindParams {St : Type} := {
  ParamName : string;
  ParamSchemaPath : list string;
  ArgumentNames : list (option string);
  ParamType : string;
  ParamArgs : Arguments;
  InputSchema : option Schema;
  Settings : list (string * value);
  Secrets : list (string * value);
  AttachOpaqueData : option bytes;
  TransactionOpaqueData : option bytes;
  SecretsProvided : bool;
  At : option string * option string;
  CopyFrom : option CopyFromContext;
  CopyTo : option CopyToContext;
  Auth : option AuthContext;
  txBackend : option St
}.
Arguments BindParams : clear implicits.

Inductive bind_fault :=
| BindFailed (message : string)
| BindPanic (message : string)
| BindOpaque (e : opaque_error)
| BindUnresolved (e : resolve_error)
| BindRefused (e : bind_error).
Definition of_fault (f : fault) : bind_fault := match f with Failed m => BindFailed m | Panicked m => BindPanic m end.
Definition lift_err {E E' A} (inj : E -> E') (r : result E A) : result E' A := match r with Ok a => Ok a | Err e => Err (inj e) end.

(** ** A request in a continuation token

    gob refuses nil elements, so the names ride beside the request, each with
    whether it is there. *)
Record nullableStringWire := { Value : string; Valid : bool }.
Record bindRequestGobWire := { Request : BindRequestWire; ArgumentNamesPresent : bool; GobArgumentNames : list nullableStringWire }.
Definition with_names (r : BindRequestWire) (names : option (list (option string))) : BindRequestWire :=
  {| FunctionName := FunctionName r; RequestArguments := RequestArguments r; FunctionType := FunctionType r;
     RequestInputSchema := RequestInputSchema r; RequestSettings := RequestSettings r; RequestSecrets := RequestSecrets r;
     RequestAttach := RequestAttach r; RequestTransaction := RequestTransaction r; ResolvedSecretsProvided := ResolvedSecretsProvided r;
     AtUnit := AtUnit r; AtValue := AtValue r; RequestCopyFrom := RequestCopyFrom r; RequestCopyTo := RequestCopyTo r;
     RequestSchemaPath := RequestSchemaPath r; RequestArgumentNames := names |}.
Definition GobEncode (r : BindRequestWire) : bindRequestGobWire :=
  {| Request := with_names r None; ArgumentNamesPresent := match RequestArgumentNames r with Some _ => true | None => false end;
     GobArgumentNames := map (fun n => match n with Some v => {| Value := v; Valid := true |} | None => {| Value := ""; Valid := false |} end)
                           (default [] (RequestArgumentNames r)) |}.
Definition GobDecode (w : bindRequestGobWire) : BindRequestWire :=
  if ArgumentNamesPresent w then with_names (Request w) (Some (map (fun n => if Valid n then Some (Value n) else None) (GobArgumentNames w)))
  else Request w.
Lemma GobDecode_Encode r : GobDecode (GobEncode r) = r.
Proof.
  destruct r as [? ? ? ? ? ? ? ? ? ? ? ? ? ? [names|]]; [|done]. unfold GobDecode, GobEncode, with_names. cbn. do 2 f_equal.
  induction names as [|[n|] names IH]; cbn; by rewrite ?IH.
Qed.

(** What [fn.(type)] finds first. *)
Inductive FunctionShape := ScalarFunction | TableFunction | TableInOutFunction | TableBufferingFunction.
#[global] Instance FunctionShape_dec : EqDecision FunctionShape.
Proof. solve_decision. Defined.

Section bind.
Context `{Unicode} `{Aead} {W P X St F : Type}.
(** Arrow IPC. *)
Context (read_ipc : bytes -> result string (list ArrowData.Field * option (list column))).
Context (DeserializeRecordBatch : bytes -> result string RecordBatch).
Context (DeserializeSchema : bytes -> result string Schema) (SerializeSchema : Schema -> result string bytes).
(** Regular expressions, float literals and the functions of the worker. *)
Context (MatchString : string -> string -> option bool) (ParseFloat : string -> option float64).
Context (shape : F -> option FunctionShape) (ArgumentSpecs : F -> list ArgSpec).
Context (OnBind : F -> BindParams St -> result string (BindResponse Schema)).

Record Worker := { served : RouteWorker W P X; functions : Registry F; functionStorage : option St }.

(** *** Parsing *)

(** Settings or secrets that do not decode are left out; a value of an
    unexpected kind panics. *)
Definition lenient {A} (read : RecordBatch -> result fault (list A)) (data : option bytes) : result fault (list A) :=
  match data with
  | None => Ok []
  | Some d => match DeserializeRecordBatch d with Ok b => read b | Err _ => Ok [] end
  end.
Definition optional {A B} (f : A -> result string B) (o : option A) : result string (option B) :=
  match o with None => Ok None | Some a => let? b := f a in Ok (Some b) end.
Definition copy_from (c : CopyFromContextWire) : result string CopyFromContext :=
  let? schema := match FromExpectedSchema c with [] => Ok None | b => let? s := DeserializeSchema b in Ok (Some s) end in
  Ok {| CopyFormat := FromFormat c; CopyFilePath := FromFilePath c; ExpectedSchema := schema |}.

(** On a live call the attach is opened down to the catalog's bytes and the
    transaction under that attach; a rehydrated one ([cc] nil) keeps both. *)
Definition open_attach (w : Worker) (cc : option CallContext) (attach : option bytes) : result opaque_error (option bytes) :=
  match attach, cc with
  | Some a, Some _ => let? p := openAttach (CatalogRoute.seal (served w)) a cc in Ok (Some p)
  | _, _ => Ok attach
  end.
Definition open_transaction (w : Worker) (cc : option CallContext) (tx attach : option bytes) : result opaque_error (option bytes) :=
  match tx, cc with
  | Some t, Some _ => let? p := openTransaction (CatalogRoute.seal (served w)) t (default [] attach) cc in Ok (Some p)
  | _, _ => Ok tx
  end.

Definition parseBindRequest (w : Worker) (req : BindRequestWire) (cc : option CallContext) : result bind_fault (BindParams St) :=
  let? args := lift_err of_fault (ParseArguments read_ipc (RequestArguments req)) in
  let? input := lift_err BindFailed (optional DeserializeSchema (RequestInputSchema req)) in
  let? settings := lift_err of_fault (lenient BatchToSettingsMap (RequestSettings req)) in
  let? secrets := lift_err of_fault (lenient BatchToSecretsMap (RequestSecrets req)) in
  let? attach := lift_err BindOpaque (open_attach w cc (RequestAttach req)) in
  let? tx := lift_err BindOpaque (open_transaction w cc (RequestTransaction req) (RequestAttach req)) in
  let? from := lift_err BindFailed (optional copy_from (RequestCopyFrom req)) in
  Ok {| ParamName := FunctionName req; ParamSchemaPath := default [] (RequestSchemaPath req);
        ArgumentNames := default [] (RequestArgumentNames req); ParamType := normalizeFunctionType (FunctionType req);
        ParamArgs := args; InputSchema := input; Settings := settings; Secrets := secrets;
        AttachOpaqueData := attach; TransactionOpaqueData := tx; SecretsProvided := ResolvedSecretsProvided req;
        At := (AtUnit req, AtValue req); CopyFrom := from; CopyTo := RequestCopyTo req; Auth := None; txBackend := None |}.

(** *** Resolution *)

(** A value of no function kind declares nothing. *)
Definition getArgSpecs (f : F) : list ArgSpec := match shape f with Some _ => ArgumentSpecs f | None => [] end.

Definition lookupFor (w : Worker) (req : BindRequestWire) (p : BindParams St) : functionLookup :=
  {| Name := FunctionName req; Type_ := normalizeFunctionType (FunctionType req); Schema_ := schemaPathKey (ParamSchemaPath p);
     Catalog := catalogOfAttach (served w) (default [] (AttachOpaqueData p));
     Args := map (option_map ArrType) (Positional (ParamArgs p)); Overload.InputSchema := field_types <$> InputSchema p |}.

Definition with_caller (w : Worker) (cc : option CallContext) (p : BindParams St) : BindParams St :=
  {| ParamName := ParamName p; ParamSchemaPath := ParamSchemaPath p; ArgumentNames := ArgumentNames p; ParamType := ParamType p;
     ParamArgs := ParamArgs p; InputSchema := InputSchema p; Settings := Settings p; Secrets := Secrets p;
     AttachOpaqueData := AttachOpaqueData p; TransactionOpaqueData := TransactionOpaqueData p; SecretsProvided := SecretsProvided p;
     At := At p; CopyFrom := CopyFrom p; CopyTo := CopyTo p; Auth := callAuth cc; txBackend := functionStorage w |}.
Definition with_args (a : Arguments) (p : BindParams St) : BindParams St :=
  {| ParamName := ParamName p; ParamSchemaPath := ParamSchemaPath p; ArgumentNames := ArgumentNames p; ParamType := ParamType p;
     ParamArgs := a; InputSchema := InputSchema p; Settings := Settings p; Secrets := Secrets p;
     AttachOpaqueData := AttachOpaqueData p; TransactionOpaqueData := TransactionOpaqueData p; SecretsProvided := SecretsProvided p;
     At := At p; CopyFrom := CopyFrom p; CopyTo := CopyTo p; Auth := Auth p; txBackend := txBackend p |}.

(** The bound function with the parameters of the caller: what binds and
    projections share. *)
Definition resolved (w : Worker) (cc : option CallContext) (req : BindRequestWire) : result bind_fault (F * BindParams St) :=
  let? p := parseBindRequest w req cc in
  let p := with_caller w cc p in
  let? f := lift_err BindUnresolved (resolveFunction getArgSpecs (functions w) (lookupFor w req p)) in
  Ok (f, p).

(** *** The response *)

Definition secret_request (repeatability : string) (l : list SecretLookup) : BindResponseWire :=
  {| WireSchema := []; WireOpaqueData := None; LookupSecretTypes := map SecretType l; LookupScopes := map Scope l;
     LookupNames := map SecretName l; WireProfiles := []; WireRepeatability := repeatability |}.
(** A request for secrets is answered without a schema. *)
Definition bind_answer (r : BindResponse Schema) : result string BindResponseWire :=
  let? repeatability := wireBindRepeatability (Repeatability r) in
  match SecretScopeRequest r with
  | Some l => Ok (secret_request repeatability l)
  | None =>
      let? _ := validateProjectionProfiles (ProjectionExpressionProfiles r) in
      let? schema := SerializeSchema (OutputSchema r) in
      Ok {| WireSchema := schema; WireOpaqueData := OpaqueData r; LookupSecretTypes := []; LookupScopes := []; LookupNames := [];
            WireProfiles := ProjectionExpressionProfiles r; WireRepeatability := repeatability |}
  end.

(** A plain table function takes no input rows, a table-in-out function does. *)
Definition shape_fits (s : FunctionShape) (input : option Schema) : bool :=
  match s, input with
  | TableFunction, Some _ | TableInOutFunction, None => false
  | _, _ => true
  end.

Definition handleBind (w : Worker) (cc : CallContext) (req : BindRequestWire) : result bind_fault BindResponseWire :=
  let? (f, p) := resolved w (Some cc) req in
  let? args := lift_err BindRefused (bindChecks MatchString ParseFloat (getArgSpecs f) (ParamArgs p) (field_types <$> InputSchema p)) in
  let p := with_args args p in
  match shape f with
  | None => Err (BindFailed "unknown function type")
  | Some s =>
      check! shape_fits s (InputSchema p) else BindFailed "function called in the wrong shape" in
      let? r := lift_err BindFailed (OnBind f p) in
      lift_err BindFailed (bind_answer r)
  end.

(** ** A bind that succeeds *)

(** The function it ran and what the function was given. *)
Lemma handleBind_ok w cc req resp : handleBind w cc req = Ok resp ->
  exists f p args s r, resolved w (Some cc) req = Ok (f, p) /\ shape f = Some s /\ shape_fits s (InputSchema p) = true /\
    bindChecks MatchString ParseFloat (ArgumentSpecs f) (ParamArgs p) (field_types <$> InputSchema p) = Ok args /\
    OnBind f (with_args args p) = Ok r /\ bind_answer r = Ok resp.
Proof using.
  unfold handleBind. intros E. destruct (resolved w (Some cc) req) as [[f p]|]; [|done].
  unfold getArgSpecs in E. destruct (shape f) as [s|] eqn:Es; [|by destruct (lift_err _ _)].
  destruct (bindChecks _ _ _ _ _) as [args|] eqn:Eb; [|done]. cbn in E. destruct (shape_fits s (InputSchema p)) eqn:Ef; [|done].
  destruct (OnBind f (with_args args p)) as [r|] eqn:Er; [|done]. cbn in E. destruct (bind_answer r) as [a|] eqn:Ea; [|done].
  injection E as <-. by exists f, p, args, s, r.
Qed.
Lemma resolved_ok w cc req f p : resolved w (Some cc) req = Ok (f, p) ->
  resolveFunction getArgSpecs (functions w) (lookupFor w req p) = Ok f /\ Auth p = cc_Auth cc /\
  ParamSchemaPath p = default [] (RequestSchemaPath req) /\
  open_attach w (Some cc) (RequestAttach req) = Ok (AttachOpaqueData p) /\
  open_transaction w (Some cc) (RequestTransaction req) (RequestAttach req) = Ok (TransactionOpaqueData p).
Proof using.
  unfold resolved. intros E. destruct (parseBindRequest w req (Some cc)) as [p0|] eqn:Ep; [|done].
  destruct (resolveFunction _ _ _) as [g|] eqn:Er; [|done]. injection E as -> <-. split; [done|]. split; [done|]. cbn [with_caller ParamSchemaPath AttachOpaqueData TransactionOpaqueData].
  unfold parseBindRequest in Ep. repeat (match type of Ep with (match ?c with _ => _ end) = _ => destruct c eqn:?; [|done] end).
  injection Ep as <-. cbn. repeat match goal with Hl : lift_err BindOpaque ?r = Ok _ |- _ => destruct r eqn:?; [|done]; injection Hl as -> end. done.
Qed.

(** C12: a bind that succeeds was made by the identity its attach was minted for.
    The function that ran is registered under the requested name, homed in the
    catalog of that attach and in the schema the request names; it saw exactly
    the catalog's own bytes and the caller; every constant it reads satisfies its
    declaration; and a table-in-out function had input rows, a plain table
    function none. *)
Theorem bind_by_its_owner (w : Worker) (c cc : CallContext) (req : BindRequestWire) (cat u nonce env : bytes) (resp : BindResponseWire) :
  sealOpaqueData (CatalogRoute.seal (served w)) = true -> length u = 16 -> domain_ok (cc_Auth c) -> domain_ok (cc_Auth cc) ->
  aead_separates (normalizeCryptoKey (httpSigningKey (CatalogRoute.seal (served w)))) [attachAAD (cc_Auth c); attachAAD (cc_Auth cc)] ->
  mintAttach (CatalogRoute.seal (served w)) cat (Some c) (Some u) (Some nonce) = Ok env ->
  RequestAttach req = Some env -> handleBind w cc req = Ok resp ->
  identity (cc_Auth c) = identity (cc_Auth cc) /\
  exists kind i f p s r,
    reg (functions w) kind (FunctionName req) !! i = Some f /\
    (let home := originOf (functions w) kind (FunctionName req) i in
     let key := ToLower (schemaPathKey (default [] (RequestSchemaPath req))) in
     (catalogOfAttach (served w) cat <> "" -> catalog home = catalogOfAttach (served w) cat) /\
     (key <> "" -> schema home = key)) /\
    AttachOpaqueData p = Some cat /\ Auth p = cc_Auth cc /\
    Forall (fun spec => IsConst spec = true -> reads_satisfy MatchString (ParamArgs p) spec) (ArgumentSpecs f) /\
    shape f = Some s /\ shape_fits s (InputSchema p) = true /\ OnBind f p = Ok r /\ bind_answer r = Ok resp.
Proof using.
  intros Hs Hu Hd Hd' Hsep Hm Hreq E. apply handleBind_ok in E as (f & p & args & s & r & Hr & Hsh & Hf & Hb & Ho & Ha).
  apply resolved_ok in Hr as (Hres & Hauth & Hpath & Hatt & _). rewrite Hreq in Hatt. cbn [open_attach] in Hatt.
  rewrite (openAttach_identity _ cat c (Some cc) u nonce env Hs Hu Hd Hd' Hsep Hm) in Hatt. destruct (decide _) as [Hi|]; [|done].
  injection Hatt as Hatt. split; [exact Hi|]. apply resolveFunction_home in Hres as (kind & i & Hreg & [Hc Hsc] & _).
  exists kind, i, f, (with_args args p), s, r. cbn in Hreg, Hc, Hsc. rewrite <- Hatt in Hc. rewrite Hpath in Hsc. split_and!; try done.
  - split; [intros Hne|intros Hne]; [by destruct Hc|by destruct Hsc].
  - cbn. apply Forall_forall. intros spec Hspec Hconst. by eapply bindChecks_reads.
Qed.
End bind.

Module BindExample.
#[local] Existing Instance AsciiText.ascii_text.
#[local] Existing Instance DigestAead.digest_aead.
Import EnvelopeExamples.

(** A worker of one table function [f] with a percentage for its argument, in
    the schema main of the catalog cat. *)
Definition specs_of (f : nat) : list ArgSpec := [ranged 0 "int64" (Some (Finite 0 0)) (Some (Finite 100 0)) []].
Definition functions_of_cat : Registry nat :=
  {| catalogName := "cat"; reg := fun k n => if bool_decide (k = kindTable /\ n = "f") then [7] else [];
     funcOrigins := fun k n => if bool_decide (k = kindTable /\ n = "f") then [{| catalog := "cat"; schema := "main"; unlisted := false |}] else [] |}.
Definition routes_of_cat : RouteWorker nat string nat :=
  {| CatalogRoute.seal := EnvelopeExamples.worker; CatalogRoute.catalogName := "cat"; catalogAliases := ∅; catalogAliasInfos := ∅;
     extraCatalogs := ∅; routes := ∅; routesPrepared := true |}.
Definition bind_worker : Worker (W := nat) (P := string) (X := nat) (St := unit) :=
  {| served := routes_of_cat; functions := functions_of_cat; functionStorage := None |}.
Definition bind_request (n : string) : BindRequestWire :=
  {| FunctionName := n; RequestArguments := [x01]; FunctionType := "TABLE"; RequestInputSchema := None; RequestSettings := None;
     RequestSecrets := None; RequestAttach := Some minted; RequestTransaction := None; ResolvedSecretsProvided := false;
     AtUnit := None; AtValue := None; RequestCopyFrom := None; RequestCopyTo := None; RequestSchemaPath := Some ["Main"];
     RequestArgumentNames := None |}.
Definition no_batch (b : bytes) : result string RecordBatch := Err "no batch".
Definition no_schema (b : bytes) : result string Schema := Err "no schema".
Definition schema_bytes (s : Schema) : result string bytes := Ok (flat_map (fun f => sb (FieldName f)) (SchemaFields s)).
Definition table_shape (f : nat) : option FunctionShape := Some TableFunction.
Definition number_schema : Schema :=
  {| SchemaFields := [{| FieldName := "n"; FieldType := INT64; Nullable := false; Metadata := [] |}]; SchemaMetadata := []; BigEndian := false |}.
Definition on_bind (f : nat) (p : BindParams unit) : result string (BindResponse Schema) :=
  Ok {| Repeatability := ""; ProjectionExpressionProfiles := []; OutputSchema := number_schema; OpaqueData := AttachOpaqueData p;
        SecretScopeRequest := None |}.
Notation bind n := (handleBind (sends (engine_args [ints n] [])) no_batch no_schema schema_bytes no_regexp no_floats table_shape specs_of on_bind bind_worker).
Definition answer : BindResponseWire :=
  {| WireSchema := sb "n"; WireOpaqueData := Some (sb "cat"); LookupSecretTypes := []; LookupScopes := []; LookupNames := [];
     WireProfiles := []; WireRepeatability := "UNKNOWN" |}.

(** The owner binds; another caller, another schema or a value out of range is
    refused. *)
Lemma bind_by_its_owner_witness :
  bind 42 (ctx (Some alice)) (bind_request "f") = Ok answer /\
  (exists kind i f, reg functions_of_cat kind "f" !! i = Some f /\ catalog (originOf functions_of_cat kind "f" i) = "cat") /\
  bind 42 (ctx (Some bob)) (bind_request "f") = Err (BindOpaque attachRejected) /\
  bind 101 (ctx (Some alice)) (bind_request "f") =
    Err (BindRefused (BindArgument {| ErrName := "n"; ErrPosition := 0; ErrDetail := MustBeLe (Finite 100 0) |})).
Proof.
  assert (bind 42 (ctx (Some alice)) (bind_request "f") = Ok answer) as E by (vm_compute; reflexivity).
  split; [exact E|]. split; [|split; vm_compute; reflexivity].
  destruct (bind_by_its_owner _ _ _ _ _ _ _ _ _ bind_worker (ctx (Some alice)) (ctx (Some alice)) (bind_request "f") (sb "cat") uuid nonce minted
    answer eq_refl eq_refl ltac:(solve_nul_free) ltac:(solve_nul_free) ltac:(solve_separates) ltac:(vm_compute; reflexivity) eq_refl E)
    as (_ & kind & i & f & p & s & r & Hreg & [Hcat _] & _).
  exists kind, i, f. split; [exact Hreg|]. apply Hcat. vm_compute. discriminate.
Defined.
End BindExample.
