(* ===== verification/Projection.v ===== *)
(** * Projection: scalar expressions computed by a scan (vgi/projection.go)

    DuckDB may offer a bound table function expressions over its columns; the
    function accepts some of them and answers with a new bind whose output has
    the columns it will compute. The worker checks the offer, hands it to the
    function and checks that what was accepted is the old bind with the accepted
    columns behind it. *)

From S2P Require Import CatalogContents CatalogRoute Envelope Overload.
From S2P Require Import ArrowTypes ArrowData Arguments ArgConstraints.
From S2P Require Import Prelude Bytes Base64 Strings Unicode SqlTokens.
From S2P Require Columns.
From S2P Require Import ConstraintRecords GeneratedColumns BindResult Bind.

#[global] Instance EvaluationContext_dec : EqDecision EvaluationContext.
Proof. solve_decision. Defined.

Definition ScalarProjectionProfile : string := scalarExpressionProfile.

(** A proposal as it is decoded. *)
Record ProjectionRequest := {
  BindCall : BindRequestWire;
  Offered : BindResponseWire;
  Expressions : list bytes;
  ResultSchema : bytes
}.
(** The proposal as it arrives, its records encoded. *)
Record ProjectionRequestWire := {
  BindCallBytes : bytes;
  OfferedBytes : bytes;
  WireExpressions : list bytes;
  WireResultSchema : bytes
}.
Record ProjectionProposal := { Original : BindResponse Schema; ProposedExpressions : list bytes; ProposedSchema : Schema }.
Record ProjectionAcceptance := { AcceptedIndices : list Z; AcceptedBind : option (BindResponse Schema) }.
Record ProjectionResponse := { ResponseIndices : list Z; ResponseBind : option BindResponseWire }.
Definition decline : ProjectionResponse := {| ResponseIndices := []; ResponseBind := None |}.

Definition total_size (l : list bytes) : Z := foldr (fun b n => blen b + n)%Z 0%Z l.

(** Names are compared with their ASCII capitals lowered; a name that is not
    UTF-8 is refused. *)
Fixpoint check_names (seen : gset string) (fields : list Field) : result string () :=
  match fields with
  | [] => Ok ()
  | f :: fields =>
      let name := ascii_lower (FieldName f) in
      check! negb (bool_decide (name = "") || negb (utf8_valid (sb (FieldName f))) || bool_decide (x00 ∈ sb name) || bool_decide (name ∈ seen))
        else "ambiguous projection column names" in
      check_names ({[name]} ∪ seen) fields
  end.

(** The fields of accepted indices, which must rise. *)
Fixpoint accepted_fields (result : list Field) (count last : Z) (indices : list Z) : Prelude.result string (list Field) :=
  match indices with
  | [] => Ok []
  | index :: indices =>
      check! negb ((index <=? last) || (count <=? index))%Z else "invalid accepted projection index" in
      match result !! Z.to_nat index with
      | None => Err "index out of range"
      | Some f => let? fs := accepted_fields result count index indices in Ok (f :: fs)
      end
  end.

Section projection.
Context `{Unicode} `{Aead} {W P X St F : Type}.
Context (uni_class : bytes -> rune_class) (fold : string -> string) (read_row : bytes -> result string Row).
Context (read_ipc : bytes -> result string (list ArrowData.Field * option (list column))).
Context (DeserializeRecordBatch : bytes -> result string RecordBatch).
Context (DeserializeSchema : bytes -> result string Schema) (SerializeSchema : Schema -> result string bytes).
Context (shape : F -> option FunctionShape) (ArgumentSpecs : F -> list ArgSpec).
(** [Schema.Equal] and [Metadata.Equal] of Arrow. *)
Context (SchemaEqual : Schema -> Schema -> bool) (MetadataEqual : list (string * string) -> list (string * string) -> bool).
(** The hook of a function that has one; it may decline with nil. *)
Context (Projection : F -> option (BindParams St -> ProjectionProposal -> result string (option ProjectionAcceptance))).
Let worker := Worker (W := W) (P := P) (X := X) (St := St) (F := F).

(** *** Checking an offer *)

Fixpoint check_expressions (profiles : list string) (owner : list string) (context : option EvaluationContext) (expressions : list bytes)
  : result string () :=
  match expressions with
  | [] => Ok ()
  | e :: expressions =>
      check! bool_decide (ScalarProjectionProfile ∈ profiles) else "projection profile was not offered" in
      let? _ := validateGeneratedExpression uni_class read_row (StdEncodeToString e) owner in
      let? row := read_row e in
      match row with
      | ExpressionRow r =>
          check! match context with None => true | Some c => bool_decide (c = expr_context r) end else "projection contexts differ" in
          check_expressions profiles owner (Some (default (expr_context r) context)) expressions
      | _ => Err "invalid SqlExpression record schema"
      end
  end.

(** What is refused before the function sees it; the schemas of the bind and of
    the results. *)
Definition check_offer (req : ProjectionRequest) (owner : list string) : result string (Schema * Schema) :=
  let offered := Offered req in
  let? _ := validateProjectionProfiles (WireProfiles offered) in
  let? _ := validateWireBindRepeatability (WireRepeatability offered) in
  check! bool_decide (length (LookupSecretTypes offered) + length (LookupScopes offered) + length (LookupNames offered) = 0)
    else "projection cannot request secrets" in
  check! (blen (ResultSchema req) + blen (WireSchema offered) + blen (default [] (WireOpaqueData offered)) +
          blen (RequestArguments (BindCall req)) + total_size (Expressions req) <=? mebi8)%Z else "projection exceeds 8MiB" in
  let? source := DeserializeSchema (WireSchema offered) in
  let? result := DeserializeSchema (ResultSchema req) in
  let n := length (Expressions req) in
  check! (1 <=? n)%nat && (n <=? 1024)%nat && bool_decide (length (SchemaFields result) = n) && bool_decide (Bind.SchemaMetadata result = [])
    else "invalid projection result schema/count" in
  let? _ := check_names ∅ (SchemaFields source ++ SchemaFields result) in
  let? _ := check_expressions (WireProfiles offered) owner None (Expressions req) in
  Ok (source, result).

(** *** Checking what was accepted *)

Definition check_acceptance (req : ProjectionRequest) (source result : Schema) (indices : list Z) (value : BindResponse Schema)
  : Prelude.result string BindResponseWire :=
  let? chosen := accepted_fields (SchemaFields result) (Z.of_nat (length (Expressions req))) (-1) indices in
  let expected := {| SchemaFields := SchemaFields source ++ chosen; Bind.SchemaMetadata := Bind.SchemaMetadata source;
                     BigEndian := BigEndian source |} in
  let? repeatability := wireBindRepeatability (Repeatability value) in
  check! bool_decide (repeatability = WireRepeatability (Offered req)) else "accepted projection changed bind repeatability" in
  check! SchemaEqual (OutputSchema value) expected && MetadataEqual (Bind.SchemaMetadata (OutputSchema value)) (Bind.SchemaMetadata source) &&
         bool_decide (ProjectionExpressionProfiles value = WireProfiles (Offered req)) &&
         bool_decide (default [] (SecretScopeRequest value) = []) else "accepted projection changed bind contract" in
  wireProjectionBind SerializeSchema value.

Definition proposal (req : ProjectionRequest) (source result : Schema) : ProjectionProposal :=
  {| Original := {| Repeatability := WireRepeatability (Offered req); ProjectionExpressionProfiles := WireProfiles (Offered req);
                    OutputSchema := source; OpaqueData := WireOpaqueData (Offered req); SecretScopeRequest := None |};
     ProposedExpressions := Expressions req; ProposedSchema := result |}.

Definition handleProjection (w : worker) (cc : option CallContext) (req : ProjectionRequest) : result bind_fault ProjectionResponse :=
  match RequestSchemaPath (BindCall req) with
  | Some owner =>
      check! Columns.EqualFoldText fold (FunctionType (BindCall req)) "TABLE" && bool_decide (RequestInputSchema (BindCall req) = None)
        else BindFailed "projection requires an ordinary table and explicit owner" in
      let? (source, result) := lift_err BindFailed (check_offer req owner) in
      let? (f, p) := resolved read_ipc DeserializeRecordBatch DeserializeSchema shape ArgumentSpecs w cc (BindCall req) in
      check! bool_decide (shape f = Some TableFunction) else BindFailed "projection requires ordinary table" in
      let p := with_args (RemapPositionalArgs (ParamArgs p) (getArgSpecs shape ArgumentSpecs f)) p in
      match Projection f with
      | None => Ok decline
      | Some hook =>
          let? accepted := lift_err BindFailed (hook p (proposal req source result)) in
          match accepted with
          | None => Ok decline
          | Some a =>
              match AcceptedIndices a, AcceptedBind a with
              | [], None => Ok decline
              | _ :: _, Some value =>
                  let? wire := lift_err BindFailed (check_acceptance req source result (AcceptedIndices a) value) in
                  Ok {| ResponseIndices := AcceptedIndices a; ResponseBind := Some wire |}
              | _, _ => Err (BindFailed "projection indices and bind result must occur together")
              end
          end
      end
  | None => Err (BindFailed "projection requires an ordinary table and explicit owner")
  end.

(** *** The call *)

(** The IPC records of the call: of the proposal, of a bind request, of a bind
    result and of the response. *)
Context (encode_request : ProjectionRequestWire -> result string bytes) (read_call : bytes -> result string BindRequestWire).
Context (read_bind : bytes -> result string BindResponseWire) (write_bind : BindResponseWire -> result string bytes).
Context (encode_response : list Z -> option bytes -> result string bytes).

Definition decodeProjectionCall (raw : bytes) : result string BindRequestWire :=
  if (mebi8 <? blen raw)%Z then Err "projection exceeds 8MiB" else read_call raw.
Definition decode_request (raw : ProjectionRequestWire) : result string ProjectionRequest :=
  let? call := decodeProjectionCall (BindCallBytes raw) in
  let? offered := decodeProjectionBind read_bind (OfferedBytes raw) in
  Ok {| BindCall := call; Offered := offered; Expressions := WireExpressions raw; ResultSchema := WireResultSchema raw |}.
Definition check_response (r : ProjectionResponse) : result string () :=
  let? nested := match ResponseBind r with None => Ok None | Some b => let? n := encodeProjectionBind write_bind b in Ok (Some n) end in
  let? payload := encode_response (ResponseIndices r) nested in
  check! (blen payload <=? mebi8)%Z else "projection response exceeds 8MiB" in Ok ().

Definition TableFunctionProjection (w : worker) (cc : option CallContext) (raw : ProjectionRequestWire) : result bind_fault ProjectionResponse :=
  check! (blen (BindCallBytes raw) + blen (OfferedBytes raw) + blen (WireResultSchema raw) + total_size (WireExpressions raw) <=? mebi8)%Z &&
         (length (WireExpressions raw) <=? 1024)%nat else BindFailed "projection exceeds limits" in
  let? encoded := lift_err BindFailed (encode_request raw) in
  check! (blen encoded <=? mebi8)%Z else BindFailed "projection exceeds limits" in
  let? req := lift_err BindFailed (decode_request raw) in
  let? r := handleProjection w cc req in
  let? _ := lift_err BindFailed (check_response r) in
  Ok r.

(** ** What is accepted *)

Lemma accepted_fields_exact fields count last indices chosen : (-1 <= last)%Z -> accepted_fields fields count last indices = Ok chosen ->
  chosen `sublist_of` drop (Z.to_nat (last + 1)) fields /\ StronglySorted Z.lt indices /\ Forall (fun i => last < i < count)%Z indices /\
  Forall2 (fun i f => fields !! Z.to_nat i = Some f) indices chosen.
Proof using.
  revert last chosen. induction indices as [|i indices IH]; intros last chosen Hl E; cbn [accepted_fields] in E.
  - injection E as <-. split_and!; try constructor. apply sublist_nil_l.
  - destruct (negb _) eqn:Ei; [|done]. destruct (fields !! Z.to_nat i) as [f|] eqn:Ef; [|done].
    destruct (accepted_fields fields count i indices) as [fs|] eqn:Er; [|done]. injection E as <-. bool_hyps.
    destruct (IH i fs ltac:(lia) Er) as (Hs & Hsort & Hall & Hch). split_and!.
    + etransitivity; [|apply (sublist_drop _ (Z.to_nat i - Z.to_nat (last + 1)))]. rewrite drop_drop.
      replace (Z.to_nat (last + 1) + (Z.to_nat i - Z.to_nat (last + 1))) with (Z.to_nat i) by lia.
      rewrite (drop_S fields f (Z.to_nat i) Ef). apply sublist_skip. by replace (S (Z.to_nat i)) with (Z.to_nat (i + 1)) by lia.
    + constructor; [done|]. eapply Forall_impl; [exact Hall|]. cbn. lia.
    + constructor; [lia|]. eapply Forall_impl; [exact Hall|]. cbn. lia.
    + by constructor.
Qed.
Lemma check_names_distinct fields seen : check_names seen fields = Ok () ->
  NoDup (map (fun f => ascii_lower (FieldName f)) fields) /\ Forall (fun f => ascii_lower (FieldName f) ∉ seen) fields.
Proof using.
  revert seen. induction fields as [|f fields IH]; intros seen E; cbn [check_names] in E; [by split; constructor|].
  destruct (negb _) eqn:Ef; [|done]. bool_hyps. destruct (IH _ E) as [Hnd Hall]. split.
  - cbn. constructor; [|done]. rewrite list_elem_of_In, in_map_iff. intros (g & Eg & Hg%list_elem_of_In).
    rewrite Forall_forall in Hall. specialize (Hall g Hg). rewrite Eg in Hall. set_solver.
  - constructor; [done|]. eapply Forall_impl; [exact Hall|]. set_solver.
Qed.

(** An expression the function is offered: of the known profile, owned by the
    schema of the bind, in the default context. *)
Definition offered_expression (owner : list string) (e : bytes) : Prop :=
  exists r, read_row e = Ok (ExpressionRow r) /\ expr_profile r = ScalarProjectionProfile /\ expr_schema_path r = owner /\
    defaultEvaluationContext (expr_context r) = true.
Lemma check_expressions_offered profiles owner context expressions : check_expressions profiles owner context expressions = Ok () ->
  Forall (offered_expression owner) expressions.
Proof using.
  revert context. induction expressions as [|e es IH]; intros context E; [constructor|]. cbn [check_expressions] in E.
  destruct (bool_decide _); [|done]. destruct (validateGeneratedExpression _ _ _ _) as [[]|] eqn:Ev; [|done].
  destruct (read_row e) as [row|] eqn:Er; [|done]. destruct row as [|r| | |]; try done.
  constructor; [|destruct (match context with None => true | Some _ => _ end); [by eapply IH|done]].
  exists r. split; [done|]. unfold validateGeneratedExpression in Ev. destruct (negb _) in Ev; [|done]. rewrite StdDecode_Encode in Ev.
  destruct (bool_decide _ && _ && _) in Ev; [|done]. rewrite Er in Ev.
  repeat (match type of Ev with (if ?c then _ else _) = _ => destruct c eqn:?; [|done] end). bool_hyps. done.
Qed.

Context (same_names : forall a b, SchemaEqual a b = true -> map FieldName (SchemaFields a) = map FieldName (SchemaFields b)).

Lemma check_acceptance_ok req source result indices value wire : check_acceptance req source result indices value = Ok wire ->
  exists chosen, accepted_fields (SchemaFields result) (Z.of_nat (length (Expressions req))) (-1) indices = Ok chosen /\
    SerializeSchema (OutputSchema value) = Ok (WireSchema wire) /\
    SchemaEqual (OutputSchema value) {| SchemaFields := SchemaFields source ++ chosen; Bind.SchemaMetadata := Bind.SchemaMetadata source;
                                        BigEndian := BigEndian source |} = true /\
    WireRepeatability wire = WireRepeatability (Offered req) /\ WireProfiles wire = WireProfiles (Offered req) /\
    LookupSecretTypes wire = [] /\ LookupScopes wire = [] /\ LookupNames wire = [].
Proof using.
  unfold check_acceptance. destruct (accepted_fields _ _ _ _) as [chosen|]; [|done]. cbn match.
  destruct (wireBindRepeatability _) as [repeatability|] eqn:Erep; [|done]. cbn match. destruct (bool_decide _) eqn:Eb; [|done]. bool_hyps. subst.
  destruct (_ && _) eqn:Eq; [|done]. bool_hyps. intros E. exists chosen. unfold wireProjectionBind in E. rewrite Erep in E.
  destruct (validateProjectionProfiles _); [|done]. destruct (SerializeSchema (OutputSchema value)); [|done]. injection E as <-. done.
Qed.
Lemma appended_distinct (a : list Field) b chosen bound : check_names ∅ (a ++ b) = Ok () -> chosen `sublist_of` b ->
  map FieldName (SchemaFields bound) = map FieldName (a ++ chosen) -> NoDup (map (fun f => ascii_lower (FieldName f)) (SchemaFields bound)).
Proof using.
  intros [Hn _]%check_names_distinct Hs En. rewrite <- (map_map FieldName ascii_lower), En, map_map.
  refine (sublist_NoDup _ _ Hn _). apply (fmap_sublist (fun f => ascii_lower (FieldName f))). by apply sublist_app.
Qed.

(** The answer [wire] to a proposal is the bind it was made for with the chosen
    columns behind it. *)
Definition keeps_bind (req : ProjectionRequest) (indices : list Z) (wire : BindResponseWire) : Prop :=
  exists source result chosen bound,
    DeserializeSchema (WireSchema (Offered req)) = Ok source /\ DeserializeSchema (ResultSchema req) = Ok result /\
    indices <> [] /\ StronglySorted Z.lt indices /\
    Forall (fun i => 0 <= i < Z.of_nat (length (Expressions req)))%Z indices /\
    Forall2 (fun i f => SchemaFields result !! Z.to_nat i = Some f) indices chosen /\
    SerializeSchema bound = Ok (WireSchema wire) /\
    SchemaEqual bound {| SchemaFields := SchemaFields source ++ chosen; Bind.SchemaMetadata := Bind.SchemaMetadata source;
                         BigEndian := BigEndian source |} = true /\
    NoDup (map (fun f => ascii_lower (FieldName f)) (SchemaFields bound)) /\
    WireRepeatability wire = WireRepeatability (Offered req) /\ WireProfiles wire = WireProfiles (Offered req) /\
    LookupSecretTypes wire = [] /\ LookupScopes wire = [] /\ LookupNames wire = [] /\
    (exists owner, RequestSchemaPath (BindCall req) = Some owner /\ Forall (offered_expression owner) (Expressions req)).
Lemma handleProjection_keeps w cc req resp wire : handleProjection w cc req = Ok resp -> ResponseBind resp = Some wire ->
  keeps_bind req (ResponseIndices resp) wire.
Proof using same_names.
  unfold handleProjection. intros E Hwire. destruct (RequestSchemaPath (BindCall req)) as [owner|] eqn:Eowner; [|done].
  destruct (_ && _) in E; [|done]. destruct (check_offer req owner) as [[source result]|] eqn:Eo; [|done]. cbn in E.
  destruct (resolved _ _ _ _ _ _ _ _) as [[f p]|]; [|done]. destruct (bool_decide _) in E; [|done].
  destruct (Projection f) as [hook|]; [|by injection E as <-].
  destruct (hook _ _) as [[a|]|]; [|by injection E as <-|done]. cbn in E.
  destruct (AcceptedIndices a) as [|i0 rest] eqn:Ei, (AcceptedBind a) as [value|]; try done; [by injection E as <-|].
  destruct (check_acceptance _ _ _ _ _) as [wire'|] eqn:Ea; [|done]. cbn in E. injection E as <-. cbn [ResponseBind ResponseIndices] in *.
  injection Hwire as ->. unfold check_offer in Eo. repeat inv_let. bool_hyps.
  destruct (check_acceptance_ok _ _ _ _ _ _ Ea) as (chosen & Hc & Hser & Heq & Hrep & Hprof & Hl1 & Hl2 & Hl3).
  apply accepted_fields_exact in Hc as (Hsub & Hsort & Hall & Hch); [|done]. exists source, result, chosen, (OutputSchema value).
  split_and!; try done.
  - eapply Forall_impl; [exact Hall|]. cbn. lia.
  - eapply appended_distinct; [done|by apply Hsub|]. by apply same_names in Heq.
  - exists owner. split; [done|]. by eapply check_expressions_offered.
Qed.

End projection.

Module ProjectionExample.
#[local] Existing Instance AsciiText.ascii_text.
#[local] Existing Instance DigestAead.digest_aead.
Import SqlGrammar.GrammarExample RecordExample EnvelopeExamples BindExample.

Definition number_field (n : string) : Field := {| FieldName := n; FieldType := INT64; Nullable := true; Metadata := [] |}.
Definition fields_schema (fs : list Field) : Schema := {| SchemaFields := fs; Bind.SchemaMetadata := []; BigEndian := false |}.
Definition source : Schema := fields_schema [number_field "n"].
Definition results : Schema := fields_schema [number_field "twice"; number_field "half"].
Definition bound : Schema := fields_schema [number_field "n"; number_field "half"].
Definition read_schema (b : bytes) : result string Schema :=
  if bool_decide (b = sb "n") then Ok source else if bool_decide (b = sb "twicehalf") then Ok results else Err "no schema".
Definition schema_equal (a b : Schema) : bool := bool_decide (SchemaFields a = SchemaFields b) && bool_decide (BigEndian a = BigEndian b).
Lemma schema_equal_names a b : schema_equal a b = true -> map FieldName (SchemaFields a) = map FieldName (SchemaFields b).
Proof. unfold schema_equal. intros E. bool_hyps. congruence. Qed.
Definition metadata_equal (a b : list (string * string)) : bool := bool_decide (a = b).

Definition expression (sql : string) : bytes :=
  match write (ExpressionRow {| expr_sql := sql; expr_profile := scalarExpressionProfile; expr_schema_path := ["Main"];
                                expr_context := default_context |}) with Ok b => b | Err _ => [] end.
Definition offer : BindResponseWire :=
  {| WireSchema := sb "n"; WireOpaqueData := None; LookupSecretTypes := []; LookupScopes := []; LookupNames := [];
     WireProfiles := [ScalarProjectionProfile]; WireRepeatability := "UNKNOWN" |}.
Definition raw : ProjectionRequestWire :=
  {| BindCallBytes := []; OfferedBytes := []; WireExpressions := [expression "n + n"; expression "n / 2"]; WireResultSchema := sb "twicehalf" |}.
Definition takes (schema : Schema) (f : nat) : option (BindParams unit -> ProjectionProposal -> result string (option ProjectionAcceptance)) :=
  Some (fun p proposed => Ok (Some {| AcceptedIndices := [1%Z];
    AcceptedBind := Some {| Repeatability := ""; ProjectionExpressionProfiles := [ScalarProjectionProfile]; OutputSchema := schema;
                            OpaqueData := Some [x01]; SecretScopeRequest := None |} |})).
Notation propose schema :=
  (TableFunctionProjection others (ascii_upper) read (sends (engine_args [ints 42] [])) no_batch read_schema schema_bytes table_shape specs_of
     schema_equal metadata_equal (takes schema) (fun _ => Ok []) (fun _ => Ok (bind_request "f")) (fun _ => Ok offer) (fun _ => Ok []) (fun _ _ => Ok [])
     bind_worker (Some (ctx (Some alice)))).
Definition accepted : BindResponseWire :=
  {| WireSchema := sb "nhalf"; WireOpaqueData := Some [x01]; LookupSecretTypes := []; LookupScopes := []; LookupNames := [];
     WireProfiles := [ScalarProjectionProfile]; WireRepeatability := "UNKNOWN" |}.

(** A function that answers with another schema is caught. *)
Example changed_schema : propose results raw = Err (BindFailed "accepted projection changed bind contract").
Proof. vm_compute. reflexivity. Qed.

End ProjectionExample.
