(* ===== verification/FilterV2.v ===== *)
(** * FilterV2: decoding pushed-down filters (vgi/filter_v2.go)

    A filter batch carries a JSON document and, beside it, one column per
    value, type and artifact the document refers to. The decoder checks the
    batch and its session context, reads the document strictly, and builds an
    expression tree with the type of every node. *)

From S2P Require Import Prelude Bytes Unicode Strings ArrowTypes ArrowData Json.
From stdpp Require Import pretty.

(** ** Data *)

Definition filterV2Semantics : string := "vgi.duckdb.standard.v1".

Record v2Set := { SetValues : Array; SetType : DataType }.

(** [v2Expr], one constructor per [Node] with the fields the node sets. A
    reference is [Bound] when it has a type. *)
Inductive v2Expr :=
| ColumnRef (index : Z) (name : string) (dt : option DataType)
| FieldRef (e : v2Expr) (index : Z) (name : string) (dt : option DataType)
| Literal (ref : Z) (value : Array) (field : Field)
| Comparison (op : string) (l r : v2Expr)
| Arithmetic (op : string) (l r : v2Expr)
| And (children : list v2Expr)
| Or (children : list v2Expr)
| Not (e : v2Expr)
| Negate (e : v2Expr)
| IsNullNode (e : v2Expr) (negated : bool)
| In (e : v2Expr) (set : v2Set) (negated : bool)
| Cast (e : v2Expr) (ref : Z) (target : DataType)
| Call (function : string) (arguments : list v2Expr)
| RuntimeFilter (input : v2Expr) (ref : Z).

(** Induction that reaches the children of a node. *)
Fixpoint v2Expr_induction (P : v2Expr -> Prop)
    (HColumn : forall i n dt, P (ColumnRef i n dt))
    (HField : forall e i n dt, P e -> P (FieldRef e i n dt))
    (HLiteral : forall r v f, P (Literal r v f))
    (HComparison : forall op l r, P l -> P r -> P (Comparison op l r))
    (HArithmetic : forall op l r, P l -> P r -> P (Arithmetic op l r))
    (HAnd : forall es, Forall P es -> P (And es))
    (HOr : forall es, Forall P es -> P (Or es))
    (HNot : forall e, P e -> P (Not e))
    (HNegate : forall e, P e -> P (Negate e))
    (HIsNull : forall e b, P e -> P (IsNullNode e b))
    (HIn : forall e s b, P e -> P (In e s b))
    (HCast : forall e r t, P e -> P (Cast e r t))
    (HCall : forall f es, Forall P es -> P (Call f es))
    (HRuntime : forall e r, P e -> P (RuntimeFilter e r)) (e : v2Expr) : P e :=
  let self := v2Expr_induction P HColumn HField HLiteral HComparison HArithmetic HAnd HOr HNot
                HNegate HIsNull HIn HCast HCall HRuntime in
  let all := fix all (es : list v2Expr) : Forall P es :=
    match es with
    | [] => Forall_nil_2 P
    | e :: es => Forall_cons_2 P e es (self e) (all es)
    end in
  match e with
  | ColumnRef i n dt => HColumn i n dt
  | FieldRef e i n dt => HField e i n dt (self e)
  | Literal r v f => HLiteral r v f
  | Comparison op l r => HComparison op l r (self l) (self r)
  | Arithmetic op l r => HArithmetic op l r (self l) (self r)
  | And es => HAnd es (all es)
  | Or es => HOr es (all es)
  | Not e => HNot e (self e)
  | Negate e => HNegate e (self e)
  | IsNullNode e b => HIsNull e b (self e)
  | In e s b => HIn e s b (self e)
  | Cast e r t => HCast e r t (self e)
  | Call f es => HCall f es (all es)
  | RuntimeFilter e r => HRuntime e r (self e)
  end.

Record v2Predicate := {
  ID : string;
  Revision : Z;
  Mode : string;
  Expr : v2Expr
}.

(** ** Types *)

Definition logicalV2Type (t : DataType) : DataType :=
  match t with DICTIONARY _ v _ => v | _ => t end.

Definition compatibleV2Types (l r : option DataType) : bool :=
  match l, r with
  | Some l, Some r => TypeEqual (logicalV2Type l) (logicalV2Type r)
  | _, _ => false
  end.

Definition numericV2Type (t : option DataType) : bool :=
  match t with
  | None => false
  | Some t =>
      match logicalV2Type t with
      | INT8 | INT16 | INT32 | INT64 | UINT8 | UINT16 | UINT32 | UINT64
      | FLOAT16 | FLOAT32 | FLOAT64 | DECIMAL128 _ _ | DECIMAL256 _ _ => true
      | _ => false
      end
  end.

Definition stringV2Type (t : option DataType) : bool :=
  match t with
  | None => false
  | Some t => match logicalV2Type t with STRING | LARGE_STRING => true | _ => false end
  end.

Definition contextualV2Type (t : option DataType) : bool :=
  match t with
  | None => false
  | Some t =>
      match logicalV2Type t with
      | STRING | LARGE_STRING | DATE32 | DATE64 | TIME32 _ | TIME64 _ | TIMESTAMP _ _ => true
      | _ => false
      end
  end.

Definition is_bool (t : option DataType) : bool := bool_decide (t = Some BOOL).

(** The [DataType] a node is given, and whether it is [Bound]. *)
Fixpoint exprType (e : v2Expr) : option DataType :=
  match e with
  | ColumnRef _ _ dt | FieldRef _ _ _ dt => dt
  | Literal _ _ f => Some (logicalV2Type (FieldType f))
  | Arithmetic _ l _ => exprType l
  | Negate e => exprType e
  | Cast _ _ target => Some (logicalV2Type target)
  | _ => Some BOOL
  end.
Definition Bound (e : v2Expr) : bool :=
  match e with
  | ColumnRef _ _ (Some _) | FieldRef _ _ _ (Some _) => true
  | _ => false
  end.

(** ** The batch *)

(** ^(value|type|artifact)_(0|[1-9][0-9]* )$ *)
Definition canonical_index (l : bytes) : bool :=
  match l with
  | [] => false
  | b :: l' => if beq b x30 then bool_decide (l' = []) else forallb digit l
  end.
Definition payloadNameV2 (name : string) : bool :=
  existsb (fun prefix =>
      let p := sb prefix in
      bool_decide (take (length p) (sb name) = p) && canonical_index (drop (length p) (sb name)))
    ["value_"; "type_"; "artifact_"].

Definition HasPrefix (s prefix : string) : bool :=
  bool_decide (take (length (sb prefix)) (sb s) = sb prefix).

Fixpoint payload_fields (seen : list string) (cols : list (Field * Array)) : result string () :=
  match cols with
  | [] => Ok ()
  | (f, col) :: cols =>
      check! negb (Contains seen (FieldName f)) && payloadNameV2 (FieldName f)
        else "noncanonical or duplicate payload field" in
      check! negb (HasPrefix (FieldName f) "type_" && negb (IsNull col 0))
        else "type payload must contain NULL" in
      payload_fields (FieldName f :: seen) cols
  end.

(** The evaluation profile and the text of the document. *)
Definition validateFilterV2Batch (batch : RecordBatch) : result string (string * bytes) :=
  match NumRows batch, Columns batch with
  | 1%Z, (field, col) :: payload =>
      check! bool_decide (FieldName field = "filter_spec") && bool_decide (FieldType field = STRING)
             && negb (Nullable field)
        else "first field must be filter_spec: utf8 not null" in
      match Cells col with
      | CStr text :: _ =>
          let raw := sb text in
          check! (Z.of_nat (length raw) <=? 2 ^ 20)%Z else "filter JSON exceeds 1 MiB" in
          let? _ := payload_fields ["filter_spec"] payload in
          let get := metadata_get (SchemaMetadata batch) in
          check! bool_decide (get "vgi_filter_encoding" = "vgi.filters.v2")
                 && bool_decide (get "vgi_filter_version" = "2")
            else "unsupported filter encoding/version" in
          let profile := get "vgi_evaluation_context" in
          check! bool_decide (profile = "vgi.none.v1")
            else "evaluation context was not advertised" in
          check! forallb (fun key => bool_decide (get key = ""))
                   ["vgi_time_zone"; "vgi_calendar"; "vgi_default_collation";
                    "vgi_ieee_floating_point_ops"; "vgi_integer_division";
                    "vgi_context_provider_fingerprint"]
            else "vgi.none.v1 forbids session context metadata" in
          Ok (profile, raw)
      | _ => Err "filter_spec must be non-null utf8"
      end
  | _, _ => Err "filter batch must contain exactly one row"
  end.

(** ** The document *)

Record v2Document := {
  Encoding : string;
  Semantics : string;
  Kind : string;
  Predicates : option (list RawMessage);
  Updates : option (list RawMessage)
}.
Definition zero_document : v2Document :=
  {| Encoding := ""; Semantics := ""; Kind := ""; Predicates := None; Updates := None |}.

Definition document_fields : list string :=
  ["encoding"; "semantics"; "kind"; "predicates"; "updates"].

(** One member of the document decoded into its field. *)
Definition set_member (d : v2Document) (kv : string * RawMessage) : result string v2Document :=
  let '(key, raw) := kv in
  match field_of document_fields key with
  | None => Err "json: unknown field"
  | Some f =>
      if bool_decide (f = "encoding") then
        let? s := unmarshal_string (Some raw) (Encoding d) in
        Ok {| Encoding := s; Semantics := Semantics d; Kind := Kind d;
              Predicates := Predicates d; Updates := Updates d |}
      else if bool_decide (f = "semantics") then
        let? s := unmarshal_string (Some raw) (Semantics d) in
        Ok {| Encoding := Encoding d; Semantics := s; Kind := Kind d;
              Predicates := Predicates d; Updates := Updates d |}
      else if bool_decide (f = "kind") then
        let? s := unmarshal_string (Some raw) (Kind d) in
        Ok {| Encoding := Encoding d; Semantics := Semantics d; Kind := s;
              Predicates := Predicates d; Updates := Updates d |}
      else
        let? l := unmarshal_slice (Some raw) in
        if bool_decide (f = "predicates") then
          Ok {| Encoding := Encoding d; Semantics := Semantics d; Kind := Kind d;
                Predicates := l; Updates := Updates d |}
        else
          Ok {| Encoding := Encoding d; Semantics := Semantics d; Kind := Kind d;
                Predicates := Predicates d; Updates := l |}
  end.
Fixpoint set_members (d : v2Document) (o : object) : result string v2Document :=
  match o with
  | [] => Ok d
  | kv :: o => let? d := set_member d kv in set_members d o
  end.
Definition decode_document (j : json) : result string v2Document :=
  match j with
  | JNull => Ok zero_document
  | JObj o => set_members zero_document o
  | _ => Err "json: cannot unmarshal into Go value of type vgi.v2Document"
  end.

(** The identity of an extension function: namespace, name and version. *)
Record identity := { Namespace : string; Name : string; Version : Z }.
Fixpoint set_identity (i : identity) (o : object) : result string identity :=
  match o with
  | [] => Ok i
  | (key, raw) :: o =>
      match field_of ["namespace"; "name"; "version"] key with
      | None => Err "json: unknown field"
      | Some f =>
          if bool_decide (f = "namespace") then
            let? s := unmarshal_string (Some raw) (Namespace i) in
            set_identity {| Namespace := s; Name := Name i; Version := Version i |} o
          else if bool_decide (f = "name") then
            let? s := unmarshal_string (Some raw) (Name i) in
            set_identity {| Namespace := Namespace i; Name := s; Version := Version i |} o
          else
            let? v := unmarshal_uint64 (Some raw) (Version i) in
            set_identity {| Namespace := Namespace i; Name := Name i; Version := v |} o
      end
  end.
Definition decode_identity (j : json) : result string identity :=
  let zero := {| Namespace := ""; Name := ""; Version := 0 |} in
  match j with
  | JNull => Ok zero
  | JObj o => set_identity zero o
  | _ => Err "json: cannot unmarshal into Go value"
  end.

(** ** Expressions *)

Definition comparison_ops : list string :=
  ["eq"; "ne"; "lt"; "le"; "gt"; "ge"; "distinct_from"; "not_distinct_from"].
Definition arithmetic_ops : list string := ["add"; "subtract"; "multiply"; "divide"; "modulo"].
Definition string_functions : list string := ["starts_with"; "ends_with"; "contains"].
Definition standard_functions : list string := string_functions ++ ["list_contains"].
Definition intersects_extent : string := "duckdb.spatial/intersects_extent@1".
Definition predicate_sources : list string :=
  ["query"; "join"; "top_n"; "split_refinement"; "other"].

(** Nodes of one predicate, and levels of one expression. *)
Definition maxNodes : Z := 10000.
Definition maxDepth : nat := 64.

(** A loop over values that threads the node count. *)
Fixpoint parse_each {A} (f : RawMessage -> Z -> result string (A * Z)) (l : list RawMessage) (nodes : Z)
  : result string (list A * Z) :=
  match l with
  | [] => Ok ([], nodes)
  | raw :: l =>
      let? (x, nodes) := f raw nodes in
      let? (xs, nodes) := parse_each f l nodes in
      Ok (x :: xs, nodes)
  end.

Section parser.
Context (batch : RecordBatch) (joinKeys : gmap string Array) (joinKeyBatches : list RecordBatch)
  (allowSpatial : bool) (outputSchema : option (list Field)).

Definition payloadColumn (prefix : string) (ref : Z) : result string (Field * Array) :=
  match columns_named batch (prefix +:+ "_" +:+ pretty ref) with
  | [fa] => Ok fa
  | _ => Err "missing or duplicate payload"
  end.

(** The key column an external set names. *)
Definition externalKeys (bi ci : Z) (name : string) : result string Array :=
  match joinKeyBatches with
  | _ :: _ =>
      match at_index joinKeyBatches bi with
      | None => Err "external IN batch index unavailable"
      | Some keys =>
          match at_index (Columns keys) ci with
          | None => Err "external IN column index unavailable"
          | Some (f, values) =>
              check! bool_decide (FieldName f = name)
                else "external IN name does not match authoritative index" in
              Ok values
          end
      end
  | [] =>
      check! (bi =? 0)%Z && (ci =? 0)%Z else "external IN batch/column unavailable" in
      match joinKeys !! name with
      | None => Err "external IN column unavailable"
      | Some values => Ok values
      end
  end.

Definition parseV2Set (raw : option RawMessage) : result string v2Set :=
  let? o := decodeStrict raw decode_object in
  match unmarshal_string (lookup_key o "kind") "" with
  | Err _ => Err "invalid IN set kind"
  | Ok kind =>
      if bool_decide (kind = "literal") then
        let? _ := exactKeys o ["kind"; "value_ref"] in
        match unmarshal_int (lookup_key o "value_ref") 0 with
        | Err _ => Err "invalid literal IN value_ref"
        | Ok ref =>
            check! (0 <=? ref)%Z else "invalid literal IN value_ref" in
            let? (_, column) := payloadColumn "value" ref in
            match ArrType column, Cells column with
            | LIST elem _, CList values :: _ =>
                Ok {| SetValues := {| ArrType := elem; Cells := values |};
                      SetType := logicalV2Type elem |}
            | _, _ => Err "literal IN payload must be a non-null list"
            end
        end
      else if bool_decide (kind = "external") then
        let? _ := exactKeys o ["kind"; "batch_index"; "column_index"; "column_name"] in
        match unmarshal_int (lookup_key o "batch_index") 0,
              unmarshal_int (lookup_key o "column_index") 0,
              unmarshal_string (lookup_key o "column_name") "" with
        | Ok bi, Ok ci, Ok name =>
            check! (0 <=? bi)%Z && (0 <=? ci)%Z && negb (bool_decide (name = ""))
              else "invalid external IN identity" in
            let? values := externalKeys bi ci name in
            Ok {| SetValues := values; SetType := logicalV2Type (ArrType values) |}
        | _, _, _ => Err "invalid external IN identity"
        end
      else Err "unknown IN set kind"
  end.

(** A number that has to be there and not negative. *)
Definition reference (raw : option RawMessage) (cur : Z) (message : string) : result string Z :=
  match unmarshal_int raw cur with
  | Ok ref => check! (0 <=? ref)%Z else message in Ok ref
  | Err _ => Err message
  end.
(** A name that has to be there and not empty. *)
Definition named (raw : option RawMessage) (message : string) : result string string :=
  match unmarshal_string raw "" with
  | Ok name => check! negb (bool_decide (name = "")) else message in Ok name
  | Err _ => Err message
  end.

(** The type the bind output schema gives a column reference. *)
Definition bindColumn (index : Z) (name : string) : result string (option DataType) :=
  match outputSchema with
  | None => Ok None
  | Some schema =>
      match at_index schema index with
      | Some f =>
          check! bool_decide (FieldName f = name)
            else "column_ref name/index does not match authoritative output schema" in
          Ok (Some (FieldType f))
      | None => Err "column_ref name/index does not match authoritative output schema"
      end
  end.
(** The type a struct gives one of its fields, when the struct is bound. *)
Definition bindField (parent : v2Expr) (index : Z) (name : string)
  : result string (option DataType) :=
  if Bound parent then
    match exprType parent with
    | Some (STRUCT fields) =>
        match at_index fields index with
        | Some (n, (t, _)) =>
            check! bool_decide (n = name)
              else "field_ref name/index does not match authoritative struct type" in
            Ok (Some t)
        | None => Err "field_ref name/index does not match authoritative struct type"
        end
    | _ => Err "field_ref name/index does not match authoritative struct type"
    end
  else Ok None.

(** Which function a call names. *)
Definition callFunction (o : object) : result string string :=
  let options := lookup_key o "options" in
  match lookup_key o "function" with
  | Some (_, JStr function) =>
      check! containsString standard_functions function
        else "unknown standard filter function" in
      check! bool_decide (options = None)
        else "standard filter functions do not accept options" in
      Ok function
  | raw =>
      let? i := decodeStrict raw decode_identity in
      check! bool_decide (Namespace i = "duckdb.spatial")
             && bool_decide (Name i = "intersects_extent") && (Version i =? 1)%Z
        else "unknown extension filter function" in
      check! allowSpatial else "extension filter function was not advertised" in
      check! match options with Some (text, _) => bool_decide (text = "{}") | None => true end
        else "duckdb.spatial/intersects_extent@1 does not accept options" in
      Ok intersects_extent
  end.

(** The checks on the arguments of a call. *)
Definition checkCall (function : string) (args : list v2Expr) : result string () :=
  match args with
  | [a; b] =>
      check! negb (containsString string_functions function)
             || (stringV2Type (exprType a) && stringV2Type (exprType b))
        else "string filter function arguments must be VARCHAR" in
      if bool_decide (function = "list_contains") then
        match logicalV2Type <$> exprType a with
        | Some (LIST elem _) =>
            check! compatibleV2Types (Some elem) (exprType b)
              else "list_contains arguments have incompatible types" in
            Ok ()
        | _ => Err "list_contains arguments have incompatible types"
        end
      else Ok ()
  | _ => Err "filter functions require exactly two arguments"
  end.

(** *** One definition per case of [parseV2Expr]

    [self] is the parser one level below, on a value that is not the root;
    [o] are the members of the node, [nodes] the nodes counted so far. *)
Section cases.
Context (self : option RawMessage -> Z -> result string (v2Expr * Z)) (o : object) (nodes : Z).

Definition child (key : string) (nodes : Z) : result string (v2Expr * Z) :=
  self (lookup_key o key) nodes.

Definition parseColumnRef : result string (v2Expr * Z) :=
  let? _ := exactKeys o ["node"; "column_index"; "column_name"] in
  let? index := reference (lookup_key o "column_index") 0 "invalid column index" in
  let? name := named (lookup_key o "column_name") "invalid column name" in
  let? dt := bindColumn index name in
  Ok (ColumnRef index name dt, nodes).

Definition parseFieldRef : result string (v2Expr * Z) :=
  let? _ := exactKeys o ["node"; "expression"; "field_index"; "field_name"] in
  let? (e, nodes) := child "expression" nodes in
  let? index := reference (lookup_key o "field_index") 0 "invalid field index" in
  let? name := named (lookup_key o "field_name") "invalid field name" in
  let? dt := bindField e index name in
  Ok (FieldRef e index name dt, nodes).

Definition parseLiteral : result string (v2Expr * Z) :=
  let? _ := exactKeys o ["node"; "value_ref"] in
  let? ref := reference (lookup_key o "value_ref") (-1) "invalid value_ref" in
  let? (field, value) := payloadColumn "value" ref in
  Ok (Literal ref value field, nodes).

Definition parseBinary (node : string) : result string (v2Expr * Z) :=
  let? _ := exactKeys o ["node"; "op"; "left"; "right"] in
  let op := ignoring (unmarshal_string (lookup_key o "op") "") "" in
  let ops := if bool_decide (node = "arithmetic") then arithmetic_ops else comparison_ops in
  check! containsString ops op else "unknown operator" in
  let? (l, nodes) := child "left" nodes in
  let? (r, nodes) := child "right" nodes in
  if bool_decide (node = "comparison") then
    check! compatibleV2Types (exprType l) (exprType r)
      else "comparison operands have incompatible types" in
    Ok (Comparison op l r, nodes)
  else
    check! numericV2Type (exprType l) && bool_decide (exprType l = exprType r)
      else "arithmetic operands require one exact numeric type" in
    check! negb (bool_decide (op = "divide") || bool_decide (op = "modulo"))
      else "context-dependent arithmetic requires vgi.duckdb.session.v1" in
    Ok (Arithmetic op l r, nodes).

Definition parseBoolean (raw : RawMessage) (nodes : Z) : result string (v2Expr * Z) :=
  let? (e, nodes) := self (Some raw) nodes in
  check! is_bool (exprType e) else "and/or children must resolve to BOOLEAN" in
  Ok (e, nodes).

Definition parseConjunction (node : string) : result string (v2Expr * Z) :=
  let? _ := exactKeys o ["node"; "children"] in
  match unmarshal_slice (lookup_key o "children") with
  | Ok (Some ((_ :: _ :: _) as l)) =>
      let? (children, nodes) := parse_each parseBoolean l nodes in
      Ok (if bool_decide (node = "and") then And children else Or children, nodes)
  | _ => Err "and/or requires two children"
  end.

Definition parseUnary (node : string) : result string (v2Expr * Z) :=
  let? _ := exactKeys o ["node"; "expression"] in
  let? (e, nodes) := child "expression" nodes in
  if bool_decide (node = "not") then
    check! is_bool (exprType e) else "not operand must resolve to BOOLEAN" in
    Ok (Not e, nodes)
  else
    check! numericV2Type (exprType e) else "negate operand must be numeric" in
    Ok (Negate e, nodes).

Definition parseIsNull : result string (v2Expr * Z) :=
  let? _ := exactKeys o ["node"; "expression"; "negated"] in
  let? (e, nodes) := child "expression" nodes in
  let? negated := unmarshal_bool (lookup_key o "negated") false in
  Ok (IsNullNode e negated, nodes).

Definition parseIn : result string (v2Expr * Z) :=
  let? _ := exactKeys o ["node"; "expression"; "set"; "negated"] in
  let? (e, nodes) := child "expression" nodes in
  let negated := ignoring (unmarshal_bool (lookup_key o "negated") false) false in
  let? set := parseV2Set (lookup_key o "set") in
  check! compatibleV2Types (exprType e) (Some (SetType set))
    else "IN expression and set have incompatible types" in
  Ok (In e set negated, nodes).

Definition parseCast : result string (v2Expr * Z) :=
  let? _ := exactKeys o ["node"; "expression"; "type_ref"] in
  let? (e, nodes) := child "expression" nodes in
  let? ref := reference (lookup_key o "type_ref") (-1) "invalid type_ref" in
  let? (field, column) := payloadColumn "type" ref in
  check! IsNull column 0 else "type payload must be NULL" in
  let target := FieldType field in
  check! negb (contextualV2Type (exprType e) && contextualV2Type (Some (logicalV2Type target)))
    else "context-dependent cast requires vgi.duckdb.session.v1" in
  Ok (Cast e ref target, nodes).

Definition parseCall : result string (v2Expr * Z) :=
  let? _ := allowedKeys o ["node"; "function"; "arguments"] ["options"] in
  let? function := callFunction o in
  let arguments := default [] (ignoring (unmarshal_slice (lookup_key o "arguments")) None) in
  check! (Z.of_nat (length arguments) <=? 256)%Z else "too many call arguments" in
  let? (args, nodes) := parse_each (fun raw => self (Some raw)) arguments nodes in
  let? _ := checkCall function args in
  Ok (Call function args, nodes).

Definition parseRuntimeFilter : result string (v2Expr * Z) :=
  let? _ := exactKeys o ["node"; "algorithm"; "input"; "artifact_ref"; "null_handling"] in
  let? i := decodeStrict (lookup_key o "algorithm") decode_identity in
  check! bool_decide (Namespace i = "duckdb.runtime_filter") && (Version i =? 1)%Z
         && (bool_decide (Name i = "bloom") || bool_decide (Name i = "prefix_range"))
    else "unknown runtime filter" in
  let? ref := reference (lookup_key o "artifact_ref") (-1) "invalid artifact_ref" in
  let? _ := payloadColumn "artifact" ref in
  match unmarshal_string (lookup_key o "null_handling") "" with
  | Ok nullHandling =>
      check! bool_decide (nullHandling = "pass") || bool_decide (nullHandling = "reject")
        else "runtime_filter.null_handling must be pass or reject" in
      let? (e, nodes) := child "input" nodes in
      Ok (RuntimeFilter e ref, nodes)
  | Err _ => Err "runtime_filter.null_handling must be pass or reject"
  end.

(** The switch on the node's name. *)
Definition parseNode (root : bool) (node : string) : result string (v2Expr * Z) :=
  if bool_decide (node = "column_ref") then parseColumnRef
  else if bool_decide (node = "field_ref") then parseFieldRef
  else if bool_decide (node = "literal") then parseLiteral
  else if bool_decide (node ∈ ["comparison"; "arithmetic"]) then parseBinary node
  else if bool_decide (node ∈ ["and"; "or"]) then parseConjunction node
  else if bool_decide (node ∈ ["not"; "negate"]) then parseUnary node
  else if bool_decide (node = "is_null") then parseIsNull
  else if bool_decide (node = "in") then parseIn
  else if bool_decide (node = "cast") then parseCast
  else if bool_decide (node = "call") then parseCall
  else if bool_decide (node = "runtime_filter") then
    check! root else "runtime_filter may appear only at root" in parseRuntimeFilter
  else Err "unknown expression node".
End cases.

(** [parseV2Expr] with [fuel] levels left: at level [depth] it is called with
    [maxDepth + 1 - depth]. *)
Fixpoint parseV2Expr (fuel : nat) (root : bool) (raw : option RawMessage) (nodes : Z) {struct fuel}
  : result string (v2Expr * Z) :=
  match fuel with
  | O => Err "expression exceeds depth limit"
  | S fuel =>
      let nodes := (nodes + 1)%Z in
      check! (nodes <=? maxNodes)%Z else "expression exceeds node limit" in
      let? o := decodeStrict raw decode_object in
      match unmarshal_string (lookup_key o "node") "" with
      | Err _ => Err "expression node missing"
      | Ok node => parseNode (parseV2Expr fuel false) o nodes root node
      end
  end.

Lemma parseV2Expr_S fuel root raw nodes :
  parseV2Expr (S fuel) root raw nodes =
  let nodes := (nodes + 1)%Z in
  check! (nodes <=? maxNodes)%Z else "expression exceeds node limit" in
  let? o := decodeStrict raw decode_object in
  match unmarshal_string (lookup_key o "node") "" with
  | Err _ => Err "expression node missing"
  | Ok node => parseNode (parseV2Expr fuel false) o nodes root node
  end.
Proof. reflexivity. Qed.

Definition is_runtime (e : v2Expr) : bool :=
  match e with RuntimeFilter _ _ => true | _ => false end.

Definition parseV2Predicate (raw : RawMessage) (delta : bool) : result string v2Predicate :=
  let? o := decodeStrict (Some raw) decode_object in
  let? _ := exactKeys o (["id"; "revision"; "mode"; "source"; "expression"]
                         ++ if delta then ["operation"] else []) in
  match unmarshal_string (lookup_key o "id") "" with
  | Err _ => Err "invalid predicate ID"
  | Ok id =>
      check! negb (bool_decide (id = "")) && (Z.of_nat (length (sb id)) <=? 128)%Z
        else "invalid predicate ID" in
      match unmarshal_uint64 (lookup_key o "revision") 0 with
      | Err _ => Err "invalid revision"
      | Ok revision =>
          let mode := ignoring (unmarshal_string (lookup_key o "mode") "") "" in
          let source := ignoring (unmarshal_string (lookup_key o "source") "") "" in
          check! bool_decide (mode = "required") || bool_decide (mode = "advisory")
            else "unknown predicate mode" in
          check! negb (delta && negb (bool_decide (mode = "advisory")))
            else "delta upserts must be advisory" in
          check! containsString predicate_sources source else "unknown predicate source" in
          let? (e, _) := parseV2Expr maxDepth true (lookup_key o "expression") 0 in
          check! negb (is_runtime e && negb (bool_decide (mode = "advisory")))
            else "runtime_filter must be advisory" in
          check! is_runtime e || is_bool (exprType e)
            else "predicate root must resolve to BOOLEAN" in
          Ok {| ID := id; Revision := revision; Mode := mode; Expr := e |}
      end
  end.
End parser.

(** ** What the decoder lets through *)

Fixpoint node_count (e : v2Expr) : Z :=
  match e with
  | ColumnRef _ _ _ | Literal _ _ _ => 1
  | FieldRef e _ _ _ | Not e | Negate e | IsNullNode e _ | In e _ _ | Cast e _ _
  | RuntimeFilter e _ => 1 + node_count e
  | Comparison _ l r | Arithmetic _ l r => 1 + node_count l + node_count r
  | And es | Or es | Call _ es => 1 + foldr (fun e n => node_count e + n) 0 es
  end%Z.

Fixpoint node_height (e : v2Expr) : nat :=
  match e with
  | ColumnRef _ _ _ | Literal _ _ _ => 1
  | FieldRef e _ _ _ | Not e | Negate e | IsNullNode e _ | In e _ _ | Cast e _ _
  | RuntimeFilter e _ => S (node_height e)
  | Comparison _ l r | Arithmetic _ l r => S (node_height l `max` node_height r)
  | And es | Or es | Call _ es => S (foldr (fun e n => node_height e `max` n) 0 es)
  end.

Section typing.
Context (batch : RecordBatch) (joinKeys : gmap string Array) (joinKeyBatches : list RecordBatch)
  (allowSpatial : bool) (outputSchema : option (list Field)).

(** The column of a payload name, when there is one and no other. *)
Definition payload (prefix : string) (ref : Z) (f : Field) (a : Array) : Prop :=
  columns_named batch (prefix +:+ "_" +:+ pretty ref) = [(f, a)].

(** The values an IN set can have: a list literal of the batch, or the key
    column its batch and column index or its name select. *)
Inductive set_source : v2Set -> Prop :=
| set_literal ref f elem nullable values rest :
    (0 <= ref)%Z ->
    payload "value" ref f {| ArrType := LIST elem nullable; Cells := CList values :: rest |} ->
    set_source {| SetValues := {| ArrType := elem; Cells := values |};
                  SetType := logicalV2Type elem |}
| set_batch bi ci keys f values :
    joinKeyBatches !! bi = Some keys -> Columns keys !! ci = Some (f, values) ->
    set_source {| SetValues := values; SetType := logicalV2Type (ArrType values) |}
| set_named name values :
    joinKeyBatches = [] -> joinKeys !! name = Some values ->
    set_source {| SetValues := values; SetType := logicalV2Type (ArrType values) |}.

Definition same_type (l r : option DataType) : Prop :=
  exists a b, l = Some a /\ r = Some b /\ logicalV2Type a = logicalV2Type b.

Inductive well_typed : v2Expr -> Prop :=
| wt_column i schema f :
    outputSchema = Some schema -> schema !! i = Some f ->
    well_typed (ColumnRef (Z.of_nat i) (FieldName f) (Some (FieldType f)))
| wt_column_unbound i name :
    outputSchema = None -> (0 <= i)%Z -> well_typed (ColumnRef i name None)
| wt_field e i name fields t nullable :
    well_typed e -> Bound e = true -> exprType e = Some (STRUCT fields) ->
    fields !! i = Some (name, (t, nullable)) ->
    well_typed (FieldRef e (Z.of_nat i) name (Some t))
| wt_field_unbound e i name :
    well_typed e -> Bound e = false -> (0 <= i)%Z -> well_typed (FieldRef e i name None)
| wt_literal ref f a :
    (0 <= ref)%Z -> payload "value" ref f a -> well_typed (Literal ref a f)
| wt_comparison op l r :
    op ∈ comparison_ops -> well_typed l -> well_typed r -> same_type (exprType l) (exprType r) ->
    well_typed (Comparison op l r)
| wt_arithmetic op l r :
    op ∈ ["add"; "subtract"; "multiply"] -> well_typed l -> well_typed r ->
    numericV2Type (exprType l) = true -> exprType l = exprType r ->
    well_typed (Arithmetic op l r)
| wt_and es :
    2 <= length es -> Forall well_typed es -> Forall (fun e => exprType e = Some BOOL) es ->
    well_typed (And es)
| wt_or es :
    2 <= length es -> Forall well_typed es -> Forall (fun e => exprType e = Some BOOL) es ->
    well_typed (Or es)
| wt_not e : well_typed e -> exprType e = Some BOOL -> well_typed (Not e)
| wt_negate e : well_typed e -> numericV2Type (exprType e) = true -> well_typed (Negate e)
| wt_is_null e negated : well_typed e -> well_typed (IsNullNode e negated)
| wt_in e set negated :
    well_typed e -> set_source set -> same_type (exprType e) (Some (SetType set)) ->
    well_typed (In e set negated)
| wt_cast e ref f a :
    well_typed e -> (0 <= ref)%Z -> payload "type" ref f a -> IsNull a 0 = true ->
    (contextualV2Type (exprType e) = true -> contextualV2Type (Some (logicalV2Type (FieldType f))) = false) ->
    well_typed (Cast e ref (FieldType f))
| wt_strings function a b :
    function ∈ string_functions -> well_typed a -> well_typed b ->
    stringV2Type (exprType a) = true -> stringV2Type (exprType b) = true ->
    well_typed (Call function [a; b])
| wt_list_contains a b t elem nullable :
    well_typed a -> well_typed b -> exprType a = Some t -> logicalV2Type t = LIST elem nullable ->
    same_type (Some elem) (exprType b) -> well_typed (Call "list_contains" [a; b])
| wt_spatial a b :
    allowSpatial = true -> well_typed a -> well_typed b ->
    well_typed (Call intersects_extent [a; b]).

(** What a parse returns: a well-typed expression, the nodes it counted. *)
Definition sound (h : nat) (n : Z) (out : v2Expr * Z) : Prop :=
  well_typed (fst out) /\ (snd out = n + node_count (fst out))%Z /\ node_height (fst out) <= h /\
  (snd out <= maxNodes)%Z.
Definition sound_parser (h : nat) (p : option RawMessage -> Z -> result string (v2Expr * Z)) : Prop :=
  forall raw n out, p raw n = Ok out -> sound h n out.

(** A predicate whose expression is a condition, or a runtime filter nothing
    depends on. *)
Definition valid_predicate (delta : bool) (p : v2Predicate) : Prop :=
  (1 <= Z.of_nat (length (sb (ID p))) <= 128)%Z /\
  (0 <= Revision p < 2 ^ 64)%Z /\
  (Mode p = "advisory" \/ (Mode p = "required" /\ delta = false)) /\
  (node_count (Expr p) <= maxNodes)%Z /\ node_height (Expr p) <= maxDepth /\
  ((well_typed (Expr p) /\ exprType (Expr p) = Some BOOL) \/
   (exists e ref, Expr p = RuntimeFilter e ref /\ well_typed e /\ Mode p = "advisory")).

(** *** Soundness of the parser *)

Lemma reference_ok raw cur m ref : reference raw cur m = Ok ref -> (0 <= ref)%Z.
Proof. unfold reference. destruct (unmarshal_int raw cur); [|done]. intros E. repeat inv_let. by bool_hyps. Qed.

Lemma payloadColumn_ok prefix ref f a :
  payloadColumn batch prefix ref = Ok (f, a) -> payload prefix ref f a.
Proof.
  unfold payloadColumn, payload. intros E.
  destruct (columns_named _ _) as [|x [|y l]]; [done| |done]. by apply ok_inj in E as ->.
Qed.

Lemma compatible_same_type a b : compatibleV2Types a b = true <-> same_type a b.
Proof.
  unfold compatibleV2Types, same_type, TypeEqual. destruct a as [a|], b as [b|]; cbn.
  - rewrite bool_decide_eq_true. naive_solver.
  - split; [done|intros (? & ? & ? & ? & ?); done].
  - split; [done|intros (? & ? & ? & ? & ?); done].
  - split; [done|intros (? & ? & ? & ? & ?); done].
Qed.

Lemma bindColumn_ok i name dt :
  (0 <= i)%Z -> bindColumn outputSchema i name = Ok dt -> well_typed (ColumnRef i name dt).
Proof.
  unfold bindColumn, at_index. intros Hi E. destruct outputSchema as [schema|] eqn:Es.
  - destruct (schema !! Z.to_nat i) as [f|] eqn:Ef; [|done]. repeat inv_let. bool_hyps. subst.
    rewrite <- (Z2Nat.id i) by done. by eapply wt_column.
  - apply ok_inj in E as <-. by apply wt_column_unbound.
Qed.

Lemma bindField_ok e i name dt :
  (0 <= i)%Z -> well_typed e -> bindField e i name = Ok dt -> well_typed (FieldRef e i name dt).
Proof.
  unfold bindField, at_index. intros Hi He E. destruct (Bound e) eqn:Eb.
  - destruct (exprType e) as [t|] eqn:Et; [|done]. destruct t as [| | | | | | | | | | | | | | | | | | | |u|u|u tz|u| |p s|p s|p s|p s|el nu|fields|x v o|f]; try done.
    destruct (fields !! Z.to_nat i) as [[n [t nl]]|] eqn:Ef; [|done]. repeat inv_let. bool_hyps. subst.
    rewrite <- (Z2Nat.id i) by done. by eapply wt_field.
  - apply ok_inj in E as <-. by apply wt_field_unbound.
Qed.

Lemma parseV2Set_ok raw set :
  parseV2Set batch joinKeys joinKeyBatches raw = Ok set -> set_source set.
Proof.
  unfold parseV2Set. intros E. inv_let. destruct (unmarshal_string _ _) as [kind|]; [|done].
  destruct (bool_decide (kind = "literal")).
  - inv_let. destruct (unmarshal_int _ _) as [ref|]; [|done]. inv_let.
    destruct (payloadColumn batch "value" ref) as [[f [t cells]]|] eqn:Ep; [|done]. cbn in E.
    destruct t; try done. destruct cells as [|[] cells]; try done. injection E as <-. bool_hyps.
    eapply set_literal; [done|]. by apply payloadColumn_ok in Ep.
  - destruct (bool_decide (kind = "external")); [|done]. inv_let.
    destruct (unmarshal_int _ _) as [bi|]; [|done]. destruct (unmarshal_int _ _) as [ci|]; [|done].
    destruct (unmarshal_string _ _) as [name|]; [|done]. inv_let.
    destruct (externalKeys _ _ bi ci name) as [values'|] eqn:Ex; [|done]. injection E as <-.
    unfold externalKeys, at_index in Ex. destruct joinKeyBatches as [|b0 bs] eqn:Eb.
    + inv_let. destruct (joinKeys !! name) as [values|] eqn:Ek; [|done]. apply ok_inj in Ex as <-.
      by eapply set_named.
    + destruct ((b0 :: bs) !! Z.to_nat bi) as [keys|] eqn:Ek; [|done].
      destruct (Columns keys !! Z.to_nat ci) as [[f values]|] eqn:Ec; [|done]. inv_let.
      apply ok_inj in Ex as <-. eapply set_batch; [|done]. by rewrite Eb.
Qed.

Lemma callFunction_ok o function :
  callFunction allowSpatial o = Ok function ->
  function ∈ standard_functions \/ (function = intersects_extent /\ allowSpatial = true).
Proof.
  unfold callFunction. intros E.
  destruct (lookup_key o "function") as [[t [| | |s| |]]|]; repeat inv_let;
    rewrite ?containsString_spec in *; bool_hyps; auto.
Qed.

Lemma checkCall_ok function args :
  function ∈ standard_functions \/ (function = intersects_extent /\ allowSpatial = true) ->
  Forall well_typed args -> checkCall function args = Ok () -> well_typed (Call function args).
Proof.
  intros Hf Ws E. destruct args as [|a [|b [|? ?]]]; try done. unfold checkCall in E.
  inversion_clear Ws as [|?? Wa Ws']. inversion_clear Ws' as [|?? Wb _]. inv_let.
  rewrite containsString_spec in E0. destruct (bool_decide (function = "list_contains")) eqn:El.
  - bool_hyps. subst. destruct (exprType a) as [t|] eqn:Et; [|done]. cbn [fmap option_fmap option_map] in E.
    destruct (logicalV2Type t) eqn:Elt; try done. inv_let. apply compatible_same_type in E1.
    by apply (wt_list_contains a b t d elemNullable).
  - bool_hyps. destruct Hf as [Hf|[-> Hs]]; [|by apply wt_spatial].
    assert (function ∈ string_functions) as Hin.
    { unfold standard_functions in Hf. apply elem_of_app in Hf as [Hf|Hf]; [done|set_solver]. }
    rewrite bool_decide_true in E0 by done. cbn in E0. bool_hyps. by apply wt_strings.
Qed.

Section case_lemmas.
#[local] Set Default Proof Using "Type*".
Context (h : nat) (self : option RawMessage -> Z -> result string (v2Expr * Z)) (o : object)
  (nodes : Z) (Hself : sound_parser h self) (Hnodes : (nodes <= maxNodes)%Z).

Lemma child_ok key n e n' : child self o key n = Ok (e, n') -> sound h n (e, n').
Proof. apply Hself. Qed.

Lemma each_ok (f : RawMessage -> Z -> result string (v2Expr * Z)) (Q : v2Expr -> Prop) l n es n' :
  (forall raw n out, f raw n = Ok out -> sound h n out /\ Q (fst out)) ->
  (n <= maxNodes)%Z -> parse_each f l n = Ok (es, n') ->
  length es = length l /\ Forall well_typed es /\ Forall Q es /\
  (n' = n + foldr (fun e n => node_count e + n) 0 es)%Z /\
  foldr (fun e n => node_height e `max` n) 0 es <= h /\ (n' <= maxNodes)%Z.
Proof.
  intros Hf. revert n es n'. induction l as [|raw l IH]; intros n es n' Hn E; cbn in E.
  - injection E as <- <-. cbn. repeat split; (constructor || lia).
  - destruct (f raw n) as [[e n1]|] eqn:E1; [|done].
    destruct (Hf _ _ _ E1) as [(W & N & H & M) HQ]. cbn in *.
    destruct (parse_each f l n1) as [[es1 n2]|] eqn:E2; [|done]. injection E as <- <-.
    destruct (IH n1 es1 n2 M E2) as (L & Ws & Qs & N2 & H2 & M2). cbn.
    repeat split; [lia|by constructor|by constructor|lia|lia|done].
Qed.

Ltac start := intros E; cbn beta zeta in E; repeat inv_let; bool_hyps.
Ltac facts := repeat match goal with
  | H : child _ _ _ _ = Ok _ |- _ => apply child_ok in H as (? & ? & ? & ?); cbn in *
  | H : reference _ _ _ = Ok _ |- _ => apply reference_ok in H
  | H : payloadColumn _ _ _ = Ok (_, _) |- _ => apply payloadColumn_ok in H
  | H : parseV2Set _ _ _ _ = Ok _ |- _ => apply parseV2Set_ok in H
  | H : compatibleV2Types _ _ = true |- _ => apply compatible_same_type in H
  | H : containsString _ _ = true |- _ => rewrite containsString_spec in H; bool_hyps
  | H : is_bool _ = true |- _ => apply bool_decide_eq_true in H
  end.
Ltac finish := unfold sound; cbn [fst snd node_count node_height]; repeat split; try lia.

Lemma parseColumnRef_ok out : parseColumnRef outputSchema o nodes = Ok out -> sound (S h) (nodes - 1) out.
Proof. unfold parseColumnRef. start. facts. finish. by apply bindColumn_ok. Qed.

Lemma parseFieldRef_ok out : parseFieldRef self o nodes = Ok out -> sound (S h) (nodes - 1) out.
Proof. unfold parseFieldRef. start. facts. finish. by apply bindField_ok. Qed.

Lemma parseLiteral_ok out : parseLiteral batch o nodes = Ok out -> sound (S h) (nodes - 1) out.
Proof. unfold parseLiteral. start. facts. finish. by apply wt_literal. Qed.

Lemma parseBinary_ok node out :
  node ∈ ["comparison"; "arithmetic"] -> parseBinary self o nodes node = Ok out ->
  sound (S h) (nodes - 1) out.
Proof.
  unfold parseBinary. intros Hn E. cbn beta zeta in E. do 6 inv_let. facts.
  destruct (bool_decide (node = "comparison")) eqn:En; bool_hyps.
  - subst. repeat inv_let. facts. finish. by apply wt_comparison.
  - assert (node = "arithmetic") as -> by set_solver. repeat inv_let. bool_hyps. finish.
    apply wt_arithmetic; try done. unfold arithmetic_ops in *. set_solver.
Qed.

Lemma parseConjunction_ok node out :
  parseConjunction self o nodes node = Ok out -> sound (S h) (nodes - 1) out.
Proof.
  unfold parseConjunction. intros E. inv_let.
  destruct (unmarshal_slice _) as [[[|r1 [|r2 l]]|]|]; try done.
  destruct (parse_each _ _ nodes) as [[es n']|] eqn:Ee; [|done]. apply ok_inj in E as <-.
  eapply (each_ok _ (fun e => exprType e = Some BOOL)) in Ee as (L & Ws & Bs & N & H & M);
    [|clear Ee; intros raw n [e1 n1]; unfold parseBoolean; intros E; repeat inv_let; facts;
      split; [by apply Hself in E1|done]|done].
  destruct (bool_decide _); finish; cbn in L; [apply wt_and|apply wt_or]; (done || lia).
Qed.

Lemma parseUnary_ok node out : parseUnary self o nodes node = Ok out -> sound (S h) (nodes - 1) out.
Proof.
  unfold parseUnary. intros E. do 3 inv_let. facts.
  destruct (bool_decide _); repeat inv_let; facts; finish; [by apply wt_not|by apply wt_negate].
Qed.

Lemma parseIsNull_ok out : parseIsNull self o nodes = Ok out -> sound (S h) (nodes - 1) out.
Proof. unfold parseIsNull. start. facts. finish. by apply wt_is_null. Qed.

Lemma parseIn_ok out :
  parseIn batch joinKeys joinKeyBatches self o nodes = Ok out -> sound (S h) (nodes - 1) out.
Proof. unfold parseIn. start. facts. finish. by apply wt_in. Qed.

Lemma parseCast_ok out : parseCast batch self o nodes = Ok out -> sound (S h) (nodes - 1) out.
Proof.
  unfold parseCast. start. facts. finish. eapply wt_cast; try done.
  intros Hc. by rewrite Hc in *.
Qed.

Lemma parseCall_ok out : parseCall allowSpatial self o nodes = Ok out -> sound (S h) (nodes - 1) out.
Proof.
  unfold parseCall. intros E. do 3 inv_let.
  destruct (parse_each _ _ nodes) as [[es n']|] eqn:Ee; [|done]. repeat inv_let.
  eapply (each_ok _ (fun _ => True)) in Ee as (L & Ws & _ & N & H & M);
    [|intros raw n out E'; split; [by eapply Hself|done]|done].
  finish. apply checkCall_ok; [by eapply callFunction_ok|done|done].
Qed.

Lemma parseRuntimeFilter_ok out :
  parseRuntimeFilter batch self o nodes = Ok out ->
  exists e ref n, out = (RuntimeFilter e ref, n) /\ well_typed e /\
    (n = nodes - 1 + node_count (RuntimeFilter e ref))%Z /\ node_height (RuntimeFilter e ref) <= S h /\
    (n <= maxNodes)%Z.
Proof.
  unfold parseRuntimeFilter. intros E. do 5 inv_let.
  destruct (unmarshal_string _ _); [|done]. repeat inv_let. facts.
  do 3 eexists. cbn [node_count node_height]. repeat split; (done || lia).
Qed.

Lemma parseNode_ok node out :
  parseNode batch joinKeys joinKeyBatches allowSpatial outputSchema self o nodes false node = Ok out ->
  sound (S h) (nodes - 1) out.
Proof.
  unfold parseNode. intros E. repeat (case_bool_decide; [eauto using parseColumnRef_ok,
    parseFieldRef_ok, parseLiteral_ok, parseBinary_ok, parseConjunction_ok, parseUnary_ok,
    parseIsNull_ok, parseIn_ok, parseCast_ok, parseCall_ok|]).
  - done.
  - done.
Qed.
End case_lemmas.

Lemma parseV2Expr_ok fuel raw n out :
  parseV2Expr batch joinKeys joinKeyBatches allowSpatial outputSchema fuel false raw n = Ok out ->
  sound fuel n out.
Proof.
  revert raw n out. induction fuel as [|fuel IH]; intros raw n out E; [done|].
  cbn [parseV2Expr] in E. do 2 inv_let. destruct (unmarshal_string _ _) as [node|]; [|done]. bool_hyps.
  apply (parseNode_ok fuel) in E; [|exact IH|done]. by replace (n + 1 - 1)%Z with n in E by lia.
Qed.

Lemma sb_nonempty s : s <> "" -> (1 <= Z.of_nat (length (sb s)))%Z.
Proof. destruct s; [done|]. intros _. cbn. lia. Qed.

(** The root: a condition, or a runtime filter over a well-typed input. *)
Lemma parseRoot_ok raw e n :
  parseV2Expr batch joinKeys joinKeyBatches allowSpatial outputSchema maxDepth true raw 0 = Ok (e, n) ->
  (node_count e <= maxNodes)%Z /\ node_height e <= maxDepth /\
  (well_typed e \/ exists i ref, e = RuntimeFilter i ref /\ well_typed i).
Proof.
  change maxDepth with (S 63). rewrite parseV2Expr_S. intros E. cbn zeta in E. do 2 inv_let. bool_hyps.
  destruct (unmarshal_string _ _) as [node|]; [|done].
  assert (sound_parser 63 (parseV2Expr batch joinKeys joinKeyBatches allowSpatial outputSchema 63 false))
    as Hself by (intros ? ? ?; apply parseV2Expr_ok).
  destruct (decide (node = "runtime_filter")) as [->|Hn].
  - apply (parseRuntimeFilter_ok 63) in E as (i & ref & n' & [= -> ->] & W & N & H & M); [|done..].
    repeat split; [lia|done|]. right. eauto.
  - assert (parseNode batch joinKeys joinKeyBatches allowSpatial outputSchema
              (parseV2Expr batch joinKeys joinKeyBatches allowSpatial outputSchema 63 false)
              a 1 false node = Ok (e, n)) as E'.
    { rewrite <- E. unfold parseNode. repeat (case_bool_decide; [done|]). done. }
    apply (parseNode_ok 63) in E' as (W & N & H & M); [|done..]. cbn in *.
    repeat split; [lia|done|]. by left.
Qed.

Lemma parsed_valid raw delta p :
  parseV2Predicate batch joinKeys joinKeyBatches allowSpatial outputSchema raw delta = Ok p ->
  valid_predicate delta p.
Proof.
  unfold parseV2Predicate. intros E. do 4 inv_let.
  destruct (unmarshal_uint64 _ _) as [revision|] eqn:Er; [|done]. cbn beta zeta in E.
  apply unmarshal_uint64_range in Er; [|done].
  set (mode := ignoring (unmarshal_string (lookup_key a "mode") "") "") in *. clearbody mode.
  do 3 inv_let.
  destruct (parseV2Expr _ _ _ _ _ _ _ _ _) as [[e n]|] eqn:Ee; [|done].
  repeat inv_let. apply parseRoot_ok in Ee as (N & Hh & W).
  apply orb_true_iff in E4, E8. rewrite !bool_decide_eq_true in E4. bool_hyps.
  unfold valid_predicate. cbn [ID Revision Mode Expr].
  split; [split; [by apply sb_nonempty|done]|]. split; [done|].
  split; [destruct E4, delta; subst; auto; done|]. split; [done|]. split; [done|].
  destruct W as [W|(i & ref & -> & W)].
  - left. split; [done|]. destruct E8 as [Ei|Eb]; [destruct e; try done; inversion W|].
    by apply bool_decide_eq_true in Eb.
  - right. exists i, ref. repeat split; [done|]. cbn in E7. by bool_hyps.
Qed.
End typing.

(** C9: Decoding is typing: whatever text parseV2Predicate accepts against a
    filter batch is a predicate whose ID has 1 to 128 bytes, whose revision is
    an unsigned 64-bit number, which is required only outside a delta, and
    whose expression stays within 10000 nodes and a nesting of 64 and is a
    well-typed condition of the scan's schema and the batch's payload columns
    (so a column, literal, key set or cast target that a node names exists and
    has the type the node is read at), or an advisory runtime filter over a
    well-typed input. *)
Theorem decoded_predicate_valid batch keys jb sp schema raw delta p :
  parseV2Predicate batch keys jb sp schema raw delta = Ok p ->
  valid_predicate batch keys jb sp schema delta p.
Proof. apply parsed_valid. Qed.

Lemma decoded_predicate_valid_witness :
  let field name t := {| FieldName := name; FieldType := t; Nullable := true; Metadata := [] |} in
  let batch := {| SchemaMetadata := []; NumRows := 1;
                  Columns := [(field "value_0" INT64, {| ArrType := INT64; Cells := [CInt 5] |})] |} in
  let text := "{'id':'p','revision':3,'mode':'advisory','source':'query','expression':{'node':'not','expression':{'node':'comparison','op':'lt','left':{'node':'column_ref','column_index':0,'column_name':'n'},'right':{'node':'literal','value_ref':0}}}}" in
  exists (raw : RawMessage) (p : v2Predicate),
    (exists rest, parse (doc text) = Some (snd raw, rest)) /\
    node_count (Expr p) = 4%Z /\
    valid_predicate batch ∅ [] false (Some [field "n" INT64]) false p.
Proof.
  cbn zeta.
  match goal with |- exists raw p, (exists rest, parse (doc ?text) = _) /\ _ /\ valid_predicate ?b _ _ _ ?s _ _ =>
    pose (raw := match parse (doc text) with Some (j, _) => (doc_str text, j) | None => ("", JNull) end);
    pose (e := Not (Comparison "lt" (ColumnRef 0 "n" (Some INT64))
                      (Literal 0 {| ArrType := INT64; Cells := [CInt 5] |}
                         {| FieldName := "value_0"; FieldType := INT64; Nullable := true; Metadata := [] |})));
    pose (p := {| ID := "p"; Revision := 3; Mode := "advisory"; Expr := e |});
    pose (H := decoded_predicate_valid b ∅ [] false s raw false p)
  end.
  exists raw, p. split; [|split].
  - vm_compute. eexists. reflexivity.
  - vm_compute. reflexivity.
  - apply H. vm_compute. reflexivity.
Defined.
