(* ===== verification/FilterView.v ===== *)
(** * FilterView: the filters functions see (vgi/filter_v2.go,
    vgi/filter_pushdown.go)

    Functions do not read expression trees but [Filter]s: comparisons of a
    column with a constant, null tests, sets, conjunctions and disjunctions,
    and a view of the tree for everything else. [publicV2Filter] projects a
    tree onto them. The second part gives both their SQL meaning on a row, in
    three-valued logic, for the theorem that the projection keeps it.

    The filters only the first version of the encoding makes (struct and
    expression filters, which no decoder of the worker makes any more) are
    left out. *)

From S2P Require Import Prelude Bytes Strings ArrowTypes ArrowData Json FilterV2.

(** ** Filters *)

Definition OpEQ : string := "eq".
Definition OpNE : string := "ne".
Definition OpGT : string := "gt".
Definition OpGE : string := "ge".
Definition OpLT : string := "lt".
Definition OpLE : string := "le".

Inductive Filter :=
| ConstantFilter (columnName : string) (columnIndex : Z) (Op : string) (Value : Scalar)
| IsNullFilter (columnName : string) (columnIndex : Z)
| IsNotNullFilter (columnName : string) (columnIndex : Z)
| InFilter (columnName : string) (columnIndex : Z) (Values : Array)
| AndFilter (columnName : string) (columnIndex : Z) (Children : list Filter)
| OrFilter (columnName : string) (columnIndex : Z) (Children : list Filter)
| v2FilterView (expr : v2Expr).

(** The name of the first column found going down the tree, "" when none is. *)
Fixpoint v2RootColumn (e : v2Expr) : string :=
  match e with
  | ColumnRef _ name _ => name
  | FieldRef e _ _ _ | Not e | Negate e | IsNullNode e _ | In e _ _ | Cast e _ _
  | RuntimeFilter e _ => v2RootColumn e
  | Comparison _ l _ | Arithmetic _ l _ => v2RootColumn l
  | And es | Or es =>
      foldr (fun e rest => if bool_decide (v2RootColumn e = "") then rest else v2RootColumn e) "" es
  | Literal _ _ _ | Call _ _ => ""
  end.

(** [(&v2FilterView{expr}).ColumnIndex()] *)
Fixpoint viewColumnIndex (e : v2Expr) : Z :=
  match e with
  | FieldRef e _ _ _ => viewColumnIndex e
  | ColumnRef index _ _ => index
  | _ => -1
  end.

Definition ColumnName (f : Filter) : string :=
  match f with
  | ConstantFilter n _ _ _ | IsNullFilter n _ | IsNotNullFilter n _ | InFilter n _ _
  | AndFilter n _ _ | OrFilter n _ _ => n
  | v2FilterView e => v2RootColumn e
  end.

(** ** The projection *)

Definition boolColumnLeaf (e : v2Expr) : option Filter :=
  let '(ref, want) := match e with Not e => (e, false) | _ => (e, true) end in
  match ref with
  | ColumnRef index name (Some BOOL) =>
      Some (ConstantFilter name index OpEQ
              {| ScalarType := BOOL; ScalarCell := CBool want |})
  | _ => None
  end.

Definition inverse_op (op : string) : string :=
  match List.find (fun kv => bool_decide (fst kv = op))
      [(OpLT, OpGT); (OpLE, OpGE); (OpGT, OpLT); (OpGE, OpLE)] with
  | Some (_, inverse) => inverse
  | None => op
  end.

(** A column compared with a constant. *)
Definition constantLeaf (ref literal : v2Expr) (op : string) : option Filter :=
  match ref, literal with
  | ColumnRef index name _, Literal _ value _ =>
      match Cells value with
      | [c] =>
          if containsString [OpEQ; OpNE; OpLT; OpLE; OpGT; OpGE] op
          then Some (ConstantFilter name index op (GetScalar value c)) else None
      | _ => None
      end
  | _, _ => None
  end.
Definition comparisonLeaf (op : string) (l r : v2Expr) : option Filter :=
  match l, r with
  | ColumnRef _ _ _, Literal _ _ _ => constantLeaf l r op
  | _, _ => constantLeaf r l (inverse_op op)
  end.

Fixpoint publicV2Filter (e : v2Expr) : Filter :=
  match boolColumnLeaf e with
  | Some leaf => leaf
  | None =>
      match e with
      | Comparison op l r => default (v2FilterView e) (comparisonLeaf op l r)
      | IsNullNode (ColumnRef index name _) negated =>
          if negated then IsNotNullFilter name index else IsNullFilter name index
      | In (ColumnRef index name _) set false => InFilter name index (SetValues set)
      | And es => AndFilter (v2RootColumn e) (viewColumnIndex e) (map publicV2Filter es)
      | Or es => OrFilter (v2RootColumn e) (viewColumnIndex e) (map publicV2Filter es)
      | _ => v2FilterView e
      end
  end.

(** ** SQL meaning

    A condition is true, false or NULL ([None]). *)

Definition order_bool (a b : bool) : comparison :=
  match a, b with false, true => Lt | true, false => Gt | _, _ => Eq end.
Definition order_bytes (a b : bytes) : comparison :=
  if bool_decide (a = b) then Eq else if bytes_leb a b then Lt else Gt.

(** The order of two values of one type; NaN is above every other float. *)
Definition order_float (a b : float64) : comparison :=
  match a, b with
  | NaN, NaN => Eq
  | NaN, _ => Gt
  | _, NaN => Lt
  | _, _ => if float_eq a b then Eq else if float_lt a b then Lt else Gt
  end.
Definition cell_compare (a b : cell) : option comparison :=
  match a, b with
  | CBool a, CBool b => Some (order_bool a b)
  | CInt a, CInt b => Some (a ?= b)%Z
  | CFloat a, CFloat b => Some (order_float a b)
  | CStr a, CStr b => Some (order_bytes (sb a) (sb b))
  | CBin a, CBin b => Some (order_bytes a b)
  | _, _ => None
  end.

Definition op_holds (op : string) (c : comparison) : option bool :=
  snd <$> List.find (fun kv => bool_decide (fst kv = op))
    [(OpEQ, match c with Eq => true | _ => false end);
     (OpNE, match c with Eq => false | _ => true end);
     (OpLT, match c with Lt => true | _ => false end);
     (OpLE, match c with Gt => false | _ => true end);
     (OpGT, match c with Gt => true | _ => false end);
     (OpGE, match c with Lt => false | _ => true end)].

Definition sql_compare (op : string) (a b : cell) : option bool :=
  match cell_compare a b with Some c => op_holds op c | None => None end.

Definition sql_not (a : option bool) : option bool := negb <$> a.
Definition and_kleene (a b : option bool) : option bool :=
  match a, b with
  | Some false, _ | _, Some false => Some false
  | Some true, Some true => Some true
  | _, _ => None
  end.
Definition or_kleene (a b : option bool) : option bool :=
  match a, b with
  | Some true, _ | _, Some true => Some true
  | Some false, Some false => Some false
  | _, _ => None
  end.

(** [v IN (values)]: the disjunction of the equalities. *)
Definition sql_in (v : cell) (values : list cell) : option bool :=
  foldr (fun x acc => or_kleene (sql_compare OpEQ v x) acc) (Some false) values.

Definition of_tri (t : option bool) : cell := match t with Some b => CBool b | None => CNull end.
Definition to_tri (c : cell) : option bool := match c with CBool b => Some b | _ => None end.

Lemma to_of_tri t : to_tri (of_tri t) = t.
Proof. by destruct t. Qed.

(** *** Facts about the order *)

Lemma order_bytes_opp a b : order_bytes b a = CompOpp (order_bytes a b).
Proof.
  unfold order_bytes. rewrite (bool_decide_ext (b = a) (a = b)) by (split; congruence).
  case_bool_decide as E; [done|].
  destruct (bytes_leb a b) eqn:Eab, (bytes_leb b a) eqn:Eba; try done.
  - by destruct E; apply bytes_leb_antisym.
  - destruct (bytes_leb_total a b); congruence.
Qed.

Lemma order_float_opp a b : order_float b a = CompOpp (order_float a b).
Proof.
  destruct a as [m e|s|], b as [n f|t|]; try done; try (by destruct s); try (by destruct t);
    try (by destruct s, t).
  cbn. rewrite (Z.min_comm f e). generalize (m * 2 ^ (e - e `min` f))%Z (n * 2 ^ (f - e `min` f))%Z.
  intros x y. destruct (Z.lt_trichotomy x y) as [H|[->|H]].
  - rewrite (proj2 (Z.eqb_neq y x)), (proj2 (Z.eqb_neq x y)) by lia.
    rewrite (proj2 (Z.ltb_lt x y)), (proj2 (Z.ltb_ge y x)) by lia. done.
  - by rewrite Z.eqb_refl.
  - rewrite (proj2 (Z.eqb_neq y x)), (proj2 (Z.eqb_neq x y)) by lia.
    rewrite (proj2 (Z.ltb_lt y x)), (proj2 (Z.ltb_ge x y)) by lia. done.
Qed.

Lemma cell_compare_opp a b : cell_compare b a = CompOpp <$> cell_compare a b.
Proof.
  destruct a, b; cbn; try done.
  - by destruct b0, b.
  - by rewrite Z.compare_antisym.
  - by rewrite order_float_opp.
  - by rewrite order_bytes_opp.
  - by rewrite order_bytes_opp.
Qed.

(** A comparison read from the other side. *)
Lemma sql_compare_flip op a b :
  op ∈ [OpEQ; OpNE; OpGT; OpGE; OpLT; OpLE] -> sql_compare (inverse_op op) b a = sql_compare op a b.
Proof.
  intros Hop. unfold sql_compare. rewrite cell_compare_opp.
  destruct (cell_compare a b) as [c|]; [|done]. cbn [fmap option_fmap option_map].
  repeat (apply elem_of_cons in Hop as [->|Hop]; [by destruct c|]). by apply not_elem_of_nil in Hop.
Qed.

Section meaning.
(** A row by column index and name, and the value of the nodes whose meaning
    plays no part (arithmetic, casts, calls, fields, the remaining operators). *)
Context (row : Z -> string -> cell) (other : v2Expr -> cell).

Definition projected_ops : list string := [OpEQ; OpNE; OpLT; OpLE; OpGT; OpGE].

Fixpoint eval (e : v2Expr) : cell :=
  match e with
  | ColumnRef index name _ => row index name
  | Literal _ value _ => default CNull (head (Cells value))
  | Comparison op l r =>
      if bool_decide (op ∈ projected_ops) then of_tri (sql_compare op (eval l) (eval r)) else other e
  | And es => of_tri (foldr (fun e acc => and_kleene (to_tri (eval e)) acc) (Some true) es)
  | Or es => of_tri (foldr (fun e acc => or_kleene (to_tri (eval e)) acc) (Some false) es)
  | Not e => of_tri (sql_not (to_tri (eval e)))
  | IsNullNode e negated => CBool (xorb negated (is_null (eval e)))
  | In e set negated =>
      let t := sql_in (eval e) (Cells (SetValues set)) in
      of_tri (if negated then sql_not t else t)
  | _ => other e
  end.

Fixpoint holds (f : Filter) : option bool :=
  match f with
  | ConstantFilter n i op v => sql_compare op (row i n) (ScalarCell v)
  | IsNullFilter n i => Some (is_null (row i n))
  | IsNotNullFilter n i => Some (negb (is_null (row i n)))
  | InFilter n i values => sql_in (row i n) (Cells values)
  | AndFilter _ _ fs => foldr (fun f acc => and_kleene (holds f) acc) (Some true) fs
  | OrFilter _ _ fs => foldr (fun f acc => or_kleene (holds f) acc) (Some false) fs
  | v2FilterView e => to_tri (eval e)
  end.
End meaning.

(** ** The projection keeps the meaning *)

(** The column references of a tree. *)
Fixpoint columns (e : v2Expr) : list (Z * string * option DataType) :=
  match e with
  | ColumnRef index name dt => [(index, name, dt)]
  | Literal _ _ _ => []
  | FieldRef e _ _ _ | Not e | Negate e | IsNullNode e _ | In e _ _ | Cast e _ _
  | RuntimeFilter e _ => columns e
  | Comparison _ l r | Arithmetic _ l r => columns l ++ columns r
  | And es | Or es | Call _ es => concat (map columns es)
  end.

Definition boolean_cell (c : cell) : Prop := c = CNull \/ exists b, c = CBool b.

Section projection.
Context (row : Z -> string -> cell) (other : v2Expr -> cell).

(** The row holds booleans in the columns of type BOOLEAN that [e] names. *)
Definition typed_row (e : v2Expr) : Prop :=
  forall index name, (index, name, Some BOOL) ∈ columns e -> boolean_cell (row index name).

Lemma boolColumnLeaf_exact e leaf :
  typed_row e -> boolColumnLeaf e = Some leaf -> holds row other leaf = to_tri (eval row other e).
Proof.
  intros Ht E. unfold boolColumnLeaf in E.
  destruct e as [i n [[]|]| | | | | | |e| | | | | |]; try done.
  - injection E as <-. destruct (Ht i n) as [Hc|[b Hc]]; [by apply list_elem_of_singleton| |];
      cbn; rewrite Hc; [done|by destruct b].
  - destruct e as [i n [[]|]| | | | | | | | | | | | |]; try done.
    injection E as <-. destruct (Ht i n) as [Hc|[b Hc]]; [by apply list_elem_of_singleton| |];
      cbn; rewrite Hc; [done|by destruct b].
Qed.

Lemma constantLeaf_exact ref literal op f :
  constantLeaf ref literal op = Some f ->
  holds row other f = sql_compare op (eval row other ref) (eval row other literal) /\
  op ∈ projected_ops.
Proof.
  unfold constantLeaf. destruct ref, literal; try done.
  destruct (Cells value) as [|c [|? ?]] eqn:Ec; try done.
  rewrite containsString_spec. case_bool_decide as Hop; [|done]. intros [= <-].
  cbn. rewrite Ec. split; [done|]. unfold projected_ops. set_solver.
Qed.

Lemma inverse_projected op : inverse_op op ∈ projected_ops -> op ∈ projected_ops.
Proof.
  unfold inverse_op, projected_ops. cbn.
  repeat (case_bool_decide; cbn in *; [subst; set_solver|]). done.
Qed.

Lemma comparisonLeaf_exact op l r f :
  comparisonLeaf op l r = Some f ->
  holds row other f = sql_compare op (eval row other l) (eval row other r) /\ op ∈ projected_ops.
Proof.
  intros E.
  assert (constantLeaf l r op = Some f \/ constantLeaf r l (inverse_op op) = Some f) as [H|H]
    by (unfold comparisonLeaf in E; destruct l, r; auto).
  - by apply constantLeaf_exact.
  - apply constantLeaf_exact in H as [-> Hop%inverse_projected]. split; [|done].
    apply sql_compare_flip. unfold projected_ops in Hop. set_solver.
Qed.
End projection.

Section exact.
Context (row : Z -> string -> cell) (other : v2Expr -> cell).

Lemma fold_holds (f : option bool -> option bool -> option bool) init es :
  Forall (fun e => typed_row row e ->
            holds row other (publicV2Filter e) = to_tri (eval row other e)) es ->
  (forall e, e ∈ es -> typed_row row e) ->
  foldr (fun x acc => f (holds row other x) acc) init (map publicV2Filter es) =
  foldr (fun e acc => f (to_tri (eval row other e)) acc) init es.
Proof.
  induction 1 as [|e es He Hes IH]; intros Ht; cbn; [done|].
  rewrite He by (apply Ht; set_solver). rewrite IH; [done|]. intros e' He'. apply Ht. set_solver.
Qed.

Lemma typed_children e es :
  columns e = concat (map columns es) -> typed_row row e -> forall e', e' ∈ es -> typed_row row e'.
Proof.
  intros Ec Ht e' He' i n Hin. apply Ht. rewrite Ec. apply list_elem_of_In, in_concat.
  exists (columns e'). split; [by apply in_map, list_elem_of_In|by apply list_elem_of_In].
Qed.

Lemma public_exact e :
  typed_row row e -> holds row other (publicV2Filter e) = to_tri (eval row other e).
Proof.
  induction e as [i n dt|e i n dt IH|r v f|op l r IHl IHr|op l r IHl IHr|es IH|es IH|e IH|e IH
    |e b IH|e s b IH|e r t IH|f es IH|e r IH] using v2Expr_induction; intros Ht;
    match goal with |- context [publicV2Filter ?e] =>
      destruct (boolColumnLeaf e) as [leaf|] eqn:El;
      [replace (publicV2Filter e) with leaf by (cbn [publicV2Filter]; by rewrite El);
       by apply boolColumnLeaf_exact|cbn [publicV2Filter]; rewrite El]
    end; try done.
  - destruct (comparisonLeaf op l r) as [f|] eqn:Ec; [|done].
    change (holds row other f = to_tri (eval row other (Comparison op l r))).
    apply comparisonLeaf_exact with (row := row) (other := other) in Ec as [-> Hop].
    cbn [eval]. by rewrite bool_decide_true, to_of_tri.
  - cbn [holds eval]. rewrite to_of_tri. apply fold_holds; [done|]. by apply (typed_children (And es)).
  - cbn [holds eval]. rewrite to_of_tri. apply fold_holds; [done|]. by apply (typed_children (Or es)).
  - destruct e; try done. cbn. by destruct b.
  - destruct e; try done. destruct b; [done|]. cbn. by rewrite to_of_tri.
Qed.
End exact.

(** C8: on every row whose BOOLEAN columns hold booleans, the filter a function
    is shown has the same three-valued SQL meaning as the expression tree it
    was made from: a bare boolean column as an equality with TRUE, its negation
    as an equality with FALSE, a comparison written constant first with the
    operator turned round, sets, null tests and nested conjunctions included. *)
Theorem publicV2Filter_exact row other e :
  typed_row row e -> holds row other (publicV2Filter e) = to_tri (eval row other e).
Proof. apply public_exact. Qed.

Lemma publicV2Filter_exact_witness :
  let field := {| FieldName := "value_0"; FieldType := INT64; Nullable := true; Metadata := [] |} in
  let two := Literal 0 {| ArrType := INT64; Cells := [CInt 2] |} field in
  let e := And [Not (ColumnRef 1 "flag" (Some BOOL));
                Comparison "lt" two (ColumnRef 0 "n" (Some INT64))] in
  let row i (n : string) := if (i =? 0)%Z then CInt 3 else CBool false in
  publicV2Filter e =
    AndFilter "flag" (-1)
      [ConstantFilter "flag" 1 OpEQ {| ScalarType := BOOL; ScalarCell := CBool false |};
       ConstantFilter "n" 0 OpGT {| ScalarType := INT64; ScalarCell := CInt 2 |}] /\
  holds row (fun _ => CNull) (publicV2Filter e) = Some true.
Proof.
  intros field two e row. split; [vm_compute; reflexivity|].
  pose (H := publicV2Filter_exact row (fun _ => CNull) e).
  rewrite H; [vm_compute; reflexivity|].
  intros i n Hin. unfold boolean_cell, row. destruct (i =? 0)%Z eqn:Ei; [|eauto].
  apply Z.eqb_eq in Ei as ->. cbn in Hin. set_solver.
Defined.
