(* ===== verification/FilterHelpers.v ===== *)
(** * FilterHelpers: what functions ask of their filters
    (vgi/filter_helpers.go)

    The bounds and the discrete values the filters leave a column, and a SQL
    clause with parameters. The theorems say when pruning with the bounds or
    the values cannot lose a row, in the SQL meaning of FilterView.v. *)

From S2P Require Import Prelude Bytes Strings ArrowTypes ArrowData Json FilterV2 FilterView.

(** ** Comparing scalars *)

(** [scalarToFloat64]: a null scalar holds the zero of its type. *)
Definition scalarToFloat64 (s : Scalar) : option float64 :=
  match ScalarType s with
  | INT8 | INT16 | INT32 | INT64 | UINT8 | UINT16 | UINT32 | UINT64 =>
      Some (float64_of_int match ScalarCell s with CInt z => z | _ => 0 end)
  | FLOAT32 | FLOAT64 => Some match ScalarCell s with CFloat f => f | _ => Finite 0 0 end
  | _ => None
  end.

Definition scalar_rel (rel : float64 -> float64 -> bool) (a b : Scalar) : bool :=
  match scalarToFloat64 a, scalarToFloat64 b with
  | Some x, Some y => rel x y
  | _, _ => false
  end.
Definition scalarGreater := scalar_rel (fun x y => float_lt y x).
Definition scalarGreaterEqual := scalar_rel (fun x y => float_le y x).
Definition scalarLess := scalar_rel float_lt.
Definition scalarLessEqual := scalar_rel float_le.

(** ** Bounds *)

Record ColumnBounds := {
  MinValue : option Scalar;
  MinInclusive : bool;
  MaxValue : option Scalar;
  MaxInclusive : bool
}.

(** [collectColumnFilters] *)
Definition collectColumnFilters (fs : list Filter) (name : string) : list Filter :=
  concat (map (fun f =>
      if bool_decide (ColumnName f = name) then
        match f with
        | AndFilter _ _ cs => filter (fun c => ColumnName c = name) cs
        | _ => [f]
        end
      else []) fs).

(** One step of [arrayBoundsScalar]. *)
Definition bound_step (st : option Scalar * option Scalar) (v : Scalar)
  : option Scalar * option Scalar :=
  let '(lo, hi) := st in
  if is_null (ScalarCell v) then st else
  (match lo with Some l => if scalarLess v l then Some v else lo | None => Some v end,
   match hi with Some h => if scalarGreater v h then Some v else hi | None => Some v end).
Definition arrayBoundsScalar (arr : Array) : option (Scalar * Scalar) :=
  match foldl bound_step (None, None) (map (GetScalar arr) (Cells arr)) with
  | (Some lo, Some hi) => Some (lo, hi)
  | _ => None
  end.

(** Whether a new bound replaces the one there is. *)
Definition replaces (rel : Scalar -> Scalar -> bool) (v : Scalar) (cur : option Scalar) : bool :=
  match cur with None => true | Some c => rel v c end.

Definition no_bounds : ColumnBounds :=
  {| MinValue := None; MinInclusive := true; MaxValue := None; MaxInclusive := true |}.
Definition set_min (b : ColumnBounds) (v : Scalar) (inclusive : bool) : ColumnBounds :=
  {| MinValue := Some v; MinInclusive := inclusive;
     MaxValue := MaxValue b; MaxInclusive := MaxInclusive b |}.
Definition set_max (b : ColumnBounds) (v : Scalar) (inclusive : bool) : ColumnBounds :=
  {| MinValue := MinValue b; MinInclusive := MinInclusive b;
     MaxValue := Some v; MaxInclusive := inclusive |}.

(** The bounds of an IN set. *)
Definition in_bounds (b : ColumnBounds) (values : Array) : ColumnBounds :=
  match arrayBoundsScalar values with
  | None => b
  | Some (lo, hi) =>
      let b := if replaces scalarGreaterEqual lo (MinValue b) then set_min b lo true else b in
      if replaces scalarLessEqual hi (MaxValue b) then set_max b hi true else b
  end.

(** A comparison other than an equality. *)
Definition constant_bounds (b : ColumnBounds) (op : string) (v : Scalar) : ColumnBounds :=
  if bool_decide (op = OpGT) then
    if replaces scalarGreater v (MinValue b) then set_min b v false else b
  else if bool_decide (op = OpGE) then
    if replaces scalarGreaterEqual v (MinValue b) then set_min b v true else b
  else if bool_decide (op = OpLT) then
    if replaces scalarLess v (MaxValue b) then set_max b v false else b
  else if bool_decide (op = OpLE) then
    if replaces scalarLessEqual v (MaxValue b) then set_max b v true else b
  else b.

(** The loop of [GetColumnBounds]; an equality ends it. *)
Fixpoint bounds_loop (b : ColumnBounds) (fs : list Filter) : ColumnBounds :=
  match fs with
  | [] => b
  | InFilter _ _ values :: fs => bounds_loop (in_bounds b values) fs
  | ConstantFilter _ _ op v :: fs =>
      if bool_decide (op = OpEQ)
      then {| MinValue := Some v; MinInclusive := true; MaxValue := Some v; MaxInclusive := true |}
      else bounds_loop (constant_bounds b op v) fs
  | _ :: fs => bounds_loop b fs
  end.
Definition GetColumnBounds (fs : list Filter) (name : string) : option ColumnBounds :=
  let b := bounds_loop no_bounds (collectColumnFilters fs name) in
  match MinValue b, MaxValue b with
  | None, None => None
  | _, _ => Some b
  end.

(** ** Single values *)

Definition HasFilterForColumn (fs : list Filter) (name : string) : bool :=
  existsb (fun f => bool_decide (ColumnName f = name)) fs.
Definition GetColumnFilters (fs : list Filter) (name : string) : list Filter :=
  filter (fun f => ColumnName f = name) fs.

Definition GetColumnConstant (fs : list Filter) (name : string) : option Scalar :=
  head (omap (fun f =>
      match f with
      | ConstantFilter n _ op v =>
          if bool_decide (n = name) && bool_decide (op = OpEQ) then Some v else None
      | _ => None
      end) fs).
Definition GetColumnInValues (fs : list Filter) (name : string) : option Array :=
  head (omap (fun f =>
      match f with
      | InFilter n _ values => if bool_decide (n = name) then Some values else None
      | _ => None
      end) fs).

(** ** Go values *)

Inductive goval :=
| GoNil
| GoInt (t : DataType) (z : Z)
| GoFloat (t : DataType) (f : float64)
| GoString (s : string)
| GoBool (b : bool).

(** Equality of interface values, as of map keys. *)
Definition go_eq (a b : goval) : bool :=
  match a, b with
  | GoNil, GoNil => true
  | GoInt t z, GoInt t' z' => bool_decide (t = t') && (z =? z')%Z
  | GoFloat t f, GoFloat t' f' => bool_decide (t = t') && float_eq f f'
  | GoString s, GoString s' => bool_decide (s = s')
  | GoBool b, GoBool b' => Bool.eqb b b'
  | _, _ => false
  end.

Section values.
(** Of Arrow: the text of a scalar, and what appending a scalar to a builder of
    a type stores ([None] when it refuses). *)
Context (scalar_String : Scalar -> string) (Append : DataType -> Scalar -> option cell).

Definition scalarToGo (s : Scalar) : goval :=
  match ScalarCell s, ScalarType s with
  | CNull, _ => GoNil
  | CInt z, (INT8 | INT16 | INT32 | INT64 | UINT8 | UINT16 | UINT32 | UINT64) =>
      GoInt (ScalarType s) z
  | CFloat f, (FLOAT32 | FLOAT64) => GoFloat (ScalarType s) f
  | CStr t, STRING => GoString t
  | CBool b, BOOL => GoBool b
  | _, _ => GoString (scalar_String s)
  end.

Definition arrayToGoSlice (arr : Array) : list goval :=
  map (fun c => scalarToGo (GetScalar arr c)) (Cells arr).

(** A builder of the type, to which the scalars are appended. *)
Definition build (t : DataType) (l : list Scalar) : Array :=
  {| ArrType := t; Cells := map (fun s => default CNull (Append t s)) l |}.

(** [scalarToArray]: the types with a builder of their own store the value. *)
Definition scalarToArray (s : Scalar) : Array :=
  match ScalarType s with
  | INT64 | INT32 => {| ArrType := ScalarType s;
                        Cells := [CInt match ScalarCell s with CInt z => z | _ => 0 end] |}
  | FLOAT64 => {| ArrType := FLOAT64;
                  Cells := [CFloat match ScalarCell s with CFloat f => f | _ => Finite 0 0 end] |}
  | STRING => {| ArrType := STRING;
                 Cells := [CStr match ScalarCell s with CStr t => t | _ => "" end] |}
  | BOOL => {| ArrType := BOOL;
               Cells := [CBool match ScalarCell s with CBool b => b | _ => false end] |}
  | t => build t [s]
  end.

(** The scalars of one branch of a disjunction. *)
Definition branchValues (name : string) (f : Filter) : option (list Scalar) :=
  if bool_decide (ColumnName f = name) then
    match f with
    | ConstantFilter _ _ op v => if bool_decide (op = OpEQ) then Some [v] else None
    | InFilter _ _ values => Some (map (GetScalar values) (Cells values))
    | _ => None
    end
  else None.

(** Of scalars with one Go value, the first. *)
Fixpoint dedup (seen : list goval) (l : list Scalar) : list Scalar :=
  match l with
  | [] => []
  | s :: l =>
      let key := scalarToGo s in
      if existsb (go_eq key) seen then dedup seen l else s :: dedup (key :: seen) l
  end.

Definition orDiscreteValues (children : list Filter) (name : string) : option Array :=
  match map_opt (branchValues name) children with
  | None => None
  | Some branches =>
      match dedup [] (concat branches) with
      | [] => None
      | (s :: _) as deduped => Some (build (ScalarType s) deduped)
      end
  end.

Fixpoint values_loop (fs : list Filter) (name : string) : option Array :=
  match fs with
  | [] => None
  | ConstantFilter _ _ op v :: fs =>
      if bool_decide (op = OpEQ) then Some (scalarToArray v) else values_loop fs name
  | InFilter _ _ values :: _ => Some values
  | OrFilter _ _ cs :: fs =>
      match orDiscreteValues cs name with
      | Some union => Some union
      | None => values_loop fs name
      end
  | _ :: fs => values_loop fs name
  end.
Definition GetColumnValues (fs : list Filter) (name : string) : option Array :=
  values_loop (collectColumnFilters fs name) name.

(** ** The SQL clause *)

Definition Symbol (op : string) : string :=
  match List.find (fun kv => bool_decide (fst kv = op))
    [(OpEQ, "="); (OpNE, "!="); (OpGT, ">"); (OpGE, ">="); (OpLT, "<"); (OpLE, "<=")] with
  | Some (_, symbol) => symbol
  | None => op
  end.

Section clause.
Context (quote : string -> string) (placeholder : string).

Fixpoint filterToSQL (f : Filter) : string * list goval :=
  let col := quote (ColumnName f) in
  match f with
  | ConstantFilter _ _ op v =>
      (col +:+ " " +:+ Symbol op +:+ " " +:+ placeholder, [scalarToGo v])
  | IsNullFilter _ _ => (col +:+ " IS NULL", [])
  | IsNotNullFilter _ _ => (col +:+ " IS NOT NULL", [])
  | InFilter _ _ values =>
      (col +:+ " IN (" +:+ Join (map (fun _ => placeholder) (Cells values)) ", " +:+ ")",
       arrayToGoSlice values)
  | AndFilter _ _ fs =>
      ("(" +:+ Join (map (fun f => fst (filterToSQL f)) fs) " AND " +:+ ")",
       concat (map (fun f => snd (filterToSQL f)) fs))
  | OrFilter _ _ fs =>
      ("(" +:+ Join (map (fun f => fst (filterToSQL f)) fs) " OR " +:+ ")",
       concat (map (fun f => snd (filterToSQL f)) fs))
  | v2FilterView _ => ("1=1", [])
  end.

Definition ToSQL (fs : list Filter) : string * list goval :=
  (Join (map (fun f => fst (filterToSQL f)) fs) " AND ",
   concat (map (fun f => snd (filterToSQL f)) fs)).
End clause.
End values.

(** ** Pruning with the bounds loses no row *)

(** The value passes the bounds. *)
Definition within (v : cell) (b : ColumnBounds) : Prop :=
  (forall m, MinValue b = Some m ->
     sql_compare (if MinInclusive b then OpGE else OpGT) v (ScalarCell m) = Some true) /\
  (forall m, MaxValue b = Some m ->
     sql_compare (if MaxInclusive b then OpLE else OpLT) v (ScalarCell m) = Some true).

(** An integer set whose members are exact as floats. *)
Definition exact_int (c : cell) : Prop :=
  c = CNull \/ exists z, c = CInt z /\ (Z.abs z <= 2 ^ 53)%Z.
Definition exact_ints (values : Array) : Prop :=
  IsIntegerType (ArrType values) = true /\ Forall exact_int (Cells values).

Lemma cell_compare_eq_int v z : cell_compare v (CInt z) = Some Eq -> v = CInt z.
Proof. destruct v; try done. cbn. intros E. injection E as E. by apply Z.compare_eq_iff in E as ->. Qed.

Lemma sql_compare_true op v x :
  sql_compare op v x = Some true -> exists c, cell_compare v x = Some c /\ op_holds op c = Some true.
Proof. unfold sql_compare. destruct (cell_compare v x) as [c|]; [eauto|done]. Qed.

Lemma sql_compare_eq v x : sql_compare OpEQ v x = Some true -> cell_compare v x = Some Eq.
Proof. intros (c & Hc & H)%sql_compare_true. rewrite Hc. by destruct c. Qed.

Lemma sql_in_true v l :
  sql_in v l = Some true -> exists x, x ∈ l /\ cell_compare v x = Some Eq.
Proof.
  induction l as [|x l IH]; [done|].
  change (sql_in v (x :: l)) with (or_kleene (sql_compare OpEQ v x) (sql_in v l)).
  destruct (sql_compare OpEQ v x) as [[]|] eqn:E.
  - intros _. exists x. split; [set_solver|by apply sql_compare_eq].
  - destruct (sql_in v l) as [[]|]; try done.
    intros _. destruct IH as (y & ? & ?); [done|]. exists y. set_solver.
  - destruct (sql_in v l) as [[]|]; try done.
    intros _. destruct IH as (y & ? & ?); [done|]. exists y. set_solver.
Qed.

Lemma scalar_int t z :
  IsIntegerType t = true -> (Z.abs z <= 2 ^ 53)%Z ->
  scalarToFloat64 {| ScalarType := t; ScalarCell := CInt z |} = Some (Finite z 0).
Proof.
  intros Ht Hz. unfold scalarToFloat64, float64_of_int. cbn. rewrite round53_small by done.
  by destruct t.
Qed.

(** What [bound_step] has seen: the least and the greatest of the integers. *)
Definition bounds_of (t : DataType) (seen : list cell) (st : option Scalar * option Scalar) : Prop :=
  match st with
  | (None, None) => forall z, CInt z ∉ seen
  | (Some lo, Some hi) =>
      exists a b, lo = {| ScalarType := t; ScalarCell := CInt a |} /\
        hi = {| ScalarType := t; ScalarCell := CInt b |} /\
        (Z.abs a <= 2 ^ 53)%Z /\ (Z.abs b <= 2 ^ 53)%Z /\
        forall z, CInt z ∈ seen -> (a <= z <= b)%Z
  | _ => False
  end.

Lemma bound_step_ok t seen st c :
  IsIntegerType t = true -> exact_int c -> bounds_of t seen st ->
  bounds_of t (seen ++ [c]) (bound_step st {| ScalarType := t; ScalarCell := c |}).
Proof.
  intros Ht Hc Hst. destruct st as [lo hi]. unfold bound_step. cbn [ScalarCell].
  destruct Hc as [-> | (z & -> & Hz)]; cbn [is_null].
  - destruct lo as [lo|], hi as [hi|]; cbn [bounds_of] in *; try done.
    + destruct Hst as (a & b & E1 & E2 & Ha & Hb & H). exists a, b. do 4 (split; [done|]).
      intros z [Hin|Hin%list_elem_of_singleton]%elem_of_app; [by apply H|done].
    + intros z. rewrite elem_of_app. intros [H|H]; [by apply (Hst z)|set_solver].
  - unfold scalarLess, scalarGreater, scalar_rel.
    destruct lo as [lo|], hi as [hi|]; cbn [bounds_of] in *; try done.
    + destruct Hst as (a & b & -> & -> & Ha & Hb & H).
      rewrite !scalar_int, !float_lt_int by done.
      destruct (z <? a)%Z eqn:E1, (b <? z)%Z eqn:E2; bool_hyps; cbn [bounds_of];
        do 2 eexists; do 4 (split; [done|]);
        (intros y [Hin|Hin%list_elem_of_singleton]%elem_of_app;
          [apply H in Hin; lia|injection Hin as ->; lia]).
    + exists z, z. do 4 (split; [done|]).
      intros y [Hin|Hin%list_elem_of_singleton]%elem_of_app;
        [by apply Hst in Hin|injection Hin as ->; lia].
Qed.

Lemma arrayBounds_ok values lo hi :
  exact_ints values -> arrayBoundsScalar values = Some (lo, hi) ->
  bounds_of (ArrType values) (Cells values) (Some lo, Some hi).
Proof.
  intros [Ht Hc] E. unfold arrayBoundsScalar in E.
  assert (forall l seen st, Forall exact_int l -> bounds_of (ArrType values) seen st ->
    bounds_of (ArrType values) (seen ++ l) (foldl bound_step st (map (GetScalar values) l))) as Hloop.
  { induction l as [|c l IH]; intros seen st Hl Hst; cbn; [by rewrite app_nil_r|].
    inversion_clear Hl. rewrite cons_middle, app_assoc. apply IH; [done|]. by apply bound_step_ok. }
  specialize (Hloop (Cells values) [] (None, None) Hc (fun z => not_elem_of_nil _)).
  cbn [app] in Hloop.
  destruct (foldl _ _ _) as [[l|] [h|]]; try done. by injection E as <- <-.
Qed.

Lemma within_min v b m (inc : bool) :
  within v b -> sql_compare (if inc then OpGE else OpGT) v (ScalarCell m) = Some true ->
  within v (set_min b m inc).
Proof. intros [H1 H2] H. split; cbn; [|done]. by intros ? [= <-]. Qed.
Lemma within_max v b m (inc : bool) :
  within v b -> sql_compare (if inc then OpLE else OpLT) v (ScalarCell m) = Some true ->
  within v (set_max b m inc).
Proof. intros [H1 H2] H. split; cbn; [done|]. by intros ? [= <-]. Qed.

Lemma in_bounds_ok v b values :
  exact_ints values -> sql_in v (Cells values) = Some true -> within v b ->
  within v (in_bounds b values).
Proof.
  intros Hx Hin Hb. unfold in_bounds.
  destruct (arrayBoundsScalar values) as [[lo hi]|] eqn:E; [|done].
  apply arrayBounds_ok in E as (a & c & -> & -> & _ & _ & H); [|done].
  apply sql_in_true in Hin as (x & Hx' & Ex).
  destruct Hx as [_ Hc]. destruct (proj1 (Forall_forall _ _) Hc x Hx') as [->|(z & -> & _)];
    [by destruct v|].
  apply cell_compare_eq_int in Ex as ->. apply H in Hx'.
  assert (forall b, within (CInt z) b -> within (CInt z) (set_min b {| ScalarType := ArrType values; ScalarCell := CInt a |} true)) as Hmin.
  { intros b' Hb'. apply within_min; [done|]. unfold sql_compare. cbn [cell_compare ScalarCell].
    destruct (Z.compare_spec z a); [done|lia|done]. }
  assert (forall b, within (CInt z) b -> within (CInt z) (set_max b {| ScalarType := ArrType values; ScalarCell := CInt c |} true)) as Hmax.
  { intros b' Hb'. apply within_max; [done|]. unfold sql_compare. cbn [cell_compare ScalarCell].
    destruct (Z.compare_spec z c); [done|done|lia]. }
  cbn zeta. repeat break_if; auto.
Qed.

Lemma constant_bounds_ok v b op x :
  sql_compare op v (ScalarCell x) = Some true -> within v b -> within v (constant_bounds b op x).
Proof.
  intros H Hb. unfold constant_bounds.
  repeat (case_bool_decide; [subst; break_if; [|done]; (by apply within_min || by apply within_max)|]).
  done.
Qed.

Section sound.
Context (row : Z -> string -> cell) (other : v2Expr -> cell) (name : string) (v : cell)
  (Hrow : forall i, row i name = v).

Definition sound_sets (fs : list Filter) : Prop :=
  forall n i values, InFilter n i values ∈ fs -> exact_ints values.

Lemma bounds_loop_ok fs b :
  Forall (fun f => ColumnName f = name /\ holds row other f = Some true) fs -> sound_sets fs ->
  within v b -> within v (bounds_loop b fs).
Proof using Hrow.
  intros Hf. revert b. induction Hf as [|f fs [Hn Hf] Hfs IH]; intros b Hs Hb; [done|].
  assert (sound_sets fs) as Hs' by (intros n i vs Hin; apply (Hs n i vs); by apply list_elem_of_further).
  destruct f as [n i op x|n i|n i|n i vs|n i cs|n i cs|e]; cbn [bounds_loop]; auto; cbn in Hn, Hf; subst n;
    rewrite Hrow in Hf.
  - case_bool_decide as Eop; [|apply IH; [done|by apply constant_bounds_ok]].
    subst op. apply sql_compare_eq in Hf. split; cbn; intros m [= <-]; unfold sql_compare; by rewrite Hf.
  - apply IH; [done|]. apply in_bounds_ok; [|done..]. eapply Hs. apply list_elem_of_here.
Qed.

Lemma and_kleene_true fs :
  foldr (fun f acc => and_kleene (holds row other f) acc) (Some true) fs = Some true ->
  Forall (fun f => holds row other f = Some true) fs.
Proof.
  induction fs as [|f fs IH]; cbn; [constructor|].
  destruct (holds row other f) as [[]|] eqn:E; cbn; [|done|].
  - destruct (foldr _ _ fs) as [[]|]; try done. intros _. constructor; auto.
  - destruct (foldr _ _ fs) as [[]|]; done.
Qed.

(** The filters the helpers look at hold when all filters do. *)
Lemma collected_hold fs :
  Forall (fun f => holds row other f = Some true) fs ->
  Forall (fun f => ColumnName f = name /\ holds row other f = Some true)
    (collectColumnFilters fs name).
Proof.
  induction 1 as [|f fs Hf Hfs IH]; cbn; [constructor|]. apply Forall_app. split; [|done].
  case_bool_decide as En; [|constructor].
  assert (Forall (fun f => ColumnName f = name /\ holds row other f = Some true) [f]) as H1
    by (by repeat constructor).
  destruct f as [| | | |n i cs| |]; try done. apply Forall_forall. intros c Hc.
  apply list_elem_of_filter in Hc as [Hn Hc]. split; [done|].
  apply and_kleene_true in Hf. by apply (proj1 (Forall_forall _ _) Hf).
Qed.
End sound.

(** C38: a row on which every filter is true has a value within the bounds
    [GetColumnBounds] reports, when the IN sets on the column are of integers
    that are exact as float64: a scan that skips what lies outside the bounds
    skips no such row. *)
Theorem GetColumnBounds_sound row other name v fs b :
  (forall i, row i name = v) ->
  Forall (fun f => holds row other f = Some true) fs ->
  sound_sets (collectColumnFilters fs name) ->
  GetColumnBounds fs name = Some b -> within v b.
Proof.
  intros Hrow Hf Hs E. unfold GetColumnBounds in E.
  set (b0 := bounds_loop no_bounds (collectColumnFilters fs name)) in E.
  assert (within v b0) as H.
  { eapply bounds_loop_ok; [done|by apply collected_hold|done|]. by split. }
  clearbody b0. destruct (MinValue b0), (MaxValue b0); congruence.
Qed.

Definition int64_scalar (z : Z) : Scalar := {| ScalarType := INT64; ScalarCell := CInt z |}.

Lemma GetColumnBounds_sound_witness :
  let fs := [AndFilter "n" (-1) [InFilter "n" 0 {| ArrType := INT64; Cells := [CInt 9; CInt 2; CNull] |};
                                 ConstantFilter "n" 0 OpLT (int64_scalar 7)]] in
  GetColumnBounds fs "n" =
    Some {| MinValue := Some (int64_scalar 2); MinInclusive := true;
            MaxValue := Some (int64_scalar 7); MaxInclusive := false |} /\
  within (CInt 2) {| MinValue := Some (int64_scalar 2); MinInclusive := true;
            MaxValue := Some (int64_scalar 7); MaxInclusive := false |}.
Proof.
  intros fs. split; [vm_compute; reflexivity|].
  pose (H := GetColumnBounds_sound (fun _ _ => CInt 2) (fun _ => CNull) "n" (CInt 2) fs).
  apply H; [done|by repeat constructor| |vm_compute; reflexivity].
  intros n i values Hin. cbn in Hin.
  apply elem_of_cons in Hin as [[= -> -> ->]|Hin]; [|by apply list_elem_of_singleton in Hin].
  split; [done|]. apply Forall_cons_2; [right; by exists 9%Z|].
  apply Forall_cons_2; [right; by exists 2%Z|]. apply Forall_singleton. by left.
Defined.

(** Sets of other types have no such guarantee: a set of strings is given its
    first member as both bounds, *)
Lemma text_set_bounds :
  let f := InFilter "s" 0 {| ArrType := STRING; Cells := [CStr "a"; CStr "b"] |} in
  let a := {| ScalarType := STRING; ScalarCell := CStr "a" |} in
  GetColumnBounds [f] "s" = Some {| MinValue := Some a; MinInclusive := true;
                                    MaxValue := Some a; MaxInclusive := true |} /\
  holds (fun _ _ => CStr "b") (fun _ => CNull) f = Some true /\
  sql_compare OpLE (CStr "b") (CStr "a") = Some false.
Proof. vm_compute. auto. Qed.

(** and integers past 2^53 are compared after rounding. *)
Lemma rounded_set_bounds :
  let f := InFilter "n" 0 {| ArrType := INT64; Cells := [CInt (2 ^ 53); CInt (2 ^ 53 + 1)] |} in
  let m := int64_scalar (2 ^ 53) in
  GetColumnBounds [f] "n" = Some {| MinValue := Some m; MinInclusive := true;
                                    MaxValue := Some m; MaxInclusive := true |} /\
  holds (fun _ _ => CInt (2 ^ 53 + 1)) (fun _ => CNull) f = Some true /\
  sql_compare OpLE (CInt (2 ^ 53 + 1)) (CInt (2 ^ 53)) = Some false.
Proof. vm_compute. auto. Qed.

(** ** Pruning with the discrete values loses no row *)

(** The kind of cell an array of a type holds, where the code tells types
    apart. *)
Definition cell_ok (t : DataType) (c : cell) : Prop :=
  match t, c with
  | _, CNull => True
  | (INT8 | INT16 | INT32 | INT64 | UINT8 | UINT16 | UINT32 | UINT64), CInt _ => True
  | (FLOAT32 | FLOAT64), CFloat _ => True
  | STRING, CStr _ => True
  | BOOL, CBool _ => True
  | (INT8 | INT16 | INT32 | INT64 | UINT8 | UINT16 | UINT32 | UINT64
     | FLOAT32 | FLOAT64 | STRING | BOOL), _ => False
  | _, _ => True
  end.

(** The scalars a filter compares its column with. *)
Fixpoint scalars_of (f : Filter) : list Scalar :=
  match f with
  | ConstantFilter _ _ _ v => [v]
  | InFilter _ _ values => map (GetScalar values) (Cells values)
  | OrFilter _ _ cs => concat (map scalars_of cs)
  | _ => []
  end.

Lemma float_eq_scale m e n f d :
  (d <= e)%Z -> (d <= f)%Z ->
  float_eq (Finite m e) (Finite n f) = (m * 2 ^ (e - d) =? n * 2 ^ (f - d))%Z.
Proof.
  intros He Hf. cbn. set (k := (e `min` f)%Z).
  assert (0 < 2 ^ (k - d))%Z by (apply Z.pow_pos_nonneg; lia).
  replace (e - d)%Z with ((e - k) + (k - d))%Z by lia.
  replace (f - d)%Z with ((f - k) + (k - d))%Z by lia.
  rewrite !Z.pow_add_r, !Z.mul_assoc by lia.
  generalize (m * 2 ^ (e - k))%Z (n * 2 ^ (f - k))%Z. intros x y.
  destruct (Z.eqb_spec x y) as [->|Hn]; [by rewrite Z.eqb_refl|].
  symmetry. apply Z.eqb_neq. intros E. apply Hn. apply Z.mul_cancel_r in E; [done|lia].
Qed.

Lemma float_eq_trans a b c : float_eq a b = true -> float_eq b c = true -> float_eq a c = true.
Proof.
  destruct a as [m e|s|], b as [n f|t|], c as [k g|u|]; try (intros; discriminate).
  - set (d := ((e `min` f) `min` g)%Z). rewrite !(float_eq_scale _ _ _ _ d) by lia.
    rewrite !Z.eqb_eq. lia.
  - cbn. rewrite !Bool.eqb_true_iff. congruence.
Qed.

Lemma order_float_eq a b : order_float a b = Eq -> a = b \/ float_eq a b = true.
Proof.
  destruct a as [m e|s|], b as [n f|t|]; auto; try (destruct s); try (destruct t); auto;
    try discriminate.
  cbn. set (d := (e `min` f)%Z). destruct (Z.eqb_spec (m * 2 ^ (e - d)) (n * 2 ^ (f - d))); [auto|].
  by destruct (_ <? _)%Z.
Qed.

Lemma float_eq_order a b : float_eq a b = true -> order_float a b = Eq.
Proof. destruct a as [m e|s|], b as [n f|t|]; try done; unfold order_float; by intros ->. Qed.

Lemma cell_compare_float_trans v f g :
  cell_compare v (CFloat f) = Some Eq -> float_eq f g = true ->
  cell_compare v (CFloat g) = Some Eq.
Proof.
  destruct v as [| | |a| | | |]; try done. cbn. intros E H. injection E as E. f_equal.
  apply order_float_eq in E as [->|E]; [by apply float_eq_order|].
  apply float_eq_order. by eapply float_eq_trans.
Qed.

(** The types whose scalars the code tells apart by their text alone. *)
Definition text_type (t : DataType) : bool :=
  match t with
  | INT8 | INT16 | INT32 | INT64 | UINT8 | UINT16 | UINT32 | UINT64
  | FLOAT32 | FLOAT64 | STRING | BOOL => false
  | _ => true
  end.

Lemma go_eq_cells scalar_String t v s s' :
  (text_type t = true -> scalar_String s = scalar_String s' -> ScalarCell s = ScalarCell s') ->
  ScalarType s = t -> ScalarType s' = t -> cell_ok t (ScalarCell s) -> cell_ok t (ScalarCell s') ->
  cell_compare v (ScalarCell s) = Some Eq ->
  go_eq (scalarToGo scalar_String s) (scalarToGo scalar_String s') = true ->
  cell_compare v (ScalarCell s') = Some Eq.
Proof.
  intros Hinj Ht Ht' Hok Hok' Hc E.
  assert (text_type t = true -> scalar_String s = scalar_String s' ->
          cell_compare v (ScalarCell s') = Some Eq) as Hstr.
  { intros Hx Hs. by rewrite <- (Hinj Hx Hs). }
  clear Hinj. destruct s as [t1 c], s' as [t2 c']; cbn in Ht, Ht', Hok, Hok', Hc, Hstr; subst t1 t2.
  unfold scalarToGo in E. cbn [ScalarType ScalarCell] in *.
  destruct c; [by destruct v|..]; destruct t; try done; destruct c'; try done; cbn [go_eq] in E;
    bool_hyps; subst; auto.
  all: try (by eapply cell_compare_float_trans).
  all: try (apply Bool.eqb_prop in E; by subst).
Qed.

Section values_sound.
#[local] Set Default Proof Using "All".
Context (scalar_String : Scalar -> string) (Append : DataType -> Scalar -> option cell)
  (t : DataType)
  (Append_same : forall s, Append (ScalarType s) s = Some (ScalarCell s))
  (String_inj : text_type t = true -> forall s s', ScalarType s = t -> ScalarType s' = t ->
     scalar_String s = scalar_String s' -> ScalarCell s = ScalarCell s').

Lemma dedup_covers seen l s :
  s ∈ l ->
  existsb (go_eq (scalarToGo scalar_String s)) seen = true \/
  exists s', s' ∈ dedup scalar_String seen l /\ s' ∈ l /\
    (s' = s \/ go_eq (scalarToGo scalar_String s) (scalarToGo scalar_String s') = true).
Proof.
  revert seen. induction l as [|x l IH]; intros seen Hs; [by apply not_elem_of_nil in Hs|].
  cbn [dedup]. apply elem_of_cons in Hs as [->|Hs].
  - destruct (existsb _ seen) eqn:E; [auto|]. right. exists x. set_solver.
  - destruct (existsb (go_eq (scalarToGo scalar_String x)) seen) eqn:E.
    + destruct (IH seen Hs) as [?|(s' & ? & ? & ?)]; [auto|]. right. exists s'. set_solver.
    + destruct (IH (scalarToGo scalar_String x :: seen) Hs) as [H|(s' & ? & ? & ?)].
      * cbn in H. apply orb_true_iff in H as [H|H]; [|auto]. right. exists x. set_solver.
      * right. exists s'. set_solver.
Qed.

Lemma dedup_sub seen l s : s ∈ dedup scalar_String seen l -> s ∈ l.
Proof.
  revert seen. induction l as [|x l IH]; intros seen; cbn [dedup]; [done|].
  destruct (existsb _ seen); [intros H%IH; set_solver|].
  intros [->|H%IH]%elem_of_cons; set_solver.
Qed.

(** A value equal to [v] is among the cells. *)
Definition has_value (v : cell) (arr : Array) : Prop :=
  exists x, x ∈ Cells arr /\ cell_compare v x = Some Eq.

Lemma build_has u l v s :
  (forall s, s ∈ l -> ScalarType s = u) -> s ∈ l -> cell_compare v (ScalarCell s) = Some Eq ->
  has_value v (build Append u l).
Proof.
  intros Ht Hs Hc. exists (ScalarCell s). split; [|done]. cbn. apply list_elem_of_fmap.
  exists s. split; [|done]. rewrite <- (Ht s Hs), Append_same. done.
Qed.

Lemma scalarToArray_has v s :
  cell_ok (ScalarType s) (ScalarCell s) -> cell_compare v (ScalarCell s) = Some Eq ->
  has_value v (scalarToArray Append s).
Proof.
  intros Hok Hc. destruct s as [u c]. cbn [ScalarType ScalarCell] in *.
  assert (has_value v (build Append u [{| ScalarType := u; ScalarCell := c |}])) as Hb.
  { eapply build_has; [by intros s ->%list_elem_of_singleton|by apply list_elem_of_singleton|done]. }
  unfold scalarToArray. cbn [ScalarType ScalarCell].
  destruct u; try exact Hb; (destruct c; try done; try (by destruct v));
    (eexists; split; [by apply list_elem_of_singleton|done]).
Qed.

Section one_type.
Context (row : Z -> string -> cell) (other : v2Expr -> cell) (name : string) (v : cell)
  (Hrow : forall i, row i name = v).

Definition typed_scalars (l : list Scalar) : Prop :=
  forall s, s ∈ l -> ScalarType s = t /\ cell_ok t (ScalarCell s).

(** A branch that holds has the value among its scalars. *)
Lemma branch_has f l :
  branchValues name f = Some l -> holds row other f = Some true ->
  exists s, s ∈ l /\ cell_compare v (ScalarCell s) = Some Eq.
Proof.
  unfold branchValues. intros E Hf. case_bool_decide as Hn; [|done].
  destruct f as [n i op x|n i|n i|n i vs|n i cs|n i cs|e]; try done; cbn in Hn; subst n; cbn in Hf;
    rewrite Hrow in Hf.
  - case_bool_decide; [|done]. injection E as <-. subst op. exists x.
    split; [by apply list_elem_of_singleton|by apply sql_compare_eq].
  - injection E as <-. apply sql_in_true in Hf as (c & Hc & Ec).
    exists (GetScalar vs c). split; [|done]. apply list_elem_of_fmap. eauto.
Qed.

Lemma or_has cs branches :
  map_opt (branchValues name) cs = Some branches ->
  foldr (fun f acc => or_kleene (holds row other f) acc) (Some false) cs = Some true ->
  exists s, s ∈ concat branches /\ cell_compare v (ScalarCell s) = Some Eq.
Proof.
  revert branches. induction cs as [|f cs IH]; cbn; intros branches E Hor; [done|].
  destruct (branchValues name f) as [l|] eqn:El; [|done].
  destruct (map_opt _ cs) as [ls|]; [|done]. injection E as <-. cbn.
  destruct (holds row other f) as [[]|] eqn:Ef.
  - destruct (branch_has f l El Ef) as (s & ? & ?). exists s. set_solver.
  - destruct (foldr _ _ cs) as [[]|]; try done.
    destruct (IH ls eq_refl eq_refl) as (s & ? & ?). exists s. set_solver.
  - destruct (foldr _ _ cs) as [[]|]; try done.
    destruct (IH ls eq_refl eq_refl) as (s & ? & ?). exists s. set_solver.
Qed.

Lemma branch_scalars f l : branchValues name f = Some l -> l = scalars_of f.
Proof.
  unfold branchValues. case_bool_decide; [|done]. destruct f; try done; cbn; [|by intros [= <-]].
  case_bool_decide; [by intros [= <-]|done].
Qed.

Lemma or_scalars cs branches :
  map_opt (branchValues name) cs = Some branches -> concat branches = concat (map scalars_of cs).
Proof.
  revert branches. induction cs as [|f cs IH]; cbn; intros branches E; [by injection E as <-|].
  destruct (branchValues name f) as [l|] eqn:El; [|done].
  destruct (map_opt _ cs) as [ls|]; [|done]. injection E as <-. cbn.
  by rewrite (branch_scalars f l El), (IH ls).
Qed.

Lemma orDiscrete_has cs arr :
  typed_scalars (concat (map scalars_of cs)) ->
  foldr (fun f acc => or_kleene (holds row other f) acc) (Some false) cs = Some true ->
  orDiscreteValues scalar_String Append cs name = Some arr -> has_value v arr.
Proof.
  intros Ht Hor E. unfold orDiscreteValues in E.
  destruct (map_opt _ cs) as [branches|] eqn:Eb; [|done].
  destruct (or_has cs branches Eb Hor) as (s & Hs & Hc). rewrite (or_scalars cs branches Eb) in *.
  destruct (dedup_covers [] _ s Hs) as [?|(s' & Hd & Hs' & Heq)]; [done|].
  assert (cell_compare v (ScalarCell s') = Some Eq) as Hc'.
  { destruct Heq as [->|Heq]; [done|]. destruct (Ht s Hs), (Ht s' Hs').
    apply (go_eq_cells scalar_String t v s s'); try done. intros Hx. by apply String_inj. }
  assert (forall x, x ∈ dedup scalar_String [] (concat (map scalars_of cs)) -> ScalarType x = t) as Hall
    by (intros x Hx%dedup_sub; by apply Ht).
  destruct (dedup _ _ _) as [|s1 l] eqn:Ed; [done|]. injection E as <-.
  rewrite (Hall s1) by apply list_elem_of_here. by apply (build_has t _ v s').
Qed.

Lemma values_loop_has fs arr :
  Forall (fun f => ColumnName f = name /\ holds row other f = Some true) fs ->
  (forall f, f ∈ fs -> typed_scalars (scalars_of f)) ->
  values_loop scalar_String Append fs name = Some arr -> has_value v arr.
Proof.
  induction 1 as [|f fs [Hn Hf] Hfs IH]; intros Ht E; [done|].
  assert (values_loop scalar_String Append fs name = Some arr -> has_value v arr) as Hrest
    by (intros E'; apply IH; [|done]; intros g Hg; apply Ht; by apply list_elem_of_further).
  assert (typed_scalars (scalars_of f)) as Htf by (apply Ht, list_elem_of_here).
  destruct f as [n i op x|n i|n i|n i vs|n i cs|n i cs|e]; cbn [values_loop] in E; auto; cbn in Hn, Hf;
    subst n.
  - rewrite Hrow in Hf. case_bool_decide; [|auto]. subst op. injection E as <-.
    destruct (Htf x) as [Hx1 Hx2]; [by apply list_elem_of_singleton|].
    apply scalarToArray_has; [by rewrite Hx1|by apply sql_compare_eq].
  - rewrite Hrow in Hf. injection E as <-. by apply sql_in_true in Hf.
  - destruct (orDiscreteValues _ _ cs name) as [u|] eqn:Eu; [|auto]. injection E as <-.
    by eapply orDiscrete_has.
Qed.
End one_type.
End values_sound.

(** a row on which every filter is true has its value among those
    [GetColumnValues] reports, whether they come from an equality, an IN set or
    a disjunction whose branches all pin the column: a scan that visits only
    the reported values misses no such row. *)
Theorem GetColumnValues_sound scalar_String Append row other name v t fs arr :
  (forall s, Append (ScalarType s) s = Some (ScalarCell s)) ->
  (text_type t = true -> forall s s', ScalarType s = t -> ScalarType s' = t ->
     scalar_String s = scalar_String s' -> ScalarCell s = ScalarCell s') ->
  (forall i, row i name = v) ->
  Forall (fun f => holds row other f = Some true) fs ->
  (forall f, f ∈ collectColumnFilters fs name -> typed_scalars t (scalars_of f)) ->
  GetColumnValues scalar_String Append fs name = Some arr -> has_value v arr.
Proof.
  intros HA HS Hrow Hf Ht E.
  eapply (values_loop_has _ _ t HA HS row other name v Hrow); [by apply collected_hold|done|done].
Qed.

(** n = 3 OR n IN (5, 3, 8), beside a filter on another column. *)
Lemma GetColumnValues_sound_witness :
  let fs := [IsNotNullFilter "m" 1;
             OrFilter "n" (-1) [ConstantFilter "n" 0 OpEQ (int64_scalar 3);
                                InFilter "n" 0 {| ArrType := INT64; Cells := [CInt 5; CInt 3; CInt 8] |}]] in
  let Append := fun (_ : DataType) (s : Scalar) => Some (ScalarCell s) in
  GetColumnValues (fun _ => "") Append fs "n" =
    Some {| ArrType := INT64; Cells := [CInt 3; CInt 5; CInt 8] |} /\
  has_value (CInt 8) {| ArrType := INT64; Cells := [CInt 3; CInt 5; CInt 8] |}.
Proof.
  intros fs Append. split; [vm_compute; reflexivity|].
  pose (H := GetColumnValues_sound (fun _ => "") Append (fun _ _ => CInt 8) (fun _ => CNull) "n"
               (CInt 8) INT64 fs).
  apply H; [done|done|done|by repeat constructor| |vm_compute; reflexivity].
  intros f Hf. cbn in Hf. apply list_elem_of_singleton in Hf as ->. intros s Hs. cbn in Hs.
  repeat (apply elem_of_cons in Hs as [->|Hs]; [done|]). by apply not_elem_of_nil in Hs.
Defined.
