(* ===== verification/FilterDelta.v ===== *)
(** * FilterDelta: filters that change during a scan (vgi/filter_v2.go,
    vgi/filter_delta_history.go, vgi/protocol.go)

    A scan starts from a snapshot of its predicates and tightens them with
    delta documents, each applied whole or not at all. Every predicate ID has a
    revision, which outlives the predicate (a tombstone): an update that is not
    newer than its ID's revision is stale and ignored. An HTTP worker rebuilds
    the state on every turn from the snapshot and a compacted history of the
    deltas, and the recorded order of the predicates. *)

From S2P Require Import Prelude Bytes Unicode Strings ArrowTypes ArrowData Json FilterV2 FilterView.

(** ** State *)

Record PushdownFilters := {
  Filters : list Filter;
  v2Predicates : list v2Predicate;
  v2Revisions : gmap string Z;
  v2Required : gset string;
  v2Context : string;
  v2JoinKeyBatches : list RecordBatch;
  v2Spatial : bool;
  v2OutputSchema : option (list Field)
}.

(** [pf.v2Predicates], [pf.v2Revisions] and the filters made from them. *)
Definition commit (pf : PushdownFilters) (preds : list v2Predicate) (revs : gmap string Z)
  : PushdownFilters :=
  {| Filters := map (fun p => publicV2Filter (Expr p)) preds;
     v2Predicates := preds;
     v2Revisions := revs;
     v2Required := v2Required pf;
     v2Context := v2Context pf;
     v2JoinKeyBatches := v2JoinKeyBatches pf;
     v2Spatial := v2Spatial pf;
     v2OutputSchema := v2OutputSchema pf |}.

(** ** The snapshot *)

(** One predicate of the snapshot. *)
Definition snapshot_step (batch : RecordBatch) (joinKeys : gmap string Array) (pf : PushdownFilters)
    (value : RawMessage) : result string PushdownFilters :=
  let? p := parseV2Predicate batch joinKeys (v2JoinKeyBatches pf) (v2Spatial pf)
              (v2OutputSchema pf) value false in
  check! (Revision p =? 0)%Z else "snapshot predicate revisions must be zero" in
  check! bool_decide (v2Revisions pf !! ID p = None) else "duplicate predicate ID" in
  Ok {| Filters := Filters pf ++ [publicV2Filter (Expr p)];
        v2Predicates := v2Predicates pf ++ [p];
        v2Revisions := <[ID p := 0%Z]> (v2Revisions pf);
        v2Required := if bool_decide (Mode p = "required") then {[ID p]} ∪ v2Required pf
                      else v2Required pf;
        v2Context := v2Context pf;
        v2JoinKeyBatches := v2JoinKeyBatches pf;
        v2Spatial := v2Spatial pf;
        v2OutputSchema := v2OutputSchema pf |}.

Fixpoint fold_result {E A B} (f : A -> B -> result E A) (a : A) (l : list B) : result E A :=
  match l with
  | [] => Ok a
  | b :: l => let? a := f a b in fold_result f a l
  end.

Definition maxPredicates : nat := 1024.
Definition maxPredicateIDs : nat := 4096.

Definition is_document (d : v2Document) (kind : string) : bool :=
  bool_decide (Encoding d = "vgi.filters.v2") && bool_decide (Semantics d = filterV2Semantics)
  && bool_decide (Kind d = kind).

Definition deserializeFiltersV2 (batch : RecordBatch) (joinKeys : gmap string Array)
    (joinKeyBatches : list RecordBatch) (allowSpatial : bool) (outputSchema : option (list Field))
  : result string PushdownFilters :=
  let? (context, raw) := validateFilterV2Batch batch in
  let? doc := decodeStrictText raw decode_document in
  check! is_document doc "snapshot" else "initial filter document must be a vgi.filters.v2 snapshot" in
  let predicates := default [] (Predicates doc) in
  check! bool_decide (Updates doc = None) && (length predicates <=? maxPredicates)%nat
    else "invalid snapshot members or predicate limit exceeded" in
  check! bool_decide (predicates = []) || bool_decide (is_Some outputSchema)
    else "Filter Encoding v2 requires the authoritative unprojected bind output schema" in
  fold_result (snapshot_step batch joinKeys)
    {| Filters := []; v2Predicates := []; v2Revisions := ∅; v2Required := ∅;
       v2Context := context; v2JoinKeyBatches := joinKeyBatches; v2Spatial := allowSpatial;
       v2OutputSchema := outputSchema |} predicates.

(** ** A delta *)

Record predicateRevision := { prID : string; prRevision : Z }.

#[global] Instance predicateRevision_dec : EqDecision predicateRevision.
Proof. solve_decision. Defined.

(** An update as its own text gives it: the ID and revision, and for an upsert
    the predicate it parses to, which is only looked at when the update is not
    stale. *)
Record update := {
  target : predicateRevision;
  installs : option (result string v2Predicate)
}.

Definition readUpdate (pf : PushdownFilters) (batch : RecordBatch) (keys : gmap string Array)
    (raw : RawMessage) : result string update :=
  let? o := decodeStrict (Some raw) decode_object in
  match unmarshal_string (lookup_key o "operation") "", unmarshal_string (lookup_key o "id") "",
        unmarshal_uint64 (lookup_key o "revision") 0 with
  | Ok operation, Ok id, Ok revision =>
      check! negb (bool_decide (id = "")) && (Z.of_nat (length (sb id)) <=? 128)%Z
        else "invalid delta update" in
      let target := {| prID := id; prRevision := revision |} in
      if bool_decide (operation = "remove") then
        let? _ := exactKeys o ["operation"; "id"; "revision"] in
        Ok {| target := target; installs := None |}
      else if bool_decide (operation = "upsert") then
        let? _ := exactKeys o ["operation"; "id"; "revision"; "mode"; "source"; "expression"] in
        match unmarshal_string (lookup_key o "mode") "", unmarshal_string (lookup_key o "source") "",
              unmarshal_map (lookup_key o "expression") with
        | Ok mode, Ok source, Ok (Some _) =>
            check! bool_decide (mode = "advisory") && containsString predicate_sources source
              else "invalid delta upsert" in
            Ok {| target := target;
                  installs := Some (parseV2Predicate batch keys (v2JoinKeyBatches pf) (v2Spatial pf)
                                      (v2OutputSchema pf) raw true) |}
        | _, _, _ => Err "invalid delta upsert"
        end
      else Err "unknown delta operation"
  | _, _, _ => Err "invalid delta update"
  end.

(** The predicates but the one of [id]; the slice filtered in place is
    [applyDelta]'s own copy. *)
Definition removeV2Predicate (values : list v2Predicate) (id : string) : list v2Predicate :=
  filter (fun p => ID p <> id) values.

(** What the loop over a delta's updates has built. *)
Record progress := {
  nextPredicates : list v2Predicate;
  nextRevisions : gmap string Z;
  carried : list predicateRevision
}.

Definition isStale (revs : gmap string Z) (pr : predicateRevision) : bool :=
  match revs !! prID pr with Some old => (prRevision pr <=? old)%Z | None => false end.

Definition update_step (required : gset string) (st : progress) (u : update)
  : result string progress :=
  let id := prID (target u) in
  check! negb (bool_decide (id ∈ map prID (carried st))) else "duplicate delta predicate ID" in
  let carried := carried st ++ [target u] in
  check! negb (bool_decide (id ∈ required)) else "delta targets required predicate" in
  if isStale (nextRevisions st) (target u) then
    Ok {| nextPredicates := nextPredicates st; nextRevisions := nextRevisions st; carried := carried |}
  else
    let revs := <[id := prRevision (target u)]> (nextRevisions st) in
    match installs u with
    | None =>
        Ok {| nextPredicates := removeV2Predicate (nextPredicates st) id;
              nextRevisions := revs; carried := carried |}
    | Some predicate =>
        let? p := predicate in
        Ok {| nextPredicates := removeV2Predicate (nextPredicates st) id ++ [p];
              nextRevisions := revs; carried := carried |}
    end.

(** The document of a delta under the context of the scan. *)
Definition delta_document (pf : PushdownFilters) (batch : RecordBatch)
  : result string (list RawMessage) :=
  let? (context, raw) := validateFilterV2Batch batch in
  check! bool_decide (context = v2Context pf) else "evaluation context changed within scan" in
  let? doc := decodeStrictText raw decode_document in
  check! is_document doc "delta" && bool_decide (Predicates doc = None)
    else "invalid v2 delta document" in
  Ok (default [] (Updates doc)).

(** [applyDelta]: the pairs the delta carried and the state after it; on an
    error the state is the one before. *)
Definition applyDelta (pf : PushdownFilters) (batch : RecordBatch) (keys : gmap string Array)
  : result string (list predicateRevision * PushdownFilters) :=
  let? updates := delta_document pf batch in
  let? st := fold_result (fun st raw =>
                 let? u := readUpdate pf batch keys raw in
                 update_step (v2Required pf) st u)
               {| nextPredicates := v2Predicates pf; nextRevisions := v2Revisions pf; carried := [] |}
               updates in
  check! (size (nextRevisions st) <=? maxPredicateIDs)%nat else "predicate ID limit exceeded" in
  Ok (carried st, commit pf (nextPredicates st) (nextRevisions st)).

Definition ApplyDelta (pf : PushdownFilters) (batch : RecordBatch) (keys : gmap string Array)
  : result string PushdownFilters :=
  let? (_, pf) := applyDelta pf batch keys in Ok pf.

(** ** The order of the predicates *)

Definition predicateOrder (pf : PushdownFilters) : list string := map ID (v2Predicates pf).

(** Takes the predicates out of [byID] in the recorded order. *)
Fixpoint arrange (byID : gmap string v2Predicate) (order : list string)
  : result string (list v2Predicate) :=
  match order with
  | [] => Ok []
  | id :: order =>
      match byID !! id with
      | None => Err "recorded predicate order does not match the replayed filter state"
      | Some p => let? next := arrange (delete id byID) order in Ok (p :: next)
      end
  end.

Definition restorePredicateOrder (pf : PushdownFilters) (order : list string)
  : result string PushdownFilters :=
  if bool_decide (predicateOrder pf = order) then Ok pf else
  let byID := foldl (fun m p => <[ID p := p]> m) ∅ (v2Predicates pf) in
  check! (length order =? size byID)%nat
    else "recorded predicate order does not match the replayed filter state" in
  let? next := arrange byID order in
  Ok (commit pf next (v2Revisions pf)).

(** ** The history of a stream

    [DeserializeRecordBatch] reads Arrow IPC. *)

Section history.
Context (DeserializeRecordBatch : bytes -> result string RecordBatch).

(** [json.Unmarshal] into a [predicateRevision] that holds [cur]. *)
Fixpoint set_revision (cur : predicateRevision) (o : object) : result string predicateRevision :=
  match o with
  | [] => Ok cur
  | (key, raw) :: o =>
      match field_of ["id"; "revision"] key with
      | None => set_revision cur o
      | Some f =>
          if bool_decide (f = "id") then
            let? id := unmarshal_string (Some raw) (prID cur) in
            set_revision {| prID := id; prRevision := prRevision cur |} o
          else
            let? revision := unmarshal_uint64 (Some raw) (prRevision cur) in
            set_revision {| prID := prID cur; prRevision := revision |} o
      end
  end.
Definition unmarshal_revision (cur : predicateRevision) (raw : RawMessage)
  : result string predicateRevision :=
  match snd raw with
  | JNull => Ok cur
  | JObj o => set_revision cur o
  | _ => Err "json: cannot unmarshal into Go value of type vgi.predicateRevision"
  end.

Definition zero_revision : predicateRevision := {| prID := ""; prRevision := 0 |}.

(** Into a slice: an element that was there before is decoded into. *)
Fixpoint unmarshal_revisions (backing : list predicateRevision) (l : list RawMessage)
  : result string (list predicateRevision) :=
  match l with
  | [] => Ok []
  | raw :: l =>
      let? pr := unmarshal_revision (default zero_revision (head backing)) raw in
      let? prs := unmarshal_revisions (tail backing) l in
      Ok (pr :: prs)
  end.

(** The [updates] of a recorded delta: the slice, and the array behind it that
    a repeated member is decoded into. *)
Fixpoint unmarshal_updates (st : list predicateRevision * list predicateRevision) (o : object)
  : result string (list predicateRevision * list predicateRevision) :=
  match o with
  | [] => Ok st
  | (key, raw) :: o =>
      match field_of ["updates"] key with
      | None => unmarshal_updates st o
      | Some _ =>
          let? l := unmarshal_slice (Some raw) in
          match l with
          | None => unmarshal_updates ([], []) o
          | Some l =>
              let? prs := unmarshal_revisions (snd st) l in
              unmarshal_updates (prs, prs ++ drop (length prs) (snd st)) o
          end
      end
  end.

(** Reads the revisions of a delta that was already applied. [json.Unmarshal]
    takes a text of one value and whitespace. *)
Definition filterDeltaRevisions (delta : bytes) : result string (list predicateRevision) :=
  let? batch := DeserializeRecordBatch delta in
  let? (_, raw) := validateFilterV2Batch batch in
  match parse raw with
  | Some (j, rest) =>
      check! bool_decide (skip_ws rest = []) else "reading a recorded filter delta" in
      match j with
      | JNull => Ok []
      | JObj o => let? (prs, _) := unmarshal_updates ([], []) o in Ok prs
      | _ => Err "reading a recorded filter delta"
      end
  | None => Err "reading a recorded filter delta"
  end.

(** [keep]: whether one of the pairs is wanted, and what is still wanted. *)
Fixpoint take_wanted (wanted : gmap string Z) (pairs : list predicateRevision)
  : bool * gmap string Z :=
  match pairs with
  | [] => (false, wanted)
  | pr :: pairs =>
      if bool_decide (wanted !! prID pr = Some (prRevision pr)) then
        (true, snd (take_wanted (delete (prID pr) wanted) pairs))
      else take_wanted wanted pairs
  end.
Fixpoint keep_deltas {D} (pairs : D -> list predicateRevision) (wanted : gmap string Z) (l : list D)
  : list D :=
  match l with
  | [] => []
  | d :: l =>
      let '(needed, wanted) := take_wanted wanted (pairs d) in
      if needed then d :: keep_deltas pairs wanted l else keep_deltas pairs wanted l
  end.

Definition recordFilterDelta (current : PushdownFilters) (history : list bytes) (delta : bytes)
    (carried : list predicateRevision) : result string (list bytes) :=
  let? earlier := map_result (fun d => let? prs := filterDeltaRevisions d in Ok (d, prs)) history in
  Ok (map fst (keep_deltas snd (v2Revisions current) (earlier ++ [(delta, carried)]))).

(** A stream's filters with its history: the state a tick changes. *)
Record stream := {
  current : PushdownFilters;
  deltas : list bytes;
  order : list string
}.

(** [applyTick] on a tick that carries the delta [raw]. *)
Definition applyTick (keys : gmap string Array) (st : stream) (raw : bytes) : result string stream :=
  let? batch := DeserializeRecordBatch raw in
  let? (carried, pf) := applyDelta (current st) batch keys in
  let? ds := recordFilterDelta pf (deltas st) raw carried in
  Ok {| current := pf; deltas := ds; order := predicateOrder pf |}.

(** The filters of an HTTP turn, from the snapshot. *)
Definition replayFilterDeltas (keys : gmap string Array) (pf : PushdownFilters)
    (deltas : list bytes) (order : list string) : result string PushdownFilters :=
  match deltas with
  | [] => Ok pf
  | _ =>
      let? pf := fold_result (fun pf encoded =>
                     let? batch := DeserializeRecordBatch encoded in ApplyDelta pf batch keys)
                   pf deltas in
      restorePredicateOrder pf order
  end.
End history.

(** ** The compaction

    Compacting a compacted history with one more delta is compacting the whole
    stream. *)

Definition pr_of (id : string) (r : Z) : predicateRevision := {| prID := id; prRevision := r |}.

Lemma take_wanted_lookup prs : forall wanted id r,
  snd (take_wanted wanted prs) !! id = Some r <-> wanted !! id = Some r /\ pr_of id r ∉ prs.
Proof.
  induction prs as [|[i v] prs IH]; intros wanted id r; cbn.
  - split; [intros H; split; [done|apply not_elem_of_nil]|by intros [? _]].
  - rewrite not_elem_of_cons. case_bool_decide as E; cbn; rewrite IH.
    + rewrite lookup_delete_Some. unfold pr_of. split.
      * intros [[Hn ?] ?]. repeat split; [done| |done]. congruence.
      * intros (? & Hn & ?). repeat split; [|done|done]. intros <-. apply Hn. f_equal. congruence.
    + unfold pr_of. split; [|by intros (? & _ & ?)]. intros [? ?]. repeat split; [done| |done].
      intros [= -> ->]. congruence.
Qed.

Lemma take_wanted_needed prs : forall wanted,
  fst (take_wanted wanted prs) = true <->
  exists id r, wanted !! id = Some r /\ pr_of id r ∈ prs.
Proof.
  induction prs as [|[i v] prs IH]; intros wanted; cbn.
  - split; [done|]. intros (? & ? & _ & H). by apply not_elem_of_nil in H.
  - case_bool_decide as E; cbn.
    + split; [|done]. intros _. exists i, v. split; [done|]. apply list_elem_of_here.
    + rewrite IH. split; intros (id & r & H & Hin); exists id, r; split; [done| |done|].
      * by apply list_elem_of_further.
      * apply elem_of_cons in Hin as [[= -> ->]|?]; [congruence|done].
Qed.

Section compaction.
Context {D : Type} (pairs : D -> list predicateRevision).

(** The first delta that carries a wanted pair is kept, so that a second
    compaction for newer revisions finds it again. *)
Lemma keep_deltas_again ds tail : forall W W',
  (forall id r d, W !! id = Some r -> d ∈ ds -> pr_of id r ∈ pairs d -> W' !! id = Some r) ->
  keep_deltas pairs W (keep_deltas pairs W' ds ++ tail) = keep_deltas pairs W (ds ++ tail).
Proof.
  induction ds as [|d ds IH]; intros W W' H; [done|]. cbn [keep_deltas app].
  pose proof (take_wanted_needed (pairs d) W) as HbW.
  pose proof (take_wanted_needed (pairs d) W') as HbW'.
  pose proof (take_wanted_lookup (pairs d) W) as HlW.
  pose proof (take_wanted_lookup (pairs d) W') as HlW'.
  destruct (take_wanted W (pairs d)) as [b V] eqn:Eb.
  destruct (take_wanted W' (pairs d)) as [b' V'] eqn:Eb'. cbn [fst snd] in *.
  assert (forall id r e, V !! id = Some r -> e ∈ ds -> pr_of id r ∈ pairs e -> V' !! id = Some r) as H'.
  { intros id r e Hv He Hin. apply HlW in Hv as [Hv Hn]. apply HlW'. split; [|done].
    apply (H id r e); [done|by apply list_elem_of_further|done]. }
  destruct b'.
  - cbn [keep_deltas app]. rewrite Eb. by rewrite (IH V V').
  - assert (b = false) as ->.
    { destruct b; [|done]. destruct HbW as [HbW _]. destruct (HbW eq_refl) as (id & r & Hw & Hin).
      assert (false = true) as Hc; [|done]. apply HbW'. exists id, r. split; [|done].
      apply (H id r d); [done|apply list_elem_of_here|done]. }
    assert (V = W) as <-.
    { apply map_eq. intros id. apply option_eq. intros r. rewrite HlW. split; [by intros [? _]|].
      intros Hw. split; [done|]. intros Hin. assert (false = true) as Hc; [|done].
      apply HbW. eauto. }
    apply IH. intros id r e Hv He Hin. apply (H' id r e); [|done|done]. by apply HlW, HlW in Hv.
Qed.

Lemma keep_deltas_sub W ds d : d ∈ keep_deltas pairs W ds -> d ∈ ds.
Proof.
  revert W. induction ds as [|e ds IH]; intros W; cbn; [done|].
  destruct (take_wanted W (pairs e)) as [[] V]; rewrite ?elem_of_cons; naive_solver.
Qed.

(** Every kept delta answers for an ID of its own. *)
Lemma keep_deltas_length W ds : length (keep_deltas pairs W ds) <= size W.
Proof.
  revert W. induction ds as [|d ds IH]; intros W; cbn; [lia|].
  pose proof (take_wanted_needed (pairs d) W) as Hb. pose proof (take_wanted_lookup (pairs d) W) as Hl.
  destruct (take_wanted W (pairs d)) as [b V]. cbn [fst snd] in *.
  assert (V ⊆ W) as Hsub by (apply map_subseteq_spec; intros id r Hv; by apply Hl in Hv as [? _]).
  destruct b.
  - destruct Hb as [Hb _]. destruct (Hb eq_refl) as (id & r & Hw & Hin). cbn.
    specialize (IH V). enough (size V < size W) by lia.
    apply map_subset_size. split; [done|]. intros Hws.
    apply (lookup_weaken _ _ _ _ Hw) in Hws. apply Hl in Hws as [_ Hn]. done.
  - specialize (IH V). enough (size V <= size W) by lia. by apply map_subseteq_size.
Qed.
End compaction.

(** ** Updates *)

Lemma fold_result_bind {A B C} (read : B -> result string C) (step : A -> C -> result string A) l :
  forall a out, fold_result (fun a b => let? c := read b in step a c) a l = Ok out <->
    exists cs, map_result read l = Ok cs /\ fold_result step a cs = Ok out.
Proof.
  induction l as [|b l IH]; intros a out; cbn.
  - split; [intros E; by exists []|]. by intros (cs & [= <-] & E).
  - destruct (read b) as [c|]; [|split; [done|by intros (? & ? & _)]].
    destruct (step a c) as [a'|] eqn:Es.
    + rewrite IH. split.
      * intros (cs & E1 & E2). exists (c :: cs). rewrite E1. cbn. by rewrite Es.
      * intros (cs & E1 & E2). destruct (map_result read l) as [cs'|]; [|done].
        injection E1 as <-. cbn in E2. rewrite Es in E2. by exists cs'.
    + split; [done|]. intros (cs & E1 & E2).
      destruct (map_result read l); [|done]. injection E1 as <-. cbn in E2. by rewrite Es in E2.
Qed.

Lemma fold_result_inv {E A B} (f : A -> B -> result E A) (P : A -> Prop) l a out :
  (forall a b a', b ∈ l -> P a -> f a b = Ok a' -> P a') ->
  P a -> fold_result f a l = Ok out -> P out.
Proof.
  revert a. induction l as [|b l IH]; intros a H Ha Ef; cbn in Ef; [by injection Ef as <-|].
  destruct (f a b) as [a'|] eqn:Eb; [|done]. apply (IH a'); [|by eapply H, Eb; [apply list_elem_of_here|]|done].
  intros x y z Hy. apply H. by apply list_elem_of_further.
Qed.

(** A predicate an update installs carries the update's ID and revision. *)
Definition installs_own (u : update) : Prop :=
  forall p, installs u = Some (Ok p) -> ID p = prID (target u) /\ Revision p = prRevision (target u).

Lemma parsed_own batch keys jb sp schema raw delta p o :
  decodeStrict (Some raw) decode_object = Ok o ->
  parseV2Predicate batch keys jb sp schema raw delta = Ok p ->
  unmarshal_string (lookup_key o "id") "" = Ok (ID p) /\
  unmarshal_uint64 (lookup_key o "revision") 0 = Ok (Revision p).
Proof.
  unfold parseV2Predicate. intros -> E. do 3 inv_let.
  destruct (unmarshal_uint64 _ _) as [r|] eqn:Er; [|done].
  destruct (unmarshal_string (lookup_key o "id") "") as [id|] eqn:Ei; [|done].
  cbn beta zeta in E. repeat inv_let. cbn. split; congruence.
Qed.

Lemma readUpdate_own pf batch keys raw u : readUpdate pf batch keys raw = Ok u -> installs_own u.
Proof.
  unfold readUpdate, installs_own. intros E p Hp.
  destruct (decodeStrict (Some raw) decode_object) as [o|] eqn:Eo; [|done].
  destruct (unmarshal_string (lookup_key o "operation") "") as [op|]; [|done].
  destruct (unmarshal_string (lookup_key o "id") "") as [id|] eqn:Ei; [|done].
  destruct (unmarshal_uint64 (lookup_key o "revision") 0) as [r|] eqn:Er; [|done]. inv_let.
  destruct (bool_decide (op = "remove")); [inv_let; injection E as <-; done|].
  destruct (bool_decide (op = "upsert")); [|done]. inv_let.
  destruct (unmarshal_string (lookup_key o "mode") ""); [|done].
  destruct (unmarshal_string (lookup_key o "source") ""); [|done].
  destruct (unmarshal_map (lookup_key o "expression")) as [[?|]|]; [|done..]. inv_let.
  injection E as <-. cbn in Hp. injection Hp as Hp. eapply parsed_own in Hp as [H1 H2]; [|done].
  cbn. split; congruence.
Qed.

Lemma map_result_Forall {E A B} (f : A -> result E B) (P : B -> Prop) l k :
  (forall a b, f a = Ok b -> P b) -> map_result f l = Ok k -> Forall P k.
Proof.
  intros H E1. apply map_result_inv in E1. induction E1; constructor; eauto.
Qed.

(** What an applied delta came from: its updates, run one by one. *)
Lemma applyDelta_inv pf batch keys prs pf' :
  applyDelta pf batch keys = Ok (prs, pf') ->
  exists raws us st,
    delta_document pf batch = Ok raws /\ map_result (readUpdate pf batch keys) raws = Ok us /\
    Forall installs_own us /\
    fold_result (update_step (v2Required pf))
      {| nextPredicates := v2Predicates pf; nextRevisions := v2Revisions pf; carried := [] |} us = Ok st /\
    size (nextRevisions st) <= maxPredicateIDs /\
    prs = carried st /\ pf' = commit pf (nextPredicates st) (nextRevisions st).
Proof.
  unfold applyDelta. intros E.
  destruct (delta_document pf batch) as [raws|] eqn:Ed; [|done].
  destruct (fold_result _ _ raws) as [st|] eqn:Ef; [|done]. inv_let. injection E as <- <-. bool_hyps.
  apply fold_result_bind in Ef as (us & Eu & Es).
  exists raws, us, st. split; [done|]. split; [done|]. split; [|done].
  by eapply map_result_Forall, Eu; intros ? ? ?; eapply readUpdate_own.
Qed.

(** An update that is let through changes one ID, or nothing when stale. *)
Inductive update_effect (required : gset string) (st : progress) (u : update) : progress -> Prop :=
| effect_stale old :
    nextRevisions st !! prID (target u) = Some old -> (prRevision (target u) <= old)%Z ->
    update_effect required st u
      {| nextPredicates := nextPredicates st; nextRevisions := nextRevisions st;
         carried := carried st ++ [target u] |}
| effect_remove :
    isStale (nextRevisions st) (target u) = false -> installs u = None ->
    update_effect required st u
      {| nextPredicates := removeV2Predicate (nextPredicates st) (prID (target u));
         nextRevisions := <[prID (target u) := prRevision (target u)]> (nextRevisions st);
         carried := carried st ++ [target u] |}
| effect_install p :
    isStale (nextRevisions st) (target u) = false -> installs u = Some (Ok p) ->
    update_effect required st u
      {| nextPredicates := removeV2Predicate (nextPredicates st) (prID (target u)) ++ [p];
         nextRevisions := <[prID (target u) := prRevision (target u)]> (nextRevisions st);
         carried := carried st ++ [target u] |}.

Lemma update_step_effect required st u st' :
  update_step required st u = Ok st' ->
  prID (target u) ∉ map prID (carried st) /\ prID (target u) ∉ required /\
  update_effect required st u st'.
Proof.
  unfold update_step. intros E. cbn zeta in E. do 2 inv_let. bool_hyps. split; [done|]. split; [done|].
  destruct (isStale _ _) eqn:Es.
  - injection E as <-. unfold isStale in Es. destruct (_ !! _) as [old|] eqn:Eo; [|done].
    bool_hyps. by eapply effect_stale.
  - destruct (installs u) as [[p|e]|] eqn:Ei; [|done|].
    + injection E as <-. by apply effect_install.
    + injection E as <-. by apply effect_remove.
Qed.

(** *** Invariants *)

(** [revs'] knows every ID of [revs], at the same revision or a newer one. *)
Definition newer (revs revs' : gmap string Z) : Prop :=
  forall id r, revs !! id = Some r -> exists r', revs' !! id = Some r' /\ (r <= r')%Z.

#[global] Instance newer_preorder : PreOrder newer.
Proof.
  split.
  - intros m id r H. exists r. split; [done|lia].
  - intros m n k H1 H2 id r (r1 & H & ?)%H1. apply H2 in H as (r2 & ? & ?). exists r2. split; [done|lia].
Qed.

Lemma not_stale_newer revs pr :
  isStale revs pr = false -> newer revs (<[prID pr := prRevision pr]> revs).
Proof.
  unfold isStale. intros Hs id r Hr. destruct (decide (prID pr = id)) as [<-|Hn].
  - rewrite Hr in Hs. exists (prRevision pr). rewrite lookup_insert_eq. split; [done|]. by bool_hyps; lia.
  - exists r. rewrite lookup_insert_ne by done. split; [done|lia].
Qed.

Lemma update_effect_newer required st u st' :
  update_effect required st u st' -> newer (nextRevisions st) (nextRevisions st').
Proof. intros []; cbn; [done|by apply not_stale_newer..]. Qed.

Lemma update_effect_reaches required st u st' :
  update_effect required st u st' ->
  exists r, nextRevisions st' !! prID (target u) = Some r /\ (prRevision (target u) <= r)%Z.
Proof.
  intros []; cbn; [eauto|..]; (exists (prRevision (target u)); rewrite lookup_insert_eq; split; [done|lia]).
Qed.

Lemma update_effect_carried required st u st' :
  update_effect required st u st' -> carried st' = carried st ++ [target u].
Proof. by intros []. Qed.

(** Predicates and revisions agree, and no ID is live twice. *)
Definition consistent (preds : list v2Predicate) (revs : gmap string Z) : Prop :=
  NoDup (map ID preds) /\ forall p, p ∈ preds -> revs !! ID p = Some (Revision p).

Lemma remove_consistent preds revs id r :
  consistent preds revs -> consistent (removeV2Predicate preds id) (<[id := r]> revs).
Proof.
  intros [Hn Hr]. split.
  - unfold removeV2Predicate. induction preds as [|p preds IH]; [constructor|].
    cbn in Hn. inversion_clear Hn as [|?? Hp Hn'].
    assert (forall p, p ∈ preds -> revs !! ID p = Some (Revision p)) as Hr'
      by (intros q Hq; apply Hr; by apply list_elem_of_further).
    rewrite filter_cons. case_decide; [|auto]. cbn. constructor; [|auto].
    intros H1. apply Hp. apply list_elem_of_fmap in H1 as (q & -> & Hq).
    apply list_elem_of_filter in Hq as [_ Hq]. apply list_elem_of_fmap. eauto.
  - intros p Hp. apply list_elem_of_filter in Hp as [Hid Hp].
    rewrite lookup_insert_ne by done. by apply Hr.
Qed.

Lemma update_effect_consistent required st u st' :
  installs_own u -> update_effect required st u st' ->
  consistent (nextPredicates st) (nextRevisions st) ->
  consistent (nextPredicates st') (nextRevisions st').
Proof.
  intros Hown [old ? ?|Hs Hi|p Hs Hi] Hc; cbn; [done|by apply remove_consistent|].
  destruct (Hown p Hi) as [Eid Er].
  pose proof (remove_consistent _ _ (prID (target u)) (prRevision (target u)) Hc) as [Hn Hr].
  split.
  - rewrite map_app. apply NoDup_app. split; [done|]. split; [|apply NoDup_singleton].
    intros id H1 H2. apply list_elem_of_singleton in H2 as ->.
    apply list_elem_of_fmap in H1 as (q & Eq & Hq). apply list_elem_of_filter in Hq as [Hid _]. congruence.
  - intros q [Hq| ->%list_elem_of_singleton]%elem_of_app; [by apply Hr|].
    by rewrite Eid, Er, lookup_insert_eq.
Qed.

(** *** Runs of updates *)

Definition start (pf : PushdownFilters) : progress :=
  {| nextPredicates := v2Predicates pf; nextRevisions := v2Revisions pf; carried := [] |}.

Lemma run_facts required us st st' :
  Forall installs_own us -> fold_result (update_step required) st us = Ok st' ->
  newer (nextRevisions st) (nextRevisions st') /\
  carried st' = carried st ++ map target us /\
  (forall u, u ∈ us -> prID (target u) ∉ required /\
     exists r, nextRevisions st' !! prID (target u) = Some r /\ (prRevision (target u) <= r)%Z) /\
  (NoDup (map prID (carried st)) -> NoDup (map prID (carried st'))) /\
  (consistent (nextPredicates st) (nextRevisions st) ->
   consistent (nextPredicates st') (nextRevisions st')).
Proof.
  intros Hown. revert st. induction Hown as [|u us Hu Hus IH]; intros st E; cbn in E.
  - injection E as <-. rewrite app_nil_r. repeat split; [done|by apply not_elem_of_nil in H
      |by apply not_elem_of_nil in H|done|apply H|apply H].
  - destruct (update_step required st u) as [st1|] eqn:E1; [|done].
    apply update_step_effect in E1 as (Hd & Hr & He).
    destruct (IH st1 E) as (Hn & Hc & Hall & Hdup & Hcons).
    pose proof (update_effect_newer _ _ _ _ He) as Hn1.
    pose proof (update_effect_carried _ _ _ _ He) as Hc1.
    pose proof (update_effect_reaches _ _ _ _ He) as (r & Hr1 & Hle).
    split; [by etrans|]. split; [by rewrite Hc, Hc1, <- app_assoc|]. split; [|split].
    + intros x [->|Hx]%elem_of_cons; [|by apply Hall]. split; [done|].
      destruct (Hn _ _ Hr1) as (r' & ? & ?). exists r'. split; [done|lia].
    + intros H. apply Hdup. rewrite Hc1, map_app. apply NoDup_app. split; [done|].
      split; [|apply NoDup_singleton]. intros id H1 ->%list_elem_of_singleton. done.
    + intros H. apply Hcons. by eapply update_effect_consistent.
Qed.

Lemma applyDelta_facts pf batch keys prs pf' :
  applyDelta pf batch keys = Ok (prs, pf') ->
  newer (v2Revisions pf) (v2Revisions pf') /\
  (forall pr, pr ∈ prs -> prID pr ∉ v2Required pf /\
     exists r, v2Revisions pf' !! prID pr = Some r /\ (prRevision pr <= r)%Z) /\
  NoDup (map prID prs) /\
  (consistent (v2Predicates pf) (v2Revisions pf) -> consistent (v2Predicates pf') (v2Revisions pf')) /\
  size (v2Revisions pf') <= maxPredicateIDs /\
  pf' = commit pf (v2Predicates pf') (v2Revisions pf').
Proof.
  intros (raws & us & st & _ & _ & Hown & Hrun & Hsize & -> & ->)%applyDelta_inv.
  apply run_facts in Hrun as (Hn & Hc & Hall & Hdup & Hcons); [|done]. cbn in *.
  split; [done|]. split; [|split; [apply Hdup; constructor|done]].
  intros pr Hpr. rewrite Hc in Hpr. apply list_elem_of_fmap in Hpr as (u & -> & Hu). by apply Hall.
Qed.

(** ** What a delta does to the final part of a state

    Fix the revisions [R] a stream ends with. An ID is final in a state when it
    has reached its last revision; the predicates of final IDs stay. *)
Section final.
Context (R : gmap string Z).

Definition finals (revs : gmap string Z) : gset string :=
  dom (filter (fun kv : string * Z => R !! fst kv = Some (snd kv)) revs).

Lemma elem_of_finals revs id : id ∈ finals revs <-> exists r, revs !! id = Some r /\ R !! id = Some r.
Proof.
  unfold finals. rewrite elem_of_dom. split.
  - intros [r H]. apply map_lookup_filter_Some in H. eauto.
  - intros (r & H & HR). exists r. apply map_lookup_filter_Some. done.
Qed.

Definition finished (preds : list v2Predicate) (revs : gmap string Z) : list v2Predicate :=
  filter (fun p => ID p ∈ finals revs) preds.

(** What is final after an update, from what was. *)
Definition final_step (view : gset string * list v2Predicate) (u : update)
  : gset string * list v2Predicate :=
  let '(F, L) := view in
  let id := prID (target u) in
  if bool_decide (R !! id = Some (prRevision (target u)) /\ id ∉ F) then
    ({[id]} ∪ F, match installs u with Some (Ok p) => L ++ [p] | _ => L end)
  else view.

Definition view (st : progress) : gset string * list v2Predicate :=
  (finals (nextRevisions st), finished (nextPredicates st) (nextRevisions st)).

Lemma finals_other revs id r :
  (R !! id <> Some r) -> id ∉ finals revs -> finals (<[id := r]> revs) = finals revs.
Proof.
  intros HR Hid. apply set_eq. intros x. rewrite !elem_of_finals.
  destruct (decide (id = x)) as [<-|Hn]; [|by rewrite lookup_insert_ne].
  rewrite lookup_insert_eq. split; [naive_solver|].
  intros (v & Hv & HRv). destruct Hid. apply elem_of_finals. eauto.
Qed.

Lemma finals_reached revs id r :
  R !! id = Some r -> finals (<[id := r]> revs) = {[id]} ∪ finals revs.
Proof.
  intros HR. apply set_eq. intros x. rewrite elem_of_union, elem_of_singleton, !elem_of_finals.
  destruct (decide (id = x)) as [<-|Hn].
  - rewrite lookup_insert_eq. naive_solver.
  - rewrite lookup_insert_ne by done. naive_solver.
Qed.

Lemma filter_removed (F : gset string) preds id :
  id ∉ F -> filter (fun p => ID p ∈ F) (removeV2Predicate preds id) = filter (fun p => ID p ∈ F) preds.
Proof.
  intros Hid. unfold removeV2Predicate. rewrite list_filter_filter.
  apply list_filter_iff. intros p. split; [by intros [? ?]|]. intros Hp. split; [done|]. by intros <-.
Qed.

Lemma filter_reached (F : gset string) preds id :
  id ∉ F ->
  filter (fun p => ID p ∈ {[id]} ∪ F) (removeV2Predicate preds id) = filter (fun p => ID p ∈ F) preds.
Proof.
  intros Hid. rewrite <- (filter_removed F preds id Hid).
  unfold removeV2Predicate. rewrite !list_filter_filter.
  apply list_filter_iff. intros p. set_solver.
Qed.

(** The update is of a revision the stream has passed or ends with. *)
Definition within_final (u : update) : Prop :=
  exists w, R !! prID (target u) = Some w /\ (prRevision (target u) <= w)%Z.

Lemma fresh_not_final revs u :
  within_final u -> isStale revs (target u) = false -> prID (target u) ∉ finals revs.
Proof.
  intros (w & Hw & Hle) Hs Hin. apply elem_of_finals in Hin as (r & Hr & HR).
  unfold isStale in Hs. rewrite Hr in Hs. bool_hyps. assert (r = w) by congruence. lia.
Qed.

Lemma finished_app (F : gset string) l (p : v2Predicate) :
  filter (fun p => ID p ∈ F) (l ++ [p]) =
  filter (fun p => ID p ∈ F) l ++ if decide (ID p ∈ F) then [p] else [].
Proof. rewrite filter_app. f_equal. Qed.

(** The final part of a state evolves by itself. *)
Lemma view_step required st u st' :
  update_effect required st u st' -> installs_own u -> newer (nextRevisions st) R ->
  within_final u ->
  view st' = final_step (view st) u /\ newer (nextRevisions st') R.
Proof.
  intros He Hown Hb Hw. pose proof Hw as (w & HR & Hle).
  assert (isStale (nextRevisions st) (target u) = false ->
          newer (<[prID (target u) := prRevision (target u)]> (nextRevisions st)) R) as Hnewer.
  { intros _ id r. destruct (decide (prID (target u) = id)) as [<-|Hn].
    - rewrite lookup_insert_eq. intros [= <-]. eauto.
    - rewrite lookup_insert_ne by done. apply Hb. }
  destruct He as [old Hold Hstale|Hs Hi|p Hs Hi]; unfold view, final_step; cbn [nextPredicates nextRevisions].
  - split; [|done]. rewrite bool_decide_false; [done|]. intros [HR' Hn]. apply Hn, elem_of_finals.
    destruct (Hb _ _ Hold) as (w' & ? & ?). exists (prRevision (target u)). split; [|done].
    rewrite Hold. f_equal. assert (w' = prRevision (target u)) by congruence. lia.
  - split; [|by apply Hnewer]. pose proof (fresh_not_final _ _ Hw Hs) as Hf. unfold finished.
    case_bool_decide as Hc.
    + destruct Hc as [HR' _]. rewrite finals_reached by done. rewrite filter_reached by done. by rewrite Hi.
    + rewrite finals_other by naive_solver. by rewrite filter_removed.
  - split; [|by apply Hnewer]. pose proof (fresh_not_final _ _ Hw Hs) as Hf. unfold finished.
    destruct (Hown p Hi) as [Hid _]. case_bool_decide as Hc.
    + destruct Hc as [HR' _]. rewrite finals_reached by done. rewrite finished_app, filter_reached by done.
      rewrite decide_True by set_solver. by rewrite Hi.
    + rewrite finals_other by naive_solver. rewrite finished_app, filter_removed by done.
      rewrite decide_False by (by rewrite Hid). by rewrite app_nil_r.
Qed.

Lemma view_run required us st st' :
  Forall installs_own us -> (forall u, u ∈ us -> within_final u) -> newer (nextRevisions st) R ->
  fold_result (update_step required) st us = Ok st' ->
  view st' = foldl final_step (view st) us /\ newer (nextRevisions st') R.
Proof.
  intros Hown. revert st. induction Hown as [|u us Hu Hus IH]; intros st Hw Hb E; cbn in E.
  - injection E as <-. by split.
  - destruct (update_step required st u) as [st1|] eqn:E1; [|done].
    apply update_step_effect in E1 as (_ & _ & He).
    destruct (view_step required st u st1 He Hu Hb) as [Hv Hb1]; [apply Hw, list_elem_of_here|].
    cbn [foldl]. rewrite <- Hv. apply IH; [|done|done].
    intros x Hx. apply Hw. by apply list_elem_of_further.
Qed.

(** An update that reaches no last revision leaves the final part alone. *)
Lemma final_steps_idle us v :
  (forall u, u ∈ us -> R !! prID (target u) = Some (prRevision (target u)) ->
     prID (target u) ∈ fst v) ->
  foldl final_step v us = v.
Proof.
  induction us as [|u us IH]; intros H; cbn; [done|].
  assert (final_step v u = v) as ->.
  { destruct v as [F L]. cbn. rewrite bool_decide_false; [done|]. intros [HR Hn]. apply Hn.
    apply (H u); [apply list_elem_of_here|done]. }
  apply IH. intros x Hx. apply H. by apply list_elem_of_further.
Qed.

(** After a delta the IDs it brings to their last revision are final. *)
Lemma final_steps_reach us v id :
  id ∈ fst (foldl final_step v us) <->
  id ∈ fst v \/ exists u, u ∈ us /\ prID (target u) = id /\ R !! id = Some (prRevision (target u)).
Proof.
  revert v. induction us as [|u us IH]; intros [F L]; cbn.
  - split; [auto|]. intros [?|(? & H & _)]; [done|by apply not_elem_of_nil in H].
  - rewrite IH. case_bool_decide as Hc; cbn.
    + rewrite elem_of_union, elem_of_singleton. split.
      * intros [[->|?]|(x & ? & ?)]; [|auto|]; right; [exists u|exists x]; set_solver.
      * intros [?|(x & [->|Hx]%elem_of_cons & Hid & HR)]; [auto|auto|]. right. eauto.
    + split; [intros [?|(x & ? & ?)]; [auto|]; right; exists x; set_solver|].
      intros [?|(x & [->|Hx]%elem_of_cons & Hid & HR)]; [auto| |right; eauto].
      left. destruct (decide (id ∈ F)); [done|]. destruct Hc. subst id. done.
Qed.
End final.

(** ** A stream and its replay *)
Section replay.
Context (DeserializeRecordBatch : bytes -> result string RecordBatch) (keys : gmap string Array)
  (pf0 : PushdownFilters).

(** The updates of a delta, read as the stream of [pf0] reads them: their text
    alone decides, not the state. *)
Definition updates_of (d : bytes) : list update :=
  match DeserializeRecordBatch d with
  | Ok batch =>
      match delta_document pf0 batch with
      | Ok raws =>
          match map_result (readUpdate pf0 batch keys) raws with Ok us => us | Err _ => [] end
      | Err _ => []
      end
  | Err _ => []
  end.
Definition pairs_of (d : bytes) : list predicateRevision := map target (updates_of d).

(** Every upsert of the delta parses, the stale ones too. *)
Definition upserts_parse (d : bytes) : Prop :=
  forall u e, u ∈ updates_of d -> installs u <> Some (Err e).

Definition apply_encoded (pf : PushdownFilters) (encoded : bytes) : result string PushdownFilters :=
  let? batch := DeserializeRecordBatch encoded in ApplyDelta pf batch keys.

Lemma apply_encoded_run preds revs d pf :
  apply_encoded (commit pf0 preds revs) d = Ok pf ->
  exists st, pf = commit pf0 (nextPredicates st) (nextRevisions st) /\
    Forall installs_own (updates_of d) /\
    fold_result (update_step (v2Required pf0))
      {| nextPredicates := preds; nextRevisions := revs; carried := [] |} (updates_of d) = Ok st /\
    size (nextRevisions st) <= maxPredicateIDs.
Proof.
  unfold apply_encoded, ApplyDelta, updates_of. intros E.
  destruct (DeserializeRecordBatch d) as [batch|]; [|done].
  destruct (applyDelta _ batch keys) as [[prs pf']|] eqn:Ea; [|done]. injection E as ->.
  apply applyDelta_inv in Ea as (raws & us & st & Ed & Eu & Hown & Hrun & Hs & _ & ->).
  change (delta_document pf0 batch = Ok raws) in Ed.
  change (map_result (readUpdate pf0 batch keys) raws = Ok us) in Eu.
  rewrite Ed, Eu. exists st. done.
Qed.

(** Conversely, updates that meet no obstacle are applied. *)
Lemma run_total us st :
  (forall u e, u ∈ us -> installs u <> Some (Err e)) ->
  (forall u, u ∈ us -> prID (target u) ∉ v2Required pf0) ->
  NoDup (map prID (carried st ++ map target us)) ->
  exists st', fold_result (update_step (v2Required pf0)) st us = Ok st'.
Proof.
  revert st. induction us as [|u us IH]; intros st Hp Hr Hd; cbn; [by eexists|].
  assert (exists st1, update_step (v2Required pf0) st u = Ok st1 /\ carried st1 = carried st ++ [target u])
    as (st1 & -> & Hc).
  { unfold update_step. cbn zeta. rewrite bool_decide_false; cbn [negb].
    2:{ rewrite map_app in Hd. apply NoDup_app in Hd as (_ & Hd & _). intros Hin.
        apply (Hd _ Hin). cbn. apply list_elem_of_here. }
    rewrite bool_decide_false by (apply Hr, list_elem_of_here). cbn [negb].
    destruct (isStale _ _); [by eexists|].
    destruct (installs u) as [[p|e]|] eqn:Ei; [by eexists| |by eexists].
    destruct (Hp u e); [apply list_elem_of_here|done]. }
  apply IH.
  - intros x e Hx. apply Hp. by apply list_elem_of_further.
  - intros x Hx. apply Hr. by apply list_elem_of_further.
  - by rewrite Hc, <- app_assoc.
Qed.

Lemma apply_encoded_total preds revs d preds1 revs1 pf R :
  apply_encoded (commit pf0 preds1 revs1) d = Ok pf -> upserts_parse d ->
  size R <= maxPredicateIDs -> newer revs R -> (forall u, u ∈ updates_of d -> within_final R u) ->
  exists st, apply_encoded (commit pf0 preds revs) d =
               Ok (commit pf0 (nextPredicates st) (nextRevisions st)) /\
    fold_result (update_step (v2Required pf0))
      {| nextPredicates := preds; nextRevisions := revs; carried := [] |} (updates_of d) = Ok st.
Proof.
  intros E Hp HR Hn Hw. pose proof E as E'.
  apply apply_encoded_run in E' as (st1 & -> & Hown & Hrun1 & _).
  apply run_facts in Hrun1 as (_ & Hc1 & Hall & Hdup & _); [|done]. cbn in Hc1.
  destruct (run_total (updates_of d) {| nextPredicates := preds; nextRevisions := revs; carried := [] |})
    as [st Hrun]; [done|intros u Hu; by apply Hall|cbn; rewrite <- Hc1; apply Hdup; constructor|].
  exists st. split; [|done].
  pose proof (view_run R _ _ (Build_progress preds revs []) st Hown Hw Hn Hrun) as [_ Hb].
  unfold apply_encoded, ApplyDelta, applyDelta in *. unfold updates_of in Hrun.
  destruct (DeserializeRecordBatch d) as [batch|]; [|done].
  change (delta_document (commit pf0 preds1 revs1) batch) with (delta_document pf0 batch) in E.
  change (delta_document (commit pf0 preds revs) batch) with (delta_document pf0 batch).
  destruct (delta_document pf0 batch) as [raws|]; [|done].
  destruct (fold_result _ _ raws) as [st2|] eqn:Ef in E; [|done].
  apply fold_result_bind in Ef as (us & Eu & _).
  change (map_result (readUpdate pf0 batch keys) raws = Ok us) in Eu. rewrite Eu in Hrun.
  erewrite (proj2 (fold_result_bind _ _ raws _ st)); [|exists us; split; [exact Eu|exact Hrun]].
  replace (size (nextRevisions st) <=? maxPredicateIDs)%nat with true; [done|].
  symmetry. apply Nat.leb_le. etrans; [|exact HR].
  rewrite <- !size_dom. apply subseteq_size. intros id [r Hr]%elem_of_dom.
  apply Hb in Hr as (r' & Hr' & _). by apply elem_of_dom.
Qed.

Abbreviation run := (fold_result apply_encoded).

Lemma run_newer ds preds revs preds' revs' :
  run (commit pf0 preds revs) ds = Ok (commit pf0 preds' revs') ->
  newer revs revs' /\ (consistent preds revs -> consistent preds' revs').
Proof.
  revert preds revs. induction ds as [|d ds IH]; intros preds revs E; cbn in E.
  - injection E as _ <- <-. by split.
  - destruct (apply_encoded _ d) as [pf|] eqn:Ed; [|done].
    apply apply_encoded_run in Ed as (st & -> & Hown & Hrun & _).
    apply IH in E as [H1 H2]. apply run_facts in Hrun as (Hn & _ & _ & _ & Hc); [|done]. cbn in *.
    split; [by etrans|auto].
Qed.

(** Replaying the deltas that still count follows the stream in what is final:
    [W] are the last revisions no delta has reached yet. *)
Lemma replay_follows R ds : size R <= maxPredicateIDs -> Forall upserts_parse ds ->
  forall W preds1 revs1 preds2 revs2 predsN,
  run (commit pf0 preds1 revs1) ds = Ok (commit pf0 predsN R) ->
  (finals R revs1, finished R preds1 revs1) = (finals R revs2, finished R preds2 revs2) ->
  newer revs2 R ->
  (forall id r, R !! id = Some r -> id ∉ finals R revs1 -> W !! id = Some r) ->
  exists preds' revs',
    run (commit pf0 preds2 revs2) (keep_deltas pairs_of W ds) = Ok (commit pf0 preds' revs') /\
    newer revs' R /\
    (finals R R, finished R predsN R) = (finals R revs', finished R preds' revs').
Proof.
  intros HR Hp. induction Hp as [|d ds Hd Hds IH]; intros W preds1 revs1 preds2 revs2 predsN E Hv Hb HW.
  { cbn in E. injection E as _ -> ->. by exists preds2, revs2. }
  cbn [fold_result] in E. destruct (apply_encoded _ d) as [pf|] eqn:Ed; [|done].
  pose proof Ed as Ed'. apply apply_encoded_run in Ed' as (st & -> & Hown & Hrun & _).
  pose proof (run_newer _ _ _ _ _ E) as [HnR _].
  pose proof (run_facts _ _ _ _ Hown Hrun) as (Hn1 & _ & Hall & _ & _). cbn in Hn1.
  assert (forall u, u ∈ updates_of d -> within_final R u) as Hw.
  { intros u Hu. apply Hall in Hu as (_ & r & Hr & Hle). destruct (HnR _ _ Hr) as (w & ? & ?).
    exists w. split; [done|lia]. }
  pose proof (view_run R _ _ (Build_progress preds1 revs1 []) st Hown Hw
                (transitivity Hn1 HnR) Hrun) as [Hst _].
  cbn [keep_deltas].
  pose proof (take_wanted_needed (pairs_of d) W) as HbW.
  pose proof (take_wanted_lookup (pairs_of d) W) as HlW.
  destruct (take_wanted W (pairs_of d)) as [needed V]. cbn [fst snd] in *.
  assert (forall id r, R !! id = Some r -> id ∉ finals R (nextRevisions st) -> V !! id = Some r) as HV.
  { intros id r HRid Hnf. change (id ∉ fst (view R st)) in Hnf. rewrite Hst in Hnf. apply HlW. split.
    - apply HW; [done|]. intros Hf. apply Hnf, final_steps_reach. by left.
    - intros Hin. apply list_elem_of_fmap in Hin as (u & Eu & Hu). apply Hnf, final_steps_reach. right.
      exists u. rewrite <- Eu. done. }
  destruct needed.
  - cbn [fold_result].
    destruct (apply_encoded_total preds2 revs2 d _ _ _ R Ed Hd HR Hb Hw) as (st2 & -> & Hrun2).
    pose proof (view_run R _ _ (Build_progress preds2 revs2 []) st2 Hown Hw Hb Hrun2) as [Hst2 Hb2].
    eapply IH; [exact E| |exact Hb2|exact HV].
    change (view R st = view R st2). rewrite Hst, Hst2. f_equal. exact Hv.
  - eapply IH; [exact E| |exact Hb|exact HV].
    change (view R st = (finals R revs2, finished R preds2 revs2)). rewrite Hst, <- Hv.
    apply final_steps_idle. intros u Hu HRu. cbn [fst view nextRevisions].
    destruct (decide (prID (target u) ∈ finals R revs1)) as [|Hnf]; [done|].
    assert (false = true); [|done]. apply HbW. exists (prID (target u)), (prRevision (target u)).
    split; [by apply HW|]. apply list_elem_of_fmap. exists u. split; [by destruct u as [[]]|done].
Qed.

Lemma finished_all preds revs : consistent preds revs -> finished revs preds revs = preds.
Proof.
  intros [_ H]. unfold finished. apply list_filter_all. intros p Hp.
  apply elem_of_finals. exists (Revision p). auto.
Qed.

Lemma finals_self revs : finals revs revs = dom revs.
Proof.
  apply set_eq. intros id. rewrite elem_of_finals, elem_of_dom. split; [intros (r & ? & ?); eauto|].
  intros [r ?]. eauto.
Qed.

(** Following in what is final up to the end is ending in the same state. *)
Lemma same_final R predsN preds revs :
  consistent predsN R -> consistent preds revs -> newer revs R ->
  (finals R R, finished R predsN R) = (finals R revs, finished R preds revs) ->
  preds = predsN /\ revs = R.
Proof.
  intros HN Hc Hn E. injection E as EF EP. rewrite finals_self in EF. rewrite finished_all in EP by done.
  assert (revs = R) as ->.
  { apply map_eq. intros id. apply option_eq. intros r. split; intros Hr.
    - destruct (Hn _ _ Hr) as (w & Hw & _). assert (id ∈ finals R revs) as Hin
        by (rewrite <- EF; by apply elem_of_dom). apply elem_of_finals in Hin as (? & ? & ?). congruence.
    - assert (id ∈ finals R revs) as Hin by (rewrite <- EF; by apply elem_of_dom).
      apply elem_of_finals in Hin as (? & ? & ?). congruence. }
  by rewrite finished_all in EP.
Qed.

Lemma fold_result_app {E A B} (f : A -> B -> result E A) l k a :
  fold_result f a (l ++ k) = match fold_result f a l with
                             | Ok a => fold_result f a k
                             | Err e => Err e
                             end.
Proof. revert a. induction l as [|b l IH]; intros a; cbn; [done|]. by destruct (f a b). Qed.

Lemma run_reaches ds preds revs preds' revs' :
  run (commit pf0 preds revs) ds = Ok (commit pf0 preds' revs') ->
  forall d id r, d ∈ ds -> pr_of id r ∈ pairs_of d ->
  exists v, revs' !! id = Some v /\ (r <= v)%Z.
Proof.
  revert preds revs. induction ds as [|d ds IH]; intros preds revs E e id r He Hin;
    [by apply not_elem_of_nil in He|].
  cbn in E. destruct (apply_encoded _ d) as [pf|] eqn:Ed; [|done].
  apply apply_encoded_run in Ed as (st & -> & Hown & Hrun & _).
  apply elem_of_cons in He as [->|He]; [|by eapply IH].
  apply run_facts in Hrun as (_ & _ & Hall & _ & _); [|done].
  apply list_elem_of_fmap in Hin as (u & Eu & Hu). apply Hall in Hu as (_ & v & Hv & Hle).
  rewrite <- Eu in Hv, Hle. cbn in Hv, Hle.
  apply run_newer in E as [Hn _]. destruct (Hn _ _ Hv) as (w & ? & ?). exists w. split; [done|lia].
Qed.

(** The history reads the revisions of a delta as the delta was applied. *)
Definition readable (d : bytes) : Prop :=
  filterDeltaRevisions DeserializeRecordBatch d = Ok (pairs_of d).

Lemma apply_encoded_carried preds revs d batch prs pf :
  DeserializeRecordBatch d = Ok batch ->
  applyDelta (commit pf0 preds revs) batch keys = Ok (prs, pf) -> prs = pairs_of d.
Proof.
  intros Hb (raws & us & st & Ed & Eu & Hown & Hrun & _ & -> & _)%applyDelta_inv.
  apply run_facts in Hrun as (_ & Hc & _); [|done]. cbn in Hc. rewrite Hc.
  unfold pairs_of, updates_of. rewrite Hb.
  change (delta_document pf0 batch = Ok raws) in Ed.
  change (map_result (readUpdate pf0 batch keys) raws = Ok us) in Eu. by rewrite Ed, Eu.
Qed.

Lemma keep_deltas_map W l :
  map fst (keep_deltas snd W (map (fun d => (d, pairs_of d)) l)) = keep_deltas pairs_of W l.
Proof.
  revert W. induction l as [|d l IH]; intros W; cbn; [done|].
  destruct (take_wanted W (pairs_of d)) as [[] V]; cbn; by rewrite IH.
Qed.

(** The state of a stream after the deltas [ds]. *)
Definition stream_after (ds : list bytes) (st : stream) : Prop :=
  exists preds revs,
    current st = commit pf0 preds revs /\ run pf0 ds = Ok (current st) /\
    deltas st = keep_deltas pairs_of revs ds /\ (ds <> [] -> order st = map ID preds).

Lemma tick_stream_after ds st d st' :
  pf0 = commit pf0 (v2Predicates pf0) (v2Revisions pf0) ->
  Forall readable (ds ++ [d]) -> stream_after ds st ->
  applyTick DeserializeRecordBatch keys st d = Ok st' -> stream_after (ds ++ [d]) st'.
Proof.
  intros H0 Hread (preds & revs & Ec & Er & Ed & _) E. unfold applyTick in E.
  destruct (DeserializeRecordBatch d) as [batch|] eqn:Eb; [|done]. rewrite Ec in E.
  destruct (applyDelta _ batch keys) as [[prs pf]|] eqn:Ea; [|done].
  pose proof (apply_encoded_carried _ _ _ _ _ _ Eb Ea) as ->.
  assert (apply_encoded (commit pf0 preds revs) d = Ok pf) as Hap
    by (unfold apply_encoded, ApplyDelta; by rewrite Eb, Ea).
  pose proof Hap as Hap'. apply apply_encoded_run in Hap' as (p & Epf & _).
  pose proof (applyDelta_facts _ _ _ _ _ Ea) as (Hn & _).
  unfold recordFilterDelta in E.
  rewrite (map_result_ok _ (fun d => (d, pairs_of d))) in E.
  2:{ intros e He. rewrite Ed in He. apply keep_deltas_sub in He.
      pose proof (proj1 (Forall_forall _ _) Hread e ltac:(apply elem_of_app; by left)) as He'.
      unfold readable in He'. by rewrite He'. }
  change [(d, pairs_of d)] with (map (fun d => (d, pairs_of d)) [d]) in E.
  rewrite <- map_app, keep_deltas_map in E. injection E as <-. subst pf.
  exists (nextPredicates p), (nextRevisions p). cbn [current deltas order].
  split; [done|]. split; [|split; [|done]].
  - rewrite fold_result_app, Er, Ec. cbn. by rewrite Hap.
  - rewrite Ed. cbn [v2Revisions commit]. apply keep_deltas_again.
    intros id r e Hr He Hin. rewrite H0, Ec in Er.
    destruct (run_reaches _ _ _ _ _ Er e id r He Hin) as (v & Hv & Hle).
    destruct (Hn id v Hv) as (w & Hw & ?). cbn in Hw. assert (w = r) by congruence.
    assert (v = r) as -> by lia. done.
Qed.

Lemma ticks_stream_after ds pre st st' :
  pf0 = commit pf0 (v2Predicates pf0) (v2Revisions pf0) ->
  Forall readable (pre ++ ds) -> stream_after pre st ->
  fold_result (applyTick DeserializeRecordBatch keys) st ds = Ok st' -> stream_after (pre ++ ds) st'.
Proof.
  intros H0. revert pre st. induction ds as [|d ds IH]; intros pre st Hread Hst E; cbn in E.
  - injection E as <-. by rewrite app_nil_r.
  - destruct (applyTick _ _ st d) as [st1|] eqn:E1; [|done].
    rewrite cons_middle, app_assoc in *. apply (IH _ st1); [done| |done].
    eapply tick_stream_after; [done| |done|done]. by apply Forall_app in Hread as [? _].
Qed.

Lemma run_size ds preds revs pf :
  size revs <= maxPredicateIDs -> run (commit pf0 preds revs) ds = Ok pf ->
  size (v2Revisions pf) <= maxPredicateIDs.
Proof.
  revert preds revs. induction ds as [|d ds IH]; intros preds revs Hs E; cbn in E; [by injection E as <-|].
  destruct (apply_encoded _ d) as [pf1|] eqn:Ed; [|done].
  apply apply_encoded_run in Ed as (st & -> & _ & _ & Hs'). by eapply IH.
Qed.

Lemma replay_exact ds st :
  pf0 = commit pf0 (v2Predicates pf0) (v2Revisions pf0) ->
  consistent (v2Predicates pf0) (v2Revisions pf0) -> size (v2Revisions pf0) <= maxPredicateIDs ->
  Forall readable ds -> Forall upserts_parse ds ->
  fold_result (applyTick DeserializeRecordBatch keys)
    {| current := pf0; deltas := []; order := [] |} ds = Ok st ->
  replayFilterDeltas DeserializeRecordBatch keys pf0 (deltas st) (order st) = Ok (current st) /\
  length (deltas st) <= size (v2Revisions (current st)).
Proof.
  intros H0 Hc Hs Hread Hparse E.
  assert (stream_after [] {| current := pf0; deltas := []; order := [] |}) as Hstart
    by (exists (v2Predicates pf0), (v2Revisions pf0); split; [done|]; split; [done|]; split; [done|done]).
  destruct (ticks_stream_after ds [] _ st H0 Hread Hstart E) as (predsN & R & Ec & Er & Ed & Eo).
  cbn [app] in *. rewrite Ec in *. cbn [v2Revisions commit]. split; [|rewrite Ed; apply keep_deltas_length].
  pose proof Er as Er'. rewrite H0 in Er'.
  pose proof (run_newer _ _ _ _ _ Er') as [Hn HcN].
  pose proof (run_size _ _ _ _ Hs Er') as HsR. cbn in HsR.
  destruct (replay_follows R ds HsR Hparse R _ _ (v2Predicates pf0) (v2Revisions pf0) _ Er' eq_refl Hn)
    as (preds & revs & Erep & Hn' & Ev); [done|].
  pose proof (run_newer _ _ _ _ _ Erep) as [_ Hc'].
  destruct (same_final R predsN preds revs (HcN Hc) (Hc' Hc) Hn' Ev) as [-> ->].
  rewrite <- H0, <- Ed in Erep. unfold replayFilterDeltas.
  destruct (deltas st) as [|d1 dl] eqn:Edl; [done|].
  change (fold_result _ pf0 (d1 :: dl)) with (run pf0 (d1 :: dl)). rewrite Erep.
  unfold restorePredicateOrder. rewrite bool_decide_true; [done|].
  rewrite Eo; [done|]. intros ->. done.
Qed.
End replay.

(** ** Snapshots and documents *)

(** What a snapshot leaves: everything agrees, nothing has been revised. *)
Definition fresh (pf : PushdownFilters) : Prop :=
  pf = commit pf (v2Predicates pf) (v2Revisions pf) /\
  consistent (v2Predicates pf) (v2Revisions pf) /\
  size (v2Revisions pf) = length (v2Predicates pf) /\
  (forall id, id ∈ v2Required pf <->
     exists p, p ∈ v2Predicates pf /\ ID p = id /\ Mode p = "required").

Lemma snapshot_step_fresh batch keys pf value pf' :
  fresh pf -> snapshot_step batch keys pf value = Ok pf' ->
  fresh pf' /\ length (v2Predicates pf') = S (length (v2Predicates pf)).
Proof.
  intros (Hf & [Hn Hr] & Hs & Hreq) E. unfold snapshot_step in E. do 3 inv_let.
  apply ok_inj in E as <-. bool_hyps. cbn [v2Predicates]. rewrite length_app. split; [|cbn; lia].
  unfold fresh. cbn [v2Predicates v2Revisions v2Required]. split; [|split; [split|split]].
  - rewrite Hf. unfold commit. cbn. by rewrite map_app.
  - rewrite map_app. apply NoDup_app. split; [done|]. split; [|apply NoDup_singleton].
    intros id Hin ->%list_elem_of_singleton. apply list_elem_of_fmap in Hin as (q & Eq & Hq).
    apply Hr in Hq. congruence.
  - intros q [Hq| ->%list_elem_of_singleton]%elem_of_app.
    + rewrite lookup_insert_ne; [by apply Hr|]. intros Eq. apply Hr in Hq. congruence.
    + rewrite lookup_insert_eq. f_equal. lia.
  - rewrite map_size_insert_None by done. rewrite length_app, Hs. cbn. lia.
  - intros id. case_bool_decide as Em.
    + rewrite elem_of_union, elem_of_singleton, Hreq. setoid_rewrite elem_of_app.
      setoid_rewrite list_elem_of_singleton. naive_solver.
    + rewrite Hreq. setoid_rewrite elem_of_app. setoid_rewrite list_elem_of_singleton. naive_solver.
Qed.

Lemma snapshot_fresh batch keys jb sp schema pf :
  deserializeFiltersV2 batch keys jb sp schema = Ok pf ->
  fresh pf /\ length (v2Predicates pf) <= maxPredicates /\
  v2JoinKeyBatches pf = jb /\ v2Spatial pf = sp /\ v2OutputSchema pf = schema.
Proof.
  unfold deserializeFiltersV2. intros E. do 6 inv_let. bool_hyps. clear E0 E1 E2.
  assert (forall vs pf pf', fresh pf -> fold_result (snapshot_step batch keys) pf vs = Ok pf' ->
    fresh pf' /\ length (v2Predicates pf') = length vs + length (v2Predicates pf) /\
    v2JoinKeyBatches pf' = v2JoinKeyBatches pf /\ v2Spatial pf' = v2Spatial pf /\
    v2OutputSchema pf' = v2OutputSchema pf) as Hloop.
  { induction vs as [|v vs IH]; intros p p' Hp Ef; cbn in Ef; [by apply ok_inj in Ef as <-|].
    destruct (snapshot_step batch keys p v) as [p1|] eqn:Es; [|done].
    destruct (snapshot_step_fresh _ _ _ _ _ Hp Es) as [Hp1 Hl].
    destruct (IH _ _ Hp1 Ef) as (? & Hl' & H1 & H2 & H3). split; [done|].
    unfold snapshot_step in Es. do 3 (revert Es; break_match; [intros Es|done]).
    apply ok_inj in Es as <-. cbn in *. split; [lia|done]. }
  apply Hloop in E as (? & Hl & ? & ? & ?); [|clear Hloop].
  - cbn in Hl. split; [done|]. split; [lia|done].
  - split; [done|]. split; [split; [constructor|by intros ? ?%not_elem_of_nil]|].
    split; [apply map_size_empty|]. cbn. intros id. split; [set_solver|].
    intros (? & ?%not_elem_of_nil & _). done.
Qed.

(** ** Reading a delta again

    [filterDeltaRevisions] decodes a delta a second way, less strictly. Both
    agree on a document whose members are distinct up to case and that nothing
    follows. *)

Definition plain_document (raw : bytes) : Prop :=
  exists o rest, parse raw = Some (JObj o, rest) /\ skip_ws rest = [] /\
    NoDup (map (fun kv => field_of document_fields (fst kv)) o).

Lemma field_of_spec fields key f :
  field_of fields key = Some f -> f ∈ fields /\ EqualFold key f = true.
Proof.
  unfold field_of. destruct (List.find _ fields) as [g|] eqn:Eg.
  - intros [= <-]. apply find_some in Eg as [Hin E]. bool_hyps. subst.
    split; [by apply list_elem_of_In|apply EqualFold_refl].
  - intros E. apply find_some in E as [Hin E]. split; [by apply list_elem_of_In|done].
Qed.

Lemma EqualFold_other key f g :
  EqualFold key f = true -> EqualFold key g = true -> EqualFold f g = true.
Proof. unfold EqualFold. intros H1 H2. bool_hyps. apply bool_decide_eq_true. congruence. Qed.

Lemma field_updates key f :
  field_of document_fields key = Some f ->
  field_of ["updates"] key = if bool_decide (f = "updates") then Some "updates" else None.
Proof.
  intros [Hin Hf]%field_of_spec.
  assert (field_of ["updates"] key = if EqualFold key "updates" then Some "updates" else None) as ->.
  { unfold field_of. cbn [List.find]. case_bool_decide as E; [|by destruct (EqualFold _ _)].
    by rewrite <- E, EqualFold_refl. }
  case_bool_decide as E; [by rewrite <- E, Hf|].
  destruct (EqualFold key "updates") eqn:Eu; [|done].
  assert (EqualFold f "updates" = true) as H by (by eapply EqualFold_other).
  unfold document_fields in Hin.
  repeat (apply elem_of_cons in Hin as [->|Hin]; [first [done|by vm_compute in H]|]).
  by apply not_elem_of_nil in Hin.
Qed.

Lemma set_member_field d kv d' :
  set_member d kv = Ok d' ->
  exists f, field_of document_fields (fst kv) = Some f /\
    if bool_decide (f = "updates")
    then unmarshal_slice (Some (snd kv)) = Ok (Updates d') else Updates d' = Updates d.
Proof.
  destruct kv as [key raw]. unfold set_member. cbn [fst snd].
  destruct (field_of document_fields key) as [f|] eqn:Ef; [|done]. intros E. exists f. split; [done|].
  apply field_of_spec in Ef as [Hin _]. unfold document_fields in Hin.
  repeat (apply elem_of_cons in Hin as [->|Hin]; [|]); [..|by apply not_elem_of_nil in Hin];
    cbn in E |- *; repeat break_match; simplify_eq; done.
Qed.

Lemma unmarshal_revisions_map l : unmarshal_revisions [] l = map_result (unmarshal_revision zero_revision) l.
Proof. induction l as [|raw l IH]; cbn; [done|]. by rewrite IH. Qed.

Lemma updates_absent o d d' st :
  (forall kv, kv ∈ o -> field_of document_fields (fst kv) <> Some "updates") ->
  set_members d o = Ok d' -> Updates d' = Updates d /\ unmarshal_updates st o = Ok st.
Proof.
  revert d. induction o as [|[key raw] o IH]; intros d H E; cbn [set_members] in E; [by injection E as <-|].
  destruct (set_member d (key, raw)) as [d1|] eqn:E1; [|done].
  apply set_member_field in E1 as (f & Ef & Hf). cbn [fst snd] in *.
  assert (f <> "updates") as Hn by (intros ->; apply (H (key, raw)); [apply list_elem_of_here|exact Ef]).
  rewrite bool_decide_false in Hf by done. cbn. rewrite (field_updates _ _ Ef), bool_decide_false by done.
  rewrite <- Hf. apply IH; [|done]. intros kv Hkv. apply H. by apply list_elem_of_further.
Qed.

Lemma updates_plain o d d' prs :
  NoDup (map (fun kv => field_of document_fields (fst kv)) o) -> Updates d = None ->
  set_members d o = Ok d' ->
  map_result (unmarshal_revision zero_revision) (default [] (Updates d')) = Ok prs ->
  exists backing, unmarshal_updates ([], []) o = Ok (prs, backing).
Proof.
  revert d. induction o as [|[key raw] o IH]; intros d Hn Hd E Em; cbn [set_members] in E.
  - injection E as <-. rewrite Hd in Em. cbn in Em. injection Em as <-. by exists [].
  - destruct (set_member d (key, raw)) as [d1|] eqn:E1; [|done].
    apply set_member_field in E1 as (f & Ef & Hf). cbn [fst snd] in *.
    cbn in Hn. inversion_clear Hn as [|?? Hnin Hn']. cbn [unmarshal_updates].
    rewrite (field_updates _ _ Ef). destruct (decide (f = "updates")) as [->|Hfn].
    + rewrite bool_decide_true in * by done. rewrite Hf.
      assert (forall st, Updates d' = Updates d1 /\ unmarshal_updates st o = Ok st) as Habs.
      { intros st. apply updates_absent; [|done]. intros kv Hkv Hu. apply Hnin.
        rewrite Ef, <- Hu. apply list_elem_of_fmap. by exists kv. }
      destruct (Habs ([], [])) as [Hu _]. rewrite Hu in Em.
      destruct (Updates d1) as [l|].
      * cbn [snd default] in *. rewrite unmarshal_revisions_map. cbn in Em. rewrite Em.
        eexists. apply Habs.
      * cbn in Em. injection Em as <-. eexists. apply Habs.
    + rewrite bool_decide_false in * by done. eapply IH; [done| |done|done]. congruence.
Qed.

(** Decoding an update's members in order ends with its ID and revision. *)
Lemma set_revision_lookup o cur id r :
  NoDup (map fst o) ->
  (forall key, key ∈ map fst o ->
     key ∈ ["operation"; "id"; "revision"; "mode"; "source"; "expression"]) ->
  match lookup_key o "id" with
  | Some raw => unmarshal_string (Some raw) (prID cur) | None => Ok (prID cur) end = Ok id ->
  match lookup_key o "revision" with
  | Some raw => unmarshal_uint64 (Some raw) (prRevision cur) | None => Ok (prRevision cur) end = Ok r ->
  set_revision cur o = Ok (pr_of id r).
Proof.
  revert cur. induction o as [|[key raw] o IH]; intros cur Hn Hk Hid Hr; cbn [set_revision].
  - cbn in Hid, Hr. injection Hid as <-. injection Hr as <-. by destruct cur.
  - cbn in Hn. inversion_clear Hn as [|?? Hnin Hn'].
    assert (forall key, key ∈ map fst o ->
      key ∈ ["operation"; "id"; "revision"; "mode"; "source"; "expression"]) as Hk'
      by (intros k ?; apply Hk; by apply list_elem_of_further).
    pose proof (Hk key (list_elem_of_here _ _)) as Hkey.
    assert (forall k, k = key -> lookup_key o k = None) as Hnone.
    { intros k ->. destruct (lookup_key o key) as [v|] eqn:El; [|done]. destruct Hnin.
      apply lookup_key_is_Some. by rewrite El. }
    repeat (apply elem_of_cons in Hkey as [->|Hkey]; [|]); [..|by apply not_elem_of_nil in Hkey];
      match goal with |- context [field_of ?fs ?k] =>
        let v := eval vm_compute in (field_of fs k) in change (field_of fs k) with v end;
      cbn iota; unfold lookup_key in Hid, Hr; cbn in Hid, Hr; fold (lookup_key o "id") in Hid;
      fold (lookup_key o "revision") in Hr; try (by apply IH).
    + rewrite bool_decide_true by done.
      change (unmarshal_string (Some raw) (prID cur) = Ok id) in Hid. rewrite Hid.
      apply IH; [done|done| |done]. by rewrite Hnone.
    + rewrite bool_decide_false by done.
      change (unmarshal_uint64 (Some raw) (prRevision cur) = Ok r) in Hr. rewrite Hr.
      apply IH; [done|done|done|]. by rewrite Hnone.
Qed.

Lemma decodeStrict_object raw o :
  decodeStrict (Some raw) decode_object = Ok o ->
  NoDup (map fst o) /\ (snd raw = JObj o \/ o = []).
Proof.
  destruct raw as [t j]. unfold decodeStrict, rejectDuplicateJSON. intros E.
  destruct (nodup_keys j) eqn:Hn; [|done]. destruct j; try done; cbn in E; injection E as <-.
  - split; [constructor|auto].
  - cbn in Hn. bool_hyps. auto.
Qed.

Lemma readUpdate_revision pf batch keys raw u :
  readUpdate pf batch keys raw = Ok u -> unmarshal_revision zero_revision raw = Ok (target u).
Proof.
  unfold readUpdate. intros E.
  destruct (decodeStrict (Some raw) decode_object) as [o|] eqn:Eo; [|done].
  apply decodeStrict_object in Eo as [Hn Hj].
  destruct (unmarshal_string (lookup_key o "operation") "") as [op|]; [|done].
  destruct (unmarshal_string (lookup_key o "id") "") as [id|] eqn:Ei; [|done].
  destruct (unmarshal_uint64 (lookup_key o "revision") 0) as [r|] eqn:Er; [|done].
  destruct Hj as [Hj | ->]; [|done].
  assert ((forall key, key ∈ map fst o ->
     key ∈ ["operation"; "id"; "revision"; "mode"; "source"; "expression"]) /\ target u = pr_of id r)
    as [Hk ->].
  { inv_let. destruct (bool_decide (op = "remove")).
    - inv_let. injection E as <-. split; [|done]. intros key Hkey.
      destruct a. pose proof (proj1 (exactKeys_ok _ _ E1 key) Hkey). set_solver.
    - destruct (bool_decide (op = "upsert")); [|done]. inv_let.
      destruct (unmarshal_string (lookup_key o "mode") ""); [|done].
      destruct (unmarshal_string (lookup_key o "source") ""); [|done].
      destruct (unmarshal_map (lookup_key o "expression")) as [[?|]|]; [|done..]. inv_let.
      injection E as <-. split; [|done]. intros key Hkey. destruct a.
      by apply (exactKeys_ok _ _ E1 key). }
  unfold unmarshal_revision. rewrite Hj. apply set_revision_lookup; [done|done| |].
  - by destruct (lookup_key o "id").
  - by destruct (lookup_key o "revision").
Qed.

Lemma readUpdates_revisions pf batch keys raws us :
  map_result (readUpdate pf batch keys) raws = Ok us ->
  map_result (unmarshal_revision zero_revision) raws = Ok (map target us).
Proof.
  revert us. induction raws as [|raw raws IH]; intros us E; cbn in E |- *; [by injection E as <-|].
  destruct (readUpdate pf batch keys raw) as [u|] eqn:Eu; [|done].
  destruct (map_result _ raws) as [us'|]; [|done]. injection E as <-.
  rewrite (readUpdate_revision _ _ _ _ _ Eu). cbn. by rewrite (IH us' eq_refl).
Qed.

(** A delta the stream can take and read again: its document is plain, and
    every upsert in it parses. *)
Definition well_formed (Deser : bytes -> result string RecordBatch) (keys : gmap string Array)
    (pf0 : PushdownFilters) (d : bytes) : Prop :=
  upserts_parse Deser keys pf0 d /\
  forall batch c raw, Deser d = Ok batch -> validateFilterV2Batch batch = Ok (c, raw) ->
    plain_document raw.

Lemma plain_readable Deser keys pf0 d batch raws us :
  well_formed Deser keys pf0 d -> Deser d = Ok batch -> delta_document pf0 batch = Ok raws ->
  map_result (readUpdate pf0 batch keys) raws = Ok us -> readable Deser keys pf0 d.
Proof.
  intros [_ Hplain] Hb Hd Hu. unfold readable, filterDeltaRevisions, pairs_of, updates_of.
  rewrite Hb, Hd, Hu. unfold delta_document in Hd.
  destruct (validateFilterV2Batch batch) as [[c raw]|] eqn:Ev; [|done].
  destruct (Hplain batch c raw Hb Ev) as (o & rest & Ep & Ews & Hnd).
  inv_let. destruct (decodeStrictText raw decode_document) as [doc|] eqn:Edoc; [|done].
  inv_let. injection Hd as <-. unfold decodeStrictText in Edoc. rewrite Ep in Edoc |- *.
  rewrite bool_decide_true by done. repeat inv_let. cbn in E2.
  apply readUpdates_revisions in Hu.
  destruct (updates_plain o zero_document doc (map target us) Hnd eq_refl E2 Hu) as [bk ->]. done.
Qed.

Lemma ticks_resolved Deser keys pf0 ds st st' :
  (exists preds revs, current st = commit pf0 preds revs) ->
  fold_result (applyTick Deser keys) st ds = Ok st' ->
  Forall (fun d => exists batch raws us, Deser d = Ok batch /\ delta_document pf0 batch = Ok raws /\
            map_result (readUpdate pf0 batch keys) raws = Ok us) ds.
Proof.
  revert st. induction ds as [|d ds IH]; intros st (preds & revs & Ec) E; cbn in E; [constructor|].
  destruct (applyTick Deser keys st d) as [st1|] eqn:E1; [|done].
  unfold applyTick in E1. destruct (Deser d) as [batch|] eqn:Eb; [|done]. rewrite Ec in E1.
  destruct (applyDelta _ batch keys) as [[prs pf]|] eqn:Ea; [|done].
  destruct (recordFilterDelta _ _ _ _ _) as [h|]; [|done]. injection E1 as <-.
  apply applyDelta_inv in Ea as (raws & us & p & Ed & Eu & _ & _ & _ & _ & ->).
  constructor; [by exists batch, raws, us|]. eapply IH, E. by exists (nextPredicates p), (nextRevisions p).
Qed.

Lemma replay_stream Deser keys batch jb sp schema pf0 ds st :
  deserializeFiltersV2 batch keys jb sp schema = Ok pf0 ->
  Forall (well_formed Deser keys pf0) ds ->
  fold_result (applyTick Deser keys) {| current := pf0; deltas := []; order := [] |} ds = Ok st ->
  replayFilterDeltas Deser keys pf0 (deltas st) (order st) = Ok (current st) /\
  length (deltas st) <= size (v2Revisions (current st)).
Proof.
  intros E0 Hwf E. apply snapshot_fresh in E0 as ((H0 & Hc & Hs & _) & Hlen & _).
  eapply replay_exact; [done|done| | | |exact E].
  - unfold maxPredicates, maxPredicateIDs in *. lia.
  - assert (exists preds revs, current {| current := pf0; deltas := []; order := [] |} = commit pf0 preds revs)
      as Hcur by eauto.
    pose proof (ticks_resolved _ _ _ _ _ _ Hcur E) as Hres.
    apply Forall_forall. intros d Hd.
    destruct (proj1 (Forall_forall _ _) Hres d Hd) as (b & raws & us & Hb & Hr & Hu).
    by eapply plain_readable; [apply (proj1 (Forall_forall _ _) Hwf)|..].
  - eapply Forall_impl; [exact Hwf|]. by intros d [? _].
Qed.

(** C3: over a stream of well-formed deltas, replaying the compacted history on
    the snapshot rebuilds exactly the filters the stream has - predicates,
    their order, values and revisions, tombstones included - and the history
    holds at most one delta per predicate ID, however many were applied. *)
Theorem replay_rebuilds Deser keys batch jb sp schema pf0 ds st :
  deserializeFiltersV2 batch keys jb sp schema = Ok pf0 ->
  Forall (well_formed Deser keys pf0) ds ->
  fold_result (applyTick Deser keys) {| current := pf0; deltas := []; order := [] |} ds = Ok st ->
  replayFilterDeltas Deser keys pf0 (deltas st) (order st) = Ok (current st) /\
  length (deltas st) <= size (v2Revisions (current st)).
Proof. apply replay_stream. Qed.

(** *** An example stream *)
Module Example.

Definition text_field : Field :=
  {| FieldName := "filter_spec"; FieldType := STRING; Nullable := false; Metadata := [] |}.
Definition value_field : Field :=
  {| FieldName := "value_0"; FieldType := INT64; Nullable := true; Metadata := [] |}.
Definition schema : list Field :=
  [{| FieldName := "n"; FieldType := INT64; Nullable := true; Metadata := [] |}].

(** A filter batch of a document and the value its literals refer to. *)
Definition batch_of (text : string) (value : Z) : RecordBatch :=
  {| SchemaMetadata := [("vgi_filter_encoding", "vgi.filters.v2"); ("vgi_filter_version", "2");
                        ("vgi_evaluation_context", "vgi.none.v1")];
     Columns := [(text_field, {| ArrType := STRING; Cells := [CStr (doc_str text)] |});
                 (value_field, {| ArrType := INT64; Cells := [CInt value] |})];
     NumRows := 1 |}.

Definition header (kind : string) : string :=
  "{'encoding':'vgi.filters.v2','semantics':'vgi.duckdb.standard.v1','kind':'" +:+ kind +:+ "',".
Definition comparison (op : string) : string :=
  "{'node':'comparison','op':'" +:+ op +:+
  "','left':{'node':'column_ref','column_index':0,'column_name':'n'},'right':{'node':'literal','value_ref':0}}".
Definition upsert (id revision expression : string) : string :=
  "{'operation':'upsert','id':'" +:+ id +:+ "','revision':" +:+ revision +:+
  ",'mode':'advisory','source':'top_n','expression':" +:+ expression +:+ "}".
Definition remove (id revision : string) : string :=
  "{'operation':'remove','id':'" +:+ id +:+ "','revision':" +:+ revision +:+ "}".

Definition snapshot : RecordBatch :=
  batch_of (header "snapshot" +:+ "'predicates':[{'id':'q','revision':0,'mode':'required','source':'query','expression':"
            +:+ comparison "gt" +:+ "}]}") 2.
Definition delta (updates : list string) (value : Z) : RecordBatch :=
  batch_of (header "delta" +:+ "'updates':[" +:+ Join updates "," +:+ "]}") value.

(** Deltas by number: a Top-N bound set, a second predicate beside a stale
    update of the first, the bound tightened, the second predicate removed. *)
Definition Deser (d : bytes) : result string RecordBatch :=
  if bool_decide (d = [x01]) then Ok (delta [upsert "t" "1" (comparison "lt")] 90)
  else if bool_decide (d = [x02]) then
    Ok (delta [upsert "u" "1" (comparison "ne"); upsert "t" "1" (comparison "lt")] 70)
  else if bool_decide (d = [x03]) then Ok (delta [upsert "t" "2" (comparison "lt")] 50)
  else if bool_decide (d = [x04]) then Ok (delta [remove "u" "2"] 0)
  else if bool_decide (d = [x05]) then
    Ok (delta [upsert "u" "1" (comparison "ne"); upsert "t" "0" "{'node':'literal','value_ref':999}"] 70)
  else Err "no such delta".

Definition filters (b : RecordBatch) : option PushdownFilters :=
  match deserializeFiltersV2 b ∅ [] false (Some schema) with Ok pf => Some pf | Err _ => None end.
End Example.

Example stream_state :
  match Example.filters Example.snapshot with
  | Some pf0 =>
      match fold_result (applyTick Example.Deser ∅) {| current := pf0; deltas := []; order := [] |}
              [[x01]; [x02]; [x03]; [x04]] with
      | Ok st => bool_decide (deltas st = [[x03]; [x04]]) && bool_decide (order st = ["q"; "t"])
      | Err _ => false
      end
  | None => false
  end = true.
Proof. vm_compute. reflexivity. Qed.

(** *** Deciding well-formedness *)

Definition plain_documentb (raw : bytes) : bool :=
  match parse raw with
  | Some (JObj o, rest) =>
      bool_decide (skip_ws rest = []) &&
      bool_decide (NoDup (map (fun kv => field_of document_fields (fst kv)) o))
  | _ => false
  end.
Definition parses (u : update) : bool :=
  match installs u with Some (Err _) => false | _ => true end.
Definition well_formedb (Deser : bytes -> result string RecordBatch) (keys : gmap string Array)
    (pf0 : PushdownFilters) (d : bytes) : bool :=
  forallb parses (updates_of Deser keys pf0 d) &&
  match Deser d with
  | Ok batch => match validateFilterV2Batch batch with Ok (_, raw) => plain_documentb raw | Err _ => true end
  | Err _ => true
  end.

Lemma well_formedb_ok Deser keys pf0 d :
  well_formedb Deser keys pf0 d = true -> well_formed Deser keys pf0 d.
Proof.
  unfold well_formedb. intros [H1 H2]%andb_true_iff. split.
  - intros u e Hu Hi. rewrite forallb_forall in H1. apply list_elem_of_In, H1 in Hu.
    unfold parses in Hu. by rewrite Hi in Hu.
  - intros batch c raw Hb Hv. rewrite Hb, Hv in H2. unfold plain_documentb, plain_document in *.
    destruct (parse raw) as [[[| | | | |o] rest]|]; try done. bool_hyps. eauto.
Qed.

(** The value of a computation, or another one. *)
Definition from_ok {E A} (a : A) (r : result E A) : A := match r with Ok x => x | Err _ => a end.
Lemma from_ok_ok {E A} (a : A) (r : result E A) : is_ok r = true -> r = Ok (from_ok a r).
Proof. by destruct r. Qed.

Module Witness.
Definition nothing : PushdownFilters :=
  {| Filters := []; v2Predicates := []; v2Revisions := ∅; v2Required := ∅; v2Context := "";
     v2JoinKeyBatches := []; v2Spatial := false; v2OutputSchema := None |}.
Definition pf0 : PushdownFilters :=
  from_ok nothing (deserializeFiltersV2 Example.snapshot ∅ [] false (Some Example.schema)).
Definition ticks (ds : list bytes) : result string stream :=
  fold_result (applyTick Example.Deser ∅) {| current := pf0; deltas := []; order := [] |} ds.
Definition after (ds : list bytes) : stream :=
  from_ok {| current := pf0; deltas := []; order := [] |} (ticks ds).
End Witness.

Lemma replay_rebuilds_witness :
  let st := Witness.after [[x01]; [x02]; [x03]; [x04]] in
  length (v2Predicates (current st)) = 2 /\
  replayFilterDeltas Example.Deser ∅ Witness.pf0 (deltas st) (order st) = Ok (current st).
Proof.
  intros st. split; [vm_compute; reflexivity|].
  pose (H := replay_rebuilds Example.Deser ∅ Example.snapshot [] false (Some Example.schema)
               Witness.pf0 [[x01]; [x02]; [x03]; [x04]] st).
  apply H.
  - apply from_ok_ok. vm_compute. reflexivity.
  - repeat (apply Forall_cons_2; [apply well_formedb_ok; vm_compute; reflexivity|]). apply Forall_nil_2.
  - apply from_ok_ok. vm_compute. reflexivity.
Defined.

(** without that, replaying can fail. A stale update is not parsed when it
    arrives, so a delta with a malformed one is applied; once the update that
    made it stale is compacted away, the replay takes it for a new one, and the
    stream the worker was serving cannot be rebuilt. *)
Theorem stale_update_breaks_replay :
  exists st, Witness.ticks [[x01]; [x05]; [x03]] = Ok st /\ deltas st = [[x05]; [x03]] /\
    is_ok (replayFilterDeltas Example.Deser ∅ Witness.pf0 (deltas st) (order st)) = false.
Proof.
  exists (Witness.after [[x01]; [x05]; [x03]]).
  split; [apply from_ok_ok|split]; vm_compute; reflexivity.
Qed.

(** ** Reachable filters *)

(** A predicate decoded from some batch under the settings of [pf0]. *)
Definition decoded (pf0 : PushdownFilters) (p : v2Predicate) : Prop :=
  exists batch keys d,
    valid_predicate batch keys (v2JoinKeyBatches pf0) (v2Spatial pf0) (v2OutputSchema pf0) d p.

Definition required_of (pf0 : PushdownFilters) (preds : list v2Predicate) : list v2Predicate :=
  filter (fun p => ID p ∈ v2Required pf0) preds.

(** The predicates of a scan: decoded ones, of which the required ones are
    those of the snapshot and the others advisory. *)
Definition scan_predicates (pf0 : PushdownFilters) (preds : list v2Predicate) : Prop :=
  required_of pf0 preds = required_of pf0 (v2Predicates pf0) /\
  forall p, p ∈ preds -> decoded pf0 p /\ (Mode p = "required" <-> ID p ∈ v2Required pf0).

(** What an update may install. *)
Definition installs_advisory (pf0 : PushdownFilters) (u : update) : Prop :=
  forall p, installs u = Some (Ok p) -> decoded pf0 p /\ Mode p = "advisory" /\ ID p = prID (target u).

Lemma readUpdate_advisory pf batch keys raw u :
  readUpdate pf batch keys raw = Ok u -> installs_advisory pf u.
Proof.
  intros E p Hp. pose proof (readUpdate_own _ _ _ _ _ E p Hp) as [Hid _].
  unfold readUpdate in E.
  destruct (decodeStrict (Some raw) decode_object) as [o|]; [|done].
  destruct (unmarshal_string (lookup_key o "operation") "") as [op|]; [|done].
  destruct (unmarshal_string (lookup_key o "id") "") as [id|]; [|done].
  destruct (unmarshal_uint64 (lookup_key o "revision") 0) as [r|]; [|done]. inv_let.
  destruct (bool_decide (op = "remove")); [inv_let; injection E as <-; done|].
  destruct (bool_decide (op = "upsert")); [|done]. inv_let.
  destruct (unmarshal_string (lookup_key o "mode") ""); [|done].
  destruct (unmarshal_string (lookup_key o "source") ""); [|done].
  destruct (unmarshal_map (lookup_key o "expression")) as [[?|]|]; [|done..]. inv_let.
  injection E as <-. cbn in Hp. injection Hp as Hp. apply parsed_valid in Hp.
  split; [by exists batch, keys, true|]. split; [|done].
  destruct Hp as (_ & _ & [?|[_ ?]] & _); done.
Qed.

Lemma required_removed pf0 preds id :
  id ∉ v2Required pf0 -> required_of pf0 (removeV2Predicate preds id) = required_of pf0 preds.
Proof. apply filter_removed. Qed.

Lemma update_effect_scan pf0 st u st' :
  prID (target u) ∉ v2Required pf0 -> installs_advisory pf0 u ->
  update_effect (v2Required pf0) st u st' ->
  scan_predicates pf0 (nextPredicates st) -> scan_predicates pf0 (nextPredicates st').
Proof.
  intros Hr Hu He [Hf Hp].
  assert (forall p, p ∈ removeV2Predicate (nextPredicates st) (prID (target u)) ->
            decoded pf0 p /\ (Mode p = "required" <-> ID p ∈ v2Required pf0)) as Hp'
    by (intros p [_ ?]%list_elem_of_filter; auto).
  destruct He as [old ? ?|Hs Hi|p Hs Hi]; cbn; [done| |].
  - split; [|done]. by rewrite required_removed.
  - destruct (Hu p Hi) as (Hd & Hm & Hid). split.
    + unfold required_of. rewrite finished_app. fold (required_of pf0 (removeV2Predicate (nextPredicates st) (prID (target u)))).
      rewrite required_removed, Hf by done. rewrite decide_False by (by rewrite Hid). by rewrite app_nil_r.
    + intros q [Hq| ->%list_elem_of_singleton]%elem_of_app; [auto|]. split; [done|].
      rewrite Hm, Hid. split; [done|by intros ?].
Qed.

Lemma run_scan pf0 us st st' :
  Forall (installs_advisory pf0) us ->
  fold_result (update_step (v2Required pf0)) st us = Ok st' ->
  scan_predicates pf0 (nextPredicates st) -> scan_predicates pf0 (nextPredicates st').
Proof.
  intros Hus E Hst. revert E. apply (fold_result_inv _ (fun st => scan_predicates pf0 (nextPredicates st))).
  - intros a u a' Hu Ha Es. apply update_step_effect in Es as (_ & Hr & He).
    eapply update_effect_scan, Ha; [exact Hr|by apply (proj1 (Forall_forall _ _) Hus)|exact He].
  - done.
Qed.

(** The state of a scan: what the snapshot set up stays, what is known grows. *)
Definition scan_state (pf0 pf : PushdownFilters) : Prop :=
  pf = commit pf0 (v2Predicates pf) (v2Revisions pf) /\
  consistent (v2Predicates pf) (v2Revisions pf) /\
  size (v2Revisions pf) <= maxPredicateIDs /\
  newer (v2Revisions pf0) (v2Revisions pf) /\
  scan_predicates pf0 (v2Predicates pf).

Lemma applyDelta_scan pf0 pf batch keys prs pf' :
  scan_state pf0 pf -> applyDelta pf batch keys = Ok (prs, pf') -> scan_state pf0 pf'.
Proof.
  intros (H0 & Hc & _ & Hn & Hp) E.
  destruct (applyDelta_facts _ _ _ _ _ E) as (Hn' & _ & _ & Hc' & Hs' & H').
  apply applyDelta_inv in E as (raws & us & st & _ & Eu & _ & Hrun & _ & _ & E').
  split; [by rewrite H', H0|]. split; [auto|]. split; [done|]. split; [by etrans|].
  rewrite E'. cbn. replace (v2Required pf) with (v2Required pf0) in Hrun by (by rewrite H0).
  apply (run_scan pf0 us (start pf) st); [|exact Hrun|exact Hp].
  eapply map_result_Forall, Eu. intros raw u Hr. rewrite H0 in Hr.
  change (readUpdate pf0 batch keys raw = Ok u) in Hr. by eapply readUpdate_advisory.
Qed.

(** The deltas of a scan, with the join keys each comes with. *)
Definition apply_all (pf : PushdownFilters) (l : list (RecordBatch * gmap string Array))
  : result string PushdownFilters :=
  fold_result (fun pf '(batch, keys) => ApplyDelta pf batch keys) pf l.

Lemma snapshot_scan batch keys jb sp schema pf :
  deserializeFiltersV2 batch keys jb sp schema = Ok pf -> scan_state pf pf.
Proof.
  intros E. pose proof (snapshot_fresh _ _ _ _ _ _ E) as ((H0 & Hc & Hs & Hreq) & Hl & Hj & Hsp & Hsc).
  split; [done|]. split; [done|].
  split; [unfold maxPredicates, maxPredicateIDs in *; lia|]. split; [done|].
  split; [done|]. intros p Hp. split.
  - unfold deserializeFiltersV2 in E. do 6 inv_let.
    assert (forall q, q ∈ v2Predicates pf -> exists raw,
      parseV2Predicate batch keys jb sp schema raw false = Ok q) as H.
    { revert E. apply (fold_result_inv _ (fun pf => v2JoinKeyBatches pf = jb /\ v2Spatial pf = sp /\
        v2OutputSchema pf = schema /\ forall q, q ∈ v2Predicates pf -> exists raw,
          parseV2Predicate batch keys jb sp schema raw false = Ok q)).
      - intros f raw f' _ (Ja & Sa & Oa & Ha) Es. unfold snapshot_step in Es. rewrite Ja, Sa, Oa in Es.
        destruct (parseV2Predicate _ _ _ _ _ raw false) as [q|] eqn:Eq; [|done]. do 2 inv_let.
        apply ok_inj in Es as <-. cbn. split; [done|]. split; [done|]. split; [done|].
        intros x [Hx| ->%list_elem_of_singleton]%elem_of_app; eauto.
      - cbn. split; [done|]. split; [done|]. split; [done|]. by intros q ?%not_elem_of_nil. }
    destruct (H p Hp) as [raw Hraw]. apply parsed_valid in Hraw.
    exists batch, keys, false. by rewrite Hj, Hsp, Hsc.
  - rewrite Hreq. split; [intros; by exists p|]. intros (q & Hq & Eid & Em).
    assert (q = p) as ->; [|done]. destruct Hc as [Hn _].
    apply list_elem_of_lookup in Hq as [i Hi]. apply list_elem_of_lookup in Hp as [j Hj'].
    assert (i = j) as ->; [|congruence].
    apply (NoDup_lookup (map ID (v2Predicates pf)) i j (ID p) Hn);
      rewrite list_lookup_fmap; [rewrite Hi; cbn; by rewrite Eid|by rewrite Hj'].
Qed.

Lemma apply_all_scan batch keys jb sp schema pf0 l pf :
  deserializeFiltersV2 batch keys jb sp schema = Ok pf0 -> apply_all pf0 l = Ok pf -> scan_state pf0 pf.
Proof.
  intros E0 E. revert E. apply (fold_result_inv _ (scan_state pf0)); [|by eapply snapshot_scan].
  intros a [b ks] a' _ Ha Ea. unfold ApplyDelta in Ea.
  destruct (applyDelta a b ks) as [[prs p]|] eqn:Eb; [|done]. injection Ea as <-.
  by eapply applyDelta_scan.
Qed.

(** C22: in every state of a scan the live predicates have distinct IDs and
    carry the revisions on record, at most 4096 IDs are known and no revision
    ever goes back; each predicate is well-typed and within its limits; and
    the required predicates are exactly those of the snapshot, in its order:
    deltas add and take away advisory ones only. *)
Theorem scan_invariant batch keys jb sp schema pf0 l pf :
  deserializeFiltersV2 batch keys jb sp schema = Ok pf0 -> apply_all pf0 l = Ok pf ->
  scan_state pf0 pf.
Proof. apply apply_all_scan. Qed.

Lemma scan_invariant_witness :
  let l := [(Example.delta [Example.upsert "t" "1" (Example.comparison "lt")] 90, ∅);
            (Example.delta [Example.remove "t" "3"] 0, ∅)] in
  let pf := from_ok Witness.pf0 (apply_all Witness.pf0 l) in
  map ID (v2Predicates pf) = ["q"] /\ v2Revisions pf !! "t" = Some 3%Z /\ scan_state Witness.pf0 pf.
Proof.
  intros l pf. split; [vm_compute; reflexivity|]. split; [vm_compute; reflexivity|].
  pose (H := scan_invariant Example.snapshot ∅ [] false (Some Example.schema) Witness.pf0 l pf).
  apply H; apply from_ok_ok; vm_compute; reflexivity.
Defined.
