(* ===== verification/FilterEval.v ===== *)
(** * FilterEval: applying the filters of a scan to a batch (vgi/filter_v2.go,
    vgi/filter_pushdown.go, vgi/expression_filter.go)

    A predicate is rendered as DuckDB SQL over the batch's columns and handed to
    the registered evaluator, an embedded database that is not part of the
    repository. The masks are combined with AND; a predicate that cannot be
    rendered or evaluated fails the batch when it is required and is skipped
    when it is advisory. The rows of the mask are then kept, column by column
    where a column is dictionary-encoded. *)

From S2P Require Import Prelude Bytes Strings ArrowTypes ArrowData Strconv SqlTokens FilterV2 FilterView FilterDelta.

(** ** SQL text *)

(** [strings.ReplaceAll(s, q, q+q)] for a quote [q]. *)
Definition doubled (q : byte) (s : string) : string := bstr (quote_text q (sb s)).
Definition escapeIdent (s : string) : string := doubled x22 s.

(** A double quote, as a string. *)
Definition DQ : string := bstr [x22].
Definition quoted_name (s : string) : string := DQ +:+ escapeIdent s +:+ DQ.
Definition text_literal (s : string) : string := "'" +:+ doubled x27 s +:+ "'".

(** [duckDBTypeFor] of a type: the children of a struct carry no metadata in
    this model, so only the outer field can be a geometry. *)
Fixpoint duckDBType (t : DataType) : result string string :=
  match t with
  | DICTIONARY _ value _ => duckDBType value
  | INT64 => Ok "BIGINT"
  | INT32 => Ok "INTEGER"
  | INT16 => Ok "SMALLINT"
  | INT8 => Ok "TINYINT"
  | FLOAT64 => Ok "DOUBLE"
  | FLOAT32 => Ok "REAL"
  | STRING => Ok "VARCHAR"
  | BOOL => Ok "BOOLEAN"
  | BINARY => Ok "BLOB"
  | LIST elem _ => let? e := duckDBType elem in Ok (e +:+ "[]")
  | STRUCT fields =>
      let? parts := (fix all (fields : list (string * (DataType * bool))) : result string (list string) :=
        match fields with
        | [] => Ok []
        | (name, (t, _)) :: fields =>
            let? p := duckDBType t in
            let? ps := all fields in Ok ((quoted_name name +:+ " " +:+ p) :: ps)
        end) fields in
      Ok ("STRUCT(" +:+ Join parts ", " +:+ ")")
  | _ => Err "unsupported column type in expression filter"
  end.
Definition duckDBTypeFor (f : Field) : result string string :=
  if isWKBField f then Ok "BLOB" else duckDBType (FieldType f).

Section sql.
(** [fmt.Sprintf] of a float with the verb g. *)
Context (format_g : float64 -> string).

(** The literal of one value, by the array's type; a dictionary's value is
    rendered by the type of the dictionary. *)
Fixpoint renderArrayValueField (t : DataType) (c : cell) (field : Field) : result string string :=
  match c with
  | CNull => Ok "NULL"
  | _ =>
      match t, c with
      | DICTIONARY _ value _, _ => renderArrayValueField value c field
      | INT64, CInt z | INT32, CInt z => Ok (Itoa z)
      | FLOAT64, CFloat f | FLOAT32, CFloat f => Ok (format_g f)
      | BOOL, CBool b => Ok (if b then "TRUE" else "FALSE")
      | STRING, CStr s => Ok (text_literal s)
      | BINARY, CBin b =>
          if isWKBField field then Ok ("ST_GeomFromHEXWKB('" +:+ hex_encode b +:+ "')")
          else Ok ("'\x" +:+ hex_encode b +:+ "'::BLOB")
      | _, _ => Err "unsupported literal type"
      end
  end.

Definition no_field (t : DataType) : Field :=
  {| FieldName := ""; FieldType := t; Nullable := false; Metadata := [] |}.
Definition renderArrayValue (column : Array) (c : cell) : result string string :=
  renderArrayValueField (ArrType column) c (no_field NULL).


(** The field a column reference stands for in [batch]: by position when the
    name is there, else by a name that occurs once. *)
Definition remapped (batch : RecordBatch) (name : string) (bound : bool) : result string Field :=
  check! bound else "unbound column_ref cannot be remapped in a projected evaluation batch" in
  match columns_named batch name with
  | [(f, _)] => Ok f
  | _ => Err "authoritative column_ref is absent or ambiguous in evaluation batch"
  end.
Definition column_field (batch : RecordBatch) (index : Z) (name : string) (bound : bool) : result string Field :=
  match (if (index <? 0)%Z then None else at_index (Columns batch) index) with
  | Some (f, _) => if bool_decide (FieldName f = name) then Ok f else remapped batch name bound
  | None => remapped batch name bound
  end.

(** A Go map of strings, missing keys being "". *)
Definition symbol_of (table : list (string * string)) (op : string) : string :=
  match List.find (fun kv => bool_decide (fst kv = op)) table with Some (_, s) => s | None => "" end.
Definition comparison_symbols : list (string * string) :=
  [("eq", "="); ("ne", "!="); ("lt", "<"); ("le", "<="); ("gt", ">"); ("ge", ">=");
   ("distinct_from", "IS DISTINCT FROM"); ("not_distinct_from", "IS NOT DISTINCT FROM")].
Definition arithmetic_symbols : list (string * string) :=
  [("add", "+"); ("subtract", "-"); ("multiply", "*"); ("divide", "/"); ("modulo", "%")].

Definition paren (s : string) : string := "(" +:+ s +:+ ")".

Fixpoint sql (batch : RecordBatch) (e : v2Expr) : result string string :=
  let all := fix all (es : list v2Expr) : result string (list string) :=
    match es with
    | [] => Ok []
    | e :: es => let? s := sql batch e in let? ss := all es in Ok (s :: ss)
    end in
  match e with
  | ColumnRef index name dt =>
      let? f := column_field batch index name (bool_decide (is_Some dt)) in
      check! match dt with Some dt => TypeEqual (FieldType f) dt | None => true end
        else "column_ref type changed in projected evaluation batch" in
      let column := quoted_name (FieldName f) in
      Ok (if isWKBField f then "ST_GeomFromWKB(" +:+ column +:+ ")" else column)
  | FieldRef e _ name _ =>
      let? parent := sql batch e in
      Ok ("struct_extract(" +:+ parent +:+ ", " +:+ text_literal name +:+ ")")
  | Literal _ value field =>
      renderArrayValueField (ArrType value) (default CNull (Cells value !! 0)) field
  | Comparison op l r =>
      let? lhs := sql batch l in
      let? rhs := sql batch r in
      Ok (paren (lhs +:+ " " +:+ symbol_of comparison_symbols op +:+ " " +:+ rhs))
  | And es => let? parts := all es in Ok (paren (Join parts " AND "))
  | Or es => let? parts := all es in Ok (paren (Join parts " OR "))
  | Not e => let? value := sql batch e in Ok (paren ("NOT " +:+ value))
  | IsNullNode e negated =>
      let? value := sql batch e in
      Ok (paren (value +:+ if negated then " IS NOT NULL" else " IS NULL"))
  | In e set negated =>
      match Cells (SetValues set) with
      | [] => Ok (if negated then "TRUE" else "FALSE")
      | cells =>
          let? value := sql batch e in
          let? items := map_result (renderArrayValue (SetValues set)) cells in
          Ok (paren (value +:+ (if negated then " NOT IN " else " IN ") +:+ paren (Join items ",")))
      end
  | Cast e _ target =>
      let? value := sql batch e in
      let? t := duckDBTypeFor (no_field target) in
      Ok ("CAST(" +:+ value +:+ " AS " +:+ t +:+ ")")
  | Arithmetic op l r =>
      let? lhs := sql batch l in
      let? rhs := sql batch r in
      Ok (paren (lhs +:+ symbol_of arithmetic_symbols op +:+ rhs))
  | Negate e => let? value := sql batch e in Ok (paren ("-" +:+ value))
  | Call function args =>
      let? parts := all args in
      Ok ((if bool_decide (function = "duckdb.spatial/intersects_extent@1")
           then "st_intersects_extent" else function) +:+ paren (Join parts ","))
  | RuntimeFilter _ _ => Err "runtime filter has no evaluator"
  end.
End sql.

(** ** Masks and the rows they keep *)

(** Three-valued AND, on the cells of boolean arrays. *)
Definition kleene_and (a b : cell) : cell :=
  match a, b with
  | CBool false, _ | _, CBool false => CBool false
  | CBool true, CBool true => CBool true
  | _, _ => CNull
  end.
Definition is_true (c : cell) : bool := match c with CBool b => b | _ => false end.
Definition bool_cell (c : cell) : bool := match c with CNull | CBool _ => true | _ => false end.

(** The elements at the true slots of a mask. *)
Fixpoint select {A} (mask : list cell) (l : list A) : list A :=
  match mask, l with
  | c :: mask, x :: l => if is_true c then x :: select mask l else select mask l
  | _, _ => []
  end.

Definition makeBoolArray (value : bool) (length : nat) : Array :=
  {| ArrType := BOOL; Cells := replicate length (CBool value) |}.
Definition rows (b : RecordBatch) : nat := Z.to_nat (NumRows b).

(** The batch of the rows a mask keeps. *)
Definition keep_column (mask : list cell) (a : Array) : Array :=
  {| ArrType := ArrType a; Cells := select mask (Cells a) |}.
Definition keep_rows (mask : list cell) (b : RecordBatch) : RecordBatch :=
  {| SchemaMetadata := SchemaMetadata b;
     Columns := map (fun fa => (fst fa, keep_column mask (snd fa))) (Columns b);
     NumRows := Z.of_nat (length (filter (fun c => is_true c = true) mask)) |}.

Section apply.
Context (format_g : float64 -> string).
(** The registered evaluator, if any; the kernels and the dictionary arrays of
    the Arrow library. *)
Context (evaluator : option (RecordBatch -> string -> result string Array)).
Context (and_kleene : Array -> Array -> result string Array).
Context (FilterArray : Array -> Array -> result string Array).
Context (FilterRecordBatch : RecordBatch -> Array -> result string RecordBatch).
Context (Indices Dictionary : Array -> Array) (NewDictionaryArray : DataType -> Array -> Array -> Array).

Definition evalExpressionAgainstBatch (batch : RecordBatch) (sqlExpr : string) : result string Array :=
  match evaluator with
  | None => Err "vgi: expression evaluator not linked"
  | Some e => e batch sqlExpr
  end.

(** The mask of one predicate. *)
Definition predicate_mask (batch : RecordBatch) (p : v2Predicate) : result string Array :=
  let? text := sql format_g batch (Expr p) in evalExpressionAgainstBatch batch text.

Fixpoint evaluate_loop (batch : RecordBatch) (acc : Array) (preds : list v2Predicate) : result string Array :=
  match preds with
  | [] => Ok acc
  | p :: preds =>
      if is_runtime (Expr p) then evaluate_loop batch acc preds else
      match predicate_mask batch p with
      | Ok current => let? acc := and_kleene acc current in evaluate_loop batch acc preds
      | Err e => if bool_decide (Mode p = "advisory") then evaluate_loop batch acc preds else Err e
      end
  end.

Definition evaluateV2 (pf : PushdownFilters) (batch : RecordBatch) : result string Array :=
  evaluate_loop batch (makeBoolArray true (rows batch)) (v2Predicates pf).

(** [Evaluate] of decoded filters, whose public filters are made from the
    predicates: with no predicate there is no public filter either. *)
Definition Evaluate (pf : PushdownFilters) (batch : RecordBatch) : result string Array :=
  match v2Predicates pf with
  | [] => Ok (makeBoolArray true (rows batch))
  | _ => evaluateV2 pf batch
  end.

Definition is_dictionary (t : DataType) : bool := match t with DICTIONARY _ _ _ => true | _ => false end.
Definition batchHasDictionary (batch : RecordBatch) : bool :=
  existsb (fun fa => is_dictionary (ArrType (snd fa))) (Columns batch).

Definition filterColumn (col mask : Array) : result string Array :=
  if is_dictionary (ArrType col) then
    let? idx := FilterArray (Indices col) mask in
    Ok (NewDictionaryArray (ArrType col) idx (Dictionary col))
  else FilterArray col mask.

Definition filterRecordBatchDictAware (batch : RecordBatch) (mask : Array) : result string RecordBatch :=
  let? cols := map_result (fun fa => filterColumn (snd fa) mask) (Columns batch) in
  Ok {| SchemaMetadata := SchemaMetadata batch;
        Columns := zip (map fst (Columns batch)) cols;
        NumRows := match cols with c :: _ => Len c | [] => 0 end |}.

Definition filter_batch (batch : RecordBatch) (mask : Array) : result string RecordBatch :=
  if batchHasDictionary batch then filterRecordBatchDictAware batch mask
  else FilterRecordBatch batch mask.

Definition Apply (pf : PushdownFilters) (batch : RecordBatch) : result string RecordBatch :=
  let? mask := Evaluate pf batch in filter_batch batch mask.

(** ** What filtering computes *)

(** What Arrow documents of its kernels, on arrays of one length. *)
Definition well_formed_mask (n : nat) (m : Array) : Prop :=
  ArrType m = BOOL /\ length (Cells m) = n /\ forallb bool_cell (Cells m) = true.
Record kernels : Prop := {
  and_kleene_exact : forall n a b, well_formed_mask n a -> well_formed_mask n b ->
    and_kleene a b = Ok {| ArrType := BOOL; Cells := zip_with kleene_and (Cells a) (Cells b) |};
  FilterArray_exact : forall n a m, is_dictionary (ArrType a) = false -> well_formed_mask n m ->
    length (Cells a) = n -> FilterArray a m = Ok (keep_column (Cells m) a);
  FilterRecordBatch_exact : forall b m, batchHasDictionary b = false -> well_formed_mask (rows b) m ->
    FilterRecordBatch b m = Ok (keep_rows (Cells m) b);
  indices_plain : forall d, is_dictionary (ArrType d) = true ->
    is_dictionary (ArrType (Indices d)) = false /\ length (Cells (Indices d)) = length (Cells d);
  dictionary_selects : forall d mask, is_dictionary (ArrType d) = true ->
    NewDictionaryArray (ArrType d) (keep_column mask (Indices d)) (Dictionary d) = keep_column mask d
}.
(** What an evaluator promises: a boolean array with a cell per row. *)
Definition evaluator_masks : Prop :=
  forall e batch text m, evaluator = Some e -> e batch text = Ok m -> well_formed_mask (rows batch) m.

Definition well_formed_batch (b : RecordBatch) : Prop :=
  Forall (fun fa => length (Cells (snd fa)) = rows b) (Columns b).

Context (K : kernels) (E : evaluator_masks).

(** Whether a row is kept by a predicate: one that is skipped keeps it. *)
Definition cell_true (l : list cell) (i : nat) : bool := match l !! i with Some c => is_true c | None => false end.
Definition row_passes (batch : RecordBatch) (i : nat) (p : v2Predicate) : bool :=
  is_runtime (Expr p) ||
  match predicate_mask batch p with Ok m => cell_true (Cells m) i | Err _ => true end.
(** The predicate that fails the batch. *)
Definition refusal (batch : RecordBatch) (p : v2Predicate) : option string :=
  if is_runtime (Expr p) || bool_decide (Mode p = "advisory") then None
  else match predicate_mask batch p with Ok _ => None | Err e => Some e end.
(** The rows every predicate keeps. *)
Definition passing (preds : list v2Predicate) (batch : RecordBatch) : list cell :=
  map (fun i => CBool (forallb (row_passes batch i) preds)) (seq 0 (rows batch)).

Lemma predicate_mask_wf batch p m : predicate_mask batch p = Ok m -> well_formed_mask (rows batch) m.
Proof using E.
  unfold predicate_mask, evalExpressionAgainstBatch. destruct (sql _ _ _) as [text|]; [|done].
  destruct evaluator as [e|] eqn:Ee; [|done]. by apply E.
Qed.

Lemma kleene_wf n a b : well_formed_mask n a -> well_formed_mask n b ->
  well_formed_mask n {| ArrType := BOOL; Cells := zip_with kleene_and (Cells a) (Cells b) |} /\
  forall i, cell_true (zip_with kleene_and (Cells a) (Cells b)) i = cell_true (Cells a) i && cell_true (Cells b) i.
Proof.
  destruct a as [ta a], b as [tb b]; unfold well_formed_mask; cbn. intros (_ & Ha & Hwa) (_ & Hb & Hwb).
  split; [split; [done|split; [rewrite length_zip_with; lia|]]|].
  - clear Ha Hb. revert b Hwb. induction a as [|x a IH]; intros [|y b] Hwb; cbn in *; try done.
    apply andb_true_iff in Hwa as [Hx Hwa]. apply andb_true_iff in Hwb as [Hy Hwb].
    rewrite IH by done. by destruct x, y; try done; cbn; repeat case_match.
  - intros i. unfold cell_true. rewrite lookup_zip_with.
    destruct (a !! i) as [x|] eqn:Ex; cbn; [|done]. destruct (b !! i) as [y|] eqn:Ey; cbn; [|by destruct (is_true x)].
    destruct x as [|[]| | | | | |], y as [|[]| | | | | |]; done.
Qed.

Lemma evaluate_loop_exact batch preds acc : well_formed_mask (rows batch) acc ->
  match head (omap (refusal batch) preds) with
  | Some e => evaluate_loop batch acc preds = Err e
  | None => exists m, evaluate_loop batch acc preds = Ok m /\ well_formed_mask (rows batch) m /\
      forall i, cell_true (Cells m) i = cell_true (Cells acc) i && forallb (row_passes batch i) preds
  end.
Proof using E K.
  revert acc. induction preds as [|p preds IH]; intros acc Hacc; cbn [omap list_omap head].
  { exists acc. split; [done|]. split; [done|]. intros i. cbn. by rewrite andb_true_r. }
  cbn [evaluate_loop]. unfold refusal at 1. unfold row_passes at 1. cbn [forallb].
  destruct (is_runtime (Expr p)) eqn:Er; cbn [orb].
  { specialize (IH acc Hacc). cbn [head] in *. destruct (head _); [done|].
    destruct IH as (m & ? & ? & Hm). exists m. split; [done|]. split; [done|]. intros i. by rewrite Hm. }
  destruct (predicate_mask batch p) as [cur|e] eqn:Em.
  - assert (Hcur := predicate_mask_wf _ _ _ Em). rewrite (and_kleene_exact K _ _ _ Hacc Hcur).
    destruct (kleene_wf _ _ _ Hacc Hcur) as [Hw Hk]. specialize (IH _ Hw).
    assert ((if bool_decide (Mode p = "advisory") then @None string else None) = None) as -> by by destruct (bool_decide _).
    cbn [head]. destruct (head _); [done|]. destruct IH as (m & ? & ? & Hm). exists m. split; [done|]. split; [done|].
    intros i. rewrite Hm. cbn [Cells]. by rewrite Hk, andb_assoc.
  - destruct (bool_decide (Mode p = "advisory")); cbn [head].
    + specialize (IH acc Hacc). destruct (head _); [done|]. destruct IH as (m & ? & ? & Hm). exists m.
      split; [done|]. split; [done|]. intros i. by rewrite Hm.
    + done.
Qed.

Lemma all_true_wf n : well_formed_mask n (makeBoolArray true n) /\
  forall i, i < n -> cell_true (Cells (makeBoolArray true n)) i = true.
Proof.
  unfold well_formed_mask, makeBoolArray, cell_true; cbn. split; [split; [done|split; [by rewrite length_replicate|]]|].
  - by induction n.
  - intros i Hi. by rewrite lookup_replicate_2.
Qed.

Lemma evaluate_wf pf batch m : Evaluate pf batch = Ok m -> well_formed_mask (rows batch) m.
Proof using E K.
  destruct (all_true_wf (rows batch)) as [Hw _].
  assert (Evaluate pf batch = evaluate_loop batch (makeBoolArray true (rows batch)) (v2Predicates pf)) as ->
    by (unfold Evaluate, evaluateV2; by destruct (v2Predicates pf)).
  assert (H := evaluate_loop_exact batch (v2Predicates pf) _ Hw). destruct (head _); [by rewrite H|].
  destruct H as (m' & -> & Hm & _). by intros <-%ok_inj.
Qed.

Lemma select_passing {A} (m : list cell) (f : nat -> bool) (l : list A) k :
  (forall i, cell_true m i = (i <? length m)%nat && f (k + i)) -> length m = length l ->
  select m l = select (map (fun i => CBool (f i)) (seq k (length l))) l.
Proof.
  revert m k. induction l as [|x l IH]; intros [|c m] k Hm Hl; try done. cbn [length seq map select is_true].
  assert (is_true c = f k) as ->. { specialize (Hm 0). cbn in Hm. by rewrite Nat.add_0_r in Hm. }
  rewrite (IH m (S k)); [done| |cbn in Hl; lia]. intros i. specialize (Hm (S i)). cbn [length] in Hm.
  replace (k + S i) with (S k + i) in Hm by lia. exact Hm.
Qed.

Lemma count_passing (m : list cell) (f : nat -> bool) k :
  (forall i, cell_true m i = (i <? length m)%nat && f (k + i)) ->
  length (filter (fun c => is_true c = true) m) =
  length (filter (fun c => is_true c = true) (map (fun i => CBool (f i)) (seq k (length m)))).
Proof.
  revert k. induction m as [|c m IH]; intros k Hm; [done|]. cbn [length seq map].
  assert (is_true c = f k) as Hc. { specialize (Hm 0). cbn in Hm. by rewrite Nat.add_0_r in Hm. }
  rewrite !filter_cons. rewrite Hc. change (is_true (CBool (f k))) with (f k).
  assert (IH' : forall i, cell_true m i = (i <? length m)%nat && f (S k + i)).
  { intros i. specialize (Hm (S i)). cbn [length] in Hm. replace (k + S i) with (S k + i) in Hm by lia. exact Hm. }
  specialize (IH _ IH'). destruct (decide (f k = true)); cbn [length]; by rewrite IH.
Qed.

Lemma keep_rows_passing m preds batch : well_formed_batch batch -> well_formed_mask (rows batch) m ->
  (forall i, i < rows batch -> cell_true (Cells m) i = forallb (row_passes batch i) preds) ->
  keep_rows (Cells m) batch = keep_rows (passing preds batch) batch.
Proof.
  intros Hb (_ & Hl & _) Hm.
  assert (H : forall i, cell_true (Cells m) i = (i <? length (Cells m))%nat && forallb (row_passes batch (0 + i)) preds).
  { intros i. destruct (i <? length (Cells m))%nat eqn:Ei; bool_hyps; [apply Hm; lia|].
    unfold cell_true. by rewrite lookup_ge_None_2 by lia. }
  unfold keep_rows, passing. f_equal.
  - apply map_ext_Forall. eapply Forall_impl; [exact Hb|]. intros [f a] Ha. cbn in *. unfold keep_column.
    do 2 f_equal. rewrite (select_passing _ (fun i => forallb (row_passes batch i) preds) _ 0) by (done || lia).
    by rewrite Ha.
  - rewrite (count_passing _ (fun i => forallb (row_passes batch i) preds) 0) by done. by rewrite Hl.
Qed.

Lemma select_count {A} (m : list cell) (l : list A) : length m = length l ->
  length (select m l) = length (filter (fun c => is_true c = true) m).
Proof.
  revert l. induction m as [|c m IH]; intros [|x l] Hl; try done. cbn [select].
  rewrite filter_cons. destruct (is_true c); cbn; [rewrite decide_True by done; cbn; f_equal|rewrite decide_False by done]; apply IH; by injection Hl.
Qed.

Lemma filterColumn_exact n col m : length (Cells col) = n -> well_formed_mask n m ->
  filterColumn col m = Ok (keep_column (Cells m) col).
Proof using K.
  intros Hn Hm. unfold filterColumn. destruct (is_dictionary _) eqn:Ed; [|by apply (FilterArray_exact K n)].
  destruct (indices_plain K _ Ed) as [Hp Hl]. rewrite (FilterArray_exact K n) by (done || congruence).
  by rewrite (dictionary_selects K).
Qed.

Lemma filter_batch_exact batch m : well_formed_batch batch -> well_formed_mask (rows batch) m ->
  filter_batch batch m = Ok (keep_rows (Cells m) batch).
Proof using K.
  intros Hb Hm. unfold filter_batch. destruct (batchHasDictionary batch) eqn:Ed; [|by apply (FilterRecordBatch_exact K)].
  unfold filterRecordBatchDictAware.
  rewrite (map_result_ok _ (fun fa => keep_column (Cells m) (snd fa))).
  2:{ intros fa Hfa. eapply filterColumn_exact, Hm. by apply (proj1 (Forall_forall _ _) Hb). }
  f_equal. unfold keep_rows. f_equal.
  - clear. induction (Columns batch) as [|fa l IH]; cbn; [done|]. by rewrite IH.
  - destruct (Columns batch) as [|fa l] eqn:Ec; [unfold batchHasDictionary in Ed; by rewrite Ec in Ed|].
    cbn. unfold Len. cbn. rewrite select_count; [done|]. destruct Hm as (_ & -> & _).
    unfold well_formed_batch in Hb. rewrite Ec in Hb. by apply Forall_cons in Hb as [-> _].
Qed.

(** The reference: the rows that pass every predicate, unless a required
    predicate cannot be evaluated. *)
Definition filtered (pf : PushdownFilters) (batch : RecordBatch) : result string RecordBatch :=
  match head (omap (refusal batch) (v2Predicates pf)) with
  | Some e => Err e
  | None => Ok (keep_rows (passing (v2Predicates pf) batch) batch)
  end.

Lemma apply_filtered pf batch : well_formed_batch batch -> Apply pf batch = filtered pf batch.
Proof using E K.
  intros Hb. destruct (all_true_wf (rows batch)) as [Hw Ht].
  assert (He : Evaluate pf batch = evaluate_loop batch (makeBoolArray true (rows batch)) (v2Predicates pf))
    by (unfold Evaluate, evaluateV2; by destruct (v2Predicates pf)).
  unfold Apply, filtered. rewrite He. assert (H := evaluate_loop_exact batch (v2Predicates pf) _ Hw).
  destruct (head _) as [e|]; [by rewrite H|]. destruct H as (m & -> & Hm & Hc).
  rewrite filter_batch_exact by done. f_equal. apply keep_rows_passing; [done..|].
  intros i Hi. rewrite Hc. by rewrite Ht.
Qed.
End apply.

(** ** The filters of a scan on its batches *)

Section scan.
Context (format_g : float64 -> string) (evaluator : option (RecordBatch -> string -> result string Array)).
Context (and_kleene FilterArray : Array -> Array -> result string Array).
Context (FilterRecordBatch : RecordBatch -> Array -> result string RecordBatch).
Context (Indices Dictionary : Array -> Array) (NewDictionaryArray : DataType -> Array -> Array -> Array).
Abbreviation mask_of := (predicate_mask format_g evaluator).
Abbreviation apply_filters := (Apply format_g evaluator and_kleene FilterArray FilterRecordBatch Indices Dictionary NewDictionaryArray).

(** A predicate that is not skipped holds in a row. *)
Definition holds (batch : RecordBatch) (i : nat) (p : v2Predicate) : Prop :=
  exists m, mask_of batch p = Ok m /\ Cells m !! i = Some (CBool true).
(** The rows [kept] says are kept. *)
Definition kept_rows (kept : nat -> bool) (batch : RecordBatch) : RecordBatch :=
  keep_rows (map (fun i => CBool (kept i)) (seq 0 (rows batch))) batch.

Lemma row_passes_holds batch i p : evaluator_masks evaluator ->
  row_passes format_g evaluator batch i p = true ->
  is_runtime (Expr p) = true \/ holds batch i p \/ exists e, mask_of batch p = Err e.
Proof.
  intros HE. unfold row_passes, holds. destruct (is_runtime _); [by left|]. cbn [orb].
  destruct (mask_of batch p) as [m|e] eqn:Em; [|by right; right; exists e]. intros Hc. right. left.
  exists m. split; [done|]. apply predicate_mask_wf in Em as (_ & _ & Hw); [|done].
  unfold cell_true in Hc. destruct (Cells m !! i) as [c|] eqn:Ec; [|done].
  rewrite forallb_forall in Hw. apply list_elem_of_lookup_2, list_elem_of_In, Hw in Ec.
  by destruct c as [|[]| | | | | |].
Qed.

Lemma refusal_required batch p e : refusal format_g evaluator batch p = Some e ->
  is_runtime (Expr p) = false /\ Mode p <> "advisory" /\ mask_of batch p = Err e.
Proof.
  unfold refusal. destruct (is_runtime _); [done|]. cbn [orb]. destruct (bool_decide _) eqn:Em; [done|].
  destruct (mask_of batch p); [done|]. intros [= ->]. by bool_hyps.
Qed.

Lemma head_omap {A B} (f : A -> option B) l y : head (omap f l) = Some y -> exists x, x ∈ l /\ f x = Some y.
Proof.
  induction l as [|x l IH]; cbn [omap list_omap]; [done|]. destruct (f x) as [z|] eqn:Ef.
  - intros [= <-]. exists x. split; [apply list_elem_of_here|done].
  - intros H. destruct (IH H) as (w & ? & ?). exists w. split; [by apply list_elem_of_further|done].
Qed.
Lemma head_omap_none {A B} (f : A -> option B) l x : head (omap f l) = None -> x ∈ l -> f x = None.
Proof.
  induction l as [|z l IH]; cbn [omap list_omap]; intros H Hx; [by apply not_elem_of_nil in Hx|].
  destruct (f z) as [y|] eqn:Ef; [done|]. apply elem_of_cons in Hx as [->|Hx]; auto.
Qed.

(** The required predicates of a scan state, found in the snapshot. *)
Lemma scan_required pf0 pf p : scan_state pf0 pf -> p ∈ v2Predicates pf ->
  Mode p <> "advisory" -> Mode p = "required" /\ p ∈ required_of pf0 (v2Predicates pf0).
Proof.
  intros (_ & _ & _ & _ & Hr & Hp) Hin Hm. destruct (Hp p Hin) as [(b & ks & d & Hv) Hreq].
  destruct Hv as (_ & _ & [Ha|[Ha _]] & _); [done|]. split; [done|].
  rewrite <- Hr. apply list_elem_of_filter. split; [by apply Hreq|done].
Qed.
Lemma required_evaluated pf0 pf p : scan_state pf0 pf -> p ∈ required_of pf0 (v2Predicates pf0) ->
  p ∈ v2Predicates pf /\ Mode p = "required" /\ is_runtime (Expr p) = false.
Proof.
  intros (_ & _ & _ & _ & Hr & Hp) Hin. rewrite <- Hr in Hin. apply list_elem_of_filter in Hin as [Hid Hin].
  destruct (Hp p Hin) as [(b & ks & d & Hv) Hreq]. assert (Hm := proj2 Hreq Hid). split; [done|]. split; [done|].
  destruct Hv as (_ & _ & _ & _ & _ & [[Hw _]|(e & ref & _ & _ & Ha)]); [|congruence].
  destruct (Expr p); try done; inversion Hw.
Qed.

(** C5: whatever deltas a scan has received, applying its filters to a batch
    either fails because a required predicate of the snapshot cannot be
    evaluated on it, or keeps, in order, exactly the rows in which every
    required predicate of the snapshot is true and no advisory predicate that
    can be evaluated is false or NULL; in particular no delta makes a row
    appear that the snapshot's required predicates exclude. *)
Theorem scan_keeps_required batch keys jb sp schema pf0 l pf (b : RecordBatch) :
  kernels and_kleene FilterArray FilterRecordBatch Indices Dictionary NewDictionaryArray ->
  evaluator_masks evaluator -> well_formed_batch b ->
  deserializeFiltersV2 batch keys jb sp schema = Ok pf0 -> apply_all pf0 l = Ok pf ->
  (exists p e, p ∈ required_of pf0 (v2Predicates pf0) /\ mask_of b p = Err e /\ apply_filters pf b = Err e) \/
  (exists kept, apply_filters pf b = Ok (kept_rows kept b) /\
     forall i, i < rows b ->
       (kept i = true <->
        (forall p, p ∈ required_of pf0 (v2Predicates pf0) -> holds b i p) /\
        (forall p, p ∈ v2Predicates pf -> Mode p = "advisory" -> is_runtime (Expr p) = false ->
           is_ok (mask_of b p) = true -> holds b i p))).
Proof.
  intros K E Hb E0 El.
  assert (Hs := apply_all_scan _ _ _ _ _ _ _ _ E0 El).
  rewrite (apply_filtered _ _ _ _ _ _ _ _ K E) by done. unfold filtered.
  destruct (head _) as [e|] eqn:Eh.
  - apply head_omap in Eh as (p & Hp & (Hr & Hm & Hmask)%refusal_required). left. exists p, e.
    split; [by apply (scan_required pf0 pf)|done].
  - right. exists (fun i => forallb (row_passes format_g evaluator b i) (v2Predicates pf)). split; [done|].
    intros i Hi. rewrite forallb_forall. split.
    + intros H. split.
      * intros p Hp. destruct (required_evaluated _ _ _ Hs Hp) as (Hin & Hm & Hr).
        assert (Hn := head_omap_none _ _ _ Eh Hin).
        destruct (row_passes_holds b i p E) as [?|[?|[e He]]]; [by apply H, list_elem_of_In|congruence|done|].
        unfold refusal in Hn. rewrite Hr, He in Hn. cbn in Hn. rewrite bool_decide_false in Hn by (by rewrite Hm). done.
      * intros p Hin Hm Hr Hok.
        destruct (row_passes_holds b i p E) as [?|[?|[e He]]]; [by apply H, list_elem_of_In|congruence|done|].
        by rewrite He in Hok.
    + intros [Hq Ha] p Hin%list_elem_of_In. unfold row_passes. destruct (is_runtime (Expr p)) eqn:Er; [done|]. cbn [orb].
      assert (Hp : is_ok (mask_of b p) = true -> holds b i p).
      { intros Hok. destruct (decide (Mode p = "advisory")) as [Hm|Hm]; [by apply Ha|].
        apply Hq. by apply (scan_required pf0 pf). }
      destruct (mask_of b p) as [m|e] eqn:Em; [|done]. destruct (Hp eq_refl) as (m' & Hm' & Hc).
      rewrite Em in Hm'. injection Hm' as <-. unfold cell_true. by rewrite Hc.
Qed.
End scan.

(** ** An example scan *)

Module EvalExample.

(** Kernels as Arrow documents them; a dictionary's indices are positions. *)
Definition and_kleene (a b : Array) : result string Array :=
  if bool_decide (length (Cells a) = length (Cells b))
  then Ok {| ArrType := BOOL; Cells := zip_with kleene_and (Cells a) (Cells b) |} else Err "lengths differ".
Definition FilterArray (a m : Array) : result string Array :=
  if bool_decide (length (Cells a) = length (Cells m)) && negb (is_dictionary (ArrType a))
  then Ok (keep_column (Cells m) a) else Err "array_take: dictionary".
Definition FilterRecordBatch (b : RecordBatch) (m : Array) : result string RecordBatch :=
  if batchHasDictionary b then Err "array_take: dictionary" else Ok (keep_rows (Cells m) b).
Definition Indices (d : Array) : Array :=
  {| ArrType := INT8; Cells := map (fun i => CInt (Z.of_nat i)) (seq 0 (length (Cells d))) |}.
Definition at_position (dictionary : Array) (c : cell) : cell :=
  match c with CInt z => default CNull (Cells dictionary !! Z.to_nat z) | _ => CNull end.
Definition NewDictionaryArray (t : DataType) (indices dictionary : Array) : Array :=
  {| ArrType := t; Cells := map (at_position dictionary) (Cells indices) |}.

Lemma select_map {A B} (f : A -> B) m l : select m (map f l) = map f (select m l).
Proof. revert l. induction m as [|c m IH]; intros [|x l]; cbn; try done. case_match; cbn; by rewrite IH. Qed.
Lemma positions l : map (at_position {| ArrType := INT8; Cells := l |}) (map (fun i => CInt (Z.of_nat i)) (seq 0 (length l))) = l.
Proof.
  apply list_eq. intros i. rewrite list_lookup_fmap, list_lookup_fmap.
  destruct (decide (i < length l)) as [Hi|Hi].
  - rewrite lookup_seq_lt by done. cbn. rewrite Nat2Z.id. apply lookup_lt_is_Some in Hi as [c ->]. done.
  - rewrite lookup_seq_ge by lia. by rewrite lookup_ge_None_2 by lia.
Qed.

Lemma documented : kernels and_kleene FilterArray FilterRecordBatch Indices (fun d => d) NewDictionaryArray.
Proof.
  split.
  - intros n a b (_ & Ha & _) (_ & Hb & _). unfold and_kleene. by rewrite bool_decide_true by congruence.
  - intros n a m Hd (_ & Hm & _) Ha. unfold FilterArray. by rewrite bool_decide_true, Hd by congruence.
  - intros b m Hd _. unfold FilterRecordBatch. by rewrite Hd.
  - intros d _. split; [done|]. unfold Indices. cbn. by rewrite length_map, length_seq.
  - intros d mask _. unfold NewDictionaryArray, keep_column, Indices. cbn. rewrite <- select_map.
    f_equal. f_equal. apply (positions (Cells d)).
Qed.

(** An evaluator that knows the comparisons of the example. *)
Definition compared (rel : Z -> bool) (batch : RecordBatch) : Array :=
  {| ArrType := BOOL;
     Cells := map (fun i => match columns_named batch "n" with
                            | (_, a) :: _ => match Cells a !! i with Some (CInt z) => CBool (rel z) | _ => CNull end
                            | [] => CNull
                            end) (seq 0 (rows batch)) |}.
Definition column_n : string := quoted_name "n".
Definition evaluator (batch : RecordBatch) (text : string) : result string Array :=
  if bool_decide (text = "(" +:+ column_n +:+ " > 2)") then Ok (compared (fun z => (2 <? z)%Z) batch)
  else if bool_decide (text = "(" +:+ column_n +:+ " < 90)") then Ok (compared (fun z => (z <? 90)%Z) batch)
  else Err "no such expression".

Lemma evaluator_promise : evaluator_masks (Some evaluator).
Proof.
  intros e batch text m [= <-]. unfold evaluator.
  assert (forall rel, well_formed_mask (rows batch) (compared rel batch)) as Hw.
  { intros rel. split; [done|]. split; [cbn; by rewrite length_map, length_seq|]. cbn.
    apply forallb_forall. intros c (i & <- & _)%in_map_iff. by repeat case_match. }
  repeat case_match; intros [= <-]; apply Hw.
Qed.

(** Four rows, and a column of dictionary type beside [n]. *)
Definition tag_type : DataType := DICTIONARY INT8 STRING false.
Definition scanned : RecordBatch :=
  {| SchemaMetadata := [];
     Columns := [({| FieldName := "tag"; FieldType := tag_type; Nullable := true; Metadata := [] |},
                  {| ArrType := tag_type; Cells := [CStr "a"; CStr "b"; CStr "a"; CNull] |});
                 ({| FieldName := "n"; FieldType := INT64; Nullable := true; Metadata := [] |},
                  {| ArrType := INT64; Cells := [CInt 1; CInt 3; CInt 95; CNull] |})];
     NumRows := 4 |}.
Definition deltas : list (RecordBatch * gmap string Array) :=
  [(Example.delta [Example.upsert "t" "1" (Example.comparison "lt")] 90, ∅)].
Definition current : PushdownFilters := from_ok Witness.pf0 (apply_all Witness.pf0 deltas).
Definition no_float (f : float64) : string := "0".
Definition survivors : result string RecordBatch :=
  Apply no_float (Some evaluator) and_kleene FilterArray FilterRecordBatch Indices (fun d => d) NewDictionaryArray current scanned.

Lemma scan_keeps_required_witness :
  match survivors with Ok b => map (fun fa => Cells (snd fa)) (Columns b) | Err _ => [] end = [[CStr "b"]; [CInt 3]] /\
  exists kept, survivors = Ok (kept_rows kept scanned) /\
    forall i, i < 4 -> (kept i = true <->
      (forall p, p ∈ required_of Witness.pf0 (v2Predicates Witness.pf0) -> holds no_float (Some evaluator) scanned i p) /\
      (forall p, p ∈ v2Predicates current -> Mode p = "advisory" -> is_runtime (Expr p) = false ->
         is_ok (predicate_mask no_float (Some evaluator) scanned p) = true -> holds no_float (Some evaluator) scanned i p)).
Proof.
  split; [vm_compute; reflexivity|].
  destruct (scan_keeps_required no_float (Some evaluator) and_kleene FilterArray FilterRecordBatch Indices (fun d => d)
              NewDictionaryArray Example.snapshot ∅ [] false (Some Example.schema) Witness.pf0 deltas current scanned)
    as [(p & e & _ & _ & He)|H].
  - apply documented.
  - apply evaluator_promise.
  - repeat constructor.
  - apply from_ok_ok. vm_compute. reflexivity.
  - apply from_ok_ok. vm_compute. reflexivity.
  - exfalso. revert He. vm_compute. discriminate.
  - exact H.
Defined.

(** A negative operand of a subtraction starts a comment in SQL. *)
Example negative_operand_is_comment :
  sql no_float scanned (Comparison "gt" (Arithmetic "subtract" (ColumnRef 1 "n" (Some INT64))
      (Literal 0 {| ArrType := INT64; Cells := [CInt (-5)] |} (no_field INT64)))
    (Literal 1 {| ArrType := INT64; Cells := [CInt 2] |} (no_field INT64)))
  = Ok ("((" +:+ column_n +:+ "--5) > 2)").
Proof. vm_compute. reflexivity. Qed.

(** Two bytes of a BLOB under one escape. *)
Example blob_literal :
  renderArrayValueField no_float BINARY (CBin [x01; x41]) (no_field BINARY) = Ok "'\x0141'::BLOB".
Proof. vm_compute. reflexivity. Qed.
End EvalExample.
