(* ===== verification/Emit.v ===== *)
(** * Emit: what a function sends with a batch (vgi/batch_emit.go,
    vgi/cache_control.go, vgi/continuation.go)

    A function emits a batch with annotations: a batch index, the input row of
    every output row, cache control, and whether more output follows. In a
    table-in-out exchange a tracker follows the one reply of a turn: whether it
    said more, and whether its rows were filtered together with their parent
    rows. The collector that holds the reply belongs to the RPC library. *)

From S2P Require Import Prelude Bytes Base64 Strings Strconv ArrowTypes ArrowData Arguments FilterV2 FilterDelta FilterEval.

Abbreviation metadata := (gmap string string).

Definition metaBatchIndex : string := "vgi_batch_index".
Definition metaPartitionValues : string := "vgi_partition_values#b64".
Definition metaParentRow : string := "vgi_rpc.parent_row#b64".
Definition statusKey : string := "vgi.status".
Definition statusHaveMoreOutput : string := "HAVE_MORE_OUTPUT".
Definition statusContinue : string := "CONTINUE".

(** ** Cache control *)

Definition CacheTTLKey : string := "vgi.cache.ttl".
Definition CacheExpiresKey : string := "vgi.cache.expires".
Definition CacheNoStoreKey : string := "vgi.cache.no_store".
Definition CacheScopeKey : string := "vgi.cache.scope".
Definition CacheETagKey : string := "vgi.cache.etag".
Definition CacheLastModifiedKey : string := "vgi.cache.last_modified".
Definition CacheRevalidatableKey : string := "vgi.cache.revalidatable".
Definition CacheStaleWhileRevalidateKey : string := "vgi.cache.stale_while_revalidate".
Definition CacheStaleIfErrorKey : string := "vgi.cache.stale_if_error".
Definition CacheNotModifiedKey : string := "vgi.cache.not_modified".
Definition CacheIfNoneMatchKey : string := "vgi.cache.if_none_match".
Definition CacheIfModifiedSinceKey : string := "vgi.cache.if_modified_since".
Definition CachePartitionScopeKey : string := "vgi.cache.partition_scope".
Definition CachePerValueKey : string := "vgi.cache.per_value".
Definition CacheScopeCatalog : string := "catalog".
Definition CacheScopeTransaction : string := "transaction".

Record CacheControl := {
  Ttl : option Z;
  Expires : string;
  Scope : string;
  NoStore : bool;
  ETag : string;
  LastModified : string;
  Revalidatable : bool;
  StaleWhileRevalidate : option Z;
  StaleIfError : option Z;
  NotModified : bool;
  PartitionScope : bool;
  PerValue : bool
}.

(** The durations, in the order in which [range] visits their map. *)
Definition durations (c : CacheControl) : list (string * option Z) :=
  [("Ttl", Ttl c); ("StaleWhileRevalidate", StaleWhileRevalidate c); ("StaleIfError", StaleIfError c)].
Definition negative (d : string * option Z) : bool := match snd d with Some n => (n <? 0)%Z | None => false end.
Definition Validate (range : list (string * option Z) -> list (string * option Z)) (c : CacheControl) : result string () :=
  check! bool_decide (Scope c ∈ [""; CacheScopeCatalog; CacheScopeTransaction]) else "CacheControl.Scope" in
  match List.find negative (range (durations c)) with
  | Some (name, _) => Err ("CacheControl." +:+ name +:+ " must be >= 0")
  | None => Ok ()
  end.

Definition when_set (key : string) (o : option Z) : list (string * string) :=
  match o with Some n => [(key, Itoa n)] | None => [] end.
Definition when_text (key s : string) : list (string * string) := if bool_decide (s = "") then [] else [(key, s)].
Definition when_true (key : string) (b : bool) : list (string * string) := if b then [(key, "1")] else [].
Definition CacheMetadata (c : CacheControl) : metadata :=
  list_to_map
    (when_set CacheTTLKey (Ttl c) ++ when_text CacheExpiresKey (Expires c) ++ when_true CacheNoStoreKey (NoStore c) ++
     [(CacheScopeKey, if bool_decide (Scope c = "") then CacheScopeCatalog else Scope c)] ++
     when_text CacheETagKey (ETag c) ++ when_text CacheLastModifiedKey (LastModified c) ++
     when_true CacheRevalidatableKey (Revalidatable c) ++
     when_set CacheStaleWhileRevalidateKey (StaleWhileRevalidate c) ++ when_set CacheStaleIfErrorKey (StaleIfError c) ++
     when_true CacheNotModifiedKey (NotModified c) ++ when_true CachePartitionScopeKey (PartitionScope c) ++
     when_true CachePerValueKey (PerValue c)).

Definition has_key_prefix (p k : string) : bool := has_prefix (sb k) (sb p).
Definition hasCacheControlKeys (md : metadata) : bool :=
  existsb (fun kv => has_key_prefix "vgi.cache." (fst kv)) (map_to_list md).

(** ** Options *)

(** An option changes the metadata of the batch, or refuses. *)
Definition EmitOption : Type := metadata -> result string metadata.
Definition WithCacheControl (range : list (string * option Z) -> list (string * option Z)) (cc : option CacheControl) : EmitOption :=
  fun md => match cc with
            | None => Ok md
            | Some c => let? _ := Validate range c in Ok (CacheMetadata c ∪ md)
            end.
Definition WithMetadata (key value : string) : EmitOption := fun md => Ok (<[key := value]> md).
Definition WithMoreOutput (more : bool) : EmitOption :=
  fun md => Ok (if more then <[statusKey := statusHaveMoreOutput]> md else md).

(** The options in order, a nil one being skipped. *)
Fixpoint fold_options (md : metadata) (opts : list (option EmitOption)) : result string metadata :=
  match opts with
  | [] => Ok md
  | None :: opts => fold_options md opts
  | Some opt :: opts => let? md := opt md in fold_options md opts
  end.
Definition applyEmitOptions (base : metadata) (opts : list (option EmitOption)) : result string (option metadata) :=
  let? md := fold_options base opts in Ok (if bool_decide (md = ∅) then None else Some md).

(** ** Turns *)

Record replyTracker := {
  name : string;
  resumable : bool;
  continuation : bool;
  more : bool;
  filters : option PushdownFilters;
  prefiltered : bool
}.
Definition with_prefiltered (b : bool) (t : replyTracker) : replyTracker :=
  {| name := name t; resumable := resumable t; continuation := continuation t; more := more t;
     filters := filters t; prefiltered := b |}.
Definition with_more (b : bool) (t : replyTracker) : replyTracker :=
  {| name := name t; resumable := resumable t; continuation := continuation t; more := b;
     filters := filters t; prefiltered := prefiltered t |}.

(** What reflection finds in a collector: a field of another kind than the one
    looked for is [None]. *)
Record annotated := { meta : option (option (option (list string) * option (list string))) }.
Record layout := { dataBatchIdx : option Z; batches : option (list (option annotated)) }.

(** The value beside the first occurrence of a key. *)
Fixpoint value_beside (key : string) (keys vals : list string) : option string :=
  match keys, vals with
  | k :: keys, v :: vals => if bool_decide (k = key) then Some v else value_beside key keys vals
  | _, _ => None
  end.
(** The status of the reply, [None] when the layout is not the one read here. *)
Definition emittedStatus (l : layout) : option string :=
  match dataBatchIdx l, batches l with
  | Some i, Some bs =>
      match (if (i <? 0)%Z then None else bs !! Z.to_nat i) with
      | None => Some ""
      | Some None => None
      | Some (Some ab) =>
          match meta ab with
          | None => None
          | Some None => Some ""
          | Some (Some (Some keys, Some vals)) =>
              if (length keys =? length vals)%nat then Some (default "" (value_beside statusKey keys vals)) else None
          | Some (Some _) => None
          end
      end
  | _, _ => None
  end.

Section emit.
(** The collector: [Emit] and [EmitWithMetadata] pass the batch through the
    interceptor and keep the result; [look] is what reflection sees. *)
Context {C : Type} (look : C -> layout).
Context (put : (RecordBatch -> result fault RecordBatch) -> C -> RecordBatch -> option metadata -> result fault () * C).
(** The filters: evaluation and the Arrow kernels. *)
Context (Evaluate : PushdownFilters -> RecordBatch -> result string Array).
Context (filter_batch : RecordBatch -> Array -> result string RecordBatch).

(** The collector of a turn and its tracker, if it has one. *)
Record turn := { out : C; tracker : option replyTracker }.
(** The interceptor of a stream reads the tracker when a batch is emitted. *)
Definition interceptor : Type := option replyTracker -> RecordBatch -> result fault RecordBatch.

Definition says_more (md : option metadata) : bool :=
  bool_decide ((md ≫= (fun md => md !! statusKey)) = Some statusHaveMoreOutput).
(** The rules of continued output. *)
Definition refused (t : option replyTracker) (md : option metadata) : option string :=
  match t with
  | None => if says_more md then Some "vgi.WithMoreOutput is only valid in a table-in-out function's Process or Resume" else None
  | Some t =>
      if says_more md && negb (resumable t) then Some (name t +:+ ": emitted WithMoreOutput(true) but does not implement Resume")
      else if continuation t && hasCacheControlKeys (default ∅ md)
      then Some (name t +:+ ": cache control is only valid on an input's first reply")
      else None
  end.
Definition recorded (ok : bool) (md : option metadata) (t : replyTracker) : replyTracker :=
  let t := with_prefiltered false t in if ok then with_more (says_more md) t else t.
Definition emitAnnotated (icept : interceptor) (batch : RecordBatch) (md : option metadata) (t : turn) : result fault () * turn :=
  match refused (tracker t) md with
  | Some e => (Err (Failed e), t)
  | None =>
      let (r, c) := put (icept (tracker t)) (out t) batch md in
      (r, {| out := c; tracker := recorded (is_ok r) md <$> tracker t |})
  end.

(** [Emit], [EmitBatchIndex] and the end of the other helpers: the metadata a
    helper starts from, then the caller's options. *)
Definition emit_with (icept : interceptor) (base : metadata) (batch : RecordBatch) (opts : list (option EmitOption)) (t : turn) : result fault () * turn :=
  match applyEmitOptions base opts with
  | Err e => (Err (Failed e), t)
  | Ok md => emitAnnotated icept batch md t
  end.
Definition batch_index (i : Z) : metadata := {[metaBatchIndex := Itoa i]}.

(** *** Parent rows *)

(** [uint32(v)] of an int32. *)
Definition u32 (z : Z) : Z := (z mod 2 ^ 32)%Z.
Definition pack (parentRows : list Z) : bytes := flat_map (fun v => le_enc 4 (u32 v)) parentRows.
Definition parent_rows (parentRows : list Z) : metadata := {[metaParentRow := StdEncodeToString (pack parentRows)]}.

Definition filterParentRows (fs : PushdownFilters) (batch : RecordBatch) (parentRows : list Z) : result string (RecordBatch * list Z) :=
  let? mask := Evaluate fs batch in
  check! bool_decide (ArrType mask = BOOL) else "filter mask is not boolean" in
  let? filtered := filter_batch batch mask in
  Ok (filtered, select (Cells mask) parentRows).

(** The filtering of a turn that applies filters to a batch that has rows. *)
Definition prefilter (batch : RecordBatch) (parentRows : list Z) (t : turn) : result string (RecordBatch * list Z * turn) :=
  match tracker t with
  | Some tr =>
      match filters tr with
      | Some fs =>
          if (0 <? NumRows batch)%Z then
            let? (b, ps) := filterParentRows fs batch parentRows in
            Ok (b, ps, {| out := out t; tracker := Some (with_prefiltered true tr) |})
          else Ok (batch, parentRows, t)
      | None => Ok (batch, parentRows, t)
      end
  | None => Ok (batch, parentRows, t)
  end.
Definition EmitParentRows (icept : interceptor) (batch : RecordBatch) (parentRows : list Z) (opts : list (option EmitOption)) (t : turn) : result fault () * turn :=
  if negb (Z.of_nat (length parentRows) =? NumRows batch)%Z then (Err (Failed "EmitParentRows length"), t) else
  match prefilter batch parentRows t with
  | Err e => (Err (Failed e), t)
  | Ok (batch, parentRows, t) =>
      emit_with icept (if (NumRows batch =? 0)%Z then ∅ else parent_rows parentRows) batch opts t
  end.

(** *** What a function does in a turn

    A turn of a function: it emits, looks at the error, and goes on; [St] is
    its state. A batch emitted on the collector itself passes no check. *)
Inductive body (St : Type) : Type :=
| Return (s : St) (r : result fault ())
| EmitWith (base : metadata) (batch : RecordBatch) (opts : list (option EmitOption)) (k : result string () -> body St)
| EmitParents (batch : RecordBatch) (parentRows : list Z) (opts : list (option EmitOption)) (k : result string () -> body St)
| EmitRaw (batch : RecordBatch) (md : option metadata) (k : result string () -> body St).
Arguments Return {St} s r.
Arguments EmitWith {St} base batch opts k.
Arguments EmitParents {St} batch parentRows opts k.
Arguments EmitRaw {St} batch md k.

Definition emit_raw (icept : interceptor) (batch : RecordBatch) (md : option metadata) (t : turn) : result fault () * turn :=
  let (r, c) := put (icept (tracker t)) (out t) batch md in (r, {| out := c; tracker := tracker t |}).

(** An error is the function's to handle; a panic ends its turn with the state
    it had ([s0]). *)
Fixpoint run {St} (icept : interceptor) (s0 : St) (p : body St) (t : turn) : St * result fault () * turn :=
  let resume k (rt : result fault () * turn) :=
    match fst rt with
    | Ok _ => run icept s0 (k (Ok ())) (snd rt)
    | Err (Failed e) => run icept s0 (k (Err e)) (snd rt)
    | Err (Panicked w) => (s0, Err (Panicked w), snd rt)
    end in
  match p with
  | Return s r => (s, r, t)
  | EmitWith base batch opts k => resume k (emit_with icept base batch opts t)
  | EmitParents batch parentRows opts k => resume k (EmitParentRows icept batch parentRows opts t)
  | EmitRaw batch md k => resume k (emit_raw icept batch md t)
  end.

(** A reply that says more on the wire though no helper recorded it. *)
Definition checkReplyStatus (c : C) (t : replyTracker) : result string () :=
  match emittedStatus (look c) with
  | Some status =>
      check! negb (bool_decide (status = statusHaveMoreOutput)) || more t
        else name t +:+ ": emitted vgi.status: HAVE_MORE_OUTPUT directly with out.EmitWithMetadata" in Ok ()
  | None => Ok ()
  end.
End emit.
Arguments Return {St} s r.
Arguments EmitWith {St} base batch opts k.
Arguments EmitParents {St} batch parentRows opts k.
Arguments EmitRaw {St} batch md k.
