(* ===== verification/Init.v ===== *)
(** * Init: opening a stream (vgi/protocol.go, vgi/rehydrate.go, vgi/init.go,
    vgi/process.go, vgi/init_recipe.go, vgi/table_buffering_rpc.go)

    An init request carries the bind request again, the schema bind answered
    and what the optimizer pushes down. [handleInit] resolves the function,
    opens split tokens before any of its code runs, and starts a stream of the
    function's kind with a recipe. Over HTTP the recipe travels in the state
    token, and [rebuildProcessParams] makes the parameters of every later turn
    from it. *)

From S2P Require Import CatalogContents CatalogRoute Envelope SplitToken Overload Storage ExecutionStorage.
From S2P Require Import Prelude Bytes Strings Unicode ArrowTypes ArrowData Arguments ArgConstraints BindResult Bind.
From S2P Require Import FilterV2 FilterDelta FilterEval.

(** ** Requests *)

Record OrderByHint := { HintColumn : string; HintDirection : string; HintNullOrder : string; HintRowLimit : Z }.
Record TableSampleHint := { Percentage : float64; Seed : Z }.

Record InitRequestWire := {
  BindCall : Bind.BindRequestWire;
  RequestOutputSchema : bytes;
  RequestBindOpaqueData : option bytes;
  RequestProjectionIDs : option (list Z);
  RequestPushdownFilters : option bytes;
  RequestJoinKeys : option (list bytes);
  RequestSplitTokens : option (list bytes);
  RequestRowLimit : option Z;
  RequestPhase : option string;
  RequestFinalizeStateID : option bytes;
  RequestExecutionID : option bytes;
  RequestInitOpaqueData : option bytes;
  RequestSubstreamID : option bytes;
  OrderByColumnName : option string;
  OrderByDirection : option string;
  OrderByNullOrder : option string;
  OrderByLimit : option Z;
  TablesamplePercentage : option float64;
  TablesampleSeed : option Z
}.

(** The parameters of a call that its stream never changes. *)
Record CallParams := {
  callName : string;
  callType : string;
  callArgs : Arguments;
  callOutputSchema : Schema;
  BindOutputSchema : Schema;
  callBindOpaqueData : option bytes;
  callInputSchema : option Schema;
  ProjectionIDs : option (list Z);
  callSettings : list (string * value);
  callSecrets : list (string * value);
  SubstreamID : option bytes;
  AttachScope : option bytes;
  PushdownFiltersBatch : option RecordBatch;
  JoinKeys : gmap string Array;
  JoinKeyBatches : list RecordBatch;
  callAt : option string * option string;
  callCopyFrom : option CopyFromContext;
  callCopyTo : option CopyToContext;
  callOrderByHint : option OrderByHint;
  callTableSampleHint : option TableSampleHint
}.

(** [ProcessParams]: the call, what init adds, and what a turn changes; [B] are
    the storage backends. *)
Record ProcessParams {B : Type} := {
  Call : CallParams;
  ExecutionID : bytes;
  InitOpaqueData : option bytes;
  SplitPayloads : option (list bytes);
  ParamStorage : option (ExecutionStorage (B := B));
  CurrentPushdownFilters : option PushdownFilters;
  ParamAuth : option AuthContext;
  IfNoneMatch : option string;
  IfModifiedSince : option string
}.
Arguments ProcessParams : clear implicits.

(** What [OnInit] and [Redeem] are given. *)
Record InitParams {B : Type} := {
  InitCall : CallParams;
  Phase : string;
  InitExecutionID : option bytes;
  IsSecondary : bool;
  PreviousOpaqueData : option bytes;
  SplitTokens : list bytes;
  OpenedPayloads : option (list bytes);
  RowLimit : Z;
  InitStorage : option (ExecutionStorage (B := B))
}.
Arguments InitParams : clear implicits.

Record GlobalInitResponse := { RespExecutionID : option bytes; MaxWorkers : Z; RespOpaqueData : option bytes }.

Record InitRecipe := {
  RecipeCall : Bind.BindRequestWire;
  OutputSchemaIPC : bytes;
  RecipeName : string;
  RecipeType : string;
  RecipeProjectionIDs : option (list Z);
  RecipeExecutionID : bytes;
  RecipeBindOpaqueData : option bytes;
  RecipeInitOpaqueData : option bytes;
  PushdownFilterIPC : bytes;
  JoinKeyIPC : list bytes;
  RecipePhase : string;
  RecipeSecondary : bool;
  RecipeSubstreamID : option bytes;
  RecipeShardKey : string;
  ScopesOpened : bool;
  RecipeAttachScope : option bytes;
  TransactionScope : option bytes
}.

Inductive init_fault :=
| InitBind (e : bind_fault)
| InitFailed (message : string)
| InitPanic (what : string)
| InitSplit (e : SplitTokenError)
| InitShard (e : shard_error).

(** ** Schemas *)

(** A Go index into the fields, out of range a panic. *)
Definition field_at (s : Schema) (id : Z) : result init_fault Field :=
  match (if (id <? 0)%Z then None else SchemaFields s !! Z.to_nat id) with
  | Some f => Ok f
  | None => Err (InitPanic "index out of range")
  end.
Definition ProjectSchema (ids : option (list Z)) (s : Schema) : result init_fault Schema :=
  match ids with
  | None => Ok s
  | Some ids =>
      let? fields := map_result (field_at s) ids in
      Ok {| SchemaFields := fields; Bind.SchemaMetadata := []; BigEndian := false |}
  end.

(** [int32(v)] *)
Definition s32 (z : Z) : Z := ((z + 2 ^ 31) mod 2 ^ 32 - 2 ^ 31)%Z.

Definition PhaseFinalize : string := "FINALIZE".
Definition PhaseTableBufferingFinalize : string := "TABLE_BUFFERING_FINALIZE".
Definition bufferingRecipeKey : bytes := x00 :: sb "vgi.buffering.recipe".

(** ** Columns by name *)

(** The columns of a schema taken from a batch by name, the first of a name; a
    column of another type panics when the batch is made. *)
Definition column_by_name (src : RecordBatch) (f : Field) : result fault (Field * Array) :=
  match columns_named src (FieldName f) with
  | [] => Err (Failed "projection: column absent from emitted batch")
  | (_, a) :: _ => check! TypeEqual (ArrType a) (FieldType f) else Panicked "arrow/array: mismatch type column" in Ok (f, a)
  end.
Definition selectColumnsByName (src : RecordBatch) (s : Schema) : result fault RecordBatch :=
  let? cols := map_result (column_by_name src) (SchemaFields s) in
  Ok {| ArrowData.SchemaMetadata := Bind.SchemaMetadata s; Columns := cols; NumRows := NumRows src |}.

Section init.
Context `{Unicode} `{Aead} {W P X B F S : Type}.
(** Arrow IPC and schema equality. *)
Context (read_ipc : bytes -> result string (list ArrowData.Field * option (list column))).
Context (DeserializeRecordBatch : bytes -> result string RecordBatch) (SerializeRecordBatch : RecordBatch -> result string bytes).
Context (DeserializeSchema : bytes -> result string Schema) (has_schema : RecordBatch -> Schema -> bool).
(** The functions of the worker; [Redeem] is there for a split planner, found
    through the adapters that wrap it. *)
Context (shape : F -> option FunctionShape) (ArgumentSpecs : F -> list ArgSpec).
Context (ProjectionPushdown AutoApplyFilters AllowsSpatial : F -> bool).
Context (OnInit : F -> InitParams B -> result string GlobalInitResponse).
Context (Redeem : F -> option (InitParams B -> result string ())).
Context (NewState : F -> ProcessParams B -> result string (option S)).
Context (Finalize : F -> ProcessParams B -> option S -> result string (list RecordBatch)).
Context (BufferFinalize : F -> ProcessParams B -> bytes -> result string (list RecordBatch)).
(** The annotation of a function's cache control, if it declares one. *)
Context (CacheMeta : F -> result string (option (gmap string string))).
(** gob, and the filters' evaluation. *)
Context (gobEncode : option S -> result string bytes) (encodeInitRecipe : InitRecipe -> result string bytes).
Context (Apply : FilterDelta.PushdownFilters -> RecordBatch -> result string RecordBatch).

Record InitWorker := { serving : Bind.Worker (W := W) (P := P) (X := X) (St := B) (F := F); splits : SplitWorker }.

Definition getOrCreateStorage (w : InitWorker) (e : bytes) (shard : string) : result init_fault (ExecutionStorage (B := B)) :=
  match functionStorage (serving w) with
  | None => Err (InitFailed "function storage is unavailable")
  | Some b => Ok (SetShardKey (SetExecutionID (SetBackend NewExecutionStorage b) e) shard)
  end.

(** *** Streams *)

Record TableProducerState := {
  tpRecipe : InitRecipe;
  tpUserStateBytes : bytes;
  AutoProjectIDs : option (list Z);
  tpDeltas : list bytes;
  tpOrder : list string;
  tpFn : F;
  tpParams : ProcessParams B;
  tpState : option S;
  tpAutoApply : option FilterDelta.PushdownFilters
}.
Record TableInOutExchangeState := {
  Recipe : InitRecipe;
  UserStateBytes : bytes;
  FilterDeltaIPC : list bytes;
  FilterPredicateOrder : list string;
  MorePending : bool;
  streamFn : F;
  params : ProcessParams B;
  state : option S;
  autoApply : option FilterDelta.PushdownFilters
}.
Inductive StreamState :=
| ScalarExchangeState (r : InitRecipe) (f : F) (p : ProcessParams B)
| TableProducer (s : TableProducerState)
| TableInOutExchange (s : TableInOutExchangeState)
| FinalizeProducer (r : InitRecipe) (batchIPC : list bytes) (batches : list RecordBatch)
    (storage : option (ExecutionStorage (B := B))) (cacheMeta : option (gmap string string)).
Record StreamResult := { StreamOutputSchema : Schema; StreamState_ : StreamState; StreamInputSchema : option Schema; Header : GlobalInitResponse }.

(** *** What an init request says *)

Definition read_join_keys (entries : list bytes) : result string (list RecordBatch) :=
  map_result (fun data => check! negb (bool_decide (data = [])) else "join-key batch is empty" in DeserializeRecordBatch data) entries.
Definition order_by (req : InitRequestWire) : option OrderByHint :=
  match OrderByColumnName req with
  | None => None
  | Some n => Some {| HintColumn := n; HintDirection := default "" (OrderByDirection req);
                      HintNullOrder := default "" (OrderByNullOrder req); HintRowLimit := default (-1)%Z (OrderByLimit req) |}
  end.
Definition table_sample (req : InitRequestWire) : option TableSampleHint :=
  match TablesamplePercentage req with
  | Some p => if float_le (Finite 0 0) p then Some {| Percentage := p; Seed := default (-1)%Z (TablesampleSeed req) |} else None
  | None => None
  end.

(** The fields of the bind request a split fingerprint reads. *)
Definition split_bind (r : Bind.BindRequestWire) : SplitToken.BindRequestWire :=
  {| SplitToken.FunctionName := Bind.FunctionName r; bindSchemaPath := RequestSchemaPath r;
     Arguments_ := RequestArguments r; SplitToken.Settings := RequestSettings r |}.

(** The schema the function emits against, and the columns kept after it. *)
Definition process_schema (f : F) (ids : option (list Z)) (projected full : Schema) : Schema * option (list Z) :=
  if negb (ProjectionPushdown f) && bool_decide (is_Some ids) then (full, ids) else (projected, None).

(** The parameters of the call, from the request and the parsed bind. *)
Definition init_call (req : InitRequestWire) (p : BindParams B) (args : Arguments) (full out : Schema)
    (filters : option RecordBatch) (keys : list RecordBatch) : CallParams :=
  {| callName := Bind.FunctionName (BindCall req); callType := normalizeFunctionType (Bind.FunctionType (BindCall req));
     callArgs := args; callOutputSchema := out; BindOutputSchema := full; callBindOpaqueData := RequestBindOpaqueData req;
     callInputSchema := InputSchema p; ProjectionIDs := map s32 <$> RequestProjectionIDs req; callSettings := Settings p;
     callSecrets := Secrets p; SubstreamID := RequestSubstreamID req; AttachScope := AttachOpaqueData p;
     PushdownFiltersBatch := filters; JoinKeys := flattenJoinKeyBatches keys; JoinKeyBatches := keys; callAt := At p;
     callCopyFrom := CopyFrom p; callCopyTo := CopyTo p; callOrderByHint := order_by req; callTableSampleHint := table_sample req |}.

Definition new_recipe (req : InitRequestWire) (cc : option CallContext) (p : BindParams B) (shard : string) : InitRecipe :=
  {| RecipeCall := BindCall req; OutputSchemaIPC := RequestOutputSchema req; RecipeName := Bind.FunctionName (BindCall req);
     RecipeType := normalizeFunctionType (Bind.FunctionType (BindCall req)); RecipeProjectionIDs := map s32 <$> RequestProjectionIDs req;
     RecipeExecutionID := default [] (RequestExecutionID req); RecipeBindOpaqueData := RequestBindOpaqueData req;
     RecipeInitOpaqueData := RequestInitOpaqueData req; PushdownFilterIPC := default [] (RequestPushdownFilters req);
     JoinKeyIPC := default [] (RequestJoinKeys req); RecipePhase := default "" (RequestPhase req);
     RecipeSecondary := bool_decide (is_Some (RequestExecutionID req)); RecipeSubstreamID := RequestSubstreamID req; RecipeShardKey := shard;
     ScopesOpened := bool_decide (is_Some cc); RecipeAttachScope := if bool_decide (is_Some cc) then AttachOpaqueData p else None;
     TransactionScope := if bool_decide (is_Some cc) then TransactionOpaqueData p else None |}.
(** The recipe once init knows the execution and the data of the function. *)
Definition executed (e : bytes) (data : option bytes) (r : InitRecipe) : InitRecipe :=
  {| RecipeCall := RecipeCall r; OutputSchemaIPC := OutputSchemaIPC r; RecipeName := RecipeName r; RecipeType := RecipeType r;
     RecipeProjectionIDs := RecipeProjectionIDs r; RecipeExecutionID := e; RecipeBindOpaqueData := RecipeBindOpaqueData r;
     RecipeInitOpaqueData := data; PushdownFilterIPC := PushdownFilterIPC r; JoinKeyIPC := JoinKeyIPC r; RecipePhase := RecipePhase r;
     RecipeSecondary := RecipeSecondary r; RecipeSubstreamID := RecipeSubstreamID r; RecipeShardKey := RecipeShardKey r;
     ScopesOpened := ScopesOpened r; RecipeAttachScope := RecipeAttachScope r; TransactionScope := TransactionScope r |}.

Definition process_params (c : CallParams) (e : bytes) (data : option bytes) (payloads : option (list bytes))
    (st : ExecutionStorage (B := B)) : ProcessParams B :=
  {| Call := c; ExecutionID := e; InitOpaqueData := data; SplitPayloads := payloads;
     ParamStorage := Some (forSubstream st (default [] (SubstreamID c))); CurrentPushdownFilters := None; ParamAuth := None;
     IfNoneMatch := None; IfModifiedSince := None |}.
Definition with_current (pf : option FilterDelta.PushdownFilters) (p : ProcessParams B) : ProcessParams B :=
  {| Call := Call p; ExecutionID := ExecutionID p; InitOpaqueData := InitOpaqueData p; SplitPayloads := SplitPayloads p;
     ParamStorage := ParamStorage p; CurrentPushdownFilters := pf; ParamAuth := ParamAuth p;
     IfNoneMatch := IfNoneMatch p; IfModifiedSince := IfModifiedSince p |}.

(** The filters of the snapshot, decoded for a function. *)
Definition deserializeFiltersForMetadata (f : F) (c : CallParams) (batch : RecordBatch) : result string FilterDelta.PushdownFilters :=
  deserializeFiltersV2 batch (JoinKeys c) (JoinKeyBatches c) (AllowsSpatial f) (Some (SchemaFields (BindOutputSchema c))).
Definition with_snapshot (f : F) (p : ProcessParams B) : result string (ProcessParams B) :=
  match PushdownFiltersBatch (Call p) with
  | None => Ok p
  | Some batch => let? pf := deserializeFiltersForMetadata f (Call p) batch in Ok (with_current (Some pf) p)
  end.
Definition auto_apply (f : F) (p : ProcessParams B) : option FilterDelta.PushdownFilters :=
  if AutoApplyFilters f && bool_decide (is_Some (PushdownFiltersBatch (Call p))) then CurrentPushdownFilters p else None.

(** *** One kind of function at a time *)

Definition failed {A} (r : result string A) : result init_fault A := lift_err InitFailed r.
Definition header_of (e : bytes) (workers : Z) (data : option bytes) : GlobalInitResponse :=
  {| RespExecutionID := Some e; MaxWorkers := workers;
     RespOpaqueData := match data with Some [] => None | d => d end |}.

(** The global init of a table or table-in-out function: user code on the first
    init of an execution only. *)
Definition global_init (f : F) (ip : InitParams B) (e : bytes) (workers : Z) : result init_fault (bytes * Z * option bytes) :=
  if IsSecondary ip then Ok (e, 1%Z, PreviousOpaqueData ip) else
  let? resp := failed (OnInit f ip) in
  Ok (default e (RespExecutionID resp), (if MaxWorkers resp =? 0 then workers else MaxWorkers resp)%Z, RespOpaqueData resp).

Definition initScalar (w : InitWorker) (f : F) (ip : InitParams B) (c : CallParams) (out : Schema) (r : InitRecipe) (fresh : bytes) : result init_fault StreamResult :=
  let e := default fresh (InitExecutionID ip) in
  let bound := callBindOpaqueData c in
  let some := match bound with Some (_ :: _) => bound | _ => None end in
  let? st := getOrCreateStorage w e (RecipeShardKey r) in
  Ok {| StreamOutputSchema := out;
        StreamState_ := ScalarExchangeState (executed e (match some with Some _ => some | None => RecipeInitOpaqueData r end) r) f
                          (process_params c e some None st);
        StreamInputSchema := callInputSchema c; Header := header_of e 1 some |}.

Definition redeem (f : F) (ip : InitParams B) : result init_fault () :=
  match OpenedPayloads ip, Redeem f with
  | Some (_ :: _), Some plan => failed (plan ip)
  | _, _ => Ok ()
  end.
Definition with_storage (e : bytes) (st : ExecutionStorage (B := B)) (ip : InitParams B) : InitParams B :=
  {| InitCall := InitCall ip; Phase := Phase ip; InitExecutionID := Some e; IsSecondary := IsSecondary ip;
     PreviousOpaqueData := PreviousOpaqueData ip; SplitTokens := SplitTokens ip; OpenedPayloads := OpenedPayloads ip;
     RowLimit := RowLimit ip; InitStorage := Some st |}.

Definition initTable (w : InitWorker) (f : F) (ip : InitParams B) (c : CallParams) (out : Schema) (autoProject : option (list Z))
    (r : InitRecipe) (fresh : bytes) : result init_fault StreamResult :=
  let e0 := default fresh (InitExecutionID ip) in
  let? st := getOrCreateStorage w e0 (RecipeShardKey r) in
  let ip := with_storage e0 st ip in
  let? _ := redeem f ip in
  let? (e, workers, data) := global_init f ip e0 4 in
  let? st := getOrCreateStorage w e (RecipeShardKey r) in
  let? p := failed (with_snapshot f (process_params c e data (OpenedPayloads ip) st)) in
  let? user := failed (NewState f p) in
  let? encoded := failed (gobEncode user) in
  Ok {| StreamOutputSchema := out;
        StreamState_ := TableProducer {| tpRecipe := executed e data r; tpUserStateBytes := encoded; AutoProjectIDs := autoProject;
                          tpDeltas := []; tpOrder := []; tpFn := f; tpParams := p; tpState := user; tpAutoApply := auto_apply f p |};
        StreamInputSchema := None; Header := header_of e workers data |}.

(** The batches of a finalize call, filtered and narrowed to the wire schema. *)
Definition of_panic {A} (r : result fault A) : result init_fault A :=
  lift_err (fun e => match e with Failed m => InitFailed m | Panicked m => InitPanic m end) r.
Definition finalize_batch (f : F) (p : ProcessParams B) (out : Schema) (batch : RecordBatch) : result init_fault RecordBatch :=
  let? batch := match CurrentPushdownFilters p with
                | Some pf => if AutoApplyFilters f then failed (Apply pf batch) else Ok batch
                | None => Ok batch
                end in
  if has_schema batch out then Ok batch else of_panic (selectColumnsByName batch out).
Definition finalize_stream (f : F) (p : ProcessParams B) (out : Schema) (batches : list RecordBatch) : result init_fault (list bytes * list RecordBatch) :=
  let? batches := map_result (finalize_batch f p out) batches in
  let? ipc := failed (map_result SerializeRecordBatch batches) in Ok (ipc, batches).

Definition initTableInOut (w : InitWorker) (f : F) (ip : InitParams B) (c : CallParams) (out : Schema) (phase : string)
    (r : InitRecipe) (fresh : bytes) : result init_fault StreamResult :=
  let e0 := default fresh (InitExecutionID ip) in
  let? st := getOrCreateStorage w e0 (RecipeShardKey r) in
  let ip := with_storage e0 st ip in
  let? (e, workers, data) := global_init f ip e0 1 in
  let r := executed e data r in
  let? st := getOrCreateStorage w e (RecipeShardKey r) in
  let? p := failed (with_snapshot f (process_params c e data None st)) in
  let? user := failed (NewState f p) in
  if bool_decide (phase = PhaseFinalize) then
    let? batches := failed (Finalize f p user) in
    let? (ipc, batches) := finalize_stream f p out batches in
    Ok {| StreamOutputSchema := out; StreamState_ := FinalizeProducer r ipc batches (Some st) None;
          StreamInputSchema := None; Header := header_of e workers data |}
  else
    let? encoded := failed (gobEncode user) in
    Ok {| StreamOutputSchema := out;
          StreamState_ := TableInOutExchange {| Recipe := r; UserStateBytes := encoded; FilterDeltaIPC := []; FilterPredicateOrder := [];
                            MorePending := false; streamFn := f; params := p; state := user; autoApply := auto_apply f p |};
          StreamInputSchema := callInputSchema c; Header := header_of e workers data |}.

(** The sink of a buffering function persists its recipe. [log] is the append
    to the execution's state log. *)
Context {World : Type} (log : ExecutionStorage (B := B) -> bytes -> bytes -> World -> result string Z * World).
Definition initTableBuffering (w : InitWorker) (f : F) (ip : InitParams B) (c : CallParams) (out : Schema) (phase : string)
    (r : InitRecipe) (finalizeStateID : option bytes) (fresh : bytes) (world : World) : result init_fault StreamResult * World :=
  let e := default fresh (InitExecutionID ip) in
  let r := executed e (RecipeInitOpaqueData r) r in
  let result out st := {| StreamOutputSchema := out; StreamState_ := st; StreamInputSchema := None; Header := header_of e 1 None |} in
  match getOrCreateStorage w e (RecipeShardKey r) with
  | Err x => (Err x, world)
  | Ok st =>
      match failed (with_snapshot f (process_params c e None None st)) with
      | Err x => (Err x, world)
      | Ok p =>
          if bool_decide (phase = PhaseTableBufferingFinalize) then
            (match finalizeStateID with
             | None => Err (InitFailed "TABLE_BUFFERING_FINALIZE requires finalize_state_id")
             | Some id =>
                 let? batches := failed (BufferFinalize f p id) in
                 let? (ipc, batches) := finalize_stream f p out batches in
                 let? md := failed (CacheMeta f) in
                 Ok (result out (FinalizeProducer r ipc batches None md))
             end, world)
          else
            match encodeInitRecipe r with
            | Err m => (Err (InitFailed m), world)
            | Ok data =>
                let (n, world) := log st bufferingRecipeKey data world in
                (let? _ := failed n in Ok (result out (FinalizeProducer r [] [] None None)), world)
            end
      end
  end.

(** *** The handler *)

(** What init reads before it dispatches on the kind of function. *)
Record Opening := {
  openedFn : F;
  openedInit : InitParams B;
  openedCall : CallParams;
  openedWire : Schema;
  openedAutoProject : option (list Z);
  openedRecipe : InitRecipe
}.

Definition open_splits (w : InitWorker) (cc : option CallContext) (req : InitRequestWire) : result init_fault (option (list bytes)) :=
  match RequestSplitTokens req with
  | Some (t :: ts) =>
      let? payloads := lift_err InitSplit (openSplitTokens (splits w) (t :: ts) (split_bind (BindCall req)) cc) in Ok (Some payloads)
  | _ => Ok None
  end.

Definition open_init (w : InitWorker) (cc : option CallContext) (req : InitRequestWire) : result init_fault Opening :=
  let? full := failed (DeserializeSchema (RequestOutputSchema req)) in
  let? p := lift_err InitBind (parseBindRequest read_ipc DeserializeRecordBatch DeserializeSchema (serving w) (BindCall req) cc) in
  let? f := lift_err (fun e => InitBind (BindUnresolved e))
              (resolveFunction (getArgSpecs shape ArgumentSpecs) (functions (serving w)) (lookupFor (serving w) (BindCall req) p)) in
  let args := RemapPositionalArgs (ParamArgs p) (getArgSpecs shape ArgumentSpecs f) in
  let? filters := failed (optional DeserializeRecordBatch (RequestPushdownFilters req)) in
  let? keys := failed (read_join_keys (default [] (RequestJoinKeys req))) in
  let? payloads := open_splits w cc req in
  let ids := map s32 <$> RequestProjectionIDs req in
  let? projected := ProjectSchema ids full in
  let '(out, autoProject) := process_schema f ids projected full in
  let c := init_call req p args full out filters keys in
  let? shard := lift_err InitShard (shardKeyForAttach (served (serving w)) (default [] (RequestAttach (BindCall req))) cc) in
  Ok {| openedFn := f;
        openedInit := {| InitCall := init_call req p args full full filters keys; Phase := default "" (RequestPhase req); InitExecutionID := RequestExecutionID req;
                         IsSecondary := bool_decide (is_Some (RequestExecutionID req)); PreviousOpaqueData := RequestInitOpaqueData req;
                         SplitTokens := default [] (RequestSplitTokens req); OpenedPayloads := payloads;
                         RowLimit := default 0%Z (RequestRowLimit req); InitStorage := None |};
        openedCall := c; openedWire := projected; openedAutoProject := autoProject; openedRecipe := new_recipe req cc p shard |}.

Definition handleInit (w : InitWorker) (cc : option CallContext) (req : InitRequestWire) (fresh : bytes) (world : World) : result init_fault StreamResult * World :=
  match open_init w cc req with
  | Err e => (Err e, world)
  | Ok o =>
      let f := openedFn o in let ip := openedInit o in let c := openedCall o in let out := openedWire o in let r := openedRecipe o in
      match shape f with
      | Some ScalarFunction => (initScalar w f ip c out r fresh, world)
      | Some TableFunction =>
          (if bool_decide (is_Some (RequestPhase req)) || bool_decide (is_Some (callInputSchema c))
           then Err (InitFailed "function called in the wrong shape")
           else initTable w f ip c out (openedAutoProject o) r fresh, world)
      | Some TableInOutFunction =>
          (match RequestPhase req with
           | None => Err (InitFailed "function called in the wrong shape")
           | Some phase => initTableInOut w f ip c out phase r fresh
           end, world)
      | Some TableBufferingFunction =>
          initTableBuffering w f ip c out (default "" (RequestPhase req)) r (RequestFinalizeStateID req) fresh world
      | None => (Err (InitFailed "unknown function type"), world)
      end
  end.

(** ** The parameters of a later turn *)

Definition coldAttachScope (raw : option bytes) : option bytes :=
  match raw with
  | Some a => if (length a <? attachUUIDLen)%nat then raw else Some (drop attachUUIDLen a)
  | None => None
  end.
(** The call of a rebuilt turn: the hints and the split payloads are not in the
    recipe. *)
Definition rebuilt_call (r : InitRecipe) (p : BindParams B) (args : Arguments) (scope : option bytes) (full out : Schema)
    (filters : option RecordBatch) (keys : list RecordBatch) : CallParams :=
  {| callName := RecipeName r; callType := normalizeFunctionType (RecipeType r); callArgs := args; callOutputSchema := out;
     BindOutputSchema := full; callBindOpaqueData := RecipeBindOpaqueData r; callInputSchema := InputSchema p;
     ProjectionIDs := RecipeProjectionIDs r; callSettings := Settings p; callSecrets := Secrets p; SubstreamID := RecipeSubstreamID r;
     AttachScope := scope; PushdownFiltersBatch := filters; JoinKeys := flattenJoinKeyBatches keys; JoinKeyBatches := keys;
     callAt := At p; callCopyFrom := CopyFrom p; callCopyTo := CopyTo p; callOrderByHint := None; callTableSampleHint := None |}.
Definition recipe_lookup (w : InitWorker) (r : InitRecipe) (p : BindParams B) (scope : option bytes) : functionLookup :=
  {| Overload.Name := RecipeName r; Type_ := normalizeFunctionType (RecipeType r); Schema_ := schemaPathKey (ParamSchemaPath p);
     Overload.Catalog := catalogOfAttach (served (serving w)) (default [] scope);
     Overload.Args := map (option_map ArrType) (Positional (ParamArgs p)); Overload.InputSchema := field_types <$> InputSchema p |}.

Definition rebuildProcessParams (w : InitWorker) (r : InitRecipe) : result init_fault (F * ProcessParams B) :=
  let? p := lift_err InitBind (parseBindRequest read_ipc DeserializeRecordBatch DeserializeSchema (serving w) (RecipeCall r) None) in
  let scope := if ScopesOpened r then RecipeAttachScope r else coldAttachScope (AttachOpaqueData p) in
  let? f := lift_err (fun e => InitBind (BindUnresolved e))
              (resolveFunction (getArgSpecs shape ArgumentSpecs) (functions (serving w)) (recipe_lookup w r p scope)) in
  let args := RemapPositionalArgs (ParamArgs p) (getArgSpecs shape ArgumentSpecs f) in
  let? full := failed (DeserializeSchema (OutputSchemaIPC r)) in
  let? projected := ProjectSchema (RecipeProjectionIDs r) full in
  let '(out, _) := process_schema f (RecipeProjectionIDs r) projected full in
  let filters := match PushdownFilterIPC r with
                 | [] => None
                 | data => match DeserializeRecordBatch data with Ok b => Some b | Err _ => None end
                 end in
  let? keys := failed (read_join_keys (JoinKeyIPC r)) in
  let? st := getOrCreateStorage w (RecipeExecutionID r) (RecipeShardKey r) in
  Ok (f, process_params (rebuilt_call r p args scope full out filters keys) (RecipeExecutionID r) (RecipeInitOpaqueData r) None st).

(** *** The recipe in a token

    gob leaves out what is empty, so an empty slice, and a pointer to an empty
    slice or text, comes back nil. *)
Definition gob_slice {A} (o : option (list A)) : option (list A) := match o with Some [] => None | _ => o end.
Definition gob_text (o : option string) : option string := if bool_decide (o = Some "") then None else o.
Definition gob_request (r : Bind.BindRequestWire) : Bind.BindRequestWire :=
  {| Bind.FunctionName := Bind.FunctionName r; RequestArguments := RequestArguments r; Bind.FunctionType := Bind.FunctionType r;
     RequestInputSchema := gob_slice (RequestInputSchema r); RequestSettings := gob_slice (RequestSettings r);
     RequestSecrets := gob_slice (RequestSecrets r); RequestAttach := gob_slice (RequestAttach r);
     RequestTransaction := gob_slice (RequestTransaction r); ResolvedSecretsProvided := ResolvedSecretsProvided r;
     AtUnit := gob_text (AtUnit r); AtValue := gob_text (AtValue r); RequestCopyFrom := RequestCopyFrom r; RequestCopyTo := RequestCopyTo r;
     RequestSchemaPath := gob_slice (RequestSchemaPath r); RequestArgumentNames := RequestArgumentNames r |}.
Definition gob_recipe (r : InitRecipe) : InitRecipe :=
  {| RecipeCall := gob_request (Bind.GobDecode (Bind.GobEncode (RecipeCall r))); OutputSchemaIPC := OutputSchemaIPC r; RecipeName := RecipeName r;
     RecipeType := RecipeType r; RecipeProjectionIDs := gob_slice (RecipeProjectionIDs r); RecipeExecutionID := RecipeExecutionID r;
     RecipeBindOpaqueData := gob_slice (RecipeBindOpaqueData r); RecipeInitOpaqueData := gob_slice (RecipeInitOpaqueData r);
     PushdownFilterIPC := PushdownFilterIPC r; JoinKeyIPC := JoinKeyIPC r; RecipePhase := RecipePhase r; RecipeSecondary := RecipeSecondary r;
     RecipeSubstreamID := gob_slice (RecipeSubstreamID r); RecipeShardKey := RecipeShardKey r; ScopesOpened := ScopesOpened r;
     RecipeAttachScope := gob_slice (RecipeAttachScope r); TransactionScope := gob_slice (TransactionScope r) |}.

(** ** Every turn sees the parameters of init *)

(** What a live parse becomes without a caller: the opaque values stay sealed. *)
Definition unopened (req : Bind.BindRequestWire) (p : BindParams B) : BindParams B :=
  {| ParamName := ParamName p; ParamSchemaPath := ParamSchemaPath p; ArgumentNames := ArgumentNames p; ParamType := ParamType p;
     ParamArgs := ParamArgs p; InputSchema := InputSchema p; Settings := Settings p; Secrets := Secrets p;
     AttachOpaqueData := RequestAttach req; TransactionOpaqueData := RequestTransaction req; SecretsProvided := SecretsProvided p;
     At := At p; CopyFrom := CopyFrom p; CopyTo := CopyTo p; Auth := Auth p; txBackend := txBackend p |}.
Abbreviation parse_bind := (parseBindRequest read_ipc DeserializeRecordBatch DeserializeSchema).

Lemma parse_cold (w : Bind.Worker (W := W) (P := P) (X := X) (St := B) (F := F)) req cc p :
  parse_bind w req cc = Ok p -> parse_bind w req None = Ok (unopened req p).
Proof.
  unfold parseBindRequest. intros E.
  repeat (match type of E with (match ?c with _ => _ end) = _ => destruct c; [|discriminate E] end).
  apply ok_inj in E as <-. unfold unopened. cbn.
  by destruct (RequestAttach req), (RequestTransaction req).
Qed.

Lemma normalize_idempotent t : normalizeFunctionType (normalizeFunctionType t) = normalizeFunctionType t.
Proof.
  assert (normalizeFunctionType t = t \/ normalizeFunctionType t ∈ ["SCALAR"; "TABLE"; "AGGREGATE"; "TABLE_BUFFERING"]) as [E|E].
  { unfold normalizeFunctionType. do 4 (destruct (bool_decide _); [right; set_solver|]). by left. }
  - by rewrite !E.
  - revert E. generalize (normalizeFunctionType t). intros u Hu. repeat (apply elem_of_cons in Hu as [->|Hu]; [done|]).
    by apply not_elem_of_nil in Hu.
Qed.

Lemma cold_lookup w cc req p shard :
  recipe_lookup w (new_recipe req (Some cc) p shard) (unopened (BindCall req) p) (AttachOpaqueData p) = lookupFor (serving w) (BindCall req) p.
Proof. unfold recipe_lookup, lookupFor. cbn. by rewrite normalize_idempotent. Qed.

(** What init does not put in the recipe. *)
Definition without_hints (c : CallParams) : CallParams :=
  {| callName := callName c; callType := callType c; callArgs := callArgs c; callOutputSchema := callOutputSchema c;
     BindOutputSchema := BindOutputSchema c; callBindOpaqueData := callBindOpaqueData c; callInputSchema := callInputSchema c;
     ProjectionIDs := ProjectionIDs c; callSettings := callSettings c; callSecrets := callSecrets c; SubstreamID := SubstreamID c;
     AttachScope := AttachScope c; PushdownFiltersBatch := PushdownFiltersBatch c; JoinKeys := JoinKeys c; JoinKeyBatches := JoinKeyBatches c;
     callAt := callAt c; callCopyFrom := callCopyFrom c; callCopyTo := callCopyTo c; callOrderByHint := None; callTableSampleHint := None |}.
Definition resumed (p : ProcessParams B) : ProcessParams B :=
  {| Call := without_hints (Call p); ExecutionID := ExecutionID p; InitOpaqueData := InitOpaqueData p; SplitPayloads := None;
     ParamStorage := ParamStorage p; CurrentPushdownFilters := None; ParamAuth := None; IfNoneMatch := None; IfModifiedSince := None |}.

(** Arrow IPC has no empty batch. *)
Context (empty_ipc : is_ok (DeserializeRecordBatch []) = false).

Lemma rebuilt_filters o batch : optional DeserializeRecordBatch o = Ok batch ->
  match default [] o with
  | [] => None
  | d => match DeserializeRecordBatch d with Ok b => Some b | Err _ => None end
  end = batch.
Proof using empty_ipc.
  unfold optional. destruct o as [[|x d]|]; cbn.
  - by destruct (DeserializeRecordBatch []).
  - destruct (DeserializeRecordBatch (x :: d)); [by intros ?%ok_inj|done].
  - by intros ?%ok_inj.
Qed.

(** The opening of an init, replayed from its recipe. *)
Lemma rebuild_opening w cc req o e data payloads st :
  open_init w (Some cc) req = Ok o ->
  getOrCreateStorage w e (RecipeShardKey (openedRecipe o)) = Ok st ->
  rebuildProcessParams w (executed e data (openedRecipe o)) =
    Ok (openedFn o, resumed (process_params (openedCall o) e data payloads st)).
Proof using empty_ipc.
  unfold open_init. intros E Hst.
  destruct (DeserializeSchema (RequestOutputSchema req)) as [full|] eqn:Efull; [|done]. cbn [failed lift_err] in E.
  destruct (parse_bind (serving w) (BindCall req) (Some cc)) as [p|] eqn:Ep; [|done]. cbn [lift_err] in E.
  destruct (resolveFunction _ _ _) as [f|] eqn:Ef; [|done]. cbn [lift_err] in E.
  destruct (optional DeserializeRecordBatch _) as [filters|] eqn:Efilt; [|done]. cbn [failed lift_err] in E.
  destruct (read_join_keys _) as [keys|] eqn:Ekeys; [|done]. cbn [failed lift_err] in E.
  destruct (open_splits w (Some cc) req) as [pl|]; [|done]. cbn in E.
  destruct (ProjectSchema _ full) as [projected|] eqn:Eproj; [|done].
  destruct (process_schema f _ projected full) as [out autoProject] eqn:Eout.
  destruct (lift_err InitShard _) as [shard|]; [|done]. apply ok_inj in E as <-. cbn [openedRecipe openedFn openedCall] in *.
  unfold rebuildProcessParams. cbn [RecipeCall executed new_recipe]. rewrite (parse_cold _ _ _ _ Ep). cbn [lift_err].
  change (recipe_lookup w _ _ _) with (recipe_lookup w (new_recipe req (Some cc) p shard) (unopened (BindCall req) p) (AttachOpaqueData p)).
  rewrite cold_lookup, Ef.
  cbn [lift_err failed executed new_recipe OutputSchemaIPC RecipeProjectionIDs PushdownFilterIPC JoinKeyIPC RecipeExecutionID RecipeShardKey]. rewrite Efull. cbn [failed lift_err RecipeProjectionIDs].
  rewrite Eproj, Eout, Ekeys. cbn [failed lift_err RecipeExecutionID RecipeShardKey].
  cbn [RecipeShardKey new_recipe] in Hst. rewrite Hst. f_equal. f_equal.
  unfold process_params, resumed. cbn. unfold without_hints, rebuilt_call, init_call. cbn.
  rewrite normalize_idempotent. by rewrite (rebuilt_filters _ _ Efilt).
Qed.

(** A turn rebuilt from a recipe: the function, and the parameters [p] less
    what the recipe lacks, with the filters of the snapshot. *)
Definition rebuilt_as (w : InitWorker) (r : InitRecipe) (f : F) (p : ProcessParams B) : Prop :=
  rebuildProcessParams w r = Ok (f, resumed p) /\
  with_snapshot f (resumed p) = Ok (with_current (CurrentPushdownFilters p) (resumed p)).

Lemma with_snapshot_resumed f c e data payloads st p :
  with_snapshot f (process_params c e data payloads st) = Ok p ->
  resumed p = resumed (process_params c e data payloads st) /\
  with_snapshot f (resumed p) = Ok (with_current (CurrentPushdownFilters p) (resumed p)).
Proof.
  unfold with_snapshot. cbn [Call process_params PushdownFiltersBatch].
  destruct (PushdownFiltersBatch c) as [batch|] eqn:Eb.
  - destruct (deserializeFiltersForMetadata f c batch) as [pf|] eqn:Ed; [|done]. intros <-%ok_inj. split; [done|].
    cbn. rewrite Eb. change (deserializeFiltersForMetadata f (without_hints c) batch) with (deserializeFiltersForMetadata f c batch).
    by rewrite Ed.
  - intros <-%ok_inj. split; [done|]. cbn. by rewrite Eb.
Qed.

Lemma with_snapshot_frame f q p : with_snapshot f q = Ok p -> SplitPayloads p = SplitPayloads q /\ Call p = Call q.
Proof.
  unfold with_snapshot. destruct (PushdownFiltersBatch _); [|by intros <-%ok_inj].
  destruct (deserializeFiltersForMetadata _ _ _); [|done]. by intros <-%ok_inj.
Qed.

Lemma init_table_rebuilt w cc req o out ap fresh res :
  open_init w (Some cc) req = Ok o ->
  initTable w (openedFn o) (openedInit o) (openedCall o) out ap (openedRecipe o) fresh = Ok res ->
  exists s, StreamState_ res = TableProducer s /\ rebuilt_as w (tpRecipe s) (tpFn s) (tpParams s).
Proof using empty_ipc.
  intros Eo E. unfold initTable in E.
  destruct (getOrCreateStorage _ _ _) as [st0|]; [|done]. destruct (redeem _ _); [|done].
  destruct (global_init _ _ _ _) as [[[e wk] data]|]; [|done].
  destruct (getOrCreateStorage w e _) as [st|] eqn:Est; [|done].
  destruct (failed (with_snapshot _ _)) as [p|] eqn:Ep; [|done]. destruct (failed (NewState _ _)); [|done].
  destruct (failed (gobEncode _)); [|done]. apply ok_inj in E as <-. eexists. split; [done|]. cbn.
  unfold failed, lift_err in Ep. destruct (with_snapshot _ _) as [p'|] eqn:Ew; [|done]. apply ok_inj in Ep as ->.
  destruct (with_snapshot_resumed _ _ _ _ _ _ _ Ew) as [Er Hw]. split; [|done].
  rewrite Er. by eapply rebuild_opening.
Qed.

Lemma init_in_out_rebuilt w cc req o out phase fresh res :
  open_init w (Some cc) req = Ok o ->
  initTableInOut w (openedFn o) (openedInit o) (openedCall o) out phase (openedRecipe o) fresh = Ok res ->
  (exists r ipc batches st, StreamState_ res = FinalizeProducer r ipc batches st None) \/
  exists s, StreamState_ res = TableInOutExchange s /\ rebuilt_as w (Recipe s) (streamFn s) (params s) /\ MorePending s = false /\
    FilterDeltaIPC s = [] /\ FilterPredicateOrder s = [] /\ gobEncode (state s) = Ok (UserStateBytes s) /\
    autoApply s = auto_apply (streamFn s) (params s) /\ SplitPayloads (params s) = None /\ Call (params s) = openedCall o /\ streamFn s = openedFn o.
Proof using empty_ipc.
  intros Eo E. unfold initTableInOut in E.
  destruct (getOrCreateStorage _ _ _) as [st0|]; [|done].
  destruct (global_init _ _ _ _) as [[[e wk] data]|]; [|done].
  destruct (getOrCreateStorage w e _) as [st|] eqn:Est; [|done].
  destruct (failed (with_snapshot _ _)) as [p|] eqn:Ep; [|done].
  destruct (failed (NewState _ _)) as [user|]; [|done]. destruct (bool_decide _).
  { destruct (failed (Finalize _ _ _)); [|done]. destruct (finalize_stream _ _ _ _) as [[]|]; [|done]. apply ok_inj in E as <-. left. by repeat eexists. }
  destruct (failed (gobEncode _)) as [usb|] eqn:Eu; [|done]. apply ok_inj in E as <-. right. eexists. split; [done|]. cbn.
  unfold failed, lift_err in Ep. destruct (with_snapshot _ _) as [p'|] eqn:Ew; [|done]. apply ok_inj in Ep as ->.
  destruct (with_snapshot_resumed _ _ _ _ _ _ _ Ew) as [Er Hw]. split; [split; [|done]|].
  - rewrite Er. by eapply rebuild_opening.
  - unfold failed, lift_err in Eu. destruct (gobEncode user); [|done]. apply ok_inj in Eu as ->. do 5 (split; [done|]).
    destruct (with_snapshot_frame _ _ _ Ew) as [-> ->]. done.
Qed.

Lemma open_init_hints w cc req o : open_init w cc req = Ok o ->
  callOrderByHint (openedCall o) = order_by req /\ callTableSampleHint (openedCall o) = table_sample req.
Proof.
  unfold open_init. intros E. repeat (match type of E with
    | (match ?c with _ => _ end) = _ => destruct c; [|discriminate E]
    | (let '(_, _) := ?q in _) = _ => destruct q
    end). by apply ok_inj in E as <-.
Qed.

(** What the recipe of an opened stream says, and the parameters it was opened
    with. *)
Definition opened (s : StreamState) : option (InitRecipe * F * ProcessParams B) :=
  match s with
  | TableProducer s => Some (tpRecipe s, tpFn s, tpParams s)
  | TableInOutExchange s => Some (Recipe s, streamFn s, params s)
  | _ => None
  end.

End init.
