(* ===== verification/Exchange.v ===== *)
(** * Exchange: the turns of a stream (vgi/protocol.go, vgi/continuation.go,
    vgi/filter_delta_history.go, vgi/state_serialize.go, vgi/rehydrate.go)

    A table-in-out function answers each input batch with one reply, and may
    say that more follows; the client then asks for it with a continuation
    tick. A turn also brings filter updates and cache validators. In one
    process the stream lives in memory; over HTTP it is written to a token
    after every turn and rebuilt from it. *)

From S2P Require Import CatalogContents CatalogRoute Envelope SplitToken Overload Storage ExecutionStorage.
From S2P Require Import Prelude Bytes Base64 Strings Unicode ArrowTypes ArrowData Arguments ArgConstraints BindResult Bind.
From S2P Require Import FilterV2 FilterDelta FilterEval Emit Init.

(** An input batch with the metadata it may carry, and what the call says. *)
Record Input := { InputBatch : RecordBatch; BatchMetadata : option (list (string * string)) }.
Record Call_ := { CallAuth : option AuthContext; InputMetadata : list (string * string) }.

(** [meta.FindKey] and the value there. *)
Definition find_key (md : list (string * string)) (key : string) : option string :=
  snd <$> List.find (fun kv => bool_decide (fst kv = key)) md.
Definition isContinuationTick (md : list (string * string)) : bool :=
  bool_decide (find_key md statusKey = Some statusContinue).

Section streams.
Context {B F S : Type}.
Context (DeserializeRecordBatch : bytes -> result string RecordBatch).
(** The functions: their declarations, and what they do in a turn. *)
Context (AutoApplyFilters AllowsSpatial : F -> bool).
Context (Process : F -> ProcessParams B -> option S -> RecordBatch -> body (option S)).
Context (Resume : F -> option (ProcessParams B -> option S -> body (option S))).
Context (Produces : F -> ProcessParams B -> option S -> body (option S)).
(** The collector, the evaluation of filters and the Arrow kernels. *)
Context {C : Type} (look : C -> layout).
Context (put : (RecordBatch -> result fault RecordBatch) -> C -> RecordBatch -> option metadata -> result fault () * C).
Context (Evaluate : FilterDelta.PushdownFilters -> RecordBatch -> result string Array).
Context (filter_batch : RecordBatch -> Array -> result string RecordBatch).

Abbreviation TableInOut := (TableInOutExchangeState (B := B) (F := F) (S := S)).
Abbreviation TableScan := (TableProducerState (B := B) (F := F) (S := S)).

(** ** Filter updates *)

(** The update a tick carries, decoded from its metadata. *)
Definition tick_delta (md : list (string * string)) : result string (option bytes) :=
  match find_key md "vgi_pushdown_filters" with
  | None => Ok None
  | Some encoded =>
      if bool_decide (encoded = "") then Ok None else
      match StdDecodeString encoded with
      | Some raw => Ok (Some raw)
      | None => Err "decode dynamic filter base64"
      end
  end.

(** The first tick decodes the snapshot when init did not. *)
Definition seed_filters (p : ProcessParams B) : result string (ProcessParams B) :=
  match CurrentPushdownFilters p, PushdownFiltersBatch (Call p) with
  | None, Some batch =>
      let? pf := deserializeFiltersV2 batch (JoinKeys (Call p)) (JoinKeyBatches (Call p)) false (Some (SchemaFields (BindOutputSchema (Call p)))) in
      Ok (with_current (Some pf) p)
  | _, _ => Ok p
  end.

(** The delta a tick applied with the revisions it carried; the parameters
    change even when a later step fails. *)
Definition applyTickFilters (p : ProcessParams B) (md : list (string * string))
    : result string (option (bytes * list predicateRevision)) * ProcessParams B :=
  match seed_filters p with
  | Err e => (Err e, p)
  | Ok p =>
      match tick_delta md with
      | Err e => (Err e, p)
      | Ok None => (Ok None, p)
      | Ok (Some raw) =>
          match DeserializeRecordBatch raw with
          | Err e => (Err e, p)
          | Ok batch =>
              match CurrentPushdownFilters p with
              | None => (Err "filter delta requires an initial snapshot", p)
              | Some pf =>
                  match applyDelta pf batch (JoinKeys (Call p)) with
                  | Err e => (Err e, p)
                  | Ok (carried, pf) => (Ok (Some (raw, carried)), with_current (Some pf) p)
                  end
              end
          end
      end
  end.

(** A stream's parameters with its filter history. *)
Record history := { hParams : ProcessParams B; hDeltas : list bytes; hOrder : list string }.
(** Whether a delta was there. *)
Definition applyTick (h : history) (md : list (string * string)) : result string bool * history :=
  let '(r, p) := applyTickFilters (hParams h) md in
  let h := {| hParams := p; hDeltas := hDeltas h; hOrder := hOrder h |} in
  match r, CurrentPushdownFilters p with
  | Err e, _ => (Err e, h)
  | Ok (Some (raw, carried)), Some pf =>
      match recordFilterDelta DeserializeRecordBatch pf (hDeltas h) raw carried with
      | Err e => (Err e, h)
      | Ok ds => (Ok true, {| hParams := p; hDeltas := ds; hOrder := predicateOrder pf |})
      end
  | Ok _, _ => (Ok false, h)
  end.

(** ** Parameters of a turn *)

Definition with_auth (a : option AuthContext) (p : ProcessParams B) : ProcessParams B :=
  {| Call := Call p; ExecutionID := ExecutionID p; InitOpaqueData := InitOpaqueData p; SplitPayloads := SplitPayloads p;
     ParamStorage := ParamStorage p; CurrentPushdownFilters := CurrentPushdownFilters p; ParamAuth := a;
     IfNoneMatch := IfNoneMatch p; IfModifiedSince := IfModifiedSince p |}.
Definition with_validators (n m : option string) (p : ProcessParams B) : ProcessParams B :=
  {| Call := Call p; ExecutionID := ExecutionID p; InitOpaqueData := InitOpaqueData p; SplitPayloads := SplitPayloads p;
     ParamStorage := ParamStorage p; CurrentPushdownFilters := CurrentPushdownFilters p; ParamAuth := ParamAuth p;
     IfNoneMatch := n; IfModifiedSince := m |}.
Definition or_else {A} (a b : option A) : option A := match a with Some _ => a | None => b end.
Definition applyTickValidators (p : ProcessParams B) (md : list (string * string)) : ProcessParams B :=
  with_validators (or_else (find_key md CacheIfNoneMatchKey) (IfNoneMatch p))
    (or_else (find_key md CacheIfModifiedSinceKey) (IfModifiedSince p)) p.

(** The filters in force: a function that applies them by itself has none here. *)
Definition active_filters (auto : option FilterDelta.PushdownFilters) (p : ProcessParams B) : option FilterDelta.PushdownFilters :=
  match auto, CurrentPushdownFilters p with
  | Some _, Some pf => Some pf
  | a, _ => a
  end.
Definition apply_filters (pf : FilterDelta.PushdownFilters) (b : RecordBatch) : result string RecordBatch :=
  let? mask := Evaluate pf b in filter_batch b mask.
Definition of_string {A} (r : result string A) : result fault A := lift_err Failed r.

(** ** Table-in-out *)

Definition needs_project (p : ProcessParams B) : bool := bool_decide (is_Some (ProjectionIDs (Call p))).
Definition narrowed (p : ProcessParams B) (b : RecordBatch) : result fault RecordBatch :=
  if needs_project p && (Z.of_nat (length (SchemaFields (callOutputSchema (Call p)))) <? NumCols b)%Z
  then selectColumnsByName b (callOutputSchema (Call p)) else Ok b.
Definition exchange_interceptor (auto : option FilterDelta.PushdownFilters) (p : ProcessParams B) : interceptor :=
  fun t b =>
    match active_filters auto p with
    | Some pf =>
        if match t with Some t => prefiltered t | None => false end then narrowed p b
        else let? b := of_string (apply_filters pf b) in narrowed p b
    | None => narrowed p b
    end.

Definition with_history (h : history) (s : TableInOut) : TableInOut :=
  {| Recipe := Recipe s; UserStateBytes := UserStateBytes s; FilterDeltaIPC := hDeltas h; FilterPredicateOrder := hOrder h;
     MorePending := MorePending s; streamFn := streamFn s; params := hParams h; state := state s; autoApply := autoApply s |}.
Definition with_params (p : ProcessParams B) (s : TableInOut) : TableInOut :=
  {| Recipe := Recipe s; UserStateBytes := UserStateBytes s; FilterDeltaIPC := FilterDeltaIPC s; FilterPredicateOrder := FilterPredicateOrder s;
     MorePending := MorePending s; streamFn := streamFn s; params := p; state := state s; autoApply := autoApply s |}.
Definition with_state (u : option S) (s : TableInOut) : TableInOut :=
  {| Recipe := Recipe s; UserStateBytes := UserStateBytes s; FilterDeltaIPC := FilterDeltaIPC s; FilterPredicateOrder := FilterPredicateOrder s;
     MorePending := MorePending s; streamFn := streamFn s; params := params s; state := u; autoApply := autoApply s |}.
Definition with_pending (b : bool) (s : TableInOut) : TableInOut :=
  {| Recipe := Recipe s; UserStateBytes := UserStateBytes s; FilterDeltaIPC := FilterDeltaIPC s; FilterPredicateOrder := FilterPredicateOrder s;
     MorePending := b; streamFn := streamFn s; params := params s; state := state s; autoApply := autoApply s |}.

(** What a function leaves in its state: through a nil one it leaves nothing. *)
Definition mutated (before after : option S) : option S :=
  match before, after with Some _, Some _ => after | _, _ => before end.

Definition is_tick (input : Input) (call : Call_) : bool :=
  isContinuationTick (InputMetadata call) || isContinuationTick (default [] (BatchMetadata input)).
(** The rules of continued output, on the input. *)
Definition refused_input (s : TableInOut) (tick : bool) (input : Input) : option string :=
  let name := RecipeName (Recipe s) in
  if tick && negb (MorePending s) then Some (name +:+ ": continuation tick received, but no output is pending")
  else if tick && negb (NumRows (InputBatch input) =? 0)%Z then Some (name +:+ ": a continuation tick must have no rows")
  else if negb tick && MorePending s then Some (name +:+ ": input received while output is pending; expected a continuation tick")
  else None.

(** The updates a turn brings, from the call or else from the batch. *)
Definition tick_updates (input : Input) (call : Call_) (h : history) : result string () * history :=
  match applyTick h (InputMetadata call) with
  | (Err e, h) => (Err e, h)
  | (Ok true, h) => (Ok (), h)
  | (Ok false, h) =>
      match BatchMetadata input with
      | None => (Ok (), h)
      | Some md => let '(r, h) := applyTick h md in (let? _ := r in Ok (), h)
      end
  end.
Definition input_validators (input : Input) (call : Call_) (p : ProcessParams B) : ProcessParams B :=
  applyTickValidators (applyTickValidators (with_validators None None p) (InputMetadata call)) (default [] (BatchMetadata input)).

(** The function's part of a turn. *)
Definition turn_body (s : TableInOut) (tick : bool) (input : Input) : result string (body (option S)) :=
  match tick, Resume (streamFn s) with
  | false, _ => Ok (Process (streamFn s) (params s) (state s) (InputBatch input))
  | true, Some resume => Ok (resume (params s) (state s))
  | true, None => Err (RecipeName (Recipe s) +:+ ": continuation tick received, but the function does not implement Resume")
  end.
Definition new_tracker (s : TableInOut) (tick : bool) : replyTracker :=
  {| name := RecipeName (Recipe s); resumable := bool_decide (is_Some (Resume (streamFn s))); continuation := tick; more := false;
     filters := active_filters (autoApply s) (params s); prefiltered := false |}.
Definition run_turn (s : TableInOut) (tick : bool) (p : body (option S)) (c : C) : result fault () * TableInOut * C :=
  let tr := new_tracker s tick in
  let '(user, r, t) := run put Evaluate filter_batch (exchange_interceptor (autoApply s) (params s)) (state s) p
                         {| out := c; tracker := Some tr |} in
  let s := with_state (mutated (state s) user) s in
  let tr := default tr (tracker t) in
  match (let? _ := r in of_string (checkReplyStatus look (out t) tr)) with
  | Err e => (Err e, s, out t)
  | Ok _ =>
      if more tr && bool_decide (state s = None)
      then (Err (Failed (RecipeName (Recipe s) +:+ ": emitted WithMoreOutput(true) with a nil state")), s, out t)
      else (Ok (), with_pending (more tr) s, out t)
  end.

Definition Exchange (s : TableInOut) (input : Input) (call : Call_) (c : C) : result fault () * TableInOut * C :=
  let h := {| hParams := with_auth (CallAuth call) (params s); hDeltas := FilterDeltaIPC s; hOrder := FilterPredicateOrder s |} in
  let '(r, h) := tick_updates input call h in
  let s := with_history h s in
  match r with
  | Err e => (Err (Failed e), s, c)
  | Ok _ =>
      let tick := is_tick input call in
      match refused_input s tick input with
      | Some e => (Err (Failed e), s, c)
      | None =>
          let s := with_params (input_validators input call (params s)) s in
          match turn_body s tick input with
          | Err e => (Err (Failed e), s, c)
          | Ok p => run_turn s tick p c
          end
      end
  end.

(** ** Table functions *)

Definition column_at (b : RecordBatch) (id : Z) : result fault (Field * Array) :=
  match (if (id <? 0)%Z then None else Columns b !! Z.to_nat id) with
  | Some fa => Ok fa
  | None => Err (Panicked "index out of range")
  end.
Definition projectBatch (b : RecordBatch) (ids : list Z) : result fault RecordBatch :=
  let? cols := map_result (column_at b) ids in
  Ok {| ArrowData.SchemaMetadata := []; Columns := cols; NumRows := NumRows b |}.
Definition producer_interceptor (auto : option FilterDelta.PushdownFilters) (ids : option (list Z)) (p : ProcessParams B) : interceptor :=
  fun _ b =>
    let? b := match active_filters auto p with Some pf => of_string (apply_filters pf b) | None => Ok b end in
    match ids with Some ids => projectBatch b ids | None => Ok b end.

Definition with_scan (h : history) (u : option S) (s : TableScan) : TableScan :=
  {| tpRecipe := tpRecipe s; tpUserStateBytes := tpUserStateBytes s; AutoProjectIDs := AutoProjectIDs s; tpDeltas := hDeltas h;
     tpOrder := hOrder h; tpFn := tpFn s; tpParams := hParams h; tpState := u; tpAutoApply := tpAutoApply s |}.
Definition Produce (s : TableScan) (call : Call_) (c : C) : result fault () * TableScan * C :=
  let h := {| hParams := with_auth (CallAuth call) (tpParams s); hDeltas := tpDeltas s; hOrder := tpOrder s |} in
  match applyTick h (InputMetadata call) with
  | (Err e, h) => (Err (Failed e), with_scan h (tpState s) s, c)
  | (Ok _, h) =>
      let p := applyTickValidators (hParams h) (InputMetadata call) in
      let h := {| hParams := p; hDeltas := hDeltas h; hOrder := hOrder h |} in
      let '(user, r, t) := run put Evaluate filter_batch (producer_interceptor (tpAutoApply s) (AutoProjectIDs s) p) (tpState s)
                             (Produces (tpFn s) p (tpState s)) {| out := c; tracker := None |} in
      (r, with_scan h (mutated (tpState s) user) s, out t)
  end.

(** ** Tokens *)

(** gob, for the states of functions. *)
Context (gobEncode : option S -> result string bytes) (gobDecode : bytes -> result string (option S)).
(** What a worker rebuilds from a recipe, the kinds of its functions and their
    fresh states. *)
Context (rebuild : InitRecipe -> result init_fault (F * ProcessParams B)) (shape : F -> option FunctionShape).
Context (NewState : F -> ProcessParams B -> result string (option S)).

Record tableInOutWire := {
  wireRecipe : InitRecipe;
  wireState : bytes;
  wireDeltas : list bytes;
  wireOrder : list string;
  wirePending : bool
}.
(** The live state, when there is one, else the bytes the stream has. *)
Definition snapshot_state (u : option S) (usb : bytes) : result string bytes :=
  match u with Some _ => gobEncode u | None => Ok usb end.
Definition GobEncode (s : TableInOut) : result string tableInOutWire :=
  let? usb := snapshot_state (state s) (UserStateBytes s) in
  Ok {| wireRecipe := gob_recipe (Recipe s); wireState := usb; wireDeltas := FilterDeltaIPC s; wireOrder := FilterPredicateOrder s;
        wirePending := MorePending s |}.

(** The filters of a rebuilt turn: the snapshot and the history on it. *)
Definition replayed (f : F) (p : ProcessParams B) (ds : list bytes) (order : list string) : result init_fault (ProcessParams B) :=
  let? p := lift_err InitFailed (with_snapshot AllowsSpatial f p) in
  match ds, CurrentPushdownFilters p with
  | [], _ => Ok p
  | _, None => Err (InitFailed "filter delta history requires an initial snapshot")
  | _, Some pf =>
      let? pf := lift_err InitFailed (replayFilterDeltas DeserializeRecordBatch (JoinKeys (Call p)) pf ds order) in
      Ok (with_current (Some pf) p)
  end.
(** The state of a rebuilt turn; while output is pending there is no other than
    the token's. *)
Definition restored_state (f : F) (p : ProcessParams B) (usb : bytes) (pending : bool) : result init_fault (option S) :=
  let fresh := lift_err InitFailed (NewState f p) in
  match usb with
  | [] => fresh
  | _ =>
      match gobDecode usb with
      | Ok u => Ok u
      | Err e => if pending then Err (InitFailed e) else fresh
      end
  end.
Definition restored_auto (f : F) (p : ProcessParams B) : option FilterDelta.PushdownFilters := auto_apply AutoApplyFilters f p.

(** A token decoded and rehydrated. *)
Definition rehydrateTableInOut (t : tableInOutWire) : result init_fault TableInOut :=
  if wirePending t && bool_decide (wireState t = [])
  then Err (InitFailed "output is pending but the state token carries no state") else
  let? (f, p) := rebuild (wireRecipe t) in
  if negb (bool_decide (shape f = Some TableInOutFunction)) then Err (InitFailed "resolved function is not a TableInOutFunction") else
  let? p := replayed f p (wireDeltas t) (wireOrder t) in
  let? u := restored_state f p (wireState t) (wirePending t) in
  Ok {| Recipe := wireRecipe t; UserStateBytes := wireState t; FilterDeltaIPC := wireDeltas t; FilterPredicateOrder := wireOrder t;
        MorePending := wirePending t; streamFn := f; params := p; state := u; autoApply := restored_auto f p |}.

Record tableProducerWire := {
  scanRecipe : InitRecipe;
  scanState : bytes;
  scanAutoProject : option (list Z);
  scanDeltas : list bytes;
  scanOrder : list string
}.
Definition GobEncodeScan (s : TableScan) : result string tableProducerWire :=
  let? usb := snapshot_state (tpState s) (tpUserStateBytes s) in
  Ok {| scanRecipe := gob_recipe (tpRecipe s); scanState := usb; scanAutoProject := gob_slice (AutoProjectIDs s);
        scanDeltas := tpDeltas s; scanOrder := tpOrder s |}.
Definition rehydrateTableProducer (t : tableProducerWire) : result init_fault TableScan :=
  let? (f, p) := rebuild (scanRecipe t) in
  if negb (bool_decide (shape f = Some TableFunction)) then Err (InitFailed "resolved function is not a TableFunction") else
  let? p := replayed f p (scanDeltas t) (scanOrder t) in
  let? u := restored_state f p (scanState t) false in
  Ok {| tpRecipe := scanRecipe t; tpUserStateBytes := scanState t; AutoProjectIDs := scanAutoProject t; tpDeltas := scanDeltas t;
        tpOrder := scanOrder t; tpFn := f; tpParams := p; tpState := u; tpAutoApply := restored_auto f p |}.

(** ** A stream of inputs *)

(** In one process the live stream takes the inputs, each turn with a new
    collector; the first turn that fails is the last. *)
Fixpoint in_memory (s : TableInOut) (l : list (Input * Call_ * C)) : list (result fault () * C) :=
  match l with
  | [] => []
  | (input, call, c) :: l =>
      let '(r, s, c) := Exchange s input call c in
      (r, c) :: match r with Ok _ => in_memory s l | Err _ => [] end
  end.
(** Over HTTP every turn is served from the token the one before left. *)
Fixpoint over_http (t : result string tableInOutWire) (l : list (Input * Call_ * C)) : list (result fault () * C) :=
  match l with
  | [] => []
  | (input, call, c) :: l =>
      match (let? t := lift_err InitFailed t in rehydrateTableInOut t) with
      | Err _ => [(Err (Failed "rehydration"), c)]
      | Ok s =>
          let '(r, s, c) := Exchange s input call c in
          (r, c) :: match r with Ok _ => over_http (GobEncode s) l | Err _ => [] end
      end
  end.

(** ** Two copies of a stream behave alike *)

(** Parameters that differ at most in the validators of the last input, and the
    caller. *)
Definition bare (p : ProcessParams B) : ProcessParams B := with_validators None None (with_auth None p).
Definition same_but_validators (p q : ProcessParams B) : Prop := with_validators None None p = with_validators None None q.

(** Histories a turn cannot tell apart before it reads the validators. *)
Definition same_history (h k : history) : Prop :=
  same_but_validators (hParams h) (hParams k) /\ hDeltas h = hDeltas k /\ hOrder h = hOrder k.
(** What a turn never takes away. *)
Definition filters_kept (p q : ProcessParams B) : Prop :=
  Call q = Call p /\ (is_Some (CurrentPushdownFilters p) -> is_Some (CurrentPushdownFilters q)).

Lemma same_with_current pf p q : same_but_validators p q -> same_but_validators (with_current pf p) (with_current pf q).
Proof. exact (fun H => f_equal (with_current pf) H). Qed.
Lemma same_call p q : same_but_validators p q -> Call p = Call q /\ CurrentPushdownFilters p = CurrentPushdownFilters q.
Proof. intros H. split; [exact (f_equal Call H)|exact (f_equal CurrentPushdownFilters H)]. Qed.

Lemma seed_same p q : same_but_validators p q ->
  match seed_filters p, seed_filters q with
  | Ok p', Ok q' => same_but_validators p' q' /\ filters_kept p p'
  | Err e, Err e' => e = e'
  | _, _ => False
  end.
Proof.
  intros H. destruct (same_call _ _ H) as [Hc Hf]. unfold seed_filters. rewrite <- Hf, <- Hc.
  destruct (CurrentPushdownFilters p) eqn:Ep; [by split|]. destruct (PushdownFiltersBatch (Call p)) as [batch|]; [|by split].
  destruct (deserializeFiltersV2 _ _ _ _ _); [|done]. split; [by apply same_with_current|by split].
Qed.

Lemma tick_filters_same p q md : same_but_validators p q ->
  fst (applyTickFilters p md) = fst (applyTickFilters q md) /\
  same_but_validators (snd (applyTickFilters p md)) (snd (applyTickFilters q md)) /\
  filters_kept p (snd (applyTickFilters p md)) /\
  (forall x, fst (applyTickFilters p md) = Ok (Some x) -> is_Some (CurrentPushdownFilters (snd (applyTickFilters p md)))).
Proof.
  intros H. assert (Hs := seed_same _ _ H). unfold applyTickFilters.
  destruct (seed_filters p) as [p'|e], (seed_filters q) as [q'|e']; try done; [|by subst e'].
  destruct Hs as [Hs Hk]. destruct (same_call _ _ Hs) as [Hc Hf].
  destruct (tick_delta md) as [[raw|]|e]; [|done..]. destruct (DeserializeRecordBatch raw) as [batch|e]; [|done].
  rewrite <- Hf, <- Hc. destruct (CurrentPushdownFilters p') as [pf|] eqn:Ep; [|by rewrite <- ?Ep].
  destruct (applyDelta pf batch _) as [[carried pf']|e]; [|by rewrite <- ?Ep]. cbn [fst snd].
  split; [done|]. split; [by apply same_with_current|]. destruct Hk as [Hk1 Hk2]. split; [|by intros ? _].
  by split.
Qed.

Lemma applyTick_same h k md : same_history h k ->
  fst (applyTick h md) = fst (applyTick k md) /\ same_history (snd (applyTick h md)) (snd (applyTick k md)) /\
  filters_kept (hParams h) (hParams (snd (applyTick h md))).
Proof.
  intros (Hp & Hd & Ho). destruct (tick_filters_same _ _ md Hp) as (Hr & Hs & Hk & _). unfold applyTick.
  destruct (applyTickFilters (hParams h) md) as [r p], (applyTickFilters (hParams k) md) as [r' q]. cbn [fst snd] in *. subst r'.
  destruct (same_call _ _ Hs) as [_ Hf]. rewrite <- Hf, <- Hd, <- Ho.
  destruct r as [[[raw carried]|]|e]; [|by split_and!; [| |destruct Hk]..].
  destruct (CurrentPushdownFilters p) as [pf|] eqn:Ep; [|by split_and!; [| |destruct Hk]].
  destruct (recordFilterDelta _ _ _ _ _); by split_and!; [| |destruct Hk].
Qed.

Lemma tick_updates_same input call h k : same_history h k ->
  fst (tick_updates input call h) = fst (tick_updates input call k) /\
  same_history (snd (tick_updates input call h)) (snd (tick_updates input call k)) /\
  filters_kept (hParams h) (hParams (snd (tick_updates input call h))).
Proof.
  intros H. destruct (applyTick_same _ _ (InputMetadata call) H) as (Hr & Hs & Hk). unfold tick_updates.
  destruct (applyTick h _) as [r h'], (applyTick k _) as [r' k']. cbn [fst snd] in *. subst r'.
  destruct r as [[|]|e]; [done| |done]. destruct (BatchMetadata input) as [md|]; [|done].
  destruct (applyTick_same _ _ md Hs) as (Hr & Hs' & Hk').
  destruct (applyTick h' md) as [r h2], (applyTick k' md) as [r' k2]. cbn [fst snd] in *. subst r'.
  destruct Hk as [Hc1 Hf1], Hk' as [Hc2 Hf2]. split; [done|]. split; [done|]. split; [by rewrite Hc2, Hc1|auto].
Qed.

(** Streams that serve the next turn alike. *)
Record same (s t : TableInOut) : Prop := {
  same_recipe : Recipe s = Recipe t;
  same_fn : streamFn s = streamFn t;
  same_state : state s = state t;
  same_pending : MorePending s = MorePending t;
  same_deltas : FilterDeltaIPC s = FilterDeltaIPC t;
  same_order : FilterPredicateOrder s = FilterPredicateOrder t;
  same_params : bare (params s) = bare (params t);
  same_auto : is_Some (autoApply s) <-> is_Some (autoApply t);
  auto_current : is_Some (autoApply s) -> is_Some (CurrentPushdownFilters (params s))
}.

Lemma active_same a a' p : (is_Some a <-> is_Some a') -> (is_Some a -> is_Some (CurrentPushdownFilters p)) ->
  active_filters a p = active_filters a' p.
Proof.
  intros Ha Hc. unfold active_filters. destruct a as [x|].
  - destruct Hc as [pf ->]; [done|]. destruct (proj1 Ha) as [y ->]; [done|]. done.
  - destruct a' as [y|]; [|done]. destruct (proj2 Ha) as [? ?]; done.
Qed.

Lemma run_turn_same s t tick p c :
  Recipe s = Recipe t -> streamFn s = streamFn t -> state s = state t -> params s = params t -> MorePending s = MorePending t ->
  FilterDeltaIPC s = FilterDeltaIPC t -> FilterPredicateOrder s = FilterPredicateOrder t ->
  (is_Some (autoApply s) <-> is_Some (autoApply t)) -> (is_Some (autoApply s) -> is_Some (CurrentPushdownFilters (params s))) ->
  let x := run_turn s tick p c in let y := run_turn t tick p c in
  fst (fst x) = fst (fst y) /\ snd x = snd y /\ same (snd (fst x)) (snd (fst y)) /\ params (snd (fst x)) = params s.
Proof.
  intros Hr Hf Hu Hp Hm Hd Ho Ha Hc. assert (Hact := active_same _ _ (params s) Ha Hc).
  assert (Hi : exchange_interceptor (autoApply s) (params s) = exchange_interceptor (autoApply t) (params s))
    by (unfold exchange_interceptor; by rewrite Hact).
  assert (Hn : new_tracker s tick = new_tracker t tick) by (unfold new_tracker; by rewrite Hr, Hf, Hact, Hp).
  cbn zeta. unfold run_turn. rewrite <- Hp, <- Hu, <- Hi, <- Hn.
  destruct (run _ _ _ _ _ _ _) as [[user r] tn]. cbn [fst snd].
  assert (Hs : forall u b, same (with_pending b (with_state u s)) (with_pending b (with_state u t)))
    by (intros u b; split; cbn; try done; by rewrite Hp).
  assert (Hs' : forall u, same (with_state u s) (with_state u t)) by (intros u; split; cbn; try done; by rewrite Hp).
  destruct (match r with Ok _ => _ | Err e => Err e end) as [[]|e]; cbn [fst snd]; [|done].
  cbn [state with_state Recipe]. rewrite <- Hr. by destruct (_ && _); cbn [fst snd].
Qed.

Lemma exchange_same s t input call c : same s t ->
  let x := Exchange s input call c in let y := Exchange t input call c in
  fst (fst x) = fst (fst y) /\ snd x = snd y /\ (fst (fst x) = Ok () -> same (snd (fst x)) (snd (fst y))).
Proof.
  intros H. cbn zeta. unfold Exchange.
  set (h := {| hParams := with_auth (CallAuth call) (params s) |}). set (k := {| hParams := with_auth (CallAuth call) (params t) |}).
  assert (Hh : same_history h k).
  { split; [|split; [apply (same_deltas _ _ H)|apply (same_order _ _ H)]]. assert (Hb := same_params _ _ H).
    unfold same_but_validators. apply (f_equal (with_auth (CallAuth call))) in Hb. exact Hb. }
  destruct (tick_updates_same input call _ _ Hh) as (Hr & Hs & Hk).
  destruct (tick_updates input call h) as [r h'], (tick_updates input call k) as [r' k']. cbn [fst snd] in *. subst r'.
  destruct r as [[]|e]; [|done]. destruct Hs as (Hp & Hd & Ho).
  unfold refused_input. cbn [Recipe with_history MorePending]. rewrite <- (same_recipe _ _ H), <- (same_pending _ _ H).
  destruct (if _ && _ then _ else _) as [e|]; [done|].
  assert (Hv : input_validators input call (hParams h') = input_validators input call (hParams k')) by (unfold input_validators; by rewrite Hp).
  unfold turn_body. cbn [streamFn with_params with_history params state Recipe].
  rewrite <- (same_fn _ _ H), <- Hv, <- (same_state _ _ H), <- (same_recipe _ _ H).
  destruct (match is_tick input call with true => _ | false => _ end) as [p|e]; [|done].
  destruct (run_turn_same (with_params (input_validators input call (hParams h')) (with_history h' s))
              (with_params (input_validators input call (hParams h')) (with_history k' t)) (is_tick input call) p c)
    as (Hx & Hy & Hz & _); try done; try apply H; [].
  cbn. intros Ha. apply (proj2 Hk). by apply (auto_current _ _ H).
Qed.

(** ** A token carries the stream

    A stream opened with the parameters [p0] of a recipe that gob keeps as it
    is, and that asks for no hints. *)
Context (gob_states : forall u, exists b, gobEncode u = Ok b /\ b <> [] /\ gobDecode b = Ok u).
Context (r0 : InitRecipe) (f0 : F) (p0 : ProcessParams B).
Context (rebuilt : rebuild r0 = Ok (f0, resumed p0)) (stable : gob_recipe r0 = r0) (kind : shape f0 = Some TableInOutFunction).
Context (no_hints : without_hints (Call p0) = Call p0) (no_splits : SplitPayloads p0 = None).

(** All of the parameters but the filters, the validators and the caller. *)
Definition frame (p : ProcessParams B) : ProcessParams B := with_current None (bare p).
Lemma resumed_frame : resumed p0 = frame p0.
Proof using no_hints no_splits. unfold resumed, frame, bare, with_current, with_validators, with_auth. cbn. by rewrite no_hints, no_splits. Qed.
Lemma frame_call p : frame p = frame p0 -> Call p = Call p0.
Proof. exact (fun H => f_equal Call H). Qed.

Abbreviation snapshot_of := (deserializeFiltersForMetadata AllowsSpatial f0 (Call p0)).
(** The deltas a stream has taken, and the filters and history they left. *)
Definition history_of (cur : option FilterDelta.PushdownFilters) (ds : list bytes) (order : list string) : Prop :=
  match PushdownFiltersBatch (Call p0) with
  | None => cur = None /\ ds = []
  | Some batch => exists pf0 taken pf, snapshot_of batch = Ok pf0 /\ cur = Some pf /\
      Forall (well_formed DeserializeRecordBatch (JoinKeys (Call p0)) pf0) taken /\
      fold_result (FilterDelta.applyTick DeserializeRecordBatch (JoinKeys (Call p0))) {| current := pf0; deltas := []; FilterDelta.order := [] |} taken =
        Ok {| current := pf; deltas := ds; FilterDelta.order := order |}
  end.
(** A filter update the stream can take and read again. *)
Definition tick_fits (md : list (string * string)) : Prop :=
  forall raw batch pf0, tick_delta md = Ok (Some raw) -> PushdownFiltersBatch (Call p0) = Some batch -> snapshot_of batch = Ok pf0 ->
    well_formed DeserializeRecordBatch (JoinKeys (Call p0)) pf0 raw.
Definition turn_fits (x : Input * Call_ * C) : Prop :=
  tick_fits (InputMetadata x.1.2) /\ tick_fits (default [] (BatchMetadata x.1.1)).

Record live (s : TableInOut) : Prop := {
  live_recipe : Recipe s = r0;
  live_fn : streamFn s = f0;
  live_frame : frame (params s) = frame p0;
  live_auto : is_Some (autoApply s) <-> AutoApplyFilters f0 = true /\ is_Some (PushdownFiltersBatch (Call p0));
  live_state : state s = None -> gobEncode None = Ok (UserStateBytes s);
  live_history : history_of (CurrentPushdownFilters (params s)) (FilterDeltaIPC s) (FilterPredicateOrder s)
}.

Lemma history_current cur ds order : history_of cur ds order -> is_Some (PushdownFiltersBatch (Call p0)) -> is_Some cur.
Proof. unfold history_of. intros H [batch Hb]. rewrite Hb in H. destruct H as (pf0 & taken & pf & _ & -> & _). by eexists. Qed.

Definition history_ok (h : history) : Prop :=
  frame (hParams h) = frame p0 /\ history_of (CurrentPushdownFilters (hParams h)) (hDeltas h) (hOrder h).

Lemma applyTick_history h md b h' : history_ok h -> tick_fits md -> applyTick h md = (Ok b, h') -> history_ok h'.
Proof.
  intros [Hf Hh] Hfit E. assert (Hc := frame_call _ Hf).
  assert (Hseed : seed_filters (hParams h) = Ok (hParams h)).
  { unfold seed_filters. rewrite Hc. destruct (CurrentPushdownFilters (hParams h)) eqn:Ep; [done|].
    destruct (PushdownFiltersBatch (Call p0)) eqn:Eb; [|done]. by destruct (history_current _ _ _ Hh). }
  unfold applyTick, applyTickFilters in E. rewrite Hseed in E.
  destruct (tick_delta md) as [[raw|]|] eqn:Ed; [| |done].
  2:{ injection E as _ <-. by destruct h. }
  destruct (DeserializeRecordBatch raw) as [batch|] eqn:Er; [|done].
  destruct (CurrentPushdownFilters (hParams h)) as [pf|] eqn:Ep; [|done]. rewrite Hc in E.
  destruct (applyDelta pf batch _) as [[carried pf']|] eqn:Ea; [|done]. cbn in E.
  destruct (recordFilterDelta _ _ _ _ _) as [ds|] eqn:Erec; [|done]. injection E as _ <-. split; [exact Hf|].
  unfold history_of in *. cbn. destruct (PushdownFiltersBatch (Call p0)) as [sb0|] eqn:Eb; [|by destruct Hh].
  destruct Hh as (pf0 & taken & pf1 & Hs & [= <-] & Hw & Hfold). exists pf0, (taken ++ [raw]), pf'.
  split; [done|]. split; [done|]. split.
  - apply Forall_app. split; [done|]. constructor; [|constructor]. by eapply Hfit.
  - rewrite fold_result_app, Hfold. cbn. unfold FilterDelta.applyTick. rewrite Er. cbn [current deltas]. by rewrite Ea, Erec.
Qed.

Lemma tick_updates_history input call h h' : history_ok h -> tick_fits (InputMetadata call) -> tick_fits (default [] (BatchMetadata input)) ->
  tick_updates input call h = (Ok (), h') -> history_ok h'.
Proof.
  intros Hh H1 H2 E. unfold tick_updates in E. destruct (applyTick h _) as [[[]|] h1] eqn:E1; [| |done].
  - injection E as <-. exact (applyTick_history _ _ _ _ Hh H1 E1).
  - assert (Hh1 := applyTick_history _ _ _ _ Hh H1 E1). destruct (BatchMetadata input) as [md|]; [|by injection E as <-].
    destruct (applyTick h1 md) as [[b|] h2] eqn:E2; [|done]. injection E as <-. exact (applyTick_history _ _ _ _ Hh1 H2 E2).
Qed.

Lemma mutated_none (u v : option S) : mutated u v = None -> u = None.
Proof. by destruct u, v. Qed.

Lemma run_turn_live s tick p c r t c' : live s -> run_turn s tick p c = (r, t, c') -> live t.
Proof.
  intros Hl E. unfold run_turn in E. destruct (run _ _ _ _ _ _ _) as [[user x] tn].
  assert (Hs : forall b, live (with_pending b (with_state (mutated (state s) user) s)) /\ live (with_state (mutated (state s) user) s)).
  { intros b. split; (split; [apply Hl..| |apply Hl]); cbn; intros Hn%mutated_none; by apply Hl. }
  destruct (match x with Ok _ => _ | Err e => Err e end); [|by injection E as _ <- _; apply (Hs true)].
  destruct (_ && _); injection E as _ <- _; apply (Hs true) || apply Hs.
Qed.

Lemma exchange_live s input call c t c' : live s -> turn_fits (input, call, c) -> Exchange s input call c = (Ok (), t, c') -> live t.
Proof.
  intros Hl [H1 H2] E. unfold Exchange in E.
  destruct (tick_updates input call _) as [r h] eqn:Et. destruct r as [[]|]; [|done].
  assert (Hh : history_ok h).
  { eapply tick_updates_history; [|exact H1|exact H2|exact Et]. split; [apply Hl|]. apply Hl. }
  destruct (refused_input _ _ _); [done|]. destruct (turn_body _ _ _) as [p|]; [|done].
  eapply run_turn_live, E. destruct Hh as [Hf Hh]. split; cbn; try apply Hl; [exact Hf|exact Hh].
Qed.

(** Writing a live stream to a token and rebuilding it. *)
Lemma rehydrated s : live s -> exists tok t, GobEncode s = Ok tok /\ rehydrateTableInOut tok = Ok t /\ same s t /\ live t.
Proof using gob_states rebuilt stable kind no_hints no_splits.
  intros Hl. assert (Hu : exists usb, snapshot_state (state s) (UserStateBytes s) = Ok usb /\ usb <> [] /\ gobDecode usb = Ok (state s)).
  { unfold snapshot_state. destruct (state s) as [u|] eqn:Eu; [apply gob_states|].
    exists (UserStateBytes s). destruct (gob_states None) as (b & Hb & Hne & Hd). rewrite (live_state _ Hl Eu) in Hb.
    injection Hb as ->. done. }
  destruct Hu as (usb & Hsnap & Hne & Hdec).
  assert (Hrep : replayed f0 (resumed p0) (FilterDeltaIPC s) (FilterPredicateOrder s) =
                 Ok (with_current (CurrentPushdownFilters (params s)) (resumed p0))).
  { unfold replayed. assert (Hh := live_history _ Hl). unfold history_of in Hh. unfold with_snapshot.
    assert (Hc : Call (resumed p0) = Call p0) by exact no_hints. rewrite Hc.
    destruct (PushdownFiltersBatch (Call p0)) as [batch|] eqn:Eb.
    - destruct Hh as (pf0 & taken & pf & Hs & Hcur & Hw & Hfold). rewrite Hs. cbn [lift_err]. rewrite Hcur.
      assert (Hre := replay_stream _ _ _ _ _ _ _ _ _ Hs Hw Hfold). cbn [deltas order current] in Hre. destruct Hre as [Hre _].
      cbn [CurrentPushdownFilters with_current Call]. rewrite Hc, Hre. cbn.
      destruct (FilterDeltaIPC s) as [|d ds]; [|done]. cbn in Hre. by injection Hre as ->.
    - destruct Hh as [Hcur ->]. cbn [lift_err]. rewrite Hcur. done. }
  eexists _, _. split; [|split].
  { unfold GobEncode. rewrite Hsnap. cbn. reflexivity. }
  { unfold rehydrateTableInOut. cbn [wirePending wireState wireRecipe wireDeltas wireOrder].
    rewrite bool_decide_false by done. rewrite andb_false_r. rewrite (live_recipe _ Hl), stable, rebuilt.
    rewrite kind, bool_decide_true by done. cbn [negb]. rewrite Hrep. unfold restored_state. rewrite Hdec.
    destruct usb; [done|]. reflexivity. }
  assert (Hb : bare (params s) = bare (with_current (CurrentPushdownFilters (params s)) (resumed p0))).
  { rewrite resumed_frame, <- (live_frame _ Hl). done. }
  assert (Hauto : is_Some (restored_auto f0 (with_current (CurrentPushdownFilters (params s)) (resumed p0))) <->
                  AutoApplyFilters f0 = true /\ is_Some (PushdownFiltersBatch (Call p0))).
  { unfold restored_auto, auto_apply. cbn [Call with_current resumed PushdownFiltersBatch without_hints CurrentPushdownFilters].
    destruct (AutoApplyFilters f0); cbn; [|split; [by intros []|by intros []]].
    case_bool_decide as Hp; [|split; [by intros []|by intros []]]. split; [done|].
    intros _. by eapply history_current; [apply Hl|]. }
  split.
  - split; cbn; try done; [by rewrite (live_recipe _ Hl)|by apply Hl| |].
    + by rewrite (live_auto _ Hl).
    + intros [_ Hp]%(live_auto _ Hl). by eapply history_current; [apply Hl|].
  - split; cbn; try done; [by rewrite resumed_frame| | apply Hl].
    intros Hn. unfold snapshot_state in Hsnap. rewrite Hn in Hsnap. injection Hsnap as <-. by apply Hl.
Qed.

Lemma same_trans s t u : same s t -> same t u -> same s u.
Proof.
  intros H K. split; try (etrans; [apply H|apply K]). apply H.
Qed.

(** A stream and a copy of it written to a token after every turn. *)
Lemma transports_agree l : forall s t, live t -> same s t -> Forall turn_fits l -> in_memory s l = over_http (GobEncode t) l.
Proof using gob_states rebuilt stable kind no_hints no_splits.
  induction l as [|[[input call] c] l IH]; intros s t Ht Hst Hl; [done|].
  apply Forall_cons in Hl as [Hx Hl]. cbn [in_memory over_http].
  destruct (rehydrated t Ht) as (tok & u & -> & Hre & Htu & Hu). cbn [lift_err]. rewrite Hre.
  destruct (exchange_same s u input call c (same_trans _ _ _ Hst Htu)) as (Hr & Hc & Hs).
  destruct (Exchange s input call c) as [[r s'] c1] eqn:Es, (Exchange u input call c) as [[r' u'] c2] eqn:Eu.
  cbn [fst snd] in *. subst r' c2. f_equal. destruct r as [[]|]; [|done].
  apply IH; [|by apply Hs|done]. by eapply exchange_live.
Qed.
End streams.

(** ** Streams that init opens *)

Section transport.
Context `{Unicode} `{Aead} {W P X B F S : Type}.
Context (read_ipc : bytes -> result string (list ArrowData.Field * option (list column))).
Context (DeserializeRecordBatch : bytes -> result string RecordBatch) (SerializeRecordBatch : RecordBatch -> result string bytes).
Context (DeserializeSchema : bytes -> result string Schema) (has_schema : RecordBatch -> Schema -> bool).
Context (shape : F -> option FunctionShape) (ArgumentSpecs : F -> list ArgSpec).
Context (ProjectionPushdown AutoApplyFilters AllowsSpatial : F -> bool).
Context (OnInit : F -> InitParams B -> result string GlobalInitResponse).
Context (Redeem : F -> option (InitParams B -> result string ())).
Context (NewState : F -> ProcessParams B -> result string (option S)).
Context (Finalize : F -> ProcessParams B -> option S -> result string (list RecordBatch)).
Context (BufferFinalize : F -> ProcessParams B -> bytes -> result string (list RecordBatch)).
Context (CacheMeta : F -> result string (option (gmap string string))).
Context (gobEncode : option S -> result string bytes) (gobDecode : bytes -> result string (option S)).
Context (encodeInitRecipe : InitRecipe -> result string bytes).
Context {World : Type} (log : ExecutionStorage (B := B) -> bytes -> bytes -> World -> result string Z * World).
Context (Process : F -> ProcessParams B -> option S -> RecordBatch -> body (option S)).
Context (Resume : F -> option (ProcessParams B -> option S -> body (option S))).
Context {C : Type} (look : C -> layout).
Context (put : (RecordBatch -> result fault RecordBatch) -> C -> RecordBatch -> option metadata -> result fault () * C).
Context (Evaluate : FilterDelta.PushdownFilters -> RecordBatch -> result string Array).
Context (filter_batch : RecordBatch -> Array -> result string RecordBatch).

Abbreviation init_stream := (handleInit (W := W) (P := P) (X := X) read_ipc DeserializeRecordBatch SerializeRecordBatch DeserializeSchema has_schema
  shape ArgumentSpecs ProjectionPushdown AutoApplyFilters AllowsSpatial OnInit Redeem NewState Finalize BufferFinalize CacheMeta
  gobEncode encodeInitRecipe (apply_filters Evaluate filter_batch) log).
Abbreviation rebuild_in w := (rebuildProcessParams (W := W) (P := P) (X := X) read_ipc DeserializeRecordBatch DeserializeSchema shape ArgumentSpecs ProjectionPushdown w).
Abbreviation memory := (in_memory DeserializeRecordBatch Process Resume look put Evaluate filter_batch).
Abbreviation http w := (over_http DeserializeRecordBatch AutoApplyFilters AllowsSpatial Process Resume look put Evaluate filter_batch
  gobEncode gobDecode (rebuild_in w) shape NewState).

Lemma opened_live w cc req fresh world world' res s :
  is_ok (DeserializeRecordBatch []) = false -> (forall u, exists b, gobEncode u = Ok b /\ b <> [] /\ gobDecode b = Ok u) ->
  init_stream w (Some cc) req fresh world = (Ok res, world') -> StreamState_ res = TableInOutExchange s ->
  order_by req = None -> table_sample req = None ->
  rebuild_in w (Recipe s) = Ok (streamFn s, resumed (params s)) /\ shape (streamFn s) = Some TableInOutFunction /\
  without_hints (Call (params s)) = Call (params s) /\ SplitPayloads (params s) = None /\
  live DeserializeRecordBatch AutoApplyFilters AllowsSpatial gobEncode (Recipe s) (streamFn s) (params s) s /\ same s s.
Proof.
  intros Hipc Hgob E Hs Ho Ht. unfold handleInit in E. destruct (open_init _ _ _ _ _ _ w (Some cc) req) as [o|] eqn:Eo; [|done].
  destruct (shape (openedFn o)) as [k|] eqn:Ek; [|done].
  assert (exists ph, k = TableInOutFunction /\ initTableInOut SerializeRecordBatch has_schema AutoApplyFilters AllowsSpatial OnInit NewState Finalize
    gobEncode (apply_filters Evaluate filter_batch) w (openedFn o) (openedInit o) (openedCall o) (openedWire o) ph (openedRecipe o) fresh = Ok res)
    as (ph & -> & Ei).
  { destruct k.
    - injection E as E _. unfold initScalar in E. destruct (getOrCreateStorage _ _ _); [|done]. apply ok_inj in E. by rewrite <- E in Hs.
    - destruct (_ || _); [done|]. injection E as E _. unfold initTable in E.
      repeat (match type of E with (match ?c with _ => _ end) = _ => destruct c; [|discriminate E] | (let '(_, _) := ?q in _) = _ => destruct q end).
      repeat match goal with q : (_ * _)%type |- _ => destruct q end.
      repeat (match type of E with (match ?c with _ => _ end) = _ => destruct c; [|discriminate E] end). apply ok_inj in E. by rewrite <- E in Hs.
    - destruct (RequestPhase req) as [ph|]; [|done]. injection E as E _. by exists ph.
    - unfold initTableBuffering in E. destruct (getOrCreateStorage _ _ _); [|done]. destruct (failed (with_snapshot _ _ _)); [|done].
      destruct (bool_decide _).
      + injection E as E _. destruct (RequestFinalizeStateID req); [|done]. destruct (failed (BufferFinalize _ _ _)); [|done].
        destruct (finalize_stream _ _ _ _ _ _ _ _) as [[]|]; [|done]. destruct (failed (CacheMeta _)); [|done]. apply ok_inj in E. by rewrite <- E in Hs.
      + destruct (encodeInitRecipe _); [|done]. destruct (log _ _ _ _) as [n w']. injection E as E _. destruct (failed n); [|done].
        apply ok_inj in E. by rewrite <- E in Hs. }
  destruct (open_init_hints _ _ _ _ _ _ _ _ _ _ Eo) as [Hh1 Hh2].
  destruct (init_in_out_rebuilt _ _ _ _ _ _ _ _ _ _ _ _ _ _ _ Hipc _ _ _ _ _ _ _ _ Eo Ei) as [(? & ? & ? & ? & Hf)|(t & Ht' & [Hr Hw] & H1 & H2 & H3 & H4 & H5 & H6 & H7 & H8)];
    [by rewrite Hs in Hf|]. rewrite Hs in Ht'. injection Ht' as <-.
  assert (Hn : without_hints (Call (params s)) = Call (params s)).
  { rewrite H7. rewrite Ho in Hh1. rewrite Ht in Hh2. destruct (openedCall o). cbn in *. by subst. }
  assert (Hcur : is_Some (PushdownFiltersBatch (Call (params s))) -> is_Some (CurrentPushdownFilters (params s))).
  { intros [batch Hb]. unfold with_snapshot in Hw. cbn [Call resumed without_hints PushdownFiltersBatch] in Hw. rewrite Hb in Hw.
    destruct (deserializeFiltersForMetadata _ _ _ _) as [pf|]; [|done]. apply ok_inj, (f_equal CurrentPushdownFilters) in Hw. cbn in Hw. rewrite <- Hw. by eexists. }
  split; [done|]. split; [by rewrite H8|]. split; [done|]. split; [done|]. split.
  - split; try done.
    + rewrite H5. unfold auto_apply. destruct (AutoApplyFilters (streamFn s)); cbn; [|split; [by intros []|by intros []]].
      case_bool_decide as Hp; [|split; [by intros []|by intros []]]. split; [done|]. by intros _; apply Hcur.
    + intros Hu. by rewrite Hu in H4.
    + unfold history_of. unfold with_snapshot in Hw. cbn [Call resumed without_hints PushdownFiltersBatch] in Hw.
      destruct (PushdownFiltersBatch (Call (params s))) as [batch|] eqn:Eb.
      * change (deserializeFiltersForMetadata AllowsSpatial (streamFn s) (without_hints (Call (params s))) batch)
          with (deserializeFiltersForMetadata AllowsSpatial (streamFn s) (Call (params s)) batch) in Hw.
        destruct (deserializeFiltersForMetadata _ _ _ _) as [pf|] eqn:Ed; [|done].
        apply ok_inj, (f_equal CurrentPushdownFilters) in Hw. cbn in Hw. exists pf, [], pf. split; [done|]. split; [done|]. split; [constructor|].
        by rewrite H2, H3.
      * apply ok_inj, (f_equal CurrentPushdownFilters) in Hw. cbn in Hw. by rewrite H2, <- Hw.
  - split; try done. rewrite H5. unfold auto_apply. intros Ha. destruct (_ && _) eqn:Ep; [done|by destruct Ha].
Qed.

End transport.
