(* ===== verification/Reply.v ===== *)
(** * Reply: the replies of a table-in-out exchange (vgi/continuation.go,
    vgi/batch_emit.go, vgi/protocol.go)

    What the client sees of a turn, over any collector that keeps at most one
    batch: the pending state of a stream is what its last reply said, ticks and
    inputs alternate accordingly, and the parent rows of a filtered reply are
    those of the rows that are left. *)

From S2P Require Import CatalogContents CatalogRoute Envelope SplitToken Overload Storage ExecutionStorage.
From S2P Require Import Prelude Bytes Base64 Strings Unicode ArrowTypes ArrowData Arguments ArgConstraints BindResult Bind.
From S2P Require Import FilterV2 FilterDelta FilterEval Emit Init Exchange.

(** ** The collector's promise *)

Definition status_of (r : option (RecordBatch * option metadata)) : string :=
  match r with
  | Some (_, Some md) => default "" (md !! statusKey)
  | _ => ""
  end.

(** A collector keeps one batch a turn, as the interceptor leaves it, and
    reflection shows the status of the batch it keeps. *)
Class Collector {C : Type} (look : C -> layout)
    (put : (RecordBatch -> result fault RecordBatch) -> C -> RecordBatch -> option metadata -> result fault () * C) := {
  reply : C -> option (RecordBatch * option metadata);
  put_kept : forall f c b md c', put f c b md = (Ok (), c') ->
    reply c = None /\ exists b', f b = Ok b' /\ reply c' = Some (b', md);
  put_failed : forall f c b md e c', put f c b md = (Err e, c') -> reply c' = reply c;
  look_reply : forall c, emittedStatus (look c) = Some (status_of (reply c))
}.

(** A function that emits through the helpers only. *)
Fixpoint helpers {St} (p : body St) : Prop :=
  match p with
  | Return _ _ => True
  | EmitWith _ _ _ k | EmitParents _ _ _ k => forall r, helpers (k r)
  | EmitRaw _ _ _ => False
  end.

Section runs.
Context {C : Type} {look : C -> layout}.
Context {put : (RecordBatch -> result fault RecordBatch) -> C -> RecordBatch -> option metadata -> result fault () * C}.
Context {collector : Collector look put}.
Context (Evaluate : FilterDelta.PushdownFilters -> RecordBatch -> result string Array).
Context (filter_batch : RecordBatch -> Array -> result string RecordBatch).
Context (icept : interceptor).

(** A property of a turn that every emission keeps holds at the end. *)
Lemma run_keeps {St} (Q : turn -> Prop) (s0 : St) (p : body St) :
  (forall batch md t, Q t -> Q (snd (emitAnnotated put icept batch md t))) ->
  (forall t tr, Q t -> tracker t = Some tr -> Q {| out := out t; tracker := Some (with_prefiltered true tr) |}) ->
  (helpers p \/ forall batch md t, Q t -> Q (snd (emit_raw put icept batch md t))) ->
  forall t, Q t -> Q (snd (run put Evaluate filter_batch icept s0 p t)).
Proof.
  intros Hemit Hpre.
  assert (Hwith : forall base batch opts t, Q t -> Q (snd (emit_with put icept base batch opts t))).
  { intros base batch opts t Ht. unfold emit_with. destruct (applyEmitOptions base opts); [by apply Hemit|done]. }
  assert (Hparents : forall batch ps opts t, Q t -> Q (snd (EmitParentRows put Evaluate filter_batch icept batch ps opts t))).
  { intros batch ps opts t Ht. unfold EmitParentRows. destruct (negb _); [done|].
    assert (Hp : forall x, prefilter Evaluate filter_batch batch ps t = Ok x -> Q (snd x)).
    { intros x. unfold prefilter. destruct (tracker t) as [tr|] eqn:Et; [|by intros <-%ok_inj].
      destruct (filters tr) as [fs|]; [|by intros <-%ok_inj]. destruct (0 <? NumRows batch)%Z; [|by intros <-%ok_inj].
      destruct (filterParentRows _ _ _ _ _) as [[b' ps']|]; [|done]. intros <-%ok_inj. by apply Hpre. }
    destruct (prefilter _ _ _ _ _) as [[[b' ps'] t']|]; [|done]. apply Hwith. by specialize (Hp _ eq_refl). }
  assert (Hstep : forall (k : result string () -> body St) (rt : result fault () * turn),
    (forall r t, Q t -> Q (snd (run put Evaluate filter_batch icept s0 (k r) t))) -> Q (snd rt) ->
    Q (snd (match fst rt with
            | Ok _ => run put Evaluate filter_batch icept s0 (k (Ok ())) (snd rt)
            | Err (Failed e) => run put Evaluate filter_batch icept s0 (k (Err e)) (snd rt)
            | Err (Panicked w) => (s0, Err (Panicked w), snd rt)
            end))).
  { intros k [r t] Hk Ht. cbn [fst snd] in *. destruct r as [|[]]; [by apply Hk..|done]. }
  induction p as [s r|base batch opts k IH|batch ps opts k IH|batch md k IH]; intros Hh t Ht; cbn [run].
  - done.
  - apply Hstep; [|by apply Hwith]. intros r t' Ht'. apply IH; [|done]. destruct Hh as [Hh|Hh]; [left; apply Hh|by right].
  - apply Hstep; [|by apply Hparents]. intros r t' Ht'. apply IH; [|done]. destruct Hh as [Hh|Hh]; [left; apply Hh|by right].
  - destruct Hh as [[]|Hh]. apply Hstep; [|by apply Hh]. intros r t' Ht'. apply IH; [by right|done].
Qed.

(** A tracked turn: what never changes of the tracker, and that it says more
    only when the reply does. *)
Definition tracked (tr0 : replyTracker) (t : turn) : Prop :=
  exists tr, tracker t = Some tr /\ resumable tr = resumable tr0 /\ continuation tr = continuation tr0 /\
    (more tr = true -> resumable tr = true /\ exists b md, reply (out t) = Some (b, md) /\ says_more md = true).

Lemma put_keeps f c b md x : reply c = Some x -> reply (snd (put f c b md)) = Some x.
Proof.
  intros Hx. destruct (put f c b md) as [[[]|e] c'] eqn:E.
  - apply put_kept in E as [Hn _]. congruence.
  - apply put_failed in E. cbn. by rewrite E.
Qed.

Lemma emit_tracked tr0 batch md t : tracked tr0 t -> tracked tr0 (snd (emitAnnotated put icept batch md t)).
Proof.
  intros (tr & Ht & Hr & Hc & Hm). unfold emitAnnotated. rewrite Ht. unfold refused.
  destruct (says_more md && negb (resumable tr)) eqn:E1; [by exists tr|].
  destruct (continuation tr && hasCacheControlKeys (default ∅ md)); [by exists tr|].
  destruct (put _ _ _ _) as [r c] eqn:Ep. cbn [snd]. eexists. split; [done|]. split; [|split].
  - destruct r as [[]|]; done.
  - destruct r as [[]|]; done.
  - destruct r as [[]|e]; cbn.
    + intros Hs. rewrite Hs in E1. apply put_kept in Ep as (_ & b' & _ & Hb).
      split; [by destruct (resumable tr)|]. by exists b', md.
    + intros Hmore. destruct (Hm Hmore) as (? & b & md' & Hb & Hs). split; [done|]. apply put_failed in Ep. rewrite Ep. by exists b, md'.
Qed.

Lemma raw_tracked tr0 batch md t : tracked tr0 t -> tracked tr0 (snd (emit_raw put icept batch md t)).
Proof.
  intros (tr & Ht & Hr & Hc & Hm). unfold emit_raw. destruct (put _ _ _ _) as [r c] eqn:Ep. cbn [snd]. exists tr.
  split; [done|]. split; [done|]. split; [done|]. intros Hmore. destruct (Hm Hmore) as (? & b & md' & Hb & Hs).
  split; [done|]. exists b, md'. split; [|done]. change c with (snd (r, c)). rewrite <- Ep. by apply put_keeps.
Qed.

Lemma run_tracked {St} (s0 : St) p tr0 t : tracked tr0 t -> tracked tr0 (snd (run put Evaluate filter_batch icept s0 p t)).
Proof.
  apply run_keeps; [intros; by apply emit_tracked| |right; intros; by apply raw_tracked].
  intros t' tr (tr' & Ht & Hr & Hc & Hm) Htr. rewrite Ht in Htr. injection Htr as ->. by exists (with_prefiltered true tr).
Qed.

(** On a tick the helpers let no cache control through. *)
Definition uncached (t : turn) : Prop :=
  (exists tr, tracker t = Some tr /\ continuation tr = true) /\
  forall b md, reply (out t) = Some (b, md) -> hasCacheControlKeys (default ∅ md) = false.
Lemma run_uncached {St} (s0 : St) p t : helpers p -> uncached t -> uncached (snd (run put Evaluate filter_batch icept s0 p t)).
Proof.
  intros Hp. apply run_keeps; [| |by left].
  - intros batch md t' [(tr & Ht & Hc) Hu]. unfold emitAnnotated. rewrite Ht. unfold refused.
    destruct (says_more md && negb (resumable tr)); [by split; [exists tr|]|].
    rewrite Hc. cbn [andb]. destruct (hasCacheControlKeys _) eqn:Ek; [by split; [exists tr|]|].
    destruct (put _ _ _ _) as [r c] eqn:Ep. cbn [snd]. split.
    + eexists. split; [done|]. by destruct r as [[]|].
    + cbn [out]. destruct r as [[]|e].
      * apply put_kept in Ep as (_ & b' & _ & Hb). rewrite Hb. by intros b md0 [= _ <-].
      * apply put_failed in Ep. by rewrite Ep.
  - intros t' tr [(tr' & Ht & Hc) Hu] Htr. rewrite Ht in Htr. injection Htr as ->. split; [|done]. by exists (with_prefiltered true tr).
Qed.
End runs.

Lemma status_says b md : status_of (Some (b, md)) = statusHaveMoreOutput <-> says_more md = true.
Proof.
  unfold status_of, says_more. destruct md as [md|]; cbn; [|by split].
  rewrite bool_decide_eq_true. destruct (md !! statusKey); cbn; [|by split]. split; [by intros ->|by intros [= ->]].
Qed.

Section exchange.
Context {B F S : Type} (DeserializeRecordBatch : bytes -> result string RecordBatch).
Context (Process : F -> ProcessParams B -> option S -> RecordBatch -> body (option S)).
Context (Resume : F -> option (ProcessParams B -> option S -> body (option S))).
Context {C : Type} {look : C -> layout}.
Context {put : (RecordBatch -> result fault RecordBatch) -> C -> RecordBatch -> option metadata -> result fault () * C}.
Context {collector : Collector look put}.
Context (Evaluate : FilterDelta.PushdownFilters -> RecordBatch -> result string Array).
Context (filter_batch : RecordBatch -> Array -> result string RecordBatch).
Abbreviation exchange := (Exchange DeserializeRecordBatch Process Resume look put Evaluate filter_batch).
Abbreviation turn_of := (run_turn Resume look put Evaluate filter_batch).

(** What a turn of the function leaves behind. *)
Lemma run_turn_pending (s : TableInOutExchangeState (B := B) (F := F) (S := S)) tick p c r s' c' :
  reply c = None -> turn_of s tick p c = (r, s', c') ->
  match r with
  | Ok _ => (MorePending s' = true <-> status_of (reply c') = statusHaveMoreOutput) /\
            (MorePending s' = true -> is_Some (Resume (streamFn s)) /\ is_Some (state s'))
  | Err _ => MorePending s' = MorePending s
  end.
Proof using collector.
  intros Hc E. unfold run_turn in E.
  assert (H0 : tracked (new_tracker Resume s tick) {| out := c; tracker := Some (new_tracker Resume s tick) |}) by by eexists.
  apply (run_tracked Evaluate filter_batch (exchange_interceptor Evaluate filter_batch (autoApply s) (params s)) (state s) p) in H0.
  destruct (run _ _ _ _ _ _ _) as [[user x] t]. cbn [snd] in H0. destruct H0 as (tr & Ht & Hr & _ & Hm).
  rewrite Ht in E. cbn [default from_option id] in E. unfold id in E.
  destruct x as [[]|e]; [|by injection E as <- <- <-]. unfold checkReplyStatus in E. rewrite look_reply in E.
  destruct (negb _ || more tr) eqn:Es; [|by injection E as <- <- <-]. cbn in E.
  destruct (more tr && _) eqn:En; [by injection E as <- <- <-|]. injection E as <- <- <-.
  cbn [MorePending with_pending with_state state]. split.
  - split.
    + intros Hmore. destruct (Hm Hmore) as (_ & b & md & -> & Hs). by apply status_says.
    + intros Hs. apply orb_true_iff in Es as [Es|Es]; [|done]. apply negb_true_iff, bool_decide_eq_false in Es. done.
  - intros Hmore. destruct (Hm Hmore) as [Hres _]. rewrite Hr in Hres. cbn in Hres. apply bool_decide_eq_true in Hres. split; [done|].
    rewrite Hmore in En. cbn in En. apply bool_decide_eq_false in En. cbn in En. by destruct (mutated _ _).
Qed.

Lemma run_turn_uncached (s : TableInOutExchangeState (B := B) (F := F) (S := S)) p c r s' c' b md :
  helpers p -> reply c = None -> turn_of s true p c = (r, s', c') -> reply c' = Some (b, md) -> hasCacheControlKeys (default ∅ md) = false.
Proof using collector.
  intros Hp Hc E Hb. unfold run_turn in E.
  assert (H0 : uncached {| out := c; tracker := Some (new_tracker Resume s true) |}) by (split; [by eexists|cbn; by rewrite Hc]).
  apply (run_uncached Evaluate filter_batch (exchange_interceptor Evaluate filter_batch (autoApply s) (params s)) (state s) p _ Hp) in H0.
  destruct (run _ _ _ _ _ _ _) as [[user x] t]. cbn [snd] in H0. destruct H0 as [_ Hu].
  assert (out t = c') as <-.
  { destruct (match x with Ok _ => _ | Err e => Err e end); [destruct (_ && _)|]; by injection E. }
  by eapply Hu.
Qed.

(** C14: the rules of continued output. A turn that succeeds was a continuation
    tick exactly when output was pending, and a tick had no rows; afterwards
    output is pending exactly when the reply on the wire says so, and then the
    function can resume and has a state to resume from; a reply to a tick that
    went through the helpers carries no cache control. An input out of turn is
    refused before the function runs, and a turn that fails leaves what is
    pending as it was. *)
Theorem exchange_protocol (s : TableInOutExchangeState (B := B) (F := F) (S := S)) input call c r s' c' :
  reply c = None -> exchange s input call c = (r, s', c') ->
  let tick := is_tick input call in
  ((tick <> MorePending s \/ (tick = true /\ NumRows (InputBatch input) <> 0%Z)) -> is_ok r = false /\ c' = c /\ state s' = state s) /\
  match r with
  | Ok _ =>
      tick = MorePending s /\ (tick = true -> NumRows (InputBatch input) = 0%Z) /\
      (MorePending s' = true <-> status_of (reply c') = statusHaveMoreOutput) /\
      (MorePending s' = true -> is_Some (Resume (streamFn s)) /\ is_Some (state s')) /\
      (forall b md, tick = true -> (forall resume p u, Resume (streamFn s) = Some resume -> helpers (resume p u)) ->
         reply c' = Some (b, md) -> hasCacheControlKeys (default ∅ md) = false)
  | Err _ => MorePending s' = MorePending s
  end.
Proof using collector.
  intros Hc E tick. unfold Exchange in E. fold tick in E.
  destruct (tick_updates _ input call _) as [u h]. destruct u as [[]|e]; [|injection E as <- <- <-; by split].
  destruct (refused_input _ tick input) as [e|] eqn:Er.
  { injection E as <- <- <-. by split. }
  assert (Hok : tick = MorePending s /\ (tick = true -> NumRows (InputBatch input) = 0%Z)).
  { unfold refused_input in Er. cbn [MorePending with_history] in Er. destruct tick, (MorePending s); try done. cbn in Er.
    split; [done|]. intros _. by destruct (NumRows (InputBatch input) =? 0)%Z eqn:En; [apply Z.eqb_eq in En|]. }
  split; [intros [?|[Ht ?]]; [by destruct Hok|by destruct Hok as [_ Hok]; apply Hok in Ht]|].
  destruct (turn_body _ _ _ tick input) as [p|e] eqn:Eb; [|by injection E as <- <- <-].
  assert (Hp := run_turn_pending _ _ _ _ _ _ _ Hc E). destruct r as [[]|e]; [|exact Hp].
  destruct Hok as [Hok1 Hok2]. split; [done|]. split; [done|]. destruct Hp as [Hp1 Hp2]. split; [done|]. split; [done|].
  intros b md Ht Hh Hb. rewrite Ht in E, Eb. unfold turn_body in Eb. cbn [streamFn with_params with_history params state] in Eb.
  destruct (Resume (streamFn s)) as [resume|] eqn:Eres; [|done]. apply ok_inj in Eb as <-.
  eapply run_turn_uncached; [|exact Hc|exact E|exact Hb]. by apply Hh.
Qed.
End exchange.

(** ** Parent rows *)

(** What the client reads: the int32 at every fourth byte. *)
Fixpoint unpack (l : bytes) : list Z :=
  match l with
  | a :: b :: c :: d :: l => s32 (le_dec [a; b; c; d]) :: unpack l
  | _ => []
  end.
Definition parents_of (md : option metadata) : option (list Z) :=
  match default ∅ md !! metaParentRow with
  | Some text => unpack <$> StdDecodeString text
  | None => Some []
  end.
Definition int32 (z : Z) : Prop := (- 2 ^ 31 <= z < 2 ^ 31)%Z.

Lemma unpack_pack l : Forall int32 l -> unpack (pack l) = l.
Proof.
  induction 1 as [|z l Hz _ IH]; [done|]. unfold pack. cbn [flat_map]. fold (pack l).
  assert (Hd := le_dec_enc 4 (u32 z)). destruct (le_enc 4 (u32 z)) as [|a [|b [|c [|d [|]]]]] eqn:E;
    try (assert (Hn := length_le_enc 4 (u32 z)); rewrite E in Hn; discriminate Hn).
  cbn [app unpack]. rewrite Hd, IH. f_equal. unfold s32, u32, int32 in *. change (256 ^ Z.of_nat 4)%Z with (2 ^ 32)%Z.
  rewrite ?Zmod_mod. change (2 ^ 31)%Z with 2147483648%Z in *. change (2 ^ 32)%Z with 4294967296%Z in *.
  rewrite Zplus_mod_idemp_l, Z.mod_small by lia. lia.
Qed.

(** Options that leave the parent rows as they are. *)
Definition keeps_parents (o : option EmitOption) : Prop :=
  match o with Some opt => forall md md', opt md = Ok md' -> md' !! metaParentRow = md !! metaParentRow | None => True end.
Lemma fold_keeps opts md md' : Forall keeps_parents opts -> fold_options md opts = Ok md' -> md' !! metaParentRow = md !! metaParentRow.
Proof.
  intros H. revert md. induction H as [|[opt|] opts Ho _ IH]; intros md E; cbn in E; [by apply ok_inj in E as <-| |by apply IH].
  destruct (opt md) as [md1|] eqn:E1; [|done]. rewrite (IH _ E). by apply Ho.
Qed.
Lemma select_Forall {A} (P : A -> Prop) m l : Forall P l -> Forall P (select m l).
Proof. intros H. revert m. induction H as [|x l Hx _ IH]; intros [|c m]; cbn; try done. destruct (is_true c); [by constructor|done]. Qed.

Section parents.
Context {B : Type} {C : Type} {look : C -> layout}.
Context {put : (RecordBatch -> result fault RecordBatch) -> C -> RecordBatch -> option metadata -> result fault () * C}.
Context {collector : Collector look put}.

Lemma emit_with_reply icept base b opts t t' : Forall keeps_parents opts -> emit_with put icept base b opts t = (Ok (), t') ->
  exists b' md, icept (tracker t) b = Ok b' /\ reply (out t') = Some (b', md) /\ default ∅ md !! metaParentRow = base !! metaParentRow.
Proof.
  intros Ho E. unfold emit_with, applyEmitOptions in E. destruct (fold_options base opts) as [md|] eqn:Ef; [|done].
  unfold emitAnnotated in E. destruct (refused _ _); [done|]. destruct (put _ _ _ _) as [r c] eqn:Ep. injection E as -> <-.
  apply put_kept in Ep as (_ & b' & Hb & Hr). eexists b', _. split; [done|]. split; [exact Hr|].
  rewrite <- (fold_keeps _ _ _ Ho Ef). case_bool_decide as He; [by rewrite He|done].
Qed.

Lemma narrowed_rows (p : ProcessParams B) b b' : narrowed p b = Ok b' -> NumRows b' = NumRows b.
Proof.
  unfold narrowed, selectColumnsByName. destruct (_ && _); [|by intros <-%ok_inj].
  destruct (map_result _ _); [|done]. by intros <-%ok_inj.
Qed.
Lemma parents_read rows md : Forall int32 rows ->
  default ∅ md !! metaParentRow = (if (Z.of_nat (length rows) =? 0)%Z then ∅ else parent_rows rows) !! metaParentRow -> parents_of md = Some rows.
Proof.
  intros Hr Hm. unfold parents_of. rewrite Hm. destruct rows as [|z rows]; [done|].
  rewrite (proj2 (Z.eqb_neq (Z.of_nat (length (z :: rows))) 0)) by done. unfold parent_rows.
  rewrite lookup_singleton_eq, StdDecode_Encode. cbn [fmap option_fmap option_map]. by rewrite unpack_pack.
Qed.

(** A mask's rows and their parents are kept together. *)
Lemma select_length {A} n mask (l : list A) b : well_formed_mask n mask -> length l = n ->
  NumRows (keep_rows (Cells mask) b) = Z.of_nat (length (select (Cells mask) l)).
Proof. intros (_ & Hn & _) Hl. cbn. by rewrite select_count by congruence. Qed.

Context (format_g : float64 -> string) (evaluator : option (RecordBatch -> string -> result string Array)).
Context (and_kleene FilterArray : Array -> Array -> result string Array).
Context (FilterRecordBatch : RecordBatch -> Array -> result string RecordBatch).
Context (Indices Dictionary : Array -> Array) (NewDictionaryArray : DataType -> Array -> Array -> Array).
Abbreviation evaluate := (FilterEval.Evaluate format_g evaluator and_kleene).
Abbreviation filter := (FilterEval.filter_batch FilterArray FilterRecordBatch Indices Dictionary NewDictionaryArray).

(** C15: parent rows stay with their rows. When [EmitParentRows] succeeds in a
    stream, the reply has the rows of the batch that the stream's filters keep,
    in order and narrowed to the columns of the call, and the parent rows the
    client decodes from its metadata are those of exactly these rows, one for
    each - whatever the filters drop, and also when they drop everything. *)
Theorem parents_aligned (auto : option FilterDelta.PushdownFilters) (p : ProcessParams B) (batch : RecordBatch)
    (parentRows : list Z) (opts : list (option EmitOption)) (t t' : turn (C := C)) tr :
  kernels and_kleene FilterArray FilterRecordBatch Indices Dictionary NewDictionaryArray ->
  evaluator_masks evaluator -> well_formed_batch batch -> Forall int32 parentRows -> Forall keeps_parents opts ->
  tracker t = Some tr -> filters tr = active_filters auto p -> prefiltered tr = false ->
  EmitParentRows put evaluate filter (exchange_interceptor evaluate filter auto p) batch parentRows opts t = (Ok (), t') ->
  exists b md kept rows, reply (out t') = Some (b, md) /\ narrowed p kept = Ok b /\ parents_of md = Some rows /\
    NumRows b = Z.of_nat (length rows) /\
    match active_filters auto p with
    | Some pf => exists mask, evaluate pf batch = Ok mask /\ kept = keep_rows (Cells mask) batch /\ rows = select (Cells mask) parentRows
    | None => kept = batch /\ rows = parentRows
    end.
Proof using collector.
  intros K E Hb Hr Ho Ht Hf Hpre Hemit. unfold EmitParentRows in Hemit.
  destruct (Z.of_nat (length parentRows) =? NumRows batch)%Z eqn:Hl; [apply Z.eqb_eq in Hl|done]. cbn [negb] in Hemit.
  unfold prefilter in Hemit. rewrite Ht, Hf in Hemit. unfold exchange_interceptor in Hemit.
  destruct (active_filters auto p) as [pf|].
  - assert (Hkept : forall mask kept, evaluate pf batch = Ok mask -> filter batch mask = Ok kept ->
        kept = keep_rows (Cells mask) batch /\ NumRows kept = Z.of_nat (length (select (Cells mask) parentRows))).
    { intros mask kept Hm Hk. assert (Hw := evaluate_wf _ _ _ _ _ _ _ _ K E _ _ _ Hm).
      rewrite (filter_batch_exact _ _ _ _ _ _ K _ _ Hb Hw) in Hk. apply ok_inj in Hk as <-. split; [done|].
      apply (select_length (FilterEval.rows batch)); [done|]. unfold FilterEval.rows. lia. }
    destruct (0 <? NumRows batch)%Z eqn:Hn.
    + unfold filterParentRows in Hemit. destruct (evaluate pf batch) as [mask|] eqn:Em; [|done].
      destruct (bool_decide _); [|done]. destruct (filter batch mask) as [kept|] eqn:Ek; [|done].
      destruct (Hkept _ _ eq_refl Ek) as [Hk Hk']. apply emit_with_reply in Hemit as (b & md & Hi & Hrep & Hmd); [|done].
      cbn in Hi. exists b, md, kept, (select (Cells mask) parentRows). split; [done|]. split; [done|]. rewrite Hk' in Hmd.
      split; [by apply parents_read; [apply select_Forall|]|]. split; [by rewrite (narrowed_rows _ _ _ Hi)|]. by exists mask.
    + assert (Hz : parentRows = []) by (destruct parentRows; [done|cbn in Hl; lia]). subst parentRows.
      cbn in Hl. rewrite <- Hl in Hemit. apply emit_with_reply in Hemit as (b & md & Hi & Hrep & Hmd); [|done].
      rewrite Ht, Hpre in Hi. unfold apply_filters in Hi. destruct (evaluate pf batch) as [mask|] eqn:Em; [|done].
      cbn [of_string lift_err] in Hi. destruct (filter batch mask) as [kept|] eqn:Ek; [|done]. cbn in Hi.
      destruct (Hkept _ _ eq_refl Ek) as [Hk Hk']. exists b, md, kept, (select (Cells mask) []). split; [done|]. split; [done|].
      assert (select (Cells mask) (@nil Z) = []) as Hs by by destruct (Cells mask).
      rewrite Hs in *. split; [by apply parents_read|]. split; [by rewrite (narrowed_rows _ _ _ Hi)|]. by exists mask.
  - apply emit_with_reply in Hemit as (b & md & Hi & Hrep & Hmd); [|done]. exists b, md, batch, parentRows.
    split; [done|]. split; [done|]. rewrite <- Hl in Hmd. split; [by apply parents_read|].
    split; [|done]. by rewrite (narrowed_rows _ _ _ Hi).
Qed.
End parents.
