(* ===== verification/StreamExamples.v ===== *)
(** * StreamExamples: a worker of one table-in-out function

    A worker, a collector that keeps one batch and a function that goes on
    after its input: the theorems of the streams on a concrete exchange, with
    filters, a filter update during the stream, a projection and continued
    output. *)

From S2P Require Import CatalogContents CatalogRoute Envelope SplitToken Overload Storage ExecutionStorage.
From S2P Require Import Prelude Bytes Base64 Strings Unicode ArrowTypes ArrowData Arguments ArgConstraints BindResult Bind.
From S2P Require Import FilterV2 FilterDelta FilterEval Emit Init Exchange Reply.

Module Sink.
(** A collector of one batch. *)
Definition sink : Type := option (RecordBatch * option metadata).
Definition put (f : RecordBatch -> result fault RecordBatch) (c : sink) (b : RecordBatch) (md : option metadata) : result fault () * sink :=
  match c with
  | Some _ => (Err (Failed "only one data batch"), c)
  | None => match f b with Ok b => (Ok (), Some (b, md)) | Err e => (Err e, c) end
  end.
Definition look (c : sink) : layout :=
  match c with
  | None => {| dataBatchIdx := Some (-1)%Z; batches := Some [] |}
  | Some (_, md) =>
      {| dataBatchIdx := Some 0%Z;
         batches := Some [Some {| meta := Some ((fun m => let l := map_to_list m in (Some l.*1, Some l.*2)) <$> md) |}] |}
  end.

Lemma value_beside_list key (l : list (string * string)) : value_beside key l.*1 l.*2 = (list_to_map l : metadata) !! key.
Proof.
  induction l as [|[k v] l IH]; [done|]. cbn. case_bool_decide as E.
  - subst. by rewrite lookup_insert_eq.
  - by rewrite lookup_insert_ne.
Qed.
#[export] Instance sink_collector : Collector look put.
Proof.
  refine {| reply := fun c => c |}.
  - intros f [c|] b md c'; cbn; [done|]. destruct (f b); [|done]. intros [= <-]. split; [done|]. by eexists.
  - intros f [c|] b md e c'; cbn; [by intros [= _ <-]|]. destruct (f b); [done|]. by intros [= _ <-].
  - intros [[b [m|]]|]; [|done..]. assert (Hm := value_beside_list statusKey (map_to_list m)). rewrite list_to_map_to_list in Hm.
    unfold status_of. cbn [default from_option id]. rewrite <- Hm. unfold emittedStatus. cbn -[map_to_list statusKey].
    change (Z.to_nat 0) with 0. cbn [lookup list_lookup meta]. by rewrite !length_fmap, Nat.eqb_refl.
Defined.
End Sink.

Module StreamExample.
Export Sink.
#[local] Existing Instance AsciiText.ascii_text.
#[local] Existing Instance DigestAead.digest_aead.
Import EnvelopeExamples BindExample.

Ltac by_vm := match goal with |- _ = ?b => vm_cast_no_check (eq_refl b) end.

(** ** The function *)

(** It sends its input on, then once more from its state, and counts down. *)
Definition settle (u : option nat) (r : result string ()) : body (option nat) :=
  match r with Ok _ => Return u (Ok ()) | Err e => Return u (Err (Failed e)) end.
Definition Process (f : nat) (p : ProcessParams ()) (u : option nat) (b : RecordBatch) : body (option nat) :=
  EmitParents b (map Z.of_nat (seq 0 (rows b))) [Some (WithMoreOutput true)] (settle (Some 1)).
Definition again (u : option nat) : body (option nat) :=
  let left := pred (default 0 u) in
  EmitWith ∅ EvalExample.scanned [Some (WithMoreOutput (0 <? left)%nat)] (settle (Some left)).
Definition Resume (f : nat) : option (ProcessParams () -> option nat -> body (option nat)) := Some (fun _ => again).
Definition NewState (f : nat) (p : ProcessParams ()) : result string (option nat) := Ok (Some 0).
Definition OnInit (f : nat) (p : InitParams ()) : result string GlobalInitResponse :=
  Ok {| RespExecutionID := None; MaxWorkers := 2; RespOpaqueData := None |}.
Definition in_out (f : nat) : option FunctionShape := Some TableInOutFunction.
Definition no_specs (f : nat) : list ArgSpec := [].
Definition yes (f : nat) : bool := true.
Definition no (f : nat) : bool := false.

(** States as gob writes them. *)
Definition gobEncode (u : option nat) : result string bytes :=
  Ok (match u with None => [x00] | Some n => x01 :: repeat x00 n end).
Definition gobDecode (b : bytes) : result string (option nat) :=
  match b with x01 :: l => Ok (Some (length l)) | x00 :: _ => Ok None | _ => Err "gob" end.
Lemma gob_states u : exists b, gobEncode u = Ok b /\ b <> [] /\ gobDecode b = Ok u.
Proof. destruct u as [n|]; eexists; (split; [done|]); (split; [done|]); cbn; by rewrite ?repeat_length. Qed.

(** ** The worker *)

Definition field (n : string) (t : DataType) : Field := {| FieldName := n; FieldType := t; Nullable := true; Metadata := [] |}.
Definition full_schema : Schema :=
  {| SchemaFields := [field "n" INT64; field "tag" EvalExample.tag_type]; SchemaMetadata := []; BigEndian := false |}.
Definition DeserializeSchema (b : bytes) : result string Schema := if bool_decide (b = [x01]) then Ok full_schema else Err "no schema".
Definition Deser (b : bytes) : result string RecordBatch := if bool_decide (b = [x10]) then Ok Example.snapshot else Example.Deser b.
Definition Ser (b : RecordBatch) : result string bytes := Ok [].
Definition functions_of_cat : Registry nat :=
  {| catalogName := "cat"; reg := fun k n => if bool_decide (k = kindTableInOut /\ n = "f") then [7] else [];
     funcOrigins := fun k n => if bool_decide (k = kindTableInOut /\ n = "f") then [{| catalog := "cat"; schema := "main"; unlisted := false |}] else [] |}.
Definition worker : InitWorker (W := nat) (P := string) (X := nat) (B := ()) (F := nat) :=
  {| serving := {| served := routes_of_cat; functions := functions_of_cat; functionStorage := Some () |};
     splits := {| sw_httpSigningKey := sb "k"; sw_catalog := None |} |}.
Definition request : InitRequestWire :=
  {| BindCall := {| Bind.FunctionName := "f"; RequestArguments := [x01]; Bind.FunctionType := "TABLE"; RequestInputSchema := Some [x01];
                    RequestSettings := None; RequestSecrets := None; RequestAttach := Some minted; RequestTransaction := None;
                    ResolvedSecretsProvided := false; AtUnit := None; AtValue := None; RequestCopyFrom := None; RequestCopyTo := None;
                    RequestSchemaPath := Some ["Main"]; RequestArgumentNames := None |};
     RequestOutputSchema := [x01]; RequestBindOpaqueData := None; RequestProjectionIDs := Some [0%Z]; RequestPushdownFilters := Some [x10];
     RequestJoinKeys := None; RequestSplitTokens := None; RequestRowLimit := None; RequestPhase := Some "INPUT"; RequestFinalizeStateID := None;
     RequestExecutionID := None; RequestInitOpaqueData := None; RequestSubstreamID := None; OrderByColumnName := None; OrderByDirection := None;
     OrderByNullOrder := None; OrderByLimit := None; TablesamplePercentage := None; TablesampleSeed := None |}.

Definition evaluate := FilterEval.Evaluate EvalExample.no_float (Some EvalExample.evaluator) EvalExample.and_kleene.
Definition filter_rows := FilterEval.filter_batch EvalExample.FilterArray EvalExample.FilterRecordBatch EvalExample.Indices (fun d => d) EvalExample.NewDictionaryArray.
Abbreviation arguments_of := (sends (engine_args [ints 42] [])).

Definition opened_at (w : ()) : result init_fault StreamResult * () :=
  handleInit arguments_of Deser Ser DeserializeSchema (fun _ _ => true) in_out no_specs yes yes no OnInit (fun _ => None) NewState
    (fun _ _ _ => Ok []) (fun _ _ _ => Ok []) (fun _ => Ok None) gobEncode (fun _ => Ok []) (apply_filters evaluate filter_rows)
    (fun _ _ _ w => (Ok 0%Z, w)) worker (Some (ctx (Some alice))) request uuid w.
Definition stream_in (r : result init_fault (StreamResult (B := ()) (F := nat) (S := nat)) * ()) : option TableInOutExchangeState :=
  match fst r with Ok r => match StreamState_ r with TableInOutExchange s => Some s | _ => None end | Err _ => None end.
Lemma stream_in_Some r s : stream_in r = Some s -> exists res, r = (Ok res, ()) /\ StreamState_ res = TableInOutExchange s.
Proof.
  destruct r as [[res|] []]; cbn; [|done]. intros E. exists res. split; [done|]. destruct (StreamState_ res); try done.
  by injection E as ->.
Qed.
Lemma surjective_pairing3 {A B C} (x : A * B * C) : x = (fst (fst x), snd (fst x), snd x).
Proof. by destruct x as [[]]. Qed.
Lemma some_not_None {A} (o : option A) : bool_decide (is_Some o) = true -> o <> None.
Proof. by destruct o. Qed.
Definition opened_stream : option TableInOutExchangeState := stream_in (opened_at ()).
Definition get {A} (o : option A) : bool_decide (is_Some o) = true -> A :=
  match o with Some a => fun _ => a | None => fun H => match Bool.diff_false_true H with end end.
Lemma get_Some {A} (o : option A) H : o = Some (get o H).
Proof. by destruct o. Qed.
Lemma opens : bool_decide (is_Some opened_stream) = true.
Proof. by_vm. Qed.
Definition stream : TableInOutExchangeState (B := ()) (F := nat) (S := nat) := get opened_stream opens.

(** ** The exchange *)

Definition no_rows : RecordBatch := keep_rows [] EvalExample.scanned.
Definition said (md : list (string * string)) : Call_ := {| CallAuth := Some alice; InputMetadata := md |}.
Definition tick_call : Call_ := said [(statusKey, statusContinue); ("vgi_pushdown_filters", StdEncodeToString [x01])].
(** An input, a tick that brings a filter update, and the next input, which
    comes with cache validators; a second tick is refused. *)
Definition turns : list (Input * Call_ * sink) :=
  [({| InputBatch := EvalExample.scanned; BatchMetadata := None |}, said [], None);
   ({| InputBatch := no_rows; BatchMetadata := None |}, tick_call, None);
   ({| InputBatch := EvalExample.scanned; BatchMetadata := Some [(CacheIfNoneMatchKey, "v1")] |}, said [], None);
   ({| InputBatch := EvalExample.scanned; BatchMetadata := None |}, said [], None)].
Abbreviation memory := (in_memory Deser Process Resume look put evaluate filter_rows).
Abbreviation rebuild := (rebuildProcessParams arguments_of Deser DeserializeSchema in_out no_specs yes worker).
Abbreviation http := (over_http Deser yes no Process Resume look put evaluate filter_rows gobEncode gobDecode rebuild in_out NewState).

(** What the client sees of a reply: its columns, its parent rows and whether
    more follows. *)
Definition seen (x : result fault () * sink) : option (list (string * list cell) * option (list Z) * string) :=
  match x with
  | (Ok _, Some (b, md)) => Some (map (fun fa => (FieldName (fst fa), Cells (snd fa))) (Columns b), parents_of md, status_of (Some (b, md)))
  | _ => None
  end.

Lemma opened_as : exists res, opened_at () = (Ok res, ()) /\ StreamState_ res = TableInOutExchange stream.
Proof. exact (stream_in_Some _ _ (get_Some opened_stream opens)). Qed.
Lemma no_empty_batch : is_ok (Deser []) = false.
Proof. by_vm. Qed.
Lemma recipe_stable : gob_recipe (Recipe stream) = Recipe stream.
Proof. by_vm. Qed.
Definition update_fits : bool :=
  match PushdownFiltersBatch (Call (params stream)) with
  | Some batch =>
      match deserializeFiltersForMetadata no 7 (Call (params stream)) batch with
      | Ok pf0 => well_formedb Deser (JoinKeys (Call (params stream))) pf0 [x01]
      | Err _ => true
      end
  | None => true
  end.
Lemma function_7 : streamFn stream = 7.
Proof. by_vm. Qed.
Lemma updates_fit : update_fits = true.
Proof. by_vm. Qed.
Lemma turns_fit : Forall (turn_fits Deser no (streamFn stream) (params stream)) turns.
Proof.
  assert (Hnone : forall md, tick_delta md = Ok None -> tick_fits Deser no (streamFn stream) (params stream) md)
    by (intros md Hd raw batch pf0 Hr; rewrite Hd in Hr; discriminate Hr).
  assert (Hupdate : tick_fits Deser no (streamFn stream) (params stream) (InputMetadata tick_call)); [|
    repeat apply Forall_cons_2; [..|apply Forall_nil_2]; (split; [first [exact Hupdate|apply Hnone; by_vm]|apply Hnone; by_vm])].
  intros raw batch pf0 Hd Hb Hp. assert (tick_delta (InputMetadata tick_call) = Ok (Some [x01])) as Ht by by_vm.
  rewrite Ht in Hd. injection Hd as <-. apply well_formedb_ok.
  assert (H := updates_fit). unfold update_fits in H. rewrite Hb, <- function_7, Hp in H. exact H.
Qed.


Lemma filters_set : bool_decide (is_Some (CurrentPushdownFilters (params stream))) = true.
Proof. by_vm. Qed.

(** ** A tick *)

Abbreviation turn_at s x := (Exchange Deser Process Resume look put evaluate filter_rows s (fst (fst x)) (snd (fst x)) None).
Definition first_turn : Input * Call_ * sink := ({| InputBatch := EvalExample.scanned; BatchMetadata := None |}, said [], None).
Definition tick_turn : Input * Call_ * sink := ({| InputBatch := no_rows; BatchMetadata := None |}, tick_call, None).
Definition pending : TableInOutExchangeState := snd (fst (turn_at stream first_turn)).
Lemma no_status (b : bool) : (b = true <-> "" = statusHaveMoreOutput) -> b = false.
Proof. destruct b; [|done]. intros [H _]. by specialize (H eq_refl). Qed.
Lemma no_reply : reply (Collector := sink_collector) None = None.
Proof. done. Qed.
Lemma tick_answers : fst (fst (turn_at pending tick_turn)) = Ok ().
Proof. by_vm. Qed.
Lemma tick_reply : status_of (reply (Collector := sink_collector) (snd (turn_at pending tick_turn))) = "".
Proof. by_vm. Qed.
Lemma not_more : (MorePending (snd (fst (turn_at pending tick_turn))) = true <-> status_of (reply (Collector := sink_collector) (snd (turn_at pending tick_turn))) = statusHaveMoreOutput) ->
  MorePending (snd (fst (turn_at pending tick_turn))) = false.
Proof. rewrite tick_reply. apply no_status. Qed.

Lemma exchange_protocol_witness :
  is_tick (fst (fst tick_turn)) (snd (fst tick_turn)) = MorePending pending /\
  MorePending (snd (fst (turn_at pending tick_turn))) = false.
Proof.
  assert (E : turn_at pending tick_turn = (Ok (), snd (fst (turn_at pending tick_turn)), snd (turn_at pending tick_turn)))
    by (rewrite <- tick_answers; apply surjective_pairing3).
  destruct (exchange_protocol Deser Process Resume evaluate filter_rows pending (fst (fst tick_turn)) (snd (fst tick_turn)) None _ _ _ no_reply E)
    as [_ (H1 & _ & H3 & _)].
  exact (conj H1 (not_more H3)).
Defined.

(** ** Parent rows *)

Abbreviation emitting := {| out := None; tracker := Some (new_tracker Resume stream false) |}.
Abbreviation emission := (EmitParentRows put evaluate filter_rows (exchange_interceptor evaluate filter_rows (autoApply stream) (params stream))
    EvalExample.scanned [10; 11; 12; 13]%Z [Some (WithMoreOutput true)] emitting).
Lemma bind_value {A B} (o : option A) (f : A -> option B) x y : o = Some x -> (o ≫= f) = y -> f x = y.
Proof. by intros ->. Qed.
Lemma emission_ok : fst emission = Ok ().
Proof. by_vm. Qed.
Lemma emitted_parents : (reply (Collector := sink_collector) (out (snd emission)) ≫= fun r => parents_of (snd r)) = Some [11; 12]%Z.
Proof. by_vm. Qed.
Lemma more_keeps_parents : Forall keeps_parents [Some (WithMoreOutput true)].
Proof. constructor; [|done]. intros md md' E%ok_inj. subst. by rewrite lookup_insert_ne. Qed.
Lemma parents_small : Forall int32 [10; 11; 12; 13]%Z.
Proof. unfold int32. repeat constructor; lia. Qed.
Lemma scanned_fits : well_formed_batch EvalExample.scanned.
Proof. repeat constructor. Qed.

Lemma parents_aligned_witness :
  exists b md kept, reply (Collector := sink_collector) (out (snd emission)) = Some (b, md) /\ narrowed (params stream) kept = Ok b /\
    parents_of md = Some [11; 12]%Z /\ NumRows b = 2%Z.
Proof.
  assert (E : emission = (Ok (), snd emission)) by (rewrite <- emission_ok; apply surjective_pairing).
  destruct (parents_aligned EvalExample.no_float (Some EvalExample.evaluator) EvalExample.and_kleene EvalExample.FilterArray
    EvalExample.FilterRecordBatch EvalExample.Indices (fun d => d) EvalExample.NewDictionaryArray (autoApply stream) (params stream)
    EvalExample.scanned [10; 11; 12; 13]%Z [Some (WithMoreOutput true)] emitting (snd emission) (new_tracker Resume stream false)
    EvalExample.documented EvalExample.evaluator_promise scanned_fits parents_small more_keeps_parents eq_refl eq_refl eq_refl E)
    as (b & md & kept & rows & Hr & Hn & Hp & Hl & _).
  exists b, md, kept. assert (H := bind_value _ _ _ _ Hr emitted_parents). cbn [snd] in H.
  split; [exact Hr|]. split; [exact Hn|]. split; [exact H|]. rewrite H in Hp. injection Hp as <-. exact Hl.
Defined.

(** An emit that is refused after the rows were filtered: the next one of the
    turn is sent as it is, with the rows the filters exclude. *)
Definition bad_scope : CacheControl :=
  {| Ttl := None; Expires := ""; Scope := "everyone"; NoStore := false; ETag := ""; LastModified := ""; Revalidatable := false;
     StaleWhileRevalidate := None; StaleIfError := None; NotModified := false; PartitionScope := false; PerValue := false |}.
Definition retrying : body (option nat) :=
  EmitParents EvalExample.scanned [10; 11; 12; 13]%Z [Some (WithCacheControl (fun l => l) (Some bad_scope))]
    (fun r => match r with
              | Ok _ => Return (Some 0) (Ok ())
              | Err _ => EmitWith ∅ EvalExample.scanned [] (settle (Some 0))
              end).
Definition retried : result fault () * TableInOutExchangeState * sink := run_turn Resume look put evaluate filter_rows stream false retrying None.
Example refused_emit_leaves_rows :
  seen (fst (fst retried), snd retried) = Some ([("n", [CInt 1; CInt 3; CInt 95; CNull])], Some [], "").
Proof. by_vm. Qed.
End StreamExample.
